(* ===== verification/_CoqProject ===== *)
-Q . S2P
Prelude.v
PyStr.v
Budgets.v
Contracts.v
Goals.v
RouteTable.v
NodeBase.v
Claims.v
NodesPlan.v
NodesSolve.v
NodesJudge.v
NodesStore.v
Fence.v
Lease.v
OpLedger.v
HopCommit.v
HashChain.v
Queue.v
Idempotency.v
Quota.v
Mea.v
Skills.v
EvalStore.v
Library.v
SkillGates.v
Portfolio.v
Lifecycle.v
Promotion.v
SkillOps.v
Access.v
ApiKeys.v
ClientKey.v
Console.v
Callers.v
RunListing.v
Admission.v
RunWorker.v
DayCap.v
EmbeddedWorker.v
ModelCalls.v
CommandPolicy.v
ToolRuntime.v
Workspace.v
SkillApply.v
Engine.v
Graph.v
