(* ===== verification/Prelude.v ===== *)
(** * Recertia: a verification development

    Recertia runs tasks through a fixed graph of fifteen nodes (intake,
    retrieve, plan, ... finalize), checks what the solver did against frozen
    criteria, and keeps what it learns.  This development models the runtime
    around that graph and proves what makes it correct.  Source paths below are
    relative to src/src/recertia/ (the package) and src/contracts/.

    ** Parts and files

    - [Prelude]: Python exceptions, the result and state-exception monads,
      record update, binary64 floats and sorting; used by every file.
    - [PyStr]: the str, repr, shlex and path functions the goal compiler uses,
      with reference readers for shell words and Python literals.
    - [Budgets] (contracts/budget.py), [Contracts] (contracts/run.py,
      criteria.py, branch.py, failure.py, resources.py), [RouteTable]
      (contracts/graph.py): the data and its validators.
    - [Goals] (contracts/goal.py, validation/freeze.py, validation/critic.py):
      from a goal to frozen criteria.
    - [NodeBase] (nodes/context.py, attempt.py), [NodesPlan] (intake, retrieve,
      plan, fan_out), [NodesSolve] (the solve paths), [NodesJudge] (validate,
      join, classify_failure, evolve), [NodesStore] (distill, review, store,
      record_dead_end, reject_draft, finalize): one definition per node, a
      function from a [RunState] and a context to a monad over a world [W].
    - [Engine] (graph/engine.py): hop, loop, start and resume, over an abstract
      checkpoint store and abstract nodes; [Graph] closes both interfaces with
      the fifteen nodes and with [HopCommit].
    - [Fence] (persistence/fence.py), [Lease] (graph/lease.py): who may write.
    - [OpLedger] (graph/ops.py), [HopCommit] (runtime/hop.py, graph/store.py),
      [Queue] (workers/queue.py), [Idempotency] (persistence/idempotency.py):
      the durable tables and the transactions on them.
    - [HashChain] (ledger/*.py, contracts/ledger.py, fsutil/jsonl.py): the
      hash-chained audit ledger on its file, sidecar and cached tip, with JSON,
      SHA-256 and HMAC as parameters of a class; it appends under [Fence].
    - [Quota] (contracts/policy.py, jobs/quota_repo.py, jobs/__init__.py): the
      weekly job quota, its reservations and the runner on them.
    - [Claims] (solver/claims.py): the resource claims of parallel steps, a
      transition system over critical sections; [NodesPlan] uses its conflicts.
    - [Mea] (contracts/audited_task_state.py, mea/*.py): the audited task state,
      the auditor's delta and the two hooks that bind it to a run.
    - [Skills] (contracts/skill.py, status.py, stats.py): what a skill version,
      its status and its counters are, and every validator on them.
    - [EvalStore] (evals/store.py, contracts/eval.py, stats.py,
      memory/procedural/contribution.py): observations of finished runs, the
      aggregates over them and the interval estimators in binary64.
    - [Library] (memory/procedural/store.py, allocate.py, lineage.py,
      apply_diversity.py, hygiene.py, seeds/signature.py, contracts/lint.py):
      the skill directory tree, version numbers, the lineage index and the
      revoke queue, over one [Library] state that [EvalStore] is a part of.
    - [SkillGates] (contracts/profiles.py, memory/procedural/lint.py,
      applicability.py), [Portfolio] (autonomy.py, memory/procedural/portfolio.py,
      active_set.py, retirement.py, live_mix.py), [Lifecycle] (review/lifecycle.py,
      shadow.py, field_failures.py, jobs/workers.py, composition.py), [Promotion]
      (review/promotion.py, promotion_audit.py): what lets a version move, and
      the moves; [SkillOps] puts all of them into one alphabet of operations.
    - [Access] (app/authz.py, ports/identity.py): principals and the table that
      decides what each may do; [ApiKeys] (api/auth.py): the key store;
      [ClientKey] (api/console_auth.py, oidc_client_key): which client a login
      start counts against; [Console] (the rest of console_auth.py): browser
      sessions, pending logins and the OIDC exchange; [Callers]
      (api/identity.py, deps.py, routes/auth.py): who a request is.
    - [RunListing] (app/run_listing.py, runtime/cursor.py, runtime/registry.py):
      the run list, a page at a time from three merged sources.
    - [Admission] (app/runs.py, api/quotas.py, runtime/workspace_lock.py and the
      request codec of workers/run_worker.py): create, resume, cancel and wait
      over one [Svc] state, of which [Queue] and [RunListing]'s registry are
      parts; [RunWorker] (workers/run_worker.py, embedded.py, the callbacks of
      app/state.py): one execution from its claim to its settled row, over any
      orchestrator; [DayCap]: the same requests and executions taken apart
      into the steps that others come between; [EmbeddedWorker]
      (workers/embedded.py): the polling thread's lifecycle, every transition
      under its guard one step.
    - [ModelCalls] (solver/model.py, resilience.py): a model call with its
      retries, deadline, spend and circuit breaker, over any provider and clock.
    - [CommandPolicy] (solver/command_policy.py, container.py, executor.py,
      ports/execution.py): which command may run, on which backend, and the
      process it becomes; [ToolRuntime] (solver/registry.py, cache.py,
      result_cache.py, runtime.py, handlers.py): one tool invocation with its
      approval, claims and cache, and every handler, over a world of services.
    - [Workspace] (workspace/snapshot.py, offload.py): the snapshot taken before
      an attempt and its restore, on directory trees, and offloaded directories;
      [SkillApply] (solver/apply.py, bindings.py): a skill's steps in waves, each
      rolled back when it fails, over any [invoke] and snapshot store.

    ** How state corresponds

    A pydantic model is a record in the source's field order and
    [model_copy(update=...)] a record update (which, as in pydantic, runs no
    validator); a SQLite table is a finite map from its primary key and a
    transaction a function to the new tables or an exception; concurrent code
    is a transition system over its atomic steps.  An injected service (model
    provider, tools, memory, snapshots, reviewer) is a field of a record of
    operations on [W] that may raise; what a theorem needs of one is a named
    hypothesis with a witness.

    ** What the theorems show

    Graph: hops are few and legal, the run ends decided, pausing loses nothing.
    Nodes: accounting, gates, firewall, merging and repair.  Lease, Fence,
    OpLedger, HopCommit, Queue, Idempotency: a superseded holder is powerless,
    an effect happens once and once more for each interruption of it, commits
    are write-once and read back (given pydantic's own round trip), caps hold
    under every interleaving.  HashChain: acknowledged entries are
    never lost while writes are whole, a verified tip fixes the history, the short verification is the
    full one.  Quota: caps hold and reservations close once.  Claims: running
    steps share nothing and never wait in a cycle.  Mea: deltas apply once, the
    projection is their replay, complete means verified.  Skills, Library,
    SkillOps: the step check is exact, versions are immutable and their numbers
    never reused, a source finds its skills, and over every sequence of
    operations a version is approved only by its gate.  EvalStore: one
    observation a run, aggregates and streaks are what they say.  Portfolio,
    Lifecycle, Promotion: active sets stay under their cap, transitions need
    their evidence, refusals are audited.  Access, ApiKeys, Console, Callers:
    tenants stay apart, only a proven live key or a signed unexpired session is
    anyone, login starts stay bounded and are used once, forged headers choose
    no identity.  RunListing: a page is the reference page, a walk lists every run
    that keeps its position once.  Admission, RunWorker: a run id is accepted once, an execution settles
    its claim and charges once, queued requests read back.  DayCap: the daily cap
    is overshot by at most the queue and the requests that come at once.  EmbeddedWorker: one thread polls, and one that
    is asked to stop leaves.  ModelCalls: calls, time and spend are bounded, the
    circuit opens at its threshold, and a lost probe wedges it.  CommandPolicy,
    ToolRuntime: what a model's command looks like and where it runs, claims are
    given back, the cache serves only what was stored.  Workspace, SkillApply: what a
    rollback brings back where nothing is closed or hard-linked, waves respect
    dependencies and claims.  Goals: compiled commands and assertions are read
    back exactly.  Several theorems record where the code falls short of its own
    documentation; each says so.

    ** Bounds

    The loop's fuel is the engine's own step valve (500); a run of the nodes
    needs at most [5 * max_attempts + 10] hops, so 97 attempts always fit.
    Loops over lists are structural; the ledger's tail window doubles, and its
    fuel is the file's length.

    ** Not modelled

    HTTP, command line and operator tooling, providers, processes, schema
    scripts and migrations are I/O around these parts.  HMAC, PBKDF2, the
    provider's answers and the decoding of its tokens are parameters.  Of the skill
    library the golden gate's runner, fixture discovery, embeddings, digests and
    secret patterns are parameters or left out, and one operation is one step
    (a promotion two, around its gate): what two longer operations do when
    interleaved is not covered.  In the histories of [RunWorker] a request up to
    its wait and an execution are one step each.  Interpolated
    message texts are kept unformatted ([fmt]) or dropped; logging and metrics
    are left out; SQLite, the file system and the clock appear only through
    the operations named above. *)
From Stdlib Require Export ZArith Lia SpecFloat.
From stdpp Require Export base tactics option list strings countable gmap pretty sorting.

(** ** Python exceptions as values *)

(** One constructor per exception class the modelled code raises; the
    interpolated message text is dropped, the class is what callers test. *)
Inductive exn : Type :=
  | ValidationError          (* pydantic: a field constraint or validator fails *)
  | ValueError
  | AssertionError
  | RuntimeError
  | KeyError
  | FnError (what : string)  (* an exception raised by a caller-supplied callable *)
  | RoutingError
  | RunIdExistsError
  | RunCancelled
  | LeaseLost
  | RunBusy
  | OperationConflict
  | CheckpointConflict
  | IntegrityError
  | QuotaExceeded
  | InvalidTenantId
  | StaleClaim
  | LedgerUnavailable
  | LedgerVerificationError
  | BudgetExhaustedError
  | SqliteError               (* sqlite3.Error *)
  | PyError (cls : string)    (* an exception class named by the code *)
  | OtherError                (* any other exception of a service *).

#[export] Instance exn_eq_dec : EqDecision exn.
Proof. solve_decision. Defined.

Inductive result (A : Type) : Type :=
  | Ok (a : A)
  | Err (e : exn).
Arguments Ok {_} _.
Arguments Err {_} _.

#[export] Instance result_ret : MRet result := @Ok.
#[export] Instance result_bind : MBind result := λ A B f m,
  match m with Ok a => f a | Err e => Err e end.
#[export] Instance result_fmap : FMap result := λ A B f m,
  match m with Ok a => Ok (f a) | Err e => Err e end.

Definition is_ok {A} (r : result A) : bool :=
  match r with Ok _ => true | Err _ => false end.

(** [raise_unless b e]: the guard [if not b: raise e]. *)
Definition raise_unless (b : bool) (e : exn) : result unit :=
  if b then Ok tt else Err e.

Lemma bind_Ok_inv {A B} (m : result A) (f : A → result B) b :
  (m ≫= f) = Ok b → ∃ a, m = Ok a ∧ f a = Ok b.
Proof. destruct m; simpl; [eauto | discriminate]. Qed.

Lemma result_assoc {A B C} (m : result A) (f : A → result B) (g : B → result C) :
  (m ≫= f) ≫= g = m ≫= λ a, f a ≫= g.
Proof. by destruct m. Qed.

Lemma result_bind_ext {A B} (m : result A) (f g : A → result B) : (∀ a, f a = g a) → m ≫= f = m ≫= g.
Proof. destruct m; simpl; auto. Qed.

Lemma raise_unless_Ok b e u : raise_unless b e = Ok u ↔ b = true.
Proof. destruct b, u; simpl; split; congruence. Qed.

(** ** Record update, the pydantic [model_copy(update=...)] *)

Class Eta (R : Type) := eta : R → R.
Class Setter {R T : Type} (p : R → T) := setf : (T → T) → R → R.
Arguments setf {R T} p {_} f r : simpl nomatch.

Ltac mk_setter p :=
  match type of p with
  | ?R → ?T =>
    let g := fresh "g" in let r := fresh "r" in
    refine (fun (g : T → T) (r : R) => _);
    let e := eval hnf in (@eta R _ r) in
    let a := eval pattern (p r) in e in
    match a with ?F _ => let b := eval cbv beta in (F (g (p r))) in exact b end
  end.
#[export] Hint Extern 1 (@Setter _ _ ?p) => mk_setter p : typeclass_instances.

Declare Scope recertia_scope.
Delimit Scope recertia_scope with rec.
Notation "r <| p := v |>" := (setf p (λ _, v) r)
  (at level 1, left associativity, format "r  <| p  :=  v |>") : recertia_scope.
Open Scope recertia_scope.

(** ** Python floats: IEEE-754 binary64, through the kernel's [spec_float] *)

Definition float : Type := spec_float.
#[export] Instance float_eq_dec : EqDecision float.
Proof. unfold float; solve_decision. Defined.

Definition fadd : float → float → float := SFadd 53 1024.
Definition fsub : float → float → float := SFsub 53 1024.
Definition fmul : float → float → float := SFmul 53 1024.
Definition fdiv : float → float → float := SFdiv 53 1024.
Definition fopp : float → float := SFopp.
Definition fabs : float → float := SFabs.
Definition feqb : float → float → bool := SFeqb.
Definition fltb : float → float → bool := SFltb.
Definition fleb : float → float → bool := SFleb.
Definition f0 : float := S754_zero false.
(** [Z2f z] is Python's [float(z)]: the nearest binary64, ties to even. *)
Definition Z2f (z : Z) : float := binary_normalize 53 1024 z 0 false.
(** Python compares an int with a float exactly, without rounding the int. *)
Definition Z_ltb_f (z : Z) (x : float) : bool :=
  match x with
  | S754_zero _ => Z.ltb z 0
  | S754_infinity s => negb s
  | S754_nan => false
  | S754_finite s m e =>
      let v := cond_Zopp s (Zpos m) in
      if Z.leb 0 e then Z.ltb z (Z.shiftl v e) else Z.ltb (Z.shiftl z (- e)) v
  end.

(** [int(x)]: towards zero ([x] finite). *)
Definition f2Z (x : float) : Z :=
  match x with
  | S754_finite s m e => cond_Zopp s (if Z.leb 0 e then Z.shiftl (Zpos m) e else Z.shiftr (Zpos m) (- e))
  | _ => 0%Z
  end.

Infix "⊕" := fadd (at level 50, left associativity) : recertia_scope.
Infix "⊖" := fsub (at level 50, left associativity) : recertia_scope.
Infix "⊗" := fmul (at level 40, left associativity) : recertia_scope.
Infix "⊘" := fdiv (at level 40, left associativity) : recertia_scope.
Infix "<?." := fltb (at level 70) : recertia_scope.
Infix "<=?." := fleb (at level 70) : recertia_scope.

Example fadd_0_1_0_2 :
  (* 0.1 + 0.2 = 0.30000000000000004 *)
  S754_finite false 7205759403792794 (-56) ⊕ S754_finite false 7205759403792794 (-55)
  = S754_finite false 5404319552844596 (-54).
Proof. vm_compute. reflexivity. Qed.

(** Comparison of floats other than NaN is comparison of integer keys:
    (class, signed exponent, signed mantissa), lexicographically. *)
Definition fkey (x : float) : Z * Z * Z :=
  match x with
  | S754_nan => (3, 0, 0)
  | S754_infinity s => (if s then -2 else 2, 0, 0)
  | S754_zero _ => (0, 0, 0)
  | S754_finite s m e => if s then (-1, - e, - Zpos m) else (1, e, Zpos m)
  end%Z.
Definition is_nan (x : float) : bool := match x with S754_nan => true | _ => false end.
Definition key_lt (a b : Z * Z * Z) : Prop :=
  (a.1.1 < b.1.1 ∨ (a.1.1 = b.1.1 ∧ (a.1.2 < b.1.2 ∨ (a.1.2 = b.1.2 ∧ a.2 < b.2))))%Z.

Lemma fltb_key x y : is_nan x = false → is_nan y = false → (x <?. y) = true ↔ key_lt (fkey x) (fkey y).
Proof.
  intros Hx Hy. unfold fltb, SFltb, key_lt.
  destruct x as [[]|[]| |[] m e], y as [[]|[]| |[] m' e']; simpl in *; try discriminate;
    try (split; intros; (discriminate || lia || reflexivity));
    destruct (Z.compare_spec e e'); fold (Pos.compare m m'); try destruct (Pos.compare_spec m m');
    simpl; split; intros; try discriminate; try lia; try reflexivity.
Qed.

Lemma feqb_key x y : is_nan x = false → is_nan y = false → feqb x y = true ↔ fkey x = fkey y.
Proof.
  intros Hx Hy. unfold feqb, SFeqb.
  destruct x as [[]|[]| |[] m e], y as [[]|[]| |[] m' e']; simpl in *; try discriminate;
    try (split; intros; (discriminate || reflexivity));
    destruct (Z.compare_spec e e'); fold (Pos.compare m m'); try destruct (Pos.compare_spec m m');
    simpl; split; intros; simplify_eq; try lia; try reflexivity.
Qed.

Lemma fltb_irrefl x : (x <?. x) = false.
Proof.
  destruct (is_nan x) eqn:N; [by destruct x|]. apply not_true_iff_false. rewrite fltb_key by done.
  unfold key_lt. lia.
Qed.

(** ** JSON values (the [dict[str, Any]] payloads) *)

Inductive json : Type :=
  | JNull
  | JBool (b : bool)
  | JInt (z : Z)
  | JFloat (f : float)
  | JStr (s : string)
  | JArr (l : list json)
  | JObj (fields : list (string * json)).

Definition json_obj : Type := list (string * json).

#[export] Instance float_countable : Countable float.
Proof.
  refine (inj_countable'
    (λ x : float, match x with
     | S754_zero s => inl (inl s) | S754_infinity s => inl (inr s)
     | S754_nan => inr None | S754_finite s m e => inr (Some (s, m, e)) end)
    (λ c, match c with
     | inl (inl s) => S754_zero s | inl (inr s) => S754_infinity s
     | inr None => S754_nan | inr (Some (s, m, e)) => S754_finite s m e end) _).
  by intros [].
Defined.

(** JSON values as trees, to decide their equality and to encode them. *)
Definition json_leaf : Type := unit + bool + Z + float + string.
Fixpoint json_tree (j : json) : gen_tree json_leaf :=
  match j with
  | JNull => GenLeaf (inl (inl (inl (inl tt))))
  | JBool b => GenLeaf (inl (inl (inl (inr b))))
  | JInt z => GenLeaf (inl (inl (inr z)))
  | JFloat f => GenLeaf (inl (inr f))
  | JStr s => GenLeaf (inr s)
  | JArr l => GenNode 0 (map json_tree l)
  | JObj o => GenNode 1 (map (λ kv : string * json, GenNode 0 [GenLeaf (inr kv.1); json_tree kv.2]) o)
  end.
Fixpoint tree_json (t : gen_tree json_leaf) : json :=
  match t with
  | GenLeaf (inl (inl (inl (inl tt)))) => JNull
  | GenLeaf (inl (inl (inl (inr b)))) => JBool b
  | GenLeaf (inl (inl (inr z))) => JInt z
  | GenLeaf (inl (inr f)) => JFloat f
  | GenLeaf (inr s) => JStr s
  | GenNode 0 l => JArr (map tree_json l)
  | GenNode _ l => JObj (map (λ t, match t with
                                   | GenNode _ [GenLeaf (inr k); v] => (k, tree_json v)
                                   | _ => (EmptyString, JNull) end) l)
  end.
Fixpoint tree_json_tree (j : json) : tree_json (json_tree j) = j.
Proof.
  destruct j as [|b|z|f|s|l|o]; try reflexivity; simpl; f_equal.
  - induction l as [|x l IH]; simpl; [done|]. by rewrite tree_json_tree, IH.
  - induction o as [|[k v] o IH]; simpl; [done|]. by rewrite tree_json_tree, IH.
Qed.
#[export] Instance json_eq_dec : EqDecision json.
Proof.
  refine (λ x y, cast_if (decide (json_tree x = json_tree y))); [|congruence].
  by rewrite <- (tree_json_tree x), e, tree_json_tree.
Defined.
#[export] Instance json_countable : Countable json.
Proof. apply (inj_countable' json_tree tree_json). apply tree_json_tree. Defined.

(** [d.get(key)] on a parsed JSON object. *)
Fixpoint obj_get (key : string) (o : json_obj) : option json :=
  match o with
  | [] => None
  | (k, v) :: o' => if String.eqb k key then Some v else obj_get key o'
  end.

(** [{k: v for k, v in d.items() if k != key}] *)
Definition obj_drop (key : string) (o : json_obj) : json_obj :=
  List.filter (λ kv, negb (String.eqb kv.1 key)) o.

(** [d[key] = v]: replace in place, or append. *)
Fixpoint obj_set (key : string) (v : json) (o : json_obj) : json_obj :=
  match o with
  | [] => [(key, v)]
  | (k, w) :: o' => if String.eqb k key then (k, v) :: o' else (k, w) :: obj_set key v o'
  end.

(** [a == b] between a Python int and a float: exact. *)
Definition Z_eqb_f (z : Z) (x : float) : bool :=
  match x with
  | S754_zero _ => Z.eqb z 0
  | S754_infinity _ | S754_nan => false
  | S754_finite s m e =>
      let v := cond_Zopp s (Zpos m) in
      if Z.leb 0 e then Z.eqb z (Z.shiftl v e) else Z.eqb (Z.shiftl z (- e)) v
  end.

Definition b2Z (b : bool) : Z := if b then 1 else 0.

(** Python's [==] on JSON values: numbers (and bools) by value, objects
    whatever the order of their keys. *)
Fixpoint json_eqb (a b : json) {struct a} : bool :=
  let num_eqb (z : Z) (b : json) : bool :=
    match b with
    | JInt z' => Z.eqb z z'
    | JBool c => Z.eqb z (b2Z c)
    | JFloat f => Z_eqb_f z f
    | _ => false
    end in
  match a with
  | JNull => match b with JNull => true | _ => false end
  | JBool c => num_eqb (b2Z c) b
  | JInt z => num_eqb z b
  | JFloat f => match b with
                | JFloat f' => feqb f f'
                | JInt z => Z_eqb_f z f
                | JBool c => Z_eqb_f (b2Z c) f
                | _ => false
                end
  | JStr s => match b with JStr s' => String.eqb s s' | _ => false end
  | JArr l => match b with
              | JArr l' => (fix arr l l' := match l, l' with
                            | [], [] => true
                            | x :: l, y :: l' => json_eqb x y && arr l l'
                            | _, _ => false
                            end) l l'
              | _ => false
              end
  | JObj o => match b with
              | JObj o' => Nat.eqb (length o) (length o') &&
                  (fix obj o := match o with
                   | [] => true
                   | (k, v) :: o => match obj_get k o' with Some v' => json_eqb v v' | None => false end
                                    && obj o
                   end) o
              | _ => false
              end
  end.

(** A decimal literal [n / d]: one correctly rounded division of two integers
    below 2^53 gives the nearest binary64. *)
Definition dec (n d : Z) : float := Z2f n ⊘ Z2f d.

Example dec_0_1 : dec 1 10 = S754_finite false 7205759403792794 (-56).
Proof. vm_compute. reflexivity. Qed.

(** [sorted(l, key=...)]: stable insertion; [lt a b] compares the keys. *)
Fixpoint insert_by {A} (lt : A → A → bool) (x : A) (l : list A) : list A :=
  match l with
  | [] => [x]
  | y :: l' => if lt y x then y :: insert_by lt x l' else x :: l
  end.
Definition sorted_by {A} (lt : A → A → bool) (l : list A) : list A := foldr (insert_by lt) [] l.

(** The result is sorted for any transitive [R] that [lt] decides. *)
Lemma sorted_by_StronglySorted {A} (R : A → A → Prop) (lt : A → A → bool) l :
  Transitive R → (∀ x y, lt x y = true → R x y) → (∀ x y, lt x y = false → R y x) →
  StronglySorted R (sorted_by lt l).
Proof.
  intros HT H1 H2. induction l as [|x l IH]; simpl; [constructor|].
  induction IH as [|y m Hm IHm Hy]; simpl; [by repeat constructor|].
  destruct (lt y x) eqn:E.
  - constructor; [exact IHm|]. clear IHm Hm. apply H1 in E.
    induction Hy as [|z m Hz Hy IHy]; simpl; [by repeat constructor|].
    destruct (lt z x); auto using Forall_cons_2.
  - constructor; [by constructor|]. apply H2 in E. constructor; [done|].
    eapply Forall_impl; [exact Hy|]. intros z Hz. by eapply HT.
Qed.
Lemma insert_by_perm {A} (lt : A → A → bool) x l : insert_by lt x l ≡ₚ x :: l.
Proof.
  induction l as [|y l IH]; simpl; [done|]. destruct (lt y x); [|done]. rewrite IH. apply Permutation_swap.
Qed.
Lemma sorted_by_perm {A} (lt : A → A → bool) l : sorted_by lt l ≡ₚ l.
Proof. induction l as [|x l IH]; simpl; [done|]. by rewrite insert_by_perm, IH. Qed.

(** Sorting keeps the elements, and puts a least one first. *)
Lemma insert_by_elem {A} (lt : A → A → bool) x y l : y ∈ insert_by lt x l ↔ y = x ∨ y ∈ l.
Proof.
  induction l as [|z l IH]; simpl; [set_solver|]. destruct (lt z x); set_solver.
Qed.
Lemma sorted_by_elem {A} (lt : A → A → bool) y l : y ∈ sorted_by lt l ↔ y ∈ l.
Proof. induction l as [|x l IH]; simpl; [done|]. rewrite insert_by_elem, IH. set_solver. Qed.
Lemma sorted_by_head {A} (lt : A → A → bool) (P : A → Prop) l x l' :
  (∀ a b c, P a → P b → P c → lt a b = false → lt b c = false → lt a c = false) →
  (∀ a b, P a → P b → lt a b = true → lt b a = false) → (∀ a, lt a a = false) →
  Forall P l → sorted_by lt l = x :: l' → ∀ y, y ∈ l → lt y x = false.
Proof.
  intros Ht Ha Hi. revert x l'. induction l as [|a l IH]; intros x l' HP E y Hy; simpl in *; [discriminate|].
  inversion HP as [|? ? Pa Pl]; subst.
  assert (∀ z, z ∈ sorted_by lt l → P z) as Ps.
  { intros z Hz. rewrite Forall_forall in Pl. apply Pl. by rewrite <- (sorted_by_elem lt). }
  destruct (sorted_by lt l) as [|b l''] eqn:Es; simpl in E.
  - injection E as <- <-. apply elem_of_cons in Hy as [->|Hy]; [done|].
    rewrite <- (sorted_by_elem lt), Es in Hy. inversion Hy.
  - assert (P b) by (apply Ps; left).
    assert (∀ z, z ∈ l → lt z b = false) as Hb by (intros; by eapply IH).
    rewrite Forall_forall in Pl. destruct (lt b a) eqn:Eb; injection E as <- <-; apply elem_of_cons in Hy as [->|Hy]; auto.
    eapply (Ht y b); eauto.
Qed.

(** ** Orders to sort by: strict weak orders, and keys compared in turn *)

Record swo {A} (lt : A → A → bool) : Prop := {
  swo_asym : ∀ a b, lt a b = true → lt b a = false;
  swo_neg : ∀ a b c, lt a b = false → lt b c = false → lt a c = false }.
(** Python's tuple comparison, component by component. *)
Definition lex {A} (lt1 lt2 : A → A → bool) (a b : A) : bool := lt1 a b || (negb (lt1 b a) && lt2 a b).

Lemma swo_Z : swo Z.ltb.
Proof. split; intros *; rewrite ?Z.ltb_lt, ?Z.ltb_ge; lia. Qed.
Lemma swo_on {A B} (f : A → B) lt : swo lt → swo (λ a b, lt (f a) (f b)).
Proof. intros [H1 H2]. split; eauto. Qed.
Lemma swo_flip {A} (lt : A → A → bool) : swo lt → swo (λ a b, lt b a).
Proof. intros [H1 H2]. split; eauto. Qed.
Lemma swo_lex {A} (lt1 lt2 : A → A → bool) : swo lt1 → swo lt2 → swo (lex lt1 lt2).
Proof.
  intros [A1 N1] [A2 N2]. unfold lex. split.
  - intros a b. specialize (A1 a b). specialize (A2 a b). destruct (lt1 a b), (lt1 b a), (lt2 a b); naive_solver.
  - intros a b c. specialize (A1 c a) as Aca. specialize (A1 b c) as Abc. specialize (A1 a b) as Aab.
    specialize (N1 a b c) as N. specialize (N1 b c a) as N'. specialize (N1 c a b) as N''. specialize (N2 a b c).
    destruct (lt1 a b), (lt1 b c), (lt1 a c), (lt1 b a), (lt1 c b), (lt1 c a); naive_solver.
Qed.
Lemma ascii_ltb_N a b : Ascii.compare a b = N.compare (Ascii.N_of_ascii a) (Ascii.N_of_ascii b).
Proof. done. Qed.
Lemma swo_str : swo String.ltb.
Proof.
  split.
  - intros a b. unfold String.ltb. rewrite (String.compare_antisym b a). by destruct (String.compare a b).
  - intros a. induction a as [|x a IH]; intros [|y b] [|z c]; unfold String.ltb; simpl; try done.
    specialize (IH b c). unfold String.ltb in IH. rewrite !ascii_ltb_N.
    destruct (N.compare_spec (Ascii.N_of_ascii x) (Ascii.N_of_ascii y)), (N.compare_spec (Ascii.N_of_ascii y) (Ascii.N_of_ascii z)),
      (N.compare_spec (Ascii.N_of_ascii x) (Ascii.N_of_ascii z)); try done; try lia.
Qed.
Lemma str_ltb_total a b : String.ltb a b = false → String.ltb b a = false → a = b.
Proof.
  unfold String.ltb. rewrite (String.compare_antisym b a). pose proof (String.compare_eq_iff a b).
  destruct (String.compare a b); naive_solver.
Qed.

Lemma sorted_swo {A} (lt : A → A → bool) l : swo lt → StronglySorted (λ a b, lt b a = false) (sorted_by lt l).
Proof. intros [H1 H2]. apply sorted_by_StronglySorted; [intros a b c ? ?|..]; eauto. Qed.
(** The order of the input does not matter when the keys tell elements apart. *)
Lemma sorted_by_shuffle {A} (lt : A → A → bool) l1 l2 :
  swo lt → (∀ a b, a ∈ l1 → b ∈ l1 → lt a b = false → lt b a = false → a = b) → l1 ≡ₚ l2 →
  sorted_by lt l1 = sorted_by lt l2.
Proof.
  intros Hs Ht Hp. apply (StronglySorted_unique_strong (λ a b, lt b a = false)); [|by apply sorted_swo..|by rewrite !sorted_by_perm].
  intros a b. rewrite !sorted_by_elem, <- Hp. eauto.
Qed.

Lemma elem_of_lfilter {A} (p : A → bool) l x : x ∈ List.filter p l ↔ p x = true ∧ x ∈ l.
Proof. rewrite list_elem_of_In, filter_In, <- list_elem_of_In. tauto. Qed.
Lemma filter_comm {A} (f g : A → bool) l : List.filter f (List.filter g l) = List.filter g (List.filter f l).
Proof. induction l as [|x l IH]; [done|]. simpl. destruct (f x) eqn:F, (g x) eqn:G; simpl; rewrite ?F, ?G, IH; done. Qed.
Lemma filter_filter {A} (f g : A → bool) l : List.filter f (List.filter g l) = List.filter (λ x, f x && g x) l.
Proof. induction l as [|x l IH]; [done|]. simpl. destruct (g x); simpl; [|by rewrite andb_false_r]. rewrite andb_true_r. destruct (f x); by rewrite IH. Qed.
Lemma filter_ext_elem {A} (f g : A → bool) l : (∀ x, x ∈ l → f x = g x) → List.filter f l = List.filter g l.
Proof. intros H. apply List.filter_ext_in. intros x Hx. apply H. by apply list_elem_of_In. Qed.
Lemma filter_all {A} (f : A → bool) l : (∀ x, x ∈ l → f x = true) → List.filter f l = l.
Proof. induction l as [|x l IH]; intros H; [done|]. simpl. rewrite (H x) by left. f_equal. apply IH. intros y Hy. apply H. by right. Qed.
Lemma filter_none {A} (f : A → bool) l : (∀ x, x ∈ l → f x = false) → List.filter f l = [].
Proof. induction l as [|x l IH]; intros H; [done|]. simpl. rewrite (H x) by left. apply IH. intros y Hy. apply H. by right. Qed.
Lemma filter_len {A} (f : A → bool) l : (length (List.filter f l) <= length l)%nat.
Proof. induction l as [|x l IH]; simpl; [done|]. destruct (f x); simpl; lia. Qed.
Lemma NoDup_map_filter {A B} (f : A → B) (p : A → bool) l : NoDup (map f l) → NoDup (map f (List.filter p l)).
Proof.
  induction l as [|x l IH]; simpl; [done|]. intros [Hx Hn]%NoDup_cons. destruct (p x); simpl; [|by apply IH].
  apply NoDup_cons. split; [|by apply IH]. intros (y & E & Hy)%list_elem_of_fmap. apply elem_of_lfilter in Hy as [_ Hy].
  apply Hx. rewrite E. by apply list_elem_of_fmap_2.
Qed.

(** ** Strings *)

(** [needle in s] *)
Fixpoint str_contains (needle s : string) : bool :=
  String.prefix needle s ||
  match s with EmptyString => false | String _ s' => str_contains needle s' end.

Definition str_lower (s : string) : string :=
  (fix go s := match s with
   | EmptyString => EmptyString
   | String c s' =>
       let n := Ascii.nat_of_ascii c in
       String (if (65 <=? n)%nat && (n <=? 90)%nat then Ascii.ascii_of_nat (n + 32) else c) (go s')
   end) s.

(** [s.startswith(prefix)] is [String.prefix prefix s].  An f-string whose text
    only reaches a log or a note is kept unformatted: its template, with [{}]
    for each replacement field, and the field values. *)
Inductive farg : Type :=
  | FS (s : string)            (* {x} of a str *)
  | FR (s : string)            (* {x!r} of a str *)
  | FZ (z : Z)                 (* an int *)
  | FF (f : float)             (* a float *)
  | FO (o : option string)     (* a str or None *)
  | FL (l : list string).      (* a list of str *)
Record text := fmt { template : string; fields : list farg }.
Definition lit (s : string) : text := fmt s [].

(** ** Effects: code that reads and changes a world and may raise *)

Definition M (W A : Type) : Type := W → W * result A.
#[export] Instance M_ret {W} : MRet (M W) := λ A a w, (w, Ok a).
#[export] Instance M_bind {W} : MBind (M W) := λ A B f m w,
  match m w with (w', Ok a) => f a w' | (w', Err e) => (w', Err e) end.
Definition raise {W A} (e : exn) : M W A := λ w, (w, Err e).
Definition lift {W A} (r : result A) : M W A := λ w, (w, r).
(** [try: m except Exception: h] *)
Definition catch {W A} (m : M W A) (h : exn → M W A) : M W A := λ w,
  match m w with (w', Ok a) => (w', Ok a) | (w', Err e) => h e w' end.

Lemma M_bind_Ok {W A B} (m : M W A) (f : A → M W B) w w' b :
  (m ≫= f) w = (w', Ok b) → ∃ a w1, m w = (w1, Ok a) ∧ f a w1 = (w', Ok b).
Proof. unfold mbind, M_bind. destruct (m w) as [w1 [a|e]]; [eauto|discriminate]. Qed.

Lemma lift_Ok {W A} (r : result A) (w w' : W) a : lift r w = (w', Ok a) → w' = w ∧ r = Ok a.
Proof. unfold lift. by intros [= <- ->]. Qed.

Lemma ret_Ok {W A} (x a : A) (w w' : W) : (mret x : M W A) w = (w', Ok a) → w' = w ∧ a = x.
Proof. by intros [= <- <-]. Qed.

(** Loops over lists with effects, [for x in l: ...]. *)
Fixpoint mapM_ {W A B} (f : A → M W B) (l : list A) : M W (list B) :=
  match l with
  | [] => mret []
  | x :: l' => y ← f x; ys ← mapM_ f l'; mret (y :: ys)
  end.
Fixpoint foldM {W A S} (f : S → A → M W S) (s : S) (l : list A) : M W S :=
  match l with
  | [] => mret s
  | x :: l' => s' ← f s x; foldM f s' l'
  end.
Lemma mapM_Ok {W A B} (f : A → M W B) l w w' ys :
  mapM_ f l w = (w', Ok ys) → Forall2 (λ x y, ∃ w1 w2, f x w1 = (w2, Ok y)) l ys.
Proof.
  revert w ys. induction l as [|x l IH]; intros w ys; simpl.
  - intros [= _ <-]. constructor.
  - intros H. apply M_bind_Ok in H as (y & w1 & Hy & H). apply M_bind_Ok in H as (ys' & w2 & Hys & H).
    injection H as <- <-. constructor; [eauto|]. by eapply IH.
Qed.

(** [any(f(x) for x in l)], which stops at the first hit. *)
Fixpoint anyM {W A} (f : A → M W bool) (l : list A) : M W bool :=
  match l with
  | [] => mret false
  | x :: l' => f x ≫= λ b : bool, if b then mret true else anyM f l'
  end.

(** ** Lists *)

(** [not l] *)
Definition is_nil {A} (l : list A) : bool := match l with [] => true | _ => false end.

(** [bool(v)], and [o.get(key)] when it is true. *)
Definition json_true (j : json) : bool :=
  match j with
  | JNull => false | JBool b => b | JInt z => negb (z =? 0)%Z | JFloat x => negb (feqb x f0)
  | JStr s => negb (String.eqb s "") | JArr l => negb (is_nil l) | JObj o => negb (is_nil o)
  end.
Definition get_true (key : string) (o : json_obj) : option json :=
  v ← obj_get key o; if json_true v then Some v else None.

(** [next((x for x in l if f x), None)] *)
Fixpoint find_first {A} (f : A → bool) (l : list A) : option A :=
  match l with [] => None | x :: l' => if f x then Some x else find_first f l' end.

Lemma find_first_Some {A} (f : A → bool) l x :
  find_first f l = Some x → x ∈ l ∧ f x = true.
Proof.
  induction l as [|y l IH]; simpl; [discriminate|].
  destruct (f y) eqn:E; intros H.
  - injection H as ->. split; [left|done].
  - destruct (IH H). split; [by right|done].
Qed.

Lemma find_first_None {A} (f : A → bool) l :
  find_first f l = None ↔ ∀ x, x ∈ l → f x = false.
Proof.
  induction l as [|y l IH]; simpl.
  - split; [intros _ x Hx; inversion Hx | done].
  - destruct (f y) eqn:E; split.
    + discriminate.
    + intros H. specialize (H y ltac:(left)). congruence.
    + intros H x Hx. inversion Hx; subst; [done|]. by apply IH.
    + intros H. apply IH. intros x Hx. apply H. by right.
Qed.

Lemma find_first_is_Some {A} (f : A → bool) l :
  (∃ x, x ∈ l ∧ f x = true) → ∃ y, find_first f l = Some y.
Proof.
  intros (x & Hx & Hf). destruct (find_first f l) as [y|] eqn:E; [eauto|].
  rewrite find_first_None in E. specialize (E x Hx). congruence.
Qed.

(** A list whose keys are distinct is zipped functionally. *)
Lemma zip_key_unique {A B K} (f : A → K) (l : list A) (k : list B) a b a' b' :
  NoDup (map f l) → (a, b) ∈ zip l k → (a', b') ∈ zip l k → f a = f a' → a = a' ∧ b = b'.
Proof.
  revert k. induction l as [|x l IH]; intros [|y k] HN H H' E; try (by inversion H).
  simpl in HN. apply NoDup_cons in HN as [Hx HN].
  assert (∀ c d, (c, d) ∈ zip l k → f c ∈ map f l) as Hin.
  { intros c d Hc. apply elem_of_zip_l in Hc. by apply list_elem_of_fmap_2. }
  simpl in H, H'. apply elem_of_cons in H as [[= -> ->]|H], H' as [[= -> ->]|H']; [done| | |by apply (IH k)].
  - rewrite E in Hx. destruct Hx; eauto.
  - rewrite <- E in Hx. destruct Hx; eauto.
Qed.

(** ** Sums over the rows of a table *)

Definition msum {K V : Type} `{Countable K} (f : K → V → Z) (m : gmap K V) : Z :=
  map_fold (λ k v acc, f k v + acc)%Z 0%Z m.

Section Msum.
Context {K V : Type} `{Countable K}.
Implicit Types (f g : K → V → Z) (m : gmap K V).

Lemma msum_empty f : msum f ∅ = 0%Z.
Proof. apply map_fold_empty. Qed.
Lemma msum_insert f m k v : m !! k = None → msum f (<[k := v]> m) = (f k v + msum f m)%Z.
Proof. intros Hk. unfold msum. rewrite map_fold_insert_L; [done| |done]. intros. lia. Qed.
Lemma msum_delete f m k v : m !! k = Some v → msum f m = (f k v + msum f (delete k m))%Z.
Proof. intros Hk. rewrite <- msum_insert by apply lookup_delete_eq. by rewrite insert_delete_id. Qed.
Lemma msum_update f m k v v' :
  m !! k = Some v → msum f (<[k := v']> m) = (msum f m - f k v + f k v')%Z.
Proof.
  intros Hk. rewrite (msum_delete f m k v Hk). rewrite <- insert_delete_eq, msum_insert by apply lookup_delete_eq. lia.
Qed.
Lemma msum_nonneg f m : (∀ k v, m !! k = Some v → 0 ≤ f k v)%Z → (0 ≤ msum f m)%Z.
Proof.
  induction m as [|k v m Hk IH] using map_ind; intros Hf; [by rewrite msum_empty|].
  rewrite msum_insert by done. assert (0 ≤ f k v)%Z by (apply Hf; apply lookup_insert_eq).
  assert (0 ≤ msum f m)%Z; [|lia]. apply IH. intros k' v' Hk'. apply Hf.
  rewrite lookup_insert_ne; [done|]. congruence.
Qed.
Lemma msum_zero f m : (∀ k v, m !! k = Some v → f k v = 0%Z) → msum f m = 0%Z.
Proof.
  induction m as [|k v m Hk IH] using map_ind; intros Hf; [by rewrite msum_empty|].
  rewrite msum_insert, (Hf k v), IH; [done| |apply lookup_insert_eq|done].
  intros k' v' Hk'. apply Hf. rewrite lookup_insert_ne; [done|]. congruence.
Qed.
(** A row counts at most the whole sum. *)
Lemma msum_row f m k v :
  (∀ k v, m !! k = Some v → 0 ≤ f k v)%Z → m !! k = Some v → (f k v ≤ msum f m)%Z.
Proof.
  intros Hf Hk. rewrite (msum_delete f m k v Hk). enough (0 ≤ msum f (delete k m))%Z by lia.
  apply msum_nonneg. intros k' v' H'. apply lookup_delete_Some in H' as [_ H']. by apply Hf.
Qed.
End Msum.

(** ** Tactics *)

(** Break the innermost [match] of the goal or of a hypothesis. *)
Ltac break_match :=
  match goal with
  | |- context [match ?x with _ => _ end] =>
      lazymatch x with context [match _ with _ => _ end] => fail | _ => destruct x eqn:? end
  end.
Ltac break_match_in H :=
  match type of H with
  | context [match ?x with _ => _ end] =>
      lazymatch x with context [match _ with _ => _ end] => fail | _ => destruct x eqn:? end
  end.
Ltac inv_ok :=
  repeat match goal with
  | H : (_ ≫= _) = Ok _ |- _ => apply bind_Ok_inv in H as (? & ? & ?)
  | H : Ok _ = Ok _ |- _ => injection H as H; try subst
  | H : Err _ = Ok _ |- _ => discriminate H
  | H : Ok _ = Err _ |- _ => discriminate H
  | H : (_, _) = (_, _) |- _ => injection H as ? ?; try subst
  | H : raise_unless _ _ = Ok _ |- _ => apply raise_unless_Ok in H
  | H : (_ ≫= _) _ = (_, Ok _) |- _ => apply M_bind_Ok in H as (? & ? & ? & ?)
  | H : (mret _ : M _ _) _ = (_, Ok _) |- _ => apply ret_Ok in H as [? ?]; try subst
  | H : lift _ _ = (_, Ok _) |- _ => apply lift_Ok in H as [? ?]; try subst
  | H : raise _ _ = (_, Ok _) |- _ => discriminate H
  end.

Create HintDb recertia.
