(* ===== verification/PyStr.v ===== *)
(** * Python string functions the goal compiler uses

    [str.strip], [str.isspace], [repr] of a str, [shlex.quote] and
    [PurePosixPath(...).parts], over strings whose characters are the code
    points 0-255, and two reference readers to state what the quoting
    functions promise: the evaluation of a Python string literal and a POSIX
    shell tokeniser. *)
From S2P Require Import Prelude.
From Stdlib Require Import Ascii Lia.
Open Scope nat_scope.

Notation code := Ascii.nat_of_ascii.
Definition chr (n : nat) : string := String (Ascii.ascii_of_nat n) EmptyString.

Definition isspace (c : ascii) : bool :=
  let n := code c in
  (9 <=? n) && (n <=? 13) || (28 <=? n) && (n <=? 32) || (n =? 133) || (n =? 160).

Definition isalpha (c : ascii) : bool :=
  let n := code c in
  (65 <=? n) && (n <=? 90) || (97 <=? n) && (n <=? 122) || (n =? 170) || (n =? 181) || (n =? 186)
  || (192 <=? n) && negb (n =? 215) && negb (n =? 247).

Fixpoint all_chars (f : ascii → bool) (s : string) : bool :=
  match s with EmptyString => true | String c s' => f c && all_chars f s' end.
Fixpoint any_char (f : ascii → bool) (s : string) : bool :=
  match s with EmptyString => false | String c s' => f c || any_char f s' end.

Fixpoint lstrip (s : string) : string :=
  match s with
  | EmptyString => EmptyString
  | String c s' => if isspace c then lstrip s' else s
  end.
Fixpoint rstrip (s : string) : string :=
  match s with
  | EmptyString => EmptyString
  | String c s' => match rstrip s' with
                   | EmptyString => if isspace c then EmptyString else String c EmptyString
                   | t => String c t
                   end
  end.
Definition strip (s : string) : string := rstrip (lstrip s).

(** [sep.join(l)] *)
Fixpoint join_str (sep : string) (l : list string) : string :=
  match l with
  | [] => ""
  | [x] => x
  | x :: l' => x +:+ sep +:+ join_str sep l'
  end.

(** [s.split(sep)] for a one-character separator. *)
Fixpoint split_char (sep : ascii) (s : string) : list string :=
  match s with
  | EmptyString => [""%string]
  | String c s' =>
      if Ascii.eqb c sep then ""%string :: split_char sep s'
      else match split_char sep s' with
           | w :: ws => String c w :: ws
           | [] => [String c EmptyString]
           end
  end.

(** [PurePosixPath(p).parts], the root left out: empty and "." parts go. *)
Definition path_parts (p : string) : list string :=
  List.filter (λ w, negb (String.eqb w "" || String.eqb w ".")) (split_char "/" p).

(** ** repr *)

Definition c_quote : ascii := Ascii.ascii_of_nat 39.
Definition c_dquote : ascii := Ascii.ascii_of_nat 34.
Definition c_bslash : ascii := Ascii.ascii_of_nat 92.

Definition hex_digit (n : nat) : ascii := Ascii.ascii_of_nat (if n <? 10 then 48 + n else 87 + n).
Definition hex_escape (n : nat) : string :=
  String c_bslash (String "x" (String (hex_digit (n / 16)) (String (hex_digit (n mod 16)) EmptyString))).

Definition printable (c : ascii) : bool :=
  let n := code c in (32 <=? n) && (n <? 127) || (161 <=? n) && negb (n =? 173).

(** One character inside a literal quoted with [q]. *)
Definition repr_char (q c : ascii) : string :=
  let n := code c in
  if Ascii.eqb c q || Ascii.eqb c c_bslash then String c_bslash (String c EmptyString)
  else if n =? 9 then String c_bslash "t"
  else if n =? 10 then String c_bslash "n"
  else if n =? 13 then String c_bslash "r"
  else if printable c then String c EmptyString
  else hex_escape n.

Fixpoint repr_body (q : ascii) (s : string) : string :=
  match s with EmptyString => EmptyString | String c s' => repr_char q c +:+ repr_body q s' end.

(** Single quotes unless the text has a single quote and no double quote. *)
Definition repr_quote (s : string) : ascii :=
  if any_char (Ascii.eqb c_quote) s && negb (any_char (Ascii.eqb c_dquote) s)
  then c_dquote else c_quote.

Definition py_repr (s : string) : string :=
  let q := repr_quote s in String q (repr_body q s +:+ String q EmptyString).

(** Reference: Python evaluating a string literal at the start of a text;
    the value and what follows the closing quote. *)
Definition unhex (c : ascii) : option nat :=
  let n := code c in
  if (48 <=? n) && (n <=? 57) then Some (n - 48)
  else if (97 <=? n) && (n <=? 102) then Some (n - 87) else None.

Definition consf (c : ascii) (r : option (string * string)) : option (string * string) :=
  '(s, rest) ← r; Some (String c s, rest).

Fixpoint literal_body (q : ascii) (s : string) : option (string * string) :=
  match s with
  | EmptyString => None
  | String c s1 =>
      if Ascii.eqb c q then Some (EmptyString, s1)
      else if Ascii.eqb c c_bslash then
        match s1 with
        | String d s2 =>
            if Ascii.eqb d c_bslash || Ascii.eqb d c_quote || Ascii.eqb d c_dquote
            then consf d (literal_body q s2)
            else if Ascii.eqb d "t" then consf (Ascii.ascii_of_nat 9) (literal_body q s2)
            else if Ascii.eqb d "n" then consf (Ascii.ascii_of_nat 10) (literal_body q s2)
            else if Ascii.eqb d "r" then consf (Ascii.ascii_of_nat 13) (literal_body q s2)
            else if Ascii.eqb d "x" then
              match s2 with
              | String h1 (String h2 s3) =>
                  a ← unhex h1; b ← unhex h2;
                  consf (Ascii.ascii_of_nat (16 * a + b)) (literal_body q s3)
              | _ => None
              end
            else None
        | EmptyString => None
        end
      else if (code c =? 10) || (code c =? 13) then None
      else consf c (literal_body q s1)
  end.

Definition literal (s : string) : option (string * string) :=
  match s with
  | String q s' => if Ascii.eqb q c_quote || Ascii.eqb q c_dquote then literal_body q s' else None
  | EmptyString => None
  end.

(** ** shlex.quote *)

(** The complement of [[^\w@%+=:,./-]] with [re.ASCII]. *)
Definition sh_safe (c : ascii) : bool :=
  let n := code c in
  (48 <=? n) && (n <=? 57) || (65 <=? n) && (n <=? 90) || (97 <=? n) && (n <=? 122) || (n =? 95)
  || existsb (Ascii.eqb c) ["@"; "%"; "+"; "="; ":"; ","; "."; "/"; "-"]%char.

Fixpoint replace_quote (s : string) : string :=
  match s with
  | EmptyString => EmptyString
  | String c s' =>
      if Ascii.eqb c c_quote
      then String c_quote (String c_dquote (String c_quote (String c_dquote (String c_quote (replace_quote s')))))
      else String c (replace_quote s')
  end.

Definition shlex_quote (s : string) : string :=
  match s with
  | EmptyString => String c_quote (String c_quote EmptyString)
  | _ => if negb (any_char (λ c, negb (sh_safe c)) s) then s
         else String c_quote (replace_quote s +:+ String c_quote EmptyString)
  end.

(** Reference: a POSIX shell reading words, quotes and the [&&] operator;
    [None] on any other metacharacter. *)
Inductive sh_token := Word (w : string) | And_if.
Inductive sh_mode := Outside | In_word (w : string) | In_single (w : string) | In_double (w : string).

Definition snoc (w : string) (c : ascii) : string := w +:+ String c EmptyString.

Fixpoint sh_tokens (m : sh_mode) (s : string) : option (list sh_token) :=
  match s with
  | EmptyString => match m with
                   | Outside => Some []
                   | In_word w => Some [Word w]
                   | _ => None
                   end
  | String c s1 =>
      match m with
      | In_single w => if Ascii.eqb c c_quote then sh_tokens (In_word w) s1
                       else sh_tokens (In_single (snoc w c)) s1
      | In_double w => if Ascii.eqb c c_dquote then sh_tokens (In_word w) s1
                       else if existsb (Ascii.eqb c) ["$"%char; "`"%char; c_bslash] then None
                       else sh_tokens (In_double (snoc w c)) s1
      | Outside | In_word _ =>
          let w := match m with In_word w => w | _ => "" end in
          let flush r := match m with In_word w => (λ l, Word w :: l) <$> r | _ => r end in
          if Ascii.eqb c " " then flush (sh_tokens Outside s1)
          else if Ascii.eqb c "&" then
            match s1 with
            | String d s2 => if Ascii.eqb d "&"
                             then flush ((λ l, And_if :: l) <$> sh_tokens Outside s2) else None
            | EmptyString => None
            end
          else if Ascii.eqb c c_quote then sh_tokens (In_single w) s1
          else if Ascii.eqb c c_dquote then sh_tokens (In_double w) s1
          else if sh_safe c then sh_tokens (In_word (snoc w c)) s1
          else None
      end
  end.

(** ** What the quoting functions promise *)

Lemma append_cons x (a b : string) : String x a +:+ b = String x (a +:+ b).
Proof. reflexivity. Qed.
Lemma append_nil_l (b : string) : EmptyString +:+ b = b.
Proof. reflexivity. Qed.
Lemma app_str_assoc (a b c : string) : (a +:+ b) +:+ c = a +:+ (b +:+ c).
Proof. induction a as [|x a IH]; [done|]. by rewrite !append_cons, IH. Qed.
Lemma app_str_nil (a : string) : a +:+ EmptyString = a.
Proof. induction a as [|x a IH]; [done|]. by rewrite !append_cons, IH. Qed.

Lemma literal_body_char q c rest :
  q = c_quote ∨ q = c_dquote →
  literal_body q (repr_char q c +:+ rest) = consf c (literal_body q rest).
Proof.
  intros [-> | ->];
    destruct c as [[] [] [] [] [] [] [] []]; try reflexivity;
    lazy; by destruct (literal_body _ rest) as [[]|].
Qed.

Lemma literal_body_repr q s rest :
  q = c_quote ∨ q = c_dquote →
  literal_body q (repr_body q s +:+ String q rest) = Some (s, rest).
Proof.
  intros Hq. induction s as [|c s IH]; simpl.
  - by destruct Hq as [-> | ->].
  - rewrite app_str_assoc, literal_body_char, IH by done. done.
Qed.

(** [eval(repr(s)) == s], with nothing of [s] outside the literal. *)
Lemma literal_repr s rest : literal (py_repr s +:+ rest) = Some (s, rest).
Proof.
  unfold py_repr, literal. simpl.
  assert (repr_quote s = c_quote ∨ repr_quote s = c_dquote) as Hq
    by (unfold repr_quote; destruct (_ && _); auto).
  assert (Ascii.eqb (repr_quote s) c_quote || Ascii.eqb (repr_quote s) c_dquote = true) as ->
    by (destruct Hq as [-> | ->]; done).
  rewrite app_str_assoc. by apply literal_body_repr.
Qed.

Lemma sh_safe_plain c :
  sh_safe c = true →
  Ascii.eqb c " " = false ∧ Ascii.eqb c "&" = false ∧ Ascii.eqb c c_quote = false ∧
  Ascii.eqb c c_dquote = false.
Proof. destruct c as [[] [] [] [] [] [] [] []]; vm_compute; intros H; try discriminate H; auto. Qed.

Lemma app_snoc (w s : string) c : snoc w c +:+ s = w +:+ String c s.
Proof. unfold snoc. by rewrite app_str_assoc. Qed.

Lemma sh_single w s rest :
  sh_tokens (In_single w) (replace_quote s +:+ String c_quote rest) = sh_tokens (In_word (w +:+ s)) rest.
Proof.
  revert w. induction s as [|c s IH]; intros w; simpl.
  - by rewrite app_str_nil.
  - destruct (Ascii.eqb c c_quote) eqn:E; rewrite !append_cons; simpl.
    + apply Ascii.eqb_eq in E as ->. by rewrite IH, app_snoc.
    + by rewrite E, IH, app_snoc.
Qed.

Lemma sh_safe_word w s rest :
  any_char (λ c, negb (sh_safe c)) s = false →
  sh_tokens (In_word w) (s +:+ rest) = sh_tokens (In_word (w +:+ s)) rest.
Proof.
  revert w. induction s as [|c s IH]; intros w; simpl.
  - by rewrite app_str_nil.
  - intros [Hc Hs]%orb_false_iff. apply negb_false_iff in Hc.
    destruct (sh_safe_plain c Hc) as (E1 & E2 & E3 & E4).
    rewrite E1, E2, E3, E4, Hc, IH by done. by rewrite app_snoc.
Qed.

(** A quoted text is read back by the shell as one word, itself. *)
Lemma sh_tokens_quote s rest : sh_tokens Outside (shlex_quote s +:+ rest) = sh_tokens (In_word s) rest.
Proof.
  destruct s as [|c s]; [reflexivity|]. unfold shlex_quote.
  destruct (any_char _ (String c s)) eqn:E.
  - change (negb true) with false. cbv iota. rewrite append_cons, app_str_assoc. cbn [sh_tokens].
    change (Ascii.eqb c_quote " ") with false. change (Ascii.eqb c_quote "&") with false.
    change (Ascii.eqb c_quote c_quote) with true. cbv iota.
    rewrite append_cons, append_nil_l. apply (sh_single "").
  - change (negb false) with true. cbv iota. simpl in E. apply orb_false_iff in E as [Hc Hs].
    apply negb_false_iff in Hc. destruct (sh_safe_plain c Hc) as (E1 & E2 & E3 & E4).
    simpl. rewrite E1, E2, E3, E4, Hc, sh_safe_word by done. by rewrite app_snoc.
Qed.

Lemma split_char_filled sep s : split_char sep s ≠ [].
Proof. destruct s as [|c s]; simpl; [done|]. destruct (Ascii.eqb c sep); [done|]. by destruct (split_char sep s). Qed.
Lemma split_app sep a b : split_char sep (a +:+ String sep b) = split_char sep a ++ split_char sep b.
Proof.
  induction a as [|c a IH]; [simpl; by rewrite Ascii.eqb_refl|]. rewrite append_cons. cbn [split_char]. rewrite IH.
  destruct (Ascii.eqb c sep); [done|]. pose proof (split_char_filled sep a). by destruct (split_char sep a).
Qed.
Lemma split_join sep l :
  l ≠ [] → (∀ x, x ∈ l → split_char sep x = [x]) → split_char sep (join_str (String sep EmptyString) l) = l.
Proof.
  induction l as [|x [|y l] IH]; intros Hn H; [done|apply H; left|].
  change (join_str (String sep EmptyString) (x :: y :: l)) with (x +:+ String sep (join_str (String sep EmptyString) (y :: l))).
  rewrite split_app, H by left. simpl app. f_equal. apply IH; [done|]. intros z Hz. apply H. by right.
Qed.
Lemma split_clean sep s : any_char (Ascii.eqb sep) s = false → split_char sep s = [s].
Proof.
  induction s as [|c s IH]; [done|]. cbn [any_char split_char]. intros [Hc H]%orb_false_iff. rewrite Ascii.eqb_sym in Hc.
  by rewrite Hc, IH.
Qed.

(** ** text.replace(needle, by_) *)

(** With fuel for every character; [needle] is not empty. *)
Fixpoint replace_all (fuel : nat) (needle by_ s : string) : string :=
  match fuel with
  | O => s
  | S fuel' =>
      match s with
      | EmptyString => EmptyString
      | String c s' =>
          if String.prefix needle s
          then by_ +:+ replace_all fuel' needle by_ (String.substring (String.length needle) (String.length s - String.length needle) s)
          else String c (replace_all fuel' needle by_ s')
      end
  end.
Definition py_replace (needle by_ s : string) : string := replace_all (String.length s) needle by_ s.

Lemma substring_full s : String.substring 0 (String.length s) s = s.
Proof. induction s as [|c s IH]; simpl; [done|by rewrite IH]. Qed.
Lemma substring_length n m s : (n + m ≤ String.length s)%nat → String.length (String.substring n m s) = m.
Proof.
  revert n m. induction s as [|c s IH]; intros [|n] [|m]; simpl; intros H; try lia; try done.
  - rewrite IH; [done|lia].
  - apply IH. lia.
  - apply IH. lia.
Qed.
Lemma prefix_length a s : String.prefix a s = true → (String.length a ≤ String.length s)%nat.
Proof.
  revert s. induction a as [|x a IH]; intros [|y s]; simpl; try (lia || done). destruct (ascii_dec x y); [|done]. intros H%IH. lia.
Qed.
(** Neither text can start where the other does, whatever follows. *)
Fixpoint clash (a b : string) : bool :=
  match a, b with String x a', String y b' => negb (Ascii.eqb x y) || clash a' b' | _, _ => false end.
Fixpoint suffixes_clash (a b : string) : bool :=
  match a with EmptyString => true | String _ a' => clash a b && suffixes_clash a' b end.
Lemma prefix_cons x y a s : String.prefix (String x a) (String y s) = Ascii.eqb x y && String.prefix a s.
Proof. simpl. destruct (ascii_dec x y) as [->|Hne]; [by rewrite Ascii.eqb_refl|]. by apply Ascii.eqb_neq in Hne as ->. Qed.
Lemma clash_prefix a b s : clash a b = true → String.prefix a (b +:+ s) = false.
Proof.
  revert b. induction a as [|x a IH]; intros [|y b]; try done. cbn [clash]. rewrite append_cons, prefix_cons. intros H.
  destruct (Ascii.eqb x y); [|done]. by apply IH.
Qed.
Section Replace.
Context (needle by_ : string).
(** What starts in the replaced text with [d] started there before. *)
Lemma replaced_prefix fuel d s : suffixes_clash d by_ = true → String.prefix d (replace_all fuel needle by_ s) = true → String.prefix d s = true.
Proof.
  revert d s. induction fuel as [|fuel IH]; intros [|x d] [|c s] Hd; try done. cbn [replace_all]. simpl in Hd. apply andb_true_iff in Hd as [Hc Hd].
  destruct (String.prefix needle (String c s)); [by rewrite clash_prefix|]. rewrite !prefix_cons. intros [-> Hp]%andb_true_iff. by apply IH.
Qed.
Lemma suffixes_contains d b s : suffixes_clash b d = true → str_contains d (b +:+ s) = true → str_contains d s = true.
Proof.
  assert (∀ a b', clash a b' = clash b' a) as Hsym.
  { intros a. induction a as [|x a IH]; intros [|y b']; try done. simpl. by rewrite IH, Ascii.eqb_sym. }
  induction b as [|x b IH]; [done|]. cbn [suffixes_clash]. intros [Hc Hb]%andb_true_iff. rewrite append_cons. cbn [str_contains].
  rewrite Hsym in Hc. apply (clash_prefix _ _ s) in Hc. rewrite append_cons in Hc. rewrite Hc. simpl. by apply IH.
Qed.
Lemma contains_substring d n s : str_contains d (String.substring n (String.length s - n) s) = true → str_contains d s = true.
Proof.
  revert n. induction s as [|c s IH]; intros [|n]; try done.
  - simpl. by rewrite substring_full.
  - simpl. intros H. apply orb_true_iff. right. by apply (IH n).
Qed.
(** A text the replacement cannot complete is not in the result, when it was
    not in the text or is what was replaced. *)
Lemma replace_keeps_out fuel d s : needle ≠ ""%string → (String.length s ≤ fuel)%nat → suffixes_clash d by_ = true → suffixes_clash by_ d = true →
  d = needle ∨ str_contains d s = false → str_contains d (replace_all fuel needle by_ s) = false.
Proof.
  intros Hne Hf H1 H2. revert s Hf. induction fuel as [|fuel IH]; intros [|c s] Hf Hd; [| |destruct Hd as [-> |Hd]|].
  - destruct Hd as [-> |]; [by destruct needle|done].
  - simpl in Hf. lia.
  - by destruct needle.
  - done.
  - pose proof (replaced_prefix (S fuel) d (String c s) H1) as Hp. cbn [replace_all] in *.
    destruct (String.prefix needle (String c s)) eqn:En.
    + apply not_true_iff_false. intros Hc%suffixes_contains; [|done]. revert Hc. apply not_true_iff_false, IH.
      * assert (String.length needle ≤ String.length (String c s))%nat by (by apply prefix_length).
        rewrite substring_length by lia. destruct needle; [done|]. simpl in *. lia.
      * destruct Hd as [?|Hd]; [by left|right]. apply not_true_iff_false. intros Hc%contains_substring. congruence.
    + cbn [str_contains]. apply orb_false_iff. split.
      * apply not_true_iff_false. intros Hq%Hp. destruct Hd as [-> |Hd]; [congruence|]. cbn [str_contains] in Hd. apply orb_false_iff in Hd as [? _]. congruence.
      * apply IH; [simpl in Hf; lia|]. destruct Hd as [?|Hd]; [by left|right]. cbn [str_contains] in Hd. by apply orb_false_iff in Hd as [_ ?].
Qed.
End Replace.
