(* ===== verification/Budgets.v ===== *)
(** * Budget, residual budget, spend and reservations (contracts/budget.py)

    [Budget] and its pydantic constructor checks, the residual budget's clamp
    into an admission budget, and the admission decision [budget_excess] with
    the commit of a completed reservation into spend. *)
From S2P Require Import Prelude.
From Stdlib Require Import ZArith Lia.
Open Scope Z_scope.

Record Budget := mkBudget {
  max_attempts : Z;
  max_tool_calls : Z;
  max_tokens : option Z;
  max_wall_clock_s : Z;
  max_cost_usd : option float;
  max_branches : Z;
  max_parallel_steps : Z;
  claim_timeout_s : Z;
  max_versions_written : Z
}.

#[export] Instance eta_Budget : Eta Budget := λ b,
  mkBudget (max_attempts b) (max_tool_calls b) (max_tokens b) (max_wall_clock_s b)
    (max_cost_usd b) (max_branches b) (max_parallel_steps b) (claim_timeout_s b)
    (max_versions_written b).

Definition opt_ge (lo : Z) (o : option Z) : bool :=
  match o with None => true | Some z => lo <=? z end.
Definition opt_fge0 (o : option float) : bool :=
  match o with None => true | Some x => f0 <=?. x end.

(** The [Field(ge=..., le=...)] constraints of [Budget]. *)
Definition budget_valid (b : Budget) : bool :=
  (1 <=? max_attempts b) && (1 <=? max_tool_calls b) && opt_ge 1 (max_tokens b) &&
  (1 <=? max_wall_clock_s b) && opt_fge0 (max_cost_usd b) &&
  ((1 <=? max_branches b) && (max_branches b <=? 16)) &&
  (1 <=? max_parallel_steps b) && (1 <=? claim_timeout_s b) &&
  (0 <=? max_versions_written b).

(** [Budget(...)]: construction validates. *)
Definition new_Budget (b : Budget) : result Budget :=
  if budget_valid b then Ok b else Err ValidationError.

Definition default_Budget : Budget := mkBudget 4 200 None 900 None 3 8 60 2.

Record ResidualBudget := mkResidualBudget {
  r_max_attempts : Z;
  r_max_tool_calls : Z;
  r_max_tokens : option Z;
  r_max_wall_clock_s : Z;
  r_max_cost_usd : option float;
  r_max_branches : Z;
  r_max_parallel_steps : Z;
  r_claim_timeout_s : Z;
  r_max_versions_written : Z
}.

Definition residual_valid (b : ResidualBudget) : bool :=
  (0 <=? r_max_attempts b) && (0 <=? r_max_tool_calls b) && opt_ge 0 (r_max_tokens b) &&
  (0 <=? r_max_wall_clock_s b) && opt_fge0 (r_max_cost_usd b) &&
  ((0 <=? r_max_branches b) && (r_max_branches b <=? 16)) &&
  (0 <=? r_max_parallel_steps b) && (0 <=? r_claim_timeout_s b) &&
  (0 <=? r_max_versions_written b).

Definition as_admission_budget (r : ResidualBudget) : result Budget :=
  if r_max_attempts r <? 1 then Err BudgetExhaustedError
  else
    let tokens := match r_max_tokens r with
                  | Some t => Some (if t <? 1 then 1 else t)
                  | None => None
                  end in
    new_Budget {|
      max_attempts := r_max_attempts r;
      max_tool_calls := Z.max 1 (r_max_tool_calls r);
      max_tokens := tokens;
      max_wall_clock_s := Z.max 1 (r_max_wall_clock_s r);
      max_cost_usd := r_max_cost_usd r;
      max_branches := Z.max 1 (r_max_branches r);
      max_parallel_steps := Z.max 1 (r_max_parallel_steps r);
      claim_timeout_s := Z.max 1 (r_claim_timeout_s r);
      max_versions_written := r_max_versions_written r |}.

Record Spend := mkSpend {
  s_attempts : Z;
  s_tool_calls : Z;
  s_tokens : Z;
  s_wall_clock_s : float;
  s_cost_usd : float;
  s_versions_written : Z
}.

#[export] Instance eta_Spend : Eta Spend := λ s,
  mkSpend (s_attempts s) (s_tool_calls s) (s_tokens s) (s_wall_clock_s s) (s_cost_usd s)
    (s_versions_written s).

Definition default_Spend : Spend := mkSpend 0 0 0 f0 f0 0.

Record BudgetReservation := mkReservation {
  v_attempts : Z;
  v_tool_calls : Z;
  v_tokens : Z;
  v_wall_clock_s : float;
  v_cost_usd : float;
  v_versions_written : Z
}.

Definition default_Reservation : BudgetReservation := mkReservation 0 0 0 f0 f0 0.

Definition reservation_valid (v : BudgetReservation) : bool :=
  (0 <=? v_attempts v) && (0 <=? v_tool_calls v) && (0 <=? v_tokens v) &&
  (f0 <=?. v_wall_clock_s v) && (f0 <=?. v_cost_usd v) && (0 <=? v_versions_written v).

Definition new_Reservation (v : BudgetReservation) : result BudgetReservation :=
  if reservation_valid v then Ok v else Err ValidationError.

Definition spend_valid (s : Spend) : bool :=
  (0 <=? s_attempts s) && (0 <=? s_tool_calls s) && (0 <=? s_tokens s) &&
  (f0 <=?. s_wall_clock_s s) && (f0 <=?. s_cost_usd s) && (0 <=? s_versions_written s).

Definition new_Spend (s : Spend) : result Spend := if spend_valid s then Ok s else Err ValidationError.

(** The keys of the [totals]/[limits] dicts, in insertion order. *)
Inductive dimension :=
  | D_attempts | D_tool_calls | D_tokens | D_wall_clock_s | D_cost_usd | D_versions_written.
#[export] Instance dimension_eq_dec : EqDecision dimension.
Proof. solve_decision. Defined.

Definition dimension_str (d : dimension) : string :=
  match d with
  | D_attempts => "attempts" | D_tool_calls => "tool_calls" | D_tokens => "tokens"
  | D_wall_clock_s => "wall_clock_s" | D_cost_usd => "cost_usd"
  | D_versions_written => "versions_written"
  end.

Definition dimensions : list dimension :=
  [D_attempts; D_tool_calls; D_tokens; D_wall_clock_s; D_cost_usd; D_versions_written].

(** [limit is not None and totals[d] > limit] for one dimension. *)
Definition dim_exceeded (b : Budget) (s : Spend) (v q : BudgetReservation) (d : dimension) : bool :=
  match d with
  | D_attempts => max_attempts b <? s_attempts s + v_attempts v + v_attempts q
  | D_tool_calls => max_tool_calls b <? s_tool_calls s + v_tool_calls v + v_tool_calls q
  | D_tokens =>
      match max_tokens b with
      | None => false
      | Some lim => lim <? s_tokens s + v_tokens v + v_tokens q
      end
  | D_wall_clock_s =>
      Z_ltb_f (max_wall_clock_s b) (s_wall_clock_s s ⊕ v_wall_clock_s v ⊕ v_wall_clock_s q)
  | D_cost_usd =>
      match max_cost_usd b with
      | None => false
      | Some lim => lim <?. (s_cost_usd s ⊕ v_cost_usd v ⊕ v_cost_usd q)
      end
  | D_versions_written =>
      max_versions_written b <?
        s_versions_written s + v_versions_written v + v_versions_written q
  end.

Definition budget_excess (b : Budget) (s : Spend) (v q : BudgetReservation) : option dimension :=
  find_first (dim_exceeded b s v q) dimensions.

Definition commit_reservation (s : Spend) (v : BudgetReservation) : Spend :=
  {| s_attempts := s_attempts s + v_attempts v;
     s_tool_calls := s_tool_calls s + v_tool_calls v;
     s_tokens := s_tokens s + v_tokens v;
     s_wall_clock_s := s_wall_clock_s s ⊕ v_wall_clock_s v;
     s_cost_usd := s_cost_usd s ⊕ v_cost_usd v;
     s_versions_written := s_versions_written s + v_versions_written v |}.

(** ** Lemmas *)

Ltac budget_bools :=
  repeat match goal with
  | H : _ && _ = true |- _ => apply andb_true_iff in H as [? ?]
  | H : (_ <=? _) = true |- _ => apply Z.leb_le in H
  | H : (_ <? _) = true |- _ => apply Z.ltb_lt in H
  | H : (_ <? _) = false |- _ => apply Z.ltb_ge in H
  end.

Lemma dimensions_complete d : d ∈ dimensions.
Proof. destruct d; unfold dimensions; repeat (left || right). Qed.

Lemma budget_excess_None b s v q d :
  budget_excess b s v q = None → dim_exceeded b s v q d = false.
Proof.
  intros H. eapply find_first_None in H; [exact H | apply dimensions_complete].
Qed.

Lemma budget_excess_Some b s v q d :
  budget_excess b s v q = Some d → dim_exceeded b s v q d = true.
Proof. intros H. by apply find_first_Some in H as [_ ?]. Qed.

Lemma new_Budget_Ok b b' : new_Budget b = Ok b' ↔ b' = b ∧ budget_valid b = true.
Proof.
  unfold new_Budget. destruct (budget_valid b); split.
  - intros H. by injection H as <-.
  - by intros [-> _].
  - discriminate.
  - by intros [_ H].
Qed.
