(* ===== verification/Contracts.v ===== *)
(** * The normative data contracts (contracts/*.py)

    Literals as inductives, pydantic models as records with the source's field
    order, [model_validator]s as boolean predicates.  Datetimes are UTC
    microseconds since the epoch ([Z]). *)
From S2P Require Import Prelude Budgets.
From Stdlib Require Import ZArith Lia.
Open Scope Z_scope.

Definition datetime := Z.

(** ** contracts/common.py *)

Inductive Plane := P_procedural | P_semantic | P_episodic | P_affordance | P_policy.
Inductive Lens := L_correctness | L_currency | L_provenance | L_scope | L_safety.
Inductive Isolation := fresh_context | inherits_context.
Inductive ResourceKind := RK_file | RK_path | RK_service | RK_rate_limit | RK_lock | RK_external_system.
Inductive ResourceMode := RM_read | RM_write | RM_exclusive.
Inductive Strategy := S_apply | S_adapt | S_scratch | S_portfolio | S_decomposition | S_abstain.
Inductive Arm := treatment | control | shadow | practice.
Inductive Terminal := T_solved | T_unsolved | T_abstained | T_rejected | T_error.

#[export] Instance Lens_eq_dec : EqDecision Lens. Proof. solve_decision. Defined.
#[export] Instance Isolation_eq_dec : EqDecision Isolation. Proof. solve_decision. Defined.
#[export] Instance Strategy_eq_dec : EqDecision Strategy. Proof. solve_decision. Defined.
#[export] Instance Arm_eq_dec : EqDecision Arm. Proof. solve_decision. Defined.
#[export] Instance Terminal_eq_dec : EqDecision Terminal. Proof. solve_decision. Defined.

Definition strategy_str (s : Strategy) : string :=
  match s with
  | S_apply => "apply" | S_adapt => "adapt" | S_scratch => "scratch"
  | S_portfolio => "portfolio" | S_decomposition => "decomposition" | S_abstain => "abstain"
  end.

(** ** contracts/resources.py *)

Record ResourceClaim := mkResourceClaim {
  claim_kind : ResourceKind; claim_id : string; claim_mode : ResourceMode }.
Record ResourceConflict := mkResourceConflict {
  rc_claim : ResourceClaim; rc_waiting : string; rc_holder : string;
  rc_waited_ms : Z; rc_resolution : string }.

(** ** contracts/criteria.py *)

Inductive CriterionKind := K_command | K_assertion | K_schema | K_metric | K_judge.
#[export] Instance CriterionKind_eq_dec : EqDecision CriterionKind. Proof. solve_decision. Defined.
Inductive MetricOp := op_lt | op_lte | op_gt | op_gte | op_eq.
Inductive CriterionSource := from_caller | from_task_class_template | from_critic.

Record SensitivityProof := mkProof {
  p_criterion_id : string;
  p_negative_fixture : string;
  p_rejected : bool;
  p_checked_at : datetime;
  p_checked_against : option string;
  p_evidence_hash : option string }.

(** [TaskCriterion]: the shared [_CriterionFields] followed by its own two. *)
Record TaskCriterion := mkTaskCriterion {
  c_id : string;
  c_kind : CriterionKind;
  c_run : option string;
  c_expect_exit : Z;
  c_expr : option string;
  c_target : option string;
  c_schema_ref : option string;
  c_metric : option string;
  c_op : option MetricOp;
  c_threshold : option float;
  c_rubric : option string;
  c_isolation : Isolation;
  c_lens : option Lens;
  c_timeout_s : Z;
  c_weight : float;
  c_sensitivity_proof : option SensitivityProof;
  c_source : CriterionSource;
  c_preregistered : bool }.

#[export] Instance eta_TaskCriterion : Eta TaskCriterion := λ c,
  mkTaskCriterion (c_id c) (c_kind c) (c_run c) (c_expect_exit c) (c_expr c) (c_target c)
    (c_schema_ref c) (c_metric c) (c_op c) (c_threshold c) (c_rubric c) (c_isolation c)
    (c_lens c) (c_timeout_s c) (c_weight c) (c_sensitivity_proof c) (c_source c)
    (c_preregistered c).

Definition f1 : float := S754_finite false 4503599627370496 (-52).

(** [_REQUIRED_FIELDS_BY_KIND] and [_kind_requires_fields]. *)
Definition kind_fields_present (c : TaskCriterion) : bool :=
  match c_kind c with
  | K_command => bool_decide (is_Some (c_run c))
  | K_assertion => bool_decide (is_Some (c_expr c))
  | K_schema => bool_decide (is_Some (c_target c)) && bool_decide (is_Some (c_schema_ref c))
  | K_metric => bool_decide (is_Some (c_metric c)) && bool_decide (is_Some (c_op c))
                && bool_decide (is_Some (c_threshold c))
  | K_judge => bool_decide (is_Some (c_rubric c))
  end.

Definition criterion_valid (c : TaskCriterion) : bool :=
  ((1 <=? c_timeout_s c) && (c_timeout_s c <=? 3600)) &&
  ((f0 <=?. c_weight c) && (c_weight c <=?. f1)) &&
  kind_fields_present c &&
  negb (bool_decide (c_kind c = K_judge) && bool_decide (c_isolation c ≠ fresh_context)).

Definition new_TaskCriterion (c : TaskCriterion) : result TaskCriterion :=
  if criterion_valid c then Ok c else Err ValidationError.

Definition is_required (c : TaskCriterion) : bool := f1 <=?. c_weight c.

Definition clamp_criterion_timeouts (cs : list TaskCriterion) (ceiling_s : Z) : list TaskCriterion :=
  map (λ c, if ceiling_s <? c_timeout_s c then c <| c_timeout_s := ceiling_s |> else c) cs.

Record CriterionResult := mkResult {
  r_criterion_id : string;
  r_kind : option CriterionKind;
  r_passed : bool;
  r_weight : float;
  r_isolation : option Isolation;
  r_lens : option Lens;
  r_context_hash : option string;
  r_exit_code : option Z;
  r_output_excerpt : string;
  r_errored : bool;
  r_duration_s : float }.

#[export] Instance eta_CriterionResult : Eta CriterionResult := λ r,
  mkResult (r_criterion_id r) (r_kind r) (r_passed r) (r_weight r) (r_isolation r) (r_lens r)
    (r_context_hash r) (r_exit_code r) (r_output_excerpt r) (r_errored r) (r_duration_s r).

(** pydantic's [==]: field by field, floats with the IEEE comparison. *)
Definition result_eqb (a b : CriterionResult) : bool :=
  bool_decide (r_criterion_id a = r_criterion_id b) && bool_decide (r_kind a = r_kind b) &&
  Bool.eqb (r_passed a) (r_passed b) && feqb (r_weight a) (r_weight b) &&
  bool_decide (r_isolation a = r_isolation b) && bool_decide (r_lens a = r_lens b) &&
  bool_decide (r_context_hash a = r_context_hash b) &&
  bool_decide (r_exit_code a = r_exit_code b) &&
  bool_decide (r_output_excerpt a = r_output_excerpt b) &&
  Bool.eqb (r_errored a) (r_errored b) && feqb (r_duration_s a) (r_duration_s b).

Fixpoint results_eqb (a b : list CriterionResult) : bool :=
  match a, b with
  | [], [] => true
  | x :: a', y :: b' => result_eqb x y && results_eqb a' b'
  | _, _ => false
  end.

(** ** contracts/failure.py *)

Inductive FailureClass :=
  | F_environment | F_tool | F_retrieval | F_plan | F_execution | F_criteria | F_budget | F_merge.
#[export] Instance FailureClass_eq_dec : EqDecision FailureClass. Proof. solve_decision. Defined.
Inductive SignalSource := src_orchestrator | src_solver | src_validator | src_join.
#[export] Instance SignalSource_eq_dec : EqDecision SignalSource. Proof. solve_decision. Defined.

Definition FAILURE_CLASSES : list FailureClass :=
  [F_environment; F_tool; F_retrieval; F_plan; F_execution; F_criteria; F_budget; F_merge].

Definition CLASSES_EXCLUDED_FROM_TRUST : list FailureClass :=
  [F_environment; F_tool; F_budget; F_merge].

Record FailureSignal := mkSignal {
  sig_source : SignalSource;
  sig_detail : string;
  sig_at : datetime;
  sig_class_hint : option FailureClass }.

Record FailureVerdict := mkVerdict {
  failure_class : FailureClass;
  evidence : list string;
  implicated_skill : option (string * Z);   (* {"skill_id", "version"} *)
  counts_against_trust : bool;
  escalate_to_human : bool }.

Definition is_consistent (f : FailureVerdict) : bool :=
  Bool.eqb (counts_against_trust f)
    (negb (bool_decide (failure_class f ∈ CLASSES_EXCLUDED_FROM_TRUST))) &&
  Bool.eqb (escalate_to_human f) (bool_decide (failure_class f = F_criteria)).

(** ** contracts/branch.py *)

Inductive BranchKind := BK_portfolio | BK_decomposition.
#[export] Instance BranchKind_eq_dec : EqDecision BranchKind. Proof. solve_decision. Defined.
Inductive BranchStrategy := BS_apply | BS_adapt | BS_scratch.
Inductive BranchStatus := dispatched | running | succeeded | failed | timed_out.
#[export] Instance BranchStatus_eq_dec : EqDecision BranchStatus. Proof. solve_decision. Defined.

(** contracts/run.py: a skill candidate, as retrieved or as dumped into a branch. *)
Record SkillCandidateRef := mkCandidate {
  cand_skill_id : string;
  cand_version : Z;
  cand_score : float;
  cand_lexical_rank : option Z;
  cand_vector_rank : option Z;
  cand_bound_parameters : json_obj;
  cand_staleness_factor : option float;
  cand_shadow : bool }.

Record BranchState := mkBranch {
  branch_id : string;
  b_kind : BranchKind;
  b_strategy : BranchStrategy;
  b_subtask : option string;
  b_candidate : option SkillCandidateRef;
  b_workspace_ref : string;
  b_snapshot_ref : option string;
  b_transcript_ref : option string;
  b_status : BranchStatus;
  b_resources : list ResourceClaim;
  b_budget : Budget;
  b_spent : Spend;
  b_reserved : BudgetReservation;
  b_results : list CriterionResult;
  b_selected : bool;
  b_margin : option float;
  b_cost_usd : option float;
  b_owned_criteria : list string }.

#[export] Instance eta_BranchState : Eta BranchState := λ b,
  mkBranch (branch_id b) (b_kind b) (b_strategy b) (b_subtask b) (b_candidate b)
    (b_workspace_ref b) (b_snapshot_ref b) (b_transcript_ref b) (b_status b) (b_resources b)
    (b_budget b) (b_spent b) (b_reserved b) (b_results b) (b_selected b) (b_margin b)
    (b_cost_usd b) (b_owned_criteria b).

Inductive AuditAction := proceeded | flagged | audit_failed.

Record MergeAudit := mkAudit {
  merge_id : string;
  expected : Z;
  received : Z;
  missing : list string;
  action : AuditAction;
  layered : bool;
  batches : list (list string) }.

#[export] Instance eta_MergeAudit : Eta MergeAudit := λ m,
  mkAudit (merge_id m) (expected m) (received m) (missing m) (action m) (layered m) (batches m).

Definition is_complete (m : MergeAudit) : bool :=
  (expected m <=? received m) && match missing m with [] => true | _ => false end.

(** ** contracts/goal.py: the data (compilation is in the file Goals) *)

Inductive DesiredKind :=
  | DK_file_exists | DK_file_contains | DK_command | DK_assertion | DK_schema | DK_metric | DK_judge.
#[export] Instance DesiredKind_eq_dec : EqDecision DesiredKind. Proof. solve_decision. Defined.
Inductive ConstraintKind :=
  | CK_must_not_modify | CK_must_pass_command | CK_budget_ceiling | CK_no_external_effects.
Inductive StrategyHint := hint_abstain | hint_portfolio | hint_decomposition.
#[export] Instance StrategyHint_eq_dec : EqDecision StrategyHint. Proof. solve_decision. Defined.

Record DesiredState := mkDesired {
  d_id : string;
  d_kind : DesiredKind;
  d_path : option string;
  d_pattern : option string;
  d_run : option string;
  d_expect_exit : Z;
  d_expr : option string;
  d_target : option string;
  d_schema_ref : option string;
  d_metric : option string;
  d_op : option MetricOp;
  d_threshold : option float;
  d_rubric : option string;
  d_weight : float;
  d_timeout_s : Z }.

Inductive ConstraintValue := CV_str (s : string) | CV_float (f : float) | CV_list (l : list string).

Record Constraint := mkConstraint {
  k_id : string; k_kind : ConstraintKind; k_value : ConstraintValue; k_weight : float }.

Record Goal := mkGoal {
  goal_id : option string;
  desired : list DesiredState;
  constraints : list Constraint;
  g_context : option string;
  g_task_class : option string;
  preferences : list (string * string);
  strategy_hint : option StrategyHint;
  mea_opt_in : bool }.

(** ** contracts/run.py *)

Inductive ExecutionStrategy := ES_single | ES_mea.

Record Task := mkTask {
  task_id : string;
  goal : option Goal;
  request : option string;
  task_class : option string;
  workspace : option string;
  submitted_by : option string;
  submitted_at : datetime;
  is_eval_fixture : bool;
  execution_strategy : ExecutionStrategy }.

Record RunManifest := mkManifest {
  mf_model : option string;
  mf_model_version : option string;
  mf_tool_versions : list (string * string);
  mf_index_snapshot_id : option string;
  mf_library_commit : option string;
  mf_policy_version : option string;
  mf_criteria_hash : option string;
  mf_seed : option Z }.

#[export] Instance eta_RunManifest : Eta RunManifest := λ m,
  mkManifest (mf_model m) (mf_model_version m) (mf_tool_versions m) (mf_index_snapshot_id m)
    (mf_library_commit m) (mf_policy_version m) (mf_criteria_hash m) (mf_seed m).

Definition default_Manifest : RunManifest :=
  mkManifest None None [] None None None None None.

Record MemoryElementRef := mkElement {
  el_plane : Plane; el_ref : string; el_summary : option string;
  el_score : option float; el_trust : option float }.

Record MemoryBundle := mkBundle {
  skills : list SkillCandidateRef;
  facts : list MemoryElementRef;
  cases : list MemoryElementRef;
  dead_ends : list MemoryElementRef;
  tool_cautions : list MemoryElementRef;
  suppressed : bool }.

#[export] Instance eta_MemoryBundle : Eta MemoryBundle := λ b,
  mkBundle (skills b) (facts b) (cases b) (dead_ends b) (tool_cautions b) (suppressed b).

Definition default_Bundle : MemoryBundle := mkBundle [] [] [] [] [] false.

Record StepWave := mkWave {
  wave : Z; step_ids : list string; w_attempt_no : Z; w_snapshot_ref : option string;
  w_duration_s : option float; w_serial_duration_s : option float }.

Record WorkspaceSnapshot := mkSnapshot {
  ws_attempt_no : Z; snapshot_ref : string; restored : bool }.

#[export] Instance eta_WorkspaceSnapshot : Eta WorkspaceSnapshot := λ w,
  mkSnapshot (ws_attempt_no w) (snapshot_ref w) (restored w).

Inductive ArtifactKind := A_diff | A_file | A_json | A_text | A_metric_set.
Record Artifact := mkArtifact {
  art_kind : ArtifactKind; art_ref : string; art_description : option string }.

Inductive Verdict := V_reusable | V_one_off | V_duplicate.
#[export] Instance Verdict_eq_dec : EqDecision Verdict. Proof. solve_decision. Defined.

Record ReusabilityVerdict := mkReusability {
  verdict : Verdict;
  nearest_skill : option string;
  nearest_similarity : option float;
  parameterisable : bool;
  context_free : bool;
  checkable : bool;
  not_duplicate : bool;
  bounded : bool;
  ru_reason : option text }.
#[export] Instance eta_ReusabilityVerdict : Eta ReusabilityVerdict := λ v,
  mkReusability (verdict v) (nearest_skill v) (nearest_similarity v) (parameterisable v) (context_free v)
    (checkable v) (not_duplicate v) (bounded v) (ru_reason v).

(** The fifteen node names of contracts/graph.py [NODES]. *)
Inductive node_name :=
  | N_intake | N_retrieve | N_plan | N_fan_out | N_solve | N_validate | N_join
  | N_classify_failure | N_evolve | N_distill | N_review | N_store | N_record_dead_end
  | N_reject_draft | N_finalize.
#[export] Instance node_name_eq_dec : EqDecision node_name. Proof. solve_decision. Defined.

(** The [predicate_name]s of the route table. *)
Inductive route_name :=
  | always | abstain | fan_out_strategy | single_strategy | pre_dispatch_budget_failure
  | pre_validation_failure_signal | attempt_completed | has_branches
  | no_branches_and_passing | no_branches_and_failing | merge_complete_and_passing
  | otherwise | retry | reusable | one_off | approved | rejected.
#[export] Instance route_name_eq_dec : EqDecision route_name. Proof. solve_decision. Defined.

Record RouteEntry := mkRouteEntry {
  re_node : node_name; re_route : route_name; re_reason : text;
  re_attempt_no : Z; re_at : datetime }.

Record ExecutionGuide := mkGuide {
  gd_primary : list string; gd_checks : list string; gd_avoid : list string;
  gd_fallback : list string; gd_source_skills : list (string * Z); gd_adapted_at : datetime }.

Record RunState := mkRunState {
  run_id : string;
  task : Task;
  manifest : RunManifest;
  arm : Arm;
  criteria : list TaskCriterion;
  criteria_locked_at : option datetime;
  advisory_criteria : list TaskCriterion;
  bundle : MemoryBundle;
  chosen : option SkillCandidateRef;
  suppressed_skill : option SkillCandidateRef;
  strategy : option Strategy;
  strategy_reason : option text;
  predicted_success : option float;
  attempt_no : Z;
  branches : list BranchState;
  artifacts : list Artifact;
  transcript_ref : option string;
  workspace_snapshots : list WorkspaceSnapshot;
  step_waves : list StepWave;
  resource_conflicts : list ResourceConflict;
  results : list CriterionResult;
  results_history : list (list CriterionResult);
  certification_observations : list CriterionResult;
  merge_audits : list MergeAudit;
  failure_signal : option FailureSignal;
  failure : option FailureVerdict;
  draft : option json_obj;
  facts_extracted : list json_obj;
  affordance_updates : list json_obj;
  reusability : option ReusabilityVerdict;
  written_versions : list json_obj;
  execution_guide : option ExecutionGuide;
  budget : Budget;
  spent : Spend;
  reserved : BudgetReservation;
  route_log : list RouteEntry;
  terminal : option Terminal;
  mea_active : bool;
  mea_fallback_reason : option string }.

#[export] Instance eta_RunState : Eta RunState := λ s,
  mkRunState (run_id s) (task s) (manifest s) (arm s) (criteria s) (criteria_locked_at s)
    (advisory_criteria s) (bundle s) (chosen s) (suppressed_skill s) (strategy s)
    (strategy_reason s) (predicted_success s) (attempt_no s) (branches s) (artifacts s)
    (transcript_ref s) (workspace_snapshots s) (step_waves s) (resource_conflicts s)
    (results s) (results_history s) (certification_observations s) (merge_audits s)
    (failure_signal s) (failure s) (draft s) (facts_extracted s) (affordance_updates s)
    (reusability s) (written_versions s) (execution_guide s) (budget s) (spent s)
    (reserved s) (route_log s) (terminal s) (mea_active s) (mea_fallback_reason s).

(** The three [model_validator]s of [RunState]. *)
Definition control_arm_suppresses_bundle (s : RunState) : bool :=
  negb (bool_decide (arm s = control) && negb (suppressed (bundle s)) &&
        (negb (is_nil (skills (bundle s))) || negb (is_nil (facts (bundle s))) ||
         negb (is_nil (cases (bundle s))))).

Definition suppression_requires_control_arm (s : RunState) : bool :=
  match suppressed_skill s with
  | Some _ => bool_decide (arm s = control)
  | None => true
  end.

Definition decomposition_owned (s : RunState) : list string :=
  flat_map (λ b, if decide (b_kind b = BK_decomposition) then b_owned_criteria b else [])
    (branches s).

Definition decomposition_criteria_partition (s : RunState) : bool :=
  bool_decide (NoDup (decomposition_owned s)).

(** [RunState(run_id, task, criteria, budget, arm, manifest)] with every other
    field at its default. *)
Definition initial_RunState (rid : string) (t : Task) (cs : list TaskCriterion) (b : Budget)
    (a : Arm) (m : RunManifest) : RunState :=
  {| run_id := rid; task := t; manifest := m; arm := a; criteria := cs;
     criteria_locked_at := None; advisory_criteria := []; bundle := default_Bundle;
     chosen := None; suppressed_skill := None; strategy := None; strategy_reason := None;
     predicted_success := None; attempt_no := 0; branches := []; artifacts := [];
     transcript_ref := None; workspace_snapshots := []; step_waves := [];
     resource_conflicts := []; results := []; results_history := [];
     certification_observations := []; merge_audits := []; failure_signal := None;
     failure := None; draft := None; facts_extracted := []; affordance_updates := [];
     reusability := None; written_versions := []; execution_guide := None; budget := b;
     spent := default_Spend; reserved := default_Reservation; route_log := [];
     terminal := None; mea_active := false; mea_fallback_reason := None |}.
