(* ===== verification/Goals.v ===== *)
(** * Goals and criteria at intake (contracts/goal.py, validation/freeze.py, validation/critic.py)

    The [Goal] validators, the compilation of a goal to criteria, the sealing
    of [must_not_modify] constraints and the critic's criteria.  What the
    theorems say: the compiled commands and assertions are read back by the
    shell and by Python as exactly the paths and patterns of the goal, a goal
    always compiles to a machine-checkable required criterion, and the order,
    ids and proofs of the criteria survive sealing and refinement. *)
From S2P Require Import Prelude PyStr Budgets Contracts.
From Stdlib Require Import Ascii ZArith Lia.
Open Scope Z_scope.

(** ** Validators *)

(** [not x] for an optional string. *)
Definition falsy (o : option string) : bool :=
  match o with None => true | Some s => String.eqb s "" end.
Definition or_empty (o : option string) : string := default "" o.

Definition unit_weight (w : float) : bool := (f0 <=?. w) && (w <=?. f1).

Definition desired_fields_present (d : DesiredState) : bool :=
  match d_kind d with
  | DK_file_exists => negb (falsy (d_path d))
  | DK_file_contains => negb (falsy (d_path d) || falsy (d_pattern d))
  | DK_command => negb (falsy (d_run d))
  | DK_assertion => negb (falsy (d_expr d))
  | DK_schema => negb (falsy (d_target d) || falsy (d_schema_ref d))
  | DK_metric => bool_decide (is_Some (d_metric d)) && bool_decide (is_Some (d_op d))
                 && bool_decide (is_Some (d_threshold d))
  | DK_judge => negb (falsy (d_rubric d))
  end.

Definition desired_valid (d : DesiredState) : bool :=
  unit_weight (d_weight d) && ((1 <=? d_timeout_s d) && (d_timeout_s d <=? 3600))
  && desired_fields_present d.

Definition hard (d : DesiredState) : bool :=
  (f1 <=?. d_weight d) && negb (bool_decide (d_kind d = DK_judge)).

Definition goal_valid (g : Goal) : bool :=
  negb (is_nil (desired g)) && forallb desired_valid (desired g)
  && forallb (λ c, unit_weight (k_weight c)) (constraints g)
  && existsb hard (desired g).

(** ** Path and literal guards *)

Definition _SHELL_META : list ascii :=
  map Ascii.ascii_of_nat [59; 124; 38; 36; 96; 60; 62; 40; 41; 123; 125; 33; 92; 39; 34; 42; 63; 91; 93; 126]%nat.

Definition meta_char (c : ascii) : bool :=
  existsb (Ascii.eqb c) _SHELL_META || isspace c || (code c <? 32)%nat.

(** ["C:..."]: the second character is a colon and the first a letter. *)
Definition drive_letter (p : string) : bool :=
  match p with
  | String a (String b _) => Ascii.eqb b ":" && isalpha a
  | _ => false
  end.

Definition _quoted_relative_path (p : string) : result string :=
  if String.eqb p "" || negb (String.eqb p (strip p)) then Err ValueError
  else if any_char meta_char p then Err ValueError
  else if String.prefix "/" p then Err ValueError
  else if drive_letter p then Err ValueError
  else if existsb (String.eqb "..") (path_parts p) then Err ValueError
  else Ok (shlex_quote p).

Definition _assertion_string (v : string) : result string :=
  if any_char (λ c, (code c =? 0) || (code c =? 10) || (code c =? 13))%nat v then Err ValueError
  else Ok (py_repr v).

(** ** Compilation *)

(** [TaskCriterion(id=..., kind=..., weight=..., timeout_s=..., source=...,
    preregistered=True)], every other field at its default. *)
Definition base_criterion (id : string) (k : CriterionKind) (w : float) (t : Z) (src : CriterionSource)
    : TaskCriterion :=
  mkTaskCriterion id k None 0 None None None None None None None fresh_context None t w None src true.

Definition _desired_to_criterion (d : DesiredState) (src : CriterionSource) : result TaskCriterion :=
  let base k := base_criterion (d_id d) k (d_weight d) (d_timeout_s d) src in
  match d_kind d with
  | DK_file_exists =>
      _ ← _quoted_relative_path (or_empty (d_path d));
      lit ← _assertion_string (or_empty (d_path d));
      new_TaskCriterion ((base K_assertion) <| c_expr := Some ("file_exists(" +:+ lit +:+ ")") |>)
  | DK_file_contains =>
      _ ← _quoted_relative_path (or_empty (d_path d));
      lit ← _assertion_string (or_empty (d_path d));
      pat ← _assertion_string (or_empty (d_pattern d));
      new_TaskCriterion ((base K_assertion)
        <| c_expr := Some ("file_contains(" +:+ lit +:+ ", " +:+ pat +:+ ")") |>)
  | DK_command =>
      new_TaskCriterion ((base K_command) <| c_run := d_run d |> <| c_expect_exit := d_expect_exit d |>)
  | DK_assertion => new_TaskCriterion ((base K_assertion) <| c_expr := d_expr d |>)
  | DK_schema =>
      new_TaskCriterion ((base K_schema) <| c_target := d_target d |> <| c_schema_ref := d_schema_ref d |>)
  | DK_metric =>
      new_TaskCriterion ((base K_metric) <| c_metric := d_metric d |> <| c_op := d_op d |>
        <| c_threshold := d_threshold d |>)
  | DK_judge => new_TaskCriterion ((base K_judge) <| c_rubric := d_rubric d |>)
  end.

Fixpoint traverse {A B} (f : A → result B) (l : list A) : result (list B) :=
  match l with
  | [] => Ok []
  | x :: l' => y ← f x; ys ← traverse f l'; Ok (y :: ys)
  end.

(** The paths of a [must_not_modify] value. *)
Definition _paths (c : Constraint) : result (list string) :=
  match k_value c with
  | CV_list l => Ok l
  | CV_str s => Ok [s]
  | CV_float _ => Err ValueError
  end.

Definition freeze_checks (quoted : list string) : string :=
  if is_nil quoted then "true" else join_str " && " (map (λ p, "test -e " +:+ p) quoted).

Definition _constraint_to_criterion (c : Constraint) (src : CriterionSource) : result TaskCriterion :=
  let base := base_criterion (k_id c) K_command (k_weight c) 300 src in
  match k_kind c with
  | CK_must_pass_command =>
      match k_value c with
      | CV_str s => new_TaskCriterion (base <| c_run := Some s |>)
      | _ => Err ValueError
      end
  | CK_must_not_modify =>
      paths ← _paths c;
      quoted ← traverse _quoted_relative_path paths;
      new_TaskCriterion (base <| c_run := Some (freeze_checks quoted) |>)
  | _ => Err ValueError
  end.

Definition compilable (c : Constraint) : bool :=
  match k_kind c with CK_budget_ceiling | CK_no_external_effects => false | _ => true end.

Definition compile_goal (g : Goal) (src : CriterionSource) : result (list TaskCriterion) :=
  ds ← traverse (λ d, _desired_to_criterion d src) (desired g);
  cs ← traverse (λ c, _constraint_to_criterion c src) (List.filter compilable (constraints g));
  Ok (ds ++ cs).

(** ** validation/freeze.py, validation/critic.py *)

Definition is_freeze (c : Constraint) : bool :=
  match k_kind c with CK_must_not_modify => true | _ => false end.

(** [{c.id: c for c in criteria}] then [by_id[k] = v]: the last entry of an id
    is the one looked up. *)
Definition by_id_get (id : string) (l : list (string * TaskCriterion)) : option TaskCriterion :=
  snd <$> find_first (λ kv, String.eqb kv.1 id) (rev l).

Section Intake.
  Context {W : Type}.
  (** [{p: path_digest(workdir, p)}] rendered by [_freeze_script]: sha256 of
      the workdir's files inside a [python -c] command. *)
  Variable freeze_script : list string → M W string.
  (** [author_sensitivity_proof]: runs the criterion in an empty directory. *)
  Variable author_sensitivity_proof : TaskCriterion → M W SensitivityProof.

Definition sealed_criterion (c : Constraint) : M W (string * TaskCriterion) :=
  paths ← lift (_paths c);
  script ← freeze_script paths;
  crit ← lift (new_TaskCriterion
    ((base_criterion (k_id c) K_command (k_weight c) 300 from_caller) <| c_run := Some script |>));
  mret (k_id c, crit).

Definition seal_must_not_modify_criteria (criteria : list TaskCriterion) (g : option Goal)
    : M W (list TaskCriterion) :=
  match g with
  | None => mret criteria
  | Some g =>
      let freezes := List.filter is_freeze (constraints g) in
      if is_nil freezes then mret criteria
      else
        sealed ← mapM_ sealed_criterion freezes;
        let by_id := map (λ c, (c_id c, c)) criteria ++ sealed in
        let out := map (λ c, default c (by_id_get (c_id c) by_id)) criteria in
        let missing := List.filter (λ k, negb (existsb (λ c, String.eqb (c_id c) (k_id k)) criteria)) freezes in
        mret (out ++ omap (λ k, by_id_get (k_id k) by_id) missing)
  end.

Definition refine_criterion (c : TaskCriterion) : M W TaskCriterion :=
  if is_required c then
    match c_sensitivity_proof c with
    | None => p ← author_sensitivity_proof c; mret (c <| c_sensitivity_proof := Some p |>)
    | Some _ => mret c
    end
  else mret c.

Definition refine_goal_criteria (criteria : list TaskCriterion) : M W (list TaskCriterion) :=
  mapM_ refine_criterion criteria.

Definition _guess_check (request : string) : string :=
  let lower := str_lower request in
  if str_contains "output.txt" lower then "test -f output.txt"
  else if str_contains ".gitignore" lower then "test -f .gitignore"
  else if str_contains "readme" lower then "test -f README.md"
  else if str_contains "editorconfig" lower || str_contains ".editorconfig" lower
  then "test -f .editorconfig"
  else "test -n " +:+ String c_dquote ("$(ls -A . 2>/dev/null)" +:+ String c_dquote EmptyString).

Definition propose_criteria (request : string) : M W (list TaskCriterion) :=
  c ← lift (new_TaskCriterion
    ((base_criterion "critic-primary" K_command f1 300 from_critic)
       <| c_run := Some (_guess_check request) |>));
  p ← author_sensitivity_proof c;
  mret [c <| c_sensitivity_proof := Some p |>].

End Intake.

(** ** Lemmas *)

Lemma traverse_Ok {A B} (f : A → result B) l ys :
  traverse f l = Ok ys ↔ Forall2 (λ x y, f x = Ok y) l ys.
Proof.
  revert ys. induction l as [|x l IH]; intros ys; simpl.
  - split; [intros [= <-]; constructor|by inversion 1].
  - split.
    + intros H. inv_ok. constructor; [done|]. by apply IH.
    + inversion 1 as [|? y ? ys' Hy Hys]; subst. apply IH in Hys. by rewrite Hy; simpl; rewrite Hys.
Qed.

(** A path accepted by the guard stays inside the workdir. *)
Definition confined (p : string) : Prop :=
  p ≠ "" ∧ String.prefix "/" p = false ∧ drive_letter p = false ∧ ".." ∉ path_parts p ∧
  any_char meta_char p = false.

Lemma quoted_path_Ok p q : _quoted_relative_path p = Ok q → q = shlex_quote p ∧ confined p.
Proof.
  unfold _quoted_relative_path, confined. destruct (String.eqb p "") eqn:E0; [done|].
  destruct (negb _); [done|]. simpl. destruct (any_char meta_char p); [done|].
  destruct (String.prefix "/" p); [done|]. destruct (drive_letter p); [done|].
  destruct (existsb _ _) eqn:E; [done|]. intros [= <-]. apply String.eqb_neq in E0.
  split_and!; try done. intros H. apply not_true_iff_false in E. apply E, existsb_exists.
  exists "..". split; [by apply list_elem_of_In|done].
Qed.

Lemma new_TaskCriterion_Ok c c' : new_TaskCriterion c = Ok c' → c' = c ∧ criterion_valid c = true.
Proof. unfold new_TaskCriterion. destruct (criterion_valid c); [|done]. by intros [= <-]. Qed.

Ltac inv_criterion :=
  repeat match goal with
  | H : new_TaskCriterion _ = Ok _ |- _ => apply new_TaskCriterion_Ok in H as [-> ?]
  end.

(** The words [test -e p && test -e q ...] reads as. *)
Fixpoint test_tokens (ps : list string) : list sh_token :=
  match ps with
  | [] => [Word "true"]
  | [p] => [Word "test"; Word "-e"; Word p]
  | p :: ps' => [Word "test"; Word "-e"; Word p; And_if] ++ test_tokens ps'
  end.

Lemma sh_tokens_test p rest :
  sh_tokens Outside ("test -e " +:+ shlex_quote p +:+ rest) =
  (λ l, Word "test" :: Word "-e" :: l) <$> sh_tokens (In_word p) rest.
Proof.
  rewrite <- sh_tokens_quote. generalize (shlex_quote p +:+ rest) as s. intros s.
  lazy -[sh_tokens]. simpl. by destruct (sh_tokens Outside s).
Qed.

Definition joined_tests (ps : list string) : string :=
  join_str " && " (map (λ p, "test -e " +:+ p) (map shlex_quote ps)).

Lemma joined_tests_tokens p ps :
  sh_tokens Outside (joined_tests (p :: ps)) = Some (test_tokens (p :: ps)).
Proof.
  revert p. induction ps as [|q ps IH]; intros p.
  - unfold joined_tests. cbn [map join_str].
    rewrite <- (app_str_nil (shlex_quote p)), sh_tokens_test. reflexivity.
  - assert (joined_tests (p :: q :: ps) =
      ("test -e " +:+ shlex_quote p) +:+ " && " +:+ joined_tests (q :: ps)) as -> by reflexivity.
    specialize (IH q). revert IH. generalize (joined_tests (q :: ps)) as s. intros s IH.
    rewrite app_str_assoc, sh_tokens_test, !append_cons, append_nil_l. simpl. by rewrite IH.
Qed.

Lemma freeze_checks_tokens ps :
  sh_tokens Outside (freeze_checks (map shlex_quote ps)) = Some (test_tokens ps).
Proof. destruct ps as [|p ps]; [reflexivity|]. apply (joined_tests_tokens p ps). Qed.

(** A compiled [must_not_modify] check runs nothing but [test -e] on the
    listed paths: the shell reads the command back as exactly those words, and
    every path is relative, free of ".." and of shell metacharacters. *)
Theorem freeze_command_exact c src crit ps :
  k_kind c = CK_must_not_modify → _paths c = Ok ps → _constraint_to_criterion c src = Ok crit →
  c_kind crit = K_command ∧ c_expect_exit crit = 0 ∧ Forall confined ps ∧
  ∃ run, c_run crit = Some run ∧ sh_tokens Outside run = Some (test_tokens ps).
Proof.
  intros Hk Hp. unfold _constraint_to_criterion. rewrite Hk, Hp. simpl. intros H. inv_ok.
  apply traverse_Ok in H. inv_criterion.
  assert (x = map shlex_quote ps ∧ Forall confined ps) as [-> Hc].
  { clear -H. induction H as [|p q ps qs Hpq _ [-> IH]]; [done|].
    apply quoted_path_Ok in Hpq as [-> ?]. auto. }
  split_and!; try done. eexists. split; [reflexivity|]. apply freeze_checks_tokens.
Qed.

(** A compiled [file_contains] assertion calls the checker on exactly the
    goal's path and pattern: Python reads the two literals back as these two
    strings, whatever quotes, backslashes or control characters they contain,
    and nothing of them ends up outside the literals. *)
Theorem assertion_literals_exact d src crit :
  d_kind d = DK_file_contains → _desired_to_criterion d src = Ok crit →
  confined (or_empty (d_path d)) ∧
  ∃ args rest,
    c_expr crit = Some ("file_contains(" +:+ args) ∧
    literal args = Some (or_empty (d_path d), ", " +:+ rest) ∧
    literal rest = Some (or_empty (d_pattern d), ")").
Proof.
  intros Hk. unfold _desired_to_criterion. rewrite Hk. intros H. inv_ok. inv_criterion.
  match goal with H : _quoted_relative_path _ = Ok _ |- _ => apply quoted_path_Ok in H as [_ Hc] end.
  unfold _assertion_string in *. repeat case_match; try discriminate. inv_ok.
  split; [done|]. eexists _, (py_repr (or_empty (d_pattern d)) +:+ ")").
  split; [reflexivity|]. split; apply literal_repr.
Qed.

(** What every compiled criterion has, whichever entry it comes from. *)
Lemma desired_criterion_shape d src c :
  _desired_to_criterion d src = Ok c →
  c_id c = d_id d ∧ c_weight c = d_weight d ∧ c_source c = src ∧ c_preregistered c = true ∧
  criterion_valid c = true ∧ (c_kind c = K_judge ↔ d_kind d = DK_judge).
Proof.
  unfold _desired_to_criterion. destruct (d_kind d); intros H; inv_ok; inv_criterion;
    split_and!; try done.
Qed.

Lemma constraint_criterion_shape k src c :
  _constraint_to_criterion k src = Ok c →
  c_id c = k_id k ∧ c_source c = src ∧ c_preregistered c = true ∧ criterion_valid c = true ∧
  c_kind c = K_command.
Proof.
  unfold _constraint_to_criterion. destruct (k_kind k); intros H; try discriminate; inv_ok;
    try (destruct (k_value k); try discriminate); inv_ok; inv_criterion; done.
Qed.

Lemma compile_goal_Ok g src cs :
  compile_goal g src = Ok cs →
  ∃ ds ks, cs = ds ++ ks ∧ Forall2 (λ d c, _desired_to_criterion d src = Ok c) (desired g) ds ∧
    Forall2 (λ k c, _constraint_to_criterion k src = Ok c) (List.filter compilable (constraints g)) ks.
Proof. unfold compile_goal. intros H. inv_ok. do 2 eexists. by rewrite <- !traverse_Ok. Qed.

Lemma Forall2_map_id {A} (f : A → string) (R : A → TaskCriterion → Prop) l cs :
  (∀ x c, R x c → c_id c = f x) → Forall2 R l cs → map c_id cs = map f l.
Proof. intros H. induction 1 as [|x c l cs Hx _ IH]; simpl; [done|]. by rewrite IH, (H x c). Qed.

(** A valid goal compiles to valid, preregistered criteria in the goal's
    order, one per desired state and one per compilable constraint under the
    same id, and at least one of them is required and machine-checkable. *)
Theorem compile_goal_contract g src cs :
  goal_valid g = true → compile_goal g src = Ok cs →
  map c_id cs = map d_id (desired g) ++ map k_id (List.filter compilable (constraints g)) ∧
  Forall (λ c, criterion_valid c = true ∧ c_source c = src ∧ c_preregistered c = true) cs ∧
  ∃ c, c ∈ cs ∧ is_required c = true ∧ c_kind c ≠ K_judge.
Proof.
  intros Hg H. apply compile_goal_Ok in H as (ds & ks & -> & Hd & Hk). split_and!.
  - rewrite map_app. f_equal.
    + apply (Forall2_map_id d_id) in Hd; [done|]. intros d c Hc. apply desired_criterion_shape in Hc. tauto.
    + apply (Forall2_map_id k_id) in Hk; [done|]. intros k c Hc. apply constraint_criterion_shape in Hc. tauto.
  - apply Forall_app. split.
    + clear -Hd. induction Hd as [|d c l cs Hc _ IH]; constructor; [|done].
      apply desired_criterion_shape in Hc. tauto.
    + clear -Hk. induction Hk as [|k c l cs Hc _ IH]; constructor; [|done].
      apply constraint_criterion_shape in Hc. tauto.
  - unfold goal_valid in Hg. apply andb_true_iff in Hg as [_ Hg].
    apply existsb_exists in Hg as (d & Hin & Hh). apply list_elem_of_In in Hin.
    apply list_elem_of_lookup_1 in Hin as [i Hin].
    destruct (Forall2_lookup_l _ _ _ _ _ Hd Hin) as (c & Hin' & Hc). apply list_elem_of_lookup_2 in Hin'.
    apply desired_criterion_shape in Hc as (_ & Hw & _ & _ & _ & Hj).
    unfold hard in Hh. apply andb_true_iff in Hh as [Hw' Hn]. exists c. split_and!.
    + apply elem_of_app. by left.
    + unfold is_required. by rewrite Hw.
    + rewrite Hj. by apply negb_true_iff, bool_decide_eq_false in Hn.
Qed.

(** *** When compilation succeeds *)

Definition path_ok (p : string) : bool := is_ok (_quoted_relative_path p) && is_ok (_assertion_string p).

Definition desired_compilable (d : DesiredState) : bool :=
  match d_kind d with
  | DK_file_exists => path_ok (or_empty (d_path d))
  | DK_file_contains => path_ok (or_empty (d_path d)) && is_ok (_assertion_string (or_empty (d_pattern d)))
  | _ => true
  end.

Definition constraint_compilable (k : Constraint) : bool :=
  match k_kind k, k_value k with
  | CK_must_pass_command, CV_str _ => true
  | CK_must_pass_command, _ => false
  | CK_must_not_modify, CV_str s => is_ok (_quoted_relative_path s)
  | CK_must_not_modify, CV_list l => forallb (λ p, is_ok (_quoted_relative_path p)) l
  | CK_must_not_modify, CV_float _ => false
  | _, _ => true
  end.

Lemma is_ok_spec {A} (r : result A) : is_ok r = true ↔ ∃ a, r = Ok a.
Proof. destruct r; simpl; split; eauto; [|intros [? ?]]; done. Qed.

Lemma traverse_is_ok {A B} (f : A → result B) l :
  is_ok (traverse f l) = forallb (λ x, is_ok (f x)) l.
Proof.
  induction l as [|x l IH]; simpl; [done|]. rewrite <- IH.
  destruct (f x); simpl; [|done]. by destruct (traverse f l).
Qed.

Lemma is_ok_bind {A B} (m : result A) (f : A → result B) :
  is_ok (m ≫= f) = match m with Ok a => is_ok (f a) | Err _ => false end.
Proof. by destruct m. Qed.

Lemma new_criterion_is_ok c : is_ok (new_TaskCriterion c) = criterion_valid c.
Proof. unfold new_TaskCriterion. by destruct (criterion_valid c). Qed.

Lemma falsy_Some o : falsy o = false → is_Some o.
Proof. destruct o; [eauto|done]. Qed.

Lemma desired_is_ok d src :
  desired_valid d = true → is_ok (_desired_to_criterion d src) = desired_compilable d.
Proof.
  unfold desired_valid, unit_weight. intros H.
  apply andb_true_iff in H as [H Hf]. apply andb_true_iff in H as [Hw Ht].
  unfold _desired_to_criterion, desired_compilable, path_ok, desired_fields_present in *.
  assert (∀ c, c_weight c = d_weight d → c_timeout_s c = d_timeout_s d → c_isolation c = fresh_context →
    kind_fields_present c = true → is_ok (new_TaskCriterion c) = true) as Hv.
  { intros c E1 E2 E3 E4. rewrite new_criterion_is_ok. unfold criterion_valid.
    rewrite E1, E2, E3, E4, Ht, Hw. simpl. by rewrite andb_false_r. }
  destruct (d_kind d); rewrite ?is_ok_bind.
  - destruct (_quoted_relative_path _); simpl; [|done].
    destruct (_assertion_string _); simpl; [|done]. by apply Hv.
  - destruct (_quoted_relative_path _); simpl; [|done].
    destruct (_assertion_string (or_empty (d_path d))); simpl; [|done].
    destruct (_assertion_string (or_empty (d_pattern d))); simpl; [|done]. by apply Hv.
  - apply negb_true_iff in Hf. apply Hv; try done. by apply bool_decide_eq_true, falsy_Some.
  - apply negb_true_iff in Hf. apply Hv; try done. by apply bool_decide_eq_true, falsy_Some.
  - apply negb_true_iff, orb_false_iff in Hf as [H1 H2]. apply Hv; try done.
    unfold kind_fields_present. simpl. rewrite !andb_true_iff, !bool_decide_eq_true.
    split; by apply falsy_Some.
  - by apply Hv.
  - apply negb_true_iff in Hf. apply Hv; try done. by apply bool_decide_eq_true, falsy_Some.
Qed.

Lemma constraint_is_ok k src :
  unit_weight (k_weight k) = true → compilable k = true →
  is_ok (_constraint_to_criterion k src) = constraint_compilable k.
Proof.
  intros Hw Hc.
  assert (∀ c, c_weight c = k_weight k → c_timeout_s c = 300 → c_kind c = K_command → is_Some (c_run c) →
    is_ok (new_TaskCriterion c) = true) as Hv.
  { intros c E1 E2 E3 E4. rewrite new_criterion_is_ok. unfold criterion_valid, kind_fields_present.
    rewrite E1, E2, E3. unfold unit_weight in Hw. rewrite Hw. simpl. by rewrite bool_decide_eq_true_2. }
  unfold _constraint_to_criterion, constraint_compilable, compilable, _paths in *.
  destruct (k_kind k), (k_value k); try done; rewrite ?is_ok_bind; simpl; try (apply Hv; by eauto).
  - destruct (_quoted_relative_path s); simpl; [apply Hv; by eauto|done].
  - rewrite <- traverse_is_ok. destruct (traverse _ l); simpl; [apply Hv; by eauto|done].
Qed.

Lemma forallb_ext_in {A} (f g : A → bool) l : (∀ x, x ∈ l → f x = g x) → forallb f l = forallb g l.
Proof.
  induction l as [|x l IH]; intros H; simpl; [done|]. rewrite IH, H; [done|left|].
  intros y Hy. apply H. by right.
Qed.

(** A valid goal compiles exactly when each path is a plain relative path,
    each literal fits on a line and each constraint carries a value of its
    kind's type: the pydantic constructors inside [compile_goal] never fail. *)
Theorem compile_goal_succeeds_iff g src :
  goal_valid g = true →
  is_ok (compile_goal g src) =
  forallb desired_compilable (desired g) &&
  forallb constraint_compilable (List.filter compilable (constraints g)).
Proof.
  unfold goal_valid. rewrite !andb_true_iff. intros [[[_ Hd] Hk] _].
  rewrite forallb_forall in Hd, Hk.
  rewrite <- (forallb_ext_in (λ d, is_ok (_desired_to_criterion d src)))
    by (intros d Hin; apply desired_is_ok, Hd; by apply list_elem_of_In).
  rewrite <- (forallb_ext_in (λ k, is_ok (_constraint_to_criterion k src))).
  2: { intros k Hin. apply list_elem_of_In, filter_In in Hin as [Hin Hc].
       apply constraint_is_ok; [by apply Hk|done]. }
  rewrite <- !traverse_is_ok. unfold compile_goal.
  destruct (traverse _ (desired g)); simpl; [|done]. by destruct (traverse _ _).
Qed.

(** ** Sealing and refinement *)

Lemma by_id_get_app id l1 l2 :
  by_id_get id (l1 ++ l2) = match by_id_get id l2 with Some c => Some c | None => by_id_get id l1 end.
Proof.
  unfold by_id_get. rewrite rev_app_distr. generalize (rev l1) as r1, (rev l2) as r2. intros r1 r2.
  induction r2 as [|[k c] r2 IH]; simpl; [by destruct (find_first _ r1)|]. by destruct (String.eqb k id).
Qed.

Lemma by_id_get_Some id l c : by_id_get id l = Some c → (id, c) ∈ l.
Proof.
  unfold by_id_get. destruct (find_first _ _) as [[k c']|] eqn:E; simpl; [|done]. intros [= ->].
  apply find_first_Some in E as [Hin Hk]. apply String.eqb_eq in Hk as <-.
  by apply list_elem_of_In, in_rev, list_elem_of_In.
Qed.

Lemma by_id_get_None id l : by_id_get id l = None → ∀ c, (id, c) ∉ l.
Proof.
  unfold by_id_get. destruct (find_first _ _) eqn:E; simpl; [done|]. intros _ c Hin.
  rewrite find_first_None in E. specialize (E (id, c)). simpl in E. rewrite String.eqb_refl in E.
  enough (true = false) by done. apply E, list_elem_of_In, in_rev. rewrite rev_involutive.
  by apply list_elem_of_In.
Qed.

Section Sealing.
  Context {W : Type} (freeze_script : list string → M W string).

(** The digest check a [must_not_modify] constraint is sealed to. *)
Definition is_seal (k : Constraint) (c : TaskCriterion) : Prop :=
  ∃ script w1 w2 paths, _paths k = Ok paths ∧ freeze_script paths w1 = (w2, Ok script) ∧
    c = (base_criterion (k_id k) K_command (k_weight k) 300 from_caller) <| c_run := Some script |>.

Lemma sealed_criterion_Ok k w w' p :
  sealed_criterion freeze_script k w = (w', Ok p) → p.1 = k_id k ∧ is_seal k p.2.
Proof.
  unfold sealed_criterion. intros H. inv_ok. inv_criterion. split; [done|].
  do 4 eexists. eauto.
Qed.

Lemma seal_Ok criteria g w w' out :
  List.filter is_freeze (constraints g) ≠ [] →
  seal_must_not_modify_criteria freeze_script criteria (Some g) w = (w', Ok out) →
  (∀ k, k ∈ constraints g → is_freeze k = true → k_id k ∈ map c_id criteria) →
  ∃ sealed, Forall2 (λ k p, p.1 = k_id k ∧ is_seal k p.2) (List.filter is_freeze (constraints g)) sealed ∧
    out = map (λ c, default c (by_id_get (c_id c) (map (λ c, (c_id c, c)) criteria ++ sealed))) criteria.
Proof.
  intros Hne H Hall. unfold seal_must_not_modify_criteria in H.
  assert (List.filter (λ k, negb (existsb (λ c, String.eqb (c_id c) (k_id k)) criteria))
    (List.filter is_freeze (constraints g)) = []) as Hm.
  { apply elem_of_nil_inv. intros k Hk.
    apply list_elem_of_In, filter_In in Hk as [Hk Hn]. apply filter_In in Hk as [Hk Hf].
    apply list_elem_of_In in Hk. specialize (Hall k Hk Hf).
    apply negb_true_iff, not_true_iff_false in Hn. apply Hn, existsb_exists.
    apply list_elem_of_fmap in Hall as (c & Hc & Hin). exists c. split; [by apply list_elem_of_In|].
    by apply String.eqb_eq. }
  rewrite Hm in H. destruct (is_nil _) eqn:En.
  { by destruct (List.filter is_freeze (constraints g)). }
  apply M_bind_Ok in H as (sealed & w1 & Hs & H). exists sealed. split.
  - apply mapM_Ok in Hs. eapply Forall2_impl; [exact Hs|]. intros k p (? & ? & Hk).
    by apply sealed_criterion_Ok in Hk.
  - apply ret_Ok in H as [_ ->]. by rewrite app_nil_r.
Qed.

(** The sealed entries are exactly the freezes'. *)
Definition seals (g : Goal) (sealed : list (string * TaskCriterion)) : Prop :=
  Forall2 (λ k p, p.1 = k_id k ∧ is_seal k p.2) (List.filter is_freeze (constraints g)) sealed.

Definition is_freeze_of (g : Goal) (k : Constraint) : Prop := k ∈ constraints g ∧ is_freeze k = true.

Lemma freeze_in_filter g k : is_freeze_of g k ↔ k ∈ List.filter is_freeze (constraints g).
Proof. unfold is_freeze_of. by rewrite !list_elem_of_In, filter_In. Qed.

Lemma sealed_from g sealed id c :
  seals g sealed → (id, c) ∈ sealed → ∃ k, is_freeze_of g k ∧ id = k_id k ∧ is_seal k c.
Proof.
  intros Hs Hin. apply list_elem_of_lookup_1 in Hin as [i Hi].
  destruct (Forall2_lookup_r _ _ _ _ _ Hs Hi) as (k & Hk & [E Hsk]).
  apply list_elem_of_lookup_2 in Hk. exists k. by rewrite freeze_in_filter.
Qed.

Lemma sealed_has g sealed k : seals g sealed → is_freeze_of g k → ∃ c, (k_id k, c) ∈ sealed.
Proof.
  intros Hs Hk. apply freeze_in_filter, list_elem_of_lookup_1 in Hk as [i Hi].
  destruct (Forall2_lookup_l _ _ _ _ _ Hs Hi) as ([id c] & Hc & [E _]). simpl in E. subst id.
  exists c. by apply list_elem_of_lookup_2 in Hc.
Qed.

Definition pick_id (criteria : list TaskCriterion) (sealed : list (string * TaskCriterion)) (c : TaskCriterion)
    : TaskCriterion :=
  default c (by_id_get (c_id c) (map (λ c, (c_id c, c)) criteria ++ sealed)).

Lemma pick_id_id g sealed criteria c :
  seals g sealed → c_id (pick_id criteria sealed c) = c_id c.
Proof.
  intros Hs. unfold pick_id. rewrite by_id_get_app.
  destruct (by_id_get (c_id c) sealed) as [c'|] eqn:E; simpl.
  - apply by_id_get_Some, (sealed_from _ _ _ _ Hs) in E as (k & _ & -> & (? & ? & ? & ? & _ & _ & ->)). done.
  - destruct (by_id_get _ (map _ criteria)) as [c'|] eqn:E'; simpl; [|done].
    apply by_id_get_Some, list_elem_of_fmap in E' as (c2 & [= E1 E2] & _). by subst.
Qed.

Lemma pick_id_frozen g sealed criteria c k :
  seals g sealed → is_freeze_of g k → k_id k = c_id c →
  ∃ k', is_freeze_of g k' ∧ is_seal k' (pick_id criteria sealed c).
Proof.
  intros Hs Hk Ek. unfold pick_id. rewrite by_id_get_app.
  destruct (by_id_get (c_id c) sealed) as [c'|] eqn:E; simpl.
  - apply by_id_get_Some, (sealed_from _ _ _ _ Hs) in E as (k' & Hk' & _ & Hsk). eauto.
  - destruct (sealed_has g sealed k Hs Hk) as [c' Hin]. rewrite Ek in Hin.
    by apply (by_id_get_None _ _ E) in Hin.
Qed.

Lemma pick_id_kept g sealed criteria c :
  seals g sealed → NoDup (map c_id criteria) → c ∈ criteria →
  (∀ k, is_freeze_of g k → k_id k ≠ c_id c) → pick_id criteria sealed c = c.
Proof.
  intros Hs Hnd Hc Hno. unfold pick_id. rewrite by_id_get_app.
  destruct (by_id_get (c_id c) sealed) as [c'|] eqn:E; simpl.
  { apply by_id_get_Some, (sealed_from _ _ _ _ Hs) in E as (k & Hk & Ek & _). by destruct (Hno k Hk). }
  destruct (by_id_get _ (map _ criteria)) as [c'|] eqn:E'; simpl; [|done].
  apply by_id_get_Some, list_elem_of_fmap in E' as (c2 & [= E1 ->] & Hc2).
  apply list_elem_of_lookup_1 in Hc as [i Hi]. apply list_elem_of_lookup_1 in Hc2 as [j Hj].
  assert (i = j) as ->; [|congruence].
  eapply (NoDup_lookup _ i j (c_id c) Hnd); rewrite list_lookup_fmap, ?Hi, ?Hj; simpl; congruence.
Qed.

(** Sealing replaces every criterion that carries the id of a
    [must_not_modify] constraint by a digest check of that constraint, and
    keeps the other criteria, the ids and the order when ids are distinct.
    (A desired state that shares its id with a frozen path set is replaced
    too: its own condition is gone.) *)
Theorem sealing_contract criteria g w w' out :
  seal_must_not_modify_criteria freeze_script criteria (Some g) w = (w', Ok out) →
  (∀ k, is_freeze_of g k → k_id k ∈ map c_id criteria) →
  (∃ k, is_freeze_of g k) →
  map c_id out = map c_id criteria ∧
  (∀ c, c ∈ out → (∃ k, is_freeze_of g k ∧ k_id k = c_id c) → ∃ k, is_freeze_of g k ∧ is_seal k c) ∧
  (NoDup (map c_id criteria) → ∀ c, c ∈ criteria →
     (∀ k, is_freeze_of g k → k_id k ≠ c_id c) → c ∈ out).
Proof.
  intros H Hall (k0 & Hk0).
  apply seal_Ok in H as (sealed & Hs & ->); [|intros E|intros; by apply Hall].
  2: { apply freeze_in_filter in Hk0. rewrite E in Hk0. inversion Hk0. }
  fold (seals g sealed) in Hs. split_and!.
  - rewrite map_map. apply map_ext. intros c. by apply (pick_id_id g).
  - intros c Hc (k & Hk & Ek). apply list_elem_of_fmap in Hc as (c0 & -> & Hc0).
    apply (pick_id_frozen g sealed criteria c0 k); try done. rewrite Ek. by apply (pick_id_id g).
  - intros Hnd c Hc Hno. apply list_elem_of_fmap. exists c. split; [|done].
    symmetry. by apply (pick_id_kept g).
Qed.
End Sealing.

(** ** A concrete goal *)

Definition w_file : DesiredState :=
  mkDesired "notes" DK_file_contains (Some "docs/a-b.txt") (Some "it's \x") None 0 None None None None
    None None None f1 300.
Definition w_frozen : Constraint := mkConstraint "keep" CK_must_not_modify (CV_list ["src/a.py"; "b c"]) f1.
Definition w_frozen_ok : Constraint := mkConstraint "keep" CK_must_not_modify (CV_list ["src/a.py"; "LICENSE"]) f1.
Definition w_goal : Goal := mkGoal None [w_file] [w_frozen_ok] None None [] None false.
Definition or_nil (r : result (list TaskCriterion)) : list TaskCriterion := match r with Ok l => l | Err _ => [] end.
Definition w_criteria : list TaskCriterion := or_nil (compile_goal w_goal from_caller).
Definition w_script (ps : list string) : M unit string := mret (join_str "," ps).

Example padded_path_refused : _constraint_to_criterion w_frozen from_caller = Err ValueError.
Proof. vm_compute. reflexivity. Qed.
Example parent_refused : _quoted_relative_path "a/../b" = Err ValueError.
Proof. vm_compute. reflexivity. Qed.

Lemma freeze_command_exact_witness :
  ∃ crit, _constraint_to_criterion w_frozen_ok from_caller = Ok crit ∧
    ∃ run, c_run crit = Some run ∧ sh_tokens Outside run = Some (test_tokens ["src/a.py"; "LICENSE"]).
Proof.
  eexists. split; [vm_compute; reflexivity|].
  eapply (freeze_command_exact w_frozen_ok from_caller); [reflexivity|reflexivity|vm_compute; reflexivity].
Defined.

Lemma assertion_literals_exact_witness :
  ∃ crit, _desired_to_criterion w_file from_caller = Ok crit ∧ confined "docs/a-b.txt".
Proof.
  eexists. split; [vm_compute; reflexivity|].
  eapply (assertion_literals_exact w_file from_caller); [reflexivity|vm_compute; reflexivity].
Defined.

Lemma compile_goal_contract_witness : map c_id w_criteria = ["notes"; "keep"].
Proof.
  apply (compile_goal_contract w_goal from_caller w_criteria); vm_compute; reflexivity.
Defined.

Lemma compile_goal_succeeds_iff_witness : is_ok (compile_goal w_goal from_caller) = true.
Proof. rewrite compile_goal_succeeds_iff; vm_compute; reflexivity. Defined.

Lemma sealing_contract_witness :
  ∃ out, seal_must_not_modify_criteria w_script w_criteria (Some w_goal) tt = (tt, Ok out) ∧
    map c_id out = ["notes"; "keep"].
Proof.
  eexists. split; [vm_compute; reflexivity|].
  eapply (sealing_contract w_script w_criteria w_goal tt tt).
  - vm_compute. reflexivity.
  - intros k [Hk _]. apply list_elem_of_singleton in Hk as ->. vm_compute. right. left.
  - exists w_frozen_ok. split; [left|reflexivity].
Defined.
