(* ===== verification/RouteTable.v ===== *)
(** * The task-plane route table (contracts/graph.py)

    The fifteen nodes, the routes with their predicates on [RunState], and
    [legal_routes].  [legal_edges] gives the routes legal in a state edge by
    edge; the lemmas decide membership for the nodes' files and the engine. *)
From S2P Require Import Prelude Budgets Contracts.
From Stdlib Require Import ZArith Lia.
Open Scope Z_scope.

Definition NODES : list node_name :=
  [N_intake; N_retrieve; N_plan; N_fan_out; N_solve; N_validate; N_join;
   N_classify_failure; N_evolve; N_distill; N_review; N_store; N_record_dead_end;
   N_reject_draft; N_finalize].

Definition TERMINAL_NODES : list node_name := [N_store; N_record_dead_end; N_reject_draft].

Record Route := mkRoute {
  source : node_name;
  target : node_name;
  predicate_name : route_name;
  predicate : RunState → bool;
  description : string }.

Definition required_ids (s : RunState) : list string :=
  map c_id (List.filter is_required (criteria s)).
Definition passed_ids (s : RunState) : list string :=
  map r_criterion_id (List.filter r_passed (results s)).

Definition _required_criteria_pass (s : RunState) : bool :=
  if is_nil (required_ids s) then true
  else bool_decide (required_ids s ⊆ passed_ids s).

Definition _has_branches (s : RunState) : bool := (0 <? Z.of_nat (length (branches s))).

Definition _join_complete_and_passing (s : RunState) : bool :=
  if is_nil (merge_audits s) then false
  else if negb (forallb is_complete (merge_audits s)) then false
  else _required_criteria_pass s.

Definition _failure_signal_present (s : RunState) : bool :=
  match failure_signal s with Some _ => true | None => false end.

(** [len(h) >= 2 and h[-1] == h[-2]] *)
Definition last_two_equal (h : list (list CriterionResult)) : bool :=
  match rev h with
  | a :: b :: _ => results_eqb a b
  | _ => false
  end.

Definition _budget_remains_with_progress (s : RunState) : bool :=
  match failure s with
  | None => false
  | Some f =>
      if decide (failure_class f = F_criteria ∨ failure_class f = F_budget) then false
      else if max_attempts (budget s) <=? s_attempts (spent s) then false
      else if last_two_equal (results_history s) then false
      else true
  end.

Definition strategy_in (l : list Strategy) (s : RunState) : bool :=
  match strategy s with Some x => bool_decide (x ∈ l) | None => false end.
Definition verdict_is (v : Verdict) (s : RunState) : bool :=
  match reusability s with Some r => bool_decide (verdict r = v) | None => false end.
Definition no_signal (s : RunState) : bool := negb (_failure_signal_present s).
Definition has_transcript (s : RunState) : bool :=
  match transcript_ref s with Some _ => true | None => false end.

Definition ROUTES : list Route := [
  mkRoute N_intake N_retrieve always (λ _, true) "Every intake proceeds to retrieve.";
  mkRoute N_retrieve N_plan always (λ _, true) "Every retrieve proceeds to plan.";
  mkRoute N_plan N_finalize abstain (strategy_in [S_abstain])
    "Abstention is a legitimate terminal outcome (terminal='abstained').";
  mkRoute N_plan N_fan_out fan_out_strategy (strategy_in [S_portfolio; S_decomposition])
    "Portfolio and decomposition strategies fan out before solving.";
  mkRoute N_plan N_solve single_strategy (strategy_in [S_apply; S_adapt; S_scratch])
    "Single-strategy runs solve directly.";
  mkRoute N_fan_out N_classify_failure pre_dispatch_budget_failure _failure_signal_present
    "A failed branch reservation is a budget failure before any branch is dispatched.";
  mkRoute N_fan_out N_solve always no_signal
    "Every successfully dispatched branch proceeds to solve.";
  mkRoute N_solve N_classify_failure pre_validation_failure_signal _failure_signal_present
    "Environment, tool, or mid-attempt budget failures occur before or instead of validation (ADR-0008), including after a retry retains prior validation results.";
  mkRoute N_solve N_validate attempt_completed (λ s, has_transcript s && no_signal s)
    "A completed attempt (whether it will pass or fail) proceeds to validation.";
  mkRoute N_validate N_join has_branches _has_branches
    "join exists only when fan_out produced branches (ADR-0008 Option 1).";
  mkRoute N_validate N_distill no_branches_and_passing
    (λ s, negb (_has_branches s) && _required_criteria_pass s && no_signal s)
    "Ordinary single-attempt runs route directly to distill on the default path.";
  mkRoute N_validate N_classify_failure no_branches_and_failing
    (λ s, negb (_has_branches s) && (negb (_required_criteria_pass s) || _failure_signal_present s))
    "A failed required criterion, or a raised FailureSignal, routes to classification.";
  mkRoute N_join N_distill merge_complete_and_passing _join_complete_and_passing
    "Merge audits complete and the selected/synthesised result passes required criteria.";
  mkRoute N_join N_classify_failure otherwise (λ s, negb (_join_complete_and_passing s))
    "A merge gap or a failed post-merge criterion routes to classification.";
  mkRoute N_classify_failure N_evolve retry _budget_remains_with_progress
    "Budget remains, progress was observed, and the class is not criteria or budget.";
  mkRoute N_classify_failure N_record_dead_end otherwise
    (λ s, negb (_budget_remains_with_progress s))
    "Exhausted budget, no progress, or a criteria/budget class ends the run here.";
  mkRoute N_evolve N_solve always (λ _, true) "Evolve always re-dispatches to solve.";
  mkRoute N_distill N_review reusable (verdict_is V_reusable) "A reusable draft goes to review.";
  mkRoute N_distill N_finalize one_off (verdict_is V_one_off)
    "A one-off is recorded as evidence but not reviewed for storage.";
  mkRoute N_review N_store approved (λ _, true) "Policy auto-approves or a human approved.";
  mkRoute N_review N_reject_draft rejected (λ _, true) "A human or policy rejected the draft.";
  mkRoute N_store N_finalize always (λ _, true) "Store always finalises.";
  mkRoute N_record_dead_end N_finalize always (λ _, true) "record_dead_end always finalises.";
  mkRoute N_reject_draft N_finalize always (λ _, true) "reject_draft always finalises." ].

Definition routes_from (n : node_name) : list Route :=
  List.filter (λ r, bool_decide (source r = n)) ROUTES.

Definition legal_routes (n : node_name) (s : RunState) : list Route :=
  List.filter (λ r, predicate r s) (routes_from n).

Inductive SignalProducer := by_orchestrator | by_solver | by_validator | by_join.

Definition producers_of (c : FailureClass) : list SignalProducer :=
  match c with
  | F_environment => [by_solver; by_orchestrator]
  | F_tool => [by_solver]
  | F_retrieval | F_plan | F_execution | F_criteria => [by_validator]
  | F_budget => [by_orchestrator]
  | F_merge => [by_join]
  end.

Definition every_failure_class_has_a_producer : list (FailureClass * list SignalProducer) :=
  map (λ c, (c, producers_of c)) FAILURE_CLASSES.

Definition edge (r : Route) : route_name * node_name := (predicate_name r, target r).

(** ** Lemmas *)

Lemma routes_from_spec n r : r ∈ routes_from n ↔ r ∈ ROUTES ∧ source r = n.
Proof.
  unfold routes_from. rewrite !list_elem_of_In, filter_In.
  by rewrite bool_decide_eq_true.
Qed.

Lemma legal_routes_spec n s r :
  r ∈ legal_routes n s ↔ r ∈ routes_from n ∧ predicate r s = true.
Proof. unfold legal_routes. rewrite !list_elem_of_In. apply filter_In. Qed.

(** What each node can leave by, as [(predicate_name, target)] pairs. *)
Lemma legal_edges n s :
  map edge (legal_routes n s) =
  match n with
  | N_intake => [(always, N_retrieve)]
  | N_retrieve => [(always, N_plan)]
  | N_evolve => [(always, N_solve)]
  | N_store | N_record_dead_end | N_reject_draft => [(always, N_finalize)]
  | N_plan =>
      match strategy s with
      | Some S_abstain => [(abstain, N_finalize)]
      | Some (S_portfolio | S_decomposition) => [(fan_out_strategy, N_fan_out)]
      | Some _ => [(single_strategy, N_solve)]
      | None => []
      end
  | N_fan_out =>
      if _failure_signal_present s then [(pre_dispatch_budget_failure, N_classify_failure)]
      else [(always, N_solve)]
  | N_solve =>
      if _failure_signal_present s then [(pre_validation_failure_signal, N_classify_failure)]
      else if has_transcript s then [(attempt_completed, N_validate)] else []
  | N_validate =>
      if _has_branches s then [(has_branches, N_join)]
      else if _required_criteria_pass s && no_signal s
      then [(no_branches_and_passing, N_distill)]
      else [(no_branches_and_failing, N_classify_failure)]
  | N_join =>
      if _join_complete_and_passing s then [(merge_complete_and_passing, N_distill)]
      else [(otherwise, N_classify_failure)]
  | N_classify_failure =>
      if _budget_remains_with_progress s then [(retry, N_evolve)]
      else [(otherwise, N_record_dead_end)]
  | N_distill =>
      if verdict_is V_reusable s then [(reusable, N_review)]
      else if verdict_is V_one_off s then [(one_off, N_finalize)] else []
  | N_review => [(approved, N_store); (rejected, N_reject_draft)]
  | N_finalize => []
  end.
Proof.
  destruct n; unfold legal_routes;
    lazy beta iota zeta delta [edge routes_from ROUTES List.filter map source target predicate
      predicate_name bool_decide decide decide_rel node_name_eq_dec node_name_rec node_name_rect];
    try reflexivity.
  - unfold strategy_in. destruct (strategy s) as [[]|]; reflexivity.
  - unfold no_signal. by destruct (_failure_signal_present s).
  - unfold no_signal. destruct (_failure_signal_present s), (has_transcript s); reflexivity.
  - unfold no_signal.
    by destruct (_has_branches s), (_required_criteria_pass s), (_failure_signal_present s).
  - by destruct (_join_complete_and_passing s).
  - by destruct (_budget_remains_with_progress s).
  - unfold verdict_is. by destruct (reusability s) as [[[] ? ? ? ? ? ? ? ?]|].
Qed.

Definition edge_eqb (p : route_name) (e : route_name * node_name) : bool := bool_decide (e.1 = p).

(** Selecting a legal route by name is selecting an edge by name. *)
Lemma find_first_map {A B} (f : A → B) (p : B → bool) l :
  find_first p (map f l) = f <$> find_first (λ x, p (f x)) l.
Proof. induction l as [|x l IH]; simpl; [done|]. by destruct (p (f x)). Qed.
