(* ===== verification/NodeBase.v ===== *)
(** * What every node receives, and attempt accounting (nodes/context.py, nodes/attempt.py)

    [NodeContext]'s data, the injected services as operations on a world [W]
    that may raise, [NodeOutcome], and [AttemptMeter], the only writer of a
    run's [spent], with the two ways an attempt closes. *)
From S2P Require Import Prelude Budgets Contracts RouteTable.
From Stdlib Require Import ZArith Lia.
Open Scope Z_scope.

Record NodeOutcome := mkOutcome { o_state : RunState; o_route : option route_name; o_note : option text }.

(** The plain data of [NodeContext]; a service field is present or [None]. *)
Record NodeContext := mkContext {
  cx_run_id : string;
  cx_attempt_no : Z;
  cx_workdir : string;
  script : option (list string);
  has_retriever : bool;
  has_store : bool;
  has_tools : bool;
  has_model : bool;
  has_transcripts : bool;
  has_applicator : bool;
  has_episodic : bool;
  has_affordances : bool;
  has_facts : bool;
  has_reviewer : bool;
  has_patch_templates : bool;
  deterministic_guide : bool;
  max_criterion_timeout_s : option Z }.

(** A [UsageDelta]: what a window of work added to the runtime's counters. *)
Record UsageDelta := mkUsage { u_tool_calls : Z; u_tokens : Z; u_cost_usd : float }.

(** The result of a tool command run once through the operation ledger. *)
Record CommandRun := mkRun { returncode : Z; run_stdout : string; run_stderr : string;
  run_flaky : bool; run_usage : UsageDelta }.

(** One step of the observe-act loop, as its [op_once] payload. *)
Record ScratchStep := mkStep {
  st_command : string; st_prompt_tokens : Z; st_completion_tokens : Z; st_cost_usd : float;
  st_empty : bool; st_refused : option string; st_run : CommandRun }.

(** The summary [solve_via_applicator] stores. *)
Record ApplySummary := mkApply {
  ap_ok : bool; ap_transcript_ref : option string; ap_error : option string; ap_merge_timeout : bool;
  ap_waves : list StepWave; ap_conflicts : list ResourceConflict; ap_usage : UsageDelta }.

Record Draft := mkDraft { dr_payload : json_obj; dr_text : string; dr_prior_version : option string }.

Record StoreSummary := mkStoreSummary {
  su_skill_id : string; su_version : Z; su_ledger_seq : Z; su_facts : list string }.

(** A case for the episodic memory (memory/episodic); [artifacts],
    [distilled_into] and [recorded_at] keep their defaults. *)
Inductive CaseOutcome := solved_case | failed_case | abandoned_case.
Record DeadEnd := mkDeadEnd { de_approach : string; de_why_failed : string; de_evidence_ref : option string }.
Record CaseRecord := mkCase {
  case_id : string; case_run_id : string; case_attempt_no : Z; case_task_class : option string;
  request_excerpt : string; case_outcome : CaseOutcome; case_failure_class : option string;
  case_dead_end : option DeadEnd; case_transcript_ref : option string; case_approach : option string;
  case_skill_id : option string; case_skill_version : option Z; session_id : option string }.

(** The services of a node and the runtime it reads, over a world [W]: files,
    databases, the clock, the sandbox, the model.  An operation returns the
    world it leaves behind even when it raises. *)
Record Services (W : Type) := mkServices {
  sv_now : M W datetime;
  sv_monotonic : M W float;
  (* intake *)
  sv_freeze_script : list string → M W string;
  sv_author_proof : TaskCriterion → M W SensitivityProof;
  sv_evidence_hash : TaskCriterion → string → string;
  sv_criteria_hash : list TaskCriterion → string;
  (* retrieve *)
  sv_snapshot_id : M W string;
  sv_search : string → M W (list SkillCandidateRef * string * Z);
  sv_assemble_bundle : list SkillCandidateRef → string → option string → M W MemoryBundle;
  (* fan_out: clone the workdir into one branch directory *)
  sv_clone_workspace : string → M W unit;
  (* solve *)
  sv_get_skill_script : SkillCandidateRef → M W (list string);
  sv_model_command : RunState → M W string;
  sv_run_script_step : Z → string → M W CommandRun;      (* ctx.op_once around the tool runtime *)
  sv_run_legacy_step : Z → string → M W CommandRun;      (* ctx.op_once around the sandbox *)
  sv_scratch_step : Z → list string → M W ScratchStep;   (* ctx.op_once around model and tools *)
  sv_scratch_max_steps : Z;
  sv_apply_skill : SkillCandidateRef → M W ApplySummary; (* ctx.op_once(0, applicator.apply) *)
  sv_finalize_transcript : M W string;
  sv_record_affordances : M W unit;
  sv_branch_command : string → string → M W Z;           (* run_container_command in a branch *)
  sv_make_branch_dir : string → M W unit;
  (* validate: ctx.op_once around the criterion runner *)
  sv_score : Z → string → TaskCriterion → M W CriterionResult;
  sv_score_owned : string → TaskCriterion → M W CriterionResult;
  sv_cert_criteria : SkillCandidateRef → M W (option (list TaskCriterion));
  (* join *)
  sv_materialize_winner : string → list string → M W unit;
  sv_materialize_decomposition : list BranchState → bool → list string → M W (string * list (list string));
  (* classify_failure *)
  sv_tool_names : M W (list string);
  sv_tool_is_flaky : string → M W bool;
  sv_tool_signature : string → string → M W bool;
  sv_affordance_names : M W (list string);
  sv_affordance_flaky : string → M W bool;
  sv_affordance_signature : string → string → M W bool;
  (* evolve *)
  sv_restore : string → M W unit;
  sv_dead_ends : option string → M W (list (option string * string));
  sv_approach_applies : string → string → M W bool;
  sv_template_for : string → string → M W (option string);
  (* memory, review, storage, audit *)
  sv_write_case : CaseRecord → M W string;
  sv_note_apply_session : RunState → M W unit;
  sv_record_one_off : RunState → option text → M W unit;   (* one line of one_off_log, when configured *)
  sv_distill_success : RunState → M W (option Draft * list json_obj * ReusabilityVerdict);
  sv_refuse_inapplicable : Draft → M W (option string);
  sv_validate_draft : json_obj → M W unit;
  sv_review_decision : json_obj → M W (string * option string);   (* outcome, note *)
  sv_store_write : RunState → M W StoreSummary;          (* ctx.op_once(0, _write) *)
  sv_ledger_append : string → json_obj → M W Z;
  sv_snapshot_workspace : string → M W string;
  sv_exc_text : exn → string                             (* str(exc) *) }.

Arguments sv_now {W}. Arguments sv_monotonic {W}. Arguments sv_freeze_script {W}.
Arguments sv_author_proof {W}. Arguments sv_evidence_hash {W}. Arguments sv_criteria_hash {W}.
Arguments sv_snapshot_id {W}. Arguments sv_search {W}. Arguments sv_assemble_bundle {W}.
Arguments sv_clone_workspace {W}. Arguments sv_get_skill_script {W}. Arguments sv_model_command {W}.
Arguments sv_run_script_step {W}. Arguments sv_run_legacy_step {W}. Arguments sv_scratch_step {W}.
Arguments sv_scratch_max_steps {W}. Arguments sv_apply_skill {W}. Arguments sv_finalize_transcript {W}.
Arguments sv_record_affordances {W}. Arguments sv_branch_command {W}. Arguments sv_make_branch_dir {W}.
Arguments sv_score {W}. Arguments sv_score_owned {W}. Arguments sv_cert_criteria {W}.
Arguments sv_materialize_winner {W}. Arguments sv_materialize_decomposition {W}.
Arguments sv_tool_names {W}. Arguments sv_tool_is_flaky {W}. Arguments sv_tool_signature {W}.
Arguments sv_affordance_names {W}. Arguments sv_affordance_flaky {W}. Arguments sv_affordance_signature {W}.
Arguments sv_restore {W}. Arguments sv_dead_ends {W}. Arguments sv_approach_applies {W}.
Arguments sv_template_for {W}. Arguments sv_write_case {W}. Arguments sv_note_apply_session {W}.
Arguments sv_record_one_off {W}. Arguments sv_distill_success {W}. Arguments sv_refuse_inapplicable {W}.
Arguments sv_validate_draft {W}. Arguments sv_review_decision {W}. Arguments sv_store_write {W}.
Arguments sv_ledger_append {W}. Arguments sv_snapshot_workspace {W}. Arguments sv_exc_text {W}.

(** ** nodes/attempt.py *)

Record AttemptMeter := mkMeter {
  m_budget : Budget; m_committed : Spend; m_reserved : BudgetReservation;
  m_tool_calls : Z; m_tokens : Z; m_cost_usd : float; m_started_at : float }.

#[export] Instance eta_AttemptMeter : Eta AttemptMeter := λ m,
  mkMeter (m_budget m) (m_committed m) (m_reserved m) (m_tool_calls m) (m_tokens m) (m_cost_usd m)
    (m_started_at m).

(** [max(0.0, x)] *)
Definition fmax0 (x : float) : float := if f0 <?. x then x else f0.

Section Meter.
  Context {W : Type} (svc : Services W).

Definition meter_open (s : RunState) (reserved_ : option BudgetReservation) : M W AttemptMeter :=
  t ← sv_monotonic svc;
  mret (mkMeter (budget s) (spent s) (default (reserved s) reserved_) 0 0 f0 t).

Definition charge (m : AttemptMeter) (tool_calls tokens : Z) (cost : float) : AttemptMeter :=
  m <| m_tool_calls := m_tool_calls m + tool_calls |> <| m_tokens := m_tokens m + tokens |>
    <| m_cost_usd := m_cost_usd m ⊕ cost |>.

Definition charge_delta (m : AttemptMeter) (d : UsageDelta) : AttemptMeter :=
  charge m (u_tool_calls d) (u_tokens d) (u_cost_usd d).

Definition elapsed_s (m : AttemptMeter) : M W float :=
  t ← sv_monotonic svc; mret (fmax0 (t ⊖ m_started_at m)).

(** [used]: what the attempt consumed, plus work about to be requested. *)
Definition used (m : AttemptMeter) (attempts tool_calls tokens : Z) (cost elapsed : float)
    : result BudgetReservation :=
  new_Reservation (mkReservation attempts (m_tool_calls m + tool_calls) (m_tokens m + tokens) elapsed
    (m_cost_usd m ⊕ cost) 0).

Definition preflight (m : AttemptMeter) (attempts tool_calls : Z) : M W (option dimension) :=
  e ← elapsed_s m;
  q ← lift (used m attempts tool_calls 0 f0 e);
  mret (budget_excess (m_budget m) (m_committed m) (m_reserved m) q).

Definition commit (m : AttemptMeter) (attempts : Z) : M W Spend :=
  e ← elapsed_s m;
  let c := m_committed m in
  mret (mkSpend (s_attempts c + attempts) (s_tool_calls c + m_tool_calls m) (s_tokens c + m_tokens m)
          (s_wall_clock_s c ⊕ e) (s_cost_usd c ⊕ m_cost_usd m) (s_versions_written c)).

(** Close a failed attempt; [upd] is [**(updates or {})]. *)
Definition close_failed (s : RunState) (m : AttemptMeter) (sig : FailureSignal) (attempt attempts : Z)
    (note : option text) (upd : RunState → RunState) : M W NodeOutcome :=
  sp ← commit m attempts;
  mret (mkOutcome (upd (s <| attempt_no := attempt |> <| spent := sp |> <| failure_signal := Some sig |>))
          (Some pre_validation_failure_signal) note).

(** Close a completed attempt: [description] attaches the transcript. *)
Definition close_completed (s : RunState) (m : AttemptMeter) (attempt attempts : Z) (tref : string)
    (description : option string) (note : option text) (upd : RunState → RunState) : M W NodeOutcome :=
  sp ← commit m attempts;
  let s1 := s <| attempt_no := attempt |> <| spent := sp |> <| transcript_ref := Some tref |> in
  let s2 := match description with
            | Some d => s1 <| artifacts := artifacts s ++ [mkArtifact A_text tref (Some d)] |>
            | None => s1
            end in
  mret (mkOutcome (upd (s2 <| failure_signal := None |>)) (Some attempt_completed) note).

(** Sole writer of [spent.versions_written]. *)
Definition charge_version_write (s : RunState) : RunState :=
  s <| spent := (spent s) <| s_versions_written := s_versions_written (spent s) + 1 |> |>.

Definition signal (src : SignalSource) (detail : string) (hint : option FailureClass) : M W FailureSignal :=
  at_ ← sv_now svc; mret (mkSignal src detail at_ hint).

(** ** Lemmas *)

Lemma close_failed_Ok s m sig a n note upd w w' o :
  close_failed s m sig a n note upd w = (w', Ok o) →
  ∃ sp, o_state o = upd (s <| attempt_no := a |> <| spent := sp |> <| failure_signal := Some sig |>) ∧
    o_route o = Some pre_validation_failure_signal ∧
    s_attempts sp = s_attempts (m_committed m) + n ∧
    s_versions_written sp = s_versions_written (m_committed m).
Proof. unfold close_failed, commit, elapsed_s. intros H. inv_ok. eexists. done. Qed.

Lemma close_completed_Ok s m a n tref desc note upd w w' o :
  close_completed s m a n tref desc note upd w = (w', Ok o) →
  ∃ sp arts, o_state o = upd (s <| attempt_no := a |> <| spent := sp |> <| transcript_ref := Some tref |>
      <| artifacts := arts |> <| failure_signal := None |>) ∧
    o_route o = Some attempt_completed ∧
    s_attempts sp = s_attempts (m_committed m) + n ∧
    s_versions_written sp = s_versions_written (m_committed m).
Proof.
  unfold close_completed, commit, elapsed_s. intros H. inv_ok.
  eexists _, (match desc with Some d => artifacts s ++ [mkArtifact A_text tref (Some d)] | None => artifacts s end).
  by destruct desc, s.
Qed.

Lemma meter_open_Ok s r w w' m :
  meter_open s r w = (w', Ok m) → m_committed m = spent s ∧ m_budget m = budget s.
Proof. unfold meter_open. intros H. inv_ok. done. Qed.
End Meter.

(** The route an outcome asks for is legal in the state it produced. *)
Definition leaves_legally (n : node_name) (o : NodeOutcome) : Prop :=
  ∃ r, r ∈ legal_routes n (o_state o) ∧ o_route o = Some (predicate_name r).

Lemma leaves_by n o p t :
  o_route o = Some p → (p, t) ∈ map edge (legal_routes n (o_state o)) → leaves_legally n o.
Proof.
  unfold leaves_legally. generalize (legal_routes n (o_state o)). intros l -> Hin.
  apply list_elem_of_fmap in Hin as (r & [= -> ->] & Hin). eauto.
Qed.

(** ** A concrete world for the examples: one workspace, every command and
    criterion succeeds, and the memory is empty. *)

Definition zero_usage : UsageDelta := mkUsage 1 0 f0.
Definition ok_run : CommandRun := mkRun 0 "" "" false zero_usage.
Definition pass_result (c : TaskCriterion) : CriterionResult :=
  mkResult (c_id c) (Some (c_kind c)) true (c_weight c) None None None (Some 0) "" false f0.
Definition demo_verdict : ReusabilityVerdict :=
  mkReusability V_one_off None None true true true true true None.

(** [p]: what the scorer says of every criterion. *)
Definition demo_services_scoring (p : bool) : Services unit := {|
  sv_now := mret 0; sv_monotonic := mret f0;
  sv_freeze_script := λ _, mret "true"; sv_author_proof := λ c, mret (mkProof (c_id c) "" true 0 None None);
  sv_evidence_hash := λ _ _, "h"; sv_criteria_hash := λ _, "h";
  sv_snapshot_id := mret "snap"; sv_search := λ _, mret ([], "snap", 0);
  sv_assemble_bundle := λ sk _ _, mret (mkBundle sk [] [] [] [] false);
  sv_clone_workspace := λ _, mret tt;
  sv_get_skill_script := λ _, mret []; sv_model_command := λ _, mret "true";
  sv_run_script_step := λ _ _, mret ok_run; sv_run_legacy_step := λ _ _, mret ok_run;
  sv_scratch_step := λ _ _, mret (mkStep "true" 0 0 f0 false None ok_run); sv_scratch_max_steps := 5;
  sv_apply_skill := λ _, mret (mkApply true (Some "t") None false [] [] zero_usage);
  sv_finalize_transcript := mret "t"; sv_record_affordances := mret tt;
  sv_branch_command := λ _ _, mret 0; sv_make_branch_dir := λ _, mret tt;
  sv_score := λ _ _ c, mret ((pass_result c) <| r_passed := p |>); sv_score_owned := λ _ c, mret (pass_result c);
  sv_cert_criteria := λ _, mret None;
  sv_materialize_winner := λ _ _, mret tt; sv_materialize_decomposition := λ _ _ _, mret ("merged", []);
  sv_tool_names := mret []; sv_tool_is_flaky := λ _, mret false; sv_tool_signature := λ _ _, mret false;
  sv_affordance_names := mret []; sv_affordance_flaky := λ _, mret false;
  sv_affordance_signature := λ _ _, mret false;
  sv_restore := λ _, mret tt; sv_dead_ends := λ _, mret []; sv_approach_applies := λ _ _, mret false;
  sv_template_for := λ _ _, mret None;
  sv_write_case := λ _, mret "case"; sv_note_apply_session := λ _, mret tt;
  sv_record_one_off := λ _ _, mret tt; sv_distill_success := λ _, mret (None, [], demo_verdict);
  sv_refuse_inapplicable := λ _, mret None; sv_validate_draft := λ _, mret tt;
  sv_review_decision := λ _, mret ("approved", None);
  sv_store_write := λ _, mret (mkStoreSummary "s" 1 1 []); sv_ledger_append := λ _ _, mret 1;
  sv_snapshot_workspace := λ _, mret "clean";
  sv_exc_text := λ _, "error" |}.
Definition demo_services : Services unit := demo_services_scoring true.

(** A plain criterion that counts as proven. *)
Definition demo_criterion (id : string) : TaskCriterion :=
  mkTaskCriterion id K_command (Some "true") 0 None None None None None None None fresh_context None 300 f1
    (Some (mkProof id "" true 0 (Some "sha256:x") (Some "h"))) from_caller true.
Definition demo_task (req : string) : Task := mkTask "t1" None (Some req) None None None 0 false ES_single.
Definition demo_state (req : string) (ids : list string) : RunState :=
  initial_RunState "r1" (demo_task req) (map demo_criterion ids) default_Budget treatment default_Manifest.
Definition demo_context : NodeContext :=
  mkContext "r1" 0 "/w" None false false false false false false false false false false false false None.
(** What a call left behind, or [d] when it raised. *)
Definition outcome_or (d : RunState) (r : unit * result NodeOutcome) : NodeOutcome :=
  match r.2 with Ok o => o | Err _ => mkOutcome d None None end.
