(* ===== verification/Claims.v ===== *)
(** * The resource claim scheduler (solver/claims.py)

    [ClaimScheduler]: the holders table, an [acquire] that runs under the
    scheduler's lock until it is granted, blocks or times out, and [release].
    Steps interleave between these critical sections.  The theorems: no two
    running steps share a claimed resource, the fixed acquisition order leaves
    no circular wait, a waiter never waits past its deadline, and one that
    times out holds nothing. *)
From S2P Require Import Prelude Budgets Contracts.
From Stdlib Require Import ZArith Lia.
Open Scope Z_scope.

(** [ClaimScheduler.conflicts_with] *)
Definition claim_kind_eqb (a b : ResourceKind) : bool :=
  match a, b with
  | RK_file, RK_file | RK_path, RK_path | RK_service, RK_service | RK_rate_limit, RK_rate_limit
  | RK_lock, RK_lock | RK_external_system, RK_external_system => true
  | _, _ => false
  end.
Definition writes (m : ResourceMode) : bool :=
  match m with RM_write | RM_exclusive => true | RM_read => false end.
Definition conflicts_with (a b : ResourceClaim) : bool :=
  if negb (claim_kind_eqb (claim_kind a) (claim_kind b)) || negb (String.eqb (claim_id a) (claim_id b))
  then false else writes (claim_mode a) || writes (claim_mode b).

(** ** Keys and their order *)

Definition kind_str (k : ResourceKind) : string :=
  match k with
  | RK_file => "file" | RK_path => "path" | RK_service => "service" | RK_rate_limit => "rate_limit"
  | RK_lock => "lock" | RK_external_system => "external_system"
  end.
Notation claim_key := (string * string)%type (only parsing).
Definition sort_key (c : ResourceClaim) : claim_key := (kind_str (claim_kind c), claim_id c).

(** Python's order on pairs of strings. *)
Definition key_leb (a b : claim_key) : bool :=
  if String.eqb a.1 b.1 then String.leb a.2 b.2 else String.leb a.1 b.1.
Definition ordered (claims : list ResourceClaim) : list ResourceClaim :=
  sorted_by (λ a b, negb (key_leb (sort_key b) (sort_key a))) claims.

(** ** The scheduler *)

Record Scheduler := mkSched {
  _holders : gmap (string * string) string;      (* who holds a key *)
  _conflicts : list ResourceConflict }.
#[export] Instance eta_Scheduler : Eta Scheduler := λ s, mkSched (_holders s) (_conflicts s).

(** A call of [acquire] between two critical sections: what it has acquired,
    and the claims left in order.  Instants are milliseconds. *)
Record Acquire := mkAcquire {
  aq_step : string; aq_acquired : list ResourceClaim; aq_rest : list ResourceClaim;
  aq_waits : list ResourceConflict; aq_started : Z; aq_deadline : Z }.

Inductive acquire_outcome :=
  | Granted (waits : list ResourceConflict)
  | Waiting (a : Acquire)
  | TimedOut (conflict : ResourceConflict).

(** [for claim in claims: if holders.get(key) == step_id: del holders[key]] *)
Fixpoint _release_unlocked (step : string) (claims : list ResourceClaim) (h : gmap (string * string) string)
    : gmap (string * string) string :=
  match claims with
  | [] => h
  | c :: claims' =>
      _release_unlocked step claims'
        (match h !! sort_key c with
         | Some s => if String.eqb s step then delete (sort_key c) h else h
         | None => h
         end)
  end.

(** [holder or "none"] *)
Definition or_str (o : option string) (d : string) : string :=
  match o with Some h => if String.eqb h "" then d else h | None => d end.

(** One critical section of [acquire] at instant [now], from the claim it
    stands at to the end, the next block, or the timeout. *)
Fixpoint advance_from (now : Z) (step : string) (started deadline : Z) (acquired rest : list ResourceClaim)
    (waits : list ResourceConflict) (s : Scheduler) : Scheduler * acquire_outcome :=
  match rest with
  | [] => (s, Granted waits)
  | c :: rest' =>
      let holder := _holders s !! sort_key c in
      let waited_ms := now - started in
      if match holder with None => true | Some h => String.eqb h step end then
        let new := if 0 <? waited_ms then [mkResourceConflict c step (or_str holder "none") waited_ms "acquired"] else [] in
        advance_from now step started deadline (acquired ++ [c]) rest' (waits ++ new)
          (mkSched (<[sort_key c := step]> (_holders s)) (_conflicts s ++ new))
      else if deadline - now <=? 0 then
        let conflict := mkResourceConflict c step (or_str holder "unknown") waited_ms "timed_out" in
        (mkSched (_release_unlocked step acquired (_holders s)) (_conflicts s ++ [conflict]), TimedOut conflict)
      else (s, Waiting (mkAcquire step acquired rest waits started deadline))
  end.

(** The call: its first critical section. *)
Definition acquire (now timeout : Z) (step : string) (claims : list ResourceClaim) (s : Scheduler)
    : Scheduler * acquire_outcome :=
  advance_from now step now (now + timeout) [] (ordered claims) [] s.
(** A waiter woken by a release or by its timeout. *)
Definition wake (now : Z) (a : Acquire) (s : Scheduler) : Scheduler * acquire_outcome :=
  advance_from now (aq_step a) (aq_started a) (aq_deadline a) (aq_acquired a) (aq_rest a) (aq_waits a) s.
Definition release (step : string) (claims : list ResourceClaim) (s : Scheduler) : Scheduler :=
  s <| _holders := _release_unlocked step claims (_holders s) |>.

(** ** Steps of a run

    Each step makes one tool call at a time: it acquires, runs when granted,
    and releases what it claimed ([ToolRuntime.invoke]). *)

Record Claiming := mkClaiming {
  cl_sched : Scheduler; cl_waiting : gmap string Acquire; cl_running : gmap string (list ResourceClaim) }.

(** The outcome of a critical section of [step] put back into the system. *)
Definition settle_step (step : string) (claims : list ResourceClaim) (r : Scheduler * acquire_outcome) (C : Claiming)
    : Claiming :=
  match r.2 with
  | Granted _ => mkClaiming r.1 (delete step (cl_waiting C)) (<[step := claims]> (cl_running C))
  | Waiting a => mkClaiming r.1 (<[step := a]> (cl_waiting C)) (cl_running C)
  | TimedOut _ => mkClaiming r.1 (delete step (cl_waiting C)) (cl_running C)
  end.

Inductive claim_step : Claiming → Claiming → Prop :=
  | cs_invoke C step claims now timeout :
      cl_waiting C !! step = None → cl_running C !! step = None →
      claim_step C (settle_step step claims (acquire now timeout step claims (cl_sched C)) C)
  | cs_wake C step a now :
      cl_waiting C !! step = Some a →
      claim_step C (settle_step step (aq_acquired a ++ aq_rest a) (wake now a (cl_sched C)) C)
  | cs_finish C step claims :
      cl_running C !! step = Some claims →
      claim_step C (mkClaiming (release step claims (cl_sched C)) (cl_waiting C) (delete step (cl_running C))).

(** A whole call of [acquire] by one thread, from the outcome of its first
    section to its end: between its sections the others move, and leave what
    the step holds alone. *)
Definition holds (step : string) (s : Scheduler) (k : claim_key) : Prop := _holders s !! k = Some step.
Definition own_kept (step : string) (s s' : Scheduler) : Prop := ∀ k, holds step s' k ↔ holds step s k.
Inductive acquire_call (step : string) : Scheduler * acquire_outcome → Scheduler → bool → Prop :=
  | ac_granted s ws : acquire_call step (s, Granted ws) s true
  | ac_timed_out s conflict : acquire_call step (s, TimedOut conflict) s false
  | ac_waits s a s1 now s' ok :
      own_kept step s s1 → acquire_call step (wake now a s1) s' ok → acquire_call step (s, Waiting a) s' ok.

Definition no_claims : Claiming := mkClaiming (mkSched ∅ []) ∅ ∅.

(** ** The order of acquisition *)

Definition key_le (a b : claim_key) : Prop := key_leb a b = true.

Lemma key_le_refl a : key_le a a.
Proof. unfold key_le, key_leb. rewrite String.eqb_refl. destruct (String.leb_total a.2 a.2) as [E|E]; exact E. Qed.
Lemma key_le_total a b : key_le a b ∨ key_le b a.
Proof.
  unfold key_le, key_leb. rewrite (String.eqb_sym b.1). destruct (String.eqb a.1 b.1); apply String.leb_total.
Qed.
Lemma leb_trans a b c : String.leb a b = true → String.leb b c = true → String.leb a c = true.
Proof.
  rewrite <- !Is_true_true. change (String.le a b → String.le b c → String.le a c). intros. by transitivity b.
Qed.
#[export] Instance key_le_trans : Transitive key_le.
Proof.
  intros a b c. unfold key_le, key_leb.
  destruct (String.eqb_spec a.1 b.1) as [E1|E1], (String.eqb_spec b.1 c.1) as [E2|E2]; rewrite ?E1, ?E2, ?String.eqb_refl.
  - apply leb_trans.
  - destruct (String.eqb_spec b.1 c.1); done.
  - destruct (String.eqb_spec a.1 c.1); [congruence|done].
  - intros H1 H2. destruct (String.eqb_spec a.1 c.1) as [E3|E3]; [|by eapply leb_trans].
    rewrite <- E3 in H2. by destruct E1; apply String.leb_antisym.
Qed.
Lemma key_le_antisym a b : key_le a b → key_le b a → a = b.
Proof.
  unfold key_le, key_leb. rewrite (String.eqb_sym b.1). destruct a as [x y], b as [x' y']; simpl.
  destruct (String.eqb_spec x x') as [->|E]; intros H1 H2; [f_equal|destruct E]; by apply String.leb_antisym.
Qed.

Definition claim_le (a b : ResourceClaim) : Prop := key_le (sort_key a) (sort_key b).
#[export] Instance claim_le_trans : Transitive claim_le.
Proof. intros a b c. apply key_le_trans. Qed.

Lemma ordered_sorted claims : StronglySorted claim_le (ordered claims).
Proof.
  apply sorted_by_StronglySorted; [apply _| |]; intros x y; unfold claim_le, key_le.
  - intros H. apply negb_true_iff in H. destruct (key_le_total (sort_key x) (sort_key y)) as [E|E]; [exact E|].
    unfold key_le in E. congruence.
  - intros H. by apply negb_false_iff in H.
Qed.

Definition keys (cs : list ResourceClaim) : list claim_key := map sort_key cs.
Lemma keys_ordered cs k : k ∈ keys (ordered cs) ↔ k ∈ keys cs.
Proof. unfold keys, ordered. by rewrite sorted_by_perm. Qed.
Lemma keys_app a b k : k ∈ keys (a ++ b) ↔ k ∈ keys a ∨ k ∈ keys b.
Proof. unfold keys. rewrite map_app. set_solver. Qed.

(** ** One critical section *)

Lemma release_lookup step cs h k :
  _release_unlocked step cs h !! k = if bool_decide (h !! k = Some step ∧ k ∈ keys cs) then None else h !! k.
Proof.
  revert h. induction cs as [|c cs IH]; intros h; simpl.
  - rewrite bool_decide_false; [done|]. intros [_ H]. inversion H.
  - rewrite IH. set (h' := match h !! sort_key c with Some _ => _ | None => h end).
    assert (h' !! k = if bool_decide (h !! k = Some step ∧ k = sort_key c) then None else h !! k) as E.
    { unfold h'. destruct (decide (k = sort_key c)) as [->|Hk].
      - destruct (h !! sort_key c) as [s|] eqn:Hc; [|by rewrite Hc; case_bool_decide].
        destruct (String.eqb_spec s step) as [->|Hs].
        + rewrite lookup_delete_eq. by rewrite bool_decide_true.
        + rewrite bool_decide_false by naive_solver. done.
      - rewrite bool_decide_false by naive_solver.
        destruct (h !! sort_key c) as [s|]; [|done]. destruct (String.eqb s step); [|done].
        by rewrite lookup_delete_ne. }
    rewrite E. repeat case_bool_decide; try done; set_solver.
Qed.

(** The section leaves the other steps' claims alone. *)
Definition others_kept (step : string) (s s' : Scheduler) : Prop :=
  ∀ k h, h ≠ step → _holders s' !! k = Some h ↔ _holders s !! k = Some h.
(** The step holds exactly the keys of [cs]. *)
Definition owns (step : string) (cs : list ResourceClaim) (s : Scheduler) : Prop :=
  ∀ k, _holders s !! k = Some step ↔ k ∈ keys cs.

Lemma advance_spec now step started deadline acquired rest waits s s' out :
  advance_from now step started deadline acquired rest waits s = (s', out) → owns step acquired s →
  others_kept step s s' ∧
  match out with
  | Granted _ => owns step (acquired ++ rest) s'
  | Waiting a => ∃ pre c post ws h, rest = pre ++ c :: post ∧
      a = mkAcquire step (acquired ++ pre) (c :: post) ws started deadline ∧
      owns step (acquired ++ pre) s' ∧ _holders s' !! sort_key c = Some h ∧ h ≠ step ∧ now < deadline
  | TimedOut _ => owns step [] s' ∧ deadline ≤ now
  end.
Proof.
  revert acquired waits s. induction rest as [|c rest IH]; intros acquired waits s; simpl.
  - intros [= <- <-] Ho. split; [done|]. by rewrite app_nil_r.
  - destruct (match _holders s !! sort_key c with None => true | Some h => String.eqb h step end) eqn:F.
    + intros E Ho. apply IH in E as [Hk Hout].
      * split.
        -- intros k h Hh. rewrite (Hk k h Hh). simpl. destruct (decide (k = sort_key c)) as [->|Hn].
           ++ rewrite lookup_insert_eq. destruct (_holders s !! sort_key c) as [h'|]; [|naive_solver].
              apply String.eqb_eq in F as ->. naive_solver.
           ++ by rewrite lookup_insert_ne by congruence.
        -- rewrite <- app_assoc in Hout. simpl in Hout. destruct out as [w|a|r]; try done.
           destruct Hout as (pre & c' & post & ws & h & -> & -> & H). exists (c :: pre), c', post, ws, h.
           rewrite <- app_assoc in H |- *. by split_and!; try apply H.
      * intros k. simpl. rewrite keys_app. destruct (decide (k = sort_key c)) as [->|Hn].
        -- rewrite lookup_insert_eq. unfold keys. simpl. set_solver.
        -- rewrite lookup_insert_ne by congruence. rewrite (Ho k). unfold keys. simpl. set_solver.
    + destruct (_holders s !! sort_key c) as [h|] eqn:Hc; [|done]. apply String.eqb_neq in F.
      destruct (_ <=? 0) eqn:D; intros [= <- <-] Ho.
      * split; [|split; [|lia]].
        -- intros k h' Hh. simpl. rewrite release_lookup. case_bool_decide; naive_solver.
        -- intros k. simpl. rewrite release_lookup. unfold keys at 2. simpl. specialize (Ho k).
           case_bool_decide; [split; [done|by intros Hk; inversion Hk]|]. split; [naive_solver|by intros Hk; inversion Hk].
      * split; [done|]. exists [], c, rest, waits, h. rewrite app_nil_r. split_and!; try done. lia.
Qed.

(** ** A whole call, by a step that may hold claims already

    [B] is what the step held before the call. *)
Lemma holds_insert step s c cf k :
  holds step (mkSched (<[sort_key c := step]> (_holders s)) cf) k ↔ k = sort_key c ∨ holds step s k.
Proof.
  unfold holds. simpl. destruct (decide (k = sort_key c)) as [->|Hn]; [rewrite lookup_insert_eq; naive_solver|].
  rewrite lookup_insert_ne by congruence. naive_solver.
Qed.
Lemma holds_release step cs h cf k :
  holds step (mkSched (_release_unlocked step cs h) cf) k ↔ h !! k = Some step ∧ k ∉ keys cs.
Proof. unfold holds. simpl. rewrite release_lookup. case_bool_decide; naive_solver. Qed.
Lemma release_holds step claims s k : holds step (release step claims s) k ↔ holds step s k ∧ k ∉ keys claims.
Proof. apply holds_release. Qed.

Definition call_post (step : string) (B : claim_key → Prop) (claims : list ResourceClaim) (s : Scheduler) (ok : bool) : Prop :=
  if ok then ∀ k, holds step s k ↔ B k ∨ k ∈ keys claims
  else ∀ k, (holds step s k → B k) ∧ (B k → k ∉ keys claims → holds step s k).
Definition section_post (step : string) (B : claim_key → Prop) (claims : list ResourceClaim) (r : Scheduler * acquire_outcome) : Prop :=
  match r.2 with
  | Granted _ => call_post step B claims r.1 true
  | TimedOut _ => call_post step B claims r.1 false
  | Waiting a => aq_step a = step ∧ aq_acquired a ++ aq_rest a = claims ∧ ∀ k, holds step r.1 k ↔ B k ∨ k ∈ keys (aq_acquired a)
  end.
Lemma advance_holds now step started deadline acquired rest waits s B :
  (∀ k, holds step s k ↔ B k ∨ k ∈ keys acquired) →
  section_post step B (acquired ++ rest) (advance_from now step started deadline acquired rest waits s).
Proof.
  revert acquired waits s. induction rest as [|c rest IH]; intros acquired waits s Hs; simpl; [by rewrite app_nil_r|].
  destruct (match _holders s !! sort_key c with None => true | Some h => String.eqb h step end) eqn:F.
  - replace (acquired ++ c :: rest) with ((acquired ++ [c]) ++ rest) by by rewrite <- app_assoc. apply IH. intros k.
    rewrite holds_insert, Hs, keys_app. unfold keys at 3. simpl. set_solver.
  - destruct (_ <=? 0); [|by split_and!]. intros k. unfold section_post. simpl. split.
    + intros [Hk Hn]%holds_release. apply Hs in Hk as [?|?]; done.
    + intros Hk Hn. apply holds_release. split; [apply Hs; by left|]. rewrite keys_app in Hn. naive_solver.
Qed.
Lemma call_holds step B claims r s' ok : acquire_call step r s' ok → section_post step B claims r → call_post step B claims s' ok.
Proof.
  induction 1 as [s ws|s conflict|s a s1 now s' ok Hk Hc IH]; unfold section_post; simpl; [done..|].
  intros (Ha & Hcl & Hh). apply IH. unfold wake. rewrite Ha, <- Hcl. apply advance_holds. intros k. by rewrite (Hk k).
Qed.
(** A call that is granted adds its claims to what the step held; one that
    times out leaves the step nothing new and every claim it does not name. *)
Lemma acquire_call_holds step now timeout claims s s' ok :
  acquire_call step (acquire now timeout step claims s) s' ok → call_post step (holds step s) claims s' ok.
Proof.
  intros Hc. assert (call_post step (holds step s) (ordered claims) s' ok) as H.
  { eapply call_holds; [exact Hc|]. apply (advance_holds now step now _ [] (ordered claims)). intros k. unfold keys. simpl. set_solver. }
  destruct ok; intros k; specialize (H k); rewrite keys_ordered in H; exact H.
Qed.

(** ** The invariant of the system *)

(** What a step has: the claims it runs with, or those acquired so far. *)
Definition held_by (C : Claiming) (h : string) : list ResourceClaim :=
  match cl_running C !! h with
  | Some cs => cs
  | None => match cl_waiting C !! h with Some a => aq_acquired a | None => [] end
  end.

Record claims_inv (C : Claiming) : Prop := {
  ci_owns h : owns h (held_by C h) (cl_sched C);
  ci_wait h a : cl_waiting C !! h = Some a →
    aq_step a = h ∧ cl_running C !! h = None ∧ aq_rest a ≠ [] ∧
    StronglySorted claim_le (aq_acquired a ++ aq_rest a) }.

Lemma held_by_owns C h k : claims_inv C → _holders (cl_sched C) !! k = Some h → k ∈ keys (held_by C h).
Proof. intros I. apply (ci_owns _ I h k). Qed.

(** A critical section of an idle or waiting step keeps the invariant. *)
Lemma settle_inv C step claims started deadline acquired rest waits now :
  claims_inv C → cl_running C !! step = None → held_by C step = acquired →
  (∀ k, k ∈ keys claims ↔ k ∈ keys (acquired ++ rest)) → StronglySorted claim_le (acquired ++ rest) →
  claims_inv (settle_step step claims (advance_from now step started deadline acquired rest waits (cl_sched C)) C).
Proof.
  intros I Hr Ha Hc Hs. pose proof (ci_owns _ I step) as Ho. rewrite Ha in Ho.
  destruct (advance_from _ _ _ _ _ _ _ _) as [s' out] eqn:E. apply advance_spec in E as [Hk Hout]; [|done].
  assert (∀ h, h ≠ step → owns h (held_by C h) s') as Hothers.
  { intros h Hh k. rewrite (Hk k h Hh). apply (ci_owns _ I). }
  unfold settle_step. simpl. destruct out as [w|a|r]; split; unfold held_by; simpl.
  - intros h. destruct (decide (step = h)) as [<-|Hn].
    + rewrite lookup_insert_eq. intros k. by rewrite (Hout k), Hc.
    + rewrite lookup_insert_ne, lookup_delete_ne by done. by apply Hothers.
  - intros h a. rewrite lookup_delete_Some. intros [Hn Hw]. rewrite lookup_insert_ne by done. by apply (ci_wait _ I).
  - destruct Hout as (pre & c & post & ws & hh & -> & -> & Hown & _). intros h. destruct (decide (step = h)) as [<-|Hn].
    + rewrite Hr, lookup_insert_eq. simpl. exact Hown.
    + rewrite lookup_insert_ne by done. by apply Hothers.
  - destruct Hout as (pre & c & post & ws & hh & -> & -> & Hown & _). intros h a.
    destruct (decide (step = h)) as [<-|Hn].
    + rewrite lookup_insert_eq. intros [= <-]. simpl. split_and!; try done. by rewrite <- app_assoc.
    + rewrite lookup_insert_ne by done. by apply (ci_wait _ I).
  - destruct Hout as [Hown _]. intros h. destruct (decide (step = h)) as [<-|Hn].
    + rewrite Hr, lookup_delete_eq. exact Hown.
    + rewrite lookup_delete_ne by done. by apply Hothers.
  - intros h a. rewrite lookup_delete_Some. intros [Hn Hw]. by apply (ci_wait _ I).
Qed.

Lemma step_inv C C' : claims_inv C → claim_step C C' → claims_inv C'.
Proof.
  intros I H. destruct H as [C1 step claims now timeout Hw Hr|C1 step a now Hw|C1 step claims Hr].
  - apply settle_inv; try done.
    + unfold held_by. by rewrite Hr, Hw.
    + intros k. symmetry. apply keys_ordered.
    + apply ordered_sorted.
  - destruct (ci_wait _ I _ _ Hw) as (Hst & Hr & _ & Hs). unfold wake. rewrite Hst. apply settle_inv; try done.
    unfold held_by. by rewrite Hr, Hw.
  - split; simpl.
    + intros h k. simpl. rewrite release_lookup. unfold held_by. simpl.
      pose proof (ci_owns _ I h k) as Ho. pose proof (ci_owns _ I step k) as Hs. unfold held_by in Ho, Hs. rewrite Hr in Hs.
      destruct (decide (step = h)) as [<-|Hn].
      * rewrite lookup_delete_eq. destruct (cl_waiting C1 !! step) as [a|] eqn:Hw.
        { destruct (ci_wait _ I _ _ Hw) as (_ & Hr' & _). congruence. }
        case_bool_decide as D; [split; [done|intros Hk; inversion Hk]|]. split; [|intros Hk; inversion Hk].
        intros Hk. destruct D. split; [done|]. by apply Hs.
      * rewrite lookup_delete_ne by done. rewrite <- Ho. case_bool_decide; [|done]. naive_solver.
    + intros h a Hw. destruct (ci_wait _ I _ _ Hw) as (? & Hrh & ? & ?). split_and!; try done.
      rewrite lookup_delete_None. by right.
Qed.

Lemma reach_inv C : rtc claim_step no_claims C → claims_inv C.
Proof.
  assert (claims_inv no_claims) as I0.
  { split; [|done]. intros h k. split; [done|]. intros H. inversion H. }
  intros H. induction H as [|C1 C2 C3 H1 _ IH] in I0 |- *; [done|]. apply IH. by eapply step_inv.
Qed.

(** ** What the scheduler guarantees *)

(** Conflicting steps never run at the same time: in every reachable state two
    running steps claim no common resource, whatever the modes. *)
Theorem running_steps_disjoint C h1 h2 cs1 cs2 a b :
  rtc claim_step no_claims C → cl_running C !! h1 = Some cs1 → cl_running C !! h2 = Some cs2 → h1 ≠ h2 →
  a ∈ cs1 → b ∈ cs2 → sort_key a ≠ sort_key b ∧ conflicts_with a b = false.
Proof.
  intros R H1 H2 Hn Ha Hb. apply reach_inv in R as I.
  pose proof (ci_owns _ I h1 (sort_key a)) as O1. pose proof (ci_owns _ I h2 (sort_key b)) as O2.
  unfold held_by in O1, O2. rewrite H1 in O1. rewrite H2 in O2.
  assert (sort_key a ≠ sort_key b) as Hk.
  { intros E. rewrite E in O1. apply (list_elem_of_fmap_2 sort_key) in Ha, Hb. rewrite E in Ha.
    apply O1 in Ha. apply O2 in Hb. congruence. }
  split; [done|]. unfold conflicts_with. destruct (claim_kind_eqb _ _) eqn:Ek; [|done].
  destruct (String.eqb_spec (claim_id a) (claim_id b)) as [Ei|]; [|done]. destruct Hk. unfold sort_key.
  rewrite Ei. by destruct (claim_kind a), (claim_kind b).
Qed.

(** The claim a waiter stands at. *)
Definition wanted (a : Acquire) : option claim_key := sort_key <$> head (aq_rest a).
(** It could go on now: the claim is free, or its own already. *)
Definition can_go_on (C : Claiming) (h : string) : Prop :=
  ∃ a k, cl_waiting C !! h = Some a ∧ wanted a = Some k ∧
    (_holders (cl_sched C) !! k = None ∨ _holders (cl_sched C) !! k = Some h).
Definition waits_for_running (C : Claiming) (h : string) : Prop :=
  ∃ a k r cs, cl_waiting C !! h = Some a ∧ wanted a = Some k ∧
    _holders (cl_sched C) !! k = Some r ∧ cl_running C !! r = Some cs.

(** A finite set of waiters has one that wants a greatest key. *)
Lemma greatest_wanted (l : list (string * claim_key)) :
  l ≠ [] → ∃ x, x ∈ l ∧ ∀ y, y ∈ l → key_le y.2 x.2.
Proof.
  induction l as [|x l IH]; [done|]. intros _. destruct l as [|y l].
  - exists x. split; [by left|]. intros z [->|Hz]%elem_of_cons; [apply key_le_refl|inversion Hz].
  - destruct IH as (m & Hm & Hmax); [done|]. destruct (key_le_total x.2 m.2) as [E|E].
    + exists m. split; [by right|]. intros z [->|Hz]%elem_of_cons; [done|by apply Hmax].
    + exists x. split; [by left|]. intros z [->|Hz]%elem_of_cons; [apply key_le_refl|].
      etransitivity; [by apply Hmax|done].
Qed.

(** C31: No deadlock: whenever some step waits, some waiter can go on at once or
    waits for a step that is running; a cycle of steps that only wait for each
    other never arises. *)
Theorem no_circular_wait C h0 a0 :
  rtc claim_step no_claims C → cl_waiting C !! h0 = Some a0 →
  ∃ h, can_go_on C h ∨ waits_for_running C h.
Proof.
  intros R H0. apply reach_inv in R as I.
  set (l := omap (λ ha : string * Acquire, pair ha.1 <$> wanted ha.2) (map_to_list (cl_waiting C))).
  assert (∀ h k, (h, k) ∈ l ↔ ∃ a, cl_waiting C !! h = Some a ∧ wanted a = Some k) as Hl.
  { intros h k. unfold l. rewrite list_elem_of_omap. split.
    - intros ([h' a] & Hin & E). apply elem_of_map_to_list in Hin. simpl in E.
      destruct (wanted a) eqn:W; [|done]. injection E as <- <-. eauto.
    - intros (a & Ha & W). exists (h, a). rewrite elem_of_map_to_list. simpl. by rewrite W. }
  assert (∀ h a, cl_waiting C !! h = Some a → ∃ k, wanted a = Some k) as Hwant.
  { intros h a Ha. destruct (ci_wait _ I _ _ Ha) as (_ & _ & Hne & _). unfold wanted.
    destruct (aq_rest a); [done|]. by eexists. }
  destruct (Hwant _ _ H0) as [k0 W0]. assert ((h0, k0) ∈ l) as Hin by (apply Hl; eauto).
  destruct (greatest_wanted l) as ([h k] & Hhk & Hmax); [intros E; rewrite E in Hin; inversion Hin|].
  apply Hl in Hhk as (a & Ha & W).
  destruct (_holders (cl_sched C) !! k) as [r|] eqn:Hr; [|exists h; left; unfold can_go_on; eauto 8].
  destruct (decide (r = h)) as [->|Hn]; [exists h; left; unfold can_go_on; eauto 8|].
  pose proof (held_by_owns _ _ _ I Hr) as Hheld. unfold held_by in Hheld.
  destruct (cl_running C !! r) as [cs|] eqn:Hrun; [exists h; right; unfold waits_for_running; eauto 9|].
  destruct (cl_waiting C !! r) as [b|] eqn:Hb; [|inversion Hheld].
  destruct (Hwant _ _ Hb) as [k' W']. assert (key_le k' k) as L by (apply (Hmax (r, k')); apply Hl; eauto).
  assert (key_le k k') as L'.
  { destruct (ci_wait _ I _ _ Hb) as (_ & _ & _ & Hs). unfold wanted in W'. destruct (aq_rest b) as [|c rest] eqn:Er; [done|].
    injection W' as <-. apply list_elem_of_fmap in Hheld as (x & -> & Hx).
    change (claim_le x c). apply (StronglySorted_app_1_elem_of _ _ _ _ _ Hs Hx). by left. }
  assert (k' = k) as -> by (by apply key_le_antisym).
  exists r. left. unfold can_go_on. eauto 8.
Qed.

(** A wait is bounded, and failing leaves nothing behind: a waiter woken at or
    after its deadline is granted or times out, and once it timed out it holds
    no resource, while everybody else holds what they held. *)
Theorem timeout_leaves_nothing C h a now :
  rtc claim_step no_claims C → cl_waiting C !! h = Some a →
  let r := wake now a (cl_sched C) in
  (aq_deadline a ≤ now → ∀ b, r.2 ≠ Waiting b) ∧
  (∀ conflict, r.2 = TimedOut conflict → aq_deadline a ≤ now ∧
    (∀ k, _holders r.1 !! k ≠ Some h) ∧
    ∀ k h', h' ≠ h → _holders r.1 !! k = Some h' ↔ _holders (cl_sched C) !! k = Some h').
Proof.
  intros R Ha r. apply reach_inv in R as I. destruct (ci_wait _ I _ _ Ha) as (Hst & Hr & _ & _).
  pose proof (ci_owns _ I h) as Ho. unfold held_by in Ho. rewrite Hr, Ha in Ho.
  unfold r, wake. rewrite Hst. destruct (advance_from _ _ _ _ _ _ _ _) as [s' out] eqn:E.
  apply advance_spec in E as [Hk Hout]; [|done]. simpl. split.
  - intros Hd b ->. destruct Hout as (? & ? & ? & ? & ? & _ & _ & _ & _ & _ & ?). lia.
  - intros conflict ->. destruct Hout as [Hown Hd]. split_and!; [done| |done].
    intros k Hk'. apply Hown in Hk'. inversion Hk'.
Qed.

(** Readers are serialised too: two claims that do not conflict by
    [conflicts_with], because both only read, still make the second step wait
    while the first one holds the resource. *)
Theorem readers_exclude now timeout h1 h2 c s :
  claim_mode c = RM_read → h1 ≠ h2 → 0 < timeout → _holders s !! sort_key c = Some h1 →
  conflicts_with c c = false ∧
  acquire now timeout h2 [c] s = (s, Waiting (mkAcquire h2 [] [c] [] now (now + timeout))).
Proof.
  intros Hm Hn Ht Hh. split.
  - unfold conflicts_with. rewrite Hm. by destruct (negb _ || negb _).
  - unfold acquire, ordered. simpl. rewrite Hh. destruct (String.eqb_spec h1 h2); [done|].
    by rewrite (proj2 (Z.leb_gt _ _)) by lia.
Qed.

(** ** A concrete run: two steps run, a third waits for the first *)

Definition claimA : ResourceClaim := mkResourceClaim RK_service "a" RM_write.
Definition claimB : ResourceClaim := mkResourceClaim RK_lock "b" RM_read.
Definition run1 : Claiming := settle_step "s1" [claimA] (acquire 0 60000 "s1" [claimA] (cl_sched no_claims)) no_claims.
Definition run2 : Claiming := settle_step "s2" [claimB] (acquire 5 60000 "s2" [claimB] (cl_sched run1)) run1.
Definition run3 : Claiming :=
  settle_step "s3" [claimA; claimB] (acquire 9 60000 "s3" [claimA; claimB] (cl_sched run2)) run2.
Lemma run2_reached : rtc claim_step no_claims run2.
Proof. eapply rtc_l; [by apply cs_invoke|]. apply rtc_once. by apply cs_invoke. Qed.
Lemma run3_reached : rtc claim_step no_claims run3.
Proof. eapply rtc_r; [apply run2_reached|]. by apply cs_invoke. Qed.
(** "lock" comes before "service", so it stands at [claimB]. *)
Definition waiter3 : Acquire := mkAcquire "s3" [] [claimB; claimA] [] 9 60009.

Lemma running_steps_disjoint_witness : sort_key claimA ≠ sort_key claimB ∧ conflicts_with claimA claimB = false.
Proof.
  apply (running_steps_disjoint run2 "s1" "s2" [claimA] [claimB] claimA claimB run2_reached);
    [reflexivity|reflexivity|discriminate|by left|by left].
Defined.

Lemma no_circular_wait_witness : ∃ h, can_go_on run3 h ∨ waits_for_running run3 h.
Proof. apply (no_circular_wait run3 "s3" waiter3 run3_reached). reflexivity. Defined.

Lemma timeout_leaves_nothing_witness : (wake 70000 waiter3 (cl_sched run3)).2 ≠ Waiting waiter3.
Proof.
  refine (proj1 (timeout_leaves_nothing run3 "s3" waiter3 70000 run3_reached _) _ waiter3); [reflexivity|vm_compute; discriminate].
Defined.

Lemma readers_exclude_witness :
  conflicts_with claimB claimB = false ∧
  acquire 9 60000 "s3" [claimB] (cl_sched run2) = (cl_sched run2, Waiting (mkAcquire "s3" [] [claimB] [] 9 60009)).
Proof. apply (readers_exclude 9 60000 "s2" "s3" claimB (cl_sched run2)); [reflexivity|discriminate|lia|reflexivity]. Defined.
