(* ===== verification/NodesPlan.v ===== *)
(** * From the request to dispatch: intake, retrieve, plan, fan_out

    nodes/intake.py, nodes/retrieve.py, nodes/plan.py, nodes/guide_stitch.py
    and nodes/fan_out.py.  The theorems: the strategy [plan] picks, branch
    leases that add up within the run's budget, and the partition of the
    criteria over decomposition branches. *)
From S2P Require Import Prelude PyStr Budgets Contracts Goals RouteTable NodeBase Claims.
From Stdlib Require Import ZArith Lia.
Open Scope Z_scope.

(** ** nodes/guide_stitch.py *)

Definition skill_ref (s : SkillCandidateRef) : string :=
  cand_skill_id s +:+ "@v" +:+ pretty (cand_version s).

Definition opt_float_eqb (a b : option float) : bool :=
  match a, b with Some x, Some y => feqb x y | None, None => true | _, _ => false end.

Definition cand_eqb (a b : SkillCandidateRef) : bool :=
  String.eqb (cand_skill_id a) (cand_skill_id b) && (cand_version a =? cand_version b) &&
  feqb (cand_score a) (cand_score b) && bool_decide (cand_lexical_rank a = cand_lexical_rank b) &&
  bool_decide (cand_vector_rank a = cand_vector_rank b) &&
  json_eqb (JObj (cand_bound_parameters a)) (JObj (cand_bound_parameters b)) &&
  opt_float_eqb (cand_staleness_factor a) (cand_staleness_factor b) &&
  Bool.eqb (cand_shadow a) (cand_shadow b).

(** The key [(-score, skill_id)]. *)
Definition guide_lt (a b : SkillCandidateRef) : bool :=
  let x := fopp (cand_score a) in let y := fopp (cand_score b) in
  if feqb x y then String.ltb (cand_skill_id a) (cand_skill_id b) else x <?. y.

(** The loop over the ordered skills: kept, avoided and held claims. *)
Fixpoint stitch_loop (claims : string → Z → list ResourceClaim) (ordered : list SkillCandidateRef)
    (kept : list SkillCandidateRef) (avoided : list string) (held : list ResourceClaim) :=
  match ordered with
  | [] => (kept, avoided)
  | s :: rest =>
      let cs := claims (cand_skill_id s) (cand_version s) in
      if existsb (λ a, existsb (conflicts_with a) held) cs
      then stitch_loop claims rest kept (avoided ++ [skill_ref s]) held
      else stitch_loop claims rest (kept ++ [s]) avoided (held ++ cs)
  end.

Definition stitch_guide (skills : list SkillCandidateRef) (claims : string → Z → list ResourceClaim)
    (now : datetime) : option ExecutionGuide :=
  if (length skills <? 2)%nat then None
  else
    let ordered := sorted_by guide_lt skills in
    let '(kept0, avoided0) := stitch_loop claims ordered [] [] [] in
    let '(kept, avoided) :=
      match kept0, ordered with
      | [], o :: rest => ([o], map skill_ref rest)
      | _, _ => (kept0, avoided0)
      end in
    let unused := List.filter (λ s, negb (existsb (cand_eqb s) kept)) ordered in
    Some (mkGuide (map skill_ref kept) [] avoided
            (match unused with u :: _ => [skill_ref u] | [] => [] end)
            (map (λ s, (cand_skill_id s, cand_version s)) kept) now).

(** ** nodes/fan_out.py: [_partition_criteria] *)

Definition enumerate {A} (l : list A) : list (nat * A) := imap (λ i x, (i, x)) l.

Definition local_criteria (s : RunState) : list TaskCriterion :=
  List.filter (λ c, negb (bool_decide (c_kind c = K_judge))) (criteria s).

(** Round robin: part [i] of [n] takes the criteria at positions i mod n. *)
Definition part (n i : nat) (l : list TaskCriterion) : list string :=
  omap (λ p : nat * TaskCriterion, if (p.1 mod n =? i)%nat then Some (c_id p.2) else None) (enumerate l).

Definition _partition_criteria (s : RunState) (max_parts : option Z) : option (list (string * list string)) :=
  let local := local_criteria s in
  if (length local <? 2)%nat then None
  else
    (* [max_parts or 2]: 0 counts as absent *)
    let wanted := match max_parts with Some m => if m =? 0 then 2 else m | None => 2 end in
    let n := Z.min wanted (Z.of_nat (length local)) in
    if n <? 2 then None
    else Some (List.filter (λ p : string * list string, negb (is_nil p.2))
                 (map (λ i, ("part-" +:+ pretty (Z.of_nat i + 1), part (Z.to_nat n) i local))
                    (seq 0 (Z.to_nat n)))).

Section Front.
  Context {W : Type} (svc : Services W).

(** ** nodes/intake.py *)

Definition intake (s : RunState) (cx : NodeContext) : M W NodeOutcome :=
  picked ← match goal (task s) with
    | Some g =>
        cs0 ← lift (compile_goal g from_caller);
        cs1 ← seal_must_not_modify_criteria (sv_freeze_script svc) cs0 (Some g);
        cs ← refine_goal_criteria (sv_author_proof svc) cs1;
        mret (cs, Some (fmt "compiled goal → {} criterion(ies)" [FZ (Z.of_nat (length cs))]))
    | None =>
        if is_nil (criteria s) then
          cs ← propose_criteria (sv_author_proof svc) (or_empty (request (task s)));
          mret (cs, Some (fmt "critic proposed {} criterion(ies) from request" [FZ (Z.of_nat (length cs))]))
        else mret (criteria s, None)
    end;
  let cs := match max_criterion_timeout_s cx with
            | Some ceiling => clamp_criterion_timeouts picked.1 ceiling
            | None => picked.1
            end in
  let mf := (manifest s) <| mf_criteria_hash := Some (sv_criteria_hash svc cs) |> in
  at_ ← sv_now svc;
  mret (mkOutcome (s <| criteria := cs |> <| manifest := mf |> <| criteria_locked_at := Some at_ |>)
          (Some always) picked.2).

(** ** nodes/retrieve.py *)

Definition retrieval_query (req gctx : option string) (goal_terms : string) : string :=
  let nonblank o := match o with Some x => negb (String.eqb (strip x) "") | None => false end in
  if nonblank req then strip (or_empty req)
  else if nonblank gctx then strip (or_empty gctx)
  else if negb (String.eqb (strip goal_terms) "") then strip goal_terms
  else "".

Definition truthy (o : option string) : list string :=
  match o with Some x => if String.eqb x "" then [] else [x] | None => [] end.

Definition _query_for (t : Task) : string :=
  match goal t with
  | Some g =>
      let parts := flat_map (λ d, d_id d :: truthy (d_path d) ++ truthy (d_run d) ++ truthy (d_pattern d))
                     (desired g) in
      retrieval_query (request t) (g_context g) (join_str " " parts)
  | None => retrieval_query (request t) None ""
  end.

Definition with_snapshot (sid : option string) (s : RunState) : RunState :=
  match sid with
  | Some x => s <| manifest := (manifest s) <| mf_index_snapshot_id := Some x |> |>
  | None => s
  end.

Definition retrieve (s : RunState) (cx : NodeContext) : M W NodeOutcome :=
  if decide (arm s = control) then
    sid ← (if has_retriever cx then x ← sv_snapshot_id svc; mret (Some x) else mret None);
    mret (mkOutcome (with_snapshot sid (s <| bundle := mkBundle [] [] [] [] [] true |>)) (Some always)
            (Some (fmt "control arm: retrieval suppressed snapshot={}" [FO sid])))
  else
    let query := _query_for (task s) in
    found ← (if has_retriever cx
             then r ← sv_search svc query; mret (r.1.1, Some r.1.2, r.2)
             else mret ([], None, 0));
    b ← sv_assemble_bundle svc found.1.1 query (task_class (task s));
    mret (mkOutcome (with_snapshot found.1.2 (s <| bundle := b |>)) (Some always)
            (Some (fmt "snapshot={} skills={} dead_ends={} cautions={} dropped={}"
              [FO found.1.2; FZ (Z.of_nat (length found.1.1)); FZ (Z.of_nat (length (dead_ends b)));
               FZ (Z.of_nat (length (tool_cautions b))); FZ found.2]))).

(** ** nodes/plan.py *)

Definition APPLY_THRESHOLD : float := dec 48 100.
Definition ADAPT_THRESHOLD : float := dec 35 100.
Definition PORTFOLIO_GAP : float := dec 8 100.

Definition planned (s : RunState) (st : Strategy) (why : text) (p : float) : RunState :=
  s <| strategy := Some st |> <| strategy_reason := Some why |> <| predicted_success := Some p |>.

Definition scored (tpl : string) (top : SkillCandidateRef) (more : list farg) : text :=
  fmt tpl (FS (cand_skill_id top) :: FZ (cand_version top) :: FF (cand_score top) :: more).

(** [skills] non-empty, in score order: the ambiguity, apply and adapt tests. *)
Definition plan_skills (s : RunState) (cx : NodeContext) (top : SkillCandidateRef)
    (rest : list SkillCandidateRef) : M W NodeOutcome :=
  let ambiguous := match rest with
                   | second :: _ => (fabs (cand_score top ⊖ cand_score second) <=?. PORTFOLIO_GAP)
                                    && (ADAPT_THRESHOLD <=?. cand_score top)
                   | [] => false
                   end in
  if ambiguous then
    mret (mkOutcome ((planned s S_portfolio
        (fmt "ambiguous top skills {} vs {}"
           [FS (cand_skill_id top); FS (match rest with r :: _ => cand_skill_id r | [] => "" end)])
        (cand_score top)) <| chosen := Some top |>) (Some fan_out_strategy) None)
  else if APPLY_THRESHOLD <=?. cand_score top then
    mret (mkOutcome ((planned s S_apply (scored "top candidate {}@v{} score={}" top [])
        (if cand_score top <?. dec 95 100 then cand_score top else dec 95 100))
        <| chosen := Some top |> <| execution_guide := None |>) (Some single_strategy) None)
  else if ADAPT_THRESHOLD <=?. cand_score top then
    guide ← (if deterministic_guide cx && negb (is_nil rest)
             then t ← sv_now svc; mret (stitch_guide (top :: rest) (λ _ _, []) t)
             else mret None);
    mret (mkOutcome ((planned s S_adapt
        (scored "top candidate {}@v{} score={} below apply threshold {}" top [FF APPLY_THRESHOLD])
        (cand_score top)) <| chosen := Some top |> <| execution_guide := guide |>)
        (Some single_strategy) None)
  else
    mret (mkOutcome ((planned s S_scratch
        (fmt "top score {} below adapt threshold {}" [FF (cand_score top); FF ADAPT_THRESHOLD])
        (dec 4 10)) <| chosen := None |>) (Some single_strategy) None).

Definition plan (s : RunState) (cx : NodeContext) : M W NodeOutcome :=
  let hint := match goal (task s) with Some g => strategy_hint g | None => None end in
  let req := or_empty (request (task s)) in
  let starts p := String.prefix p req in
  if bool_decide (hint = Some hint_abstain) || starts "ABSTAIN:" then
    mret (mkOutcome (planned s S_abstain (lit "caller requested abstention") f0) (Some abstain) None)
  else if bool_decide (hint = Some hint_decomposition) || starts "DECOMPOSE:"
          || (negb (starts "PORTFOLIO:") && str_contains "DECOMPOSE:" req) then
    match _partition_criteria s None with
    | None =>
        mret (mkOutcome (planned s S_scratch
          (lit "decomposition refused: criteria cannot be partitioned") (dec 4 10))
          (Some single_strategy) None)
    | Some _ =>
        mret (mkOutcome (planned s S_decomposition
          (lit "caller requested decomposition with partitionable criteria") (dec 55 100))
          (Some fan_out_strategy) None)
    end
  else if bool_decide (hint = Some hint_portfolio) || starts "PORTFOLIO:" || starts "AMBIGUOUS:" then
    mret (mkOutcome (planned s S_portfolio (lit "caller marked task ambiguous; portfolio fan-out")
      (dec 5 10)) (Some fan_out_strategy) None)
  else
    match skills (bundle s) with
    | [] => mret (mkOutcome ((planned s S_scratch (lit "empty memory bundle; solve from scratch") (dec 4 10))
              <| chosen := None |>) (Some single_strategy) None)
    | top :: rest => plan_skills s cx top rest
    end.

(** ** nodes/fan_out.py *)

Definition branch_count (s : RunState) : Z :=
  let desired := match strategy s with
                 | Some S_portfolio => Z.of_nat (length (skills (bundle s)))
                 | _ => Z.min (Z.of_nat (length (criteria s))) (max_branches (budget s))
                 end in
  Z.min (max_branches (budget s)) (Z.max 2 desired).

(** [len(ctx.script or ["true"])] *)
Definition script_len (cx : NodeContext) : Z :=
  match script cx with Some ((_ :: _) as l) => Z.of_nat (length l) | _ => 1 end.

Definition child_budget (parent : Budget) (n : Z) : result Budget :=
  new_Budget {|
    max_attempts := Z.max 1 (max_attempts parent / n);
    max_tokens := (λ t, t / n) <$> max_tokens parent;
    max_cost_usd := (λ c, c ⊘ Z2f n) <$> max_cost_usd parent;
    max_wall_clock_s := Z.max 1 (max_wall_clock_s parent / n);
    max_tool_calls := Z.max 1 (max_tool_calls parent / n);
    max_branches := 1;
    max_parallel_steps := max_parallel_steps parent;
    claim_timeout_s := claim_timeout_s parent;
    max_versions_written := max_versions_written parent |}.

Definition requested_per_branch (child : Budget) (len : Z) : result BudgetReservation :=
  new_Reservation (mkReservation 1 len (default 0 (max_tokens child))
    (Z2f (Z.min 60 (max_wall_clock_s child))) (dec 1 100 ⊗ Z2f (1 + len)) 0).

Definition scale (v : BudgetReservation) (n : Z) : result BudgetReservation :=
  new_Reservation (mkReservation (v_attempts v * n) (v_tool_calls v * n) (v_tokens v * n)
    (v_wall_clock_s v ⊗ Z2f n) (v_cost_usd v ⊗ Z2f n) 0).

Definition add_reservation (a b : BudgetReservation) : BudgetReservation :=
  mkReservation (v_attempts a + v_attempts b) (v_tool_calls a + v_tool_calls b) (v_tokens a + v_tokens b)
    (v_wall_clock_s a ⊕ v_wall_clock_s b) (v_cost_usd a ⊕ v_cost_usd b) 0.

Definition new_branch (id work : string) (k : BranchKind) (st : BranchStrategy) (sub : option string)
    (cand : option SkillCandidateRef) (child : Budget) (v : BudgetReservation) (owned : list string)
    : BranchState :=
  mkBranch id k st sub cand (work +:+ "/" +:+ id) None None dispatched [] child default_Spend v [] false
    None None owned.

Definition portfolio_branches (cx : NodeContext) (s : RunState) (n : Z) (child : Budget)
    (v : BudgetReservation) : list BranchState :=
  let strategies := map (λ c, (BS_apply, Some c)) (take (Z.to_nat (n - 1)) (skills (bundle s)))
                    ++ [(BS_scratch, None)] in
  imap (λ i sc, new_branch (cx_run_id cx +:+ "-p" +:+ pretty (Z.of_nat i)) (cx_workdir cx) BK_portfolio
                  sc.1 None sc.2 child v []) strategies.

Definition decomposition_branches (cx : NodeContext) (parts : list (string * list string)) (child : Budget)
    (v : BudgetReservation) : list BranchState :=
  imap (λ i p, new_branch (cx_run_id cx +:+ "-d" +:+ pretty (Z.of_nat i)) (cx_workdir cx) BK_decomposition
                 BS_scratch (Some p.1) None child v p.2) parts.

(** Clone the workspaces, then record the branches and what they hold. *)
Definition dispatch (s : RunState) (branches_ : list BranchState) (requested : BudgetReservation)
    : M W NodeOutcome :=
  _ ← mapM_ (λ b, sv_clone_workspace svc (branch_id b)) branches_;
  v ← lift (new_Reservation (add_reservation (reserved s) requested));
  mret (mkOutcome (s <| branches := branches_ |> <| reserved := v |>) (Some always)
    (Some (fmt "dispatched {} {} branches" [FZ (Z.of_nat (length branches_));
       FO (strategy_str <$> strategy s)]))).

Definition fan_out (s : RunState) (cx : NodeContext) : M W NodeOutcome :=
  if negb (strategy_in [S_portfolio; S_decomposition] s)
  then mret (mkOutcome s (Some always) (Some (lit "no fan-out strategy")))
  else
    let parent := budget s in
    let n := branch_count s in
    child ← lift (child_budget parent n);
    per ← lift (requested_per_branch child (script_len cx));
    requested ← lift (scale per n);
    match budget_excess parent (spent s) (reserved s) requested with
    | Some d =>
        sig ← signal svc src_orchestrator
                ("budget exhausted before fan-out reservation: " +:+ dimension_str d) (Some F_budget);
        mret (mkOutcome (s <| failure_signal := Some sig |>) (Some pre_dispatch_budget_failure)
          (Some (fmt "fan-out refused: {} budget cannot reserve {} branches" [FS (dimension_str d); FZ n])))
    | None =>
        if strategy_in [S_portfolio] s then dispatch s (portfolio_branches cx s n child per) requested
        else match _partition_criteria s (Some n) with
             | None => mret (mkOutcome (s <| strategy := Some S_scratch |> <| branches := [] |>) (Some always)
                         (Some (lit "decomposition refused: criteria not partitionable")))
             | Some parts => dispatch s (decomposition_branches cx parts child per) requested
             end
    end.

End Front.

(** ** The partition of the criteria *)

Lemma concat_map_app {A B} (f g : A → list B) l :
  concat (map (λ i, f i ++ g i) l) ≡ₚ concat (map f l) ++ concat (map g l).
Proof.
  induction l as [|x l IH]; simpl; [done|]. rewrite IH, <- !app_assoc. apply Permutation_app_head.
  rewrite !app_assoc. apply Permutation_app_tail, Permutation_app_comm.
Qed.

Lemma concat_map_none {B} (v : B) l j :
  j ∉ l → concat (map (λ i, if (j =? i)%nat then [v] else []) l) = [].
Proof.
  induction l as [|x l IH]; simpl; [done|]. intros H. apply not_elem_of_cons in H as [N H].
  destruct (Nat.eqb_spec j x); [done|]. by apply IH.
Qed.

Lemma concat_map_one {B} (v : B) l j :
  NoDup l → j ∈ l → concat (map (λ i, if (j =? i)%nat then [v] else []) l) = [v].
Proof.
  induction 1 as [|x l Hx Hnd IH]; simpl; [by inversion 1|]. intros [->|Hj]%elem_of_cons.
  - rewrite Nat.eqb_refl. simpl. by rewrite concat_map_none.
  - destruct (Nat.eqb_spec j x); [by subst|]. simpl. by apply IH.
Qed.

(** Distributing a list over [n] buckets by a key below [n] keeps its items. *)
Lemma buckets_perm {A B} (key : A → nat) (v : A → B) n l :
  (∀ x, x ∈ l → (key x < n)%nat) →
  concat (map (λ i, omap (λ x, if (key x =? i)%nat then Some (v x) else None) l) (seq 0 n)) ≡ₚ map v l.
Proof.
  induction l as [|x l IH]; intros H.
  - simpl. induction (seq 0 n); done.
  - assert (∀ i, omap (λ x, if (key x =? i)%nat then Some (v x) else None) (x :: l) =
      (if (key x =? i)%nat then [v x] else []) ++
      omap (λ x, if (key x =? i)%nat then Some (v x) else None) l) as E
      by (intros i; simpl; by destruct (key x =? i)%nat).
    rewrite (map_ext _ _ E), concat_map_app, IH by (intros; apply H; by right).
    rewrite concat_map_one; [done|apply NoDup_ListNoDup, seq_NoDup|].
    apply elem_of_seq. split; [lia|]. apply H. left.
Qed.

Lemma enumerate_snd {A} (l : list A) : map snd (enumerate l) = l.
Proof.
  unfold enumerate. apply list_eq. intros i. rewrite list_lookup_fmap, list_lookup_imap. by destruct (l !! i).
Qed.

Lemma part_elem n i l c : (0 < n)%nat → (i < n)%nat → l !! i = Some c → c_id c ∈ part n i l.
Proof.
  intros Hn Hi Hc. unfold part. apply list_elem_of_omap. exists (i, c). simpl. split.
  - apply list_elem_of_lookup. exists i. unfold enumerate. by rewrite list_lookup_imap, Hc.
  - by rewrite Nat.mod_small, Nat.eqb_refl.
Qed.


Lemma partition_shape s m parts :
  _partition_criteria s m = Some parts →
  ∃ n, (2 ≤ n)%nat ∧ (n ≤ length (local_criteria s))%nat ∧
    (∀ k, m = Some k → k ≠ 0 → Z.of_nat n ≤ k) ∧
    parts = map (λ i, ("part-" +:+ pretty (Z.of_nat i + 1), part n i (local_criteria s))) (seq 0 n).
Proof.
  unfold _partition_criteria. destruct (_ <? 2)%nat eqn:E1; [done|]. apply Nat.ltb_ge in E1.
  set (n := Z.min _ _). destruct (n <? 2) eqn:E2; [done|]. apply Z.ltb_ge in E2. intros [= <-].
  exists (Z.to_nat n). split_and!; try lia.
  - intros k -> Hk. destruct (Z.eqb_spec k 0); lia.
  - rewrite filter_all; [done|]. intros p Hp. apply list_elem_of_fmap in Hp as (i & -> & Hi).
    apply elem_of_seq in Hi. simpl.
    destruct (lookup_lt_is_Some_2 (local_criteria s) i) as [c Hc]; [lia|].
    pose proof (part_elem (Z.to_nat n) i (local_criteria s) c ltac:(lia) ltac:(lia) Hc) as Hin.
    destruct (part _ _ _); [by inversion Hin|done].
Qed.

(** Decomposition gives every non-judge criterion to exactly one branch: the
    parts together are a rearrangement of the criteria's ids, there are at
    least two and at most the allowed number, and none is empty. *)
Theorem partition_covers s m parts :
  _partition_criteria s m = Some parts →
  concat (map snd parts) ≡ₚ map c_id (local_criteria s) ∧
  (2 ≤ length parts)%nat ∧ (∀ k, m = Some k → k ≠ 0 → Z.of_nat (length parts) ≤ k) ∧
  Forall (λ p, p.2 ≠ []) parts.
Proof.
  intros H. apply partition_shape in H as (n & Hn & Hl & Hm & ->). split_and!.
  - rewrite map_map. simpl. unfold part.
    rewrite (buckets_perm (λ p : nat * TaskCriterion, (p.1 mod n)%nat) (λ p, c_id p.2)).
    + by rewrite <- (map_map snd c_id), enumerate_snd.
    + intros x _. apply Nat.mod_upper_bound. lia.
  - by rewrite length_map, length_seq.
  - by rewrite length_map, length_seq.
  - apply Forall_forall. intros p Hp. apply list_elem_of_fmap in Hp as (i & -> & Hi).
    apply elem_of_seq in Hi. simpl.
    destruct (lookup_lt_is_Some_2 (local_criteria s) i) as [c Hc]; [lia|].
    pose proof (part_elem n i (local_criteria s) c ltac:(lia) ltac:(lia) Hc) as Hin.
    intros E. rewrite E in Hin. inversion Hin.
Qed.

(** ** Branch leases *)

Definition sum_of (f : BranchState → Z) (l : list BranchState) : Z := foldr (λ b a, f b + a) 0 l.

Lemma sum_of_le f l c n :
  Forall (λ b, f b = c) l → 0 ≤ c → Z.of_nat (length l) ≤ n → sum_of f l ≤ n * c.
Proof.
  intros H Hc Hn. assert (sum_of f l = Z.of_nat (length l) * c) as ->.
  { clear Hn. induction H as [|b l Hb _ IH]; simpl sum_of; [simpl; lia|]. rewrite Hb, IH. simpl length. lia. }
  nia.
Qed.

(** A fresh lease: the child budget, and the per-branch reservation held. *)
Definition leased (child : Budget) (v : BudgetReservation) (b : BranchState) : Prop :=
  b_budget b = child ∧ b_reserved b = v ∧ b_status b = dispatched.

Lemma Forall_imap_leased {A} (f : nat → A → BranchState) l child v :
  (∀ i x, leased child v (f i x)) → Forall (leased child v) (imap f l).
Proof.
  intros H. apply Forall_lookup. intros i b. rewrite list_lookup_imap.
  destruct (l !! i); simpl; [intros [= <-]; apply H|done].
Qed.

Lemma branches_leased cx s n child v parts :
  1 ≤ n →
  (Z.of_nat (length (portfolio_branches cx s n child v)) ≤ n ∧
   Forall (leased child v) (portfolio_branches cx s n child v)) ∧
  (Z.of_nat (length parts) ≤ n →
   Z.of_nat (length (decomposition_branches cx parts child v)) ≤ n ∧
   Forall (leased child v) (decomposition_branches cx parts child v)).
Proof.
  intros Hn. unfold portfolio_branches, decomposition_branches. rewrite !length_imap.
  split; [|intros Hp]; (split; [|by apply Forall_imap_leased]); [|done].
  rewrite length_app, length_map, length_take. simpl. lia.
Qed.

Lemma dispatch_Ok {W} (svc : Services W) s bs req w w' o :
  dispatch svc s bs req w = (w', Ok o) →
  o_route o = Some always ∧
  o_state o = s <| branches := bs |> <| reserved := add_reservation (reserved s) req |>.
Proof.
  unfold dispatch, new_Reservation. intros H. inv_ok. destruct (reservation_valid _); [|discriminate].
  by inv_ok.
Qed.

Lemma branch_count_pos s : budget_valid (budget s) = true → 1 ≤ branch_count s.
Proof. unfold budget_valid, branch_count. intros Hb. budget_bools. destruct (strategy s) as [[]|]; lia. Qed.

Lemma fan_out_dispatched {W} (svc : Services W) s cx w w' o :
  budget_valid (budget s) = true →
  fan_out svc s cx w = (w', Ok o) → o_route o = Some always →
  strategy_in [S_portfolio; S_decomposition] (o_state o) = true →
  ∃ child per req bs,
    child_budget (budget s) (branch_count s) = Ok child ∧
    requested_per_branch child (script_len cx) = Ok per ∧ scale per (branch_count s) = Ok req ∧
    budget_excess (budget s) (spent s) (reserved s) req = None ∧
    Z.of_nat (length bs) ≤ branch_count s ∧ Forall (leased child per) bs ∧
    o_state o = s <| branches := bs |> <| reserved := add_reservation (reserved s) req |>.
Proof.
  intros Hb H Hr Hst. pose proof (branch_count_pos s Hb) as Hn. unfold fan_out in H.
  destruct (strategy_in [S_portfolio; S_decomposition] s) eqn:Es; simpl in H.
  2: { inv_ok. simpl in Hst. congruence. }
  apply M_bind_Ok in H as (child & w1 & Hch & H). apply lift_Ok in Hch as [-> Hch].
  apply M_bind_Ok in H as (per & w1 & Hper & H). apply lift_Ok in Hper as [-> Hper].
  apply M_bind_Ok in H as (req & w1 & Hreq & H). apply lift_Ok in Hreq as [-> Hreq].
  destruct (budget_excess _ _ _ _) eqn:Ee; [unfold signal in H; inv_ok; done|].
  destruct (strategy_in [S_portfolio] s).
  - apply dispatch_Ok in H as [_ ->]. eexists child, per, req, _.
    destruct (branches_leased cx s (branch_count s) child per [] Hn) as [[? ?] _]. by split_and!.
  - destruct (_partition_criteria s _) as [parts|] eqn:Ep; [|inv_ok; simpl in Hst; discriminate].
    apply dispatch_Ok in H as [_ ->]. exists child, per, req, (decomposition_branches cx parts child per).
    destruct (branches_leased cx s (branch_count s) child per parts Hn) as [_ Hd].
    apply partition_shape in Ep as (k & _ & _ & Hk & Ep).
    destruct Hd; [rewrite Ep, length_map, length_seq; apply Hk; [done|lia]|]. by split_and!.
Qed.

Lemma share_le n m : 1 ≤ n → n ≤ m → n * Z.max 1 (m / n) ≤ m.
Proof. intros Hn Hm. pose proof (Z.mul_div_le m n ltac:(lia)). destruct (Z.max_spec 1 (m / n)) as [[_ ->]|[_ ->]]; lia. Qed.

Lemma requested_Ok child len per n req :
  requested_per_branch child len = Ok per → scale per n = Ok req →
  v_attempts req = n ∧ v_tool_calls req = len * n ∧ v_tokens req = default 0 (max_tokens child) * n ∧
  v_attempts per = 1 ∧ v_tool_calls per = len ∧ v_tokens per = default 0 (max_tokens child).
Proof.
  unfold requested_per_branch, scale, new_Reservation. intros H1 H2.
  destruct (reservation_valid _); [|discriminate]. injection H1 as <-.
  destruct (reservation_valid _); [|discriminate]. injection H2 as <-. simpl. split_and!; lia || done.
Qed.

Definition spend_nonneg (s : RunState) : Prop :=
  0 ≤ s_attempts (spent s) + v_attempts (reserved s) ∧
  0 ≤ s_tool_calls (spent s) + v_tool_calls (reserved s) ∧
  0 ≤ s_tokens (spent s) + v_tokens (reserved s).

Lemma script_len_pos cx : 1 ≤ script_len cx.
Proof. unfold script_len. destruct (script cx) as [[|x l]|]; [lia| |lia]. rewrite length_cons. lia. Qed.

(** Dispatch never oversubscribes the run: when [fan_out] dispatches
    branches, the branches' own caps on attempts, tool calls and tokens add
    up to no more than the run's caps, and the run's spend plus everything
    now reserved still fits each of these caps. *)
Theorem fan_out_leases_fit {W} (svc : Services W) s cx w w' o :
  budget_valid (budget s) = true → spend_nonneg s →
  fan_out svc s cx w = (w', Ok o) → o_route o = Some always →
  strategy_in [S_portfolio; S_decomposition] (o_state o) = true →
  let bs := branches (o_state o) in
  let held := reserved (o_state o) in
  sum_of (λ b, max_attempts (b_budget b)) bs ≤ max_attempts (budget s) ∧
  sum_of (λ b, max_tool_calls (b_budget b)) bs ≤ max_tool_calls (budget s) ∧
  (∀ T, max_tokens (budget s) = Some T → sum_of (λ b, default 0 (max_tokens (b_budget b))) bs ≤ T) ∧
  s_attempts (spent s) + v_attempts held ≤ max_attempts (budget s) ∧
  s_tool_calls (spent s) + v_tool_calls held ≤ max_tool_calls (budget s) ∧
  (∀ T, max_tokens (budget s) = Some T → s_tokens (spent s) + v_tokens held ≤ T).
Proof.
  intros Hb (Na & Nc & Nt) H Hr Hst. pose proof (branch_count_pos s Hb) as Hn.
  destruct (fan_out_dispatched _ _ _ _ _ _ Hb H Hr Hst)
    as (child & per & req & bs & Hch & Hper & Hreq & Hex & Hlen & Hle & ->). simpl.
  destruct (requested_Ok _ _ _ _ _ Hper Hreq) as (Ra & Rc & Rt & _).
  apply new_Budget_Ok in Hch as [Ec _]. pose proof (script_len_pos cx).
  pose proof (budget_excess_None _ _ _ _ D_attempts Hex) as Xa. simpl in Xa. apply Z.ltb_ge in Xa.
  pose proof (budget_excess_None _ _ _ _ D_tool_calls Hex) as Xc. simpl in Xc. apply Z.ltb_ge in Xc.
  pose proof (budget_excess_None _ _ _ _ D_tokens Hex) as Xt. simpl in Xt.
  assert (branch_count s ≤ max_attempts (budget s)) by lia.
  assert (branch_count s ≤ max_tool_calls (budget s)) by nia.
  assert (∀ f : Budget → Z, Forall (λ b, f (b_budget b) = f child) bs) as Hf.
  { intros f. eapply Forall_impl; [exact Hle|]. intros b [-> _]. done. }
  split_and!; try lia.
  - etrans; [apply (sum_of_le _ bs _ (branch_count s) (Hf max_attempts)); [subst child; simpl; lia|exact Hlen]|].
    subst child. simpl. by apply share_le.
  - etrans; [apply (sum_of_le _ bs _ (branch_count s) (Hf max_tool_calls)); [subst child; simpl; lia|exact Hlen]|].
    subst child. simpl. by apply share_le.
  - intros T HT.
    etrans; [apply (sum_of_le _ bs _ (branch_count s) (Hf (λ b, default 0 (max_tokens b)))); [|exact Hlen]|];
      subst child; simpl; rewrite HT; simpl; [|apply Z.mul_div_le; lia].
    unfold budget_valid, opt_ge in Hb. rewrite HT in Hb. budget_bools. apply Z.div_pos; lia.
  - intros T HT. rewrite HT in Xt. apply Z.ltb_ge in Xt. lia.
Qed.

(** ** A concrete fan-out: three criteria over the default budget's branches *)

Definition w_decompose : RunState := demo_state "DECOMPOSE: x" ["a"; "b"; "c"].
Definition w_planned : RunState := o_state (outcome_or w_decompose (plan demo_services w_decompose demo_context tt)).
Definition w_dispatched : NodeOutcome := outcome_or w_planned (fan_out demo_services w_planned demo_context tt).

Example dispatched_three : map b_owned_criteria (branches (o_state w_dispatched)) = [["a"]; ["b"]; ["c"]].
Proof. vm_compute. reflexivity. Qed.

Lemma partition_covers_witness :
  concat (map snd [("part-1", ["a"; "c"]); ("part-2", ["b"])]) ≡ₚ ["a"; "b"; "c"].
Proof.
  apply (partition_covers w_decompose (Some 2)). vm_compute. reflexivity.
Defined.

Lemma fan_out_leases_fit_witness :
  sum_of (λ b, max_attempts (b_budget b)) (branches (o_state w_dispatched)) ≤ 4.
Proof.
  refine (proj1 (fan_out_leases_fit demo_services w_planned demo_context tt tt w_dispatched _ _ _ _ _)).
  - vm_compute. reflexivity.
  - vm_compute. repeat split; discriminate.
  - vm_compute. reflexivity.
  - vm_compute. reflexivity.
  - vm_compute. reflexivity.
Defined.
