(* ===== verification/NodesSolve.v ===== *)
(** * The solve node and its five paths

    nodes/solve.py, solve_script.py, solve_scratch.py, solve_apply.py and
    solve_branches.py: branch execution, applicator, observe-act loop,
    scripted and legacy runs.  Every path opens one [AttemptMeter], charges
    what it dispatched and closes through [close_failed] or
    [close_completed].  The theorems: every solve hop charges at least one
    attempt and leaves by a route its own state allows, and a script never
    dispatches a tool call the budget does not admit. *)
From S2P Require Import Prelude PyStr Budgets Contracts RouteTable NodeBase.
From Stdlib Require Import ZArith Lia.
Open Scope Z_scope.

Definition nl : string := chr 10.
(** [s[-n:]] *)
Definition str_last (n : nat) (s : string) : string :=
  String.substring (String.length s - n) n s.

Definition no_update : RunState → RunState := λ s, s.

Section Solve.
  Context {W : Type} (svc : Services W).

(** [writer.finalize() if writer else None] *)
Definition finalize_opt (cx : NodeContext) : M W (option string) :=
  if has_transcripts cx then t ← sv_finalize_transcript svc; mret (Some t) else mret None.

Definition attempt_ref (cx : NodeContext) (attempt : Z) : string :=
  cx_run_id cx +:+ "/attempt-" +:+ pretty attempt.

Definition set_transcript (t : option string) : RunState → RunState := λ s, s <| transcript_ref := t |>.

(** ** nodes/solve_script.py *)

(** [None] is [ModelRequiredError]. *)
Definition resolve_script (s : RunState) (cx : NodeContext) : M W (option (list string)) :=
  match script cx with
  | Some l => mret (Some l)
  | None =>
      match strategy_in [S_apply; S_adapt] s && has_store cx, chosen s with
      | true, Some c => l ← sv_get_skill_script svc c; mret (Some l)
      | _, _ =>
          if strategy_in [S_scratch] s && has_model cx
          then c ← sv_model_command svc s; mret (Some [c])
          else if strategy_in [S_scratch] s && (has_tools cx || has_transcripts cx) then mret None
          else mret (Some ["true"])
      end
  end.

Definition exited (op_seq : Z) (rc : Z) (command : string) : string :=
  "step " +:+ pretty op_seq +:+ " exited " +:+ pretty rc +:+ ": " +:+ command.

Fixpoint script_loop (s : RunState) (cx : NodeContext) (attempt : Z) (m : AttemptMeter) (op_seq : Z)
    (commands : list string) : M W NodeOutcome :=
  match commands with
  | [] =>
      t ← finalize_opt cx;
      close_completed svc s m attempt 1 (default (attempt_ref cx attempt) t)
        (Some "scripted attempt transcript") None no_update
  | command :: rest =>
      preflight svc m 0 1 ≫= λ exhausted : option dimension, match exhausted with
      | Some d =>
          sig ← signal svc src_solver ("budget exhausted before tool dispatch: " +:+ dimension_str d)
                  (Some F_budget);
          t ← finalize_opt cx;
          close_failed svc s m sig attempt 1
            (Some (fmt "tool-call budget exhausted: {}" [FS (dimension_str d)])) (set_transcript t)
      | None =>
          r ← sv_run_script_step svc op_seq command;
          let m := charge_delta m (run_usage r) in
          _ ← sv_record_affordances svc;
          if negb (returncode r =? 0) then
            let detail := exited op_seq (returncode r) command in
            let detail := if run_flaky r then "flaky tool=shell: " +:+ detail else detail in
            sig ← signal svc src_solver detail None;
            t ← finalize_opt cx;
            close_failed svc s m sig attempt 1
              (Some (fmt "solver-raised failure signal at step {}" [FZ op_seq])) (set_transcript t)
          else script_loop s cx attempt m (op_seq + 1) rest
      end
  end.

Definition solve_script_via_tools (s : RunState) (cx : NodeContext) (attempt : Z) (l : list string)
    : M W NodeOutcome :=
  m ← meter_open svc s None; script_loop s cx attempt m 0 l.

Fixpoint legacy_loop (s : RunState) (cx : NodeContext) (attempt : Z) (m : AttemptMeter) (op_seq : Z)
    (commands : list string) : M W NodeOutcome :=
  match commands with
  | [] => close_completed svc s m attempt 1 (attempt_ref cx attempt) (Some "scripted attempt transcript")
            None no_update
  | command :: rest =>
      r ← sv_run_legacy_step svc op_seq command;
      let m := charge m 1 0 f0 in
      if negb (returncode r =? 0) then
        sig ← signal svc src_solver (exited op_seq (returncode r) command) None;
        close_failed svc s m sig attempt 1
          (Some (fmt "solver-raised failure signal at step {}" [FZ op_seq])) no_update
      else legacy_loop s cx attempt m (op_seq + 1) rest
  end.

Definition solve_legacy_script (s : RunState) (cx : NodeContext) (attempt : Z) (l : list string)
    : M W NodeOutcome :=
  m ← meter_open svc s None; legacy_loop s cx attempt m 0 l.

(** ** nodes/solve_scratch.py *)

Definition scratch_max_steps : Z := Z.max 1 (Z.min 20 (sv_scratch_max_steps svc)).

Definition step_record (r : ScratchStep) : string :=
  "$ " +:+ st_command r +:+ nl +:+ "exit=" +:+ pretty (returncode (st_run r)) +:+ nl +:+ "stdout:" +:+ nl +:+
  str_last 1500 (run_stdout (st_run r)) +:+ nl +:+ "stderr:" +:+ nl +:+ str_last 800 (run_stderr (st_run r)).

(** The steps left to take; [last_error] is falsy when [None] or empty. *)
Fixpoint scratch_loop (s : RunState) (cx : NodeContext) (attempt : Z) (m : AttemptMeter)
    (history : list string) (last_error : option string) (step : Z) (left : nat) : M W NodeOutcome :=
  match left with
  | O =>
      let detail := match last_error with
                    | Some e => if String.eqb e "" then None else Some e
                    | None => None end in
      sig ← signal svc src_solver
        (default ("scratch observe-act exhausted " +:+ pretty scratch_max_steps +:+ " steps") detail) None;
      t ← finalize_opt cx;
      close_failed svc s m sig attempt 1 (Some (lit "scratch observe-act exhausted without success"))
        (set_transcript t)
  | S left' =>
      preflight svc m 0 1 ≫= λ exhausted : option dimension, match exhausted with
      | Some d =>
          sig ← signal svc src_solver ("budget exhausted before tool dispatch: " +:+ dimension_str d)
                  (Some F_budget);
          t ← finalize_opt cx;
          close_failed svc s m sig attempt 1
            (Some (fmt "scratch budget exhausted: {}" [FS (dimension_str d)])) (set_transcript t)
      | None =>
          stepped ← catch (r ← sv_scratch_step svc step history; mret (inl r)) (λ e, mret (inr e));
          match stepped with
          | inr e =>
              sig ← signal svc src_solver
                ("environment: model error during scratch: " +:+ sv_exc_text svc e) (Some F_environment);
              t ← finalize_opt cx;
              close_failed svc s m sig attempt 1 (Some (lit "scratch model error")) (set_transcript t)
          | inl r =>
              let m := charge m 0 (st_prompt_tokens r + st_completion_tokens r) (st_cost_usd r) in
              if st_empty r then
                scratch_loop s cx attempt m history (Some "empty command from model") (step + 1) left'
              else
                match st_refused r with
                | Some why =>
                    scratch_loop s cx attempt m
                      (history ++ ["$ " +:+ st_command r +:+ nl +:+ "[refused] " +:+ why]) (Some why)
                      (step + 1) left'
                | None =>
                    let m := charge_delta m (run_usage (st_run r)) in
                    _ ← sv_record_affordances svc;
                    let history := history ++ [step_record r] in
                    if negb (returncode (st_run r) =? 0) then
                      scratch_loop s cx attempt m history
                        (Some (exited step (returncode (st_run r)) (st_command r))) (step + 1) left'
                    else
                      t ← finalize_opt cx;
                      close_completed svc s m attempt 1 (default (attempt_ref cx attempt) t)
                        (Some "scratch observe-act transcript")
                        (Some (fmt "scratch observe-act completed after {} step(s)" [FZ (step + 1)]))
                        no_update
                end
          end
      end
  end.

Definition solve_scratch_observe_act (s : RunState) (cx : NodeContext) (attempt : Z) : M W NodeOutcome :=
  m ← meter_open svc s None;
  scratch_loop s cx attempt m [] None 0 (Z.to_nat scratch_max_steps).

(** ** nodes/solve_apply.py *)

Definition nonempty (o : option string) : option string :=
  match o with Some x => if String.eqb x "" then None else Some x | None => None end.

Definition solve_via_applicator (s : RunState) (cx : NodeContext) (attempt : Z) (c : SkillCandidateRef)
    : M W NodeOutcome :=
  m ← meter_open svc s None;
  a ← sv_apply_skill svc c;
  _ ← sv_record_affordances svc;
  let m := charge_delta m (ap_usage a) in
  if negb (ap_ok a) then
    let detail := default "skill application failed" (nonempty (ap_error a)) in
    let detail := if ap_merge_timeout a then "claim timeout: " +:+ detail else detail in
    sig ← signal svc src_solver detail None;
    close_failed svc s m sig attempt 1 (Some (fmt "applicator failed: {}" [FS detail]))
      (λ s, s <| transcript_ref := ap_transcript_ref a |> <| step_waves := step_waves s ++ ap_waves a |>
              <| resource_conflicts := resource_conflicts s ++ ap_conflicts a |>)
  else
    close_completed svc s m attempt 1 (default (attempt_ref cx attempt) (nonempty (ap_transcript_ref a)))
      (Some "structured attempt transcript") None
      (λ s, s <| step_waves := step_waves s ++ ap_waves a |>).

(** ** nodes/solve_branches.py *)

Definition branch_script (cx : NodeContext) : list string :=
  match script cx with Some ((_ :: _) as l) => l | _ => ["true"] end.

(** Run commands until one fails: did all succeed, and how many ran. *)
Fixpoint run_commands (work : string) (l : list string) (executed : Z) : M W (bool * Z) :=
  match l with
  | [] => mret (true, executed)
  | c :: l' =>
      rc ← sv_branch_command svc work c;
      if rc =? 0 then run_commands work l' (executed + 1) else mret (false, executed + 1)
  end.

Definition marker (id : string) (passed : bool) : CriterionResult :=
  mkResult id (Some K_command) passed f1 None None None None "" false f0.

Definition projected_spend (b : BranchState) (len : Z) : result Spend :=
  new_Spend (mkSpend (s_attempts (b_spent b) + 1) (s_tool_calls (b_spent b) + len) (s_tokens (b_spent b))
    (s_wall_clock_s (b_spent b)) (s_cost_usd (b_spent b) ⊕ dec 1 100 ⊗ Z2f (1 + len)) 0).

(** Its results and whether it succeeded: a decomposition branch scores the
    criteria it owns, a portfolio branch only its own exit. *)
Definition score_branch (s : RunState) (work : string) (b : BranchState) (ran : bool)
    : M W (list CriterionResult * bool) :=
  if decide (b_kind b = BK_decomposition) then
    rs ← mapM_ (sv_score_owned svc work)
           (List.filter (λ c, bool_decide (c_id c ∈ b_owned_criteria b)) (criteria s));
    mret (rs, ran && forallb (λ r, negb (f1 <=?. r_weight r) || r_passed r) rs)
  else mret ([marker "branch-ok" ran], ran).

(** One dispatched or running branch: the branch after it, the meter, and the
    attempts it is charged. *)
Definition run_branch (s : RunState) (cx : NodeContext) (m : AttemptMeter) (b : BranchState)
    : M W (BranchState * AttemptMeter * Z) :=
  let work := cx_workdir cx +:+ "/" +:+ branch_id b in
  _ ← sv_make_branch_dir svc work;
  let commands := branch_script cx in
  projected ← lift (projected_spend b (Z.of_nat (length commands)));
  match budget_excess (b_budget b) projected default_Reservation default_Reservation with
  | Some _ =>
      mret (b <| b_status := timed_out |> <| b_results := [marker "branch-budget" false] |>
              <| b_workspace_ref := work |> <| b_spent := projected |> <| b_reserved := default_Reservation |>,
            charge m (s_tool_calls projected) (s_tokens projected) (s_cost_usd projected),
            s_attempts projected)
  | None =>
      t0 ← sv_monotonic svc;
      ran ← run_commands work commands 0;
      score_branch s work b ran.1 ≫= λ scored : list CriterionResult * bool,
      t1 ← sv_monotonic svc;
      let cost := dec 1 100 ⊗ Z2f (1 + ran.2) in
      sp ← lift (new_Spend (mkSpend 1 ran.2 0 (t1 ⊖ t0) cost 0));
      mret (b <| b_status := if scored.2 then succeeded else failed |>
              <| b_results := scored.1 |> <| b_cost_usd := Some cost |> <| b_workspace_ref := work |>
              <| b_spent := sp |> <| b_reserved := default_Reservation |>,
            charge m (s_tool_calls sp) (s_tokens sp) (s_cost_usd sp), s_attempts sp)
  end.

Fixpoint branches_loop (s : RunState) (cx : NodeContext) (m : AttemptMeter) (charged : Z)
    (bs : list BranchState) : M W (list BranchState * AttemptMeter * Z) :=
  match bs with
  | [] => mret ([], m, charged)
  | b :: bs' =>
      if bool_decide (b_status b ∈ [dispatched; running]) then
        r ← run_branch s cx m b;
        rest ← branches_loop s cx r.1.2 (charged + r.2) bs';
        mret (r.1.1 :: rest.1.1, rest.1.2, rest.2)
      else
        rest ← branches_loop s cx m charged bs';
        mret (b :: rest.1.1, rest.1.2, rest.2)
  end.

Definition solve_branches (s : RunState) (cx : NodeContext) (attempt : Z) : M W NodeOutcome :=
  m ← meter_open svc s (Some default_Reservation);
  r ← branches_loop s cx m 0 (branches s);
  let retire := λ s, s <| reserved := default_Reservation |> <| branches := r.1.1 |> in
  let tref := cx_run_id cx +:+ "/branches-" +:+ pretty attempt in
  preflight svc r.1.2 r.2 0 ≫= λ exhausted : option dimension, match exhausted with
  | Some d =>
      sig ← signal svc src_solver ("parent budget exceeded by branches: " +:+ dimension_str d) (Some F_budget);
      close_failed svc s r.1.2 sig attempt r.2 (Some (fmt "budget exceeded: {}" [FS (dimension_str d)]))
        (λ s, (retire s) <| transcript_ref := Some tref |>)
  | None =>
      close_completed svc s r.1.2 attempt r.2 tref None
        (Some (fmt "ran {} branches" [FZ (Z.of_nat (length r.1.1))])) retire
  end.

(** ** nodes/solve.py *)

(** No branch and no applicable skill: the observe-act loop, or a script. *)
Definition solve_unassisted (s : RunState) (cx : NodeContext) (attempt : Z) : M W NodeOutcome :=
  if bool_decide (script cx = None) && strategy_in [S_scratch] s && has_model cx && has_tools cx
     && has_transcripts cx
  then solve_scratch_observe_act s cx attempt
  else
    resolve_script s cx ≫= λ resolved : option (list string), match resolved with
    | None =>
        m ← meter_open svc s None;
        sig ← signal svc src_solver
          ("environment: " +:+ "scratch solving requires a model client; set RECERTIA_MODEL_PROVIDER and credentials (or --model provider:id), or pass an explicit script / RECERTIA_ALLOW_STUB_MODEL=1 for offline demos")
          (Some F_environment);
        close_failed svc s m sig attempt 1 (Some (lit "scratch requires a configured model")) no_update
    | Some l =>
        if has_transcripts cx && has_tools cx then solve_script_via_tools s cx attempt l
        else solve_legacy_script s cx attempt l
    end.

Definition solve (s : RunState) (cx : NodeContext) : M W NodeOutcome :=
  let attempt := attempt_no s + 1 in
  if existsb (λ b, bool_decide (b_status b = dispatched)) (branches s) then solve_branches s cx attempt
  else
    match has_applicator cx && strategy_in [S_apply; S_adapt] s && has_store cx, chosen s with
    | true, Some c => solve_via_applicator s cx attempt c
    | _, _ => solve_unassisted s cx attempt
    end.
End Solve.

(** ** What a solve hop leaves *)

(** The fields no solve path writes. *)
Definition solve_frame (s s' : RunState) : Prop :=
  run_id s' = run_id s ∧ budget s' = budget s ∧ task s' = task s ∧ arm s' = arm s ∧ criteria s' = criteria s ∧
  strategy s' = strategy s ∧ workspace_snapshots s' = workspace_snapshots s ∧ results s' = results s ∧
  results_history s' = results_history s ∧ merge_audits s' = merge_audits s ∧ route_log s' = route_log s ∧
  terminal s' = terminal s ∧ s_versions_written (spent s') = s_versions_written (spent s).

(** The outcome of an attempt charged [n] times. *)
Definition attempt_closed (s : RunState) (n : Z) (o : NodeOutcome) : Prop :=
  attempt_no (o_state o) = attempt_no s + 1 ∧ s_attempts (spent (o_state o)) = s_attempts (spent s) + n ∧
  solve_frame s (o_state o) ∧
  ((o_route o = Some pre_validation_failure_signal ∧ is_Some (failure_signal (o_state o))) ∨
   (o_route o = Some attempt_completed ∧ failure_signal (o_state o) = None ∧
    is_Some (transcript_ref (o_state o)))).

Definition no_dispatched (s : RunState) : Prop :=
  Forall (λ b, b_status b ≠ dispatched) (branches s).

(** An update a closing applies: it writes none of the framed fields. *)
Definition tame (upd : RunState → RunState) : Prop :=
  ∀ s, attempt_no (upd s) = attempt_no s ∧ spent (upd s) = spent s ∧ failure_signal (upd s) = failure_signal s ∧
       solve_frame s (upd s).

Lemma tame_id : tame no_update.
Proof. intros s. by split_and!. Qed.
Lemma tame_transcript t : tame (set_transcript t).
Proof. intros s. by split_and!. Qed.

Section SolveLemmas.
  Context {W : Type} (svc : Services W).
  Local Notation opened s m := (m_committed m = spent s).

Lemma failed_closed s m sig n note upd w w' o :
  opened s m → tame upd →
  close_failed svc s m sig (attempt_no s + 1) n note upd w = (w', Ok o) →
  attempt_closed s n o ∧ ∃ s1, branches s1 = branches s ∧ o_state o = upd s1.
Proof.
  intros Hm Ht H. apply close_failed_Ok in H as (sp & E & Hr & Ha & Hv). rewrite Hm in *. unfold attempt_closed.
  rewrite E. destruct (Ht (s <| attempt_no := attempt_no s + 1 |> <| spent := sp |>
    <| failure_signal := Some sig |>)) as (T1 & T2 & T3 & T4).
  rewrite T1, T2, T3. split; [|eexists; split; [|reflexivity]; done]. split_and!; try done; [|left; by eauto].
  unfold solve_frame in *. simpl in T4. rewrite T2 in *. simpl in *. destruct_and!; split_and!; try done. all: congruence.
Qed.

Lemma completed_closed s m n tref desc note upd w w' o :
  opened s m → tame upd → (∀ s, transcript_ref (upd s) = transcript_ref s) →
  close_completed svc s m (attempt_no s + 1) n tref desc note upd w = (w', Ok o) →
  attempt_closed s n o ∧ ∃ s1, branches s1 = branches s ∧ o_state o = upd s1.
Proof.
  intros Hm Ht Htr H. apply close_completed_Ok in H as (sp & arts & E & Hr & Ha & Hv). rewrite Hm in *.
  unfold attempt_closed. rewrite E.
  set (s1 := s <| attempt_no := attempt_no s + 1 |> <| spent := sp |> <| transcript_ref := Some tref |>
    <| artifacts := arts |> <| failure_signal := None |>).
  destruct (Ht s1) as (T1 & T2 & T3 & T4).
  rewrite T1, T2, T3. split; [|by exists s1]. split_and!; try done; [|right; rewrite Htr; simpl; by eauto].
  unfold solve_frame in *. simpl in T4. rewrite T2 in *. simpl in *. destruct_and!; split_and!; try done. all: congruence.
Qed.

(** Closing without touching the branches. *)
Definition plain_close (s : RunState) (o : NodeOutcome) : Prop :=
  attempt_closed s 1 o ∧ branches (o_state o) = branches s.

Lemma failed_plain s m sig note upd w w' o :
  opened s m → tame upd → (∀ s, branches (upd s) = branches s) →
  close_failed svc s m sig (attempt_no s + 1) 1 note upd w = (w', Ok o) → plain_close s o.
Proof.
  intros Hm Ht Hb H. destruct (failed_closed _ _ _ _ _ _ _ _ _ Hm Ht H) as [H1 (s1 & E1 & E2)].
  split; [done|]. by rewrite E2, Hb.
Qed.

Lemma completed_plain s m tref desc note upd w w' o :
  opened s m → tame upd → (∀ s, transcript_ref (upd s) = transcript_ref s) →
  (∀ s, branches (upd s) = branches s) →
  close_completed svc s m (attempt_no s + 1) 1 tref desc note upd w = (w', Ok o) → plain_close s o.
Proof.
  intros Hm Ht Htr Hb H. destruct (completed_closed _ _ _ _ _ _ _ _ _ _ Hm Ht Htr H) as [H1 (s1 & E1 & E2)].
  split; [done|]. by rewrite E2, Hb.
Qed.

Ltac close_plain :=
  match goal with
  | H : close_failed _ _ _ _ _ _ _ _ _ = (_, Ok _) |- _ =>
      eapply failed_plain in H; [exact H|done|done || apply tame_id || apply tame_transcript|done]
  | H : close_completed _ _ _ _ _ _ _ _ _ _ = (_, Ok _) |- _ =>
      eapply completed_plain in H; [exact H|done|done || apply tame_id|done|done]
  end.

Lemma script_loop_closed s cx m op_seq l w w' o :
  opened s m → script_loop svc s cx (attempt_no s + 1) m op_seq l w = (w', Ok o) → plain_close s o.
Proof.
  revert m op_seq w. induction l as [|c l IH]; intros m op_seq w Hm H; simpl in H.
  - inv_ok. close_plain.
  - apply M_bind_Ok in H as ([d|] & w1 & _ & H).
    + inv_ok. close_plain.
    + apply M_bind_Ok in H as (r & w2 & _ & H). apply M_bind_Ok in H as (u & w3 & _ & H).
      destruct (negb _); [inv_ok; close_plain|]. eapply IH; [|exact H]. done.
Qed.

Lemma legacy_loop_closed s cx m op_seq l w w' o :
  opened s m → legacy_loop svc s cx (attempt_no s + 1) m op_seq l w = (w', Ok o) → plain_close s o.
Proof.
  revert m op_seq w. induction l as [|c l IH]; intros m op_seq w Hm H; simpl in H.
  - close_plain.
  - apply M_bind_Ok in H as (r & w2 & _ & H). destruct (negb _); [inv_ok; close_plain|].
    eapply IH; [|exact H]. done.
Qed.

Lemma scratch_loop_closed s cx m hist err step left w w' o :
  opened s m → scratch_loop svc s cx (attempt_no s + 1) m hist err step left w = (w', Ok o) → plain_close s o.
Proof.
  revert m hist err step w. induction left as [|left IH]; intros m hist err step w Hm H; simpl in H.
  - inv_ok. close_plain.
  - apply M_bind_Ok in H as ([d|] & w1 & _ & H); [inv_ok; close_plain|].
    apply M_bind_Ok in H as ([r|e] & w2 & _ & H); [|inv_ok; close_plain].
    destruct (st_empty r); [by eapply IH; [|exact H]|].
    destruct (st_refused r) as [why|]; [by eapply IH; [|exact H]|].
    apply M_bind_Ok in H as (u & w3 & _ & H).
    destruct (negb _); [by eapply IH; [|exact H]|]. inv_ok. close_plain.
Qed.

Lemma applicator_closed s cx c w w' o :
  solve_via_applicator svc s cx (attempt_no s + 1) c w = (w', Ok o) → plain_close s o.
Proof.
  unfold solve_via_applicator. intros H.
  apply M_bind_Ok in H as (m & w1 & Hm & H). apply meter_open_Ok in Hm as [Hm _].
  apply M_bind_Ok in H as (a & w2 & _ & H). apply M_bind_Ok in H as (u & w3 & _ & H).
  destruct (negb (ap_ok a)); inv_ok.
  - eapply failed_plain in H0; [exact H0|done| |done]. intros s0. by split_and!.
  - eapply completed_plain in H; [exact H|done| |done|done]. intros s0. by split_and!.
Qed.

Lemma new_Spend_Ok x y : new_Spend x = Ok y → y = x ∧ spend_valid x = true.
Proof. unfold new_Spend. destruct (spend_valid x); [|done]. by intros [= <-]. Qed.

Lemma run_branch_Ok s cx m b w w' r :
  0 ≤ s_attempts (b_spent b) →
  run_branch svc s cx m b w = (w', Ok r) →
  b_status r.1.1 ∉ [dispatched; running] ∧ m_committed r.1.2 = m_committed m ∧ 1 ≤ r.2.
Proof.
  intros Hb. unfold run_branch. intros H. apply M_bind_Ok in H as (u & w1 & _ & H).
  apply M_bind_Ok in H as (pr & w2 & Hp & H). apply lift_Ok in Hp as [-> Hp].
  unfold projected_spend in Hp. apply new_Spend_Ok in Hp as [-> _].
  destruct (budget_excess _ _ _ _); inv_ok; simpl.
  - split_and!; [|done|lia]. by apply (bool_decide_eq_false_1 _).
  - match goal with H : new_Spend _ = Ok _ |- _ => apply new_Spend_Ok in H as [-> _] end. simpl.
    split_and!; [|done|done]. case_match; by apply (bool_decide_eq_false_1 _).
Qed.

(** A branch after the loop: settled if it was due to run, else untouched. *)
Definition stepped (b b' : BranchState) : Prop :=
  (b_status b ∈ [dispatched; running] → b_status b' ∉ [dispatched; running]) ∧
  (b_status b ∉ [dispatched; running] → b' = b).

Definition attempts_ok (b : BranchState) : Prop := 0 ≤ s_attempts (b_spent b).

Lemma branches_loop_Ok s cx m n bs w w' r :
  Forall attempts_ok bs →
  branches_loop svc s cx m n bs w = (w', Ok r) →
  Forall2 stepped bs r.1.1 ∧ m_committed r.1.2 = m_committed m ∧ n ≤ r.2 ∧
  (Exists (λ b, b_status b = dispatched) bs → n + 1 ≤ r.2).
Proof.
  intros HF. revert m n w w' r. induction HF as [|b bs Hb _ IH]; intros m n w w' r H; cbn [branches_loop] in H.
  - inv_ok. simpl. split_and!; [constructor|done|lia|by inversion 1].
  - destruct (bool_decide (b_status b ∈ [dispatched; running])) eqn:E.
    + apply bool_decide_eq_true in E. apply M_bind_Ok in H as (x & w1 & Hx & H).
      apply M_bind_Ok in H as (y & w2 & Hy & H). apply ret_Ok in H as [_ ->].
      apply run_branch_Ok in Hx as (Hs & Hm & Hc); [|done].
      apply IH in Hy as (H1 & H2 & H3 & _). simpl. split_and!; [|congruence|lia|lia].
      constructor; [|done]. split; [done|]. by intros [].
    + apply bool_decide_eq_false in E. apply M_bind_Ok in H as (y & w2 & Hy & H). apply ret_Ok in H as [_ ->].
      apply IH in Hy as (H1 & H2 & H3 & H4). simpl. split_and!; [|done|done|].
      * constructor; [|done]. by split.
      * intros HE. apply Exists_cons in HE as [HE|HE]; [|by apply H4].
        exfalso. apply E. rewrite HE. left.
Qed.

Definition settled (s : RunState) : Prop := Forall (λ b, b_status b ∉ [dispatched; running]) (branches s).

Lemma settled_no_dispatched s : settled s → no_dispatched s.
Proof.
  unfold settled, no_dispatched. intros H. eapply Forall_impl; [exact H|].
  intros b Hb E. apply Hb. rewrite E. left.
Qed.

Lemma stepped_settled bs bs' : Forall2 stepped bs bs' → Forall (λ b, b_status b ∉ [dispatched; running]) bs'.
Proof.
  induction 1 as [|b b' bs bs' [H1 H2] _ IH]; constructor; [|done].
  destruct (decide (b_status b ∈ [dispatched; running])) as [E|E]; [by apply H1|]. by rewrite (H2 E).
Qed.

Lemma solve_branches_closed s cx w w' o :
  Forall attempts_ok (branches s) → ¬ no_dispatched s →
  solve_branches svc s cx (attempt_no s + 1) w = (w', Ok o) →
  (∃ n, 1 ≤ n ∧ attempt_closed s n o) ∧ settled (o_state o).
Proof.
  intros HF Hd. unfold solve_branches. intros H.
  apply M_bind_Ok in H as (m & w1 & Hm & H). apply meter_open_Ok in Hm as [Hm _].
  apply M_bind_Ok in H as (r & w2 & Hr & H).
  apply branches_loop_Ok in Hr as (Hst & Hm' & Hn & Hn'); [|done].
  apply stepped_settled in Hst. assert (1 ≤ r.2) as H1.
  { apply Hn'. apply not_Forall_Exists in Hd; [|intros b; apply _].
    eapply Exists_impl; [exact Hd|]. intros b Hb. by apply dec_stable. }
  apply M_bind_Ok in H as ([d|] & w3 & _ & H).
  - inv_ok. match goal with H : close_failed _ _ _ _ _ _ _ _ _ = _ |- _ => eapply failed_closed in H;
      [destruct H as [Hc (s1 & _ & Es)]|congruence|intros s0; by split_and!] end.
    split; [eauto|]. rewrite Es. exact Hst.
  - match goal with H : close_completed _ _ _ _ _ _ _ _ _ _ = _ |- _ => eapply completed_closed in H;
      [destruct H as [Hc (s1 & _ & Es)]|congruence|intros s0; by split_and!|done] end.
    split; [eauto|]. rewrite Es. exact Hst.
Qed.

Lemma solve_unassisted_closed s cx w w' o :
  solve_unassisted svc s cx (attempt_no s + 1) w = (w', Ok o) → plain_close s o.
Proof.
  unfold solve_unassisted. destruct (_ && has_transcripts cx); intros H.
  - unfold solve_scratch_observe_act in H. apply M_bind_Ok in H as (m & w1 & Hm & H).
    apply meter_open_Ok in Hm as [Hm _]. by eapply scratch_loop_closed.
  - apply M_bind_Ok in H as ([l|] & w1 & _ & H).
    + destruct (has_transcripts cx && has_tools cx);
        [unfold solve_script_via_tools in H|unfold solve_legacy_script in H];
        apply M_bind_Ok in H as (m & w2 & Hm & H); apply meter_open_Ok in Hm as [Hm _];
        [by eapply script_loop_closed|by eapply legacy_loop_closed].
    + apply M_bind_Ok in H as (m & w2 & Hm & H). apply meter_open_Ok in Hm as [Hm _]. inv_ok. close_plain.
Qed.

Lemma dispatched_spec s :
  existsb (λ b, bool_decide (b_status b = dispatched)) (branches s) = true ↔ ¬ no_dispatched s.
Proof.
  unfold no_dispatched. rewrite existsb_exists. split.
  - intros (b & Hin & Hb) HF. apply bool_decide_eq_true in Hb. rewrite Forall_forall in HF.
    apply (HF b); [by apply list_elem_of_In|done].
  - intros HF. apply not_Forall_Exists in HF; [|intros b; apply _].
    apply Exists_exists in HF as (b & Hin & Hb). exists b. split; [by apply list_elem_of_In|].
    apply bool_decide_eq_true. by apply dec_stable.
Qed.

Lemma solve_closed s cx w w' o :
  (¬ no_dispatched s → Forall attempts_ok (branches s)) → solve svc s cx w = (w', Ok o) →
  (∃ n, 1 ≤ n ∧ attempt_closed s n o) ∧ no_dispatched (o_state o) ∧
  (no_dispatched s → branches (o_state o) = branches s).
Proof.
  intros HF. unfold solve.
  destruct (existsb _ _) eqn:Ed; intros H.
  - apply dispatched_spec in Ed. apply solve_branches_closed in H as [? ?]; [|by apply HF|done].
    split_and!; [done|by apply settled_no_dispatched|done].
  - assert (no_dispatched s) as Hd.
    { destruct (decide (no_dispatched s)) as [|N]; [done|]. apply dispatched_spec in N. congruence. }
    assert (plain_close s o) as [Hc Hb].
    { destruct (has_applicator cx && _ && _); [destruct (chosen s)|]; simpl in H;
        eauto using applicator_closed, solve_unassisted_closed. }
    split; [exists 1; split; [lia|done]|]. split; [|done]. unfold no_dispatched. by rewrite Hb.
Qed.
End SolveLemmas.

(** Every solve hop charges the run at least one attempt, counts the attempt
    number up by one, never touches the budget, the criteria, earlier results
    or the version count, leaves no branch dispatched, and leaves by a route
    that is legal in the state it produced, whichever path ran and however
    it ended. *)
Theorem solve_charges_and_routes {W} (svc : Services W) s cx w w' o :
  Forall attempts_ok (branches s) → solve svc s cx w = (w', Ok o) →
  attempt_no (o_state o) = attempt_no s + 1 ∧
  s_attempts (spent s) + 1 ≤ s_attempts (spent (o_state o)) ∧
  solve_frame s (o_state o) ∧ no_dispatched (o_state o) ∧ leaves_legally N_solve o.
Proof.
  intros HF H. apply (solve_closed _ _ _ _ _ _ (λ _, HF)) in H as ((n & Hn & Ha & Hs & Hf & Hr) & Hd & _).
  split_and!; [done|lia|done|done|].
  destruct Hr as [[Hr [sg Hsg]]|(Hr & Hsg & [t Ht])]; (eapply leaves_by; [exact Hr|]);
    rewrite legal_edges; unfold _failure_signal_present, has_transcript; rewrite Hsg, ?Ht; left.
Qed.

(** ** Tool calls and the budget *)

Section ToolBudget.
  Context {W : Type} (svc : Services W).

Lemma preflight_None m w w' :
  preflight svc m 0 1 w = (w', Ok None) →
  s_tool_calls (m_committed m) + v_tool_calls (m_reserved m) + (m_tool_calls m + 1) ≤ max_tool_calls (m_budget m).
Proof.
  unfold preflight, used, elapsed_s, new_Reservation. intros H. inv_ok.
  destruct (reservation_valid _); [|discriminate]. inv_ok.
  match goal with H : None = _ |- _ => symmetry in H; pose proof (budget_excess_None _ _ _ _ D_tool_calls H) as X end.
  simpl in X. apply Z.ltb_ge in X. exact X.
Qed.

Lemma close_failed_tools s m sig a n note upd w w' o :
  (∀ s, spent (upd s) = spent s) → close_failed svc s m sig a n note upd w = (w', Ok o) →
  s_tool_calls (spent (o_state o)) = s_tool_calls (m_committed m) + m_tool_calls m.
Proof. unfold close_failed, commit, elapsed_s. intros Hu H. inv_ok. simpl. by rewrite Hu. Qed.

Lemma close_completed_tools s m a n tref desc note upd w w' o :
  (∀ s, spent (upd s) = spent s) → close_completed svc s m a n tref desc note upd w = (w', Ok o) →
  s_tool_calls (spent (o_state o)) = s_tool_calls (m_committed m) + m_tool_calls m.
Proof. unfold close_completed, commit, elapsed_s. intros Hu H. inv_ok. simpl. rewrite Hu. by destruct desc. Qed.

(** One dispatched command adds at most one call. *)
Hypothesis script_step_usage : ∀ k c w w' r,
  sv_run_script_step svc k c w = (w', Ok r) → u_tool_calls (run_usage r) ≤ 1.
Hypothesis scratch_step_usage : ∀ k h w w' r,
  sv_scratch_step svc k h w = (w', Ok r) → u_tool_calls (run_usage (st_run r)) ≤ 1.

Definition within (s : RunState) (m : AttemptMeter) : Prop :=
  m_committed m = spent s ∧ m_reserved m = reserved s ∧ m_budget m = budget s ∧
  s_tool_calls (spent s) + v_tool_calls (reserved s) + m_tool_calls m ≤ max_tool_calls (budget s).

(** Room for one more call. *)
Definition room (s : RunState) (m : AttemptMeter) : Prop :=
  within s m ∧ s_tool_calls (spent s) + v_tool_calls (reserved s) + m_tool_calls m + 1 ≤ max_tool_calls (budget s).

Lemma preflight_room s m w w' : within s m → preflight svc m 0 1 w = (w', Ok None) → room s m.
Proof.
  intros Hm Hp. apply preflight_None in Hp. split; [done|]. destruct Hm as (H1 & H2 & H3 & _).
  rewrite H1, H2, H3 in Hp. lia.
Qed.

Lemma room_idle s m t c : room s m → room s (charge m 0 t c).
Proof. intros [(H1 & H2 & H3 & H4) H5]. unfold room, within. simpl. split_and!; try done; lia. Qed.

Lemma room_charge s m n t c : room s m → n ≤ 1 → within s (charge m n t c).
Proof. intros [(H1 & H2 & H3 & H4) H5] Hn. unfold within. simpl. split_and!; try done; lia. Qed.

Lemma within_idle s m t c : within s m → within s (charge m 0 t c).
Proof. intros (H1 & H2 & H3 & H4). unfold within. simpl. split_and!; try done. lia. Qed.

Definition calls_fit (s : RunState) (o : NodeOutcome) : Prop :=
  s_tool_calls (spent (o_state o)) + v_tool_calls (reserved s) ≤ max_tool_calls (budget s).

Lemma within_fit s m o :
  within s m → s_tool_calls (spent (o_state o)) = s_tool_calls (m_committed m) + m_tool_calls m → calls_fit s o.
Proof. intros (H1 & H2 & H3 & H4) E. unfold calls_fit. rewrite E, H1. lia. Qed.

Ltac fit :=
  match goal with
  | H : close_failed _ _ _ _ _ _ _ _ _ = (_, Ok _) |- _ =>
      eapply within_fit; [|eapply close_failed_tools; [|exact H]; done]
  | H : close_completed _ _ _ _ _ _ _ _ _ _ = (_, Ok _) |- _ =>
      eapply within_fit; [|eapply close_completed_tools; [|exact H]; done]
  end; try done.

Lemma script_loop_fits s cx a m k l w w' o :
  within s m → script_loop svc s cx a m k l w = (w', Ok o) → calls_fit s o.
Proof.
  revert m k w. induction l as [|c l IH]; intros m k w Hm H; simpl in H.
  - inv_ok. fit.
  - apply M_bind_Ok in H as ([d|] & w1 & Hp & H); [inv_ok; fit|].
    apply M_bind_Ok in H as (r & w2 & Hr & H). apply M_bind_Ok in H as (u & w3 & _ & H).
    apply script_step_usage in Hr.
    assert (within s (charge_delta m (run_usage r))) by (eapply room_charge; [by eapply preflight_room|done]).
    destruct (negb _); [inv_ok; fit|]. by eapply IH.
Qed.

Lemma catch_inl {B} (m : M W B) w w' r :
  catch (x ← m; mret (inl x)) (λ e, mret (inr e)) w = (w', Ok (inl r : B + exn)) → m w = (w', Ok r).
Proof. unfold catch, mbind, M_bind, mret, M_ret. destruct (m w) as [w1 [x|e]]; by intros [= <- <-]. Qed.

Lemma scratch_loop_fits s cx a m hist err step left w w' o :
  within s m → scratch_loop svc s cx a m hist err step left w = (w', Ok o) → calls_fit s o.
Proof.
  revert m hist err step w. induction left as [|left IH]; intros m hist err step w Hm H; simpl in H.
  - inv_ok. fit.
  - apply M_bind_Ok in H as ([d|] & w1 & Hp & H); [inv_ok; fit|].
    apply M_bind_Ok in H as ([r|e] & w2 & Hr & H); [|inv_ok; fit]. apply catch_inl, scratch_step_usage in Hr.
    destruct (st_empty r); [by eapply IH; [apply within_idle|exact H]|].
    destruct (st_refused r) as [why|]; [by eapply IH; [apply within_idle|exact H]|].
    apply M_bind_Ok in H as (u & w3 & _ & H).
    assert (within s (charge_delta (charge m 0 (st_prompt_tokens r + st_completion_tokens r) (st_cost_usd r))
      (run_usage (st_run r)))) by (eapply room_charge; [by eapply room_idle, preflight_room|done]).
    destruct (negb _); [by eapply IH; [|exact H]|]. inv_ok. fit.
Qed.
(** The tool-call budget is a hard limit on the scripted and observe-act
    paths: if the run's calls fit its budget before the attempt, they fit it
    after, however many commands the script or the model proposes, because
    each dispatch is admitted first (one command adds at most one call). *)
Theorem tool_calls_within_budget s cx a l w w' o :
  s_tool_calls (spent s) + v_tool_calls (reserved s) ≤ max_tool_calls (budget s) →
  (solve_script_via_tools svc s cx a l w = (w', Ok o) ∨ solve_scratch_observe_act svc s cx a w = (w', Ok o)) →
  calls_fit s o.
Proof.
  intros Hs [H|H]; [unfold solve_script_via_tools in H|unfold solve_scratch_observe_act in H];
    apply M_bind_Ok in H as (m & w1 & Hm & H); unfold meter_open in Hm; inv_ok;
    [eapply script_loop_fits|eapply scratch_loop_fits]; try exact H; unfold within; simpl;
    split_and!; try done; lia.
Qed.
End ToolBudget.

(** ** Concrete attempts *)

Definition w_state : RunState := demo_state "make output.txt" ["a"].
Definition w_tools : NodeContext :=
  mkContext "r1" 1 "/w" (Some ["touch output.txt"; "true"]) false false true false true false false false
    false false false false None.
Definition w_solved : NodeOutcome := outcome_or w_state (solve demo_services w_state w_tools tt).

Example solved_ref : transcript_ref (o_state w_solved) = Some "t" ∧ s_tool_calls (spent (o_state w_solved)) = 2.
Proof. vm_compute. done. Qed.

Lemma solve_charges_and_routes_witness : leaves_legally N_solve w_solved.
Proof.
  eapply (solve_charges_and_routes demo_services w_state w_tools tt tt); [constructor|].
  vm_compute. reflexivity.
Defined.

Lemma tool_calls_within_budget_witness : calls_fit w_state w_solved.
Proof.
  eapply (tool_calls_within_budget demo_services) with (cx := w_tools) (a := 1) (l := ["touch output.txt"; "true"])
    (w := tt) (w' := tt).
  - intros k c w w' r [= _ <-]. vm_compute. discriminate.
  - intros k h w w' r [= _ <-]. vm_compute. discriminate.
  - vm_compute. discriminate.
  - left. vm_compute. reflexivity.
Defined.
