(* ===== verification/NodesJudge.v ===== *)
(** * Scoring, merging and repair: validate, join, classify_failure, evolve

    nodes/validate.py, nodes/join.py, nodes/classify_failure.py and
    nodes/evolve.py.  Theorems: an unproven required criterion never gates a
    run and a proven one always does; a portfolio join selects one best
    branch; every verdict of [classify_failure] is consistent and picks the
    one legal route; [evolve] restores the clean snapshot and clears the
    failed attempt; and the join states the route table refuses. *)
From S2P Require Import Prelude PyStr Budgets Contracts Goals RouteTable NodeBase NodesPlan.
From Stdlib Require Import ZArith Lia.
Open Scope Z_scope.

(** [s[:n]] *)
Definition str_take (n : nat) (s : string) : string := String.substring 0 n s.

Section Judge.
  Context {W : Type} (svc : Services W).

(** ** contracts/criteria.py: [sensitivity_proof_binds] *)

Definition sensitivity_proof_binds (c : TaskCriterion) : bool :=
  match c_sensitivity_proof c with
  | None => false
  | Some p =>
      if negb (p_rejected p) || falsy (p_evidence_hash p) then false
      else
        let checked := or_empty (p_checked_against p) in
        if negb (String.prefix "sha256:" checked) then false
        else String.eqb (or_empty (p_evidence_hash p))
               (sv_evidence_hash svc c (String.substring 7 (String.length checked - 7) checked))
  end.

(** validation/judge.py *)
Definition assert_distinct_lenses (cs : list TaskCriterion) : result unit :=
  let lenses := map c_lens (List.filter (λ c, bool_decide (c_kind c = K_judge)) cs) in
  raise_unless (bool_decide (NoDup lenses)) ValueError.

(** ** nodes/validate.py *)

Definition actual (r : CriterionResult) : string := if r_passed r then "pass" else "fail".

(** One scored criterion: the recorded result, a downgrade note, and whether
    a proven required criterion failed. *)
Definition score_one (op_seq : Z) (work : string) (c : TaskCriterion)
    : M W (CriterionResult * list string * bool) :=
  r ← sv_score svc op_seq work c;
  if is_required c && negb (is_required c && sensitivity_proof_binds c) then
    mret (r <| r_passed := true |>
            <| r_output_excerpt := str_take 2000 ("[advisory] actual=" +:+ actual r +:+ "; " +:+ r_output_excerpt r) |>,
          [c_id c +:+ ": required, no valid sensitivity_proof -> advisory (actual=" +:+ actual r +:+ ")"], false)
  else mret (r, [], is_required c && negb (r_passed r)).

Fixpoint score_from (op_seq : Z) (work : string) (cs : list TaskCriterion)
    : M W (list CriterionResult * list string * bool) :=
  match cs with
  | [] => mret ([], [], false)
  | c :: cs' =>
      x ← score_one op_seq work c;
      xs ← score_from (op_seq + 1) work cs';
      mret (x.1.1 :: xs.1.1, x.1.2 ++ xs.1.2, x.2 || xs.2)
  end.

Definition score_criteria (s : RunState) (cx : NodeContext) (op_offset : Z)
    : M W (list CriterionResult * option FailureSignal * list string) :=
  _ ← lift (assert_distinct_lenses (criteria s));
  score_from op_offset (cx_workdir cx) (criteria s) ≫= λ r : list CriterionResult * list string * bool,
  if r.2 then sig ← signal svc src_validator "a required, proven criterion failed" None;
              mret (r.1.1, Some sig, r.1.2)
  else mret (r.1.1, None, r.1.2).

Definition _CERT_OBS_OP_BASE : Z := 10000.

Fixpoint observe_from (op_seq : Z) (work : string) (cs : list TaskCriterion) : M W (list CriterionResult) :=
  match cs with
  | [] => mret []
  | c :: cs' =>
      if bool_decide (c_kind c = K_judge) then observe_from (op_seq + 1) work cs'
      else
        r ← catch (sv_score svc op_seq work c)
              (λ e, mret (mkResult (c_id c) (Some (c_kind c)) false (c_weight c) None None None None
                 (str_take 2000 ("certification observation error: " +:+ sv_exc_text svc e)) true f0));
        rs ← observe_from (op_seq + 1) work cs';
        mret (r :: rs)
  end.

Definition score_certification_observations (s : RunState) (cx : NodeContext) : M W (list CriterionResult) :=
  match chosen s with
  | Some c =>
      if has_store cx then
        sv_cert_criteria svc c ≫= λ found : option (list TaskCriterion), match found with
        | Some cs => observe_from _CERT_OBS_OP_BASE (cx_workdir cx) cs
        | None => mret []
        end
      else mret []
  | None => mret []
  end.

Definition notes_text (l : list string) : option text := if is_nil l then None else Some (lit (join_str "; " l)).

Definition validate (s : RunState) (cx : NodeContext) : M W NodeOutcome :=
  scored ← score_criteria s cx 0;
  observations ← score_certification_observations s cx;
  let '(rs, sig, downgrades) := scored in
  let failed_obs := map r_criterion_id (List.filter (λ o, negb (r_passed o)) observations) in
  let notes := downgrades ++
    (if is_nil failed_obs then []
     else ["certification_observations failed (advisory, does not gate the caller): " +:+ join_str "," failed_obs]) in
  let route := if negb (is_nil (branches s)) then has_branches
               else match sig with Some _ => no_branches_and_failing | None => no_branches_and_passing end in
  mret (mkOutcome
    (s <| results := rs |> <| results_history := results_history s ++ [rs] |> <| failure_signal := sig |>
       <| certification_observations := observations |>) (Some route) (notes_text notes)).

(** ** nodes/join.py *)

Definition LAYER_THRESHOLD : nat := 8.

Definition _portfolio_score (b : BranchState) : Z * float * float :=
  let req := Z.of_nat (length (List.filter (λ r, (f1 <=?. r_weight r) && r_passed r) (b_results b))) in
  let adv := fold_left (λ a r, a ⊕ r_weight r)
               (List.filter (λ r, r_passed r && (r_weight r <?. f1)) (b_results b)) f0 in
  let nonzero x := negb (feqb x f0) in
  let cost := match b_cost_usd b with
              | Some c => if nonzero c then c else s_cost_usd (b_spent b)
              | None => s_cost_usd (b_spent b)
              end in
  (req, adv, fopp cost).

(** Tuple comparison: the first components that differ decide. *)
Definition score_lt (x y : Z * float * float) : bool :=
  if negb (x.1.1 =? y.1.1) then x.1.1 <? y.1.1
  else if negb (feqb x.1.2 y.1.2) then x.1.2 <?. y.1.2
  else if negb (feqb x.2 y.2) then x.2 <?. y.2 else false.

(** [max(l, key=_portfolio_score)]: the first of the largest. *)
Definition max_branch (l : list BranchState) : option BranchState :=
  match l with
  | [] => None
  | b :: l' => Some (fold_left (λ best x, if score_lt (_portfolio_score best) (_portfolio_score x)
                                          then x else best) l' b)
  end.

Definition has_status (l : list BranchStatus) (b : BranchState) : bool := bool_decide (b_status b ∈ l).

Definition _select_portfolio_winner (bs : list BranchState) (eligible : option (list string)) : option BranchState :=
  let pick l := List.filter (λ b, match eligible with
                                  | Some ids => bool_decide (branch_id b ∈ ids) | None => true end) l in
  match pick (List.filter (has_status [succeeded]) bs) with
  | (_ :: _) as l => max_branch l
  | [] => max_branch (pick (List.filter (has_status [failed; timed_out]) bs))
  end.

(** The top half of the succeeded branches, at least two of them. *)
Definition survivors (bs : list BranchState) : option (list string) :=
  let ranked := sorted_by (λ a b, score_lt (_portfolio_score b) (_portfolio_score a))
                  (List.filter (has_status [succeeded]) bs) in
  if is_nil ranked then None
  else Some (map branch_id (take (Nat.max 2 (Nat.div2 (length ranked))) ranked)).

Definition audit_of (s : RunState) (cx : NodeContext) (received_ : nat) (missing_ : list string)
    (act : AuditAction) (batches_ : list (list string)) : MergeAudit :=
  mkAudit (cx_run_id cx +:+ "-join-" +:+ pretty (Z.of_nat (length (merge_audits s))))
    (Z.of_nat (length (branches s))) (Z.of_nat received_) missing_ act
    (LAYER_THRESHOLD <=? length (branches s))%nat batches_.

Definition arrived (b : BranchState) : bool := has_status [succeeded; failed] b.
Definition missing_of (s : RunState) : list string :=
  map branch_id (List.filter (λ b, negb (arrived b)) (branches s)).
Definition arrived_count (s : RunState) : nat := length (List.filter arrived (branches s)).

Definition add_audit (a : MergeAudit) (s : RunState) : RunState :=
  s <| merge_audits := merge_audits s ++ [a] |>.
Definition add_results (rs : list CriterionResult) (sig : option FailureSignal) (s : RunState) : RunState :=
  s <| results := rs |> <| results_history := results_history s ++ [rs] |> <| failure_signal := sig |>.

(** Whether the last score lets the run go on to distill. *)
Definition join_route (s : RunState) : option route_name :=
  Some (match failure_signal s with Some _ => otherwise | None => merge_complete_and_passing end).

Definition exclude_of (s : RunState) : list string := map branch_id (branches s) ++ [".fan-in"].

Definition join_gap (s : RunState) (cx : NodeContext) : M W NodeOutcome :=
  let missing_ := missing_of s in
  sig ← signal svc src_join ("merge gap: missing=[" +:+ join_str ", " (map py_repr missing_) +:+ "]") None;
  mret (mkOutcome
    ((add_audit (audit_of s cx (arrived_count s) missing_ flagged []) s)
       <| failure_signal := Some sig |>
       <| failure := Some (mkVerdict F_merge
            ["missing branches: [" +:+ join_str ", " (map py_repr missing_) +:+ "]"] None false false) |>)
    (Some otherwise) (Some (fmt "merge gap visible: missing={}" [FL missing_]))).

Definition select (keep : BranchState → bool) (b : BranchState) : BranchState := b <| b_selected := keep b |>.

Definition join_portfolio (s0 : RunState) (cx : NodeContext) (audit : MergeAudit) : M W NodeOutcome :=
  let is_layered := (LAYER_THRESHOLD <=? length (branches s0))%nat in
  let keep := if is_layered && strategy_in [S_portfolio] s0 then survivors (branches s0) else None in
  let s := match keep with
           | Some ids => s0 <| branches := map (λ b, if bool_decide (branch_id b ∈ ids) then b
                                                     else b <| b_selected := false |>) (branches s0) |>
           | None => s0
           end in
  let winner := _select_portfolio_winner (branches s) keep in
  let bs := match winner with
            | Some w => map (select (λ b, String.eqb (branch_id b) (branch_id w))) (branches s)
            | None => branches s
            end in
  let copied := match winner with
                | Some w => if String.eqb (b_workspace_ref w) "" then None else Some (b_workspace_ref w)
                | None => None
                end in
  _ ← match copied with Some p => sv_materialize_winner svc p (exclude_of s) | None => mret tt end;
  scored ← score_criteria s cx 0;
  let '(rs, sig, notes) := scored in
  let s1 := add_audit audit (add_results rs sig (s <| branches := bs |>)) in
  let s2 := match copied with
            | Some p => s1 <| artifacts := artifacts s ++ [mkArtifact A_file p (Some "materialized portfolio winner")] |>
            | None => s1
            end in
  mret (mkOutcome s2 (join_route s2)
    (Some (fmt "portfolio winner={} layered={} {}"
       [FO (branch_id <$> winner); FZ (b2Z is_layered); FL notes]))).

(** The merge of the branch workspaces, its [ValueError] caught. *)
Definition merge_branches (s : RunState) : M W (string * list (list string) + string) :=
  catch (r ← sv_materialize_decomposition svc
               (List.filter (λ b, bool_decide (b_kind b = BK_decomposition)) (branches s))
               (LAYER_THRESHOLD <=? length (branches s))%nat (exclude_of s);
         mret (inl r))
        (λ e, if decide (e = ValueError) then mret (inr (sv_exc_text svc e)) else raise e).

Definition join_decomposition (s : RunState) (cx : NodeContext) (audit : MergeAudit) : M W NodeOutcome :=
  if existsb (λ b, negb (has_status [succeeded] b)) (branches s) then
    sig ← signal svc src_solver "decomposition branch failed" None;
    mret (mkOutcome ((add_audit (audit <| action := audit_failed |>) s) <| failure_signal := Some sig |>)
      (Some otherwise) (Some (lit "decomposition incomplete")))
  else
    merge_branches s ≫= λ merged : string * list (list string) + string, match merged with
    | inr why =>
        sig ← signal svc src_join why None;
        mret (mkOutcome ((add_audit (audit <| action := audit_failed |>) s) <| failure_signal := Some sig |>)
          (Some otherwise) (Some (lit "decomposition merge conflict")))
    | inl (merged_ref, groups) =>
        scored ← score_criteria s cx 0;
        let '(rs, sig, notes) := scored in
        let s1 := (add_audit (audit <| batches := groups |>) (add_results rs sig s))
          <| artifacts := artifacts s ++ [mkArtifact A_file merged_ref (Some "materialized decomposition output")] |> in
        mret (mkOutcome s1 (join_route s1) (Some (fmt "decomposition merge complete {}" [FL notes])))
    end.

Definition join (s : RunState) (cx : NodeContext) : M W NodeOutcome :=
  if negb (is_nil (missing_of s)) then join_gap s cx
  else
    let audit := audit_of s cx (arrived_count s) [] proceeded [] in
    if strategy_in [S_portfolio] s || existsb (λ b, bool_decide (b_kind b = BK_portfolio)) (branches s)
    then join_portfolio s cx audit
    else join_decomposition s cx audit.

(** ** nodes/classify_failure.py *)

Definition verdict_of (c : FailureClass) (ev : list string) (skill : option (string * Z)) (trust esc : bool)
    : FailureVerdict := mkVerdict c ev skill trust esc.

(** [sqlite3.Error] is caught: the history only sharpens the verdict. *)
Definition _affordances_name_a_tool (detail : string) : M W bool :=
  catch
    (names ← sv_affordance_names svc;
     anyM (λ name, sv_affordance_flaky svc name ≫= λ flaky : bool,
             if flaky && str_contains name detail then mret true
             else sv_affordance_signature svc name detail) names)
    (λ e, if decide (e = SqliteError) then mret false else raise e).

Definition _is_tool_failure (cx : NodeContext) (detail : string) : M W bool :=
  if negb (has_tools cx) && negb (has_affordances cx) then mret true
  else
    (if has_tools cx
     then names ← sv_tool_names svc;
          anyM (λ name, sv_tool_is_flaky svc name ≫= λ flaky : bool,
                  if flaky && str_contains name detail then mret true
                  else sv_tool_signature svc name detail) names
     else mret false) ≫= λ by_tools : bool,
    if by_tools then mret true
    else
      (if has_affordances cx then _affordances_name_a_tool detail else mret false) ≫= λ by_history : bool,
      if by_history then mret true
      else mret (str_contains "tool=" detail || str_contains "flaky" (str_lower detail)).

Definition _is_environment_failure (detail : string) : bool :=
  String.prefix "environment:" detail || str_contains "before first productive" detail.

Definition failed_ids (s : RunState) : list string :=
  map r_criterion_id (List.filter (λ r, negb (r_passed r)) (results s)).

Definition unrejecting (c : TaskCriterion) : bool :=
  match c_sensitivity_proof c with Some p => negb (p_rejected p) | None => false end.

Definition _has_invalid_sensitivity_proof (s : RunState) : bool :=
  existsb (λ c, bool_decide (c_id c ∈ failed_ids s) && is_required c && unrejecting c) (criteria s).

Definition _invalid_proof_evidence (s : RunState) : list string :=
  map (λ c, c_id c +:+ ": sensitivity_proof.rejected=False (does not reject its own negative fixture)")
    (List.filter (λ c, bool_decide (c_id c ∈ failed_ids s) && unrejecting c) (criteria s)).

Definition skill_of (c : SkillCandidateRef) : string * Z := (cand_skill_id c, cand_version c).

Definition hint_budget (sig : FailureSignal) : bool := bool_decide (sig_class_hint sig = Some F_budget).
Definition budget_text (sig : FailureSignal) : bool := str_contains "budget exhausted" (sig_detail sig).

(** The taxonomy's if/elif chain. *)
Definition failure_verdict (s : RunState) (cx : NodeContext) (sig : FailureSignal) : M W FailureVerdict :=
  let detail := sig_detail sig in
  let solver := bool_decide (sig_source sig = src_solver) in
  if hint_budget sig || (max_attempts (budget s) <=? s_attempts (spent s)) || budget_text sig then
    mret (verdict_of F_budget
      [if hint_budget sig || budget_text sig then detail
       else "spent.attempts=" +:+ pretty (s_attempts (spent s)) +:+ " >= budget.max_attempts=" +:+
            pretty (max_attempts (budget s))] None false false)
  else if bool_decide (sig_source sig = src_join) then mret (verdict_of F_merge [detail] None false false)
  else
    (if solver then _is_tool_failure cx detail else mret false) ≫= λ tool : bool,
    if tool then mret (verdict_of F_tool [detail] None false false)
    else if solver && str_contains "claim timeout" (str_lower detail)
    then mret (verdict_of F_merge [detail] None false false)
    else if solver && _is_environment_failure detail
    then mret (verdict_of F_environment [detail] None false false)
    else if solver then mret (verdict_of F_tool [detail] None false false)
    else if _has_invalid_sensitivity_proof s
    then mret (verdict_of F_criteria (_invalid_proof_evidence s) None false true)
    else
      match chosen s, results s with
      | Some c, [] =>
          if bool_decide (sig_source sig = src_validator)
          then mret (verdict_of F_retrieval [detail] (Some (skill_of c)) true false)
          else mret (verdict_of F_execution [detail] (Some (skill_of c)) true false)
      | _, _ =>
          mret (verdict_of F_execution (if is_nil (failed_ids s) then [detail] else failed_ids s)
            (skill_of <$> chosen s) true false)
      end.

Definition class_str (c : FailureClass) : string :=
  match c with
  | F_environment => "environment" | F_tool => "tool" | F_retrieval => "retrieval" | F_plan => "plan"
  | F_execution => "execution" | F_criteria => "criteria" | F_budget => "budget" | F_merge => "merge"
  end.

Definition classify_failure (s : RunState) (cx : NodeContext) : M W NodeOutcome :=
  match failure_signal s with
  | None => raise ValueError
  | Some sig =>
      v ← failure_verdict s cx sig;
      _ ← lift (raise_unless (is_consistent v) AssertionError);
      let s' := s <| failure := Some v |> in
      match legal_routes N_classify_failure s' with
      | [r] => mret (mkOutcome s' (Some (predicate_name r)) (Some (fmt "classified as {!r}" [FR (class_str (failure_class v))])))
      | _ => raise AssertionError
      end
  end.

(** ** nodes/evolve.py *)

Record Move := mkMove {
  mv_name : string; mv_approach : string; mv_reason : text; mv_strategy : option Strategy; mv_drop : bool }.

Definition _current_approach (s : RunState) : string :=
  match chosen s with
  | Some c => "skill:" +:+ skill_ref c
  | None => "strategy:" +:+ default "scratch" (strategy_str <$> strategy s)
  end.

Definition _repair_move (fc : FailureClass) (s : RunState) : Move :=
  let approach := _current_approach s in
  match fc with
  | F_environment => mkMove "repair_environment" approach
      (lit "environment failure: keep strategy, repair workspace via restore") (strategy s) false
  | F_tool => mkMove "retry_backoff" approach
      (lit "tool failure: retry same approach after restore (backoff is temporal)") (strategy s) false
  | F_retrieval => mkMove "drop_and_rereetrieve" "scratch"
      (lit "retrieval failure: drop candidate, fall back to scratch") (Some S_scratch) true
  | F_plan =>
      let next := if strategy_in [S_scratch] s then S_adapt else S_scratch in
      mkMove "switch_strategy" (strategy_str next)
        (fmt "plan failure: switch strategy {} → {}" [FO (strategy_str <$> strategy s); FS (strategy_str next)])
        (Some next) (strategy_in [S_apply] s)
  | F_execution => mkMove "patch_artifacts" approach
      (lit "execution failure: restore and retry with same strategy (patch via criteria)") (strategy s) false
  | F_merge => mkMove "redispatch_serial" approach
      (lit "merge failure: re-dispatch from snapshot, serialised") (strategy s) false
  | F_criteria => mkMove "noop_restore" approach
      (fmt "no evolve move for class {}; restore only" [FS "criteria"]) (strategy s) false
  | F_budget => mkMove "noop_restore" approach
      (fmt "no evolve move for class {}; restore only" [FS "budget"]) (strategy s) false
  end.

(** The first recorded dead end that still applies to the approach. *)
Fixpoint first_dead_end (cases : list (option string * string)) (approach : string) : M W (option string) :=
  match cases with
  | [] => mret None
  | (None, _) :: cases' => first_dead_end cases' approach
  | (Some de, why) :: cases' =>
      sv_approach_applies svc de approach ≫= λ applies : bool,
      if applies then mret (Some why) else first_dead_end cases' approach
  end.

Definition _suppress_repeated_approach (s : RunState) (cx : NodeContext) (approach : string) : M W (option Move) :=
  if has_episodic cx then
    cases ← sv_dead_ends svc (task_class (task s));
    hit ← first_dead_end cases approach;
    mret ((λ why, mkMove "avoid_dead_end" "scratch"
            (fmt "suppressing approach {!r}: dead end {!r}" [FR approach; FR why]) (Some S_scratch) true) <$> hit)
  else mret None.

Definition why_failed (s : RunState) (fc : string) : string :=
  match failure_signal s with
  | Some sig => sig_detail sig
  | None => match failure s with Some (mkVerdict _ (e :: _) _ _ _) => e | _ => fc end
  end.

(** The move after the published patch template, if one matches. *)
Definition with_template (s : RunState) (cx : NodeContext) (fc : FailureClass) (mv : Move) : M W Move :=
  if has_patch_templates cx then
    t ← sv_template_for svc (why_failed s (class_str fc)) (class_str fc);
    mret (match t with
          | Some id => mkMove ("apply_template:" +:+ id) (mv_approach mv)
                         (fmt "apply published template {}" [FS id]) (strategy s) false
          | None => mv
          end)
  else mret mv.

Definition is_chosen (s : RunState) (c : SkillCandidateRef) : bool :=
  match chosen s with Some d => cand_eqb c d | None => false end.

(** The state update of a move on the restored workspace. *)
Definition apply_move (s : RunState) (snaps : list WorkspaceSnapshot) (mv : Move) : RunState :=
  let s1 := s <| workspace_snapshots := snaps |> <| failure_signal := None |> <| transcript_ref := None |> in
  let s2 := match mv_strategy mv with
            | Some st => s1 <| strategy := Some st |> <| strategy_reason := Some (mv_reason mv) |>
            | None => s1
            end in
  if mv_drop mv then
    s2 <| chosen := None |>
       <| bundle := (bundle s) <| skills := List.filter (λ c, negb (is_chosen s c)) (skills (bundle s)) |> |>
  else s2.

Definition no_progress (s : RunState) : bool := last_two_equal (results_history s).

Definition evolve (s : RunState) (cx : NodeContext) : M W NodeOutcome :=
  match workspace_snapshots s with
  | [] => raise ValueError
  | clean :: others =>
      _ ← sv_restore svc (snapshot_ref clean);
      let fc := match failure s with Some f => failure_class f | None => F_execution end in
      let mv0 := _repair_move fc s in
      suppressed_ ← _suppress_repeated_approach s cx (mv_approach mv0);
      mv ← with_template s cx fc (default mv0 suppressed_);
      mret (mkOutcome (apply_move s ((clean <| restored := true |>) :: others) mv) (Some always)
        (Some (fmt "no_progress={} restored={!r}; move={}; approach={}"
          [FZ (b2Z (no_progress s)); FR (snapshot_ref clean); FS (mv_name mv); FS (mv_approach mv)])))
  end.

End Judge.

(** ** Scoring *)

(** What [score_criteria] records for a criterion whose scorer said [r], and
    whether that criterion gates the run. *)
Definition proven {W} (svc : Services W) (c : TaskCriterion) : bool := sensitivity_proof_binds svc c.
Definition recorded {W} (svc : Services W) (c : TaskCriterion) (r : CriterionResult) : CriterionResult :=
  if is_required c && negb (proven svc c) then
    r <| r_passed := true |>
      <| r_output_excerpt := str_take 2000 ("[advisory] actual=" +:+ actual r +:+ "; " +:+ r_output_excerpt r) |>
  else r.
Definition gates {W} (svc : Services W) (c : TaskCriterion) (r : CriterionResult) : Prop :=
  is_required c = true ∧ proven svc c = true ∧ r_passed r = false.

Definition by_scorer {W} (svc : Services W) (c : TaskCriterion) (r : CriterionResult) : Prop :=
  ∃ n d w w', sv_score svc n d c w = (w', Ok r).
Definition scorer_names_criteria {W} (svc : Services W) : Prop :=
  ∀ c r, by_scorer svc c r → r_criterion_id r = c_id c.

(** The raw results behind a score: one per criterion, in order, and the
    signal present exactly when one of them gates. *)
Definition scored_by {W} (svc : Services W) (cs : list TaskCriterion) (rs : list CriterionResult)
    (failing : bool) (raws : list CriterionResult) : Prop :=
  Forall2 (by_scorer svc) cs raws ∧ rs = zip_with (recorded svc) cs raws ∧
  (failing = true ↔ ∃ c r, (c, r) ∈ zip cs raws ∧ gates svc c r).

Section Scoring.
  Context {W : Type} (svc : Services W).

Lemma score_from_spec n d cs w w' rs notes b :
  score_from svc n d cs w = (w', Ok (rs, notes, b)) → ∃ raws, scored_by svc cs rs b raws.
Proof.
  revert n w w' rs notes b. induction cs as [|c cs IH]; intros n w w' rs notes b H; simpl in H.
  - inv_ok. exists []. split_and!; [constructor|done|]. split; [done|]. intros (c & r & Hin & _). inversion Hin.
  - apply M_bind_Ok in H as (x & w1 & Hx & H). apply M_bind_Ok in H as ([[rs' ns'] b'] & w2 & Hxs & H).
    apply IH in Hxs as (raws & HF & -> & Hb). inv_ok. unfold score_one in Hx.
    apply M_bind_Ok in Hx as (r & w3 & Hr & Hx). exists (r :: raws).
    assert (by_scorer svc c r) as Hby by (unfold by_scorer; eauto).
    split_and!; [by constructor| |].
    + simpl. f_equal. unfold recorded, proven in *.
      destruct (is_required c), (sensitivity_proof_binds svc c); simpl in Hx; inv_ok; done.
    + simpl. rewrite orb_true_iff, Hb. unfold gates, proven.
      assert (x.2 = true ↔ is_required c = true ∧ sensitivity_proof_binds svc c = true ∧ r_passed r = false) as ->.
      { destruct (is_required c), (sensitivity_proof_binds svc c), (r_passed r) eqn:Ep; simpl in Hx; rewrite ?Ep in Hx;
          inv_ok; simpl; rewrite ?Ep; naive_solver. }
      split.
      * intros [Hg|(c' & r' & Hin & Hg)]; [exists c, r|exists c', r']; (split; [|done]); [left|by right].
      * intros (c' & r' & Hin & Hg). apply elem_of_cons in Hin as [[= -> ->]|Hin]; [by left|right; eauto].
Qed.

Lemma score_criteria_spec s cx k w w' rs sig notes :
  score_criteria svc s cx k w = (w', Ok (rs, sig, notes)) →
  ∃ raws, scored_by svc (criteria s) rs (bool_decide (is_Some sig)) raws ∧
    (∀ x, sig = Some x → sig_source x = src_validator ∧ sig_class_hint x = None).
Proof.
  unfold score_criteria. intros H. apply M_bind_Ok in H as (u & w1 & _ & H).
  apply M_bind_Ok in H as ([[rs' ns'] b] & w2 & Hs & H). apply score_from_spec in Hs as [raws Hs]. exists raws.
  simpl in H. destruct b; unfold signal in H; inv_ok; split; try done; intros ? [= <-]; done.
Qed.

Lemma recorded_id c r : r_criterion_id (recorded svc c r) = r_criterion_id r.
Proof. unfold recorded. by destruct (_ && _). Qed.

(** A criterion's recorded result fails exactly when it gates or is not
    required and failed. *)
Lemma recorded_passed c r :
  r_passed (recorded svc c r) = r_passed r || (is_required c && negb (proven svc c)).
Proof. unfold recorded. destruct (is_required c && _); simpl; [by rewrite orb_true_r|by rewrite orb_false_r]. Qed.

Hypothesis names : scorer_names_criteria svc.

Lemma scored_zip cs rs b raws c :
  scored_by svc cs rs b raws → c ∈ cs → ∃ r, (c, r) ∈ zip cs raws ∧ recorded svc c r ∈ rs ∧ r_criterion_id r = c_id c.
Proof.
  intros (HF & -> & _) Hc. clear b. induction HF as [|c' r cs' raws' Hr HF IH]; [inversion Hc|].
  apply elem_of_cons in Hc as [->|Hc]; [exists r; split_and!; [left|left|by apply names]|].
  destruct (IH Hc) as (r' & ? & ? & ?). exists r'. split_and!; [by right|by right|done].
Qed.

Lemma zip_scored cs rs b raws x :
  scored_by svc cs rs b raws → x ∈ rs → ∃ c r, (c, r) ∈ zip cs raws ∧ c ∈ cs ∧ x = recorded svc c r ∧ r_criterion_id r = c_id c.
Proof.
  intros (HF & -> & _) Hx. clear b. induction HF as [|c' r cs' raws' Hr HF IH]; [inversion Hx|].
  apply elem_of_cons in Hx as [->|Hx]; [exists c', r; split_and!; [left|left|done|by apply names]|].
  destruct (IH Hx) as (c & r' & ? & ? & ? & ?). exists c, r'. split_and!; [by right|by right|done|done].
Qed.

(** With no gating criterion every required id is among the passed ones. *)
Lemma scored_clean_passes s rs raws :
  scored_by svc (criteria s) rs false raws → results s = rs → _required_criteria_pass s = true.
Proof.
  intros Hs Hr. unfold _required_criteria_pass. destruct (is_nil _); [done|].
  rewrite bool_decide_eq_true. intros i Hi. unfold required_ids in Hi.
  apply list_elem_of_fmap in Hi as (c & -> & Hc). apply list_elem_of_In, filter_In in Hc as [Hc Hreq].
  apply list_elem_of_In in Hc. destruct (scored_zip _ _ _ _ _ Hs Hc) as (r & Hz & Hin & Hid).
  unfold passed_ids. rewrite Hr. apply list_elem_of_fmap. exists (recorded svc c r).
  rewrite recorded_id, Hid. split; [done|]. apply list_elem_of_In, filter_In. split; [by apply list_elem_of_In|].
  rewrite recorded_passed, Hreq. simpl. destruct (proven svc c) eqn:Ep; simpl; [|by rewrite orb_true_r].
  rewrite orb_false_r. destruct (r_passed r) eqn:Er; [done|]. destruct Hs as (_ & _ & Hb).
  assert (false = true); [|done]. apply Hb. exists c, r. split; [done|]. by split_and!.
Qed.

(** With distinct ids, a gating criterion keeps its id out of them. *)
Lemma scored_gate_fails s rs raws :
  NoDup (map c_id (criteria s)) → scored_by svc (criteria s) rs true raws → results s = rs →
  _required_criteria_pass s = false.
Proof.
  intros HN Hs Hr. pose proof Hs as (_ & _ & Hb). destruct (proj1 Hb eq_refl) as (c & r & Hz & Hq & Hp & Hf).
  assert (c ∈ criteria s) as Hc by (by apply elem_of_zip_l in Hz).
  assert (c_id c ∈ required_ids s) as Hi.
  { apply list_elem_of_fmap. exists c. split; [done|]. by apply list_elem_of_In, filter_In, conj; [apply list_elem_of_In|]. }
  unfold _required_criteria_pass. destruct (required_ids s) as [|i0 l0] eqn:E0; [inversion Hi|]. simpl.
  apply bool_decide_eq_false. intros Hsub. apply Hsub in Hi. unfold passed_ids in Hi. rewrite Hr in Hi.
  apply list_elem_of_fmap in Hi as (x & Hx & Hin). apply list_elem_of_In, filter_In in Hin as [Hin Hpass].
  apply list_elem_of_In in Hin. destruct (zip_scored _ _ _ _ _ Hs Hin) as (c' & r' & Hz' & Hc' & -> & Hid').
  rewrite recorded_id, Hid' in Hx. destruct (zip_key_unique _ _ _ _ _ _ _ HN Hz Hz' Hx) as [-> ->].
  rewrite recorded_passed, Hf, Hp, andb_false_r in Hpass. discriminate.
Qed.
(** A criterion whose proof rejected nothing is advisory, so it never fails. *)
Lemma scored_no_invalid_proof s rs b raws :
  NoDup (map c_id (criteria s)) → scored_by svc (criteria s) rs b raws → results s = rs →
  _has_invalid_sensitivity_proof s = false.
Proof.
  intros HN Hs Hr. destruct (_has_invalid_sensitivity_proof s) eqn:E; [|done].
  apply existsb_exists in E as (c & Hc & E). apply list_elem_of_In in Hc.
  apply andb_true_iff in E as [E Hu]. apply andb_true_iff in E as [Hf Hq]. apply bool_decide_eq_true in Hf.
  unfold failed_ids in Hf. rewrite Hr in Hf. apply list_elem_of_fmap in Hf as (x & Hid & Hx).
  apply list_elem_of_In, filter_In in Hx as [Hx Hfail]. apply list_elem_of_In in Hx.
  destruct (zip_scored _ _ _ _ _ Hs Hx) as (c' & r' & Hz' & _ & -> & Hid').
  destruct (scored_zip _ _ _ _ _ Hs Hc) as (r & Hz & _ & _). rewrite recorded_id, Hid' in Hid.
  destruct (zip_key_unique _ _ _ _ _ _ _ HN Hz Hz' Hid) as [<- <-].
  assert (proven svc c = false) as Hp.
  { unfold proven, sensitivity_proof_binds. unfold unrejecting in Hu.
    destruct (c_sensitivity_proof c) as [p|]; [|done]. by rewrite Hu. }
  rewrite recorded_passed, Hq, Hp, orb_true_r in Hfail. discriminate.
Qed.
End Scoring.

(** ** validate *)

Section ValidateLemmas.
  Context {W : Type} (svc : Services W).

Definition validate_route (s : RunState) (sig : option FailureSignal) : route_name :=
  if negb (is_nil (branches s)) then has_branches
  else match sig with Some _ => no_branches_and_failing | None => no_branches_and_passing end.

(** What a scoring hop does to the state. *)
Lemma validate_Ok s cx w w' o :
  validate svc s cx w = (w', Ok o) →
  ∃ rs raws sig obs, scored_by svc (criteria s) rs (bool_decide (is_Some sig)) raws ∧
    (∀ x, sig = Some x → sig_source x = src_validator ∧ sig_class_hint x = None) ∧
    o_state o = s <| results := rs |> <| results_history := results_history s ++ [rs] |>
                  <| failure_signal := sig |> <| certification_observations := obs |> ∧
    o_route o = Some (validate_route s sig).
Proof.
  unfold validate. intros H. apply M_bind_Ok in H as ([[rs sig] notes] & w1 & Hs & H).
  apply M_bind_Ok in H as (obs & w2 & _ & H). apply score_criteria_spec in Hs as (raws & Hs & Hx). inv_ok.
  exists rs, raws, sig, obs. split_and!; try done. 
Qed.

Lemma has_branches_nil s : _has_branches s = negb (is_nil (branches s)).
Proof. unfold _has_branches. by destruct (branches s). Qed.

Lemma validate_leaves_legally s cx w w' o :
  scorer_names_criteria svc → validate svc s cx w = (w', Ok o) → leaves_legally N_validate o.
Proof.
  intros Hn H. apply validate_Ok in H as (rs & raws & sig & obs & Hs & _ & Hst & Hr).
  pose proof (legal_edges N_validate (o_state o)) as He. rewrite has_branches_nil, Hst in He. simpl in He.
  unfold validate_route in Hr. destruct (is_nil (branches s)); simpl in He, Hr;
    [destruct sig as [x|]|]; eapply leaves_by; try exact Hr; rewrite Hst, He; try left.
  - unfold no_signal, _failure_signal_present. simpl. rewrite andb_false_r. left.
  - rewrite bool_decide_false in Hs by (by intros [? ?]).
    rewrite (scored_clean_passes svc Hn _ rs raws); [left|exact Hs|done].
Qed.
End ValidateLemmas.

(** [validate] records one result per criterion, in order, from its scorer.
    A criterion whose sensitivity proof does not bind is recorded as passed
    and never gates; the run gets a failure signal exactly when some proven
    required criterion failed, never otherwise; the history gains exactly
    this score; and the route it asks for is legal, whether or not the run
    has branches, provided scorers label results with their criterion. *)
Theorem validate_gates_on_proven_failures {W} (svc : Services W) s cx w w' o :
  scorer_names_criteria svc → validate svc s cx w = (w', Ok o) →
  (∃ raws, Forall2 (by_scorer svc) (criteria s) raws ∧
     results (o_state o) = zip_with (recorded svc) (criteria s) raws ∧
     (failure_signal (o_state o) ≠ None ↔ ∃ c r, (c, r) ∈ zip (criteria s) raws ∧ gates svc c r)) ∧
  results_history (o_state o) = results_history s ++ [results (o_state o)] ∧
  leaves_legally N_validate o.
Proof.
  intros Hn H. pose proof (validate_leaves_legally _ _ _ _ _ _ Hn H) as Hl.
  apply validate_Ok in H as (rs & raws & sig & obs & (HF & -> & Hb) & _ & Hst & Hr).
  rewrite Hst. simpl. split; [|split; [done|exact Hl]]. exists raws. split_and!; [done|done|].
  rewrite <- Hb, bool_decide_eq_true. destruct sig; naive_solver.
Qed.

(** ** classify_failure *)

Section ClassifyLemmas.
  Context {W : Type} (svc : Services W).

(** The verdict is [criteria] only for a failed required criterion with a
    proof that rejected nothing; that one verdict is inconsistent; and at the
    attempt limit the class is [budget]. *)
Definition verdict_spec (s : RunState) (sig : FailureSignal) (v : FailureVerdict) : Prop :=
  is_consistent v = negb (bool_decide (failure_class v = F_criteria)) ∧
  (max_attempts (budget s) ≤ s_attempts (spent s) → failure_class v = F_budget) ∧
  (failure_class v = F_criteria → _has_invalid_sensitivity_proof s = true) ∧
  (sig_source sig = src_join → failure_class v = F_merge ∨ failure_class v = F_budget).

Lemma failure_verdict_Ok s cx sig w w' v :
  failure_verdict svc s cx sig w = (w', Ok v) → verdict_spec s sig v.
Proof.
  unfold failure_verdict. intros H.
  destruct (hint_budget sig || _ || _) eqn:Eb.
  { inv_ok. unfold verdict_spec. by split_and!; [| |done|right]. }
  apply orb_false_iff in Eb as [Eb _]. apply orb_false_iff in Eb as [_ Eb]. apply Z.leb_gt in Eb.
  assert (∀ u, is_consistent u = negb (bool_decide (failure_class u = F_criteria)) →
    (failure_class u = F_criteria → _has_invalid_sensitivity_proof s = true) →
    (sig_source sig = src_join → failure_class u = F_merge ∨ failure_class u = F_budget) →
    verdict_spec s sig u) as K.
  { intros u H1 H2 H3. unfold verdict_spec. split_and!; [done|lia|done|done]. }
  case_bool_decide as Ej; [inv_ok; apply K; by try left|].
  apply M_bind_Ok in H as (tool & w1 & _ & H).
  repeat (match type of H with context [if ?b then _ else _] => destruct b eqn:? end; try (inv_ok; by apply K)).
  all: destruct (chosen s), (results s); inv_ok; by apply K.
Qed.

(** Lookups that may only fail with the history's own [sqlite3.Error]. *)
Definition never_raises {A} (m : M W A) : Prop := ∀ w, ∃ w' a, m w = (w', Ok a).

Lemma anyM_total {A} (f : A → M W bool) l : (∀ x, never_raises (f x)) → never_raises (anyM f l).
Proof.
  intros Hf. induction l as [|x l IH]; intros w; simpl; [by eexists _, _|].
  destruct (Hf x w) as (w1 & b & E). unfold mbind, M_bind. rewrite E. destruct b; [by eexists _, _|apply IH].
Qed.

Lemma bind_total {A B} (m : M W A) (f : A → M W B) :
  never_raises m → (∀ a, never_raises (f a)) → never_raises (m ≫= f).
Proof. intros Hm Hf w. unfold mbind, M_bind. destruct (Hm w) as (w1 & a & ->). apply Hf. Qed.

Lemma ret_total {A} (a : A) : never_raises (mret a : M W A).
Proof. intros w. by eexists _, _. Qed.

(** A computation whose only exception is [sqlite3.Error]. *)
Definition only_sqlite {A} (m : M W A) : Prop :=
  ∀ w, ∃ w' r, m w = (w', r) ∧ match r with Ok _ => True | Err e => e = SqliteError end.

Lemma bind_only_sqlite {A B} (m : M W A) (f : A → M W B) :
  only_sqlite m → (∀ a, only_sqlite (f a)) → only_sqlite (m ≫= f).
Proof.
  intros Hm Hf w. unfold mbind, M_bind. destruct (Hm w) as (w1 & [a|e] & -> & Hr); [apply Hf|].
  by eexists _, _.
Qed.

Lemma anyM_only_sqlite {A} (f : A → M W bool) l : (∀ x, only_sqlite (f x)) → only_sqlite (anyM f l).
Proof.
  intros Hf. induction l as [|x l IH]; [by intros w; eexists _, _|]. apply bind_only_sqlite; [done|].
  intros [|]; [by intros w; eexists _, _|done].
Qed.

Hypothesis tool_names_ok : never_raises (sv_tool_names svc).
Hypothesis tool_flaky_ok : ∀ n, never_raises (sv_tool_is_flaky svc n).
Hypothesis tool_signature_ok : ∀ n d, never_raises (sv_tool_signature svc n d).
Hypothesis history_names_ok : only_sqlite (sv_affordance_names svc).
Hypothesis history_flaky_ok : ∀ n, only_sqlite (sv_affordance_flaky svc n).
Hypothesis history_signature_ok : ∀ n d, only_sqlite (sv_affordance_signature svc n d).

Lemma history_total detail : never_raises (_affordances_name_a_tool svc detail).
Proof.
  assert (only_sqlite (names ← sv_affordance_names svc;
     anyM (λ name, sv_affordance_flaky svc name ≫= λ flaky : bool,
             if flaky && str_contains name detail then mret true
             else sv_affordance_signature svc name detail) names)) as Ho.
  { apply bind_only_sqlite; [done|]. intros ns. apply anyM_only_sqlite. intros n. apply bind_only_sqlite; [done|].
    intros b. destruct (b && _); [|done]. intros w. by eexists _, _. }
  intros w. unfold _affordances_name_a_tool, catch. destruct (Ho w) as (w1 & [a|e] & -> & Hr); [by eexists _, _|].
  subst e. rewrite decide_True by done. by eexists _, _.
Qed.

Lemma is_tool_failure_total cx detail : never_raises (_is_tool_failure svc cx detail).
Proof.
  unfold _is_tool_failure. destruct (negb _ && negb _); [apply ret_total|].
  apply bind_total.
  { destruct (has_tools cx); [|apply ret_total]. apply bind_total; [done|]. intros ns. apply anyM_total. intros n.
    apply bind_total; [done|]. intros b. destruct (b && _); [apply ret_total|done]. }
  intros [|]; [apply ret_total|]. apply bind_total; [destruct (has_affordances cx); [apply history_total|apply ret_total]|].
  intros [|]; apply ret_total.
Qed.

Lemma failure_verdict_total s cx sig : never_raises (failure_verdict svc s cx sig).
Proof.
  unfold failure_verdict. destruct (_ || _ || _); [apply ret_total|]. case_bool_decide; [apply ret_total|].
  apply bind_total; [case_bool_decide; [apply is_tool_failure_total|apply ret_total]|]. intros tool.
  repeat match goal with |- never_raises (if ?b then _ else _) => destruct b; [apply ret_total|] end.
  destruct (chosen s), (results s); try apply ret_total. case_bool_decide; apply ret_total.
Qed.

Lemma retry_edge s r :
  legal_routes N_classify_failure s = [r] → predicate_name r = retry →
  ∃ f, failure s = Some f ∧ s_attempts (spent s) < max_attempts (budget s) ∧
    failure_class f ≠ F_criteria ∧ failure_class f ≠ F_budget.
Proof.
  intros Hl Hr. pose proof (legal_edges N_classify_failure s) as He. rewrite Hl in He.
  unfold edge in He. simpl in He. rewrite Hr in He. unfold _budget_remains_with_progress in He.
  destruct (failure s) as [f|]; [|discriminate]. destruct (decide _) as [|N]; [discriminate|].
  destruct (Z.leb_spec (max_attempts (budget s)) (s_attempts (spent s))); [discriminate|].
  exists f. split_and!; [done|lia|tauto|tauto].
Qed.

(** The verdict routes the run by the one legal route. *)
Lemma classify_routes s sig cx w w' v :
  failure_signal s = Some sig → failure_verdict svc s cx sig w = (w', Ok v) → is_consistent v = true →
  ∃ o r, classify_failure svc s cx w = (w', Ok o) ∧ o_state o = s <| failure := Some v |> ∧
    legal_routes N_classify_failure (o_state o) = [r] ∧ o_route o = Some (predicate_name r).
Proof.
  intros Hs Hv Hc. unfold classify_failure. rewrite Hs. unfold mbind, M_bind. rewrite Hv.
  rewrite Hc. simpl. set (s' := s <| failure := Some v |>).
  pose proof (legal_edges N_classify_failure s') as He.
  destruct (legal_routes N_classify_failure s') as [|r [|? ?]] eqn:El;
    [destruct (_budget_remains_with_progress s'); discriminate| |
     destruct (_budget_remains_with_progress s'); discriminate].
  eexists _, r. split_and!; [done|done|exact El|done].
Qed.
End ClassifyLemmas.

(** The [criteria] class cannot arise from scoring: after [validate], with
    distinct criterion ids, no failed required criterion has a proof that
    rejected nothing (such a criterion is advisory and recorded as passed),
    so classifying that failure never gives [criteria]. *)
Theorem criteria_class_unreachable {W} (svc : Services W) s cx w1 w1' o cx' w2 w2' o' v :
  scorer_names_criteria svc → NoDup (map c_id (criteria s)) →
  validate svc s cx w1 = (w1', Ok o) → classify_failure svc (o_state o) cx' w2 = (w2', Ok o') →
  failure (o_state o') = Some v → failure_class v ≠ F_criteria ∧ is_consistent v = true.
Proof.
  intros Hn HN Hv Hc Hf. apply validate_Ok in Hv as (rs & raws & sig & obs & Hs & _ & Hst & _).
  unfold classify_failure in Hc. destruct (failure_signal (o_state o)) as [x|]; [|discriminate].
  apply M_bind_Ok in Hc as (u & w3 & Hu & Hc). apply M_bind_Ok in Hc as (? & w4 & Hi & Hc).
  assert (u = v) as -> by (destruct (legal_routes _ _) as [|? []]; inv_ok; simpl in Hf; congruence).
  inv_ok. split; [|done]. intros E. apply failure_verdict_Ok in Hu as (_ & _ & Hx & _). apply Hx in E.
  rewrite (scored_no_invalid_proof svc Hn (o_state o) rs (bool_decide (is_Some sig)) raws) in E; [discriminate| | |];
    rewrite Hst; [exact HN|exact Hs|done].
Qed.

(** Given a failure signal and no failed required criterion whose proof
    rejected nothing, classification always completes: whatever the signal
    and the tool history say, even when the history database raises, it gives
    one consistent verdict and leaves by the one legal route.  It retries only
    below the attempt limit with a class that is neither [criteria] nor
    [budget], and at the limit the class is [budget]. *)
Theorem classify_failure_decides {W} (svc : Services W) s sig cx w :
  failure_signal s = Some sig → _has_invalid_sensitivity_proof s = false →
  never_raises (sv_tool_names svc) → (∀ n, never_raises (sv_tool_is_flaky svc n)) →
  (∀ n d, never_raises (sv_tool_signature svc n d)) → only_sqlite (sv_affordance_names svc) →
  (∀ n, only_sqlite (sv_affordance_flaky svc n)) → (∀ n d, only_sqlite (sv_affordance_signature svc n d)) →
  ∃ w' o v r, classify_failure svc s cx w = (w', Ok o) ∧ failure (o_state o) = Some v ∧ is_consistent v = true ∧
    legal_routes N_classify_failure (o_state o) = [r] ∧ o_route o = Some (predicate_name r) ∧
    (max_attempts (budget s) ≤ s_attempts (spent s) → failure_class v = F_budget) ∧
    (o_route o = Some retry →
      s_attempts (spent s) < max_attempts (budget s) ∧ failure_class v ≠ F_criteria ∧ failure_class v ≠ F_budget).
Proof.
  intros Hs Hi H1 H2 H3 H4 H5 H6.
  destruct (failure_verdict_total svc H1 H2 H3 H4 H5 H6 s cx sig w) as (w' & v & Hv).
  pose proof (failure_verdict_Ok svc _ _ _ _ _ _ Hv) as (Hc & Hb & Hx & _).
  rewrite bool_decide_false in Hc by (intros E; apply Hx in E; congruence).
  destruct (classify_routes svc _ _ cx _ _ _ Hs Hv Hc) as (o & r & Ho & Hst & Hl & Hr).
  exists w', o, v, r. split_and!; [done|by rewrite Hst|done|done|done|done|].
  intros Hre. rewrite Hr in Hre. injection Hre as Hre.
  destruct (retry_edge _ _ Hl Hre) as (f & Hf & Hlt & H7 & H8). rewrite Hst in Hf, Hlt. simpl in Hf, Hlt.
  injection Hf as <-. done.
Qed.

(** The one verdict the taxonomy gets wrong: a failed required criterion whose
    proof did not reject its negative fixture makes [classify_failure] raise
    [AssertionError], because a [criteria] verdict that does not count against
    trust is inconsistent by [FailureVerdict]'s own definition. *)
Theorem criteria_verdict_asserts {W} (svc : Services W) s sig cx w :
  failure_signal s = Some sig → sig_source sig = src_validator → _has_invalid_sensitivity_proof s = true →
  s_attempts (spent s) < max_attempts (budget s) → hint_budget sig = false → budget_text sig = false →
  classify_failure svc s cx w = (w, Err AssertionError).
Proof.
  intros Hs Hv Hi Hlt Hh Ht. unfold classify_failure, failure_verdict, mbind, M_bind.
  rewrite Hs, Hh, Ht, Hv, Hi. rewrite (proj2 (Z.leb_gt _ _) Hlt). done.
Qed.


(** ** join: selection *)

Definition comparable (b : BranchState) : Prop :=
  is_nan (_portfolio_score b).1.2 = false ∧ is_nan (_portfolio_score b).2 = false.

(** [a] scores at least as well as [b]. *)
Definition at_least (a b : BranchState) : Prop := score_lt (_portfolio_score a) (_portfolio_score b) = false.

Definition score_key_lt (x y : Z * float * float) : Prop :=
  x.1.1 < y.1.1 ∨ (x.1.1 = y.1.1 ∧ (key_lt (fkey x.1.2) (fkey y.1.2) ∨
    (fkey x.1.2 = fkey y.1.2 ∧ key_lt (fkey x.2) (fkey y.2)))).

Lemma key_lt_irrefl k : ¬ key_lt k k.
Proof. unfold key_lt. lia. Qed.

Lemma key_eq (a b : Z * Z * Z) : a = b ↔ a.1.1 = b.1.1 ∧ a.1.2 = b.1.2 ∧ a.2 = b.2.
Proof. destruct a as [[? ?] ?], b as [[? ?] ?]. simpl. split; [intros [= -> -> ->]; done|intros (-> & -> & ->); done]. Qed.

Lemma score_lt_key x y :
  is_nan x.1.2 = false → is_nan y.1.2 = false → is_nan x.2 = false → is_nan y.2 = false →
  score_lt x y = true ↔ score_key_lt x y.
Proof.
  intros H1 H2 H3 H4. unfold score_lt, score_key_lt.
  destruct (Z.eqb_spec x.1.1 y.1.1) as [E|E]; simpl; [|rewrite Z.ltb_lt; lia].
  destruct (feqb x.1.2 y.1.2) eqn:E1; simpl.
  - apply feqb_key in E1; [|done|done]. destruct (feqb x.2 y.2) eqn:E2; simpl.
    + apply feqb_key in E2; [|done|done]. rewrite E1, E2. pose proof (key_lt_irrefl (fkey y.2)).
      pose proof (key_lt_irrefl (fkey y.1.2)). split; [done|]. intros [?|[_ [?|[_ ?]]]]; [lia|tauto|tauto].
    + rewrite (fltb_key x.2 y.2) by done. rewrite E1. pose proof (key_lt_irrefl (fkey y.1.2)). naive_solver lia.
  - rewrite (fltb_key x.1.2 y.1.2) by done. assert (fkey x.1.2 ≠ fkey y.1.2) as N.
    { intros K. apply feqb_key in K; [congruence|done|done]. }
    naive_solver lia.
Qed.

Lemma at_least_key a b : comparable a → comparable b →
  at_least a b ↔ ¬ score_key_lt (_portfolio_score a) (_portfolio_score b).
Proof.
  intros [] []. unfold at_least. rewrite <- score_lt_key, not_true_iff_false by done. done.
Qed.

Lemma at_least_trans a b c : comparable a → comparable b → comparable c →
  at_least a b → at_least b c → at_least a c.
Proof.
  intros Ha Hb Hc. rewrite !at_least_key by done. unfold score_key_lt, key_lt. rewrite !key_eq. lia.
Qed.

Lemma at_least_total a b : comparable a → comparable b →
  score_lt (_portfolio_score a) (_portfolio_score b) = true → at_least b a.
Proof.
  intros Ha Hb H. rewrite at_least_key by done. destruct Ha, Hb. apply score_lt_key in H; [|done..].
  unfold score_key_lt, key_lt in *. rewrite !key_eq in *. lia.
Qed.

Lemma at_least_refl a : at_least a a.
Proof.
  unfold at_least, score_lt. rewrite Z.eqb_refl. simpl.
  rewrite !fltb_irrefl. by repeat destruct (negb _).
Qed.

Notation better := (λ best x : BranchState,
  if score_lt (_portfolio_score best) (_portfolio_score x) then x else best).

Lemma fold_better l acc (Q : BranchState → Prop) :
  comparable acc → Forall comparable l → (∀ b, Q b → comparable b ∧ at_least acc b) →
  (∀ b, Q b ∨ b = acc ∨ b ∈ l → at_least (fold_left better l acc) b) ∧
  (fold_left better l acc = acc ∨ fold_left better l acc ∈ l).
Proof.
  revert acc Q. induction l as [|x l IH]; intros acc Q Ha HF HQ; cbn [fold_left].
  - split; [|by left]. intros b [Hb|[->|Hb]]; [by apply HQ|apply at_least_refl|inversion Hb].
  - inversion HF as [|? ? Hx Hl]; subst.
    destruct (score_lt (_portfolio_score acc) (_portfolio_score x)) eqn:E.
    + pose proof (at_least_total _ _ Ha Hx E) as Hxa.
      destruct (IH x (λ b, Q b ∨ b = acc) Hx Hl) as (H1 & H2).
      { intros b [Hb| ->]; [destruct (HQ b Hb); split; [done|by apply (at_least_trans x acc b)]|done]. }
      split; [|right; destruct H2 as [->|]; [left|by right]].
      intros b [Hb|[->|Hb]]; [apply H1; by do 2 left|apply H1; left; by right|].
      apply elem_of_cons in Hb as [->|Hb]; apply H1; auto.
    + destruct (IH acc (λ b, Q b ∨ b = x) Ha Hl) as (H1 & H2).
      { intros b [Hb| ->]; [by apply HQ|done]. }
      split; [|destruct H2; [by left|right; by right]].
      intros b [Hb|[->|Hb]]; [apply H1; by do 2 left|apply H1; auto|].
      apply elem_of_cons in Hb as [->|Hb]; apply H1; auto.
Qed.

Lemma max_branch_spec l w :
  Forall comparable l → max_branch l = Some w → w ∈ l ∧ ∀ b, b ∈ l → at_least w b.
Proof.
  destruct l as [|b0 l]; [done|]. intros HF H. injection H as <-. inversion HF as [|? ? H0 Hl]; subst.
  destruct (fold_better l b0 (λ _, False) H0 Hl) as (H1 & H2); [done|].
  split; [destruct H2 as [->|]; [left|by right]|]. intros b Hb. apply elem_of_cons in Hb. auto.
Qed.

Lemma max_branch_some l : l ≠ [] → is_Some (max_branch l).
Proof. destruct l; [done|]. eexists. done. Qed.

(** Every succeeded branch is matched by a succeeded one among the ids. *)
Definition heads (bs : list BranchState) (ids : list string) : Prop :=
  (∃ b, b ∈ bs ∧ b_status b = succeeded) ∧
  ∀ b, b ∈ bs → b_status b = succeeded →
    ∃ h, h ∈ bs ∧ b_status h = succeeded ∧ branch_id h ∈ ids ∧ at_least h b.

Lemma elem_of_filter_status l b bs :
  b ∈ List.filter (has_status l) bs ↔ b ∈ bs ∧ b_status b ∈ l.
Proof. rewrite list_elem_of_In, filter_In, <- list_elem_of_In. unfold has_status. by rewrite bool_decide_eq_true. Qed.

Lemma survivors_heads bs ids : Forall comparable bs → survivors bs = Some ids → heads bs ids.
Proof.
  intros HF. unfold survivors. set (lt := λ a b, _). set (good := List.filter _ _).
  assert (∀ b, b ∈ good ↔ b ∈ bs ∧ b_status b = succeeded) as Hg.
  { intros b. unfold good. rewrite elem_of_filter_status, list_elem_of_singleton. done. }
  destruct (sorted_by lt good) as [|h l] eqn:E; [done|]. cbn [is_nil]. intros [= <-].
  assert (h ∈ good) as Hh by (rewrite <- (sorted_by_elem lt), E; left).
  apply Hg in Hh as [Hh Hs]. split; [eauto|]. intros b Hb Hsb. exists h. split_and!; [done|done| |].
  - destruct (Nat.max 2 _) as [|n] eqn:En; [lia|]. left.
  - eapply (sorted_by_head lt comparable good h l); try exact E; unfold lt.
    + intros a b' c Ha Hb' Hc H1 H2. by apply (at_least_trans c b' a).
    + intros a b' Ha Hb' H1. by apply at_least_total.
    + intros a. apply at_least_refl.
    + rewrite Forall_forall in *. intros x Hx. apply Hg in Hx as [Hx _]. auto.
    + by apply Hg.
Qed.

(** The winner of a portfolio: best of the succeeded branches, or when none
    succeeded best of the finished ones. *)
Definition best_branch (bs : list BranchState) (w : BranchState) : Prop :=
  w ∈ bs ∧
  (∀ b, b ∈ bs → b_status b = succeeded → b_status w = succeeded ∧ at_least w b) ∧
  ((∀ b, b ∈ bs → b_status b ≠ succeeded) → ∀ b, b ∈ bs → b_status b ∈ [failed; timed_out] → at_least w b).

Lemma winner_best bs keep w :
  Forall comparable bs → match keep with Some ids => heads bs ids | None => True end →
  _select_portfolio_winner bs keep = Some w → best_branch bs w.
Proof.
  intros HF Hk. unfold _select_portfolio_winner. set (el := λ b, match keep with Some ids => _ | None => true end).
  assert (∀ st b, b ∈ List.filter el (List.filter (has_status st) bs) ↔ b ∈ bs ∧ b_status b ∈ st ∧ el b = true) as Hp.
  { intros st b. rewrite list_elem_of_In, filter_In, <- list_elem_of_In, elem_of_filter_status. tauto. }
  assert (∀ st l, l = List.filter el (List.filter (has_status st) bs) → Forall comparable l) as Hc.
  { intros st l ->. rewrite Forall_forall in *. intros x Hx. apply Hp in Hx as [Hx _]. auto. }
  destruct (List.filter el (List.filter (has_status [succeeded]) bs)) as [|b0 l] eqn:E; intros Hw.
  - apply max_branch_spec in Hw as [Hw Hm]; [|by eapply Hc]. apply Hp in Hw as (Hw & _ & _).
    assert (∀ b, b ∈ bs → b_status b ≠ succeeded) as Hno.
    { intros b Hb Hs. assert (∃ h, h ∈ bs ∧ b_status h = succeeded ∧ el h = true) as (h & Hh & Hsh & He).
      { unfold el. destruct keep as [ids|]; [|eauto]. destruct Hk as [_ Hk].
        destruct (Hk b Hb Hs) as (h & ? & ? & Hid & _). exists h. rewrite bool_decide_eq_true. done. }
      assert (h ∈ []) as X by (rewrite <- E; apply Hp; rewrite Hsh; set_solver). inversion X. }
    split_and!; [done|intros b Hb Hs; by destruct (Hno b Hb)|]. intros _ b Hb Hst. apply Hm, Hp. split_and!; [done|done|].
    unfold el. destruct keep as [ids|]; [|done]. destruct Hk as [(b' & Hb' & Hs') _]. by apply Hno in Hb'.
  - apply max_branch_spec in Hw as [Hw Hm]; [|rewrite <- E; by eapply Hc]. rewrite <- E in Hw, Hm.
    apply Hp in Hw as (Hw & Hsw & _). assert (b_status w = succeeded) as Hsw' by set_solver.
    split_and!; [done| |by intros Hno; apply Hno in Hw]. intros b Hb Hs. split; [done|].
    assert (∃ h, h ∈ bs ∧ b_status h = succeeded ∧ el h = true ∧ at_least h b) as (h & Hh & Hsh & He & Hhb).
    { unfold el. destruct keep as [ids|]; [|exists b; split_and!; try done; apply at_least_refl].
      destruct Hk as [_ Hk]. destruct (Hk b Hb Hs) as (h & ? & ? & Hid & ?). exists h. rewrite bool_decide_eq_true. done. }
    rewrite Forall_forall in HF. apply (at_least_trans w h b); auto. apply Hm, Hp. rewrite Hsh. set_solver.
Qed.

Lemma winner_exists bs keep :
  match keep with Some ids => heads bs ids | None => True end → bs ≠ [] → forallb arrived bs = true →
  is_Some (_select_portfolio_winner bs keep).
Proof.
  intros Hk Hne Har. unfold _select_portfolio_winner. set (el := λ b, match keep with Some ids => _ | None => true end).
  destruct (List.filter el (List.filter (has_status [succeeded]) bs)) as [|b0 l] eqn:E; [|by eexists].
  destruct bs as [|b bs]; [done|]. apply max_branch_some. intros E'.
  assert (∀ st h, h ∈ b :: bs → b_status h ∈ st → el h = true → h ∈ List.filter el (List.filter (has_status st) (b :: bs))) as K.
  { intros st h Hh Hst He. apply list_elem_of_In, filter_In. split; [|done]. apply list_elem_of_In.
    by apply elem_of_filter_status. }
  destruct keep as [ids|].
  - destruct Hk as [(b' & Hb' & Hs') Hk]. destruct (Hk b' Hb' Hs') as (h & Hh & Hsh & Hid & _).
    assert (h ∈ []) as X; [|inversion X]. rewrite <- E. apply K; [done|rewrite Hsh; left|]. unfold el.
    by rewrite bool_decide_eq_true.
  - simpl in Har. apply andb_true_iff in Har as [Hb _]. unfold arrived, has_status in Hb.
    apply bool_decide_eq_true in Hb. apply elem_of_cons in Hb as [Hb|Hb].
    + assert (b ∈ []) as X; [|inversion X]. rewrite <- E. apply K; [left|rewrite Hb; left|done].
    + assert (b ∈ []) as X; [|inversion X]. rewrite <- E'. apply K; [left|set_solver|done].
Qed.

(** Clearing [selected] changes nothing the selection looks at. *)
Definition same_rank (f : BranchState → BranchState) : Prop :=
  ∀ b, branch_id (f b) = branch_id b ∧ b_status (f b) = b_status b ∧ _portfolio_score (f b) = _portfolio_score b.

Lemma heads_map f bs ids : same_rank f → heads bs ids → heads (map f bs) ids.
Proof.
  intros Hf [(b & Hb & Hs) H]. split.
  - exists (f b). split; [by apply list_elem_of_fmap_2|]. destruct (Hf b) as (_ & -> & _). done.
  - intros b' Hb' Hs'. apply list_elem_of_fmap in Hb' as (c & -> & Hc). destruct (Hf c) as (H1 & H2 & H3).
    rewrite H2 in Hs'. destruct (H c Hc Hs') as (h & ? & ? & ? & ?). exists (f h). destruct (Hf h) as (E1 & E2 & E3).
    rewrite E1, E2. unfold at_least. rewrite E3, H3. split_and!; [by apply list_elem_of_fmap_2|done..].
Qed.

Lemma best_branch_map f bs w' :
  same_rank f → best_branch (map f bs) w' → ∃ w, branch_id w' = branch_id w ∧ best_branch bs w.
Proof.
  intros Hf (Hw & H1 & H2). apply list_elem_of_fmap in Hw as (w & -> & Hw). destruct (Hf w) as (E1 & E2 & E3).
  exists w. split; [done|]. rewrite E2 in H1. unfold best_branch, at_least in *. rewrite E3 in H1, H2. split_and!; [done| |].
  - intros b Hb Hs. destruct (Hf b) as (F1 & F2 & F3). rewrite <- F3. apply H1; [by apply list_elem_of_fmap_2|by rewrite F2].
  - intros Hno b Hb Hs. destruct (Hf b) as (F1 & F2 & F3). rewrite <- F3. apply H2; [|by apply list_elem_of_fmap_2|by rewrite F2].
    intros c Hc. apply list_elem_of_fmap in Hc as (c' & -> & Hc). destruct (Hf c') as (_ & -> & _). auto.
Qed.

Lemma comparable_map f bs : same_rank f → Forall comparable bs → Forall comparable (map f bs).
Proof.
  intros Hf HF. rewrite Forall_forall in *. intros b Hb. apply list_elem_of_fmap in Hb as (c & -> & Hc).
  unfold comparable. destruct (Hf c) as (_ & _ & ->). by apply HF.
Qed.

Lemma arrived_all s : missing_of s = [] ↔ forallb arrived (branches s) = true.
Proof.
  unfold missing_of. induction (branches s) as [|b l IH]; simpl; [done|].
  destruct (arrived b); simpl; [exact IH|]. split; discriminate.
Qed.

Lemma full_audit s cx act : missing_of s = [] → is_complete (audit_of s cx (arrived_count s) [] act []) = true.
Proof.
  intros H. unfold is_complete. simpl. rewrite andb_true_r. apply Z.leb_le.
  assert (arrived_count s = length (branches s)) as ->; [|lia]. apply arrived_all in H. unfold arrived_count.
  induction (branches s) as [|b l IH]; simpl in *; [done|]. apply andb_true_iff in H as [-> H]. simpl. by rewrite IH.
Qed.

Lemma forallb_snoc {A} (p : A → bool) l x : forallb p (l ++ [x]) = forallb p l && p x.
Proof. rewrite forallb_app. simpl. by rewrite andb_true_r. Qed.

(** What a join leaves of a branch besides [selected]. *)
Definition tag (b : BranchState) : string * BranchStatus := (branch_id b, b_status b).

Section JoinLemmas.
  Context {W : Type} (svc : Services W).

(** What no join touches. *)
Definition untouched (s t : RunState) : Prop :=
  run_id t = run_id s ∧ spent t = spent s ∧ budget t = budget s ∧ workspace_snapshots t = workspace_snapshots s ∧
  route_log t = route_log s.

(** A join that scored the merged workspace. *)
Definition rescored (s : RunState) (audit : MergeAudit) (o : NodeOutcome) : Prop :=
  ∃ rs raws sig, scored_by svc (criteria s) rs (bool_decide (is_Some sig)) raws ∧
    (∀ x, sig = Some x → sig_source x = src_validator) ∧ criteria (o_state o) = criteria s ∧
    results (o_state o) = rs ∧ failure_signal (o_state o) = sig ∧ untouched s (o_state o) ∧
    merge_audits (o_state o) = merge_audits s ++ [audit] ∧ o_route o = join_route (o_state o).

Lemma join_portfolio_Ok s cx audit w w' o :
  join_portfolio svc s cx audit w = (w', Ok o) →
  rescored s audit o ∧ map tag (branches (o_state o)) = map tag (branches s) ∧
  (Forall comparable (branches s) → branches s ≠ [] → missing_of s = [] →
   ∃ win, best_branch (branches s) win ∧
     ∀ b, b ∈ branches (o_state o) → b_selected b = true ↔ branch_id b = branch_id win).
Proof.
  unfold join_portfolio. set (keep := if (_ : bool) then survivors _ else None). set (s1 := match keep with Some _ => (_ : RunState) | None => s end).
  set (winner := _select_portfolio_winner (branches s1) keep). intros H.
  apply M_bind_Ok in H as (u & w1 & _ & H). apply M_bind_Ok in H as ([[rs sig] notes] & w2 & Hs & H).
  apply score_criteria_spec in Hs as (raws & Hs & Hx).
  assert (∃ f, same_rank f ∧ branches s1 = map f (branches s)) as (f & Hf & Hb).
  { unfold s1. destruct keep as [ids|]; [|exists (λ b, b); rewrite map_id; done].
    eexists. split; [|reflexivity]. intros b. cbv beta. by destruct (bool_decide (branch_id b ∈ ids)). }
  assert (s1 = s <| branches := branches s1 |>) as E1 by (unfold s1; by destruct keep, s).
  assert (criteria s1 = criteria s ∧ merge_audits s1 = merge_audits s ∧ spent s1 = spent s ∧ budget s1 = budget s)
    as (E2 & E3 & E4 & E5) by (by rewrite E1).
  assert (run_id s1 = run_id s ∧ workspace_snapshots s1 = workspace_snapshots s ∧ route_log s1 = route_log s)
    as (E6 & E7 & E8) by (by rewrite E1).
  split; [|split].
  - exists rs, raws, sig. rewrite E2 in Hs. inv_ok. destruct winner as [wi|]; [destruct (String.eqb _ _)|]; simpl;
      split_and!; try done; try (by rewrite E3); try (intros x Hsx; by destruct (Hx x Hsx)).
  - assert (branches (o_state o) = match winner with
      | Some w => map (select (λ b, String.eqb (branch_id b) (branch_id w))) (branches s1) | None => branches s1 end) as ->.
    { inv_ok. by destruct winner as [wi|]; [destruct (String.eqb _ _)|]. }
    assert (map tag (branches s1) = map tag (branches s)) as <-.
    { rewrite Hb, map_map. apply map_ext. intros b. unfold tag. by destruct (Hf b) as (-> & -> & _). }
    destruct winner; [rewrite map_map|]; done.
  - intros HF Hne Hmi. 
    assert (match keep with Some ids => heads (branches s1) ids | None => True end) as Hk.
    { destruct keep as [ids|] eqn:Ek; [|done]. rewrite Hb. apply heads_map; [done|]. apply survivors_heads; [done|].
      unfold keep in Ek. destruct (_ && _); [done|discriminate]. }
    assert (is_Some winner) as [wi Hwi].
    { apply winner_exists; [done|rewrite Hb; by destruct (branches s)|]. apply arrived_all in Hmi. rewrite Hb.
      rewrite <- Hmi. clear -Hf. induction (branches s) as [|b l IH]; simpl; [done|]. rewrite IH.
      unfold arrived, has_status. by destruct (Hf b) as (_ & -> & _). }
    destruct (best_branch_map f (branches s) wi Hf) as (win & Hid & Hbest).
    { rewrite <- Hb. apply (winner_best _ keep); [rewrite Hb; by apply comparable_map|done|done]. }
    exists win. split; [done|]. intros b Hin. rewrite <- Hid.
    assert (b ∈ map (select (λ b, String.eqb (branch_id b) (branch_id wi))) (branches s1)) as Hin'.
    { rewrite Hwi in H. inv_ok. by destruct (String.eqb (b_workspace_ref wi) ""). }
    apply list_elem_of_fmap in Hin' as (c & -> & _). simpl. by destruct (String.eqb_spec (branch_id c) (branch_id wi)).
Qed.

(** How a join ends: it found a gap, it re-scored, or the decomposition
    failed before any scoring. *)
Definition gap_end (s : RunState) (o : NodeOutcome) : Prop :=
  ∃ a sig, is_complete a = false ∧ merge_audits (o_state o) = merge_audits s ++ [a] ∧
    failure_signal (o_state o) = Some sig ∧ sig_source sig = src_join ∧ o_route o = Some otherwise ∧
    results (o_state o) = results s ∧ criteria (o_state o) = criteria s ∧ branches (o_state o) = branches s ∧
    untouched s (o_state o).
Definition failed_end (s : RunState) (o : NodeOutcome) : Prop :=
  ∃ a sig, is_complete a = true ∧ action a = audit_failed ∧ merge_audits (o_state o) = merge_audits s ++ [a] ∧
    failure_signal (o_state o) = Some sig ∧ o_route o = Some otherwise ∧
    results (o_state o) = results s ∧ criteria (o_state o) = criteria s ∧ branches (o_state o) = branches s ∧
    untouched s (o_state o).
Definition scored_end (s : RunState) (o : NodeOutcome) : Prop :=
  ∃ a, is_complete a = true ∧ action a = proceeded ∧ rescored s a o.

Lemma join_decomposition_Ok s cx audit w w' o :
  is_complete audit = true → action audit = proceeded →
  join_decomposition svc s cx audit w = (w', Ok o) →
  (failed_end s o ∨ scored_end s o) ∧ branches (o_state o) = branches s.
Proof.
  intros Hc Ha. unfold join_decomposition. destruct (existsb _ _); intros H.
  - unfold signal in H. inv_ok. split; [left|done]. eexists _, _.
    split_and!; try reflexivity; first exact Hc; done.
  - apply M_bind_Ok in H as ([[mref gs]|why] & w1 & _ & H).
    + apply M_bind_Ok in H as ([[rs sig] notes] & w2 & Hs & H). apply score_criteria_spec in Hs as (raws & Hs & Hx).
      inv_ok. split; [right|done]. exists (audit <| batches := gs |>). split_and!; [by destruct audit|by destruct audit|].
      exists rs, raws, sig. split_and!; try done. intros x E. by destruct (Hx x E).
    + unfold signal in H. inv_ok. split; [left|done]. eexists _, _.
      split_and!; try reflexivity; first exact Hc; done.
Qed.

Lemma join_Ok s cx w w' o :
  join svc s cx w = (w', Ok o) →
  (missing_of s ≠ [] ∧ gap_end s o) ∨
  (missing_of s = [] ∧ (failed_end s o ∨ scored_end s o) ∧
    map tag (branches (o_state o)) = map tag (branches s)).
Proof.
  unfold join. destruct (missing_of s) as [|m ms] eqn:Em; cbn [is_nil negb].
  - intros H. right. split; [done|]. pose proof (full_audit s cx proceeded Em) as Hc.
    destruct (strategy_in _ _ || _).
    + apply join_portfolio_Ok in H as (H & Hb & _). split; [right; by eexists|done].
    + apply join_decomposition_Ok in H as [H ->]; done.
  - intros H. left. split; [done|]. unfold join_gap in H. unfold signal in H. inv_ok.
    eexists _, _. split_and!; try done. unfold is_complete. simpl. rewrite Em. apply andb_false_r.
Qed.

(** The route a join asks for, against the table. *)
Lemma join_legal s cx w w' o :
  scorer_names_criteria svc → NoDup (map c_id (criteria s)) →
  forallb is_complete (merge_audits s) = true ∨ missing_of s ≠ [] →
  join svc s cx w = (w', Ok o) →
  (gap_end s o ∧ leaves_legally N_join o) ∨ (scored_end s o ∧ leaves_legally N_join o) ∨
  (failed_end s o ∧ (leaves_legally N_join o ↔ _required_criteria_pass s = false)).
Proof.
  intros Hn HN Haud H. pose proof (legal_edges N_join (o_state o)) as He. unfold _join_complete_and_passing in He.
  apply join_Ok in H as [[Hm Hg]|[Hm [[Hf|Hsc] _]]].
  - left. split; [done|]. destruct Hg as (a & sig & Ha & Hma & _ & _ & Hr & _).
    rewrite Hma, forallb_snoc, Ha, andb_false_r in He. eapply leaves_by; [exact Hr|]. rewrite He.
    destruct (is_nil _); left.
  - right; right. split; [done|]. destruct Hf as (a & sig & Ha & _ & Hma & _ & Hr & Hres & Hcr & _).
    destruct Haud as [Haud|]; [|done]. rewrite Hma, forallb_snoc, Ha, Haud in He.
    assert (_required_criteria_pass (o_state o) = _required_criteria_pass s) as Ep.
    { unfold _required_criteria_pass, required_ids, passed_ids. by rewrite Hres, Hcr. }
    rewrite Ep in He. assert (is_nil (merge_audits s ++ [a]) = false) as En by (by destruct (merge_audits s)).
    rewrite En in He. simpl in He. destruct (_required_criteria_pass s).
    + split; [|done]. unfold leaves_legally. destruct (legal_routes N_join (o_state o)) as [|r []]; try discriminate.
      intros (r' & Hr' & Ho). apply list_elem_of_singleton in Hr'. subst r'. unfold edge in He. simpl in He.
      rewrite Hr in Ho. congruence.
    + split; [done|]. intros _. eapply leaves_by; [exact Hr|]. rewrite He. left.
  - right; left. split; [done|]. destruct Hsc as (a & Ha & _ & rs & raws & sig & Hs & _ & Hcr & Hres & Hsig & _ & Hma & Hr).
    destruct Haud as [Haud|]; [|done]. rewrite Hma, forallb_snoc, Ha, Haud in He.
    assert (is_nil (merge_audits s ++ [a]) = false) as En by (by destruct (merge_audits s)).
    rewrite En in He. simpl in He. unfold join_route in Hr. rewrite Hsig in Hr. rewrite <- Hcr in Hs, HN.
    destruct sig; [rewrite bool_decide_true in Hs by by eexists|rewrite bool_decide_false in Hs by (by intros [])].
    + rewrite (scored_gate_fails svc Hn _ _ _ HN Hs Hres) in He. eapply leaves_by; [exact Hr|]. rewrite He. left.
    + rewrite (scored_clean_passes svc Hn _ _ _ Hs Hres) in He. eapply leaves_by; [exact Hr|]. rewrite He. left.
Qed.
End JoinLemmas.

(** A portfolio join marks exactly the branches of one winner as selected:
    the best-scored of the succeeded branches (required criteria passed, then
    advisory weight, then lower cost), also when layered fan-in first keeps
    only the top half; when none succeeded, the best of the finished ones. *)
Theorem portfolio_join_selects_best {W} (svc : Services W) s cx w w' o :
  missing_of s = [] → branches s ≠ [] → Forall comparable (branches s) →
  strategy s = Some S_portfolio → join svc s cx w = (w', Ok o) →
  map branch_id (branches (o_state o)) = map branch_id (branches s) ∧
  ∃ win, best_branch (branches s) win ∧
    ∀ b, b ∈ branches (o_state o) → b_selected b = true ↔ branch_id b = branch_id win.
Proof.
  intros Hm Hne HF Hst H. unfold join in H. rewrite Hm in H. cbn [is_nil negb] in H.
  assert (strategy_in [S_portfolio] s = true) as E by (unfold strategy_in; by rewrite Hst).
  rewrite E in H. apply join_portfolio_Ok in H as (_ & Hb & H). split; [|auto].
  apply (f_equal (map fst)) in Hb. by rewrite !map_map in Hb.
Qed.

(** A join that re-scored or found a missing branch leaves legally: a gap
    keeps the run out of [distill] whatever its criteria say, and the last
    score decides otherwise.  The exception is a failed decomposition, whose
    [otherwise] is refused by the table exactly when the results recorded
    before the join satisfy the required criteria. *)
Theorem join_routes {W} (svc : Services W) s cx w w' o :
  scorer_names_criteria svc → NoDup (map c_id (criteria s)) →
  forallb is_complete (merge_audits s) = true ∨ missing_of s ≠ [] → join svc s cx w = (w', Ok o) →
  leaves_legally N_join o ↔ ¬ (failed_end s o ∧ _required_criteria_pass s = true).
Proof.
  intros Hn HN Ha H. pose proof (join_legal svc s cx w w' o Hn HN Ha H) as [[Hg Hl]|[[Hs Hl]|[Hf Hl]]].
  - split; [|done]. intros _ [(a & sig & Hc & _ & Hma & _) _]. destruct Hg as (a' & ? & Hc' & Hma' & _).
    rewrite Hma in Hma'. apply app_inj_tail in Hma' as [_ ->]. congruence.
  - split; [|done]. intros _ [(a & sig & _ & Hac & Hma & _) _].
    destruct Hs as (a' & _ & Hac' & ? & ? & ? & _ & _ & _ & _ & _ & _ & Hma' & _).
    rewrite Hma in Hma'. apply app_inj_tail in Hma' as [_ ->]. congruence.
  - rewrite Hl. destruct (_required_criteria_pass s); naive_solver.
Qed.

(** A decomposition whose branch failed, on a run whose earlier results pass
    every required criterion: [join] completes, asks for [otherwise], and the
    engine finds that route illegal. *)
Theorem failed_decomposition_is_stuck {W} (svc : Services W) s cx w :
  never_raises (sv_now svc) → missing_of s = [] → forallb is_complete (merge_audits s) = true →
  existsb (λ b, negb (has_status [succeeded] b)) (branches s) = true →
  existsb (λ b, bool_decide (b_kind b = BK_portfolio)) (branches s) = false → strategy s ≠ Some S_portfolio →
  _required_criteria_pass s = true →
  ∃ w' o, join svc s cx w = (w', Ok o) ∧ o_route o = Some otherwise ∧
    map predicate_name (legal_routes N_join (o_state o)) = [merge_complete_and_passing].
Proof.
  intros Hnow Hm Ha Hf Hk Hst Hp. destruct (Hnow w) as (w' & t & Et).
  assert (strategy_in [S_portfolio] s = false) as E.
  { unfold strategy_in. destruct (strategy s) as [st|]; [|done]. apply bool_decide_eq_false.
    intros Hin. apply list_elem_of_singleton in Hin. congruence. }
  unfold join, join_decomposition, signal. rewrite Hm, E, Hk, Hf. simpl. unfold mbind, M_bind. rewrite Et.
  eexists _, _. split; [reflexivity|]. split; [done|]. cbn [o_state]. set (s' := setf failure_signal _ _).
  assert (map predicate_name (legal_routes N_join s') = map fst (map edge (legal_routes N_join s'))) as -> by (by rewrite map_map).
  rewrite legal_edges. unfold _join_complete_and_passing.
  assert (_required_criteria_pass s' = true) as -> by exact Hp.
  change (merge_audits s') with (merge_audits s ++ [(audit_of s cx (arrived_count s) [] proceeded []) <| action := audit_failed |>]).
  rewrite forallb_snoc, Ha. pose proof (full_audit s cx proceeded Hm) as Hfull. unfold is_complete in *. simpl in *.
  rewrite Hfull. by destruct (merge_audits s).
Qed.

(** ** evolve *)

Definition drops_choice (s t : RunState) : Prop :=
  chosen t = None ∧ ∀ c, c ∈ skills (bundle t) → is_chosen s c = false.

Lemma apply_move_spec s snaps mv :
  let t := apply_move s snaps mv in
  failure_signal t = None ∧ transcript_ref t = None ∧ workspace_snapshots t = snaps ∧
  spent t = spent s ∧ budget t = budget s ∧ criteria t = criteria s ∧ results t = results s ∧
  results_history t = results_history s ∧ branches t = branches s ∧ merge_audits t = merge_audits s ∧
  strategy t = match mv_strategy mv with Some x => Some x | None => strategy s end ∧
  (mv_drop mv = true → drops_choice s t) ∧ (mv_drop mv = false → chosen t = chosen s ∧ bundle t = bundle s).
Proof.
  unfold apply_move, drops_choice. destruct (mv_strategy mv), (mv_drop mv); simpl; split_and!; try done; intros _;
    (split; [done|]); intros c Hc; apply list_elem_of_In, filter_In in Hc as [_ Hc]; by apply negb_true_iff in Hc.
Qed.

Lemma evolve_Ok {W} (svc : Services W) s cx w w' o :
  evolve svc s cx w = (w', Ok o) →
  ∃ clean others w1 mv, workspace_snapshots s = clean :: others ∧ sv_restore svc (snapshot_ref clean) w = (w1, Ok tt) ∧
    o_state o = apply_move s ((clean <| restored := true |>) :: others) mv ∧ o_route o = Some always.
Proof.
  unfold evolve. destruct (workspace_snapshots s) as [|clean others]; [discriminate|]. intros H.
  apply M_bind_Ok in H as ([] & w1 & Hr & H). inv_ok. by eexists clean, others, w1, _.
Qed.

(** [evolve] first restores the clean snapshot taken before the first attempt
    and then starts the retry from a clean slate: no signal, no transcript,
    the spend, criteria, results and history untouched; a dropped candidate
    is neither chosen nor left in the bundle.  Without a snapshot it raises
    [ValueError] and touches nothing. *)
Theorem evolve_restores_and_clears {W} (svc : Services W) s cx w :
  match workspace_snapshots s with
  | [] => evolve svc s cx w = (w, Err ValueError)
  | clean :: others => ∀ w' o, evolve svc s cx w = (w', Ok o) →
      ∃ w1, sv_restore svc (snapshot_ref clean) w = (w1, Ok tt) ∧
        workspace_snapshots (o_state o) = (clean <| restored := true |>) :: others ∧
        failure_signal (o_state o) = None ∧ transcript_ref (o_state o) = None ∧
        spent (o_state o) = spent s ∧ budget (o_state o) = budget s ∧ criteria (o_state o) = criteria s ∧
        results_history (o_state o) = results_history s ∧
        (drops_choice s (o_state o) ∨ (chosen (o_state o) = chosen s ∧ bundle (o_state o) = bundle s)) ∧
        leaves_legally N_evolve o
  end.
Proof.
  destruct (workspace_snapshots s) as [|clean others] eqn:E.
  - unfold evolve. by rewrite E.
  - intros w' o H. apply evolve_Ok in H as (c & ot & w1 & mv & E' & Hr & Hst & Ho). rewrite E in E'. injection E' as <- <-.
    exists w1. split; [done|]. pose proof (apply_move_spec s ((clean <| restored := true |>) :: others) mv) as K.
    cbv zeta in K. rewrite <- Hst in K. destruct K as (K1 & K2 & K3 & K4 & K5 & K6 & K7 & K8 & K9 & K10 & K11 & K12 & K13).
    split_and!; try done.
    + destruct (mv_drop mv); auto.
    + eapply leaves_by; [exact Ho|]. rewrite legal_edges. left.
Qed.

(** ** Concrete scores, joins and verdicts *)

Lemma demo_names p : scorer_names_criteria (demo_services_scoring p).
Proof. intros c r (n & d & w & w' & H). injection H as _ <-. done. Defined.

Definition v_state : RunState := demo_state "make" ["a"; "b"].
Definition v_outcome (p : bool) : NodeOutcome :=
  outcome_or v_state (validate (demo_services_scoring p) v_state demo_context tt).

Lemma validate_gates_on_proven_failures_witness :
  leaves_legally N_validate (v_outcome true) ∧ failure_signal (o_state (v_outcome false)) ≠ None.
Proof.
  split; [|vm_compute; discriminate].
  apply (validate_gates_on_proven_failures demo_services v_state demo_context tt tt);
    [exact (demo_names true)|vm_compute; reflexivity].
Defined.

Definition c_outcome : NodeOutcome :=
  outcome_or v_state (classify_failure (demo_services_scoring false) (o_state (v_outcome false)) demo_context tt).
Definition c_verdict : FailureVerdict :=
  default (mkVerdict F_criteria [] None true true) (failure (o_state c_outcome)).

Lemma criteria_class_unreachable_witness :
  failure_class c_verdict = F_execution ∧ failure_class c_verdict ≠ F_criteria ∧ is_consistent c_verdict = true.
Proof.
  split; [vm_compute; reflexivity|].
  eapply (criteria_class_unreachable (demo_services_scoring false) v_state demo_context tt tt (v_outcome false)
            demo_context tt tt c_outcome).
  - apply demo_names.
  - apply (bool_decide_unpack _). vm_compute. exact I.
  - vm_compute. reflexivity.
  - vm_compute. reflexivity.
  - vm_compute. reflexivity.
Defined.

Lemma classify_failure_decides_witness : ∃ w' o,
  classify_failure demo_services (o_state (v_outcome false)) demo_context tt = (w', Ok o) ∧ o_route o = Some retry.
Proof.
  edestruct (classify_failure_decides demo_services (o_state (v_outcome false)))
    with (cx := demo_context) (w := tt) as (w' & o & v & r & H & _).
  - vm_compute. reflexivity.
  - vm_compute. reflexivity.
  - intros w. by eexists _, _.
  - intros n w. by eexists _, _.
  - intros n d w. by eexists _, _.
  - intros w. by eexists _, _.
  - intros n w. by eexists _, _.
  - intros n d w. by eexists _, _.
  - exists w', o. split; [exact H|]. vm_compute in H. by injection H as _ <-.
Defined.

(** A required criterion whose proof did not reject its negative fixture. *)
Definition bad_criterion : TaskCriterion :=
  (demo_criterion "a") <| c_sensitivity_proof := Some (mkProof "a" "" false 0 None None) |>.
Definition bad_state : RunState :=
  v_state <| criteria := [bad_criterion] |> <| results := [(pass_result bad_criterion) <| r_passed := false |>] |>
    <| failure_signal := Some (mkSignal src_validator "failed" 0 None) |>.

Lemma criteria_verdict_asserts_witness :
  classify_failure demo_services bad_state demo_context tt = (tt, Err AssertionError).
Proof. eapply criteria_verdict_asserts; vm_compute; reflexivity. Defined.

(** Three finished branches of a portfolio, the second the cheapest success. *)
Definition demo_branch (k : BranchKind) (id : string) (st : BranchStatus) (cost : float) : BranchState :=
  mkBranch id k BS_scratch None None "" None None st [] default_Budget default_Spend default_Reservation [] false None
    (Some cost) [].
Definition p_state : RunState :=
  v_state <| strategy := Some S_portfolio |>
    <| branches := [demo_branch BK_portfolio "p0" succeeded (Z2f 3); demo_branch BK_portfolio "p1" succeeded (Z2f 2);
                    demo_branch BK_portfolio "p2" failed (Z2f 1)] |>.
Definition p_outcome : NodeOutcome := outcome_or p_state (join demo_services p_state demo_context tt).

Example p_selected : map b_selected (branches (o_state p_outcome)) = [false; true; false].
Proof. vm_compute. reflexivity. Qed.

Lemma portfolio_join_selects_best_witness : ∃ win, best_branch (branches p_state) win ∧
  ∀ b, b ∈ branches (o_state p_outcome) → b_selected b = true ↔ branch_id b = branch_id win.
Proof.
  refine (proj2 (portfolio_join_selects_best demo_services p_state demo_context tt tt p_outcome _ _ _ _ _)).
  - vm_compute. reflexivity.
  - vm_compute. discriminate.
  - repeat constructor.
  - reflexivity.
  - vm_compute. reflexivity.
Defined.

(** The same branches as a decomposition: one of them failed. *)
Definition d_state : RunState :=
  (o_state (v_outcome true)) <| strategy := Some S_decomposition |>
    <| branches := [demo_branch BK_decomposition "d0" succeeded f0; demo_branch BK_decomposition "d1" failed f0] |>.

Lemma failed_decomposition_is_stuck_witness : ∃ w' o,
  join demo_services d_state demo_context tt = (w', Ok o) ∧ o_route o = Some otherwise ∧
  map predicate_name (legal_routes N_join (o_state o)) = [merge_complete_and_passing].
Proof.
  refine (failed_decomposition_is_stuck demo_services d_state demo_context tt _ _ _ _ _ _ _).
  - intros w. by eexists _, _.
  - vm_compute. reflexivity.
  - vm_compute. reflexivity.
  - vm_compute. reflexivity.
  - vm_compute. reflexivity.
  - vm_compute. discriminate.
  - vm_compute. reflexivity.
Defined.

Lemma join_routes_witness : leaves_legally N_join p_outcome.
Proof.
  refine (proj2 (join_routes demo_services p_state demo_context tt tt p_outcome (demo_names true) _ _ _) _).
  - apply (bool_decide_unpack _). vm_compute. exact I.
  - left. vm_compute. reflexivity.
  - vm_compute. reflexivity.
  - intros [(a & sg & _ & Ha & Hm & _) _]. vm_compute in Hm. injection Hm as <-. vm_compute in Ha. discriminate.
Defined.
