(* ===== verification/NodesStore.v ===== *)
(** * Learning and the ends of a run: distill, review, store, record_dead_end, reject_draft, finalize

    nodes/distill.py, nodes/review.py, nodes/store.py,
    nodes/record_dead_end.py, nodes/reject_draft.py and nodes/finalize.py.
    Authoring itself (distill/success.py, the applicability gate, the reviewer
    and the skill store's files) is a service.  Theorems: a fixture, control or
    shadow run reaches no memory write at all; [distill] always leaves legally
    and sends to review only a draft it kept; a run never writes more versions
    than its budget admits; and the terminal outcome follows from the
    predecessor. *)
From S2P Require Import Prelude PyStr Budgets Contracts Goals RouteTable NodeBase NodesPlan NodesJudge.
From Stdlib Require Import ZArith Lia.
Open Scope Z_scope.

Section Learn.
  Context {W : Type} (svc : Services W).

(** ** nodes/distill.py *)

Definition one_off_verdict (parameterisable_ : bool) (reason : text) : ReusabilityVerdict :=
  mkReusability V_one_off None None parameterisable_ true true true true (Some reason).

Definition arm_str (a : Arm) : string :=
  match a with treatment => "treatment" | control => "control" | shadow => "shadow" | practice => "practice" end.

Definition _eval_firewall (s : RunState) : option NodeOutcome :=
  if negb (is_eval_fixture (task s)) then None
  else
    let v := one_off_verdict false (lit "eval firewall: fixture run — distillation and memory writes suppressed") in
    Some (mkOutcome (s <| reusability := Some v |> <| draft := None |> <| facts_extracted := [] |>)
            (Some one_off) (ru_reason v)).

Definition measured_only (a : Arm) : bool := bool_decide (a ∈ [control; shadow]).

Definition _arm_must_not_learn (s : RunState) : option NodeOutcome :=
  if negb (measured_only (arm s)) then None
  else
    let v := one_off_verdict false (fmt "{} arm — distillation suppressed" [FS (arm_str (arm s))]) in
    Some (mkOutcome (s <| reusability := Some v |>) (Some one_off) (ru_reason v)).

Definition case_of (s : RunState) (cx : NodeContext) (out : CaseOutcome) (fc : option string) (de : option DeadEnd)
    : CaseRecord :=
  mkCase (cx_run_id cx +:+ "-a" +:+ pretty (attempt_no s)) (cx_run_id cx) (attempt_no s) (task_class (task s))
    (str_take 200 (or_empty (request (task s)))) out fc de (transcript_ref s) (Some (_current_approach s))
    (cand_skill_id <$> chosen s) (cand_version <$> chosen s)
    (Some (if falsy (submitted_by (task s)) then cx_run_id cx else or_empty (submitted_by (task s)))).

Definition _record_solved_case (s : RunState) (cx : NodeContext) : M W unit :=
  if has_episodic cx then _ ← sv_write_case svc (case_of s cx solved_case None None); mret tt else mret tt.

Definition _record_one_off (s : RunState) (v : ReusabilityVerdict) : M W unit :=
  if bool_decide (verdict v = V_one_off) then sv_record_one_off svc s (ru_reason v) else mret tt.

Definition _existing_skill_is_evidence (s : RunState) (cx : NodeContext) : M W (option NodeOutcome) :=
  match chosen s with
  | Some c =>
      if strategy_in [S_apply; S_adapt] s then
        _ ← (if has_store cx then sv_note_apply_session svc s else mret tt);
        let v := one_off_verdict true
          (fmt "solved via existing skill {}; recorded as evidence, not a new draft" [FS (skill_ref c)]) in
        _ ← _record_one_off s v;
        mret (Some (mkOutcome (s <| reusability := Some v |> <| facts_extracted := [] |>) (Some one_off) (ru_reason v)))
      else mret None
  | None => mret None
  end.

(** [budget_excess(..., BudgetReservation(versions_written=1)) == "versions_written"] *)
Definition version_write_excess (s : RunState) : bool :=
  bool_decide (budget_excess (budget s) (spent s) (reserved s)
                 (mkReservation 0 0 0 f0 f0 1) = Some D_versions_written).

Definition _version_write_budget (s : RunState) : option NodeOutcome :=
  if negb (version_write_excess s) then None
  else
    let v := one_off_verdict false (lit "version write budget exhausted — not a new draft") in
    Some (mkOutcome (s <| reusability := Some v |> <| draft := None |>) (Some one_off) (ru_reason v)).

(** The applicability gate on an authored draft. *)
Definition applicability_gate (d : option Draft) (v : ReusabilityVerdict)
    : M W (option Draft * ReusabilityVerdict) :=
  match d with
  | None => mret (None, v)
  | Some dr =>
      sv_refuse_inapplicable svc dr ≫= λ refused : option string, match refused with
      | None => mret (Some dr, v)
      | Some why => mret (None, one_off_verdict false (fmt "applicability gate refused draft: {}" [FS why]))
      end
  end.

(** nodes/guide_stitch.py [reject_guide_leak] *)
Definition reject_guide_leak (draft_text : string) (g : ExecutionGuide) : option text :=
  let leaked := List.filter (λ f, negb (String.eqb f "") && str_contains f draft_text)
                  (gd_primary g ++ gd_avoid g ++ gd_fallback g) in
  if is_nil leaked then None
  else Some (fmt "execution guide leaked into skill draft: {}" [FL (take 3 leaked)]).

Definition leak_gate (s : RunState) (d : option Draft) (v : ReusabilityVerdict) : option Draft * ReusabilityVerdict :=
  match d, execution_guide s with
  | Some dr, Some g =>
      match reject_guide_leak (dr_text dr) g with
      | Some leak => (None, one_off_verdict false leak)
      | None => (d, v)
      end
  | _, _ => (d, v)
  end.

(** Without a skill store or a reviewer the graph cannot promote. *)
Definition promotion_gate (cx : NodeContext) (d : option Draft) (v : ReusabilityVerdict)
    : option Draft * ReusabilityVerdict :=
  if bool_decide (verdict v = V_reusable) && (negb (has_store cx) || negb (has_reviewer cx)) then
    let reason := if negb (has_store cx) then lit "skill store not configured; recording as one_off evidence"
                  else lit "reviewer not configured; draft retained without promotion" in
    (if negb (has_store cx) then None else d,
     mkReusability V_one_off None None (parameterisable v) (context_free v) (checkable v) (not_duplicate v)
       (bounded v) (Some reason))
  else (d, v).

Definition text_app (a : option text) (b : text) : text :=
  match a with
  | Some t => fmt (template t +:+ template b) (fields t ++ fields b)
  | None => fmt ("None" +:+ template b) (fields b)
  end.

Definition payload_truthy (p : option json_obj) : bool := match p with Some (_ :: _) => true | _ => false end.

Definition _author_or_reject (s : RunState) (cx : NodeContext) : M W NodeOutcome :=
  sv_distill_success svc s ≫= λ a : option Draft * list json_obj * ReusabilityVerdict,
  let '(d0, facts, v0) := a in
  applicability_gate d0 v0 ≫= λ g : option Draft * ReusabilityVerdict,
  let '(d1, v1) := leak_gate s g.1 g.2 in
  let '(d, v) := promotion_gate cx d1 v1 in
  _ ← _record_one_off s v;
  let payload := dr_payload <$> d in
  let reusable_route := bool_decide (verdict v = V_reusable) && payload_truthy payload in
  let v' := if negb reusable_route && bool_decide (verdict v = V_reusable)
            then v <| verdict := V_one_off |> <| ru_reason := Some (lit "draft missing") |> else v in
  let note := match d with
              | Some dr => match dr_prior_version dr with
                           | Some pv => if String.eqb pv "" then ru_reason v'
                                        else Some (text_app (ru_reason v') (fmt "; authoring_prior={}" [FS pv]))
                           | None => ru_reason v'
                           end
              | None => ru_reason v'
              end in
  mret (mkOutcome (s <| draft := payload |> <| facts_extracted := facts |> <| reusability := Some v' |>)
    (Some (if reusable_route then reusable else one_off)) note).

Definition distill (s : RunState) (cx : NodeContext) : M W NodeOutcome :=
  match _eval_firewall s with
  | Some o => mret o
  | None =>
      match _arm_must_not_learn s with
      | Some o => mret o
      | None =>
          _ ← _record_solved_case s cx;
          _existing_skill_is_evidence s cx ≫= λ applied : option NodeOutcome, match applied with
          | Some o => mret o
          | None => match _version_write_budget s with Some o => mret o | None => _author_or_reject s cx end
          end
      end
  end.

(** ** nodes/review.py *)

Definition review (s : RunState) (cx : NodeContext) : M W NodeOutcome :=
  match draft s with
  | Some ((_ :: _) as d) =>
      _ ← sv_validate_draft svc d;
      if negb (has_reviewer cx) then
        mret (mkOutcome s (Some rejected)
          (Some (lit "no ReviewService configured; refusing to auto-approve into the skill store")))
      else
        sv_review_decision svc d ≫= λ dec : string * option string,
        let note := fmt "{}: {}" [FS dec.1; FS (or_empty dec.2)] in   (* then .strip() *)
        if String.eqb dec.1 "approved" then
          if version_write_excess s then mret (mkOutcome s (Some rejected) (Some (lit "version write budget exhausted")))
          else mret (mkOutcome s (Some approved) (Some note))
        else mret (mkOutcome s (Some rejected) (Some note))
  | _ => mret (mkOutcome s (Some rejected) (Some (lit "no draft to review")))
  end.

(** ** nodes/store.py *)

Definition store_entry (u : StoreSummary) : json_obj :=
  [("skill_id", JStr (su_skill_id u)); ("version", JInt (su_version u));
   ("ledger_entry_seq", JInt (su_ledger_seq u)); ("facts", JArr (map JStr (su_facts u)))].

Definition store (s : RunState) (cx : NodeContext) : M W NodeOutcome :=
  match draft s with
  | Some ((_ :: _) as d) =>
      if version_write_excess s then raise ValueError
      else
        u ← sv_store_write svc s;
        mret (mkOutcome (charge_version_write (s <| written_versions := written_versions s ++ [store_entry u] |>))
          (Some always)
          (Some (fmt "wrote {}@v{} ledger={}" [FS (su_skill_id u); FZ (su_version u); FZ (su_ledger_seq u)])))
  | _ => raise ValueError
  end.

(** ** nodes/record_dead_end.py *)

Definition failure_name (s : RunState) : string :=
  match failure s with Some f => class_str (failure_class f) | None => "unknown" end.

Definition record_dead_end (s : RunState) (cx : NodeContext) : M W NodeOutcome :=
  let note := fmt "dead end recorded: failure_class={!r}" [FR (failure_name s)] in
  if is_eval_fixture (task s) then
    mret (mkOutcome s (Some always) (Some (text_app (Some note) (lit "; eval firewall: episodic write suppressed"))))
  else if measured_only (arm s) then
    mret (mkOutcome s (Some always)
      (Some (text_app (Some note) (fmt "; {} arm: episodic write suppressed" [FS (arm_str (arm s))]))))
  else if has_episodic cx then
    let fc := match failure s with Some f => Some (class_str (failure_class f)) | None => None end in
    ref ← sv_write_case svc (case_of s cx failed_case fc
            (Some (mkDeadEnd (_current_approach s) (why_failed s (failure_name s)) (transcript_ref s))));
    mret (mkOutcome s (Some always) (Some (text_app (Some note) (fmt " case_hash={}" [FS ref]))))
  else mret (mkOutcome s (Some always) (Some note)).

(** ** nodes/reject_draft.py *)

(** [str((state.draft or {}).get("skill_id", "unknown"))] of a draft whose
    [skill_id] is a string, as every validated one is. *)
Definition draft_skill_id (s : RunState) : string :=
  match draft s with
  | Some d => match obj_get "skill_id" d with Some (JStr i) => i | _ => "unknown" end
  | None => "unknown"
  end.

Definition reject_draft (s : RunState) (cx : NodeContext) : M W NodeOutcome :=
  let id := draft_skill_id s in
  seq ← sv_ledger_append svc id
          [("run_id", JStr (cx_run_id cx)); ("draft", JBool (payload_truthy (draft s)));
           ("decision", JStr "reject_draft")];
  mret (mkOutcome s (Some always) (Some (fmt "rejected draft {}; ledger seq={}" [FS id; FZ seq]))).

(** ** nodes/finalize.py *)

Definition _TERMINAL_BY_PREDECESSOR (n : node_name) : Terminal :=
  match n with
  | N_plan => T_abstained
  | N_distill | N_store => T_solved
  | N_record_dead_end => T_unsolved
  | N_reject_draft => T_rejected
  | _ => T_error
  end.

Definition finalize (s : RunState) (cx : NodeContext) : M W NodeOutcome :=
  let t := match last (route_log s) with Some e => _TERMINAL_BY_PREDECESSOR (re_node e) | None => T_error end in
  mret (mkOutcome (s <| terminal := Some t |>) None None).

End Learn.

(** ** Lemmas *)

(** Authoring never reports [duplicate]: distill/success.py turns that verdict
    into [reusable]. *)
Definition authoring_decides {W} (svc : Services W) : Prop :=
  ∀ s w w' d facts v, sv_distill_success svc s w = (w', Ok (d, facts, v)) → verdict v ≠ V_duplicate.

Definition must_not_learn (s : RunState) : bool := is_eval_fixture (task s) || measured_only (arm s).

(** A run on the way out of [distill]: a draft that survived every gate, or
    the verdict [one_off]. *)
Definition promotable (s : RunState) (cx : NodeContext) (o : NodeOutcome) : Prop :=
  o_route o = Some reusable ∧ verdict_is V_reusable (o_state o) = true ∧ payload_truthy (draft (o_state o)) = true ∧
  has_store cx = true ∧ has_reviewer cx = true.
Definition kept_as_evidence (o : NodeOutcome) : Prop :=
  o_route o = Some one_off ∧ verdict_is V_one_off (o_state o) = true.

Definition distill_frame (s t : RunState) : Prop :=
  spent t = spent s ∧ budget t = budget s ∧ reserved t = reserved s ∧ written_versions t = written_versions s ∧
  route_log t = route_log s ∧ terminal t = terminal s ∧ criteria t = criteria s ∧ run_id t = run_id s.

(** The two verdict tests on a state given a [one_off] verdict. *)
Lemma one_off_kept t b r rs : 
  reusability t = Some (one_off_verdict b r) → kept_as_evidence (mkOutcome t (Some one_off) rs).
Proof. intros Ht. split; [done|]. unfold verdict_is. simpl. by rewrite Ht. Qed.

Lemma kept_legal o : kept_as_evidence o → leaves_legally N_distill o.
Proof.
  intros [Hr Hv]. eapply leaves_by; [exact Hr|]. rewrite legal_edges, Hv. unfold verdict_is in *.
  destruct (reusability (o_state o)) as [r|]; [|done]. apply bool_decide_eq_true in Hv. rewrite Hv. left.
Qed.

Section LearnLemmas.
  Context {W : Type} (svc : Services W).

Lemma gated_verdicts s cx d v dr g :
  verdict v ≠ V_duplicate → leak_gate s d v = (dr, g) →
  verdict (promotion_gate cx dr g).2 ≠ V_duplicate ∧
  (verdict (promotion_gate cx dr g).2 = V_reusable → has_store cx = true ∧ has_reviewer cx = true).
Proof.
  intros Hv Hl. assert (verdict g ≠ V_duplicate) as Hg.
  { unfold leak_gate in Hl. destruct d as [dd|], (execution_guide s) as [gd|]; simplify_eq; try done.
    by destruct (reject_guide_leak _ _); simplify_eq. }
  unfold promotion_gate. destruct (bool_decide (verdict g = V_reusable)) eqn:E.
  - destruct (has_store cx), (has_reviewer cx); simpl; (split; [done|]); intros; by try split.
  - split; [done|]. simpl. intros E'. by rewrite bool_decide_true in E.
Qed.

Lemma author_or_reject_Ok s cx w w' o :
  authoring_decides svc → _author_or_reject svc s cx w = (w', Ok o) →
  (promotable s cx o ∨ kept_as_evidence o) ∧ distill_frame s (o_state o).
Proof.
  intros Hlaw. unfold _author_or_reject. intros H.
  apply M_bind_Ok in H as ([[d0 facts] v0] & w1 & Ha & H). apply Hlaw in Ha.
  apply M_bind_Ok in H as ([dg vg] & w2 & Hg & H). assert (verdict vg ≠ V_duplicate) as Hvg.
  { unfold applicability_gate in Hg. destruct d0 as [dr|]; [|by inv_ok].
    apply M_bind_Ok in Hg as ([why|] & w3 & _ & Hg); by inv_ok. }
  cbn [fst snd] in H. destruct (leak_gate s dg vg) as [d1 v1] eqn:El. pose proof (gated_verdicts s cx dg vg d1 v1 Hvg El) as [Hd Hs].
  destruct (promotion_gate cx d1 v1) as [d v]. cbn [snd] in Hd, Hs. inv_ok. split; [|done]. unfold promotable, kept_as_evidence, verdict_is.
  cbn [o_route o_state]. destruct (bool_decide (verdict v = V_reusable)) eqn:Ev; simpl.
  - apply bool_decide_eq_true in Ev. destruct (Hs Ev) as [Hst Hrv]. destruct d as [[[|f fs] tx pv]|]; simpl; auto.
    left. split_and!; try done. by rewrite bool_decide_true.
  - right. split; [done|]. apply bool_decide_eq_true. apply bool_decide_eq_false in Ev. by destruct (verdict v).
Qed.

Lemma distill_Ok s cx w w' o :
  authoring_decides svc → distill svc s cx w = (w', Ok o) →
  (promotable s cx o ∧ must_not_learn s = false ∨ kept_as_evidence o) ∧ distill_frame s (o_state o).
Proof.
  intros Hlaw. unfold distill, _eval_firewall, _arm_must_not_learn, must_not_learn.
  destruct (is_eval_fixture (task s)); [intros H; cbn [negb] in H; inv_ok; split; [right; by eapply one_off_kept|done]|].
  destruct (measured_only (arm s)); [intros H; cbn [negb] in H; inv_ok; split; [right; by eapply one_off_kept|done]|]. simpl. intros H.
  apply M_bind_Ok in H as (u & w1 & _ & H). apply M_bind_Ok in H as ([e|] & w2 & He & H).
  - unfold _existing_skill_is_evidence in He. destruct (chosen s) as [c|]; [|by inv_ok].
    destruct (strategy_in _ _); inv_ok; simplify_eq. split; [right; by eapply one_off_kept|done].
  - unfold _version_write_budget in H. destruct (version_write_excess s); simpl in H.
    + inv_ok. split; [right; by eapply one_off_kept|done].
    + apply author_or_reject_Ok in H as [[H|H] Hf]; [split; [left|]|split; [right|]|done]; done.
Qed.

Lemma distill_legal s cx w w' o :
  authoring_decides svc → distill svc s cx w = (w', Ok o) → leaves_legally N_distill o.
Proof.
  intros Hlaw H. apply distill_Ok in H as [[[(Hr & Hv & _) _]|Hk] _]; [|by apply kept_legal|done].
  eapply leaves_by; [exact Hr|]. rewrite legal_edges, Hv. left.
Qed.

Lemma review_Ok s cx w w' o :
  review svc s cx w = (w', Ok o) →
  o_state o = s ∧ (o_route o = Some rejected ∨ o_route o = Some approved ∧ version_write_excess s = false ∧ has_reviewer cx = true ∧
    ∃ d w1 w2 w3 note, draft s = Some d ∧ d ≠ [] ∧ sv_validate_draft svc d w1 = (w2, Ok tt) ∧
      sv_review_decision svc d w2 = (w3, Ok ("approved", note))).
Proof.
  unfold review. intros H. destruct (draft s) as [[|f d]|]; [by inv_ok; auto| |by inv_ok; auto].
  apply M_bind_Ok in H as ([] & w1 & Hv & H). destruct (has_reviewer cx) eqn:Hr; simpl in H; [|by inv_ok; auto].
  apply M_bind_Ok in H as ([out nt] & w2 & Hd & H). cbn [fst] in H.
  destruct (String.eqb_spec out "approved") as [->|]; [|by inv_ok; auto].
  destruct (version_write_excess s) eqn:Ee; [by inv_ok; auto|]. inv_ok. split; [done|]. right.
  split_and!; try done. by eexists (f :: d), _, _, _, nt.
Qed.

Lemma store_Ok s cx w w' o :
  store svc s cx w = (w', Ok o) →
  ∃ u, sv_store_write svc s w = (w', Ok u) ∧ payload_truthy (draft s) = true ∧ version_write_excess s = false ∧
    o_state o = charge_version_write (s <| written_versions := written_versions s ++ [store_entry u] |>) ∧
    o_route o = Some always.
Proof.
  unfold store. destruct (draft s) as [[|f d]|]; try discriminate. destruct (version_write_excess s); [discriminate|].
  intros H. inv_ok. by eexists.
Qed.

Lemma record_dead_end_Ok s cx w w' o :
  record_dead_end svc s cx w = (w', Ok o) → o_state o = s ∧ o_route o = Some always.
Proof.
  unfold record_dead_end. destruct (is_eval_fixture (task s)), (measured_only (arm s)), (has_episodic cx); intros H; by inv_ok.
Qed.

Lemma reject_draft_Ok s cx w w' o :
  reject_draft svc s cx w = (w', Ok o) → o_state o = s ∧ o_route o = Some always.
Proof. unfold reject_draft. intros H. by inv_ok. Qed.
End LearnLemmas.

(** The write guard as the code computes it: the cap is exceeded and no
    earlier dimension of the budget is. *)
Lemma version_write_excess_spec s :
  version_write_excess s = true ↔
  max_versions_written (budget s) < s_versions_written (spent s) + v_versions_written (reserved s) + 1 ∧
  ∀ d, d ≠ D_versions_written → dim_exceeded (budget s) (spent s) (reserved s) (mkReservation 0 0 0 f0 f0 1) d = false.
Proof.
  unfold version_write_excess. rewrite bool_decide_eq_true. set (q := mkReservation _ _ _ _ _ _).
  unfold budget_excess, dimensions. cbn [find_first].
  assert (dim_exceeded (budget s) (spent s) (reserved s) q D_versions_written = true ↔
    max_versions_written (budget s) < s_versions_written (spent s) + v_versions_written (reserved s) + 1) as <-
    by (simpl; apply Z.ltb_lt).
  assert (∀ P : dimension → Prop, (∀ d, d ≠ D_versions_written → P d) ↔
    P D_attempts ∧ P D_tool_calls ∧ P D_tokens ∧ P D_wall_clock_s ∧ P D_cost_usd) as ->.
  { intros P. split; [intros H; split_and!; by apply H|intros (?&?&?&?&?) []; by intros]. }
  repeat match goal with |- context [if ?b then _ else _] => destruct b end; naive_solver.
Qed.

(** ** Properties *)

(** The eval and arm firewall: on a fixture task, or in the control or shadow
    arm, [distill] and [record_dead_end] perform no service call at all (the
    world is exactly as it was): nothing is written to episodic memory, no
    fact and no draft is authored, and the run goes on as a one-off. *)
Theorem learning_firewall {W} (svc : Services W) s cx w :
  must_not_learn s = true →
  (∃ o, distill svc s cx w = (w, Ok o) ∧ kept_as_evidence o ∧ leaves_legally N_distill o ∧
     (is_eval_fixture (task s) = true → draft (o_state o) = None ∧ facts_extracted (o_state o) = [])) ∧
  (∃ o, record_dead_end svc s cx w = (w, Ok o) ∧ o_state o = s ∧ o_route o = Some always).
Proof.
  unfold must_not_learn, distill, record_dead_end, _eval_firewall, _arm_must_not_learn. intros Hm.
  destruct (is_eval_fixture (task s)) eqn:Ef; simpl in Hm |- *; [|rewrite Hm; simpl]; (split; [|by eexists]);
    (eexists; split; [reflexivity|]); (split; [by eapply one_off_kept|]);
    (split; [by eapply kept_legal, one_off_kept|]); [done|discriminate].
Qed.

(** [distill] always leaves by a legal route, and reaches [review] only with
    a non-empty draft it kept, outside the firewall, with a store and a
    reviewer configured; it never touches the spend or the versions written. *)
Theorem distill_promotes_only_drafts {W} (svc : Services W) s cx w w' o :
  authoring_decides svc → distill svc s cx w = (w', Ok o) →
  leaves_legally N_distill o ∧ distill_frame s (o_state o) ∧
  (o_route o = Some reusable → must_not_learn s = false ∧ promotable s cx o).
Proof.
  intros Hlaw H. split; [by eapply distill_legal|]. apply distill_Ok in H as [H Hf]; [|done]. split; [done|].
  intros Hr. destruct H as [[Hp Hm]|[Hr' _]]; [done|congruence].
Qed.

(** A version is written only after approval: [review] approves only a
    non-empty draft that validates and that the reviewer approved, with a
    reviewer configured and the version guard clear, and never changes the
    state; [store] then calls the store exactly once and counts exactly one
    version, and without a draft or past the guard it raises before any
    effect. *)
Theorem review_then_store {W} (svc : Services W) s cx w :
  (∀ w' o, review svc s cx w = (w', Ok o) → o_state o = s ∧ leaves_legally N_review o ∧
     (o_route o = Some approved → version_write_excess s = false ∧ has_reviewer cx = true ∧
        ∃ d w1 w2 w3 note, draft s = Some d ∧ d ≠ [] ∧ sv_validate_draft svc d w1 = (w2, Ok tt) ∧
          sv_review_decision svc d w2 = (w3, Ok ("approved", note)))) ∧
  (if payload_truthy (draft s) && negb (version_write_excess s) then
     ∀ w' o, store svc s cx w = (w', Ok o) →
       ∃ u, sv_store_write svc s w = (w', Ok u) ∧
         written_versions (o_state o) = written_versions s ++ [store_entry u] ∧
         s_versions_written (spent (o_state o)) = s_versions_written (spent s) + 1 ∧ leaves_legally N_store o
   else store svc s cx w = (w, Err ValueError)).
Proof.
  split.
  - intros w' o H. apply review_Ok in H as [Hs Hr]. split; [done|]. split.
    + destruct Hr as [Hr|[Hr _]]; (eapply leaves_by; [exact Hr|]); rewrite legal_edges; [right; left|left].
    + intros Ha. destruct Hr as [Hr|(_ & ? & ? & ?)]; [congruence|done].
  - destruct (payload_truthy (draft s)) eqn:Ep, (version_write_excess s) eqn:Ee; simpl;
      try (unfold store; rewrite ?Ee; by destruct (draft s) as [[]|]).
    intros w' o H. apply store_Ok in H as (u & Hu & _ & _ & Hst & Ho). exists u.
    split; [done|]. rewrite Hst. split; [done|]. split; [done|]. eapply leaves_by; [exact Ho|]. rewrite legal_edges. left.
Qed.

(** The version cap is enforced exactly while no other dimension is exceeded:
    [store] refuses a write past [max_versions_written] unless the attempts,
    tool calls, tokens, time or cost are over their limit as well, in which
    case the guard sees that dimension first and the write goes ahead. *)
Theorem version_cap_enforced_unless_masked {W} (svc : Services W) s cx w :
  payload_truthy (draft s) = true →
  max_versions_written (budget s) < s_versions_written (spent s) + v_versions_written (reserved s) + 1 →
  let masked := ∃ d, d ≠ D_versions_written ∧
    dim_exceeded (budget s) (spent s) (reserved s) (mkReservation 0 0 0 f0 f0 1) d = true in
  (¬ masked → store svc s cx w = (w, Err ValueError)) ∧
  (masked → ∀ w' u, sv_store_write svc s w = (w', Ok u) → is_ok (store svc s cx w).2 = true).
Proof.
  intros Hp Hc masked. destruct (version_write_excess s) eqn:Ee.
  - pose proof (proj1 (version_write_excess_spec s) Ee) as [_ Hd]. split.
    + intros _. unfold store. rewrite Ee. by destruct (draft s) as [[]|].
    + intros (d & Hn & Hx). by rewrite Hd in Hx.
  - split; [intros Hm; exfalso|intros _ w' u Hw].
    + apply not_true_iff_false in Ee. apply Ee, version_write_excess_spec. split; [done|]. intros d Hn.
      destruct (dim_exceeded _ _ _ _ d) eqn:Ex; [|done]. destruct Hm. by exists d.
    + unfold store. rewrite Ee. destruct (draft s) as [[|]|]; try discriminate. unfold mbind, M_bind. by rewrite Hw.
Qed.

(** ** Concrete ends of a run *)

Definition fixture_state : RunState := v_state <| task := mkTask "t1" None (Some "make") None None None 0 true ES_single |>.

Lemma learning_firewall_witness : ∃ o, distill demo_services fixture_state demo_context tt = (tt, Ok o) ∧ kept_as_evidence o.
Proof.
  destruct (learning_firewall demo_services fixture_state demo_context tt) as [(o & H & Hk & _) _]; [reflexivity|].
  by exists o.
Defined.

Lemma demo_authoring : authoring_decides demo_services.
Proof. intros s w w' d fs v [= _ _ _ <-]. done. Defined.

Definition distilled : NodeOutcome := outcome_or v_state (distill demo_services v_state demo_context tt).
Lemma distill_promotes_only_drafts_witness : leaves_legally N_distill distilled ∧ o_route distilled = Some one_off.
Proof.
  split; [|vm_compute; reflexivity].
  refine (proj1 (distill_promotes_only_drafts demo_services v_state demo_context tt tt distilled demo_authoring _)).
  vm_compute. reflexivity.
Defined.

(** A draft on a run whose version cap is zero. *)
Definition capped_state (wall : float) : RunState :=
  v_state <| draft := Some [("skill_id", JStr "s")] |>
    <| budget := default_Budget <| max_versions_written := 0 |> |>
    <| spent := mkSpend 1 0 0 wall f0 0 |>.

Lemma version_cap_enforced_unless_masked_witness :
  store demo_services (capped_state f0) demo_context tt = (tt, Err ValueError) ∧
  is_ok (store demo_services (capped_state (Z2f 100000)) demo_context tt).2 = true.
Proof.
  split.
  - refine (proj1 (version_cap_enforced_unless_masked demo_services (capped_state f0) demo_context tt _ _) _).
    + reflexivity.
    + reflexivity.
    + intros (d & Hd & H). destruct d; vm_compute in H; try discriminate. by destruct Hd.
  - refine (proj2 (version_cap_enforced_unless_masked demo_services (capped_state (Z2f 100000)) demo_context tt _ _) _ tt _ _).
    + reflexivity.
    + reflexivity.
    + exists D_wall_clock_s. split; [discriminate|]. vm_compute. reflexivity.
    + reflexivity.
Defined.
