(* ===== verification/Fence.v ===== *)
(** * Fencing compare against [run_leases] (persistence/fence.py)

    The [run_leases] table and [require_lease_token], the check every durable
    write of a run makes in its own transaction. *)
From S2P Require Import Prelude.
From Stdlib Require Import ZArith Lia.
Open Scope Z_scope.

(** Primary key of [run_leases]: [(tenant_id, run_id)]. *)
Notation lease_key := (string * string)%type (only parsing).

(** A [run_leases] row.  [heartbeat_at] is the ISO text read back: [None] when
    [datetime.fromisoformat] refuses it.  [status] is NULL-able in old files. *)
Record LeaseRow := mkLeaseRow {
  lr_owner_id : string;
  lr_fencing_token : Z;
  lr_incarnation : Z;
  lr_heartbeat_at : option Z;
  lr_heartbeat_mono : option float;
  lr_lock_path : option string;
  lr_lock_gen : option string;
  lr_status : option string }.

#[export] Instance eta_LeaseRow : Eta LeaseRow := λ r,
  mkLeaseRow (lr_owner_id r) (lr_fencing_token r) (lr_incarnation r) (lr_heartbeat_at r)
    (lr_heartbeat_mono r) (lr_lock_path r) (lr_lock_gen r) (lr_status r).

(** What a connection sees: the rows, or no [run_leases] table in any schema. *)
Notation lease_table := (gmap (string * string) LeaseRow) (only parsing).
Notation lease_view := (option (gmap (string * string) LeaseRow)) (only parsing).

Inductive missing_row := m_reject | m_allow.
#[export] Instance missing_row_eq_dec : EqDecision missing_row. Proof. solve_decision. Defined.

(** [str(row[1] or "held")] *)
Definition status_of (r : LeaseRow) : string :=
  match lr_status r with
  | Some s => if decide (s = "") then "held" else s
  | None => "held"
  end.

Definition token_matches (tok : option Z) (stored : Z) : bool :=
  match tok with Some t => t =? stored | None => false end.

(** The inner [_check(conn)]. *)
Definition check_lease (view : lease_view) (k : lease_key) (tok : option Z) (m : missing_row)
    : result unit :=
  match view with
  | None => raise_unless (bool_decide (m = m_allow)) LeaseLost
  | Some tbl =>
      match tbl !! k with
      | None => raise_unless (bool_decide (m = m_allow)) LeaseLost
      | Some row =>
          if decide (status_of row = "held")
          then raise_unless (token_matches tok (lr_fencing_token row)) LeaseLost
          else Err LeaseLost
      end
  end.

(** [file] is the lease database on disk ([None] when it does not exist),
    [conn] the view of a supplied connection. *)
Definition require_lease_token (file : option lease_view) (conn : option lease_view)
    (k : lease_key) (tok : option Z) (m : missing_row) : result unit :=
  if bool_decide (tok = None) && negb (bool_decide (m = m_allow)) then Err LeaseLost
  else match conn with
  | Some view => check_lease view k tok m
  | None =>
      match file with
      | None => raise_unless (bool_decide (m = m_allow)) LeaseLost
      | Some view => check_lease view k tok m
      end
  end.

(** ** The compare, characterised *)

(** The current holder: the row is held under this very token. *)
Definition holds (view : lease_view) (k : lease_key) (t : Z) : Prop :=
  ∃ tbl row, view = Some tbl ∧ tbl !! k = Some row ∧
    status_of row = "held" ∧ lr_fencing_token row = t.

(** Never leased: no table or no row. *)
Definition never_leased (view : lease_view) (k : lease_key) : Prop :=
  match view with None => True | Some tbl => tbl !! k = None end.

Lemma check_lease_Ok view k tok m u :
  check_lease view k tok m = Ok u ↔
  (∃ t, tok = Some t ∧ holds view k t) ∨ (m = m_allow ∧ never_leased view k).
Proof.
  destruct u. unfold check_lease, holds, never_leased. destruct view as [tbl|].
  - destruct (tbl !! k) as [row|] eqn:E.
    + destruct (decide (status_of row = "held")) as [Hs|Hs].
      * rewrite raise_unless_Ok. unfold token_matches. split.
        -- destruct tok as [t|]; [|discriminate]. intros ->%Z.eqb_eq.
           left. eexists; split; [done|]. by exists tbl, row.
        -- intros [(t & -> & tbl' & row' & [= <-] & H & _ & <-)|[_ H]]; [|congruence].
           assert (row = row') as <- by congruence. apply Z.eqb_refl.
      * split; [discriminate|].
        intros [(t & _ & tbl' & row' & [= <-] & H & Hh & _)|[_ H]]; [|congruence].
        assert (row = row') as <- by congruence. contradiction.
    + rewrite raise_unless_Ok, bool_decide_eq_true. split; [intros ->; by right|].
      intros [(t & _ & tbl' & row' & [= <-] & H & _)|[? _]]; [congruence|done].
  - rewrite raise_unless_Ok, bool_decide_eq_true. split; [intros ->; by right|].
    intros [(t & _ & tbl' & row' & H & _)|[? _]]; [congruence|done].
Qed.

Lemma holds_unique view k t1 t2 : holds view k t1 → holds view k t2 → t1 = t2.
Proof.
  intros (tbl & r & -> & H & _ & <-) (tbl' & r' & [= <-] & H' & _ & <-). congruence.
Qed.

#[export] Hint Resolve holds_unique : recertia.

(** The compare lets through exactly the run's current holder and, when the
    caller allows a missing row, token-less and token-carrying writes of a run
    that was never leased.  A released row admits nobody. *)
Theorem require_lease_token_sound file view k tok m :
  require_lease_token file (Some view) k tok m = Ok tt ↔
  (∃ t, tok = Some t ∧ holds view k t) ∨ (m = m_allow ∧ never_leased view k).
Proof.
  unfold require_lease_token. simpl. destruct (bool_decide (tok = None) && _) eqn:E.
  - apply andb_true_iff in E as [->%bool_decide_eq_true Hm%negb_true_iff%bool_decide_eq_false].
    split; [discriminate|]. intros [(t & ? & _)|[? _]]; [discriminate|contradiction].
  - apply check_lease_Ok.
Qed.
