(* ===== verification/Lease.v ===== *)
(** * Run leases (graph/lease.py)

    [RunLease.acquire], [heartbeat] and [release] over the host they act on:
    the lock files with their inodes and payloads, the [flock]s, the per-path
    thread locks of each process, and the [run_leases] table of [Fence].
    A lock file's text ["<token> <gen>\n"] is kept as the pair it is parsed to.
    I/O errors of the operating system are not modelled. *)
From S2P Require Import Prelude Fence.
From Stdlib Require Import ZArith Lia.
Open Scope Z_scope.

Record LockFile := mkLockFile { lf_ino : Z; lf_token : Z; lf_gen : option string }.

Record Host := mkHost {
  win32 : bool;
  files : gmap string LockFile;
  next_ino : Z;
  flocks : gmap Z string;               (* inode ↦ process holding the flock *)
  thread_locks : gset (string * string); (* (process, path) *)
  lease_db : option lease_view }.

#[export] Instance eta_Host : Eta Host := λ w,
  mkHost (win32 w) (files w) (next_ino w) (flocks w) (thread_locks w) (lease_db w).

(** The time read by one call: wall clock in microseconds, monotonic seconds. *)
Record Clock := mkClock { wall : Z; mono : float }.

Record RunLease := mkRunLease {
  rl_process : string;
  rl_path : string;
  rl_has_db : bool;                (* [db_path is not None] *)
  rl_key : string * string;        (* (tenant_id, run_id) *)
  rl_owner_id : string;
  rl_ttl_s : float;
  rl_fd : option Z;                (* inode behind the open descriptor *)
  rl_held : bool;
  rl_token : option Z;
  rl_incarnation : Z }.

#[export] Instance eta_RunLease : Eta RunLease := λ l,
  mkRunLease (rl_process l) (rl_path l) (rl_has_db l) (rl_key l) (rl_owner_id l) (rl_ttl_s l)
    (rl_fd l) (rl_held l) (rl_token l) (rl_incarnation l).

(** [RunLease(path, db_path=..., ...)] *)
Definition new_RunLease (proc path : string) (has_db : bool) (k : string * string)
    (owner : string) (ttl : float) : RunLease :=
  mkRunLease proc path has_db k owner ttl None false None 1.

Definition has_row (l : RunLease) : bool := rl_has_db l && negb (bool_decide ((rl_key l).2 = "")).

(** [timedelta.total_seconds()] *)
Definition total_seconds (us : Z) : float := Z2f us ⊘ Z2f 1000000.

Definition _expired (ttl : float) (c : Clock) (hb_at : option Z) (hb_mono : option float) : bool :=
  match hb_at with
  | None => true
  | Some thn =>
      if ttl <=?. total_seconds (wall c - thn) then true
      else match hb_mono with
           | None => false
           | Some stored => if mono c <?. stored then true else ttl <=?. (mono c ⊖ stored)
           end
  end.

(** [_ensure_leases_table] *)
Definition ensure_table (db : option lease_view) : lease_table :=
  match db with Some (Some tbl) => tbl | _ => ∅ end.

Definition gens_match (path_existed : bool) (prior stored : option string) : bool :=
  match prior, stored with
  | Some p, Some s => path_existed && negb (bool_decide (p = "")) && negb (bool_decide (s = ""))
                      && bool_decide (p = s)
  | _, _ => false
  end.

(** The incarnation decision of [_record_acquire] on an existing row. *)
Definition next_incarnation (l : RunLease) (c : Clock) (row : LeaseRow) (prior_gen : option string)
    (path_existed : bool) : result Z :=
  if decide (status_of row = "held") then
    if gens_match path_existed prior_gen (lr_lock_gen row) then Ok (lr_incarnation row)
    else if negb (_expired (rl_ttl_s l) c (lr_heartbeat_at row) (lr_heartbeat_mono row))
    then Err RunBusy
    else Ok (lr_incarnation row + 1)
  else Ok (lr_incarnation row).

(** [_record_acquire]: the new row, or the refusal; the table exists afterwards. *)
Definition _record_acquire (l : RunLease) (c : Clock) (token : Z) (lock_gen : string)
    (prior_gen : option string) (path_existed : bool) (db : option lease_view)
    : option lease_view * result (Z * Z) :=
  if negb (has_row l) then (db, Ok (token, 1))
  else
    let tbl := ensure_table db in
    let decided := match tbl !! rl_key l with
      | None => Ok (token, 1)
      | Some row =>
          inc ← next_incarnation l c row prior_gen path_existed;
          Ok (Z.max token (lr_fencing_token row + 1), inc)
      end in
    match decided with
    | Err e => (Some (Some tbl), Err e)
    | Ok (tok, inc) =>
        let row := mkLeaseRow (rl_owner_id l) tok inc (Some (wall c)) (Some (mono c))
                     (Some (rl_path l)) (Some lock_gen) (Some "held") in
        (Some (Some (<[rl_key l := row]> tbl)), Ok (tok, inc))
    end.

(** [os.open(path, O_CREAT | O_RDWR)] *)
Definition open_lock_file (w : Host) (path : string) : Host * LockFile :=
  match files w !! path with
  | Some f => (w, f)
  | None =>
      let f := mkLockFile (next_ino w) 0 None in
      (w <| files := <[path := f]> (files w) |> <| next_ino := next_ino w + 1 |>, f)
  end.

Definition lock_thread (w : Host) (l : RunLease) : Host :=
  w <| thread_locks := {[ (rl_process l, rl_path l) ]} ∪ thread_locks w |>.
Definition unlock_thread (w : Host) (l : RunLease) : Host :=
  w <| thread_locks := thread_locks w ∖ {[ (rl_process l, rl_path l) ]} |>.
Definition flock (w : Host) (ino : Z) (p : string) : Host :=
  if win32 w then w else w <| flocks := <[ino := p]> (flocks w) |>.
Definition funlock (w : Host) (ino : Z) : Host :=
  if win32 w then w else w <| flocks := delete ino (flocks w) |>.
Definition flock_busy (w : Host) (ino : Z) : bool :=
  negb (win32 w) && bool_decide (is_Some (flocks w !! ino)).

Definition write_payload (w : Host) (path : string) (f : LockFile) (tok : Z) (gen : string) : Host :=
  w <| files := <[path := mkLockFile (lf_ino f) tok (Some gen)]> (files w) |>.

(** [RunLease.acquire]; [lock_gen] is the [secrets.token_hex(16)] it draws. *)
Definition acquire (l : RunLease) (c : Clock) (lock_gen : string) (w : Host)
    : Host * result RunLease :=
  if decide ((rl_process l, rl_path l) ∈ thread_locks w) then (w, Err RunBusy)
  else
    let path_existed := bool_decide (is_Some (files w !! rl_path l)) in
    let '(w2, f) := open_lock_file (lock_thread w l) (rl_path l) in
    if flock_busy w2 (lf_ino f) then (unlock_thread w2 l, Err RunBusy)
    else
      let w3 := flock w2 (lf_ino f) (rl_process l) in
      let '(db, r) := _record_acquire l c (lf_token f + 1) lock_gen (lf_gen f) path_existed
                        (lease_db w3) in
      let w4 := w3 <| lease_db := db |> in
      match r with
      | Err e => (unlock_thread (funlock w4 (lf_ino f)) l, Err e)
      | Ok (tok, inc) =>
          (write_payload w4 (rl_path l) f tok lock_gen,
           Ok (l <| rl_held := true |> <| rl_fd := Some (lf_ino f) |>
                 <| rl_token := Some tok |> <| rl_incarnation := inc |>))
      end.

Definition update_row (db : option lease_view) (k : string * string)
    (keep : LeaseRow → bool) (f : LeaseRow → LeaseRow) : option lease_view :=
  match db with
  | Some (Some tbl) =>
      Some (Some (alter (λ r, if keep r then f r else r) k tbl))
  | _ => db
  end.

(** [_touch_row]: only the row still carrying this lease's token. *)
Definition _touch_row (l : RunLease) (c : Clock) (w : Host) : Host :=
  match has_row l, rl_token l with
  | true, Some tok =>
      w <| lease_db := update_row (lease_db w) (rl_key l)
             (λ r, lr_fencing_token r =? tok)
             (λ r, r <| lr_heartbeat_at := Some (wall c) |>
                     <| lr_heartbeat_mono := Some (mono c) |>) |>
  | _, _ => w
  end.

Definition heartbeat (l : RunLease) (c : Clock) (w : Host) : Host :=
  match rl_fd l with
  | None => w
  | Some _ =>
      (* [os.utime(self.path)] fails when the lock file is gone *)
      if decide (is_Some (files w !! rl_path l)) then _touch_row l c w else w
  end.

(** [_mark_released]: the UPDATE names the run, not the token. *)
Definition _mark_released (l : RunLease) (w : Host) : Host :=
  if has_row l then
    w <| lease_db := update_row (Some (Some (ensure_table (lease_db w)))) (rl_key l)
           (λ _, true) (λ r, r <| lr_status := Some "released" |>) |>
  else w.

Definition release (l : RunLease) (w : Host) : Host * RunLease :=
  let w1 := _mark_released l w in
  let w2 := match rl_fd l with Some ino => funlock w1 ino | None => w1 end in
  let w3 := if rl_held l then unlock_thread w2 l else w2 in
  (w3, l <| rl_fd := None |> <| rl_token := None |> <| rl_incarnation := 1 |>
         <| rl_held := false |>).

(** ** The host as a transition system *)

(** Any lease object may act at any time, lock files may be removed, and a
    process may die with its descriptors and thread locks. *)
Inductive host_step : Host → Host → Prop :=
  | step_acquire l c gen w : host_step w (acquire l c gen w).1
  | step_heartbeat l c w : host_step w (heartbeat l c w)
  | step_release l w : host_step w (release l w).1
  | step_unlink path w : host_step w (w <| files := delete path (files w) |>)
  | step_die p w :
      host_step w (w <| flocks := filter (λ kv, kv.2 ≠ p) (flocks w) |>
                     <| thread_locks := filter (λ tp, tp.1 ≠ p) (thread_locks w) |>).

(** ** Lemmas *)

Definition row_of (w : Host) (k : string * string) : option LeaseRow :=
  ensure_table (lease_db w) !! k.

Lemma view_holds_row w v k t :
  lease_db w = Some v → holds v k t ↔
  ∃ row, row_of w k = Some row ∧ status_of row = "held" ∧ lr_fencing_token row = t.
Proof.
  intros Hv. unfold row_of, holds. rewrite Hv. destruct v as [tbl|]; simpl.
  - split.
    + intros (t' & row & Ht & H). injection Ht as <-. by exists row.
    + intros (row & H). by exists tbl, row.
  - split; [by intros (? & ? & ? & _)|]. intros (row & H & _). by rewrite lookup_empty in H.
Qed.

Lemma update_row_lookup db k keep f k' :
  ensure_table (update_row db k keep f) !! k' =
  (if decide (k = k') then (λ r, if keep r then f r else r) <$> ensure_table db !! k'
   else ensure_table db !! k').
Proof.
  destruct db as [[tbl|]|]; simpl.
  - rewrite lookup_alter. by destruct (decide (k = k')) as [->|].
  - rewrite lookup_empty. by destruct (decide _).
  - rewrite lookup_empty. by destruct (decide _).
Qed.

Lemma lease_db_funlock w ino : lease_db (funlock w ino) = lease_db w.
Proof. unfold funlock. by destruct (win32 w). Qed.
Lemma lease_db_flock w ino p : lease_db (flock w ino p) = lease_db w.
Proof. unfold flock. by destruct (win32 w). Qed.
Lemma lease_db_open w path : lease_db (open_lock_file w path).1 = lease_db w.
Proof. unfold open_lock_file. by destruct (files w !! path). Qed.

(** What [_record_acquire] does to the row of its own key, and to others. *)
Lemma record_acquire_other l c tok gen pg pe db db' r k :
  _record_acquire l c tok gen pg pe db = (db', r) → k ≠ rl_key l →
  ensure_table db' !! k = ensure_table db !! k.
Proof.
  unfold _record_acquire. intros H Hk. destruct (has_row l); simpl in H; [|by simplify_eq].
  set (d := match ensure_table db !! rl_key l with Some _ => _ | None => _ end) in H.
  destruct d as [[tok' inc]|e]; simplify_eq; simpl; [|done].
  by rewrite lookup_insert_ne.
Qed.

Lemma record_acquire_Ok l c tok gen pg pe db db' tok' inc :
  _record_acquire l c tok gen pg pe db = (db', Ok (tok', inc)) → has_row l = true →
  tok ≤ tok' ∧
  (∀ row, ensure_table db !! rl_key l = Some row → lr_fencing_token row < tok') ∧
  ensure_table db' !! rl_key l =
    Some (mkLeaseRow (rl_owner_id l) tok' inc (Some (wall c)) (Some (mono c))
            (Some (rl_path l)) (Some gen) (Some "held")).
Proof.
  unfold _record_acquire. intros H Hr. rewrite Hr in H. simpl in H.
  destruct (ensure_table db !! rl_key l) as [row|] eqn:E.
  - destruct (next_incarnation l c row pg pe) as [inc'|e]; simpl in H; simplify_eq; simpl.
    rewrite lookup_insert_eq. split; [lia|]. split; [|done].
    intros row' [= <-]. lia.
  - simplify_eq; simpl. rewrite lookup_insert_eq. split; [lia|]. split; [done|done].
Qed.

Lemma record_acquire_Err l c tok gen pg pe db db' e :
  _record_acquire l c tok gen pg pe db = (db', Err e) →
  ensure_table db' = ensure_table db ∧ e = RunBusy.
Proof.
  unfold _record_acquire. destruct (has_row l); simpl; [|done].
  destruct (ensure_table db !! rl_key l) as [row|] eqn:E; [|done].
  unfold next_incarnation. intros H. repeat break_match_in H; simpl in *; simplify_eq; done.
Qed.

(** [acquire] either refuses with [RunBusy], rows untouched, or records a row. *)
Lemma acquire_spec l c gen w w' r :
  acquire l c gen w = (w', r) →
  (r = Err RunBusy ∧ ∀ k, row_of w' k = row_of w k) ∨
  (∃ f pe db' tok inc,
     _record_acquire l c (lf_token f + 1) gen (lf_gen f) pe (lease_db w) = (db', Ok (tok, inc)) ∧
     lease_db w' = db' ∧
     (files w !! rl_path l = Some f ∧ pe = true ∨ files w !! rl_path l = None ∧ pe = false) ∧
     r = Ok (l <| rl_held := true |> <| rl_fd := Some (lf_ino f) |>
               <| rl_token := Some tok |> <| rl_incarnation := inc |>)).
Proof.
  unfold acquire, row_of. destruct (decide _); [intros [= <- <-]; by left|].
  pose proof (lease_db_open (lock_thread w l) (rl_path l)) as Ho.
  destruct (open_lock_file _ _) as [w2 f] eqn:Ef. simpl in Ho.
  destruct (flock_busy w2 (lf_ino f)).
  { intros [= <- <-]. left. split; [done|]. intros k. simpl. by rewrite Ho. }
  rewrite lease_db_flock, Ho.
  destruct (_record_acquire _ _ _ _ _ _ _) as [db [[tok inc]|e]] eqn:E; intros [= <- <-].
  - right. exists f, (bool_decide (is_Some (files w !! rl_path l))), db, tok, inc.
    split_and!; try done. unfold open_lock_file in Ef. simpl in Ef.
    destruct (files w !! rl_path l) eqn:Ex; simplify_eq; [left|right]; done.
  - left. apply record_acquire_Err in E as [E ->]. split; [done|].
    intros k. simpl. rewrite lease_db_funlock. simpl. by rewrite E.
Qed.

Lemma acquire_Ok_row l c gen w w' l' :
  acquire l c gen w = (w', Ok l') → has_row l = true →
  ∃ tok, rl_token l' = Some tok ∧
    (∀ row, row_of w (rl_key l) = Some row → lr_fencing_token row < tok) ∧
    row_of w' (rl_key l) =
      Some (mkLeaseRow (rl_owner_id l) tok (rl_incarnation l') (Some (wall c)) (Some (mono c))
              (Some (rl_path l)) (Some gen) (Some "held")).
Proof.
  intros H Hr. apply acquire_spec in H as [[H _]|(f & pe & db & tok & inc & E & Hdb & _ & H)];
    [discriminate|].
  injection H as ->. apply record_acquire_Ok in E as (_ & Hlt & Hrow); [|done].
  exists tok. unfold row_of. rewrite Hdb. split_and!; done.
Qed.

(** Every step keeps every row, with a token no smaller. *)
Lemma host_step_mono w w' k row :
  host_step w w' → row_of w k = Some row →
  ∃ row', row_of w' k = Some row' ∧ lr_fencing_token row ≤ lr_fencing_token row'.
Proof.
  intros Hs Hrow. destruct Hs as [l c gen w|l c w|l w|path w|p w].
  - destruct (acquire l c gen w) as [w' r] eqn:E. simpl.
    destruct (decide (k = rl_key l)) as [->|Hne].
    + pose proof E as E'. apply acquire_spec in E' as [[_ Hk]|(f & pe & db & tok & inc & Ea & Hdb & _ & ->)].
      * rewrite Hk. eauto with lia.
      * destruct (has_row l) eqn:Hr.
        -- apply record_acquire_Ok in Ea as (_ & Hlt & Hnew); [|done].
           eexists. unfold row_of. rewrite Hdb. split; [done|]. simpl.
           specialize (Hlt _ Hrow). lia.
        -- unfold _record_acquire in Ea. rewrite Hr in Ea. simpl in Ea.
           injection Ea as <- _ _. unfold row_of in *. rewrite Hdb. eauto with lia.
    + apply acquire_spec in E as [[_ Hk]|(f & pe & db & tok & inc & Ea & Hdb & _)].
      * rewrite Hk. eauto with lia.
      * exists row. split; [|lia]. unfold row_of in *. rewrite Hdb.
        by rewrite (record_acquire_other _ _ _ _ _ _ _ _ _ _ Ea Hne).
  - unfold heartbeat, _touch_row. destruct (rl_fd l); [|eauto with lia].
    destruct (decide _); [|eauto with lia].
    destruct (has_row l), (rl_token l) as [tok|]; simpl; eauto with lia.
    unfold row_of. simpl. rewrite update_row_lookup. unfold row_of in Hrow. rewrite Hrow. simpl.
    destruct (decide _); [|eauto with lia].
    destruct (_ =? _); eexists; split; try done; simpl; lia.
  - unfold release, _mark_released. simpl.
    assert (∃ row', row_of (if has_row l then w <| lease_db := update_row
      (Some (Some (ensure_table (lease_db w)))) (rl_key l) (λ _, true)
      (λ r, r <| lr_status := Some "released" |>) |> else w) k = Some row' ∧
      lr_fencing_token row ≤ lr_fencing_token row') as (row' & H1 & H2).
    { destruct (has_row l); [|eauto with lia]. unfold row_of in *. simpl.
      rewrite lookup_alter.
      destruct (decide _) as [<-|]; [|eauto with lia]. rewrite Hrow. simpl.
      eexists; split; [done|]. simpl. lia. }
    exists row'. split; [|done]. revert H1. unfold row_of.
    destruct (rl_fd l), (rl_held l); simpl; rewrite ?lease_db_funlock; done.
  - unfold row_of in *. simpl. eauto with lia.
  - unfold row_of in *. simpl. eauto with lia.
Qed.

Lemma host_steps_mono w w' k row :
  rtc host_step w w' → row_of w k = Some row →
  ∃ row', row_of w' k = Some row' ∧ lr_fencing_token row ≤ lr_fencing_token row'.
Proof.
  intros H. revert row. induction H as [w|w w1 w' Hs _ IH]; intros row Hrow; [eauto with lia|].
  destruct (host_step_mono _ _ _ _ Hs Hrow) as (row1 & H1 & Hle).
  destruct (IH _ H1) as (row2 & H2 & Hle2). exists row2. split; [done|lia].
Qed.

(** After an acquisition the file's lock and the path's thread lock are taken. *)
Lemma acquire_leases_locked l c gen w w' l' :
  acquire l c gen w = (w', Ok l') → win32 w = false →
  win32 w' = false ∧ (rl_process l, rl_path l) ∈ thread_locks w' ∧
  ∃ f, files w' !! rl_path l = Some f ∧ rl_fd l' = Some (lf_ino f) ∧
       is_Some (flocks w' !! lf_ino f).
Proof.
  unfold acquire. destruct (decide _); [by intros|].
  destruct (open_lock_file _ _) as [w2 f] eqn:Eo.
  assert (win32 w2 = win32 w ∧ thread_locks w2 = thread_locks (lock_thread w l)) as [Hw Ht].
  { unfold open_lock_file in Eo. destruct (_ !! _); simplify_eq; done. }
  destruct (flock_busy _ _); [by intros|].
  destruct (_record_acquire _ _ _ _ _ _ _) as [db [[tok inc]|e]]; [|by intros].
  intros [= <- <-] Hwin. unfold flock. rewrite Hw, Hwin. simpl.
  rewrite Ht. simpl. split; [by rewrite Hw|]. split; [set_solver|].
  eexists. rewrite lookup_insert_eq. split; [done|]. simpl. split; [done|].
  rewrite lookup_insert_eq. eauto.
Qed.

(** A path whose file lock is taken cannot be acquired. *)
Lemma acquire_busy l c gen w f p :
  win32 w = false → files w !! rl_path l = Some f → flocks w !! lf_ino f = Some p →
  (acquire l c gen w).2 = Err RunBusy.
Proof.
  intros Hw Hf Hl. unfold acquire. destruct (decide _); [done|].
  unfold open_lock_file. simpl. rewrite Hf. unfold flock_busy. simpl. rewrite Hw, Hl. done.
Qed.

(** ** Theorems *)

(** C4: Once a later acquisition of the run has succeeded, the earlier holder's
    fencing token is refused for good: by every connection to the lease
    database, in every state the host can reach from there, whatever leases
    are acquired, beaten or released, files unlinked or processes killed. *)
Theorem stale_token_rejected l1 l2 l1' l2' c1 c2 g1 g2 w0 w1 w2 w3 w4 t v m :
  has_row l1 = true → has_row l2 = true → rl_key l1 = rl_key l2 →
  acquire l1 c1 g1 w0 = (w1, Ok l1') → rl_token l1' = Some t →
  rtc host_step w1 w2 →
  acquire l2 c2 g2 w2 = (w3, Ok l2') →
  rtc host_step w3 w4 → lease_db w4 = Some v →
  require_lease_token (lease_db w4) (Some v) (rl_key l1) (Some t) m = Err LeaseLost.
Proof.
  intros Hr1 Hr2 Hk A1 Ht R12 A2 R34 Hv.
  apply acquire_Ok_row in A1 as (t1 & Ht1 & _ & Hrow1); [|done].
  assert (t1 = t) as -> by congruence. clear Ht1.
  destruct (host_steps_mono _ _ _ _ R12 Hrow1) as (row2 & Hrow2 & Hle). simpl in Hle.
  apply acquire_Ok_row in A2 as (t2 & Ht2 & Hlt & Hrow3); [|done].
  rewrite Hk in Hrow2. specialize (Hlt _ Hrow2).
  destruct (host_steps_mono _ _ _ _ R34 Hrow3) as (row4 & Hrow4 & Hle4). simpl in Hle4.
  unfold require_lease_token. simpl.
  destruct (check_lease v (rl_key l1) (Some t) m) as [u|e] eqn:E.
  - apply check_lease_Ok in E as [(t' & [= <-] & Hh)|[_ Hn]].
    + apply (view_holds_row _ _ _ _ Hv) in Hh as (row & Hrow & _ & Hrt).
      rewrite Hk in Hrow. simplify_eq. lia.
    + unfold row_of in Hrow4. rewrite Hv in Hrow4.
      destruct v as [tbl|]; simpl in *; [rewrite Hk in Hn; congruence|].
      by rewrite lookup_empty in Hrow4.
  - unfold check_lease in E. repeat break_match_in E; unfold raise_unless in E;
      repeat break_match_in E; simplify_eq; done.
Qed.

(** The incarnation of a run that has a row: it is kept when the row was
    released or when the lock file still carries the row's generation (the
    previous holder died), and bumped exactly when a held row has expired and
    the lock file is not the holder's.  Nothing else acquires. *)
Theorem acquire_incarnation l c g w w' l' row :
  has_row l = true → row_of w (rl_key l) = Some row → acquire l c g w = (w', Ok l') →
  (status_of row ≠ "held" ∧ rl_incarnation l' = lr_incarnation row) ∨
  (status_of row = "held" ∧ rl_incarnation l' = lr_incarnation row ∧
   ∃ f, files w !! rl_path l = Some f ∧ lf_gen f = lr_lock_gen row ∧ is_Some (lf_gen f)) ∨
  (status_of row = "held" ∧ rl_incarnation l' = lr_incarnation row + 1 ∧
   _expired (rl_ttl_s l) c (lr_heartbeat_at row) (lr_heartbeat_mono row) = true).
Proof.
  intros Hr Hrow A.
  apply acquire_spec in A as [[A _]|(f & pe & db & tok & inc & E & _ & Hf & A)]; [discriminate|].
  injection A as ->. simpl. unfold _record_acquire in E. unfold row_of in Hrow.
  rewrite Hr, Hrow in E. simpl in E. unfold next_incarnation in E.
  destruct (decide (status_of row = "held")) as [Hs|Hs]; simpl in E.
  - destruct (gens_match _ _ _) eqn:G; simpl in E.
    + injection E as _ _ <-. right; left. split_and!; [done|done|]. unfold gens_match in G.
      destruct (lf_gen f) as [p|] eqn:Ep, (lr_lock_gen row) as [q|]; try done.
      apply andb_true_iff in G as [G ->%bool_decide_eq_true].
      destruct Hf as [[Hf _]|[_ ->]]; [|done]. exists f. rewrite Ep. eauto.
    + destruct (_expired _ _ _ _) eqn:X; simpl in E; [|done].
      injection E as _ _ <-. right; right. done.
  - injection E as _ _ <-. left. done.
Qed.

(** Mutual exclusion on POSIX hosts: straight after an acquisition, another
    acquisition of the same lock path, in this process or any other, for
    whatever run, owner and time, raises [RunBusy]. *)
Theorem acquire_excludes l1 l2 c1 c2 g1 g2 w w1 l1' :
  win32 w = false → rl_path l1 = rl_path l2 → acquire l1 c1 g1 w = (w1, Ok l1') →
  (acquire l2 c2 g2 w1).2 = Err RunBusy.
Proof.
  intros Hw Hp A. destruct (acquire_leases_locked _ _ _ _ _ _ A Hw)
    as (Hw1 & _ & f & Hf & _ & [p Hl]).
  rewrite Hp in Hf. by eapply acquire_busy.
Qed.

(** [release] is not fenced: an ex-holder whose lease was stolen marks the row
    of the current holder released, and the current holder's own token is then
    refused although nobody acquired the run after it. *)
Theorem stale_release_revokes_holder l1' l2 l2' c2 g2 w2 w3 v m :
  has_row l1' = true → has_row l2 = true → rl_key l1' = rl_key l2 →
  acquire l2 c2 g2 w2 = (w3, Ok l2') →
  lease_db (release l1' w3).1 = Some v →
  require_lease_token (Some v) (Some v) (rl_key l2) (rl_token l2') m = Err LeaseLost.
Proof.
  intros Hr1 Hr2 Hk A Hv. apply acquire_Ok_row in A as (t & Ht & _ & Hrow); [|done].
  assert (∃ row, row_of (release l1' w3).1 (rl_key l2) = Some row ∧
    status_of row = "released") as (row & Hrow' & Hs).
  { exists (mkLeaseRow (rl_owner_id l2) t (rl_incarnation l2') (Some (wall c2)) (Some (mono c2))
              (Some (rl_path l2)) (Some g2) (Some "released")).
    split; [|done]. unfold release, _mark_released, row_of. rewrite Hr1. simpl.
    destruct (rl_fd l1'), (rl_held l1'); simpl; rewrite ?lease_db_funlock; simpl;
      unfold row_of in Hrow; rewrite Hk, lookup_alter_eq, Hrow; done. }
  unfold row_of in Hrow'. rewrite Hv in Hrow'. unfold require_lease_token. rewrite Ht. simpl.
  unfold check_lease. destruct v as [tbl|]; simpl in Hrow'.
  - rewrite Hrow', Hs. done.
  - by rewrite lookup_empty in Hrow'.
Qed.

(** ** Witnesses: a steal after expiry with a fresh lock file *)

Module Example.
Definition host0 : Host := mkHost false ∅ 7 ∅ ∅ None.
Definition ttl30 : float := Z2f 30.
Definition leaseA : RunLease := new_RunLease "pid:1" "locks/r1.lock" true ("local", "r1") "A" ttl30.
Definition leaseB : RunLease := new_RunLease "pid:2" "locks/r1.lock" true ("local", "r1") "B" ttl30.
Definition t0 : Clock := mkClock 0 f0.
Definition t60 : Clock := mkClock 60000000 (Z2f 60).
Definition or_same (l : RunLease) (r : result RunLease) : RunLease :=
  match r with Ok l' => l' | Err _ => l end.
Definition host1 : Host := (acquire leaseA t0 "gA" host0).1.
Definition leaseA' : RunLease := or_same leaseA (acquire leaseA t0 "gA" host0).2.
Definition host2 : Host := host1 <| files := delete "locks/r1.lock" (files host1) |>.
Definition host3 : Host := (acquire leaseB t60 "gB" host2).1.
Definition leaseB' : RunLease := or_same leaseB (acquire leaseB t60 "gB" host2).2.
Definition view3 : lease_view := default None (lease_db host3).
Definition row1 : LeaseRow := default (mkLeaseRow "" 0 0 None None None None None)
  (row_of host1 ("local", "r1")).
Definition host4 : Host := (release leaseA' host3).1.
Definition view4 : lease_view := default None (lease_db host4).
End Example.

Lemma stale_token_rejected_witness :
  rl_token Example.leaseA' = Some 1 ∧ rl_token Example.leaseB' = Some 2 ∧
  require_lease_token (lease_db Example.host3) (Some Example.view3) ("local", "r1") (Some 1)
    m_reject = Err LeaseLost.
Proof.
  split; [vm_compute; reflexivity|]. split; [vm_compute; reflexivity|].
  apply (stale_token_rejected Example.leaseA Example.leaseB Example.leaseA' Example.leaseB'
    Example.t0 Example.t60 "gA" "gB" Example.host0 Example.host1 Example.host2 Example.host3
    Example.host3 1 Example.view3 m_reject); try (vm_compute; reflexivity).
  apply rtc_once. apply (step_unlink "locks/r1.lock").
Defined.

Lemma acquire_incarnation_witness :
  rl_incarnation Example.leaseB' = 2 ∧
  ((status_of Example.row1 ≠ "held" ∧
    rl_incarnation Example.leaseB' = lr_incarnation Example.row1) ∨
  (status_of Example.row1 = "held" ∧
    rl_incarnation Example.leaseB' = lr_incarnation Example.row1 ∧
   ∃ f, files Example.host2 !! rl_path Example.leaseB = Some f ∧
     lf_gen f = lr_lock_gen Example.row1 ∧ is_Some (lf_gen f)) ∨
  (status_of Example.row1 = "held" ∧
    rl_incarnation Example.leaseB' = lr_incarnation Example.row1 + 1 ∧
   _expired (rl_ttl_s Example.leaseB) Example.t60 (lr_heartbeat_at Example.row1)
     (lr_heartbeat_mono Example.row1) = true)).
Proof.
  split; [vm_compute; reflexivity|].
  apply (acquire_incarnation Example.leaseB Example.t60 "gB" Example.host2 Example.host3
    Example.leaseB' Example.row1); vm_compute; reflexivity.
Defined.

Lemma acquire_excludes_witness :
  (acquire Example.leaseB Example.t60 "gB" Example.host1).2 = Err RunBusy.
Proof.
  apply (acquire_excludes Example.leaseA Example.leaseB Example.t0 Example.t60 "gA" "gB"
    Example.host0 Example.host1 Example.leaseA'); vm_compute; reflexivity.
Defined.

Lemma stale_release_revokes_holder_witness :
  rl_token Example.leaseB' = Some 2 ∧
  require_lease_token (Some Example.view4) (Some Example.view4) ("local", "r1")
    (rl_token Example.leaseB') m_reject = Err LeaseLost.
Proof.
  split; [vm_compute; reflexivity|].
  apply (stale_release_revokes_holder Example.leaseA' Example.leaseB Example.leaseB' Example.t60 "gB"
    Example.host2 Example.host3 Example.view4 m_reject); vm_compute; reflexivity.
Defined.
