(* ===== verification/OpLedger.v ===== *)
(** * The operation ledger (graph/ops.py)

    One row per applied operation; [run_once] claims a row with the pending
    sentinel, runs the effect, and stores its result.  The phases of
    [run_once] are functions on the table and the in-process claims; threads
    interleave them in a transition system, with crashes, thread deaths and the
    waiters' valve, and every interruption of an operation is logged. *)
From S2P Require Import Prelude Fence.
From Stdlib Require Import ZArith Lia.
Open Scope Z_scope.

(** [(run_id, incarnation, attempt_no, node, op_seq)] *)
Notation op_key := (string * Z * Z * string * Z)%type (only parsing).
Definition key_run (k : op_key) : string := k.1.1.1.1.

Definition PENDING_SENTINEL : json := JObj [("__pending__", JBool true)].

(** [isinstance(result, dict) and result == {"__pending__": True}]; in Python
    [1 == True] and [1.0 == True]. *)
Definition equals_True (v : json) : bool :=
  match v with
  | JBool b => b
  | JInt z => z =? 1
  | JFloat f => feqb f (Z2f 1)
  | _ => false
  end.
Definition _is_pending (j : json) : bool :=
  match j with
  | JObj [(k, v)] => String.eqb k "__pending__" && equals_True v
  | _ => false
  end.
(** The SQL comparison [result_json = '{"__pending__": true}'], on the text. *)
Definition is_sentinel_text (j : json) : bool :=
  match j with
  | JObj [(k, JBool true)] => String.eqb k "__pending__"
  | _ => false
  end.

Record OpRow := mkOpRow { op_result : json; op_fence : option Z }.

(** [_LiveClaim]: the in-process holder of a pending row. *)
Record LiveClaim := mkClaim { cl_done : bool; cl_owner : nat }.

Record OpState := mkOpState {
  op_rows : gmap (string * Z * Z * string * Z) OpRow;
  live_claims : gmap (string * Z * Z * string * Z) LiveClaim }.

#[export] Instance eta_OpState : Eta OpState := λ s, mkOpState (op_rows s) (live_claims s).

(** [get]: [(already_applied, result)]. *)
Definition op_get (s : OpState) (k : op_key) : bool * option json :=
  match op_rows s !! k with
  | None => (false, None)
  | Some r => if _is_pending (op_result r) then (false, None) else (true, Some (op_result r))
  end.

Definition op_put (s : OpState) (k : op_key) (j : json) : result OpState :=
  if _is_pending j then Err ValueError
  else match op_rows s !! k with
  | Some _ => Err OperationConflict
  | None => Ok (s <| op_rows := <[k := mkOpRow j None]> (op_rows s) |>)
  end.

(** [count_for_node] *)
Definition count_for_node (s : OpState) (run : string) (inc att : Z) (node : string) : nat :=
  size (filter (λ kr : op_key * OpRow,
    bool_decide (kr.1.1.1.1.1 = run) && bool_decide (kr.1.1.1.1.2 = inc) &&
    bool_decide (kr.1.1.1.2 = att) && bool_decide (kr.1.1.2 = node) &&
    negb (is_sentinel_text (op_result kr.2)) = true) (op_rows s)).

(** [_require_fence]: [lease] is the lease database as it is at that moment. *)
Definition _require_fence (lease : option lease_view) (tenant run : string) (tok : option Z)
    : result unit :=
  require_lease_token lease lease (tenant, run) tok
    (match tok with None => m_allow | Some _ => m_reject end).

(** [_live_wait_event]: [true] to wait; otherwise the claim is dropped. *)
Definition _live_wait_event (alive : gset nat) (s : OpState) (k : op_key) : OpState * bool :=
  match live_claims s !! k with
  | None => (s, false)
  | Some c =>
      if cl_done c || negb (bool_decide (cl_owner c ∈ alive))
      then (s <| live_claims := delete k (live_claims s) |>, false)
      else (s, true)
  end.

Definition _install_claim (t : nat) (s : OpState) (k : op_key) : OpState :=
  s <| live_claims := <[k := mkClaim false t]> (live_claims s) |>.
Definition _release_claim (s : OpState) (k : op_key) : OpState :=
  s <| live_claims := delete k (live_claims s) |>.

Inductive ClaimOutcome := Applied (stored : json) | Claimed | MustWait.

(** One pass of [run_once]'s claim loop: a [BEGIN IMMEDIATE] transaction. *)
Definition claim_phase (t : nat) (alive : gset nat) (lease : option lease_view) (tenant : string)
    (k : op_key) (tok : option Z) (s : OpState) : OpState * result ClaimOutcome :=
  match _require_fence lease tenant (key_run k) tok with
  | Err e => (s, Err e)
  | Ok _ =>
      match op_rows s !! k with
      | Some row =>
          if negb (_is_pending (op_result row)) then (s, Ok (Applied (op_result row)))
          else
            let '(s1, wait) := _live_wait_event alive s k in
            if wait then (s1, Ok MustWait)
            else (_install_claim t
                    (s1 <| op_rows := <[k := mkOpRow PENDING_SENTINEL (op_fence row)]> (op_rows s1) |>)
                    k, Ok Claimed)
      | None =>
          (_install_claim t
             (s <| op_rows := <[k := mkOpRow PENDING_SENTINEL None]> (op_rows s) |>) k,
           Ok Claimed)
      end
  end.

(** The [except] clause: drop the pending row and the claim. *)
Definition fail_phase (k : op_key) (s : OpState) : OpState :=
  let rows := match op_rows s !! k with
              | Some row => if is_sentinel_text (op_result row) then delete k (op_rows s)
                            else op_rows s
              | None => op_rows s
              end in
  _release_claim (s <| op_rows := rows |>) k.

(** After [fn()] returned [j]: store it under the fence, or fail. *)
Definition finish_phase (lease : option lease_view) (tenant : string) (k : op_key)
    (tok : option Z) (j : json) (s : OpState) : OpState * result json :=
  if _is_pending j then (fail_phase k s, Err ValueError)
  else match _require_fence lease tenant (key_run k) tok with
  | Err e => (fail_phase k s, Err e)
  | Ok _ =>
      let rows := match op_rows s !! k with
                  | Some _ => <[k := mkOpRow j tok]> (op_rows s)
                  | None => op_rows s
                  end in
      (_release_claim (s <| op_rows := rows |>) k, Ok j)
  end.

(** The waiter's safety valve drops a claim it has waited on for too long. *)
Definition drop_stale_claim (k : op_key) (s : OpState) : OpState := _release_claim s k.

Inductive run_outcome := Returned (j : json) | Raised (e : exn) | Blocked.

(** [run_once] of one thread that nobody interrupts.  [fn] acts on a world;
    [lease2] is the lease database when the result is stored.  [Blocked] is
    the wait for another live holder. *)
Definition run_once {W : Type} (t : nat) (alive : gset nat) (lease1 lease2 : option lease_view)
    (tenant : string) (k : op_key) (tok : option Z) (fn : W → W * result json)
    (s : OpState) (w : W) : OpState * W * run_outcome :=
  match claim_phase t alive lease1 tenant k tok s with
  | (s1, Err e) => (s1, w, Raised e)
  | (s1, Ok (Applied j)) => (s1, w, Returned j)
  | (s1, Ok MustWait) => (s1, w, Blocked)
  | (s1, Ok Claimed) =>
      match fn w with
      | (w1, Err e) => (fail_phase k s1, w1, Raised e)
      | (w1, Ok j) =>
          match finish_phase lease2 tenant k tok j s1 with
          | (s2, Ok j') => (s2, w1, Returned j')
          | (s2, Err e) => (s2, w1, Raised e)
          end
      end
  end.

(** ** Interleaved threads *)

Inductive phase := InFn (k : op_key) | FnReturned (k : op_key) (j : json).
Definition phase_key (p : phase) : op_key :=
  match p with InFn k => k | FnReturned k _ => k end.

(** A process: ledger, live threads, each thread's position in [run_once], and
    two logs of the history: the effects performed, and the interruptions of
    an operation - its claim dropped by the valve, its result not stored, an
    exception after its effect, its holder dead or the process gone. *)
Record Proc := mkProc {
  led : OpState;
  alive : gset nat;
  threads : gmap nat phase;
  effects : list (string * Z * Z * string * Z);
  breaks : list (string * Z * Z * string * Z) }.

#[export] Instance eta_Proc : Eta Proc := λ p, mkProc (led p) (alive p) (threads p) (effects p) (breaks p).

Definition held_by (p : Proc) (t : nat) : list (string * Z * Z * string * Z) :=
  match threads p !! t with Some ph => [phase_key ph] | None => [] end.
Definition held_keys (p : Proc) : list (string * Z * Z * string * Z) :=
  map (λ tp : nat * phase, phase_key tp.2) (map_to_list (threads p)).

Inductive calm_step : Proc → Proc → Prop :=
  | step_claim p t lease tenant k tok s' :
      t ∈ alive p → threads p !! t = None →
      claim_phase t (alive p) lease tenant k tok (led p) = (s', Ok Claimed) →
      calm_step p (p <| led := s' |> <| threads := <[t := InFn k]> (threads p) |>)
  | step_no_claim p t lease tenant k tok s' r :
      t ∈ alive p → threads p !! t = None → r ≠ Ok Claimed →
      claim_phase t (alive p) lease tenant k tok (led p) = (s', r) →
      calm_step p (p <| led := s' |>)
  | step_effect p t k j :
      threads p !! t = Some (InFn k) →
      calm_step p (p <| threads := <[t := FnReturned k j]> (threads p) |>
                     <| effects := k :: effects p |>)
  | step_fn_raises p t k :
      threads p !! t = Some (InFn k) →
      calm_step p (p <| led := fail_phase k (led p) |> <| threads := delete t (threads p) |>)
  | step_stored p t k j lease tenant tok s' j' :
      threads p !! t = Some (FnReturned k j) →
      finish_phase lease tenant k tok j (led p) = (s', Ok j') →
      calm_step p (p <| led := s' |> <| threads := delete t (threads p) |>).

(** Everything but the waiter's valve: also effects that raise after they were
    performed, results refused by the fence or as sentinel, threads that die,
    and a crash with restart. *)
Inductive proc_step : Proc → Proc → Prop :=
  | step_calm p p' : calm_step p p' → proc_step p p'
  | step_effect_raises p t k :
      threads p !! t = Some (InFn k) →
      proc_step p (p <| led := fail_phase k (led p) |> <| threads := delete t (threads p) |>
                     <| effects := k :: effects p |> <| breaks := k :: breaks p |>)
  | step_refused p t k j lease tenant tok s' e :
      threads p !! t = Some (FnReturned k j) →
      finish_phase lease tenant k tok j (led p) = (s', Err e) →
      proc_step p (p <| led := s' |> <| threads := delete t (threads p) |> <| breaks := k :: breaks p |>)
  | step_thread_dies p t :
      proc_step p (p <| alive := alive p ∖ {[t]} |> <| threads := delete t (threads p) |>
                     <| breaks := held_by p t ++ breaks p |>)
  | step_crash p ts :
      proc_step p (mkProc (mkOpState (op_rows (led p)) ∅) ts ∅ (effects p) (held_keys p ++ breaks p)).

(** And the valve: a waiter whose deadline has passed drops the claim it waits
    on, whoever holds it. *)
Inductive op_step : Proc → Proc → Prop :=
  | step_proc p p' : proc_step p p' → op_step p p'
  | step_valve p k :
      op_step p (p <| led := drop_stale_claim k (led p) |> <| breaks := k :: breaks p |>).

Definition boot (rows : gmap (string * Z * Z * string * Z) OpRow) (ts : gset nat) : Proc :=
  mkProc (mkOpState rows ∅) ts ∅ [] [].

(** ** Lemmas *)

Lemma sentinel_pending j : is_sentinel_text j = true → _is_pending j = true.
Proof.
  destruct j as [| | | | | |[|[k v] [|]]]; simpl; try done; destruct v as [|[] | | | | | ]; try done.
  intros H. by rewrite H.
Qed.

Lemma claim_phase_other t al lease tenant k tok s s' r :
  claim_phase t al lease tenant k tok s = (s', r) → r ≠ Ok Claimed → s' = s.
Proof.
  unfold claim_phase. destruct (_require_fence _ _ _ _); [|by intros [= <- <-]].
  destruct (op_rows s !! k) as [row|]; [|intros [= <- <-]; done].
  destruct (_is_pending _); simpl; [|by intros [= <- <-]].
  unfold _live_wait_event. destruct (live_claims s !! k) as [c|].
  - destruct (cl_done c || _); intros [= <- <-]; done.
  - intros [= <- <-]; done.
Qed.

(** A claim succeeds on a free key, or on a pending row without live holder. *)
Lemma claim_phase_Claimed t al lease tenant k tok s s' :
  claim_phase t al lease tenant k tok s = (s', Ok Claimed) →
  (∃ f, op_rows s' = <[k := mkOpRow PENDING_SENTINEL f]> (op_rows s)) ∧
  (∀ k', k ≠ k' → live_claims s' !! k' = live_claims s !! k') ∧
  live_claims s' !! k = Some (mkClaim false t) ∧
  (∀ row, op_rows s !! k = Some row → _is_pending (op_result row) = true) ∧
  (∀ row c, op_rows s !! k = Some row → live_claims s !! k = Some c →
     cl_done c = true ∨ cl_owner c ∉ al).
Proof.
  unfold claim_phase. destruct (_require_fence _ _ _ _); [|done].
  destruct (op_rows s !! k) as [row|] eqn:E.
  - destruct (_is_pending (op_result row)) eqn:P; simpl; [|done].
    unfold _live_wait_event. destruct (live_claims s !! k) as [c|] eqn:C.
    + destruct (cl_done c || _) eqn:D; intros [= <-]. simpl. split_and!.
      * by exists (op_fence row).
      * intros k' Hk. by rewrite lookup_insert_ne, lookup_delete_ne.
      * by rewrite lookup_insert_eq.
      * by intros ? [= <-].
      * intros ? ? [= <-] [= <-]. apply orb_true_iff in D as [D|D]; [by left|right].
        by apply negb_true_iff, bool_decide_eq_false in D.
    + intros [= <-]. simpl. split_and!.
      * by exists (op_fence row).
      * intros k' Hk. by rewrite lookup_insert_ne.
      * by rewrite lookup_insert_eq.
      * by intros ? [= <-].
      * done.
  - intros [= <-]. simpl. split_and!; try done.
    + by exists None.
    + intros k' Hk. by rewrite lookup_insert_ne.
    + by rewrite lookup_insert_eq.
Qed.

Lemma finish_phase_Ok lease tenant k tok j s s' j' :
  finish_phase lease tenant k tok j s = (s', Ok j') →
  j' = j ∧ _is_pending j = false ∧ live_claims s' = delete k (live_claims s) ∧
  op_rows s' = (match op_rows s !! k with
                | Some _ => <[k := mkOpRow j tok]> (op_rows s)
                | None => op_rows s end).
Proof.
  unfold finish_phase. destruct (_is_pending j); [by intros [= _ ?]|].
  destruct (_require_fence _ _ _ _); [|by intros [= _ ?]]. by intros [= <- <-].
Qed.

Lemma finish_phase_Err lease tenant k tok j s s' e :
  finish_phase lease tenant k tok j s = (s', Err e) → s' = fail_phase k s.
Proof.
  unfold finish_phase. destruct (_is_pending j); [by intros [= <- _]|].
  destruct (_require_fence _ _ _ _); by intros [= <- ?].
Qed.

Lemma fail_phase_rows_ne k k' s : k ≠ k' → op_rows (fail_phase k s) !! k' = op_rows s !! k'.
Proof.
  intros H. unfold fail_phase. simpl. destruct (op_rows s !! k) as [row|]; [|done].
  destruct (is_sentinel_text _); [by rewrite lookup_delete_ne|done].
Qed.
Lemma fail_phase_stored k s row :
  op_rows s !! k = Some row → is_sentinel_text (op_result row) = false →
  op_rows (fail_phase k s) !! k = Some row.
Proof. intros H S. unfold fail_phase. simpl. by rewrite H, S. Qed.

(** Every thread inside [run_once] owns the pending row and the live claim of
    its key, and a stored value is pending only as the sentinel. *)
Record proc_inv (p : Proc) : Prop := {
  inv_threads : ∀ t ph, threads p !! t = Some ph →
    t ∈ alive p ∧ live_claims (led p) !! phase_key ph = Some (mkClaim false t) ∧
    ∃ row, op_rows (led p) !! phase_key ph = Some row ∧
           is_sentinel_text (op_result row) = true;
  inv_rows : ∀ k row, op_rows (led p) !! k = Some row →
    _is_pending (op_result row) = is_sentinel_text (op_result row) }.

Lemma inv_unique p t1 t2 ph1 ph2 :
  proc_inv p → threads p !! t1 = Some ph1 → threads p !! t2 = Some ph2 →
  phase_key ph1 = phase_key ph2 → t1 = t2.
Proof.
  intros I H1 H2 E. apply (inv_threads _ I) in H1 as (_ & C1 & _).
  apply (inv_threads _ I) in H2 as (_ & C2 & _). rewrite E in C1. congruence.
Qed.

Lemma inv_boot rows ts :
  (∀ k row, rows !! k = Some row → _is_pending (op_result row) = is_sentinel_text (op_result row)) →
  proc_inv (boot rows ts).
Proof. intros H. split; [by intros t ph Ht|done]. Qed.

(** Leaving [run_once]: the row becomes [new] (stored or gone), claim dropped. *)
Lemma inv_leave p t ph rows :
  proc_inv p → threads p !! t = Some ph →
  (∀ k', phase_key ph ≠ k' → rows !! k' = op_rows (led p) !! k') →
  (∀ row, rows !! phase_key ph = Some row →
     _is_pending (op_result row) = is_sentinel_text (op_result row)) →
  proc_inv (p <| led := mkOpState rows (delete (phase_key ph) (live_claims (led p))) |>
              <| threads := delete t (threads p) |>).
Proof.
  intros I Ht Hne Hk. split; simpl.
  - intros t' ph' Ht'. apply lookup_delete_Some in Ht' as [Hn Ht'].
    assert (phase_key ph ≠ phase_key ph') as Hd
      by (intros E; apply Hn; by eapply inv_unique).
    destruct (inv_threads _ I _ _ Ht') as (Ha & Hc & row & Hr & Hs). split; [done|].
    rewrite lookup_delete_ne by done. split; [done|]. exists row. by rewrite Hne.
  - intros k row. destruct (decide (phase_key ph = k)) as [<-|Hd]; [by apply Hk|].
    rewrite Hne by done. apply (inv_rows _ I).
Qed.

Lemma inv_calm p p' : calm_step p p' → proc_inv p → proc_inv p'.
Proof.
  intros Hs I. destruct Hs as [p t lease tenant k tok s' Ha Ht Hc|p t lease tenant k tok s' r Ha Ht Hr Hc
    |p t k j Ht|p t k Ht|p t k j lease tenant tok s' j' Ht Hf].
  - apply claim_phase_Claimed in Hc as ([f Hrows] & Hne & Hk & Hp & Hl). split; simpl.
    + intros t' ph Hl'. rewrite lookup_insert in Hl'. destruct (decide (t = t')) as [<-|Hd].
      * injection Hl' as <-. simpl. split; [done|]. split; [done|].
        exists (mkOpRow PENDING_SENTINEL f). by rewrite Hrows, lookup_insert_eq.
      * destruct (inv_threads _ I _ _ Hl') as (Ha' & Hc' & row & Hr' & Hs'). split; [done|].
        assert (k ≠ phase_key ph) as Hkn.
        { intros ->. by destruct (Hl _ _ Hr' Hc') as [?|?]. }
        rewrite Hne by done. split; [done|]. exists row.
        by rewrite Hrows, lookup_insert_ne.
    + intros k' row. rewrite Hrows, lookup_insert. destruct (decide _); [by intros [= <-]|].
      apply (inv_rows _ I).
  - apply claim_phase_other in Hc as ->; [|done]. split; simpl; apply I.
  - split; simpl; [|apply I]. intros t' ph Hl'. rewrite lookup_insert in Hl'.
    destruct (decide (t = t')) as [<-|Hd]; [|by apply (inv_threads _ I)].
    injection Hl' as <-. by apply (inv_threads _ I) in Ht.
  - apply (inv_leave _ _ _ (op_rows (fail_phase k (led p))) I Ht).
    + intros k' Hk. by apply fail_phase_rows_ne.
    + simpl. intros row. destruct (inv_threads _ I _ _ Ht) as (_ & _ & row' & Hr & Hs).
      simpl in *. rewrite Hr, Hs, lookup_delete_eq. done.
  - apply finish_phase_Ok in Hf as (-> & Hp & Hc & Hrows).
    destruct (inv_threads _ I _ _ Ht) as (_ & _ & row' & Hr & Hsent). simpl in *.
    rewrite Hr in Hrows.
    assert (s' = mkOpState (op_rows s') (delete k (live_claims (led p)))) as ->
      by (destruct s'; simpl in *; congruence).
    apply (inv_leave _ _ _ _ I Ht); simpl.
    + intros k' Hk. by rewrite Hrows, lookup_insert_ne.
    + intros row. rewrite Hrows, lookup_insert_eq. intros [= <-]. simpl. rewrite Hp.
      symmetry. apply not_true_iff_false. intros H%sentinel_pending. congruence.
Qed.

Lemma inv_step p p' : proc_step p p' → proc_inv p → proc_inv p'.
Proof.
  assert (∀ p t ph, proc_inv p → threads p !! t = Some ph →
    proc_inv (p <| led := fail_phase (phase_key ph) (led p) |> <| threads := delete t (threads p) |>)) as Hleave.
  { clear p p'. intros p t ph I Ht. apply (inv_leave _ _ _ (op_rows (fail_phase (phase_key ph) (led p))) I Ht).
    - intros k' Hk. by apply fail_phase_rows_ne.
    - simpl. intros row. destruct (inv_threads _ I _ _ Ht) as (_ & _ & row' & Hr & Hs).
      rewrite Hr, Hs, lookup_delete_eq. done. }
  intros Hs I. destruct Hs as [p p' Hs|p t k Ht|p t k j lease tenant tok s' e Ht Hf|p t|p ts].
  - by eapply inv_calm.
  - pose proof (Hleave p t _ I Ht) as I'. split; apply I'.
  - apply finish_phase_Err in Hf as ->. pose proof (Hleave p t _ I Ht) as I'. split; apply I'.
  - split; simpl; [|apply I]. intros t' ph Hl'. apply lookup_delete_Some in Hl' as [Hn Hl'].
    destruct (inv_threads _ I _ _ Hl') as (Ha & H). split; [set_solver|done].
  - split; simpl; [by intros t ph|apply I].
Qed.

Lemma inv_reachable p p' : rtc proc_step p p' → proc_inv p → proc_inv p'.
Proof. induction 1; eauto using inv_step. Qed.

Definition good_rows (rows : gmap (string * Z * Z * string * Z) OpRow) : Prop :=
  ∀ k row, rows !! k = Some row → _is_pending (op_result row) = is_sentinel_text (op_result row).

Definition stored (s : OpState) (k : op_key) (row : OpRow) : Prop :=
  op_rows s !! k = Some row ∧ _is_pending (op_result row) = false.

Lemma stored_no_thread p k row t ph :
  proc_inv p → stored (led p) k row → threads p !! t = Some ph → phase_key ph ≠ k.
Proof.
  intros I [Hr Hp] Ht E. destruct (inv_threads _ I _ _ Ht) as (_ & _ & row' & Hr' & Hs).
  apply sentinel_pending in Hs. rewrite E in Hr'. congruence.
Qed.

Lemma stored_fail p k row k' :
  stored (led p) k row → k' ≠ k → stored (fail_phase k' (led p)) k row.
Proof. intros [H P] Hk. split; [|done]. by rewrite fail_phase_rows_ne. Qed.

Lemma stored_step p p' k row :
  proc_inv p → proc_step p p' → stored (led p) k row → stored (led p') k row.
Proof.
  intros I Hs St. pose proof St as [Hr Hp].
  destruct Hs as [p p' Hs|p t k' Ht|p t k' j lease tenant tok s' e Ht Hf|p t|p ts]; simpl; try done.
  - destruct Hs as [p t lease tenant k' tok s' Ha Ht Hc|p t lease tenant k' tok s' r Ha Ht Hne Hc
      |p t k' j Ht|p t k' Ht|p t k' j lease tenant tok s' j' Ht Hf]; simpl; try done.
    + apply claim_phase_Claimed in Hc as ([f Hrows] & _ & _ & Hpend & _).
      split; [|done]. rewrite Hrows, lookup_insert_ne; [done|].
      intros ->. specialize (Hpend _ Hr). congruence.
    + by apply claim_phase_other in Hc as ->.
    + apply stored_fail; [done|]. by eapply (stored_no_thread p k row t (InFn k')).
    + pose proof (stored_no_thread p k row t _ I St Ht) as Hne. simpl in Hne.
      apply finish_phase_Ok in Hf as (_ & _ & _ & Hrows). split; [|done].
      rewrite Hrows. destruct (op_rows (led p) !! k'); [by rewrite lookup_insert_ne|done].
  - apply stored_fail; [done|]. by eapply (stored_no_thread p k row t (InFn k')).
  - apply finish_phase_Err in Hf as ->. apply stored_fail; [done|].
    by eapply (stored_no_thread p k row t (FnReturned k' j)).
Qed.

(** *** Accounting for repeated effects

    [times k l] is how often [k] stands in a log, [inside k p] how many threads
    are in [fn] of [k], and a key is open when [claim_phase] would hand it out. *)
Definition times (k : op_key) (l : list (string * Z * Z * string * Z)) : nat := length (filter (k =.) l).
Definition in_fn (k : op_key) (ph : phase) : bool := match ph with InFn k' => bool_decide (k' = k) | FnReturned _ _ => false end.
Definition inside (k : op_key) (m : gmap nat phase) : nat := size (filter (λ tp : nat * phase, in_fn k tp.2 = true) m).
Definition may_claim (k : op_key) (al : gset nat) (s : OpState) : bool :=
  match op_rows s !! k with
  | None => true
  | Some row => _is_pending (op_result row) &&
      match live_claims s !! k with
      | None => true
      | Some c => cl_done c || negb (bool_decide (cl_owner c ∈ al))
      end
  end.
(** A live claim of a living thread means the thread is inside that key. *)
Definition claims_held (p : Proc) : Prop :=
  ∀ k c, live_claims (led p) !! k = Some c → cl_owner c ∈ alive p →
    ∃ ph, threads p !! cl_owner c = Some ph ∧ phase_key ph = k.
Definition accounted (p : Proc) (k : op_key) : Prop :=
  (times k (effects p) + inside k (threads p) + Nat.b2n (may_claim k (alive p) (led p)) ≤ 1 + times k (breaks p))%nat.

Lemma times_cons k k' l : times k (k' :: l) = ((if decide (k = k') then 1 else 0) + times k l)%nat.
Proof. unfold times. rewrite filter_cons. by destruct (decide (k = k')). Qed.
Lemma times_app k l l' : times k (l ++ l') = (times k l + times k l')%nat.
Proof. unfold times. by rewrite filter_app, length_app. Qed.
Lemma inside_insert k m t ph :
  m !! t = None → inside k (<[t := ph]> m) = (Nat.b2n (in_fn k ph) + inside k m)%nat.
Proof.
  intros Hm. unfold inside. destruct (in_fn k ph) eqn:E.
  - rewrite map_filter_insert_True by done. rewrite map_size_insert_None; [done|].
    apply map_lookup_filter_None. by left.
  - rewrite map_filter_insert_False by (simpl; by rewrite E). by rewrite delete_id.
Qed.
Lemma inside_delete k m t ph :
  m !! t = Some ph → inside k m = (Nat.b2n (in_fn k ph) + inside k (delete t m))%nat.
Proof. intros Hm. rewrite <- (inside_insert k (delete t m) t ph) by apply lookup_delete_eq. by rewrite insert_delete_id. Qed.
Lemma inside_empty k : inside k ∅ = 0%nat.
Proof. unfold inside. by rewrite map_filter_empty, map_size_empty. Qed.
Lemma inside_held p k : (inside k (threads p) ≤ times k (held_keys p))%nat.
Proof.
  unfold held_keys. set (m := threads p). clearbody m. clear p. induction m as [|t ph m Hm IH] using map_ind.
  - by rewrite inside_empty.
  - rewrite inside_insert by done. unfold times. 
    rewrite (Permutation_map (λ tp : nat * phase, phase_key tp.2) (map_to_list_insert m t ph Hm)).
    simpl. rewrite filter_cons. unfold times in IH. destruct ph as [k'|k' j]; simpl.
    + case_bool_decide as Hk; [|destruct (decide _); simpl; lia]. rewrite decide_True by done. simpl. lia.
    + destruct (decide _); simpl; lia.
Qed.
Lemma claimable_after_claim t al lease tenant k tok s s' :
  claim_phase t al lease tenant k tok s = (s', Ok Claimed) → t ∈ al →
  may_claim k al s = true ∧ may_claim k al s' = false ∧ (∀ k', k ≠ k' → may_claim k' al s' = may_claim k' al s).
Proof.
  intros Hc Ht. pose proof (claim_phase_Claimed _ _ _ _ _ _ _ _ Hc) as ([f Hr] & Hne & Hk & Hp & Hl). split_and!.
  - unfold may_claim. destruct (op_rows s !! k) as [row|] eqn:Er; [|done]. rewrite (Hp row eq_refl). simpl.
    destruct (live_claims s !! k) as [c|] eqn:Ec; [|done]. apply orb_true_iff.
    destruct (Hl row c eq_refl eq_refl) as [?|?]; [by left|right]. by apply negb_true_iff, bool_decide_eq_false.
  - unfold may_claim. rewrite Hr, lookup_insert_eq, Hk. simpl. by rewrite bool_decide_true.
  - intros k' Hd. unfold may_claim. rewrite Hr, lookup_insert_ne by done. by rewrite Hne.
Qed.
Lemma claimable_ext k al s s' :
  op_rows s' !! k = op_rows s !! k → live_claims s' !! k = live_claims s !! k → may_claim k al s' = may_claim k al s.
Proof. unfold may_claim. by intros -> ->. Qed.
Lemma claimable_fail k k' al s : k ≠ k' → may_claim k' al (fail_phase k s) = may_claim k' al s.
Proof.
  intros Hd. apply claimable_ext; [by apply fail_phase_rows_ne|]. simpl. by rewrite lookup_delete_ne.
Qed.
Lemma claimable_stored lease tenant k tok j s s' j' k' al :
  finish_phase lease tenant k tok j s = (s', Ok j') → (Nat.b2n (may_claim k' al s') ≤ Nat.b2n (may_claim k' al s))%nat.
Proof.
  intros (_ & Hp & Hc & Hr)%finish_phase_Ok. destruct (decide (k = k')) as [<-|Hd].
  - unfold may_claim. rewrite Hr. destruct (op_rows s !! k) as [row|] eqn:Er; [|by rewrite Er].
    rewrite lookup_insert_eq. simpl. rewrite Hp. simpl. lia.
  - rewrite (claimable_ext k' al s s'); [done| |by rewrite Hc, lookup_delete_ne].
    rewrite Hr. destruct (op_rows s !! k); [by rewrite lookup_insert_ne|done].
Qed.

Lemma claims_held_leave p p' t ph :
  claims_held p → threads p !! t = Some ph → live_claims (led p') = delete (phase_key ph) (live_claims (led p)) →
  alive p' = alive p → threads p' = delete t (threads p) → claims_held p'.
Proof.
  intros H Ht El Ea Et k c Hc Ha. rewrite El in Hc. rewrite Ea in Ha. rewrite Et. apply lookup_delete_Some in Hc as [Hd Hc].
  destruct (H k c Hc Ha) as (ph' & Hp & Ek). exists ph'. split; [|done]. apply lookup_delete_Some. split; [|done].
  intros ->. congruence.
Qed.
Lemma claims_held_calm p p' : calm_step p p' → claims_held p → claims_held p'.
Proof.
  intros Hs H. destruct Hs as [p t lease tenant k tok s' Ha Ht Hc|p t lease tenant k tok s' r Ha Ht Hr Hc
    |p t k j Ht|p t k Ht|p t k j lease tenant tok s' j' Ht Hf].
  - apply claim_phase_Claimed in Hc as (_ & Hne & Hk & _). intros k' c Hc Ha'. simpl in *.
    destruct (decide (k = k')) as [<-|Hd].
    + rewrite Hk in Hc. injection Hc as <-. exists (InFn k). simpl. by rewrite lookup_insert_eq.
    + rewrite Hne in Hc by done. destruct (H k' c Hc Ha') as (ph & Hp & Ek). exists ph. rewrite lookup_insert_ne; [done|].
      intros ->. congruence.
  - by apply claim_phase_other in Hc as ->.
  - intros k' c Hc Ha'. simpl in *. destruct (H k' c Hc Ha') as (ph & Hp & Ek). rewrite lookup_insert.
    destruct (decide (t = cl_owner c)) as [->|]; [|by exists ph]. rewrite Ht in Hp. injection Hp as <-. by exists (FnReturned k j).
  - by eapply (claims_held_leave p _ t (InFn k)).
  - apply finish_phase_Ok in Hf as (_ & _ & Hc & _). by eapply (claims_held_leave p _ t (FnReturned k j)).
Qed.
Lemma claims_held_step p p' : op_step p p' → claims_held p → claims_held p'.
Proof.
  intros Hs H. destruct Hs as [p p' Hs|p k0]; [destruct Hs as [p p' Hs|p t k Ht|p t k j lease tenant tok s' e Ht Hf|p t|p ts]|].
  - by eapply claims_held_calm.
  - by eapply (claims_held_leave p _ t (InFn k)).
  - apply finish_phase_Err in Hf as ->. by eapply (claims_held_leave p _ t (FnReturned k j)).
  - intros k c Hc Ha. simpl in *. apply elem_of_difference in Ha as [Ha Hn].
    destruct (H k c Hc Ha) as (ph & Hp & Ek). exists ph. split; [|done]. apply lookup_delete_Some. set_solver.
  - intros k c Hc. simpl in Hc. by apply lookup_empty_Some in Hc.
  - intros k c Hc Ha. simpl in Hc. apply lookup_delete_Some in Hc as [_ Hc]. by apply (H k c).
Qed.

Lemma accounted_calm p p' k : calm_step p p' → accounted p k → accounted p' k.
Proof.
  intros Hs I. destruct Hs as [p t lease tenant k' tok s' Ha Ht Hc|p t lease tenant k' tok s' r Ha Ht Hne Hc
    |p t k' j Ht|p t k' Ht|p t k' j lease tenant tok s' j' Ht Hf]; unfold accounted in *; simpl in *.
  - rewrite inside_insert by done. destruct (claimable_after_claim _ _ _ _ _ _ _ _ Hc Ha) as (H1 & H2 & H3).
    simpl. case_bool_decide as Hd; [subst k'; rewrite H1 in I; rewrite H2; simpl in *; lia|]. rewrite H3 by congruence. simpl. lia.
  - by apply claim_phase_other in Hc as ->.
  - rewrite times_cons. rewrite (inside_delete k (threads p) t _ Ht) in I. rewrite <- insert_delete_eq.
    rewrite inside_insert by apply lookup_delete_eq. simpl in *. destruct (decide (k = k')) as [->|Hd].
    + rewrite bool_decide_true in I by done. simpl in I. lia.
    + rewrite bool_decide_false in I by congruence. simpl in I. lia.
  - rewrite (inside_delete k (threads p) t _ Ht) in I. simpl in I. case_bool_decide as Hd.
    + subst k'. destruct (may_claim k _ (fail_phase k _)), (may_claim k _ (led p)); simpl in *; lia.
    + rewrite claimable_fail by congruence. simpl in I. lia.
  - rewrite (inside_delete k (threads p) t _ Ht) in I. simpl in I.
    pose proof (claimable_stored _ _ _ _ _ _ _ _ k (alive p) Hf). lia.
Qed.
Lemma b2n_le b : (Nat.b2n b ≤ 1)%nat.
Proof. destruct b; simpl; lia. Qed.
Lemma accounted_dies p t k :
  claims_held p → accounted p k →
  accounted (p <| alive := alive p ∖ {[t]} |> <| threads := delete t (threads p) |> <| breaks := held_by p t ++ breaks p |>) k.
Proof.
  intros C I. unfold accounted, held_by in *. simpl.
  destruct (decide (may_claim k (alive p ∖ {[t]}) (led p) = may_claim k (alive p) (led p))) as [->|Hne].
  - rewrite times_app. destruct (threads p !! t) as [ph|] eqn:Et; [|rewrite delete_id by done; simpl; lia].
    rewrite (inside_delete k (threads p) t ph Et) in I. destruct (in_fn k ph); simpl in *; lia.
  - assert (∃ ph, threads p !! t = Some ph ∧ phase_key ph = k) as (ph & Et & Ek).
    { unfold may_claim in Hne. destruct (op_rows (led p) !! k) as [row|]; [|done].
      destruct (_is_pending (op_result row)); simpl in Hne; [|done].
      destruct (live_claims (led p) !! k) as [c|] eqn:Ec; [|done].
      destruct (cl_done c); simpl in Hne; [done|]. repeat case_bool_decide; try done; [set_solver|].
      destruct (decide (cl_owner c = t)) as [<-|]; [by apply C|set_solver]. }
    rewrite times_app, Et, times_cons, Ek, decide_True by done. rewrite (inside_delete k (threads p) t ph Et) in I.
    pose proof (b2n_le (may_claim k (alive p ∖ {[t]}) (led p))). lia.
Qed.
Lemma accounted_crash p ts k :
  claims_held p → accounted p k →
  accounted (mkProc (mkOpState (op_rows (led p)) ∅) ts ∅ (effects p) (held_keys p ++ breaks p)) k.
Proof.
  intros C I. unfold accounted in *. simpl. rewrite times_app, inside_empty. pose proof (inside_held p k) as Hin.
  set (o := may_claim _ ts _). pose proof (b2n_le o). destruct (times k (held_keys p)) as [|n] eqn:En; [|lia].
  assert (o = true → may_claim k (alive p) (led p) = true) as Ho.
  { subst o. unfold may_claim. simpl. destruct (op_rows (led p) !! k) as [row|]; [|done].
    destruct (_is_pending (op_result row)); simpl; [|done]. intros _.
    destruct (live_claims (led p) !! k) as [c|] eqn:Ec; [|done]. apply orb_true_iff. right. apply negb_true_iff, bool_decide_eq_false.
    intros (ph & Hp & Ek)%(C k c Ec). unfold times in En. apply nil_length_inv in En.
    assert (k ∈ filter (k =.) (held_keys p)) as Hk; [|rewrite En in Hk; by apply elem_of_nil in Hk].
    apply list_elem_of_filter. split; [done|]. unfold held_keys. apply list_elem_of_fmap. exists (cl_owner c, ph).
    split; [done|]. by apply elem_of_map_to_list. }
  destruct o; [rewrite Ho in I by done|]; simpl in *; lia.
Qed.
Lemma accounted_step p p' k : op_step p p' → claims_held p → accounted p k → accounted p' k.
Proof.
  intros Hs C I. destruct Hs as [p p' Hs|p k0]; [destruct Hs as [p p' Hs|p t k' Ht|p t k' j lease tenant tok s' e Ht Hf|p t|p ts]|].
  - by eapply accounted_calm.
  - unfold accounted in *. simpl. rewrite (inside_delete k (threads p) t _ Ht) in I. rewrite !times_cons.
    pose proof (b2n_le (may_claim k (alive p) (fail_phase k' (led p)))). destruct (decide (k = k')) as [->|Hd].
    + simpl in I. rewrite bool_decide_true in I by done. simpl in I. lia.
    + simpl in I. rewrite bool_decide_false in I by congruence. rewrite claimable_fail by done. simpl in I. lia.
  - apply finish_phase_Err in Hf as ->. unfold accounted in *. simpl.
    rewrite (inside_delete k (threads p) t _ Ht) in I. simpl in I. rewrite times_cons.
    pose proof (b2n_le (may_claim k (alive p) (fail_phase k' (led p)))). destruct (decide (k = k')) as [->|Hd]; [lia|].
    rewrite claimable_fail by done. lia.
  - by apply accounted_dies.
  - by apply accounted_crash.
  - unfold accounted in *. simpl. rewrite times_cons. pose proof (b2n_le (may_claim k (alive p) (drop_stale_claim k0 (led p)))).
    destruct (decide (k = k0)) as [->|Hd]; [lia|].
    rewrite (claimable_ext k (alive p) (led p)); [lia|done|]. simpl. by rewrite lookup_delete_ne.
Qed.
Lemma accounted_reachable p p' k : rtc op_step p p' → claims_held p → accounted p k → accounted p' k.
Proof. induction 1; eauto using accounted_step, claims_held_step. Qed.

(** An idle thread can claim a key without live holder and run its effect. *)
Lemma claim_and_run p t k j :
  t ∈ alive p → threads p = ∅ →
  op_rows (led p) !! k = None ∨
    (∃ f, op_rows (led p) !! k = Some (mkOpRow PENDING_SENTINEL f)) ∧ live_claims (led p) = ∅ →
  ∃ p', rtc proc_step p p' ∧ effects p' = k :: effects p ∧
    threads p' !! t = Some (FnReturned k j) ∧
    ∃ f, op_rows (led p') = <[k := mkOpRow PENDING_SENTINEL f]> (op_rows (led p)).
Proof.
  intros Ha Ht Hk.
  destruct (claim_phase t (alive p) None "local" k None (led p)) as [s' r] eqn:Ec.
  assert (r = Ok Claimed) as ->.
  { unfold claim_phase in Ec. simpl in Ec.
    destruct Hk as [Hk|[[f Hk] Hc]]; rewrite Hk in Ec; simpl in Ec; [by injection Ec|].
    unfold _live_wait_event in Ec. rewrite Hc, lookup_empty in Ec. by injection Ec. }
  pose proof (claim_phase_Claimed _ _ _ _ _ _ _ _ Ec) as ([f Hf] & _).
  eexists. split_and!.
  - eapply rtc_l; [apply step_calm, (step_claim p t None "local" k None s'); [done|by rewrite Ht|done]|].
    apply rtc_once, step_calm, (step_effect _ t k j). simpl. by rewrite lookup_insert_eq.
  - done.
  - simpl. by rewrite lookup_insert_eq.
  - simpl. by exists f.
Qed.

(** ** Theorems *)

(** A second [run_once] under the same key, by whichever thread, with whatever
    callable and world, returns the first result, runs no effect and leaves
    the ledger as it is. *)
Theorem run_once_idempotent {W : Type} t t' al al' l1 l2 l3 l4 tenant k tok tok'
    (fn fn' : W → W * result json) s s1 w w1 w' j :
  run_once t al l1 l2 tenant k tok fn s w = (s1, w1, Returned j) →
  _require_fence l3 tenant (key_run k) tok' = Ok tt →
  run_once t' al' l3 l4 tenant k tok' fn' s1 w' = (s1, w', Returned j).
Proof.
  intros H Hf. assert (∃ row, stored s1 k row ∧ op_result row = j) as (row & [Hr Hp] & Hj).
  { unfold run_once in H. destruct (claim_phase _ _ _ _ _ _ _) as [sc [[jc| |]|e]] eqn:Ec;
      simpl in H; try done.
    - injection H as <- <- <-. assert (sc = s) as -> by (by eapply claim_phase_other).
      unfold claim_phase in Ec. destruct (_require_fence _ _ _ _); [|done].
      destruct (op_rows s !! k) as [row|] eqn:Er; [|done].
      destruct (_is_pending (op_result row)) eqn:P; simpl in Ec.
      + destruct (_live_wait_event _ _ _) as [? []]; done.
      + exists row. unfold stored. split; [done|]. by injection Ec.
    - destruct (fn w) as [w2 [j2|e]]; [|done].
      destruct (finish_phase _ _ _ _ _ _) as [s2 [j3|e]] eqn:Ef; [|done].
      injection H as <- <- <-. apply claim_phase_Claimed in Ec as ([f Hrows] & _).
      apply finish_phase_Ok in Ef as (-> & Hp & _ & Hr2).
      rewrite Hrows, lookup_insert_eq in Hr2. exists (mkOpRow j2 tok).
      unfold stored. rewrite Hr2, lookup_insert_eq. done. }
  unfold run_once, claim_phase. by rewrite Hf, Hr, Hp, <- Hj.
Qed.

(** Whatever threads do in a process, and across crashes and restarts, two
    threads are never inside the effect of the same operation at once. *)
Theorem run_once_mutex rows ts p t1 t2 ph1 ph2 :
  good_rows rows → rtc proc_step (boot rows ts) p →
  threads p !! t1 = Some ph1 → threads p !! t2 = Some ph2 → phase_key ph1 = phase_key ph2 →
  t1 = t2.
Proof.
  intros G R. eapply inv_unique. eapply inv_reachable; [exact R|]. by apply inv_boot.
Qed.

(** A recorded result is permanent: no interleaving, refusal, thread death or
    crash removes or changes it, and every later claim answers with it. *)
Theorem recorded_result_permanent rows ts p p' k row t al lease tenant tok :
  good_rows rows → rtc proc_step (boot rows ts) p → stored (led p) k row →
  rtc proc_step p p' → _require_fence lease tenant (key_run k) tok = Ok tt →
  op_get (led p') k = (true, Some (op_result row)) ∧
  claim_phase t al lease tenant k tok (led p') = (led p', Ok (Applied (op_result row))).
Proof.
  intros G R0 S R Hf. assert (proc_inv p) as I by (eapply inv_reachable; [exact R0|by apply inv_boot]).
  assert (stored (led p') k row) as [Hr Hp].
  { clear R0. induction R as [|p p1 p' Hs _ IH]; [done|].
    apply IH; [by eapply stored_step|by eapply inv_step]. }
  unfold op_get, claim_phase. by rewrite Hf, Hr, Hp.
Qed.

(** C5: In a process and across its crashes and restarts, however its callers
    interleave, an operation's effect is performed at most once, and once more
    for each interruption of that operation: a waiter's valve that dropped its
    claim, a result refused by the fence or for being the sentinel, an exception
    after the effect, its holder's death, a crash while it was held.  An
    operation that is not interrupted is performed at most once.  One process
    at a time has the database. *)
Theorem effect_at_most_once rows ts p k :
  rtc op_step (boot rows ts) p → (times k (effects p) ≤ 1 + times k (breaks p))%nat.
Proof.
  intros R. pose proof (accounted_reachable _ _ k R) as A. unfold accounted in A at 2.
  enough (claims_held (boot rows ts) ∧ accounted (boot rows ts) k) as [C I] by (specialize (A C I); lia).
  split; [intros k' c Hc; simpl in Hc; by apply lookup_empty_Some in Hc|]. unfold accounted. simpl. rewrite inside_empty.
  pose proof (b2n_le (may_claim k ts (mkOpState rows ∅))). lia.
Qed.

(** The valve does reclaim the operation of a live holder: a caller whose effect
    takes longer than the waiter's deadline has it performed by the waiter as
    well, with no thread dead, no crash and no refusal. *)
Theorem valve_repeats_effect k j :
  ∃ p, rtc op_step (boot ∅ {[ 0%nat; 1%nat ]}) p ∧ effects p = [k; k] ∧ breaks p = [k] ∧ alive p = {[ 0%nat; 1%nat ]} ∧
    threads p = {[ 0%nat := FnReturned k j; 1%nat := FnReturned k j ]}.
Proof.
  set (b := boot ∅ {[ 0%nat; 1%nat ]}).
  destruct (claim_phase 0 (alive b) None "local" k None (led b)) as [s1 r1] eqn:E1.
  assert (r1 = Ok Claimed ∧ op_rows s1 = {[ k := mkOpRow PENDING_SENTINEL None ]}) as [-> Hr1]
    by (unfold claim_phase in E1; simpl in E1; rewrite lookup_empty in E1; by injection E1 as <- <-).
  set (b1 := b <| led := s1 |> <| threads := <[0%nat := InFn k]> (threads b) |>).
  set (b2 := b1 <| led := drop_stale_claim k (led b1) |> <| breaks := k :: breaks b1 |>).
  destruct (claim_phase 1 (alive b2) None "local" k None (led b2)) as [s2 r2] eqn:E2.
  assert (r2 = Ok Claimed) as ->.
  { unfold claim_phase in E2. simpl in E2. rewrite Hr1, lookup_singleton_eq in E2. simpl in E2.
    unfold _live_wait_event in E2. simpl in E2. rewrite lookup_delete_eq in E2. by injection E2. }
  eexists. split_and!.
  - eapply rtc_l; [apply step_proc, step_calm, (step_claim b 0 None "local" k None s1); [set_solver|done|exact E1]|].
    eapply rtc_l; [apply (step_valve b1 k)|].
    eapply rtc_l; [apply step_proc, step_calm, (step_claim b2 1 None "local" k None s2); [set_solver|done|exact E2]|].
    eapply rtc_l; [apply step_proc, step_calm, (step_effect _ 0 k j); done|].
    apply rtc_once, step_proc, step_calm, (step_effect _ 1 k j). done.
  - done.
  - done.
  - done.
  - done.
Qed.

(** A crash between the effect and the commit of its result makes the next
    process perform the effect again, although the ledger then records one
    result: there is such a history for every key and result. *)
Theorem crash_repeats_effect k j :
  _is_pending j = false →
  ∃ p, rtc proc_step (boot ∅ {[ 0%nat ]}) p ∧ effects p = [k; k] ∧
       op_get (led p) k = (true, Some j).
Proof.
  intros Hj.
  destruct (claim_and_run (boot ∅ {[ 0%nat ]}) 0 k j) as (p1 & R1 & E1 & T1 & f1 & s1);
    [set_solver|done|by left|].
  destruct (claim_and_run (mkProc (mkOpState (op_rows (led p1)) ∅) {[ 1%nat ]} ∅ (effects p1) (held_keys p1 ++ breaks p1)) 1 k j)
    as (p2 & R2 & E2 & T2 & f & Hr).
  { set_solver. } { done. } { right. simpl. rewrite s1, lookup_insert_eq. eauto. }
  destruct (finish_phase None "local" k None j (led p2)) as [s' r] eqn:Ef.
  assert (r = Ok j) as ->.
  { unfold finish_phase in Ef. rewrite Hj in Ef. simpl in Ef. by injection Ef. }
  exists (p2 <| led := s' |> <| threads := delete 1%nat (threads p2) |>). split_and!.
  - etrans; [exact R1|]. eapply rtc_l; [by apply step_crash|].
    eapply rtc_r; [exact R2|]. apply step_calm. by eapply step_stored.
  - simpl. by rewrite E2, E1.
  - apply finish_phase_Ok in Ef as (_ & _ & _ & Hrows).
    unfold op_get. simpl. rewrite Hrows, Hr, !lookup_insert_eq. simpl. by rewrite Hj.
Qed.

(** ** Witnesses *)

Module Example.
Definition k0 : op_key := ("r1", 1, 0, "validate", 0).
Definition count_fn (n : Z) : Z * result json := (n + 1, Ok (JInt n)).
Definition st0 : OpState := mkOpState ∅ ∅.
Definition first_run : OpState * Z * run_outcome :=
  run_once 0 {[ 0%nat ]} None None "local" k0 None count_fn st0 41.
Definition row0 : OpRow := mkOpRow (JInt 41) None.
Definition rows0 : gmap (string * Z * Z * string * Z) OpRow := {[ k0 := row0 ]}.
Definition claimed : OpState :=
  (claim_phase 0 {[ 0%nat ]} None "local" k0 None (mkOpState ∅ ∅)).1.
Definition boot0 : Proc := boot ∅ {[ 0%nat ]}.
Definition p1 : Proc :=
  boot0 <| led := claimed |> <| threads := <[0%nat := InFn k0]> (threads boot0) |>.
Definition p2 : Proc :=
  p1 <| threads := <[0%nat := FnReturned k0 (JInt 7)]> (threads p1) |>
     <| effects := k0 :: effects p1 |>.
End Example.

Lemma good_rows_empty : good_rows ∅.
Proof. intros k row H. by rewrite lookup_empty in H. Qed.
Lemma good_rows_rows0 : good_rows Example.rows0.
Proof.
  intros k row H. unfold Example.rows0 in H.
  apply lookup_singleton_Some in H as [_ <-]. reflexivity.
Qed.
Lemma reach_p1 : rtc calm_step (boot ∅ {[ 0%nat ]}) Example.p1.
Proof.
  apply rtc_once.
  apply (step_claim (boot ∅ {[ 0%nat ]}) 0 None "local" Example.k0 None Example.claimed);
    [set_solver|done|reflexivity].
Qed.
Lemma reach_p2 : rtc calm_step (boot ∅ {[ 0%nat ]}) Example.p2.
Proof.
  eapply rtc_r; [apply reach_p1|].
  by apply (step_effect Example.p1 0 Example.k0 (JInt 7)).
Qed.

Lemma run_once_idempotent_witness :
  run_once 1 {[ 1%nat ]} None None "local" Example.k0 None Example.count_fn
    Example.first_run.1.1 100 = (Example.first_run.1.1, 100, Returned (JInt 41)).
Proof.
  apply (run_once_idempotent 0 1 {[ 0%nat ]} {[ 1%nat ]} None None None None "local" Example.k0
    None None Example.count_fn Example.count_fn Example.st0 Example.first_run.1.1 41 42 100 (JInt 41));
    vm_compute; reflexivity.
Defined.

Lemma run_once_mutex_witness : 0%nat = 0%nat.
Proof.
  apply (run_once_mutex ∅ {[ 0%nat ]} Example.p1 0 0 (InFn Example.k0) (InFn Example.k0)).
  - exact good_rows_empty.
  - eapply rtc_subrel; [|exact reach_p1]. intros a b; apply step_calm.
  - vm_compute; reflexivity.
  - vm_compute; reflexivity.
  - reflexivity.
Defined.

Lemma recorded_result_permanent_witness :
  op_get (led (mkProc (mkOpState Example.rows0 ∅) {[ 5%nat ]} ∅ [] [])) Example.k0
    = (true, Some (JInt 41)) ∧
  claim_phase 5 {[ 5%nat ]} None "local" Example.k0 None
    (led (mkProc (mkOpState Example.rows0 ∅) {[ 5%nat ]} ∅ [] []))
    = (led (mkProc (mkOpState Example.rows0 ∅) {[ 5%nat ]} ∅ [] []), Ok (Applied (JInt 41))).
Proof.
  apply (recorded_result_permanent Example.rows0 {[ 0%nat ]} (boot Example.rows0 {[ 0%nat ]})
    (mkProc (mkOpState Example.rows0 ∅) {[ 5%nat ]} ∅ [] []) Example.k0 Example.row0).
  - exact good_rows_rows0.
  - apply rtc_refl.
  - split; vm_compute; reflexivity.
  - apply rtc_once. apply (step_crash (boot Example.rows0 {[ 0%nat ]}) {[ 5%nat ]}).
  - vm_compute; reflexivity.
Defined.

Lemma effect_at_most_once_witness : effects Example.p2 = [Example.k0] ∧ (1 ≤ 1 + 0)%nat.
Proof.
  split; [reflexivity|].
  apply (effect_at_most_once ∅ {[ 0%nat ]} Example.p2 Example.k0).
  eapply rtc_subrel; [|exact reach_p2]. intros a b H. by apply step_proc, step_calm.
Defined.

Lemma crash_repeats_effect_witness :
  ∃ p, rtc proc_step (boot ∅ {[ 0%nat ]}) p ∧ effects p = [Example.k0; Example.k0] ∧
       op_get (led p) Example.k0 = (true, Some JNull).
Proof. apply (crash_repeats_effect Example.k0 JNull). reflexivity. Defined.
