(* ===== verification/HopCommit.v ===== *)
(** * Hop commit and checkpoint store (runtime/hop.py, graph/store.py)

    The run database as finite maps, [insert_hop] and [commit_hop] as one
    transaction returning the new database or an exception, and the
    [CheckpointStore] operations on top of it.  [now] is SQLite's clock.  The run
    state's JSON is the operations of a class ([StateJson]); the other JSON
    columns hold the value they encode. *)
From S2P Require Import Prelude Budgets Contracts Fence.
From stdpp Require Import sorting.
From Stdlib Require Import ZArith Lia.
Open Scope Z_scope.

(** contracts/trajectory.py *)
Inductive EventKind :=
  | E_criteria_locked | E_retrieval_result | E_plan_choice | E_step_started | E_step_finished
  | E_artifact_produced | E_criterion_scored | E_failure_classified | E_evolve_decision
  | E_distill_candidate | E_merge_audit | E_terminal | E_late_signal | E_audited_state_delta.

Record TrajectoryEvent := mkEvent {
  ev_run_id : string; ev_seq : Z; ev_node : string; ev_attempt_no : Z; ev_kind : EventKind;
  ev_at : datetime;
  ev_memory_snapshot_id : option string; ev_library_commit : option string;
  ev_criteria_hash : option string; ev_model_ref : option string;
  ev_policy_version : option string;
  ev_summary : option string; ev_payload_ref : option string;
  ev_payload_inline : option json_obj;
  ev_skill_id : option string; ev_skill_version : option Z;
  ev_criterion_id : option string; ev_branch_id : option string }.

#[export] Instance eta_TrajectoryEvent : Eta TrajectoryEvent := λ e,
  mkEvent (ev_run_id e) (ev_seq e) (ev_node e) (ev_attempt_no e) (ev_kind e) (ev_at e)
    (ev_memory_snapshot_id e) (ev_library_commit e) (ev_criteria_hash e) (ev_model_ref e)
    (ev_policy_version e) (ev_summary e) (ev_payload_ref e) (ev_payload_inline e)
    (ev_skill_id e) (ev_skill_version e) (ev_criterion_id e) (ev_branch_id e).

(** Pydantic's encoding of the run state: what a [state_json] column holds, and
    how it is read back. *)
Class StateJson (J : Type) := {
  model_dump_json : RunState → J;
  model_validate_json : J → result RunState }.
(** The state is read back as it was dumped. *)
Definition reads_back {J : Type} `{StateJson J} (st : RunState) : Prop := model_validate_json (model_dump_json st) = Ok st.
Class StateJsonLaws (J : Type) `{StateJson J} := { dumps_read_back : ∀ st, reads_back st }.

Record CheckpointRow {J : Type} := mkCheckpoint {
  cp_node : node_name; cp_next : option node_name; cp_state_json : J;
  cp_created_at : datetime; cp_fence : option Z }.
Arguments CheckpointRow : clear implicits.
Arguments mkCheckpoint {J} _ _ _ _ _.
Arguments cp_node {J} _.
Arguments cp_next {J} _.
Arguments cp_state_json {J} _.
Arguments cp_created_at {J} _.
Arguments cp_fence {J} _.

Record SummaryRow := mkSummary {
  sm_terminal : option Terminal;   (* status is [terminal or "running"] *)
  sm_updated_at : datetime; sm_cost_usd : float; sm_task_class : string;
  sm_attempt_no : Z; sm_arm : Arm; sm_created_at : datetime }.

Inductive OutboxStatus := ob_pending | ob_delivered | ob_dead.

Record EvalOutboxWrite := mkEvalWrite {
  ew_observation_key : string; ew_tenant_id : string; ew_run_id : string;
  ew_attempt_no : Z; ew_payload : RunState }.
(** [ew_payload] is dumped when its row is written. *)
Record EvalOutboxRow {J : Type} := mkEvalRow {
  er_tenant_id : string; er_run_id : string; er_attempt_no : Z; er_payload_json : J;
  er_status : string; er_attempts : Z; er_created_at : datetime }.
Arguments EvalOutboxRow : clear implicits.
Arguments mkEvalRow {J} _ _ _ _ _ _ _.
Arguments er_tenant_id {J} _.
Arguments er_run_id {J} _.
Arguments er_attempt_no {J} _.
Arguments er_payload_json {J} _.
Arguments er_status {J} _.
Arguments er_attempts {J} _.
Arguments er_created_at {J} _.

Record OutboxRow := mkOutbox { ox_kind : string; ox_dedupe_key : string; ox_payload_json : string }.
Record OutboxStored := mkOutboxStored {
  os_payload_json : string; os_status : OutboxStatus; os_attempts : Z;
  os_available_at : datetime; os_created_at : datetime }.

Record HopDb {J : Type} := mkHopDb {
  checkpoints : gmap (string * Z) (CheckpointRow J);              (* (run_id, seq) *)
  run_summaries : gmap string SummaryRow;
  eval_outbox : gmap string (EvalOutboxRow J);
  trajectory_meta : gmap (string * string) string;            (* (tenant, run) *)
  trajectory_events : gmap (string * string * Z) (Z * TrajectoryEvent); (* ↦ (hop_seq, event) *)
  route_entries : gmap (string * string * Z) RouteEntry;
  outbox : gmap (string * string * string) OutboxStored }.    (* (tenant, kind, dedupe_key) *)
Arguments HopDb : clear implicits.
Arguments mkHopDb {J} _ _ _ _ _ _ _.
Arguments checkpoints {J} _.
Arguments run_summaries {J} _.
Arguments eval_outbox {J} _.
Arguments trajectory_meta {J} _.
Arguments trajectory_events {J} _.
Arguments route_entries {J} _.
Arguments outbox {J} _.

#[export] Instance eta_HopDb {J : Type} : Eta (HopDb J) := λ d,
  mkHopDb (checkpoints d) (run_summaries d) (eval_outbox d) (trajectory_meta d)
    (trajectory_events d) (route_entries d) (outbox d).

Definition empty_db {J : Type} : HopDb J := mkHopDb ∅ ∅ ∅ ∅ ∅ ∅ ∅.

(** ** Sequence numbers of one run *)

Definition run_seqs {V : Type} (m : gmap (string * Z) V) (run : string) : list Z :=
  omap (λ kv : string * Z * V, if decide (kv.1.1 = run) then Some kv.1.2 else None) (map_to_list m).
Definition event_seqs {V : Type} (m : gmap (string * string * Z) V) (tenant run : string) : list Z :=
  omap (λ kv : string * string * Z * V,
    if decide (kv.1.1 = (tenant, run)) then Some kv.1.2 else None) (map_to_list m).

(** [MAX(seq)], NULL on no rows. *)
Definition zmax (l : list Z) : option Z :=
  match l with [] => None | x :: l' => Some (foldr Z.max x l') end.
(** [COALESCE(MAX(seq), -1)] *)
Definition max_seq (l : list Z) : Z := default (-1) (zmax l).

(** ** [insert_hop] *)

Section Store.
Context {J : Type} `{SJ : StateJson J}.

Definition put_new {K V : Type} `{Countable K} (k : K) (v : V) (m : gmap K V) : result (gmap K V) :=
  match m !! k with Some _ => Err IntegrityError | None => Ok (<[k := v]> m) end.
(** [ON CONFLICT DO NOTHING] *)
Definition put_ignore {K V : Type} `{Countable K} (k : K) (v : V) (m : gmap K V) : gmap K V :=
  match m !! k with Some _ => m | None => <[k := v]> m end.

Definition summary_of (st : RunState) (now created : datetime) : SummaryRow :=
  mkSummary (terminal st) now (s_cost_usd (spent st))
    (match task_class (task st) with
     | Some c => if decide (c = "") then "repo-chore" else c
     | None => "repo-chore" end)
    (attempt_no st) (arm st) created.

Definition upsert_summary (run : string) (st : RunState) (now : datetime)
    (m : gmap string SummaryRow) : gmap string SummaryRow :=
  <[run := summary_of st now
     (match m !! run with Some old => sm_created_at old | None => now end)]> m.

(** The import of a legacy event file: first occurrence of each [seq]. *)
Fixpoint import_loop (tenant run : string) (seen : list Z) (evs : list TrajectoryEvent)
    (m : gmap (string * string * Z) (Z * TrajectoryEvent)) :=
  match evs with
  | [] => m
  | e :: evs' =>
      if decide (ev_seq e ∈ seen) then import_loop tenant run seen evs' m
      else import_loop tenant run (ev_seq e :: seen) evs'
             (<[(tenant, run, ev_seq e) := (0, e <| ev_run_id := run |>)]> m)
  end.

Fixpoint append_loop (tenant run : string) (hop_seq next : Z) (evs : list TrajectoryEvent)
    (m : gmap (string * string * Z) (Z * TrajectoryEvent)) :=
  match evs with
  | [] => m
  | e :: evs' =>
      append_loop tenant run hop_seq (next + 1) evs'
        (<[(tenant, run, next) := (hop_seq, e <| ev_seq := next |> <| ev_run_id := run |>)]> m)
  end.

Definition insert_events (tenant run : string) (seq : Z) (import_events trajectory : list TrajectoryEvent)
    (m : gmap (string * string * Z) (Z * TrajectoryEvent)) :=
  let m1 := if is_nil (event_seqs m tenant run) then import_loop tenant run [] import_events m else m in
  append_loop tenant run seq (max_seq (event_seqs m1 tenant run) + 1) trajectory m1.

Definition insert_outbox (tenant : string) (now : datetime) (rows : list OutboxRow)
    (m : gmap (string * string * string) OutboxStored) :=
  foldl (λ m r, put_ignore (tenant, ox_kind r, ox_dedupe_key r)
                  (mkOutboxStored (ox_payload_json r) ob_pending 0 now now) m) m rows.

Record Hop := mkHop {
  h_seq : Z; h_node : node_name; h_next : option node_name; h_state : RunState;
  h_trajectory : list TrajectoryEvent; h_route : option RouteEntry;
  h_outbox : list OutboxRow; h_import : list TrajectoryEvent;
  h_meta : option string; h_eval : option EvalOutboxWrite }.

Definition insert_hop (tenant run : string) (fence : option Z) (now : datetime) (h : Hop) (d : HopDb J)
    : result (HopDb J) :=
  cps ← put_new (run, h_seq h)
          (mkCheckpoint (h_node h) (h_next h) (model_dump_json (h_state h)) now fence) (checkpoints d);
  routes ← match h_route h with
           | Some re => put_new (tenant, run, h_seq h) re (route_entries d)
           | None => Ok (route_entries d)
           end;
  Ok {| checkpoints := cps;
        run_summaries := upsert_summary run (h_state h) now (run_summaries d);
        eval_outbox := match h_eval h with
          | Some w => put_ignore (ew_observation_key w) (mkEvalRow (ew_tenant_id w) (ew_run_id w) (ew_attempt_no w)
                        (model_dump_json (ew_payload w)) "pending" 0 now) (eval_outbox d)
          | None => eval_outbox d end;
        trajectory_meta := match h_meta h with
          | Some m => put_ignore (tenant, run) m (trajectory_meta d)
          | None => trajectory_meta d end;
        trajectory_events := insert_events tenant run (h_seq h) (h_import h) (h_trajectory h)
                               (trajectory_events d);
        route_entries := routes;
        outbox := insert_outbox tenant now (h_outbox h) (outbox d) |}.

(** ** [commit_hop]: one transaction *)

Record LeaseToken := mkLeaseToken {
  lt_tenant_id : string; lt_run_id : string; lt_fencing_token : Z }.

(** [lease]: [None] when the store is not fenced, otherwise what the database
    connection sees of [run_leases] inside the transaction. *)
Definition commit_hop (tok : option LeaseToken) (lease : option lease_view) (tenant : string)
    (run : option string) (fence : option Z) (m : missing_row) (now : datetime) (h : Hop)
    (d : HopDb J) : result (HopDb J) :=
  let tid := match tok with Some t => lt_tenant_id t | None => tenant end in
  let rid := match tok with
             | Some t => lt_run_id t
             | None => match run with Some r => r | None => run_id (h_state h) end end in
  let fencing := match tok with Some t => Some (lt_fencing_token t) | None => fence end in
  _ ← match lease with
      | None => Ok tt
      | Some view => require_lease_token None (Some view) (tid, rid) fencing m
      end;
  insert_hop tid rid fencing now h d.

(** ** [CheckpointStore] *)

(** A fenced store sees the lease file before the transaction ([lease1], absent
    when the file does not exist) and from inside it ([lease2]). *)
Record Fencing := mkFencing { lease1 : option lease_view; lease2 : lease_view }.

Definition to_conflict {A : Type} (r : result A) : result A :=
  match r with Err IntegrityError => Err CheckpointConflict | _ => r end.

(** [save]: check, then check and write in one transaction. *)
Definition save (tenant : string) (fenced : option Fencing) (run : string) (fence : option Z)
    (now : datetime) (h : Hop) (d : HopDb J) : result (HopDb J) :=
  let m := match fence with None => m_allow | Some _ => m_reject end in
  _ ← match fenced with
      | None => Ok tt
      | Some f => require_lease_token (lease1 f) None (tenant, run) fence m
      end;
  to_conflict (commit_hop None (match fenced with Some f => Some (lease2 f) | None => None end)
                 tenant (Some run) fence m now h d).

Definition latest_seq (d : HopDb J) (run : string) : option Z :=
  zmax (run_seqs (checkpoints d) run).

(** [(seq, node, next_node, state)] of a row, the state parsed. *)
Definition checkpoint_of (seq : Z) (c : CheckpointRow J) : result (Z * node_name * option node_name * RunState) :=
  st ← model_validate_json (cp_state_json c);
  Ok (seq, cp_node c, cp_next c, st).
(** [latest]: the row of the largest [seq], parsed. *)
Definition latest (d : HopDb J) (run : string) : result (option (Z * node_name * option node_name * RunState)) :=
  match q ← latest_seq d run; c ← checkpoints d !! (run, q); Some (q, c) with
  | None => Ok None
  | Some (q, c) => found ← checkpoint_of q c; Ok (Some found)
  end.

Definition sorted_seqs (l : list Z) : list Z := merge_sort Z.le l.

(** Every row of the run, parsed; the first that cannot be parsed raises. *)
Definition history (d : HopDb J) (run : string) : result (list (Z * node_name * option node_name * RunState)) :=
  foldr (λ q rest, match checkpoints d !! (run, q) with
                   | Some c => x ← checkpoint_of q c; xs ← rest; Ok (x :: xs)
                   | None => rest
                   end) (Ok []) (sorted_seqs (run_seqs (checkpoints d) run)).

Definition list_trajectory_events (d : HopDb J) (tenant run : string) : list TrajectoryEvent :=
  omap (λ q, snd <$> trajectory_events d !! (tenant, run, q))
    (sorted_seqs (event_seqs (trajectory_events d) tenant run)).

Definition mark_eval_outbox (key status : string) (attempts : Z) (d : HopDb J) : HopDb J :=
  d <| eval_outbox := alter (λ r, mkEvalRow (er_tenant_id r) (er_run_id r) (er_attempt_no r) (er_payload_json r)
                                  status attempts (er_created_at r)) key
                        (eval_outbox d) |>.

(** ** Lemmas on sequence numbers *)

Lemma zmax_spec l x : zmax l = Some x → x ∈ l ∧ ∀ y, y ∈ l → y ≤ x.
Proof.
  destruct l as [|a l]; [done|]. simpl. intros [= <-].
  induction l as [|b l [IH1 IH2]]; simpl.
  - split; [left|]. intros y [->|H]%elem_of_cons; [lia|inversion H].
  - split.
    + destruct (Z.max_spec b (foldr Z.max a l)) as [[_ ->]|[_ ->]]; set_solver.
    + intros y Hy. assert (y = b ∨ y ∈ a :: l) as [->|H] by set_solver; [lia|].
      specialize (IH2 _ H). lia.
Qed.

Lemma zmax_unique l x : x ∈ l → (∀ y, y ∈ l → y ≤ x) → zmax l = Some x.
Proof.
  intros Hx Hle. destruct (zmax l) as [z|] eqn:E; [|by destruct l; [inversion Hx|]].
  apply zmax_spec in E as [Hz Hm]. f_equal. apply Z.le_antisymm; auto.
Qed.

Lemma zmax_None l : zmax l = None ↔ l = [].
Proof. by destruct l. Qed.

Lemma elem_of_run_seqs {V : Type} (m : gmap (string * Z) V) run q :
  q ∈ run_seqs m run ↔ is_Some (m !! (run, q)).
Proof.
  unfold run_seqs. rewrite list_elem_of_omap. split.
  - intros ([[r q'] v] & H & Hq). simpl in Hq. destruct (decide (r = run)) as [->|]; [|done].
    injection Hq as ->. apply elem_of_map_to_list in H. eauto.
  - intros [v Hv]. exists (run, q, v). rewrite elem_of_map_to_list. split; [done|].
    simpl. by rewrite decide_True.
Qed.

Lemma elem_of_event_seqs {V : Type} (m : gmap (string * string * Z) V) t run q :
  q ∈ event_seqs m t run ↔ is_Some (m !! (t, run, q)).
Proof.
  unfold event_seqs. rewrite list_elem_of_omap. split.
  - intros ([[r q'] v] & H & Hq). simpl in Hq. destruct (decide (r = (t, run))) as [->|]; [|done].
    injection Hq as ->. apply elem_of_map_to_list in H. eauto.
  - intros [v Hv]. exists (t, run, q, v). rewrite elem_of_map_to_list. split; [done|].
    simpl. by rewrite decide_True.
Qed.

Lemma event_seqs_insert {V : Type} (m : gmap (string * string * Z) V) t run q v :
  m !! (t, run, q) = None →
  event_seqs (<[(t, run, q) := v]> m) t run ≡ₚ q :: event_seqs m t run.
Proof.
  intros H. unfold event_seqs. rewrite map_to_list_insert by done. simpl.
  by rewrite decide_True.
Qed.

(** A new largest sequence number sorts last. *)
Lemma sorted_seqs_snoc l l' q :
  l' ≡ₚ q :: l → (∀ y, y ∈ l → y < q) → sorted_seqs l' = sorted_seqs l ++ [q].
Proof.
  intros Hp Hlt. unfold sorted_seqs. apply (Sorted_unique Z.le).
  - apply Sorted_merge_sort, _.
  - apply StronglySorted_Sorted, StronglySorted_app. split_and!.
    + intros x1 x2 H1 H2%list_elem_of_singleton. subst.
      assert (x1 ∈ l) as H by (by rewrite <-(merge_sort_Permutation Z.le)).
      specialize (Hlt _ H). lia.
    + apply Sorted_StronglySorted; [intros x y z ? ?; lia|]. apply Sorted_merge_sort, _.
    + repeat constructor.
  - rewrite !merge_sort_Permutation, Hp. by rewrite Permutation_cons_append.
Qed.

(** ** Lemmas on the event table *)

Definition list_events (m : gmap (string * string * Z) (Z * TrajectoryEvent)) (t run : string)
    : list TrajectoryEvent :=
  omap (λ q, snd <$> m !! (t, run, q)) (sorted_seqs (event_seqs m t run)).

(** [events] of one hop as they are stored: numbered on from [next]. *)
Fixpoint renumber (run : string) (next : Z) (evs : list TrajectoryEvent) : list TrajectoryEvent :=
  match evs with
  | [] => []
  | e :: evs' => e <| ev_seq := next |> <| ev_run_id := run |> :: renumber run (next + 1) evs'
  end.

Lemma list_events_insert m t run q hop e :
  (∀ y, y ∈ event_seqs m t run → y < q) →
  list_events (<[(t, run, q) := (hop, e)]> m) t run = list_events m t run ++ [e].
Proof.
  intros Hlt. assert (m !! (t, run, q) = None) as Hnew.
  { destruct (m !! (t, run, q)) eqn:E; [|done].
    assert (q ∈ event_seqs m t run) as H by (apply elem_of_event_seqs; eauto).
    specialize (Hlt _ H). lia. }
  unfold list_events.
  rewrite (sorted_seqs_snoc (event_seqs m t run) _ q); [|by apply event_seqs_insert|done].
  rewrite omap_app. simpl. rewrite lookup_insert_eq. simpl. f_equal.
  apply list_omap_ext, Forall2_same_length_lookup_2; [done|].
  intros i y z Hy Hz. assert (y = z) as <- by congruence.
  assert (y ∈ event_seqs m t run) as H.
  { rewrite <-(merge_sort_Permutation Z.le). by eapply list_elem_of_lookup_2. }
  specialize (Hlt _ H). rewrite lookup_insert_ne; [done|]. intros [=]. lia.
Qed.

Lemma append_loop_events t run hop next evs m :
  (∀ y, y ∈ event_seqs m t run → y < next) →
  list_events (append_loop t run hop next evs m) t run =
  list_events m t run ++ renumber run next evs.
Proof.
  revert next m. induction evs as [|e evs IH]; intros next m Hlt; simpl.
  { by rewrite app_nil_r. }
  rewrite IH.
  - rewrite list_events_insert by done. by rewrite <-app_assoc.
  - intros y Hy%elem_of_event_seqs. rewrite lookup_insert in Hy.
    destruct (decide (_ = _)) as [[= <-]|]; [lia|].
    apply elem_of_event_seqs in Hy. specialize (Hlt _ Hy). lia.
Qed.

Lemma append_loop_other t run hop next evs m t' run' q :
  (t, run) ≠ (t', run') →
  append_loop t run hop next evs m !! (t', run', q) = m !! (t', run', q).
Proof.
  intros Hne. revert next m. induction evs as [|e evs IH]; intros next m; simpl; [done|].
  rewrite IH. rewrite lookup_insert_ne; [done|]. intros [=]. congruence.
Qed.

Lemma import_loop_other t run seen evs m t' run' q :
  (t, run) ≠ (t', run') →
  import_loop t run seen evs m !! (t', run', q) = m !! (t', run', q).
Proof.
  intros Hne. revert seen m. induction evs as [|e evs IH]; intros seen m; simpl; [done|].
  destruct (decide _); rewrite IH; [done|].
  rewrite lookup_insert_ne; [done|]. intros [=]. congruence.
Qed.

Lemma max_seq_lt l y : y ∈ l → y < max_seq l + 1.
Proof.
  unfold max_seq. intros Hy. destruct (zmax l) as [x|] eqn:E; simpl.
  - apply zmax_spec in E as [_ H]. specialize (H _ Hy). lia.
  - apply zmax_None in E as ->. inversion Hy.
Qed.

(** What a successful [save] did, field by field. *)
Lemma save_Ok t f run fence now h d d' :
  save t f run fence now h d = Ok d' →
  checkpoints d !! (run, h_seq h) = None ∧
  checkpoints d' = <[(run, h_seq h) :=
    mkCheckpoint (h_node h) (h_next h) (model_dump_json (h_state h)) now fence]> (checkpoints d) ∧
  run_summaries d' = upsert_summary run (h_state h) now (run_summaries d) ∧
  trajectory_events d' = insert_events t run (h_seq h) (h_import h) (h_trajectory h)
                           (trajectory_events d).
Proof.
  unfold save. intros (u & _ & H)%bind_Ok_inv.
  destruct (commit_hop _ _ _ _ _ _ _ _ _) as [d1|e] eqn:E; [|by destruct e].
  injection H as ->. unfold commit_hop in E. simpl in E.
  apply bind_Ok_inv in E as (u' & _ & E). unfold insert_hop, put_new in E.
  destruct (checkpoints d !! (run, h_seq h)); [done|]. simpl in E.
  apply bind_Ok_inv in E as (routes & _ & [= <-]). done.
Qed.

Lemma latest_seq_insert (d : HopDb J) run q c :
  (∀ x, latest_seq d run = Some x → x < q) →
  latest_seq (d <| checkpoints := <[(run, q) := c]> (checkpoints d) |>) run = Some q.
Proof.
  intros Hlt. unfold latest_seq. simpl. apply zmax_unique.
  - apply elem_of_run_seqs. rewrite lookup_insert_eq. eauto.
  - intros y Hy%elem_of_run_seqs. rewrite lookup_insert in Hy.
    destruct (decide (_ = _)) as [[= <-]|]; [lia|]. apply elem_of_run_seqs in Hy.
    destruct (latest_seq d run) as [x|] eqn:E.
    + specialize (Hlt _ eq_refl). apply zmax_spec in E as [_ E]. specialize (E _ Hy). lia.
    + apply zmax_None in E. rewrite E in Hy. inversion Hy.
Qed.

Lemma run_seqs_insert_other {V : Type} (m : gmap (string * Z) V) run run' q c y :
  run ≠ run' → y ∈ run_seqs (<[(run, q) := c]> m) run' ↔ y ∈ run_seqs m run'.
Proof.
  intros H. rewrite !elem_of_run_seqs, lookup_insert_ne; [done|]. congruence.
Qed.

Lemma zmax_ext l l' : (∀ y, y ∈ l ↔ y ∈ l') → zmax l = zmax l'.
Proof.
  intros H. destruct (zmax l) as [x|] eqn:E.
  - apply zmax_spec in E as [H1 H2]. symmetry. apply zmax_unique; [by apply H|].
    intros y Hy. by apply H2, H.
  - apply zmax_None in E as ->. destruct l' as [|y l']; [done|].
    assert (y ∈ @nil Z) as Hy by (apply H; left). inversion Hy.
Qed.

Lemma latest_after d d' run q c :
  checkpoints d' = <[(run, q) := c]> (checkpoints d) →
  (∀ x, latest_seq d run = Some x → x < q) →
  latest d' run = (found ← checkpoint_of q c; Ok (Some found)).
Proof.
  intros Hc Hlt. unfold latest.
  assert (latest_seq d' run = Some q) as ->.
  { rewrite <-(latest_seq_insert d run q c Hlt). unfold latest_seq. by rewrite Hc. }
  simpl. by rewrite Hc, lookup_insert_eq.
Qed.

Lemma latest_other d d' run q c run' :
  checkpoints d' = <[(run, q) := c]> (checkpoints d) → run ≠ run' →
  latest d' run' = latest d run'.
Proof.
  intros Hc Hne. unfold latest.
  assert (latest_seq d' run' = latest_seq d run') as ->.
  { unfold latest_seq. rewrite Hc. apply zmax_ext. intros y. by apply run_seqs_insert_other. }
  destruct (latest_seq d run') as [x|]; simpl; [|done].
  rewrite Hc, lookup_insert_ne; [done|]. congruence.
Qed.
(** The newest row's state, when it reads back. *)
Lemma latest_saved t f run fence now h d d' :
  save t f run fence now h d = Ok d' → (∀ x, latest_seq d run = Some x → x < h_seq h) → reads_back (J := J) (h_state h) →
  latest d' run = Ok (Some (h_seq h, h_node h, h_next h, h_state h)).
Proof.
  intros (_ & Hc & _)%save_Ok Hlt Hr. rewrite (latest_after d d' run _ _ Hc Hlt).
  unfold checkpoint_of, reads_back in *. simpl. by rewrite Hr.
Qed.

(** The summary row of each run tells the terminal outcome, attempt, arm, cost
    and class of its latest checkpoint. *)
Definition summaries_agree (d : HopDb J) : Prop :=
  ∀ run, match latest d run with
         | Ok None => run_summaries d !! run = None
         | Ok (Some (_, _, _, st)) => ∃ now created, run_summaries d !! run = Some (summary_of st now created)
         | Err _ => True
         end.

(** ** Theorems *)

(** Checkpoints are write-once: a [save] either leaves every earlier checkpoint
    as it was and adds exactly its own row, or raises; a taken [(run_id, seq)]
    always raises, with [CheckpointConflict] unless the fence refuses first. *)
Theorem save_write_once t f run fence now h d :
  match save t f run fence now h d with
  | Ok d' => checkpoints d !! (run, h_seq h) = None ∧
             checkpoints d ⊆ checkpoints d' ∧
             dom (checkpoints d') = {[ (run, h_seq h) ]} ∪ dom (checkpoints d)
  | Err e => is_Some (checkpoints d !! (run, h_seq h)) → e = CheckpointConflict ∨ e = LeaseLost
  end.
Proof.
  destruct (save t f run fence now h d) as [d'|e] eqn:E.
  - apply save_Ok in E as (Hn & Hc & _). rewrite Hc, dom_insert_L. split_and!; try done.
    by apply insert_subseteq.
  - intros [c Hc]. unfold save in E. destruct (_ : result unit) as [u|e'] eqn:E1 in E.
    + simpl in E. unfold commit_hop in E. destruct (_ : result unit) as [u'|e''] eqn:E2 in E; simpl in E.
      * unfold insert_hop, put_new in E. rewrite Hc in E. simpl in E. left. congruence.
      * right. destruct f as [f|]; [|done].
        assert (e'' = LeaseLost) as ->; [|by injection E].
        unfold require_lease_token, check_lease, raise_unless in E2.
        repeat break_match_in E2; simplify_eq; done.
    + simpl in E. right. destruct f as [f|]; [|done].
      assert (e' = LeaseLost) as ->; [|by injection E].
      unfold require_lease_token, check_lease, raise_unless in E1.
      repeat break_match_in E1; simplify_eq; done.
Qed.

(** A fenced write that carries a token commits only for the run's current
    holder, as seen from inside the committing transaction. *)
Theorem save_fenced t f run tok now h d d' :
  save t (Some f) run (Some tok) now h d = Ok d' → holds (lease2 f) (t, run) tok.
Proof.
  unfold save, commit_hop. intros (u & _ & H)%bind_Ok_inv. simpl in H.
  destruct (require_lease_token _ _ _ _ _) as [u'|e] eqn:E; simpl in H.
  2: { destruct e; discriminate. }
  unfold require_lease_token in E. simpl in E. apply check_lease_Ok in E as [(x & [= <-] & Hh)|[Hm _]]; [done|discriminate].
Qed.

(** C39: Resume reads back the last hop: after a [save] under the next sequence
    number, whose state pydantic reads back as it dumped it, [latest] answers
    with exactly the saved node, target and state; with any state it answers
    with that row - whatever the row's state parses to - and the latest
    checkpoint of every other run is unchanged. *)
Theorem save_then_latest t f run fence now h d d' :
  save t f run fence now h d = Ok d' → (∀ x, latest_seq d run = Some x → x < h_seq h) →
  (reads_back (J := J) (h_state h) → latest d' run = Ok (Some (h_seq h, h_node h, h_next h, h_state h))) ∧
  latest d' run = (st ← model_validate_json (model_dump_json (h_state h)); Ok (Some (h_seq h, h_node h, h_next h, st))) ∧
  ∀ run', run ≠ run' → latest d' run' = latest d run'.
Proof.
  intros Hs Hlt. pose proof Hs as (_ & Hc & _)%save_Ok. split; [by apply latest_saved with (1 := Hs)|]. split.
  - rewrite (latest_after d d' run _ _ Hc Hlt). unfold checkpoint_of. simpl. by destruct (model_validate_json _).
  - intros run' Hne. by eapply latest_other.
Qed.

(** The event tape is append-only: a hop's events follow the run's earlier
    events, renumbered without gap from the last one, and no other run's tape
    moves. *)
Theorem save_appends_events t f run fence now h d d' :
  save t f run fence now h d = Ok d' →
  (h_import h = [] ∨ event_seqs (trajectory_events d) t run ≠ []) →
  list_trajectory_events d' t run =
    list_trajectory_events d t run ++
    renumber run (max_seq (event_seqs (trajectory_events d) t run) + 1) (h_trajectory h) ∧
  ∀ t' run' q, (t, run) ≠ (t', run') →
    trajectory_events d' !! (t', run', q) = trajectory_events d !! (t', run', q).
Proof.
  intros (_ & _ & _ & He)%save_Ok Hi. split.
  - change (list_events (trajectory_events d') t run =
      list_events (trajectory_events d) t run ++
      renumber run (max_seq (event_seqs (trajectory_events d) t run) + 1) (h_trajectory h)).
    rewrite He. unfold insert_events.
    assert ((if is_nil (event_seqs (trajectory_events d) t run)
             then import_loop t run [] (h_import h) (trajectory_events d)
             else trajectory_events d) = trajectory_events d) as ->.
    { destruct Hi as [->|Hi]; [by destruct (is_nil _)|]. by destruct (event_seqs _ _ _). }
    apply append_loop_events. intros y Hy. by apply max_seq_lt.
  - intros t' run' q Hne. rewrite He. unfold insert_events.
    rewrite append_loop_other by done. destruct (is_nil _); [|done].
    by apply import_loop_other.
Qed.

(** Committing a run's hops in sequence keeps the run list true: every
    summary row tells the outcome of its run's latest checkpoint. *)
Theorem save_keeps_summaries t f run fence now h d d' :
  summaries_agree d → reads_back (J := J) (h_state h) → save t f run fence now h d = Ok d' →
  (∀ x, latest_seq d run = Some x → x < h_seq h) → summaries_agree d'.
Proof.
  intros Ha Hr Hsv Hlt run'. pose proof Hsv as (_ & Hc & Hs & _)%save_Ok. rewrite Hs. unfold upsert_summary.
  destruct (decide (run = run')) as [<-|Hne].
  - rewrite (latest_saved _ _ _ _ _ _ _ _ Hsv Hlt Hr), lookup_insert_eq. simpl. eauto.
  - rewrite (latest_other d d' run _ _ run' Hc Hne), lookup_insert_ne by done. apply Ha.
Qed.

End Store.

(** ** Witnesses *)

Module Example.
(** A column that holds the run id, the attempt and the recorded end; read
    back, the rest is as at the start. *)
Record Column := mkColumn { co_run : string; co_task : Task; co_attempt : Z; co_terminal : option Terminal }.
Definition task0 : Task := mkTask "t" None (Some "fix it") None None None 0 false ES_single.
Definition state0 : RunState :=
  initial_RunState "r1" task0 [] default_Budget treatment default_Manifest.
#[global] Instance column_json : StateJson Column := {
  model_dump_json st := mkColumn (run_id st) (task st) (attempt_no st) (terminal st);
  model_validate_json c := if decide (co_run c = "") then Err ValidationError
    else Ok ((initial_RunState (co_run c) (co_task c) [] default_Budget treatment default_Manifest)
               <| attempt_no := co_attempt c |> <| terminal := co_terminal c |>) }.
Definition event0 : TrajectoryEvent :=
  mkEvent "" 0 "intake" 0 E_criteria_locked 0 None None None None None None None None None None
    None None.
Definition hop0 : Hop :=
  mkHop 0 N_intake (Some N_retrieve) state0 [event0; event0] None [] [] None None.
Definition hop1 : Hop :=
  mkHop 1 N_retrieve (Some N_plan) state0 [event0] None [] [] None None.
Definition row : LeaseRow := mkLeaseRow "pid:1" 3 1 (Some 0) (Some f0) None (Some "g") (Some "held").
Definition view : lease_view := Some {[ ("local", "r1") := row ]}.
Definition fencing : Fencing := mkFencing (Some view) view.
Definition or_db (d : HopDb Column) (r : result (HopDb Column)) : HopDb Column := match r with Ok d' => d' | Err _ => d end.
Definition d1 : HopDb Column := or_db empty_db (save "local" (Some fencing) "r1" (Some 3) 10 hop0 empty_db).
Definition d2 : HopDb Column := or_db d1 (save "local" (Some fencing) "r1" (Some 3) 20 hop1 d1).
End Example.

Lemma next_after_0 q : 0 < q → ∀ x, latest_seq Example.d1 "r1" = Some x → x < q.
Proof. intros Hq x. vm_compute latest_seq. intros [= <-]. exact Hq. Qed.

Lemma save_fenced_witness : holds Example.view ("local", "r1") 3.
Proof.
  apply (save_fenced "local" Example.fencing "r1" 3 20 Example.hop1 Example.d1 Example.d2).
  vm_compute; reflexivity.
Defined.

Lemma save_then_latest_witness :
  latest Example.d2 "r1" = Ok (Some (1, N_retrieve, Some N_plan, Example.state0)) ∧
  ∀ run', "r1" ≠ run' → latest Example.d2 run' = latest Example.d1 run'.
Proof.
  destruct (save_then_latest "local" (Some Example.fencing) "r1" (Some 3) 20 Example.hop1 Example.d1 Example.d2)
    as (Hl & _ & Ho); [vm_compute; reflexivity|apply next_after_0; reflexivity|].
  split; [apply Hl; reflexivity|exact Ho].
Defined.

Lemma save_appends_events_witness :
  list_trajectory_events Example.d2 "local" "r1" =
    list_trajectory_events Example.d1 "local" "r1" ++
    renumber "r1" (max_seq (event_seqs (trajectory_events Example.d1) "local" "r1") + 1)
      [Example.event0] ∧
  ∀ t' run' q, ("local", "r1") ≠ (t', run') →
    trajectory_events Example.d2 !! (t', run', q) = trajectory_events Example.d1 !! (t', run', q).
Proof.
  apply (save_appends_events "local" (Some Example.fencing) "r1" (Some 3) 20 Example.hop1
    Example.d1 Example.d2); [vm_compute; reflexivity|left; reflexivity].
Defined.

Lemma empty_agrees : summaries_agree (J := Example.Column) empty_db.
Proof. intros run. unfold latest, latest_seq, run_seqs. simpl. by rewrite map_to_list_empty. Qed.

Lemma save_keeps_summaries_witness : summaries_agree Example.d1.
Proof.
  apply (save_keeps_summaries "local" (Some Example.fencing) "r1" (Some 3) 10 Example.hop0
    empty_db Example.d1); [exact empty_agrees|reflexivity|vm_compute; reflexivity|].
  intros x. vm_compute. discriminate.
Defined.
