(* ===== verification/HashChain.v ===== *)
(** * The hash-chained ledger (ledger/hashchain.py, sidecar.py, signer.py, repair.py)

    The ledger file as bytes, its tip sidecar and the tip a [HashChainLedger]
    caches; reading the tail through a growing window, append under the fence,
    full and suffix verification, signatures and torn-tail repair.  SHA-256,
    HMAC and the JSON codecs of pydantic are parameters ([LedgerCodec]); what
    the theorems use of them is [CodecLaws].  The theorems: every ledger that
    appends, crashes and repairs can leave verifies up to a torn tail and keeps
    its acknowledged entries, while the file system's writes are whole; a verified tip fixes the whole chain, or a
    SHA-256 collision is exhibited; the suffix check agrees with the full one. *)
From S2P Require Import Prelude Fence.
From Stdlib Require Import ZArith Lia Ascii.
Open Scope Z_scope.

Notation bytes := (list ascii).

(** ** contracts/ledger.py *)

Inductive LedgerAction :=
  | la_write | la_advance_to_candidate | la_quarantine_version | la_deprecate | la_policy_change
  | la_lint_reject | la_compress_skill | la_revoke_lineage | la_compose_block
  | la_publish_patch_template | la_lift_report | la_faithfulness_report | la_applicability_reject
  | la_mea_activation_fallback | la_close_receipt | la_ledger_repaired.
#[export] Instance LedgerAction_eq_dec : EqDecision LedgerAction. Proof. solve_decision. Defined.

Record LedgerEntry := mkEntry {
  le_seq : Z; le_prev_hash : string; le_entry_hash : string; le_actor : string;
  le_action : LedgerAction; le_target : string; le_evidence : json_obj; le_at : Z }.
#[export] Instance eta_LedgerEntry : Eta LedgerEntry := λ e,
  mkEntry (le_seq e) (le_prev_hash e) (le_entry_hash e) (le_actor e) (le_action e) (le_target e)
    (le_evidence e) (le_at e).

(** [entry.model_dump(mode="json", exclude={"entry_hash"})]: every other field. *)
Record EntryBody := mkBody {
  eb_seq : Z; eb_prev_hash : string; eb_actor : string; eb_action : LedgerAction;
  eb_target : string; eb_evidence : json_obj; eb_at : Z }.
Definition body_of (e : LedgerEntry) : EntryBody :=
  mkBody (le_seq e) (le_prev_hash e) (le_actor e) (le_action e) (le_target e) (le_evidence e) (le_at e).

(** ** The libraries the ledger calls *)

Class LedgerCodec := {
  model_dump_json : LedgerEntry → bytes;          (* pydantic, UTF-8 *)
  model_validate_json : bytes → option LedgerEntry;
  json_dumps : EntryBody → bytes;                 (* json.dumps(..., sort_keys=True), UTF-8 *)
  sha256_hex : bytes → string;
  hmac_sha256_hex : bytes → bytes → string;       (* key, message *)
  store_receipt_ok : json_obj → bool              (* StoreReceipt.model_validate passes *) }.

(** ** Byte strings *)

Definition NL : ascii := "010"%char.
Definition CR : ascii := "013"%char.
(** [bytes.strip()]'s whitespace *)
Definition is_ws (c : ascii) : bool :=
  let n := Ascii.nat_of_ascii c in (n =? 32)%nat || ((9 <=? n)%nat && (n <=? 13)%nat).
(** [not line.strip()] *)
Definition blank (l : bytes) : bool := forallb is_ws l.
Definition count_nl (l : bytes) : nat := length (List.filter (Ascii.eqb NL) l).
(** [data.rfind(b"\n")]; [data.rfind(b"\n", 0, k)] is [rfind_nl (take k data)]. *)
Fixpoint rfind_nl (d : bytes) : option nat :=
  match d with
  | [] => None
  | c :: d' => match rfind_nl d' with
               | Some i => Some (S i)
               | None => if Ascii.eqb NL c then Some 0%nat else None
               end
  end.
(** [data[i:j]] *)
Definition slice (i j : nat) (d : bytes) : bytes := drop i (take j d).

(** [data.splitlines()]: bytes split at [\n], [\r] and [\r\n]. *)
Fixpoint lines_from (acc d : bytes) : list bytes :=
  match d with
  | [] => match acc with [] => [] | _ => [rev acc] end
  | c :: d' =>
      if Ascii.eqb NL c then rev acc :: lines_from [] d'
      else if Ascii.eqb CR c then
        rev acc :: match d' with
                   | c' :: d'' => if Ascii.eqb NL c' then lines_from [] d'' else lines_from [] d'
                   | [] => []
                   end
      else lines_from (c :: acc) d'
  end.
Definition splitlines (d : bytes) : list bytes := lines_from [] d.

(** ** ledger/sidecar.py *)

Record TipSidecar := mkTip {
  ts_entries : Z; ts_next_seq : Z; ts_tip_hash : string; ts_prefix_bytes : Z;
  ts_prefix_sha256 : string; ts_durability : string }.

(** The ledger file, its sidecar file ([None]: missing or unreadable), the
    torn tails put in quarantine, and the tip cached by the [HashChainLedger]
    at hand. *)
Record LedgerState := mkLedger {
  lg_file : option bytes; lg_side : option TipSidecar; lg_quarantine : list bytes;
  lg_tip : option (Z * string) }.
#[export] Instance eta_LedgerState : Eta LedgerState := λ s,
  mkLedger (lg_file s) (lg_side s) (lg_quarantine s) (lg_tip s).

(** [path.read_bytes() if path.exists() else b""] *)
Definition raw (s : LedgerState) : bytes := default [] (lg_file s).
Definition size (s : LedgerState) : nat := length (raw s).

Definition GENESIS_HASH : string := "0000000000000000000000000000000000000000000000000000000000000000".

Record VerifyReport := mkVerify {
  vr_ok : bool; vr_entries : Z; vr_full : bool; vr_suffix_entries : Z; vr_tip_hash : string }.
Record RepairReport := mkRepair {
  rr_status : string; rr_dropped_bytes : Z; rr_prefix_entries : Z; rr_prefix_sha256 : string }.

Definition SIG_FIELD : string := "_ledger_sig".
Definition SIG_ALG : string := "hmac-sha256".
Definition KEY_ID : string := "hmac-sha256:1".

Section Ledger.
Context `{CD : LedgerCodec}.
Notation LM := (M LedgerState).

Definition _canonical_bytes (e : LedgerEntry) : bytes := json_dumps (body_of e).
Definition compute_entry_hash (e : LedgerEntry) : string := sha256_hex (_canonical_bytes e).

Definition sidecar_matches (s : LedgerState) (t : TipSidecar) : bool :=
  if (ts_prefix_bytes t <? 0) || (Z.of_nat (size s) <? ts_prefix_bytes t) then false
  else match lg_file s with
       | None => false                                  (* open raises OSError *)
       | Some d => String.eqb (sha256_hex (take (Z.to_nat (ts_prefix_bytes t)) d)) (ts_prefix_sha256 t)
       end.

Definition write_sidecar (entries : Z) (tip_hash durability : string) : LM unit := λ s,
  (s <| lg_side := Some (mkTip entries entries tip_hash (Z.of_nat (size s)) (sha256_hex (raw s)) durability) |>,
   Ok tt).

(** ** [read_tail] *)

(** The loop that grows the window backwards from the end of the file;
    [end_] is where [data] starts. *)
Fixpoint tail_window (fuel : nat) (d data : bytes) (end_ window : Z) : bytes :=
  match fuel with
  | O => data
  | S fuel =>
      let start := Z.max 0 (end_ - window) in
      let data := slice (Z.to_nat start) (Z.to_nat end_) d ++ data in
      if (2 <=? count_nl data)%nat || (start =? 0) then data
      else tail_window fuel d data start (window * 2)
  end.

(** The walk back over trailing blank lines; [cursor] is the newline before
    the blank line. *)
Fixpoint walk_back (fuel : nat) (data : bytes) (cursor : nat) : bytes :=
  match fuel with
  | O => []
  | S fuel =>
      let earlier := rfind_nl (take cursor data) in
      let candidate := match earlier with
                       | None => take cursor data
                       | Some e => slice (S e) cursor data
                       end in
      if negb (blank candidate) then candidate
      else match earlier with None => [] | Some e => walk_back fuel data e end
  end.

Definition tail_window_bytes : Z := 1024 * 1024.

Definition read_tail_with (window : Z) (file : option bytes) : result (option LedgerEntry * nat) :=
  match file with
  | None | Some [] => Ok (None, 0%nat)
  | Some d =>
      let size := length d in
      let data := tail_window (S size) d [] (Z.of_nat size) window in
      match rfind_nl data with
      | None => Ok (None, 0%nat)
      | Some last_nl =>
          let base := (size - length data)%nat in
          let complete_len := (base + last_nl + 1)%nat in
          let prev_nl := rfind_nl (take last_nl data) in
          let line := match prev_nl with
                      | None => take last_nl data
                      | Some p => slice (S p) last_nl data
                      end in
          let line := if negb (blank line) then line
                      else match prev_nl with
                           | None => line
                           | Some p => walk_back (S (length data)) data p
                           end in
          if blank line then Ok (None, complete_len)
          else match model_validate_json line with
               | Some e => Ok (Some e, complete_len)
               | None => Err LedgerUnavailable
               end
      end
  end.
Definition read_tail (file : option bytes) : result (option LedgerEntry * nat) :=
  read_tail_with tail_window_bytes file.

(** ** Entries and the chain *)

Fixpoint entries_of_lines (ls : list bytes) : result (list LedgerEntry) :=
  match ls with
  | [] => Ok []
  | l :: ls' =>
      if blank l then entries_of_lines ls'
      else match model_validate_json l with
           | None => Err LedgerVerificationError
           | Some e => es ← entries_of_lines ls'; Ok (e :: es)
           end
  end.
Definition _entries_from_bytes (d : bytes) : result (list LedgerEntry) := entries_of_lines (splitlines d).

Definition _validate_close_receipt_evidence (e : LedgerEntry) : result unit :=
  raise_unless (store_receipt_ok (obj_drop SIG_FIELD (le_evidence e))) LedgerVerificationError.

(** [entry.model_copy(update={"entry_hash": "pending"})] is what gets hashed. *)
Fixpoint _verify_chain (entries : list LedgerEntry) (expected : Z) (prev_hash : string) : result unit :=
  match entries with
  | [] => Ok tt
  | e :: entries' =>
      _ ← raise_unless (le_seq e =? expected) LedgerVerificationError;
      _ ← raise_unless (String.eqb (le_prev_hash e) prev_hash) LedgerVerificationError;
      _ ← raise_unless (String.eqb (compute_entry_hash (e <| le_entry_hash := "pending" |>)) (le_entry_hash e))
            LedgerVerificationError;
      _ ← (if bool_decide (le_action e = la_close_receipt) then _validate_close_receipt_evidence e else Ok tt);
      _verify_chain entries' (expected + 1) (le_entry_hash e)
  end.

(** The tip hash of a list of entries that starts after [h]. *)
Definition tip_of (h : string) (es : list LedgerEntry) : string :=
  match last es with Some e => le_entry_hash e | None => h end.

(** ** ledger/signer.py *)

Definition signature_bytes (e : LedgerEntry) : bytes :=
  _canonical_bytes (e <| le_evidence := obj_drop SIG_FIELD (le_evidence e) |>).
Definition sign_entry (e : LedgerEntry) (key : bytes) : json :=
  JObj [("alg", JStr SIG_ALG); ("key_id", JStr KEY_ID); ("sig", JStr (hmac_sha256_hex key (signature_bytes e)))].
Definition signature_ok (e : LedgerEntry) (key : bytes) : bool :=
  match obj_get SIG_FIELD (le_evidence e) with
  | Some (JObj r) =>
      match obj_get "alg" r, obj_get "sig" r with
      | Some (JStr alg), Some (JStr sig) =>
          String.eqb alg SIG_ALG && String.eqb sig (hmac_sha256_hex key (signature_bytes e))
      | _, _ => false
      end
  | _ => false
  end.

(** [HmacLedgerHook(key).before_append] *)
Definition hmac_before_append (key : bytes) (e : LedgerEntry) : LedgerEntry :=
  let evidence := obj_drop SIG_FIELD (le_evidence e) in
  let stamped := sign_entry (e <| le_evidence := evidence |>) key in
  e <| le_evidence := obj_set SIG_FIELD stamped evidence |>.

(** [_check_signatures] with [key = ledger_hmac_key()]; [seen] is [seen_cutover]. *)
Fixpoint _check_signatures (key : option bytes) (seen : bool) (entries : list LedgerEntry) : result unit :=
  match entries with
  | [] => Ok tt
  | e :: entries' =>
      if negb seen && bool_decide (obj_get SIG_FIELD (le_evidence e) = None)
      then _check_signatures key seen entries'
      else match key with
           | None => Err LedgerVerificationError
           | Some k =>
               if signature_ok e k then _check_signatures key true entries' else Err LedgerVerificationError
           end
  end.

(** ** [HashChainLedger]: one critical section per operation *)

Definition _scan_tip (complete_len : nat) : LM (Z * string) := λ s,
  (s, es ← _entries_from_bytes (take complete_len (raw s)); 
      Ok (Z.of_nat (length es), tip_of GENESIS_HASH es)).

Definition _tip_for_append : LM (Z * string) := λ s,
  match read_tail (lg_file s) with
  | Err e => (s, Err e)
  | Ok (last, complete_len) =>
      if (complete_len <? size s)%nat then (s, Err LedgerUnavailable)
      else
        let observed := match last with
                        | None => (0, GENESIS_HASH)
                        | Some e => (le_seq e + 1, le_entry_hash e)
                        end in
        let trusted := match lg_tip s with
                       | Some t => bool_decide (t = observed)
                       | None => match lg_side s with
                                 | Some side => sidecar_matches s side
                                     && bool_decide ((ts_next_seq side, ts_tip_hash side) = observed)
                                 | None => false
                                 end
                       end in
        match (if trusted then (s, Ok observed) else _scan_tip complete_len s) with
        | (s, Ok t) => (s <| lg_tip := Some t |>, Ok t)
        | (s, Err e) => (s, Err e)
        end
  end.

(** What [append] is asked to record. *)
Record AppendReq := mkReq {
  rq_actor : string; rq_action : LedgerAction; rq_target : string; rq_evidence : json_obj; rq_at : Z }.

(** [JsonlAppender.append_unlocked] of a line that ends in a newline.  The
    count [os.write] returns is ignored: [short] is [Some n] when the system
    wrote only [n] bytes of it. *)
Definition append_bytes (short : option nat) (line : bytes) : LM unit := λ s,
  let wrote := match short with Some n => take n line | None => line end in
  (s <| lg_file := Some (raw s ++ wrote) |>, Ok tt).

Definition draft_of (rq : AppendReq) (seq : Z) (prev_hash : string) : LedgerEntry :=
  mkEntry seq prev_hash "pending" (rq_actor rq) (rq_action rq) (rq_target rq) (rq_evidence rq) (rq_at rq).
Definition entry_of (hook : option (LedgerEntry → LedgerEntry)) (rq : AppendReq) (seq : Z) (prev_hash : string)
    : LedgerEntry :=
  let draft := draft_of rq seq prev_hash in
  let draft := match hook with Some h => h draft | None => draft end in
  draft <| le_entry_hash := compute_entry_hash draft |>.
Definition line_of (e : LedgerEntry) : bytes := model_dump_json e ++ [NL].

Definition _append_locked (hook : option (LedgerEntry → LedgerEntry)) (durability : string) (short : option nat)
    (rq : AppendReq) : LM LedgerEntry :=
  t ← _tip_for_append;
  let '(seq, prev_hash) := (t : Z * string) in
  let e := entry_of hook rq seq prev_hash in
  _ ← append_bytes short (line_of e);
  _ ← (λ s, (s <| lg_tip := Some (seq + 1, le_entry_hash e) |>, Ok tt));
  _ ← write_sidecar (seq + 1) (le_entry_hash e) durability;
  mret e.

(** [lease] is the lease database, [None] when its file does not exist. *)
Definition append (lease : option (option (gmap (string * string) LeaseRow))) (tenant : string) (tok : option Z)
    (hook : option (LedgerEntry → LedgerEntry)) (durability : string) (short : option nat) (rq : AppendReq)
    : LM LedgerEntry :=
  _ ← lift (require_lease_token lease lease (tenant, rq_target rq) tok m_allow);
  _append_locked hook durability short rq.

Definition tip_hash : LM string := λ s,
  (s, t ← read_tail (lg_file s); Ok (match t.1 with None => GENESIS_HASH | Some e => le_entry_hash e end)).

Definition entries : LM (list LedgerEntry) := λ s,
  (s, t ← read_tail (lg_file s);
      if (t.2 <? size s)%nat then Err LedgerVerificationError else _entries_from_bytes (raw s)).

Definition suffix_verify (side : TipSidecar) (complete_len : nat) (durability : string) : LM VerifyReport := λ s,
  match (es ← _entries_from_bytes (slice (Z.to_nat (ts_prefix_bytes side)) complete_len (raw s));
         _ ← _verify_chain es (ts_entries side) (ts_tip_hash side);
         Ok es) with
  | Err e => (s, Err e)
  | Ok es =>
      let tip := tip_of (ts_tip_hash side) es in
      let total := ts_entries side + Z.of_nat (length es) in
      let s := s <| lg_tip := Some (total, tip) |> in
      let s := match es with [] => s | _ => (write_sidecar total tip durability s).1 end in
      (s, Ok (mkVerify true total false (Z.of_nat (length es)) tip))
  end.

Definition full_verify (key : option bytes) (check_sig : bool) (complete_len : nat) (durability : string)
    : LM VerifyReport := λ s,
  match (es ← _entries_from_bytes (take complete_len (raw s));
         _ ← _verify_chain es 0 GENESIS_HASH;
         _ ← (if check_sig then _check_signatures key false es else Ok tt);
         Ok es) with
  | Err e => (s, Err e)
  | Ok es =>
      let n := Z.of_nat (length es) in
      let tip := tip_of GENESIS_HASH es in
      let s := s <| lg_tip := Some (n, tip) |> in
      ((write_sidecar n tip durability s).1, Ok (mkVerify true n true n tip))
  end.

Definition _verify_unlocked (key : option bytes) (full check_sig : bool) (durability : string) : LM VerifyReport := λ s,
  match read_tail (lg_file s) with
  | Err LedgerUnavailable => (s, Err LedgerVerificationError)
  | Err e => (s, Err e)
  | Ok (_, complete_len) =>
      if (complete_len <? size s)%nat then (s, Err LedgerVerificationError)
      else match (if full then None else lg_side s) with
           | Some side =>
               if sidecar_matches s side && (ts_prefix_bytes side <=? Z.of_nat complete_len)
               then suffix_verify side complete_len durability s
               else full_verify key check_sig complete_len durability s
           | None => full_verify key check_sig complete_len durability s
           end
  end.
Definition verify (key : option bytes) (full check_sig : bool) (durability : string) : LM VerifyReport :=
  _verify_unlocked key (full || check_sig) check_sig durability.

(** ** ledger/repair.py *)

Definition repair_locked (hook : option (LedgerEntry → LedgerEntry)) (key : option bytes) (durability : string)
    (short : option nat) (actor target : string) (now : Z) (dry_run : bool) : LM RepairReport := λ s,
  match read_tail (lg_file s) with
  | Err e => (s, Err e)
  | Ok (_, complete_len) =>
      if (complete_len <? size s)%nat then
        let prefix := take complete_len (raw s) in
        match (es ← _entries_from_bytes prefix; _ ← _verify_chain es 0 GENESIS_HASH; Ok es) with
        | Err _ => (s, Err LedgerUnavailable)
        | Ok es =>
            let dropped := Z.of_nat (size s - complete_len) in
            let n := Z.of_nat (length es) in
            let sha := sha256_hex prefix in
            if dry_run then (s, Ok (mkRepair "dry_run" dropped n sha))
            else
              let s := s <| lg_quarantine := drop complete_len (raw s) :: lg_quarantine s |>
                         <| lg_file := Some prefix |> <| lg_tip := Some (n, tip_of GENESIS_HASH es) |> in
              match _append_locked hook durability short
                      (mkReq actor la_ledger_repaired target
                         [("dropped_bytes", JInt dropped); ("prefix_sha256", JStr sha);
                          ("prefix_entries", JInt n); ("reason", JStr "torn_tail")] now) s with
              | (s, Ok _) => (s, Ok (mkRepair "repaired" dropped n sha))
              | (s, Err e) => (s, Err e)
              end
        end
      else match _verify_unlocked key true false durability s with
           | (s, Ok _) => (s, Ok (mkRepair "already_clean" 0 0 ""))
           | (s, Err _) => (s, Err LedgerUnavailable)
           end
  end.

End Ledger.

(** ** What the theorems use of the libraries *)

(** A JSON value that survives a dump and a parse: finite floats, distinct keys. *)
Fixpoint storable (j : json) : bool :=
  match j with
  | JFloat f => match f with S754_nan | S754_infinity _ => false | _ => true end
  | JArr l => (fix arr l := match l with [] => true | x :: l' => storable x && arr l' end) l
  | JObj o => bool_decide (NoDup (map fst o)) &&
      (fix obj o := match o with [] => true | (_, x) :: o' => storable x && obj o' end) o
  | _ => true
  end.
Definition plain (d : bytes) : Prop := Forall (λ c, c ≠ NL ∧ c ≠ CR) d.

Class CodecLaws `{CD : LedgerCodec} : Prop := {
  validate_dump e : 0 ≤ le_seq e → storable (JObj (le_evidence e)) = true →
    model_validate_json (model_dump_json e) = Some e;
  dump_plain e : plain (model_dump_json e);
  dump_visible e : blank (model_dump_json e) = false;
  dumps_link b b' : json_dumps b = json_dumps b' → eb_seq b = eb_seq b' ∧ eb_prev_hash b = eb_prev_hash b' }.

(** ** Bytes *)

Definition no_nl (d : bytes) : Prop := Forall (λ c, c ≠ NL) d.

Lemma plain_no_nl d : plain d → no_nl d.
Proof. intros H. by eapply Forall_impl; [exact H|intros c [? _]]. Qed.

Lemma rfind_no_nl d : no_nl d → rfind_nl d = None.
Proof.
  induction 1 as [|c d Hc _ IH]; cbn [rfind_nl]; [done|]. rewrite IH.
  destruct (Ascii.eqb_spec NL c) as [E|_]; [by destruct Hc|done].
Qed.

Lemma rfind_last x y : no_nl y → rfind_nl (x ++ NL :: y) = Some (length x).
Proof.
  intros Hy. induction x as [|c x IH]; cbn [app rfind_nl length].
  - rewrite rfind_no_nl by done. by rewrite Ascii.eqb_refl.
  - by rewrite IH.
Qed.

Lemma count_nl_app x y : count_nl (x ++ y) = (count_nl x + count_nl y)%nat.
Proof. unfold count_nl. by rewrite List.filter_app, length_app. Qed.

Lemma count_no_nl d : no_nl d → count_nl d = 0%nat.
Proof.
  unfold count_nl. induction 1 as [|c d Hc _ IH]; [done|].
  cbn [List.filter]. destruct (Ascii.eqb_spec NL c) as [E|_]; [by destruct Hc|done].
Qed.

Lemma count_nl_drop k d : (count_nl (drop k d) ≤ count_nl d)%nat.
Proof. rewrite <- (take_drop k d) at 2. rewrite count_nl_app. lia. Qed.

Lemma slice_mid (x y z : bytes) : slice (length x) (length x + length y) (x ++ y ++ z) = y.
Proof.
  unfold slice. rewrite app_assoc, take_app_le by (rewrite length_app; lia).
  rewrite take_ge by (rewrite length_app; lia). by rewrite drop_app_length.
Qed.

(** The window loop stops at a suffix that is the whole file or holds two newlines. *)
Lemma tail_window_suffix fuel d k w :
  (k ≤ length d)%nat → (k < fuel)%nat → 0 < w →
  ∃ k', tail_window fuel d (drop k d) (Z.of_nat k) w = drop k' d ∧
    (k' = 0%nat ∨ (2 ≤ count_nl (drop k' d))%nat) ∧ (k' ≤ length d)%nat.
Proof.
  revert k w. induction fuel as [|fuel IH]; intros k w Hk Hf Hw; [lia|]. cbn [tail_window].
  set (k1 := Z.to_nat (Z.max 0 (Z.of_nat k - w))).
  assert (slice k1 k d ++ drop k d = drop k1 d) as E.
  { unfold slice. rewrite <- (take_drop k d) at 3. rewrite drop_app_le; [done|].
    rewrite length_take_le by done. lia. }
  rewrite Nat2Z.id. fold k1. rewrite E. destruct (2 <=? count_nl (drop k1 d))%nat eqn:C.
  - exists k1. apply Nat.leb_le in C. split_and!; [done|by right|lia].
  - simpl. destruct (Z.max 0 (Z.of_nat k - w) =? 0) eqn:Z0.
    + exists k1. split_and!; [done| |lia]. left. lia.
    + replace (Z.max 0 (Z.of_nat k - w)) with (Z.of_nat k1) by lia. apply IH; lia.
Qed.

Lemma tail_data d w :
  0 < w → ∃ k, tail_window (S (length d)) d [] (Z.of_nat (length d)) w = drop k d ∧
    (k = 0%nat ∨ (2 ≤ count_nl (drop k d))%nat) ∧ (k ≤ length d)%nat.
Proof.
  intros Hw. pose proof (tail_window_suffix (S (length d)) d (length d) w) as H.
  rewrite drop_all in H. apply H; lia.
Qed.

(** ** Reading a ledger of whole lines and a torn tail *)

Section Layout.
Context `{CL : CodecLaws}.

Definition render (es : list LedgerEntry) : bytes := concat (map line_of es).

Lemma render_app es es' : render (es ++ es') = render es ++ render es'.
Proof. unfold render. by rewrite map_app, concat_app. Qed.
Lemma render_snoc es e : render (es ++ [e]) = render es ++ line_of e.
Proof. rewrite render_app. unfold render at 2. simpl. by rewrite app_nil_r. Qed.

(** A rendering is empty or ends in a newline. *)
Lemma render_ends es : render es = [] ∨ ∃ x, render es = x ++ [NL].
Proof.
  destruct es as [|e es _] using rev_ind; [by left|]. right. rewrite render_snoc. unfold line_of.
  exists (render es ++ model_dump_json e). by rewrite app_assoc.
Qed.

Lemma dump_no_nl e : no_nl (model_dump_json e).
Proof. apply plain_no_nl, dump_plain. Qed.

Lemma count_nl_line e torn : no_nl torn → count_nl (model_dump_json e ++ NL :: torn) = 1%nat.
Proof.
  intros Ht. rewrite count_nl_app, (count_no_nl (model_dump_json e)) by apply dump_no_nl.
  change (NL :: torn) with ([NL] ++ torn). by rewrite count_nl_app, (count_no_nl torn).
Qed.

(** The entry a tail ending in [dump e, newline, torn] is read as. *)
Lemma tail_line u e torn :
  (u = [] ∨ ∃ x, u = x ++ [NL]) → no_nl torn →
  let data := u ++ model_dump_json e ++ NL :: torn in
  let last_nl := (length u + length (model_dump_json e))%nat in
  rfind_nl data = Some last_nl ∧
  match rfind_nl (take last_nl data) with
  | None => take last_nl data
  | Some p => slice (S p) last_nl data
  end = model_dump_json e.
Proof.
  intros Hu Ht data last_nl.
  assert (data = (u ++ model_dump_json e) ++ NL :: torn) as D by (unfold data; by rewrite app_assoc).
  assert (length (u ++ model_dump_json e) = last_nl) as L by (by rewrite length_app).
  split; [rewrite D, <- L; by apply rfind_last|].
  assert (take last_nl data = u ++ model_dump_json e) as ->.
  { rewrite D, take_app_le by lia. apply take_ge. lia. }
  destruct Hu as [->|[x ->]].
  - simpl. by rewrite rfind_no_nl by apply dump_no_nl.
  - rewrite <- app_assoc. simpl. rewrite rfind_last by apply dump_no_nl.
    unfold data, last_nl. replace (S (length x)) with (length (x ++ [NL])) by (rewrite length_app; simpl; lia).
    apply slice_mid.
Qed.

Lemma read_tail_layout w es e torn :
  0 < w → no_nl torn → 0 ≤ le_seq e → storable (JObj (le_evidence e)) = true →
  read_tail_with w (Some (render (es ++ [e]) ++ torn)) = Ok (Some e, length (render (es ++ [e]))).
Proof.
  intros Hw Ht Hs He. rewrite render_snoc. unfold line_of.
  set (d := (render es ++ model_dump_json e ++ [NL]) ++ torn).
  assert (d = render es ++ model_dump_json e ++ NL :: torn) as D.
  { unfold d. by rewrite <- !app_assoc. }
  destruct (tail_data d w Hw) as (k & Hk & Hnl & Hkl). unfold read_tail_with.
  destruct d as [|c0 d0] eqn:D0; [by destruct (render es), (model_dump_json e)|].
  rewrite <- D0 in *. rewrite Hk.
  assert (∃ u, drop k d = u ++ model_dump_json e ++ NL :: torn ∧ k = (length (render es) - length u)%nat ∧
    (length u ≤ length (render es))%nat ∧ (u = [] ∨ ∃ x, u = x ++ [NL])) as (u & Hu & Ek & Lu & U).
  { destruct Hnl as [->|H2].
    - exists (render es). rewrite drop_0. split_and!; [done|lia|lia|apply render_ends].
    - destruct (decide (k < length (render es))%nat) as [Hlt|Hge].
      + exists (drop k (render es)). rewrite D, drop_app_le by lia. rewrite length_drop.
        split_and!; [done|lia|lia|]. destruct (render_ends es) as [->|[x Ex]]; [left; by destruct k|].
        right. exists (drop k x). rewrite Ex, drop_app_le; [done|]. rewrite Ex, length_app in Hlt. simpl in Hlt. lia.
      + exfalso. rewrite D, drop_app_ge in H2 by lia.
        pose proof (count_nl_drop (k - length (render es)) (model_dump_json e ++ NL :: torn)) as C.
        rewrite count_nl_line in C by done. lia. }
  rewrite Hu. destruct (tail_line u e torn U Ht) as [R1 R2]. rewrite R1, R2.
  rewrite dump_visible. simpl. rewrite dump_visible, validate_dump by done. do 2 f_equal.
  rewrite !length_app. rewrite D, !length_app. simpl. lia.
Qed.

Lemma read_tail_torn w torn : 0 < w → no_nl torn → read_tail_with w (Some torn) = Ok (None, 0%nat).
Proof.
  intros Hw Ht. unfold read_tail_with. destruct torn as [|c t] eqn:E; [done|]. rewrite <- E in *.
  destruct (tail_data torn w Hw) as (k & -> & _ & _).
  rewrite rfind_no_nl; [done|]. by apply Forall_drop.
Qed.

(** Lines split the same way after a whole line as in two steps. *)
Lemma lines_from_app acc x y : lines_from acc ((x ++ [NL]) ++ y) = lines_from acc (x ++ [NL]) ++ lines_from [] y.
Proof.
  remember (length x) as n eqn:Hn. revert acc x Hn.
  induction (lt_wf n) as [n _ IH]; intros acc x ->.
  destruct x as [|c x]; [by cbn|]. cbn [app lines_from length] in *.
  destruct (Ascii.eqb NL c); [cbn; f_equal; eapply IH; [|reflexivity]; simpl; lia|].
  destruct (Ascii.eqb CR c); [|eapply IH; [|reflexivity]; simpl; lia].
  cbn [app]. f_equal. destruct x as [|c' x]; [by cbn|]. cbn [app].
  destruct (Ascii.eqb NL c'); [eapply IH; [|reflexivity]; simpl; lia|].
  exact (IH (length (c' :: x)) ltac:(simpl; lia) [] (c' :: x) eq_refl).
Qed.

Lemma splitlines_app x y : (x = [] ∨ ∃ x', x = x' ++ [NL]) → splitlines (x ++ y) = splitlines x ++ splitlines y.
Proof. intros [->|[x' ->]]; [done|]. apply lines_from_app. Qed.

Lemma lines_from_plain acc x : plain x → lines_from acc (x ++ [NL]) = [rev acc ++ x].
Proof.
  intros H. revert acc. induction H as [|c x [H1 H2] _ IH]; intros acc; cbn [app lines_from].
  - by rewrite Ascii.eqb_refl, app_nil_r.
  - destruct (Ascii.eqb_spec NL c) as [E|_]; [by destruct H1|].
    destruct (Ascii.eqb_spec CR c) as [E|_]; [by destruct H2|].
    rewrite IH. simpl. by rewrite <- app_assoc.
Qed.

Lemma splitlines_render es : splitlines (render es) = map model_dump_json es.
Proof.
  induction es as [|e es IH]; [done|]. unfold render. simpl. fold (render es).
  rewrite splitlines_app by (right; by eexists). rewrite IH. unfold splitlines, line_of.
  by rewrite lines_from_plain by apply dump_plain.
Qed.

Lemma entries_of_lines_app l l' :
  entries_of_lines (l ++ l') = (es ← entries_of_lines l; es' ← entries_of_lines l'; Ok (es ++ es')).
Proof.
  induction l as [|x l IH]; simpl.
  - by destruct (entries_of_lines l').
  - destruct (blank x); [done|]. destruct (model_validate_json x); [|done]. rewrite IH.
    destruct (entries_of_lines l); simpl; [|done]. by destruct (entries_of_lines l').
Qed.

Lemma entries_app x y : (x = [] ∨ ∃ x', x = x' ++ [NL]) →
  _entries_from_bytes (x ++ y) = (es ← _entries_from_bytes x; es' ← _entries_from_bytes y; Ok (es ++ es')).
Proof. intros H. unfold _entries_from_bytes. by rewrite splitlines_app, entries_of_lines_app. Qed.

(** An entry the ledger can write and read back. *)
Definition writable (e : LedgerEntry) : Prop := 0 ≤ le_seq e ∧ storable (JObj (le_evidence e)) = true.

Lemma entries_render es : Forall writable es → _entries_from_bytes (render es) = Ok es.
Proof.
  intros H. unfold _entries_from_bytes. rewrite splitlines_render.
  induction H as [|e es [H1 H2] _ IH]; simpl; [done|].
  by rewrite dump_visible, validate_dump, IH.
Qed.

(** ** The chain *)

Lemma verify_chain_app es es' k h :
  _verify_chain (es ++ es') k h =
  (_ ← _verify_chain es k h; _verify_chain es' (k + Z.of_nat (length es)) (tip_of h es)).
Proof.
  revert k h. induction es as [|e es IH]; intros k h.
  - simpl. by rewrite Z.add_0_r.
  - cbn [_verify_chain app]. rewrite IH.
    assert (tip_of (le_entry_hash e) es = tip_of h (e :: es)) as ->.
    { unfold tip_of. rewrite last_cons. by destruct (last es). }
    replace (k + 1 + Z.of_nat (length es)) with (k + Z.of_nat (length (e :: es))) by (simpl; lia).
    do 4 (rewrite result_assoc; apply result_bind_ext; intros _). done.
Qed.

Lemma tip_of_snoc h es e : tip_of h (es ++ [e]) = le_entry_hash e.
Proof. unfold tip_of. by rewrite last_snoc. Qed.

(** The chain of a verified prefix: positions and links. *)
Lemma verify_chain_cons e es k h u :
  _verify_chain (e :: es) k h = Ok u ↔
  le_seq e = k ∧ le_prev_hash e = h ∧ compute_entry_hash e = le_entry_hash e ∧
  (le_action e = la_close_receipt → store_receipt_ok (obj_drop SIG_FIELD (le_evidence e)) = true) ∧
  _verify_chain es (k + 1) (le_entry_hash e) = Ok u.
Proof.
  cbn [_verify_chain]. change (compute_entry_hash (e <| le_entry_hash := "pending" |>)) with (compute_entry_hash e).
  unfold _validate_close_receipt_evidence. split.
  - intros H. inv_ok. rewrite Z.eqb_eq, !String.eqb_eq in *. split_and!; try done.
    intros E. rewrite bool_decide_true in * by done. inv_ok. done.
  - intros (-> & -> & -> & Hc & Hr). rewrite Z.eqb_refl, !String.eqb_refl. cbn.
    destruct (bool_decide_reflect (le_action e = la_close_receipt)) as [E|E]; [rewrite Hc by done|]; done.
Qed.

Lemma chain_seq es k h u i e : _verify_chain es k h = Ok u → es !! i = Some e → le_seq e = k + Z.of_nat i.
Proof.
  revert k h i. induction es as [|e' es IH]; intros k h [|i] H; try discriminate.
  - intros [= <-]. apply verify_chain_cons in H as [-> _]. lia.
  - intros Hi. apply verify_chain_cons in H as (_ & _ & _ & _ & H). rewrite (IH _ _ i H Hi). lia.
Qed.

(** ** Requests the ledger can keep *)

Lemma storable_obj o : storable (JObj o) = bool_decide (NoDup (map fst o)) && forallb (λ kv, storable kv.2) o.
Proof. simpl. f_equal. induction o as [|[k v] o IH]; simpl; [done|]. by rewrite IH. Qed.

Lemma obj_drop_drop k o : obj_drop k (obj_drop k o) = obj_drop k o.
Proof.
  unfold obj_drop. induction o as [|[k' v] o IH]; simpl; [done|].
  destruct (String.eqb k' k) eqn:E; simpl; [done|]. by rewrite E, IH.
Qed.

Lemma obj_set_dropped k v o : obj_set k v (obj_drop k o) = obj_drop k o ++ [(k, v)].
Proof.
  unfold obj_drop. induction o as [|[k' w] o IH]; simpl; [done|].
  destruct (String.eqb k' k) eqn:E; simpl; [done|]. by rewrite E, IH.
Qed.

Lemma obj_drop_set k v o : obj_drop k (obj_set k v (obj_drop k o)) = obj_drop k o.
Proof.
  rewrite obj_set_dropped. unfold obj_drop at 1. rewrite List.filter_app. simpl.
  rewrite String.eqb_refl. simpl. rewrite app_nil_r. apply obj_drop_drop.
Qed.

Lemma obj_get_set k v o : obj_get k (obj_set k v o) = Some v.
Proof.
  induction o as [|[k' w] o IH]; simpl; [by rewrite String.eqb_refl|].
  destruct (String.eqb k' k) eqn:E; simpl; by rewrite E.
Qed.

Lemma storable_stamped k v o :
  storable v = true → storable (JObj o) = true → storable (JObj (obj_set k v (obj_drop k o))) = true.
Proof.
  rewrite !storable_obj, !andb_true_iff, !bool_decide_eq_true, !forallb_forall. intros Hv [Hn Ho].
  rewrite obj_set_dropped, map_app. simpl. split.
  - apply NoDup_app. split_and!.
    + clear Hv Ho. unfold obj_drop. induction o as [|[k' w] o IH]; simpl; [constructor|].
      apply NoDup_cons in Hn as [Hk Hn]. destruct (String.eqb k' k); simpl; [by apply IH|].
      constructor; [|by apply IH]. intros Hin. apply Hk. apply list_elem_of_fmap in Hin as (x & -> & Hx).
      apply list_elem_of_fmap. exists x. split; [done|]. apply list_elem_of_In in Hx. apply list_elem_of_In.
      by apply List.filter_In in Hx as [? _].
    + intros x Hx Hk. apply list_elem_of_singleton in Hk as ->. apply list_elem_of_fmap in Hx as ([k' w] & E & Hx).
      simpl in E. subst k'. apply list_elem_of_In, List.filter_In in Hx as [_ Hx]. simpl in Hx.
      by rewrite String.eqb_refl in Hx.
    + apply NoDup_singleton.
  - intros x Hx. apply in_app_iff in Hx as [Hx|[<-|[]]]; [|done]. apply List.filter_In in Hx as [Hx _]. by apply Ho.
Qed.

#[local] Arguments obj_drop : simpl never.
#[local] Arguments obj_set : simpl never.
#[local] Arguments storable : simpl never.

(** [hmac_hook_from_settings]: no hook without a key. *)
Definition settings_hook (key : option bytes) : option (LedgerEntry → LedgerEntry) := hmac_before_append <$> key.

Definition request_ok (rq : AppendReq) : Prop :=
  storable (JObj (rq_evidence rq)) = true ∧
  (rq_action rq = la_close_receipt → store_receipt_ok (obj_drop SIG_FIELD (rq_evidence rq)) = true).

Lemma entry_of_ok key rq k h :
  request_ok rq → 0 ≤ k →
  let e := entry_of (settings_hook key) rq k h in
  writable e ∧ _verify_chain [e] k h = Ok tt.
Proof.
  intros [Hs Hc] Hk e. rewrite verify_chain_cons. unfold e, entry_of, writable. destruct key as [key|]; cbn.
  - split_and!; try done.
    + by apply storable_stamped.
    + intros E. rewrite obj_drop_set. auto.
  - split_and!; done.
Qed.

(** ** What the ledger is: a list of entries, and perhaps a torn tail *)

(** A sidecar that vouches for the prefix [P] holding the entries [es]. *)
Definition vouches (t : TipSidecar) (P : bytes) (es : list LedgerEntry) : Prop :=
  ts_prefix_bytes t = Z.of_nat (length P) ∧ ts_prefix_sha256 t = sha256_hex P ∧
  (P = [] ∨ ∃ x, P = x ++ [NL]) ∧ _entries_from_bytes P = Ok es ∧
  _verify_chain es 0 GENESIS_HASH = Ok tt ∧ ts_entries t = Z.of_nat (length es) ∧
  ts_tip_hash t = tip_of GENESIS_HASH es.

Definition ledger_is (s : LedgerState) (es : list LedgerEntry) (torn : bytes) : Prop :=
  raw s = render es ++ torn ∧ no_nl torn ∧ Forall writable es ∧ _verify_chain es 0 GENESIS_HASH = Ok tt ∧
  ∀ t, lg_side s = Some t → ∃ es0, es0 `prefix_of` es ∧ vouches t (render es0) es0.

Lemma writable_vouched es :
  Forall writable es → _verify_chain es 0 GENESIS_HASH = Ok tt →
  ∀ dur, vouches (mkTip (Z.of_nat (length es)) (Z.of_nat (length es)) (tip_of GENESIS_HASH es)
            (Z.of_nat (length (render es))) (sha256_hex (render es)) dur) (render es) es.
Proof. intros Hw Hc dur. split_and!; try done; [apply render_ends|by apply entries_render]. Qed.

Lemma read_tail_is s es torn :
  ledger_is s es torn → read_tail (lg_file s) = Ok (last es, length (render es)).
Proof.
  intros (Hr & Ht & Hw & Hc & _). unfold raw in Hr. destruct (lg_file s) as [d|].
  - simpl in Hr. subst d. destruct es as [|e es _] using rev_ind; [by apply read_tail_torn|].
    rewrite last_snoc. apply Forall_app in Hw as [_ [[? ?] _]%Forall_cons]. by apply read_tail_layout.
  - simpl in Hr. symmetry in Hr. apply app_nil in Hr as [Hr ->].
    destruct es as [|e es _] using rev_ind; [done|].
    rewrite render_snoc in Hr. unfold line_of in Hr. by destruct (render es), (model_dump_json e).
Qed.

Lemma size_is s es torn : ledger_is s es torn → size s = (length (render es) + length torn)%nat.
Proof. intros (Hr & _). unfold size. by rewrite Hr, length_app. Qed.

(** Only the cached tip changed. *)
Lemma ledger_is_tip s es torn t : ledger_is s es torn → ledger_is (s <| lg_tip := t |>) es torn.
Proof. done. Qed.

Lemma chain_tip es :
  _verify_chain es 0 GENESIS_HASH = Ok tt →
  match last es with None => (0, GENESIS_HASH) | Some e => (le_seq e + 1, le_entry_hash e) end
  = (Z.of_nat (length es), tip_of GENESIS_HASH es).
Proof.
  intros H. destruct es as [|e es _] using rev_ind; [done|]. rewrite tip_of_snoc, last_snoc.
  rewrite (chain_seq _ _ _ _ (length es) e H) by (by apply list_lookup_middle). rewrite length_app. simpl. f_equal. lia.
Qed.

Lemma tip_for_append_is s es torn :
  ledger_is s es torn →
  let t := (Z.of_nat (length es), tip_of GENESIS_HASH es) in
  _tip_for_append s = if bool_decide (torn = []) then (s <| lg_tip := Some t |>, Ok t) else (s, Err LedgerUnavailable).
Proof.
  intros H t. unfold _tip_for_append. rewrite (read_tail_is _ _ _ H), (size_is _ _ _ H).
  destruct H as (Hr & Ht & Hw & Hc & _). rewrite (chain_tip _ Hc). fold t.
  destruct torn as [|c torn].
  - rewrite bool_decide_true by done. rewrite Nat.add_0_r, Nat.ltb_irrefl. unfold _scan_tip.
    rewrite Hr, app_nil_r, take_ge, entries_render by done. by destruct (match lg_tip s with Some _ => _ | None => _ end).
  - rewrite bool_decide_false by done. by rewrite (proj2 (Nat.ltb_lt _ _)) by (simpl; lia).
Qed.

Lemma append_locked_is key dur rq s es torn :
  ledger_is s es torn → request_ok rq →
  let e := entry_of (settings_hook key) rq (Z.of_nat (length es)) (tip_of GENESIS_HASH es) in
  ∃ s', _append_locked (settings_hook key) dur None rq s =
          (s', if bool_decide (torn = []) then Ok e else Err LedgerUnavailable) ∧
    if bool_decide (torn = []) then ledger_is s' (es ++ [e]) [] ∧ lg_quarantine s' = lg_quarantine s else s' = s.
Proof.
  intros H Hrq e. unfold _append_locked, mbind at 1, M_bind. rewrite (tip_for_append_is _ _ _ H).
  destruct (bool_decide_reflect (torn = [])) as [->|Ht]; [|by eexists].
  eexists. split; [reflexivity|]. destruct H as (Hr & _ & Hw & Hc & _). fold e.
  destruct (entry_of_ok key rq (Z.of_nat (length es)) (tip_of GENESIS_HASH es) Hrq ltac:(lia)) as [He1 He2].
  fold e in He1, He2. split; [|done]. rewrite app_nil_r in Hr.
  assert (_verify_chain (es ++ [e]) 0 GENESIS_HASH = Ok tt) as Hc' by (rewrite verify_chain_app, Hc; exact He2).
  assert (Forall writable (es ++ [e])) as Hw' by (apply Forall_app; split; [done|by constructor]).
  unfold ledger_is. split_and!; try done.
  - unfold raw; simpl. rewrite app_nil_r, render_snoc. f_equal. exact Hr.
  - constructor.
  - intros t [= <-]. exists (es ++ [e]). split; [done|].
    pose proof (writable_vouched _ Hw' Hc' dur) as V. rewrite length_app, tip_of_snoc in V. simpl in V.
    unfold size, raw; simpl. fold (raw s). rewrite Hr. rewrite render_snoc in V |- *.
    by replace (Z.of_nat (length es) + 1) with (Z.of_nat (length es + 1)) by lia.
Qed.

Lemma ledger_is_same s s' es torn :
  ledger_is s es torn → lg_file s' = lg_file s → lg_side s' = lg_side s → ledger_is s' es torn.
Proof. unfold ledger_is, raw. by intros H -> ->. Qed.

(** Rewriting the sidecar over the whole of an intact file. *)
Lemma ledger_is_vouched s s' es dur :
  ledger_is s es [] → lg_file s' = lg_file s →
  ledger_is (write_sidecar (Z.of_nat (length es)) (tip_of GENESIS_HASH es) dur s').1 es [].
Proof.
  intros (Hr & Ht & Hw & Hc & _) Hf. assert (raw s' = render es) as Hr'.
  { unfold raw in *. by rewrite Hf, Hr, app_nil_r. }
  unfold ledger_is. split_and!; try done.
  - unfold write_sidecar, raw. simpl. fold (raw s'). by rewrite Hr', app_nil_r.
  - intros t [= <-]. exists es. split; [done|]. unfold size. rewrite Hr'. by apply writable_vouched.
Qed.

(** The report is about all the entries. *)
Definition reports (es : list LedgerEntry) (r : result VerifyReport) : Prop :=
  ∃ v, r = Ok v ∧ vr_entries v = Z.of_nat (length es) ∧ vr_tip_hash v = tip_of GENESIS_HASH es.

(** What every verification of an intact ledger leaves and says. *)
Definition verified_as (s : LedgerState) (es : list LedgerEntry) (sig : bool)
    (out : LedgerState * result VerifyReport) : Prop :=
  ledger_is out.1 es [] ∧ lg_file out.1 = lg_file s ∧ lg_quarantine out.1 = lg_quarantine s ∧
  (sig = false → reports es out.2).

Lemma full_verify_is key sig dur s es :
  ledger_is s es [] → verified_as s es sig (full_verify key sig (length (render es)) dur s).
Proof.
  intros H. pose proof H as (Hr & _ & Hw & Hc & _). rewrite app_nil_r in Hr.
  unfold full_verify. rewrite Hr, take_ge, entries_render by done. simpl. rewrite Hc. simpl.
  assert (verified_as s es sig
     ((write_sidecar (Z.of_nat (length es)) (tip_of GENESIS_HASH es) dur
         (s <| lg_tip := Some (Z.of_nat (length es), tip_of GENESIS_HASH es) |>)).1,
      Ok (mkVerify true (Z.of_nat (length es)) true (Z.of_nat (length es)) (tip_of GENESIS_HASH es)))) as HV.
  { split_and!; try done; [by eapply ledger_is_vouched|]. by eexists. }
  destruct sig; [|exact HV]. destruct (_check_signatures key false es) as [[]|e]; [exact HV|by split_and!].
Qed.

Lemma suffix_verify_is t dur s es es0 :
  ledger_is s es [] → es0 `prefix_of` es → vouches t (render es0) es0 → lg_side s = Some t →
  verified_as s es false (suffix_verify t (length (render es)) dur s).
Proof.
  intros H [es1 ->] (V1 & V2 & V3 & V4 & V5 & V6 & V7) Es. pose proof H as (Hr & _ & Hw & Hc & _).
  rewrite app_nil_r in Hr. unfold suffix_verify. rewrite V1, Nat2Z.id, Hr, render_app.
  assert (slice (length (render es0)) (length (render es0 ++ render es1)) (render es0 ++ render es1) = render es1) as ->.
  { unfold slice. rewrite take_ge by done. by rewrite drop_app_length. }
  apply Forall_app in Hw as [_ Hw1]. rewrite entries_render by done.
  rewrite verify_chain_app, V5 in Hc. cbn [mbind result_bind] in Hc |- *. rewrite V6, V7.
  rewrite Z.add_0_l in Hc. rewrite Hc. cbn [mbind result_bind].
  assert (tip_of (tip_of GENESIS_HASH es0) es1 = tip_of GENESIS_HASH (es0 ++ es1)) as ->.
  { unfold tip_of. rewrite last_app. by destruct (last es1). }
  rewrite <- Nat2Z.inj_add, <- length_app.
  split_and!; [|by destruct es1|by destruct es1|intros _; by eexists].
  destruct es1 as [|e1 es1]; [by eapply ledger_is_same|]. by eapply ledger_is_vouched.
Qed.

(** [verify] on such a ledger: it stays such a ledger, and unless a signature
    is refused the report is about all its entries. *)
Lemma verify_is key full sig dur s es : ledger_is s es [] → verified_as s es sig (verify key full sig dur s).
Proof.
  intros H. unfold verify, _verify_unlocked. rewrite (read_tail_is _ _ _ H), (size_is _ _ _ H), Nat.add_0_r, Nat.ltb_irrefl.
  destruct (full || sig) eqn:F; [by apply full_verify_is|].
  assert (sig = false) as -> by (by destruct full, sig).
  destruct (lg_side s) as [t|] eqn:Es; [|by apply full_verify_is].
  destruct (_ && _); [|by apply full_verify_is].
  pose proof H as (_ & _ & _ & _ & Hs). destruct (Hs t Es) as (es0 & Hp & V). by eapply suffix_verify_is.
Qed.

Lemma verify_torn key full sig dur s es torn :
  ledger_is s es torn → torn ≠ [] → verify key full sig dur s = (s, Err LedgerVerificationError).
Proof.
  intros H Ht. unfold verify, _verify_unlocked. rewrite (read_tail_is _ _ _ H), (size_is _ _ _ H).
  rewrite (proj2 (Nat.ltb_lt _ _)); [done|]. destruct torn; [done|simpl; lia].
Qed.

(** The entry a repair records. *)
Definition repair_req (actor target : string) (now : Z) (es : list LedgerEntry) (torn : bytes) : AppendReq :=
  mkReq actor la_ledger_repaired target
    [("dropped_bytes", JInt (Z.of_nat (length torn))); ("prefix_sha256", JStr (sha256_hex (render es)));
     ("prefix_entries", JInt (Z.of_nat (length es))); ("reason", JStr "torn_tail")] now.

Lemma repair_req_ok actor target now es torn : request_ok (repair_req actor target now es torn).
Proof.
  split; [|discriminate]. unfold repair_req, rq_evidence. rewrite storable_obj, bool_decide_true; [done|].
  apply NoDup_ListNoDup. cbn. repeat constructor; simpl; intuition congruence.
Qed.

Lemma repair_torn key vkey dur actor target now s es torn :
  ledger_is s es torn → torn ≠ [] →
  let e := entry_of (settings_hook key) (repair_req actor target now es torn)
             (Z.of_nat (length es)) (tip_of GENESIS_HASH es) in
  ∃ s', repair_locked (settings_hook key) vkey dur None actor target now false s =
      (s', Ok (mkRepair "repaired" (Z.of_nat (length torn)) (Z.of_nat (length es)) (sha256_hex (render es)))) ∧
    ledger_is s' (es ++ [e]) [] ∧ lg_quarantine s' = torn :: lg_quarantine s.
Proof.
  intros H Ht e. pose proof H as (Hr & Hn & Hw & Hc & Hs). unfold repair_locked.
  rewrite (read_tail_is _ _ _ H), (size_is _ _ _ H).
  rewrite (proj2 (Nat.ltb_lt _ _)) by (destruct torn; [done|simpl; lia]).
  rewrite Hr, take_app_length, entries_render, drop_app_length by done. cbn [mbind result_bind].
  rewrite Hc. cbn [mbind result_bind].
  replace (length (render es) + length torn - length (render es))%nat with (length torn) by lia.
  fold (repair_req actor target now es torn).
  set (s1 := (_ <| lg_tip := _ |>)).
  assert (ledger_is s1 es []) as H1.
  { unfold ledger_is. split_and!; try done; [by rewrite app_nil_r|constructor]. }
  destruct (append_locked_is key dur _ s1 es [] H1 (repair_req_ok actor target now es torn)) as (s' & E & Hs').
  rewrite E. exists s'. split; [done|]. by destruct Hs' as [Hs' ->].
Qed.

End Layout.

(** ** A ledger in use

    Processes append, verify, repair, hand over to another [HashChainLedger]
    with whatever tip it has cached, and die inside a write. *)

Section Use.
Context `{CL : CodecLaws} (key : option bytes).

Inductive ledger_op :=
  | OpAppend (lease : option (option (gmap (string * string) LeaseRow))) (tenant : string) (tok : option Z)
      (dur : string) (rq : AppendReq)
  | OpVerify (full sig : bool) (dur : string)
  | OpRepair (dur actor target : string) (now : Z) (dry_run : bool)
  | OpHandle (t : option (Z * string))
  | OpCrash (rq : AppendReq) (n : nat)    (* after [n] bytes of the write *).

Definition ledger_exec (op : ledger_op) (s : LedgerState) : LedgerState :=
  match op with
  | OpAppend lease tenant tok dur rq => (append lease tenant tok (settings_hook key) dur None rq s).1
  | OpVerify full sig dur => (verify key full sig dur s).1
  | OpRepair dur actor target now dry => (repair_locked (settings_hook key) key dur None actor target now dry s).1
  | OpHandle t => s <| lg_tip := t |>
  | OpCrash rq n =>
      match _tip_for_append s with
      | (s1, Ok (seq, prev)) => (append_bytes (Some n) (line_of (entry_of (settings_hook key) rq seq prev)) s1).1
      | (s1, Err _) => s1
      end
  end.
Definition ledger_run (ops : list ledger_op) (s : LedgerState) : LedgerState := foldl (λ s op, ledger_exec op s) s ops.

(** Every request recorded or attempted is one the ledger can keep. *)
Definition op_ok (op : ledger_op) : Prop :=
  match op with OpAppend _ _ _ _ rq | OpCrash rq _ => request_ok rq | _ => True end.

Definition empty_ledger : LedgerState := mkLedger None None [] None.

Lemma empty_is : ledger_is empty_ledger [] [].
Proof. unfold ledger_is. split_and!; try constructor. by intros. Qed.

Lemma take_line_torn n e : (n < length (line_of e))%nat → no_nl (take n (line_of e)).
Proof.
  unfold line_of. rewrite length_app. simpl. intros Hn. rewrite take_app_le by lia.
  apply Forall_take, dump_no_nl.
Qed.

(** [es'] is [es] and then entries some request made. *)
Definition extends (es es' : list LedgerEntry) : Prop :=
  ∃ new, es' = es ++ new ∧ Forall (λ e, ∃ rq n h, e = entry_of (settings_hook key) rq n h) new.
Lemma extends_refl es : extends es es.
Proof. exists []. by rewrite app_nil_r. Qed.
Lemma extends_entry es rq n h : extends es (es ++ [entry_of (settings_hook key) rq n h]).
Proof. eexists. split; [done|]. repeat constructor. by do 3 eexists. Qed.
Lemma extends_trans es1 es2 es3 : extends es1 es2 → extends es2 es3 → extends es1 es3.
Proof.
  intros (n1 & -> & F1) (n2 & -> & F2). exists (n1 ++ n2). rewrite app_assoc. split; [done|]. by apply Forall_app.
Qed.
#[local] Hint Resolve extends_refl extends_entry : core.

(** One operation keeps the ledger a list of entries with perhaps a torn tail,
    and only ever adds to the list. *)
Lemma exec_is op s es torn :
  ledger_is s es torn → op_ok op →
  ∃ es' torn', ledger_is (ledger_exec op s) es' torn' ∧ extends es es'.
Proof.
  intros H Hok. destruct op as [lease tenant tok dur rq|full sig dur|dur actor target now dry|t|rq n]; simpl.
  - unfold append, mbind, M_bind, lift. destruct (require_lease_token _ _ _ _ _); [|by exists es, torn].
    destruct (append_locked_is key dur rq s es torn H Hok) as (s' & -> & Hs').
    destruct (bool_decide (torn = [])); simpl.
    + destruct Hs' as [? _]. do 2 eexists. by split.
    + subst s'. by exists es, torn.
  - destruct (decide (torn = [])) as [->|Ht].
    + destruct (verify_is key full sig dur s es H) as (Hv & _). by exists es, [].
    + rewrite (verify_torn key full sig dur s es torn H Ht). by exists es, torn.
  - destruct (decide (torn = [])) as [->|Ht].
    + unfold repair_locked. rewrite (read_tail_is _ _ _ H), (size_is _ _ _ H), Nat.add_0_r, Nat.ltb_irrefl.
      pose proof (verify_is key true false dur s es H) as (Hv & _). unfold verify in Hv. simpl in Hv.
      exists es, []. split; [|done]. by destruct (_verify_unlocked key true false dur s) as [s' []].
    + destruct dry.
      * unfold repair_locked. rewrite (read_tail_is _ _ _ H), (size_is _ _ _ H).
        rewrite (proj2 (Nat.ltb_lt _ _)) by (destruct torn; [done|simpl; lia]).
        exists es, torn. split; [|done]. by destruct (_entries_from_bytes _ ≫= _).
      * destruct (repair_torn key key dur actor target now s es torn H Ht) as (s' & -> & H' & _).
        do 2 eexists. split; [exact H'|apply extends_entry].
  - exists es, torn. split; [|done]. by eapply ledger_is_same.
  - rewrite (tip_for_append_is _ _ _ H). destruct (bool_decide_reflect (torn = [])) as [->|Ht]; [|by exists es, torn].
    set (e := entry_of _ _ _ _). destruct H as (Hr & _ & Hw & Hc & Hs). rewrite app_nil_r in Hr.
    destruct (entry_of_ok key rq (Z.of_nat (length es)) (tip_of GENESIS_HASH es) Hok ltac:(lia)) as [He1 He2].
    fold e in He1, He2. destruct (decide (n < length (line_of e))%nat) as [Hn|Hn].
    + exists es, (take n (line_of e)). split; [|done]. unfold ledger_is, append_bytes, raw. simpl. fold (raw s).
      rewrite Hr. split_and!; try done. by apply take_line_torn.
    + exists (es ++ [e]), []. split; [|apply extends_entry]. unfold ledger_is, append_bytes, raw. simpl. fold (raw s).
      rewrite Hr, take_ge, render_snoc, app_nil_r by lia. split_and!; try done; [constructor| | |].
      * apply Forall_app. split; [done|by constructor].
      * rewrite verify_chain_app, Hc. exact He2.
      * intros t Ht. destruct (Hs t Ht) as (es0 & Hp & V). exists es0. split; [|done].
        etrans; [done|]. by eexists.
Qed.

Lemma run_is ops s es torn :
  ledger_is s es torn → Forall op_ok ops →
  ∃ es' torn', ledger_is (ledger_run ops s) es' torn' ∧ extends es es'.
Proof.
  intros H Hok. revert s es torn H. induction Hok as [|op ops Ho _ IH]; intros s es torn H; [by eauto|].
  destruct (exec_is op s es torn H Ho) as (es1 & t1 & H1 & P1). simpl.
  destruct (IH _ _ _ H1) as (es2 & t2 & H2 & P2). exists es2, t2. split; [done|]. by eapply extends_trans.
Qed.

End Use.

(** ** What the ledger guarantees *)

Section Claims.
Context `{CL : CodecLaws}.

Lemma extends_prefix key es es' i e : extends key es es' → es !! i = Some e → es' !! i = Some e.
Proof. intros (new & -> & _). apply lookup_app_l_Some. Qed.

Lemma entries_is s es torn :
  ledger_is s es torn → entries s = (s, if bool_decide (torn = []) then Ok es else Err LedgerVerificationError).
Proof.
  intros H. unfold entries. rewrite (read_tail_is _ _ _ H), (size_is _ _ _ H). cbn [mbind result_bind snd].
  destruct H as (Hr & _ & Hw & _). destruct torn as [|c torn].
  - rewrite Nat.add_0_r, Nat.ltb_irrefl, Hr, app_nil_r. by rewrite entries_render.
  - by rewrite (proj2 (Nat.ltb_lt _ _)) by (simpl; lia).
Qed.

(** C38: An acknowledged entry is never lost while [os.write] writes all it is
    given or the process dies in it (a short write that returns is
    acknowledged although its line is torn: [short_write_acknowledged]):
    whatever is appended, verified, repaired, handed over or killed inside a
    write before and after, the file is a chain of whole lines that holds the entry at its [seq], and perhaps a
    torn tail.  Without one, [entries] returns that chain and both kinds of
    verification pass on it; with one, reading, verifying and appending are
    refused and change nothing, and [repair] quarantines exactly the torn
    bytes and goes on after the same entries. *)
Theorem ledger_keeps_entries key ops ops' lease tenant tok dur rq s1 e :
  Forall op_ok ops → Forall op_ok ops' → request_ok rq →
  append lease tenant tok (settings_hook key) dur None rq (ledger_run key ops empty_ledger) = (s1, Ok e) →
  let s2 := ledger_run key ops' s1 in
  ∃ es torn, raw s2 = render es ++ torn ∧ es !! Z.to_nat (le_seq e) = Some e ∧
    (torn = [] → (entries s2).2 = Ok es ∧ ∀ full d, reports es (verify key full false d s2).2) ∧
    (torn ≠ [] →
      entries s2 = (s2, Err LedgerVerificationError) ∧
      (∀ full sig d, verify key full sig d s2 = (s2, Err LedgerVerificationError)) ∧
      (∀ d rq', request_ok rq' → _append_locked (settings_hook key) d None rq' s2 = (s2, Err LedgerUnavailable)) ∧
      ∀ d actor target now, ∃ s3 r e', repair_locked (settings_hook key) key d None actor target now false s2 = (s3, Ok r) ∧
        (entries s3).2 = Ok (es ++ [e']) ∧ lg_quarantine s3 = torn :: lg_quarantine s2).
Proof.
  intros Ho Ho' Hrq Ha s2. destruct (run_is key ops _ _ _ empty_is Ho) as (es0 & t0 & H0 & _).
  unfold append in Ha. apply M_bind_Ok in Ha as (u & w & Hl & Ha). apply lift_Ok in Hl as [-> _].
  destruct (append_locked_is key dur rq _ _ _ H0 Hrq) as (s' & E & Hs'). rewrite E in Ha.
  destruct (bool_decide_reflect (t0 = [])) as [->|]; [|discriminate]. injection Ha as <- <-. destruct Hs' as [H1 _].
  destruct (run_is key ops' _ _ _ H1 Ho') as (es & torn & H2 & X). fold s2 in H2.
  exists es, torn. split_and!; [by apply H2| |intros ->|intros Ht].
  - eapply extends_prefix; [exact X|]. destruct H1 as (_ & _ & _ & Hc & _).
    rewrite (chain_seq _ _ _ _ (length es0) _ Hc) by (by apply list_lookup_middle).
    rewrite Z.add_0_l, Nat2Z.id. by apply list_lookup_middle.
  - rewrite (entries_is _ _ _ H2). split; [done|]. intros full d. by apply (verify_is key full false d s2 es H2).
  - rewrite (entries_is _ _ _ H2), bool_decide_false by done.
    split_and!; [done|intros; by eapply verify_torn| |].
    + intros d rq' Hrq'. destruct (append_locked_is key d rq' _ _ _ H2 Hrq') as (s3 & E3 & H3).
      rewrite bool_decide_false in E3, H3 by done. by rewrite E3, H3.
    + intros d actor target now. destruct (repair_torn key key d actor target now _ _ _ H2 Ht) as (s3 & E3 & H3 & Q).
      do 3 eexists. split_and!; [exact E3| |exact Q]. by rewrite (entries_is _ _ _ H3).
Qed.

(** ** Tamper evidence *)

(** Two byte strings with the same SHA-256. *)
Definition collision : Prop := ∃ x y : bytes, x ≠ y ∧ sha256_hex x = sha256_hex y.
Definition same_record (e e' : LedgerEntry) : Prop :=
  _canonical_bytes e = _canonical_bytes e' ∧ le_entry_hash e = le_entry_hash e'.

Lemma last_hash es e h : _verify_chain (es ++ [e]) 0 h = Ok tt →
  _verify_chain es 0 h = Ok tt ∧ le_seq e = Z.of_nat (length es) ∧ le_prev_hash e = tip_of h es ∧
  sha256_hex (_canonical_bytes e) = le_entry_hash e.
Proof.
  rewrite verify_chain_app. intros H. apply bind_Ok_inv in H as ([] & H & He).
  apply verify_chain_cons in He as (Hs & Hp & Hh & _). by split_and!.
Qed.

Lemma chains_agree es es' :
  _verify_chain es 0 GENESIS_HASH = Ok tt → _verify_chain es' 0 GENESIS_HASH = Ok tt →
  tip_of GENESIS_HASH es = tip_of GENESIS_HASH es' →
  Forall2 same_record es es' ∨ collision ∨ ∃ x, sha256_hex x = GENESIS_HASH.
Proof.
  revert es'. induction es as [|e es IH] using rev_ind; intros es' H H' E;
    destruct es' as [|e' es' _] using rev_ind.
  - left. constructor.
  - right; right. rewrite tip_of_snoc in E. apply last_hash in H' as (_ & _ & _ & Hh).
    exists (_canonical_bytes e'). by rewrite Hh.
  - right; right. rewrite tip_of_snoc in E. apply last_hash in H as (_ & _ & _ & Hh).
    exists (_canonical_bytes e). by rewrite Hh.
  - rewrite !tip_of_snoc in E. apply last_hash in H as (H & Hs & Hp & Hh).
    apply last_hash in H' as (H' & Hs' & Hp' & Hh').
    destruct (decide (_canonical_bytes e = _canonical_bytes e')) as [C|C].
    + pose proof (dumps_link _ _ C) as [_ Hl]. cbn in Hl.
      destruct (IH es' H H') as [F|F]; [congruence|left|by right].
      apply Forall2_app; [done|]. by repeat constructor.
    + right; left. exists (_canonical_bytes e), (_canonical_bytes e'). split; [done|congruence].
Qed.

Lemma full_verify_Ok key sig n dur s s' r :
  full_verify key sig n dur s = (s', Ok r) →
  ∃ es, _entries_from_bytes (take n (raw s)) = Ok es ∧ _verify_chain es 0 GENESIS_HASH = Ok tt ∧
    vr_tip_hash r = tip_of GENESIS_HASH es ∧ vr_entries r = Z.of_nat (length es) ∧
    (sig = true → _check_signatures key false es = Ok tt).
Proof.
  unfold full_verify. destruct (_ ≫= _) as [es|] eqn:E; [|done]. intros [= <- <-]. exists es.
  apply bind_Ok_inv in E as (es' & E1 & E). apply bind_Ok_inv in E as ([] & E2 & E).
  apply bind_Ok_inv in E as ([] & E3 & [= ->]).
  split_and!; try done. intros ->. done.
Qed.

Lemma verify_full_Ok key sig dur s r :
  (verify key true sig dur s).2 = Ok r →
  ∃ es, _entries_from_bytes (raw s) = Ok es ∧ _verify_chain es 0 GENESIS_HASH = Ok tt ∧
    vr_tip_hash r = tip_of GENESIS_HASH es ∧ vr_entries r = Z.of_nat (length es) ∧
    (sig = true → _check_signatures key false es = Ok tt).
Proof.
  unfold verify, _verify_unlocked. simpl. destruct (read_tail (lg_file s)) as [[l n]|e]; [|by destruct e].
  destruct (n <? size s)%nat eqn:L; [done|]. apply Nat.ltb_ge in L.
  destruct (full_verify key sig n dur s) as [s' r'] eqn:F. simpl. intros ->.
  apply full_verify_Ok in F as (es & E & H). exists es. by rewrite take_ge in E by done.
Qed.

(** A verified tip fixes the whole history: if two ledgers, whatever their
    files hold, both pass the full verification and report the same tip, they
    record the same entries one by one, or two byte strings with one SHA-256
    (or one whose SHA-256 is the genesis constant) have been found. *)
Theorem tip_fixes_history key dur s s' r r' :
  (verify key true false dur s).2 = Ok r → (verify key true false dur s').2 = Ok r' →
  vr_tip_hash r = vr_tip_hash r' →
  (∃ es es', _entries_from_bytes (raw s) = Ok es ∧ _entries_from_bytes (raw s') = Ok es' ∧
    Forall2 same_record es es') ∨ collision ∨ ∃ x, sha256_hex x = GENESIS_HASH.
Proof.
  intros H H' E. apply verify_full_Ok in H as (es & E1 & C & T & _). apply verify_full_Ok in H' as (es' & E1' & C' & T' & _).
  destruct (chains_agree es es' C C') as [F|F]; [congruence|left|by right]. by exists es, es'.
Qed.

(** ** The suffix check *)

Definition agree (a b : result VerifyReport) : Prop :=
  match a, b with
  | Ok x, Ok y => vr_entries x = vr_entries y ∧ vr_tip_hash x = vr_tip_hash y
  | Err e, Err e' => e = e'
  | _, _ => False
  end.
Lemma agree_refl a : agree a a.
Proof. by destruct a. Qed.

Lemma suffix_full_agree key t P es0 S n dur s :
  vouches t P es0 → raw s = P ++ S → (size s ≤ n)%nat →
  agree (suffix_verify t n dur s).2 (full_verify key false n dur s).2.
Proof.
  intros (V1 & _ & V3 & V4 & V5 & V6 & V7) Hr Hn. unfold size in Hn. unfold suffix_verify, full_verify.
  rewrite V1, Nat2Z.id. unfold slice. rewrite take_ge, Hr, drop_app_length by done.
  rewrite entries_app, V4 by done. cbn [mbind result_bind].
  destruct (_entries_from_bytes S) as [es1|e]; cbn [mbind result_bind]; [|done].
  rewrite verify_chain_app, V5. cbn [mbind result_bind]. rewrite V6, V7, Z.add_0_l.
  destruct (_verify_chain es1 _ _) as [[]|e]; cbn [mbind result_bind]; [|done]. simpl. split.
  - rewrite length_app. lia.
  - unfold tip_of. rewrite last_app. by destruct (last es1).
Qed.

(** The short check says what the full one says: when the sidecar was written
    over bytes [P] that verified, [verify(full=False)] gives the answer of
    [verify(full=True)] for whatever the file holds now (same count and tip,
    or the same refusal), or two byte strings with one SHA-256 are found. *)
Theorem suffix_verify_agrees key dur s t P es0 :
  lg_side s = Some t → vouches t P es0 →
  agree (verify key false false dur s).2 (verify key true false dur s).2 ∨ collision.
Proof.
  intros Es V. unfold verify, _verify_unlocked. rewrite Es. cbn [orb].
  destruct (read_tail (lg_file s)) as [[l n]|e]; [|left; by destruct e].
  destruct (n <? size s)%nat eqn:L; [by left|]. apply Nat.ltb_ge in L.
  destruct (sidecar_matches s t && _) eqn:M; [|left; apply agree_refl].
  apply andb_true_iff in M as [M _]. unfold sidecar_matches in M.
  destruct (_ || _) eqn:B; [done|]. apply orb_false_iff in B as [_ B]. apply Z.ltb_ge in B.
  destruct (lg_file s) as [d|] eqn:Ef; [|done]. apply String.eqb_eq in M.
  pose proof V as (V1 & V2 & _). rewrite V1 in B, M. rewrite Nat2Z.id, V2 in M.
  assert (raw s = d) as Hd by (unfold raw; by rewrite Ef). rewrite <- Hd in M.
  destruct (decide (take (length P) (raw s) = P)) as [E|E]; [left|right; by do 2 eexists].
  eapply suffix_full_agree; [done| |done]. rewrite <- E at 1. symmetry. apply take_drop.
Qed.

Lemma raw_of s d : lg_file s = Some d → raw s = d.
Proof. unfold raw. by intros ->. Qed.

(** What an append leaves, from the tip it found. *)
Lemma append_locked_from hook dur short rq s s' k h :
  _tip_for_append s = (s', Ok (k, h)) →
  let e := entry_of hook rq k h in
  let d := raw s' ++ match short with Some n => take n (line_of e) | None => line_of e end in
  ∃ s1, _append_locked hook dur short rq s = (s1, Ok e) ∧ lg_file s1 = Some d ∧
    lg_side s1 = Some (mkTip (k + 1) (k + 1) (le_entry_hash e) (Z.of_nat (length d)) (sha256_hex d) dur).
Proof. intros H e d. unfold _append_locked, mbind at 1, M_bind. rewrite H. eexists. by split_and!. Qed.

(** A sidecar over the whole of a file of whole lines makes the short check pass. *)
Lemma fresh_sidecar_passes key dur s es t :
  lg_file s = Some (render es) → Forall writable es → lg_side s = Some t →
  ts_prefix_bytes t = Z.of_nat (length (render es)) → ts_prefix_sha256 t = sha256_hex (render es) →
  ∃ r, (verify key false false dur s).2 = Ok r ∧ vr_entries r = ts_entries t.
Proof.
  intros Hf Hw Hs P1 P2. assert (read_tail (lg_file s) = Ok (last es, length (render es))) as RT.
  { rewrite Hf. destruct es as [|e es _] using rev_ind; [done|]. apply Forall_app in Hw as [_ [[? ?] _]%Forall_cons].
    rewrite last_snoc, <- (app_nil_r (render (es ++ [e]))) at 1. apply read_tail_layout; try done. constructor. }
  assert (size s = length (render es)) as Z1 by (unfold size; by rewrite (raw_of _ _ Hf)).
  unfold verify, _verify_unlocked, sidecar_matches. cbn [orb]. rewrite RT, Z1, Nat.ltb_irrefl, Hs, P1, P2, Hf.
  rewrite Nat2Z.id, take_ge, String.eqb_refl by done.
  rewrite Z.ltb_irrefl, Z.leb_refl, (proj2 (Z.ltb_ge _ 0)) by lia. cbn [orb andb].
  unfold suffix_verify. rewrite P1, Nat2Z.id, (raw_of _ _ Hf). unfold slice.
  rewrite take_ge, drop_all by done. cbn. eexists. split; [done|]. simpl. lia.
Qed.

(** [append] vouches for what nobody verified: on a file whose chain is broken
    anywhere before its last line's position and hash are read, an append
    succeeds, whatever tip is cached and whatever the sidecar says, and leaves
    a sidecar over the broken file: the short check passes from then on, and
    only the full one still fails. *)
Theorem append_vouches_unverified key vkey dur rq s es e0 :
  lg_file s = Some (render (es ++ [e0])) → Forall writable (es ++ [e0]) → le_seq e0 = Z.of_nat (length es) →
  _verify_chain (es ++ [e0]) 0 GENESIS_HASH ≠ Ok tt → request_ok rq →
  ∃ s1 e, _append_locked (settings_hook key) dur None rq s = (s1, Ok e) ∧
    (∃ r, (verify vkey false false dur s1).2 = Ok r ∧ vr_entries r = Z.of_nat (length es) + 2) ∧
    ∀ r, (verify vkey true false dur s1).2 ≠ Ok r.
Proof.
  intros Hf Hw Hseq Hbad Hrq. pose proof Hw as [_ [[Hp0 Hs0] _]%Forall_cons]%Forall_app.
  pose proof (read_tail_layout tail_window_bytes es e0 [] ltac:(done) ltac:(constructor) Hp0 Hs0) as RT.
  rewrite app_nil_r in RT. fold (read_tail (Some (render (es ++ [e0])))) in RT.
  set (t := (Z.of_nat (length es) + 1, le_entry_hash e0)).
  assert (_tip_for_append s = (s <| lg_tip := Some t |>, Ok t)) as TA.
  { unfold _tip_for_append, size. rewrite (raw_of _ _ Hf), Hf, RT, Nat.ltb_irrefl, Hseq. fold t.
    unfold _scan_tip. rewrite (raw_of _ _ Hf), take_ge, entries_render by done.
    cbn [mbind result_bind]. rewrite tip_of_snoc, length_app. simpl.
    replace (Z.of_nat (length es + 1), le_entry_hash e0) with t by (unfold t; f_equal; lia).
    by destruct (match lg_tip s with Some _ => _ | None => _ end). }
  destruct (append_locked_from (settings_hook key) dur None rq _ _ _ _ TA) as (s1 & E1 & F1 & S1).
  set (e := entry_of _ _ _ _) in E1, F1, S1. exists s1, e. split; [done|].
  destruct (entry_of_ok key rq (Z.of_nat (length es) + 1) (le_entry_hash e0) Hrq ltac:(lia)) as [He _]. fold e in He.
  assert (raw (s <| lg_tip := Some t |>) ++ line_of e = render ((es ++ [e0]) ++ [e])) as D.
  { rewrite (render_snoc (es ++ [e0]) e). f_equal. by apply raw_of. }
  rewrite D in F1, S1. assert (Forall writable ((es ++ [e0]) ++ [e])) as Hw1 by (apply Forall_app; split; [done|by constructor]).
  split.
  - destruct (fresh_sidecar_passes vkey dur s1 _ _ F1 Hw1 S1 eq_refl eq_refl) as (r & -> & R).
    exists r. split; [done|]. rewrite R. simpl. lia.
  - intros r Hr. apply verify_full_Ok in Hr as (es' & E & C & _). rewrite (raw_of _ _ F1) in E.
    rewrite entries_render in E by done. injection E as <-.
    rewrite verify_chain_app in C. apply bind_Ok_inv in C as ([] & C & _). done.
Qed.

(** ** Signatures *)

(** The signed bytes ignore the signature and the entry's own hash. *)
Lemma signature_bytes_stamped e v x :
  let bare := obj_drop SIG_FIELD (le_evidence e) in
  signature_bytes (e <| le_evidence := obj_set SIG_FIELD v bare |> <| le_entry_hash := x |>) =
  signature_bytes (e <| le_evidence := bare |>).
Proof.
  unfold signature_bytes, _canonical_bytes, body_of. destruct e. cbn -[obj_drop obj_set].
  by rewrite obj_drop_set, obj_drop_drop.
Qed.

Lemma signed_entry k rq n h : signature_ok (entry_of (settings_hook (Some k)) rq n h) k = true.
Proof.
  set (d := draft_of rq n h). set (v := sign_entry (d <| le_evidence := obj_drop SIG_FIELD (le_evidence d) |>) k).
  assert (∃ x, entry_of (settings_hook (Some k)) rq n h =
    d <| le_evidence := obj_set SIG_FIELD v (obj_drop SIG_FIELD (le_evidence d)) |> <| le_entry_hash := x |>) as [x ->]
    by (by eexists).
  set (e := (d <| le_evidence := _ |> <| le_entry_hash := x |>)).
  assert (le_evidence e = obj_set SIG_FIELD v (obj_drop SIG_FIELD (le_evidence d))) as Ev by done.
  unfold signature_ok. rewrite Ev, obj_get_set. unfold e. rewrite signature_bytes_stamped.
  unfold v, sign_entry. cbn -[obj_drop obj_set signature_bytes SIG_ALG]. by rewrite !String.eqb_refl.
Qed.

Lemma check_signed k es seen :
  Forall (λ e, signature_ok e k = true) es → _check_signatures (Some k) seen es = Ok tt.
Proof.
  intros H. revert seen. induction H as [|e es He _ IH]; intros seen; [done|]. cbn [_check_signatures].
  destruct (negb seen && _); [apply IH|]. by rewrite He.
Qed.

Lemma check_seen k es : _check_signatures (Some k) true es = Ok tt → Forall (λ e, signature_ok e k = true) es.
Proof.
  induction es as [|e es IH]; cbn [_check_signatures negb andb]; [constructor|].
  destruct (signature_ok e k) eqn:E; [|done]. intros H. constructor; [done|by apply IH].
Qed.

Lemma check_after_cutover k es i a j b :
  _check_signatures (Some k) false es = Ok tt → es !! i = Some a → obj_get SIG_FIELD (le_evidence a) ≠ None →
  (i ≤ j)%nat → es !! j = Some b → signature_ok b k = true.
Proof.
  revert i j. induction es as [|e es IH]; intros i j H Ha Hs Hij Hb; [done|].
  cbn [_check_signatures negb andb] in H.
  destruct (bool_decide_reflect (obj_get SIG_FIELD (le_evidence e) = None)) as [E|E].
  - destruct i as [|i]; [injection Ha as ->; done|]. destruct j as [|j]; [lia|]. by apply (IH i j); try done; lia.
  - destruct (signature_ok e k) eqn:Ek; [|done]. apply check_seen in H.
    destruct j as [|j]; [by injection Hb as <-|]. by eapply Forall_lookup_1 in H.
Qed.

(** A ledger whose entries are all made under a signing key verifies with
    signatures, however it was used; and in any file that verifies with
    signatures every entry from the first one that carries a signature on is
    signed under the key: one signature cannot be stripped or replaced later. *)
Theorem ledger_signatures k ops full dur :
  Forall op_ok ops →
  let s := ledger_run (Some k) ops empty_ledger in
  (∃ es torn, raw s = render es ++ torn ∧ (torn = [] → reports es (verify (Some k) full true dur s).2)) ∧
  (∀ s' r es i a j b, (verify (Some k) full true dur s').2 = Ok r → _entries_from_bytes (raw s') = Ok es →
    es !! i = Some a → obj_get SIG_FIELD (le_evidence a) ≠ None → (i ≤ j)%nat → es !! j = Some b →
    signature_ok b k = true).
Proof.
  intros Ho s. split.
  - destruct (run_is (Some k) ops _ _ _ empty_is Ho) as (es & torn & H & (new & -> & Hn)). fold s in H.
    simpl in H. exists new, torn. split; [apply H|]. intros ->.
    unfold verify, _verify_unlocked. rewrite orb_true_r, (read_tail_is _ _ _ H), (size_is _ _ _ H), Nat.add_0_r, Nat.ltb_irrefl.
    destruct H as (Hr & _ & Hw & Hc & _). unfold full_verify.
    rewrite Hr, app_nil_r, take_ge, entries_render by done. cbn [mbind result_bind]. rewrite Hc. cbn [mbind result_bind].
    rewrite check_signed; [by eexists|]. eapply Forall_impl; [exact Hn|]. intros e (rq & n & h & ->). apply signed_entry.
  - intros s' r es i a j b Hv He Ha Hs Hij Hb. unfold verify in Hv. rewrite orb_true_r in Hv.
    change (_verify_unlocked (Some k) true true dur s') with (verify (Some k) true true dur s') in Hv.
    apply verify_full_Ok in Hv as (es' & He' & _ & _ & _ & Hsig). assert (es' = es) as -> by congruence.
    exact (check_after_cutover k es i a j b (Hsig eq_refl) Ha Hs Hij Hb).
Qed.

(** [os.write] may write less than it was given; its count is ignored, so the
    caller is told its entry was appended while the file holds a torn line:
    reading and appending are refused from then on, and the entry is gone. *)
Theorem short_write_acknowledged key dur rq s es n :
  ledger_is s es [] → request_ok rq →
  let e := entry_of (settings_hook key) rq (Z.of_nat (length es)) (tip_of GENESIS_HASH es) in
  (0 < n < length (line_of e))%nat →
  ∃ s1, _append_locked (settings_hook key) dur (Some n) rq s = (s1, Ok e) ∧
    (entries s1).2 = Err LedgerVerificationError ∧
    (∀ d rq', (_append_locked (settings_hook key) d None rq' s1).2 = Err LedgerUnavailable) ∧
    read_tail (lg_file s1) = Ok (last es, length (render es)).
Proof.
  intros H Hrq e Hn. pose proof H as (Hr & _ & Hw & Hc & Hs). rewrite app_nil_r in Hr.
  pose proof (tip_for_append_is _ _ _ H) as TA. cbv zeta in TA. rewrite bool_decide_true in TA by done.
  destruct (append_locked_from (settings_hook key) dur (Some n) rq _ _ _ _ TA) as (s1 & E1 & F1 & _).
  fold e in E1, F1. exists s1. split; [done|].
  set (s0 := s1 <| lg_side := None |>).
  assert (ledger_is s0 es (take n (line_of e))) as H0.
  { unfold ledger_is. split_and!; try done; [|apply take_line_torn; lia].
    change (raw s0) with (raw s1). rewrite (raw_of _ _ F1). by rewrite <- Hr. }
  assert (take n (line_of e) ≠ []) as Ht by (intros E; apply (f_equal length) in E; rewrite length_take in E; simpl in E; lia).
  assert (read_tail (lg_file s1) = Ok (last es, length (render es))) as RT by exact (read_tail_is _ _ _ H0).
  split_and!; [| |done].
  - change (entries s1).2 with (entries s0).2. by rewrite (entries_is _ _ _ H0), bool_decide_false.
  - intros d rq'. unfold _append_locked, mbind at 1, M_bind.
    assert (_tip_for_append s1 = (s1, Err LedgerUnavailable)) as ->; [|done].
    unfold _tip_for_append. rewrite RT. change (size s1) with (size s0).
    rewrite (size_is _ _ _ H0). by rewrite (proj2 (Nat.ltb_lt _ _)) by (destruct (take n (line_of e)); [done|simpl; lia]).
Qed.

End Claims.

(** ** A concrete codec, for concrete histories

    An entry is dumped as the binary digits of its code; the digest is a
    short polynomial checksum. *)

Definition all_actions : list LedgerAction :=
  [la_write; la_advance_to_candidate; la_quarantine_version; la_deprecate; la_policy_change;
   la_lint_reject; la_compress_skill; la_revoke_lineage; la_compose_block; la_publish_patch_template;
   la_lift_report; la_faithfulness_report; la_applicability_reject; la_mea_activation_fallback;
   la_close_receipt; la_ledger_repaired].
Definition action_index (a : LedgerAction) : nat :=
  default 0%nat (fst <$> list_find (λ b, a = b) all_actions).
#[export] Instance LedgerAction_countable : Countable LedgerAction.
Proof. apply (inj_countable action_index (λ i, all_actions !! i)). by intros []. Defined.

Definition body_code (b : EntryBody) : list positive :=
  [encode (eb_seq b); encode (eb_prev_hash b); encode (eb_actor b); encode (eb_action b);
   encode (eb_target b); encode (eb_evidence b); encode (eb_at b)].
Definition entry_code (e : LedgerEntry) : positive :=
  encode (encode (le_entry_hash e) :: body_code (body_of e)).
Definition code_entry (p : positive) : option LedgerEntry :=
  match (decode p : option (list positive)) with
  | Some [h; n; p; a; c; t; v; d] =>
      h ← decode h; n ← decode n; p ← decode p; a ← decode a; c ← decode c; t ← decode t; v ← decode v;
      d ← decode d; Some (mkEntry n p h a c t v d)
  | _ => None
  end.
Lemma code_entry_code e : code_entry (entry_code e) = Some e.
Proof. unfold code_entry, entry_code. rewrite decode_encode. cbn [body_code]. rewrite !decode_encode. by destruct e. Qed.

Fixpoint digits (p : positive) : bytes :=
  match p with xH => ["1"%char] | xO p => "0"%char :: digits p | xI p => "1"%char :: digits p end.
Fixpoint number (d : bytes) : positive :=
  match d with
  | c :: (_ :: _) as d' => if Ascii.eqb c "0" then xO (number d') else xI (number d')
  | _ => xH
  end.
Lemma digits_cons p : ∃ c d, digits p = c :: d ∧ (c = "0"%char ∨ c = "1"%char).
Proof. destruct p; simpl; eauto. Qed.
Lemma number_digits p : number (digits p) = p.
Proof.
  induction p as [p IH|p IH|]; [| |done]; destruct (digits_cons p) as (c & d & E & _); simpl;
    rewrite E in *; f_equal; exact IH.
Qed.
Lemma digits_plain p : plain (digits p).
Proof. induction p; constructor; try done; repeat constructor; done. Qed.
Lemma digits_visible p : blank (digits p) = false.
Proof. destruct (digits_cons p) as (c & d & -> & [->| ->]); done. Qed.

Definition demo_digest (d : bytes) : string :=
  pretty (foldl (λ h c, (h * 31 + Z.of_nat (Ascii.nat_of_ascii c)) mod 65521) 7 d).
Definition demo_codec : LedgerCodec := {|
  model_dump_json e := digits (entry_code e);
  model_validate_json d := code_entry (number d);
  json_dumps b := digits (encode (body_code b));
  sha256_hex d := demo_digest d;
  hmac_sha256_hex k d := demo_digest (k ++ d);
  store_receipt_ok o := negb (is_nil o) |}.
Lemma demo_laws : CodecLaws (CD := demo_codec).
Proof.
  split; cbn.
  - intros e _ _. by rewrite number_digits, code_entry_code.
  - intros e. apply digits_plain.
  - intros e. apply digits_visible.
  - intros b b' E. apply (f_equal number) in E. rewrite !number_digits in E. apply (inj encode) in E.
    injection E as E1 E2 _ _ _ _ _. by apply (inj encode) in E1, E2.
Qed.

Definition rq1 : AppendReq := mkReq "curator" la_write "skill-1" [("n", JInt 1)] 5.
Definition rq2 : AppendReq := mkReq "curator" la_deprecate "skill-1" [] 6.
Lemma rq1_ok : request_ok (CD := demo_codec) rq1.
Proof. split; [|discriminate]. vm_compute. reflexivity. Qed.
Lemma rq2_ok : request_ok (CD := demo_codec) rq2.
Proof. split; [|discriminate]. vm_compute. reflexivity. Qed.

(** The torn tail after a write cut at ten bytes is repaired over the first entry. *)
Example torn_then_repaired :
  let _ := demo_codec in
  let ops := [OpAppend None "local" None "normal" rq1; OpCrash rq2 10;
              OpRepair "normal" "operator" "ledger:l" 7 false] in
  (le_action <$> default [] (match (entries (ledger_run None ops empty_ledger)).2 with Ok l => Some l | Err _ => None end))
  = [la_write; la_ledger_repaired].
Proof. vm_compute. reflexivity. Qed.

(** ** Concrete histories of the theorems *)

Module Demo.
#[local] Existing Instance demo_codec.
#[local] Existing Instance demo_laws.

Definition append_rq (rq : AppendReq) (s : LedgerState) : LedgerState * result LedgerEntry :=
  append None "local" None (settings_hook None) "normal" None rq s.
Definition s1 : LedgerState := (append_rq rq1 empty_ledger).1.
Definition e1 : LedgerEntry := entry_of (settings_hook None) rq1 0 GENESIS_HASH.
Definition s2 : LedgerState := (append_rq rq2 s1).1.
Definition report (s : LedgerState) : VerifyReport :=
  match (verify None true false "normal" s).2 with Ok r => r | Err _ => mkVerify false 0 true 0 "" end.

Lemma s1_eq : append_rq rq1 empty_ledger = (s1, Ok e1).
Proof.
  etransitivity; [apply surjective_pairing|]. apply (f_equal2 pair eq_refl). vm_compute. reflexivity.
Qed.

Lemma s1_is : ledger_is s1 [e1] [].
Proof.
  destruct (append_locked_is None "normal" rq1 _ _ _ empty_is rq1_ok) as (s' & E & H & _).
  assert (s1 = (_append_locked (settings_hook None) "normal" None rq1 empty_ledger).1) as -> by reflexivity.
  rewrite E. exact H.
Qed.

(** The first entry with another actor, its hash left as it was. *)
Definition forged : LedgerEntry := e1 <| le_actor := "mallory" |>.
Definition tampered : LedgerState := mkLedger (Some (render ([] ++ [forged]))) (lg_side s1) [] (lg_tip s1).
End Demo.

Lemma ledger_keeps_entries_witness :
  ∃ es torn, raw (ledger_run (CD := demo_codec) None [OpCrash rq2 10] Demo.s1) = render (CD := demo_codec) es ++ torn ∧
    es !! 0%nat = Some Demo.e1.
Proof.
  destruct (ledger_keeps_entries (CL := demo_laws) None [] [OpCrash rq2 10] None "local" None "normal" rq1 Demo.s1 Demo.e1
    (Forall_nil_2 _) (Forall_cons_2 op_ok (OpCrash rq2 10) [] rq2_ok (Forall_nil_2 _)) rq1_ok Demo.s1_eq) as (es & torn & H1 & H2 & _).
  exists es, torn. exact (conj H1 H2).
Defined.

Lemma tip_fixes_history_witness :
  vr_tip_hash (Demo.report Demo.s2) = vr_tip_hash (Demo.report Demo.s2) ∧
  ((∃ es es', _entries_from_bytes (CD := demo_codec) (raw Demo.s2) = Ok es ∧
      _entries_from_bytes (CD := demo_codec) (raw Demo.s2) = Ok es' ∧ Forall2 (same_record (CD := demo_codec)) es es')
   ∨ collision (CD := demo_codec) ∨ ∃ x, sha256_hex (LedgerCodec := demo_codec) x = GENESIS_HASH).
Proof.
  split; [reflexivity|].
  apply (tip_fixes_history (CL := demo_laws) None "normal" Demo.s2 Demo.s2 (Demo.report Demo.s2) (Demo.report Demo.s2));
    [vm_compute; reflexivity|vm_compute; reflexivity|reflexivity].
Defined.

Lemma suffix_verify_agrees_witness :
  agree (verify (CD := demo_codec) None false false "normal" Demo.s1).2 (verify (CD := demo_codec) None true false "normal" Demo.s1).2
  ∨ collision (CD := demo_codec).
Proof.
  apply (suffix_verify_agrees (CD := demo_codec) None "normal" Demo.s1
    (default (mkTip 0 0 "" 0 "" "") (lg_side Demo.s1)) (raw Demo.s1) [Demo.e1]).
  - vm_compute. reflexivity.
  - split_and!; try (vm_compute; reflexivity). right. exists (model_dump_json (LedgerCodec := demo_codec) Demo.e1).
    vm_compute. reflexivity.
Defined.

Lemma append_vouches_unverified_witness :
  ∃ s1 e, _append_locked (CD := demo_codec) (settings_hook (CD := demo_codec) None) "normal" None rq2 Demo.tampered = (s1, Ok e) ∧
    (∃ r, (verify (CD := demo_codec) None false false "normal" s1).2 = Ok r ∧ vr_entries r = 2) ∧
    ∀ r, (verify (CD := demo_codec) None true false "normal" s1).2 ≠ Ok r.
Proof.
  apply (append_vouches_unverified (CL := demo_laws) None None "normal" rq2 Demo.tampered [] Demo.forged).
  - reflexivity.
  - apply Forall_singleton. split; [vm_compute; discriminate|vm_compute; reflexivity].
  - reflexivity.
  - vm_compute. discriminate.
  - exact rq2_ok.
Defined.

Lemma ledger_signatures_witness :
  ∃ es torn, raw (ledger_run (CD := demo_codec) (Some ["k"%char]) [OpCrash rq1 10] empty_ledger) = render (CD := demo_codec) es ++ torn ∧
    (torn = [] → reports es (verify (CD := demo_codec) (Some ["k"%char]) false true "normal"
       (ledger_run (CD := demo_codec) (Some ["k"%char]) [OpCrash rq1 10] empty_ledger)).2).
Proof.
  exact (proj1 (ledger_signatures (CL := demo_laws) ["k"%char] [OpCrash rq1 10] false "normal"
    (Forall_cons_2 op_ok (OpCrash rq1 10) [] rq1_ok (Forall_nil_2 _)))).
Defined.

Lemma short_write_acknowledged_witness :
  ∃ s2, _append_locked (CD := demo_codec) (settings_hook (CD := demo_codec) None) "normal" (Some 10%nat) rq2 Demo.s1 =
      (s2, Ok (entry_of (CD := demo_codec) (settings_hook (CD := demo_codec) None) rq2
        (Z.of_nat (length [Demo.e1])) (tip_of GENESIS_HASH [Demo.e1]))) ∧
    (entries (CD := demo_codec) s2).2 = Err LedgerVerificationError.
Proof.
  destruct (short_write_acknowledged (CL := demo_laws) None "normal" rq2 Demo.s1 [Demo.e1] 10 Demo.s1_is rq2_ok) as (s2 & H1 & H2 & _).
  - split; [lia|]. apply Nat.ltb_lt. vm_compute. reflexivity.
  - exists s2. exact (conj H1 H2).
Defined.
