(* ===== verification/Queue.v ===== *)
(** * The run queue (workers/queue.py)

    [control.db]'s [run_queue], [tenant_sched], [tenant_limits], [maintenance]
    and [workers] tables as finite maps, and every operation of [RunQueue] as
    a function on them.  Timestamps are microseconds ([Z]): the queue compares
    UTC ISO texts of one format, whose order is time order.  Rows that tie in
    [ORDER BY deficit DESC, enqueued_at ASC] are taken in map order, one of
    the orders SQLite may use. *)
From S2P Require Import Prelude PyStr.
From Stdlib Require Import ZArith Lia Ascii.
Open Scope Z_scope.

(** ** ports/identity.py: [^[A-Za-z0-9][A-Za-z0-9_-]{0,63}$] *)

Definition is_alnum (c : Ascii.ascii) : bool :=
  let n := Ascii.nat_of_ascii c in
  ((48 <=? n) && (n <=? 57) || (65 <=? n) && (n <=? 90) || (97 <=? n) && (n <=? 122))%nat.
Definition tenant_char (c : Ascii.ascii) : bool :=
  is_alnum c || Ascii.eqb c "_"%char || Ascii.eqb c "-"%char.
Definition tenant_ok (s : string) : bool :=
  match s with
  | EmptyString => false
  | String c s' => is_alnum c && all_chars tenant_char s' && (String.length s' <=? 63)%nat
  end.
Definition tenant_id (s : string) : result string := if tenant_ok s then Ok s else Err InvalidTenantId.

(** ** Tables *)

Inductive QStatus := q_queued | q_claimed | q_running | q_succeeded | q_failed | q_cancelled | q_dead.
#[export] Instance QStatus_eq_dec : EqDecision QStatus. Proof. solve_decision. Defined.

Definition _TERMINAL : list QStatus := [q_succeeded; q_failed; q_cancelled; q_dead].
Definition in_flight (s : QStatus) : bool := bool_decide (s ∈ [q_claimed; q_running]).

Notation queue_key := (string * string * string)%type (only parsing). (* (tenant, run, kind) *)

Record QRow := mkQRow {
  q_status : QStatus;
  q_priority : Z;
  q_enqueued_at : Z;
  q_not_before : Z;
  q_claimed_by : option string;
  q_claim_token : Z;
  q_heartbeat_at : option Z;
  q_attempt : Z;
  q_max_attempts : Z;
  q_payload : json_obj;
  q_error_code : option string;
  q_finished_at : option Z;
  q_cancel_requested : bool }.

#[export] Instance eta_QRow : Eta QRow := λ r,
  mkQRow (q_status r) (q_priority r) (q_enqueued_at r) (q_not_before r) (q_claimed_by r)
    (q_claim_token r) (q_heartbeat_at r) (q_attempt r) (q_max_attempts r) (q_payload r)
    (q_error_code r) (q_finished_at r) (q_cancel_requested r).

Record Sched := mkSched { deficit : Z; weight : Z; last_claim_at : option Z }.
Record Limits := mkLimits { max_in_flight : Z; max_queue_depth : Z }.
Inductive Mode := m_open | m_quiescing | m_frozen.
#[export] Instance Mode_eq_dec : EqDecision Mode. Proof. solve_decision. Defined.
Record Worker := mkWorker {
  w_started_at : Z; w_heartbeat_at : Z; w_hostname : string; w_pid : option Z;
  w_capacity : Z; w_inflight : Z }.

Record QueueDb := mkQueueDb {
  run_queue : gmap (string * string * string) QRow;
  tenant_sched : gmap string Sched;
  tenant_limits : gmap string Limits;
  maintenance : option Mode;
  workers : gmap string Worker }.

#[export] Instance eta_QueueDb : Eta QueueDb := λ d,
  mkQueueDb (run_queue d) (tenant_sched d) (tenant_limits d) (maintenance d) (workers d).

(** The settings a queue reads when it opens. *)
Record QSettings := mkQSettings {
  sched_deficit_cap : Z; queue_max_attempts : Z; tenant_max_in_flight : Z;
  tenant_max_queue_depth : Z }.

Definition _CLAIM_COST : Z := 1.

Record QueueItem := mkItem {
  i_tenant_id : string; i_run_id : string; i_kind : string; i_payload : json_obj;
  i_priority : Z; i_max_attempts : Z; i_enqueued_at : option Z; i_not_before : option Z }.

Record Claim := mkQClaim {
  k_tenant_id : string; k_run_id : string; k_kind : string; k_claim_token : Z;
  k_attempt : Z; k_payload : json_obj }.
Definition claim_key (c : Claim) : string * string * string := (k_tenant_id c, k_run_id c, k_kind c).

(** ** Counts *)

Definition count_rows (p : string * string * string → QRow → bool) (d : QueueDb) : Z :=
  Z.of_nat (size (filter (λ kr : string * string * string * QRow, p kr.1 kr.2 = true) (run_queue d))).

Definition key_tenant (k : string * string * string) : string := k.1.1.
Definition key_kind (k : string * string * string) : string := k.2.

Definition depth (d : QueueDb) (t : string) : Z :=
  count_rows (λ k r, bool_decide (key_tenant k = t) && bool_decide (q_status r = q_queued)) d.
(** The claim's own cap counts every kind. *)
Definition in_flight_all (d : QueueDb) (t : string) : Z :=
  count_rows (λ k r, bool_decide (key_tenant k = t) && in_flight (q_status r)) d.
(** [inflight(tenant)]: [kind='run'] only. *)
Definition inflight (d : QueueDb) (t : string) : Z :=
  count_rows (λ k r, bool_decide (key_tenant k = t) && bool_decide (key_kind k = "run")
                     && in_flight (q_status r)) d.
Definition outstanding (d : QueueDb) : Z :=
  count_rows (λ _ r, bool_decide (q_status r = q_queued) || in_flight (q_status r)) d.

(** ** Operations *)

Definition ensure_tenant (cfg : QSettings) (t : string) (d : QueueDb) : QueueDb :=
  d <| tenant_sched := match tenant_sched d !! t with
                       | Some _ => tenant_sched d
                       | None => <[t := mkSched 0 1 None]> (tenant_sched d) end |>
    <| tenant_limits := match tenant_limits d !! t with
                        | Some _ => tenant_limits d
                        | None => <[t := mkLimits (tenant_max_in_flight cfg)
                                           (tenant_max_queue_depth cfg)]> (tenant_limits d) end |>.

(** [max_queue_depth] of the tenant's limits row, or the default. *)
Definition depth_cap (cfg : QSettings) (d : QueueDb) (t : string) : Z :=
  match tenant_limits d !! t with
  | Some l => max_queue_depth l
  | None => tenant_max_queue_depth cfg
  end.

Definition fresh_row (cfg : QSettings) (now : Z) (token : Z) (i : QueueItem) : QRow :=
  let stamp := default now (i_enqueued_at i) in
  mkQRow q_queued (i_priority i) stamp (default stamp (i_not_before i)) None token None 0
    (if i_max_attempts i =? 0 then queue_max_attempts cfg else i_max_attempts i)
    (i_payload i) None None false.

(** [enqueue]: the tenant's rows are created outside the transaction, so they
    stay when it is refused. *)
Definition enqueue (cfg : QSettings) (now : Z) (replace_terminal : bool) (i : QueueItem) (d0 : QueueDb)
    : QueueDb * result unit :=
  match tenant_id (i_tenant_id i) with
  | Err e => (d0, Err e)
  | Ok t =>
      if negb (bool_decide (i_kind i ∈ ["run"; "eval"; "job"])) then (d0, Err ValueError)
      else
        let d := ensure_tenant cfg t d0 in
        let k := (t, i_run_id i, i_kind i) in
        match run_queue d !! k with
        | None =>
            if depth_cap cfg d t <=? depth d t then (d, Err QuotaExceeded)
            else (d <| run_queue := <[k := fresh_row cfg now 0 i]> (run_queue d) |>, Ok tt)
        | Some old =>
            if replace_terminal && bool_decide (q_status old ∈ _TERMINAL) then
              if depth_cap cfg d t <=? depth d t then (d, Err QuotaExceeded)
              else (d <| run_queue := <[k := fresh_row cfg now (q_claim_token old) i]> (run_queue d) |>,
                    Ok tt)
            else (d, Err ValueError)
        end
  end.

(** A row [_claim_one]'s SELECT returns, with its tenant's scheduler row. *)
Definition claimable (now : Z) (d : QueueDb) (k : string * string * string) (r : QRow) : option Sched :=
  s ← tenant_sched d !! key_tenant k;
  l ← tenant_limits d !! key_tenant k;
  if bool_decide (q_status r = q_queued) && (q_not_before r <=? now)
     && (in_flight_all d (key_tenant k) <? max_in_flight l)
  then Some s else None.

Notation candidate := (string * string * string * QRow * Z)%type (only parsing).

(** [deficit DESC, enqueued_at ASC] *)
Definition better (a b : string * string * string * QRow * Z) : bool :=
  (b.2 <? a.2) || ((b.2 =? a.2) && (q_enqueued_at a.1.2 <? q_enqueued_at b.1.2)).

Definition candidates (now : Z) (d : QueueDb) : list (string * string * string * QRow * Z) :=
  omap (λ kr : string * string * string * QRow,
    s ← claimable now d kr.1 kr.2; Some (kr, deficit s)) (map_to_list (run_queue d)).

Fixpoint pick_from (best : string * string * string * QRow * Z)
    (l : list (string * string * string * QRow * Z)) :=
  match l with
  | [] => best
  | c :: l' => pick_from (if better c best then c else best) l'
  end.

Definition pick (now : Z) (d : QueueDb) : option (string * string * string * QRow * Z) :=
  match candidates now d with [] => None | c :: l => Some (pick_from c l) end.

Definition claim_row (worker : string) (now : Z) (r : QRow) : QRow :=
  r <| q_status := q_claimed |> <| q_claimed_by := Some worker |>
    <| q_claim_token := q_claim_token r + 1 |> <| q_heartbeat_at := Some now |>.

(** The deficit round: everybody else earns their weight up to the cap, the
    claiming tenant pays. *)
Definition charge (cfg : QSettings) (now : Z) (t : string) (m : gmap string Sched) : gmap string Sched :=
  map_imap (λ u s, Some (if decide (u = t)
    then mkSched (deficit s - _CLAIM_COST) (weight s) (Some now)
    else mkSched (Z.min (deficit s + weight s) (sched_deficit_cap cfg)) (weight s) (last_claim_at s))) m.

Definition _claim_one (cfg : QSettings) (worker : string) (now : Z) (d : QueueDb)
    : QueueDb * option Claim :=
  match maintenance d with
  | None | Some m_frozen | Some m_quiescing => (d, None)
  | Some m_open =>
      match pick now d with
      | None => (d, None)
      | Some (k, r, _) =>
          (d <| run_queue := <[k := claim_row worker now r]> (run_queue d) |>
             <| tenant_sched := charge cfg now (key_tenant k) (tenant_sched d) |>,
           Some (mkQClaim (key_tenant k) k.1.2 (key_kind k) (q_claim_token r + 1) (q_attempt r)
                   (q_payload r)))
      end
  end.

(** [claim(worker_id, limit=n)]; the clock moves between the single claims. *)
Fixpoint claim (cfg : QSettings) (worker : string) (clock : list Z) (d : QueueDb)
    : QueueDb * list Claim :=
  match clock with
  | [] => (d, [])
  | now :: clock' =>
      match _claim_one cfg worker now d with
      | (d1, None) => (d1, [])
      | (d1, Some c) => let '(d2, cs) := claim cfg worker clock' d1 in (d2, c :: cs)
      end
  end.

(** UPDATE ... WHERE key AND claim_token AND status IN (...) *)
Definition owned_row (c : Claim) (from : list QStatus) (d : QueueDb) : option QRow :=
  r ← run_queue d !! claim_key c;
  if (q_claim_token r =? k_claim_token c) && bool_decide (q_status r ∈ from) then Some r else None.

Definition heartbeat_claim (now : Z) (c : Claim) (d : QueueDb) : QueueDb :=
  match owned_row c [q_claimed; q_running] d with
  | Some r => d <| run_queue := <[claim_key c := r <| q_heartbeat_at := Some now |>]> (run_queue d) |>
  | None => d
  end.

Definition _transition (now : Z) (c : Claim) (st : QStatus) (code : option string)
    (from : list QStatus) (d : QueueDb) : QueueDb * result unit :=
  match owned_row c from d with
  | Some r =>
      (d <| run_queue := <[claim_key c :=
          r <| q_status := st |> <| q_heartbeat_at := Some now |> <| q_error_code := code |>
            <| q_finished_at := if decide (st ∈ _TERMINAL) then Some now else q_finished_at r |>]>
          (run_queue d) |>, Ok tt)
  | None =>
      match run_queue d !! claim_key c with
      | Some r => if bool_decide (q_status r = st) && (q_claim_token r =? k_claim_token c)
                  then (d, Ok tt) else (d, Err StaleClaim)
      | None => (d, Err StaleClaim)
      end
  end.

Definition mark_running (now : Z) (c : Claim) (d : QueueDb) : QueueDb * result unit :=
  _transition now c q_running None [q_claimed] d.

(** [finish]: [status] is one of succeeded, failed, cancelled. *)
Definition finish (now : Z) (c : Claim) (st : QStatus) (code : option string) (d : QueueDb)
    : QueueDb * result unit :=
  _transition now c st code [q_claimed; q_running] d.

Definition requeue (due : Z) (c : Claim) (code : string) (d : QueueDb) : QueueDb * result unit :=
  match owned_row c [q_claimed; q_running] d with
  | Some r =>
      (d <| run_queue := <[claim_key c :=
          r <| q_status := q_queued |> <| q_claimed_by := None |> <| q_heartbeat_at := None |>
            <| q_not_before := due |> <| q_error_code := Some code |>]> (run_queue d) |>, Ok tt)
  | None => (d, Err StaleClaim)
  end.

Definition request_cancel (t run kind : string) (d : QueueDb) : QueueDb :=
  d <| run_queue := alter (λ r,
      if bool_decide (q_status r ∈ [q_queued; q_claimed; q_running])
      then r <| q_cancel_requested := true |> else r) (t, run, kind) (run_queue d) |>.

Definition cancel_requested (t run kind : string) (d : QueueDb) : bool :=
  match run_queue d !! (t, run, kind) with Some r => q_cancel_requested r | None => false end.

Definition set_max_in_flight (cfg : QSettings) (t : string) (n : Z) (d : QueueDb) : QueueDb :=
  let d1 := ensure_tenant cfg t d in
  d1 <| tenant_limits := alter (λ l, mkLimits n (max_queue_depth l)) t (tenant_limits d1) |>.

Definition set_maintenance (m : Mode) (d : QueueDb) : QueueDb :=
  d <| maintenance := match maintenance d with Some _ => Some m | None => None end |>.

Definition register_worker (now : Z) (id : string) (capacity : Z) (host : string) (pid : Z) (d : QueueDb)
    : QueueDb :=
  d <| workers := <[id := match workers d !! id with
      | Some w => mkWorker (w_started_at w) now host (Some pid) capacity (w_inflight w)
      | None => mkWorker now now host (Some pid) capacity 0 end]> (workers d) |>.

Definition heartbeat_worker (now : Z) (id : string) (d : QueueDb) : QueueDb :=
  let n := count_rows (λ _ r, bool_decide (q_claimed_by r = Some id) && in_flight (q_status r)) d in
  d <| workers := alter (λ w, mkWorker (w_started_at w) now (w_hostname w) (w_pid w) (w_capacity w) n)
                    id (workers d) |>.

(** What [reconcile_orphans] does to one row; [alive] is the [os.kill(pid, 0)]
    probe.  [2 ** (attempt + 1)] seconds, at most 60. *)
Definition backoff_s (attempt : Z) : Z := Z.min (2 ^ (attempt + 1)) 60.

Definition orphaned (alive : Z → bool) (d : QueueDb) (r : QRow) : bool :=
  in_flight (q_status r) &&
  negb (match q_claimed_by r with
        | Some w => match workers d !! w with
                    | Some wk => match w_pid wk with Some p => alive p | None => false end
                    | None => false end
        | None => false end).

Definition reconcile_row (alive : Z → bool) (now : Z) (d : QueueDb) (r : QRow) : QRow :=
  if negb (orphaned alive d r) then r
  else if q_max_attempts r <=? q_attempt r + 1
  then r <| q_status := q_dead |> <| q_error_code := Some "lease_expired" |>
         <| q_finished_at := Some now |>
  else r <| q_status := q_queued |> <| q_attempt := q_attempt r + 1 |> <| q_claimed_by := None |>
         <| q_not_before := now + backoff_s (q_attempt r) * 1000000 |> <| q_heartbeat_at := None |>.

(** [reconcile_orphans]: the database after, and how many rows it changed. *)
Definition reconcile_orphans (alive : Z → bool) (now : Z) (d : QueueDb) : QueueDb * Z :=
  (d <| run_queue := reconcile_row alive now d <$> run_queue d |>,
   count_rows (λ _ r, orphaned alive d r) d).

(** ** Counting lemmas *)

Definition indicator (b : bool) : Z := if b then 1 else 0.

Lemma count_delete p d k r :
  run_queue d !! k = Some r →
  count_rows p d = indicator (p k r) + count_rows p (d <| run_queue := delete k (run_queue d) |>).
Proof.
  intros H. unfold count_rows. simpl. rewrite map_filter_delete.
  destruct (p k r) eqn:P; simpl.
  - assert (filter (λ kr : string * string * string * QRow, p kr.1 kr.2 = true) (run_queue d) !! k
      = Some r) as Hf by (by apply map_lookup_filter_Some).
    rewrite (map_size_delete_Some _ _ (mk_is_Some _ _ Hf)).
    assert (size (filter (λ kr : string * string * string * QRow, p kr.1 kr.2 = true) (run_queue d)) ≠ 0%nat).
    { intros E. apply map_size_empty_inv in E. by rewrite E, lookup_empty in Hf. }
    lia.
  - rewrite (map_size_delete_None); [lia|]. apply map_lookup_filter_None. right.
    intros x Hx. simpl. congruence.
Qed.

Lemma count_insert p d k r :
  count_rows p (d <| run_queue := <[k := r]> (run_queue d) |>) =
  indicator (p k r) + count_rows p (d <| run_queue := delete k (run_queue d) |>).
Proof.
  rewrite (count_delete p (d <| run_queue := <[k := r]> (run_queue d) |>) k r)
    by apply lookup_insert_eq.
  simpl. by rewrite delete_insert_eq.
Qed.

(** Rewriting one row moves a count by that row's own contribution. *)
Lemma count_update p d k r r' :
  run_queue d !! k = Some r →
  count_rows p (d <| run_queue := <[k := r']> (run_queue d) |>) =
  count_rows p d - indicator (p k r) + indicator (p k r').
Proof. intros H. rewrite count_insert, (count_delete p d k r H). lia. Qed.

Lemma count_new p d k r :
  run_queue d !! k = None →
  count_rows p (d <| run_queue := <[k := r]> (run_queue d) |>) = count_rows p d + indicator (p k r).
Proof.
  intros H. rewrite count_insert. unfold count_rows. simpl.
  rewrite delete_id by done. lia.
Qed.

Lemma count_mono p q d :
  (∀ k r, run_queue d !! k = Some r → p k r = true → q k r = true) →
  count_rows p d ≤ count_rows q d.
Proof.
  intros H. unfold count_rows. apply inj_le, map_subseteq_size, map_filter_subseteq_ext.
  intros k r Hk Hp. simpl in *. by apply (H k r).
Qed.

Lemma count_fmap p f d :
  (∀ k r, p k (f r) = true → p k r = true) →
  count_rows p (d <| run_queue := f <$> run_queue d |>) ≤ count_rows p d.
Proof.
  intros H. unfold count_rows. simpl. rewrite map_filter_fmap.
  rewrite map_size_fmap. apply inj_le, map_subseteq_size, map_filter_subseteq_ext.
  intros k r _ Hp. simpl in *. by apply H.
Qed.

(** ** The pick *)

Lemma candidates_spec now d k r x :
  (k, r, x) ∈ candidates now d ↔
  run_queue d !! k = Some r ∧ ∃ s, claimable now d k r = Some s ∧ deficit s = x.
Proof.
  unfold candidates. rewrite list_elem_of_omap. split.
  - intros ([k' r'] & Hin & Hc). apply elem_of_map_to_list in Hin. simpl in Hc.
    destruct (claimable now d k' r') as [s|] eqn:E; simpl in Hc; [|done].
    injection Hc as -> -> <-. eauto.
  - intros (H & s & Hs & <-). exists (k, r). rewrite elem_of_map_to_list. split; [done|].
    simpl. by rewrite Hs.
Qed.

Lemma better_trans a b c : better b a = false → better c b = false → better c a = false.
Proof.
  unfold better. rewrite !orb_false_iff, !andb_false_iff, !Z.ltb_ge, !Z.eqb_neq. lia.
Qed.

Lemma pick_from_spec best l :
  (pick_from best l = best ∨ pick_from best l ∈ l) ∧
  better best (pick_from best l) = false ∧
  ∀ c, c ∈ l → better c (pick_from best l) = false.
Proof.
  revert best. induction l as [|x l IH]; intros best; simpl.
  - split; [by left|]. split; [|by intros c Hc; inversion Hc].
    unfold better. by rewrite !Z.ltb_irrefl, Z.eqb_refl.
  - destruct (IH (if better x best then x else best)) as (H1 & H2 & H3).
    assert (better x (if better x best then x else best) = false ∧
            better best (if better x best then x else best) = false) as [Hx Hb].
    { destruct (better x best) eqn:E; split; try done; unfold better in *;
        rewrite ?Z.ltb_irrefl, ?Z.eqb_refl; try done.
      apply orb_true_iff in E. rewrite andb_true_iff, !Z.ltb_lt, Z.eqb_eq in E.
      rewrite orb_false_iff, andb_false_iff, !Z.ltb_ge, Z.eqb_neq. lia. }
    split; [|split].
    + destruct H1 as [->|H1]; [|right; by right].
      destruct (better x best); [right; by left|by left].
    + eapply better_trans; [exact H2|exact Hb].
    + intros c [->|Hc]%elem_of_cons; [|by apply H3]. eapply better_trans; [exact H2|exact Hx].
Qed.

Lemma pick_spec now d k r x :
  pick now d = Some (k, r, x) →
  (k, r, x) ∈ candidates now d ∧ ∀ c, c ∈ candidates now d → better c (k, r, x) = false.
Proof.
  unfold pick. destruct (candidates now d) as [|c l]; [done|]. intros [= E].
  destruct (pick_from_spec c l) as (H1 & H2 & H3). rewrite E in *. split.
  - destruct H1 as [<-|H1]; [by left|by right].
  - intros c' [->|Hc]%elem_of_cons; [done|by apply H3].
Qed.

Lemma pick_None now d : pick now d = None ↔ candidates now d = [].
Proof. unfold pick. by destruct (candidates now d). Qed.

Lemma claim_one_Some cfg w now d d' c :
  _claim_one cfg w now d = (d', Some c) →
  ∃ k r x, pick now d = Some (k, r, x) ∧ maintenance d = Some m_open ∧ claim_key c = k ∧
    k_claim_token c = q_claim_token r + 1 ∧
    d' = d <| run_queue := <[k := claim_row w now r]> (run_queue d) |>
           <| tenant_sched := charge cfg now (key_tenant k) (tenant_sched d) |>.
Proof.
  unfold _claim_one. destruct (maintenance d) as [[]|]; try done.
  destruct (pick now d) as [[[k r] x]|]; [|done]. intros [= <- <-].
  exists k, r, x. destruct k as [[t run] kd]. done.
Qed.

(** ** Operations as data: any sequence the callers may issue *)

Inductive qop : Type :=
  | OEnqueue (now : Z) (replace_terminal : bool) (i : QueueItem)
  | OClaim (worker : string) (clock : list Z)
  | OHeartbeat (now : Z) (c : Claim)
  | OMarkRunning (now : Z) (c : Claim)
  | OFinish (now : Z) (c : Claim) (st : QStatus) (code : option string)
  | ORequeue (due : Z) (c : Claim) (code : string)
  | OCancel (t run kind : string)
  | OSetMax (t : string) (n : Z)
  | OMaintenance (m : Mode)
  | ORegister (now : Z) (id : string) (capacity : Z) (host : string) (pid : Z)
  | OBeatWorker (now : Z) (id : string)
  | OReconcile (alive : Z → bool) (now : Z).

Definition exec (cfg : QSettings) (o : qop) (d : QueueDb) : QueueDb :=
  match o with
  | OEnqueue now rt i => (enqueue cfg now rt i d).1
  | OClaim w clock => (claim cfg w clock d).1
  | OHeartbeat now c => heartbeat_claim now c d
  | OMarkRunning now c => (mark_running now c d).1
  | OFinish now c st code => (finish now c st code d).1
  | ORequeue due c code => (requeue due c code d).1
  | OCancel t run kind => request_cancel t run kind d
  | OSetMax t n => set_max_in_flight cfg t n d
  | OMaintenance m => set_maintenance m d
  | ORegister now id cap host pid => register_worker now id cap host pid d
  | OBeatWorker now id => heartbeat_worker now id d
  | OReconcile alive now => (reconcile_orphans alive now d).1
  end.

Definition run_ops (cfg : QSettings) (ops : list qop) (d : QueueDb) : QueueDb :=
  fold_left (λ d o, exec cfg o d) ops d.

(** What one operation may do to the row of one key: the cases every row
    invariant is checked on. *)
Inductive row_change (cfg : QSettings) : option QRow → option QRow → Prop :=
  | rc_same o : row_change cfg o o
  | rc_fresh now tok i o :
      match o with
      | None => tok = 0
      | Some r => q_status r ∈ _TERMINAL ∧ tok = q_claim_token r
      end → row_change cfg o (Some (fresh_row cfg now tok i))
  | rc_claim w now r : q_status r = q_queued → row_change cfg (Some r) (Some (claim_row w now r))
  | rc_beat now r : row_change cfg (Some r) (Some (r <| q_heartbeat_at := now |>))
  | rc_transition now st code fin r :
      in_flight (q_status r) = true →
      row_change cfg (Some r) (Some (r <| q_status := st |> <| q_heartbeat_at := now |>
                                       <| q_error_code := code |> <| q_finished_at := fin |>))
  | rc_requeue due code r :
      in_flight (q_status r) = true →
      row_change cfg (Some r) (Some (r <| q_status := q_queued |> <| q_claimed_by := None |>
        <| q_heartbeat_at := None |> <| q_not_before := due |> <| q_error_code := code |>))
  | rc_cancel r : row_change cfg (Some r) (Some (r <| q_cancel_requested := true |>))
  | rc_reconcile alive now d r : row_change cfg (Some r) (Some (reconcile_row alive now d r))
  | rc_trans a b c : row_change cfg a b → row_change cfg b c → row_change cfg a c.

Lemma owned_row_Some c from d r :
  owned_row c from d = Some r →
  run_queue d !! claim_key c = Some r ∧ q_claim_token r = k_claim_token c ∧ q_status r ∈ from.
Proof.
  unfold owned_row. destruct (run_queue d !! claim_key c) as [r0|] eqn:E; simpl; [|done].
  destruct (_ && _) eqn:B; [|done]. intros [= <-].
  apply andb_true_iff in B as [B1 B2]. apply bool_decide_eq_true in B2. split_and!; [done|lia|done].
Qed.

Lemma insert_change (cfg : QSettings) (m : gmap (string * string * string) QRow)
    (k : string * string * string) (r' : QRow) (k' : string * string * string) :
  row_change cfg (m !! k) (Some r') → row_change cfg (m !! k') (<[k := r']> m !! k').
Proof.
  intros H. destruct (decide (k = k')) as [->|N].
  - by rewrite lookup_insert_eq.
  - rewrite lookup_insert_ne by done. constructor.
Qed.

Lemma enqueue_change cfg now rt i d k :
  row_change cfg (run_queue d !! k) (run_queue (enqueue cfg now rt i d).1 !! k).
Proof.
  unfold enqueue. destruct (tenant_id (i_tenant_id i)) as [t|e]; simpl; [|constructor].
  destruct (negb _); simpl; [constructor|].
  destruct (run_queue d !! (t, i_run_id i, i_kind i)) as [old|] eqn:E; simpl.
  - destruct (rt && bool_decide (q_status old ∈ _TERMINAL)) eqn:B; simpl; [|constructor]. destruct (_ <=? _); simpl; [constructor|].
    apply insert_change. rewrite E. constructor.
    apply andb_true_iff in B as [_ B]. by apply bool_decide_eq_true in B.
  - destruct (_ <=? _); simpl; [constructor|]. apply insert_change. rewrite E. by constructor.
Qed.

Lemma claim_one_change cfg w now d k :
  row_change cfg (run_queue d !! k) (run_queue (_claim_one cfg w now d).1 !! k).
Proof.
  destruct (_claim_one cfg w now d) as [d' [c|]] eqn:E; simpl.
  - apply claim_one_Some in E as (k' & r & x & Hp & _ & _ & _ & ->). simpl.
    apply pick_spec in Hp as [Hp _]. apply candidates_spec in Hp as (Hr & s & Hs & _).
    apply insert_change. rewrite Hr. constructor.
    unfold claimable in Hs. destruct (tenant_sched d !! _), (tenant_limits d !! _); simpl in Hs; try done.
    case_bool_decide; [done|]. discriminate.
  - unfold _claim_one in E. destruct (maintenance d) as [[]|]; try (injection E as <-; constructor).
    destruct (pick now d) as [[[k' r] x]|]; [discriminate|]. injection E as <-. constructor.
Qed.

Lemma claim_change cfg w clock d k :
  row_change cfg (run_queue d !! k) (run_queue (claim cfg w clock d).1 !! k).
Proof.
  revert d. induction clock as [|now clock IH]; intros d; simpl; [constructor|].
  pose proof (claim_one_change cfg w now d k) as H1.
  destruct (_claim_one cfg w now d) as [d1 [c|]]; simpl in *; [|done].
  pose proof (IH d1) as H2. destruct (claim cfg w clock d1); simpl in *. by eapply rc_trans.
Qed.

Lemma elem_in_flight s : s ∈ [q_claimed; q_running] → in_flight s = true.
Proof. intros H. by apply bool_decide_eq_true. Qed.

Lemma transition_change cfg now c st code from d k :
  (∀ s, s ∈ from → in_flight s = true) →
  row_change cfg (run_queue d !! k) (run_queue (_transition now c st code from d).1 !! k).
Proof.
  intros Hf. unfold _transition. destruct (owned_row c from d) as [r|] eqn:E; simpl.
  - apply owned_row_Some in E as (E & _ & Hin). apply insert_change. rewrite E. constructor. auto.
  - destruct (run_queue d !! claim_key c); [destruct (_ && _)|]; constructor.
Qed.

Lemma exec_change cfg o d k :
  row_change cfg (run_queue d !! k) (run_queue (exec cfg o d) !! k).
Proof.
  destruct o as [now rt i|w clock|now c|now c|now c st code|due c code|t run kind|t n|m| | |alive now];
    try (simpl; constructor).
  - apply enqueue_change.
  - apply claim_change.
  - simpl. unfold heartbeat_claim. destruct (owned_row _ _ _) as [r|] eqn:E; [|constructor].
    apply owned_row_Some in E as (E & _ & _). apply insert_change. rewrite E. constructor.
  - apply transition_change. intros s Hs. apply elem_in_flight. apply list_elem_of_singleton in Hs as ->. left.
  - apply transition_change. apply elem_in_flight.
  - simpl. unfold requeue. destruct (owned_row _ _ _) as [r|] eqn:E; [|constructor].
    apply owned_row_Some in E as (E & _ & Hin). apply insert_change. rewrite E. constructor.
    by apply elem_in_flight.
  - simpl. destruct (decide (k = (t, run, kind))) as [->|N].
    + rewrite lookup_alter_eq. destruct (run_queue d !! _) as [r|]; simpl; [|constructor].
      case_bool_decide; constructor.
    + rewrite lookup_alter_ne by done. constructor.
  - simpl. rewrite lookup_fmap. destruct (run_queue d !! k); simpl; constructor.
Qed.

(** An invariant of single rows that every change keeps holds after any
    sequence of operations. *)
Lemma run_ops_change cfg (P : option QRow → option QRow → Prop) ops d k :
  (∀ o, P o o) → (∀ a b c, P a b → P b c → P a c) → (∀ a b, row_change cfg a b → P a b) →
  P (run_queue d !! k) (run_queue (run_ops cfg ops d) !! k).
Proof.
  intros Hr Ht Hc. revert d. induction ops as [|o ops IH]; intros d; simpl; [apply Hr|].
  eapply Ht; [apply Hc, (exec_change cfg o)|apply IH].
Qed.

(** ** Claim tokens *)

Definition token_le (a b : option QRow) : Prop :=
  ∀ r, a = Some r → ∃ r', b = Some r' ∧ q_claim_token r ≤ q_claim_token r'.

Lemma token_le_trans a b c : token_le a b → token_le b c → token_le a c.
Proof.
  intros H1 H2 r Hr. destruct (H1 r Hr) as (r1 & E1 & L1).
  destruct (H2 r1 E1) as (r2 & E2 & L2). exists r2. split; [done|lia].
Qed.

Lemma reconcile_row_token alive now d r : q_claim_token (reconcile_row alive now d r) = q_claim_token r.
Proof. unfold reconcile_row. destruct (negb _); [done|]. by destruct (_ <=? _). Qed.

Lemma row_change_token cfg a b : row_change cfg a b → token_le a b.
Proof.
  induction 1; try (by eapply token_le_trans);
    intros r0 Hr; try injection Hr as ->; eexists; (split; [first [done|reflexivity]|]); simpl; try lia.
  - rewrite Hr in H. destruct H as [_ ->]. lia.
  - rewrite reconcile_row_token. lia.
Qed.

Lemma run_ops_token cfg ops d k : token_le (run_queue d !! k) (run_queue (run_ops cfg ops d) !! k).
Proof.
  apply (run_ops_change cfg token_le).
  - intros o r Hr. exists r. split; [done|lia].
  - apply token_le_trans.
  - apply row_change_token.
Qed.

(** A claim whose token is behind its row's can no longer write the row. *)
Definition refused (c : Claim) (d : QueueDb) : Prop :=
  (∀ now, mark_running now c d = (d, Err StaleClaim)) ∧
  (∀ now st code, finish now c st code d = (d, Err StaleClaim)) ∧
  (∀ due code, requeue due c code d = (d, Err StaleClaim)) ∧
  (∀ now, heartbeat_claim now c d = d).

Lemma behind_refused c d r :
  run_queue d !! claim_key c = Some r → k_claim_token c < q_claim_token r → refused c d.
Proof.
  intros Hr Hlt.
  assert (∀ from, owned_row c from d = None) as Ho.
  { intros from. destruct (owned_row c from d) as [r0|] eqn:E; [|done].
    apply owned_row_Some in E as (E & Ht & _). rewrite Hr in E. injection E as <-. lia. }
  assert ((q_claim_token r =? k_claim_token c) = false) as Hne by lia.
  unfold refused, mark_running, finish, requeue, heartbeat_claim, _transition.
  split_and!; intros; rewrite Ho, ?Hr, ?Hne, ?andb_false_r; done.
Qed.

Lemma claim_one_token cfg w now d d' c :
  _claim_one cfg w now d = (d', Some c) →
  ∃ r, run_queue d !! claim_key c = Some r ∧ k_claim_token c = q_claim_token r + 1 ∧
       run_queue d' !! claim_key c = Some (claim_row w now r).
Proof.
  intros H. apply claim_one_Some in H as (k & r & x & Hp & _ & <- & Ht & ->).
  apply pick_spec in Hp as [Hp _]. apply candidates_spec in Hp as [Hr _].
  exists r. split_and!; [done|done|]. simpl. by rewrite lookup_insert_eq.
Qed.

(** A run that was claimed again leaves its earlier claim powerless for good:
    whatever the workers and operators do between and after the two claims,
    [mark_running], [finish] and [requeue] with the earlier claim raise
    [StaleClaim] and change nothing, and its heartbeat touches no row. *)
Theorem stale_claim_refused cfg w1 w2 now1 now2 d d1 c1 ops d2 c2 ops' :
  _claim_one cfg w1 now1 d = (d1, Some c1) →
  _claim_one cfg w2 now2 (run_ops cfg ops d1) = (d2, Some c2) →
  claim_key c2 = claim_key c1 →
  refused c1 (run_ops cfg ops' d2).
Proof.
  intros H1 H2 Hk.
  apply claim_one_token in H1 as (r1 & _ & T1 & R1).
  apply claim_one_token in H2 as (r2 & R2 & T2 & R2').
  rewrite Hk in *.
  destruct (run_ops_token cfg ops d1 _ _ R1) as (r & Er & L).
  rewrite R2 in Er. injection Er as <-.
  destruct (run_ops_token cfg ops' d2 _ _ R2') as (r' & Er' & L').
  apply (behind_refused _ _ _ Er'). simpl in *. lia.
Qed.

(** ** Attempts *)

Definition attempt_ok (r : QRow) : Prop :=
  0 ≤ q_attempt r ∧ (q_attempt r = 0 ∨ q_attempt r < q_max_attempts r).

Definition attempts_ok (d : QueueDb) : Prop := ∀ k r, run_queue d !! k = Some r → attempt_ok r.

Lemma row_change_attempt cfg a b :
  row_change cfg a b → (∀ r, a = Some r → attempt_ok r) → ∀ r, b = Some r → attempt_ok r.
Proof.
  induction 1 as [| | | | | | |alive now d r|]; intros Ha r0 Hr; try (injection Hr as <-);
    try (by apply (Ha r)); auto.
  - unfold attempt_ok. simpl. lia.
  - specialize (Ha r eq_refl). unfold reconcile_row. destruct (negb _); [done|].
    destruct (_ <=? _) eqn:E; [done|]. unfold attempt_ok in *. simpl. lia.
Qed.

(** No row is ever restarted more often than its [max_attempts] allows: the
    restart counter [reconcile_orphans] advances stays below it under every
    sequence of operations, and an orphan at its last attempt becomes dead
    instead of queued. *)
Theorem attempts_bounded cfg ops d alive now k r :
  attempts_ok d →
  run_queue (run_ops cfg ops d) !! k = Some r →
  attempt_ok r ∧
  (orphaned alive (run_ops cfg ops d) r = true →
   ∃ r', run_queue (reconcile_orphans alive now (run_ops cfg ops d)).1 !! k = Some r' ∧
     ((q_status r' = q_dead ∧ q_max_attempts r ≤ q_attempt r + 1) ∨
      (q_status r' = q_queued ∧ q_attempt r' = q_attempt r + 1 ∧ q_attempt r' < q_max_attempts r'))).
Proof.
  intros Hd Hr. split.
  - revert r Hr. apply (run_ops_change cfg (λ a b, (∀ r, a = Some r → attempt_ok r) →
      ∀ r, b = Some r → attempt_ok r)); [by auto|by auto|apply row_change_attempt|apply Hd].
  - intros Ho. eexists. split.
    { simpl. rewrite lookup_fmap, Hr. reflexivity. }
    unfold reconcile_row. rewrite Ho. simpl.
    destruct (_ <=? _) eqn:E; simpl; [left|right]; split_and!; try done; lia.
Qed.

(** ** The in-flight cap *)

Definition in_flight_p (t : string) (k : string * string * string) (r : QRow) : bool :=
  bool_decide (key_tenant k = t) && in_flight (q_status r).

(** The larger of what a tenant already has in flight and its cap. *)
Definition cap_bound (d : QueueDb) (t : string) (M : Z) : Prop :=
  in_flight_all d t ≤ M ∧ ∀ l, tenant_limits d !! t = Some l → max_in_flight l ≤ M.

Lemma count_rows_queue p d d' : run_queue d = run_queue d' → count_rows p d = count_rows p d'.
Proof. unfold count_rows. by intros ->. Qed.

Lemma in_flight_update d d' k r r' t :
  run_queue d !! k = Some r →
  run_queue d' = <[k := r']> (run_queue d) →
  (in_flight (q_status r') = true → in_flight (q_status r) = true) →
  in_flight_all d' t ≤ in_flight_all d t.
Proof.
  intros Hr E Hi. unfold in_flight_all.
  rewrite (count_rows_queue _ d' (d <| run_queue := <[k := r']> (run_queue d) |>)) by done.
  rewrite (count_update _ _ _ _ _ Hr). unfold indicator.
  destruct (bool_decide _), (in_flight (q_status r')), (in_flight (q_status r)); simpl; try lia;
    by specialize (Hi eq_refl).
Qed.

Lemma enqueue_in_flight cfg now rt i d t :
  in_flight_all (enqueue cfg now rt i d).1 t ≤ in_flight_all d t.
Proof.
  unfold enqueue. destruct (tenant_id (i_tenant_id i)) as [u|e]; simpl; [|lia].
  destruct (negb _); simpl; [lia|].
  destruct (run_queue d !! (u, i_run_id i, i_kind i)) as [old|] eqn:E; simpl.
  - destruct (rt && _); simpl; [|done]. destruct (_ <=? _); simpl; [done|].
    eapply (in_flight_update d); [exact E|reflexivity|done].
  - destruct (_ <=? _); simpl; [done|].
    etrans; [apply Z.eq_le_incl, (count_rows_queue _ _ (d <| run_queue :=
      <[(u, i_run_id i, i_kind i) := fresh_row cfg now 0 i]> (run_queue d) |>)); reflexivity|].
    rewrite count_new by done. unfold fresh_row. simpl. change (in_flight q_queued) with false.
    rewrite andb_false_r. unfold in_flight_all. simpl. lia.
Qed.

Lemma claim_one_bound cfg w now d t M :
  cap_bound d t M → cap_bound (_claim_one cfg w now d).1 t M.
Proof.
  intros [Hn Hl]. destruct (_claim_one cfg w now d) as [d' [c|]] eqn:E; simpl.
  2: { unfold _claim_one in E. destruct (maintenance d) as [[]|]; try (by injection E as <-).
       destruct (pick now d) as [[[k' r] x]|]; [discriminate|]. by injection E as <-. }
  apply claim_one_Some in E as (k & r & x & Hp & _ & _ & _ & ->).
  apply pick_spec in Hp as [Hp _]. apply candidates_spec in Hp as (Hr & s & Hs & _).
  unfold claimable in Hs. destruct (tenant_sched d !! _); simpl in Hs; [|done].
  destruct (tenant_limits d !! key_tenant k) as [l|] eqn:L; simpl in Hs; [|done].
  destruct (_ && _) eqn:B in Hs; [|done]. apply andb_true_iff in B as [_ B]. apply Z.ltb_lt in B.
  split; [|exact Hl]. simpl. etrans; [apply Z.eq_le_incl, (count_rows_queue _ _
    (d <| run_queue := <[k := claim_row w now r]> (run_queue d) |>)); reflexivity|].
  rewrite (count_update _ _ _ _ _ Hr). fold (in_flight_all d t). unfold indicator. simpl.
  change (in_flight q_claimed) with true.
  case_bool_decide as Et; simpl.
  - subst t. specialize (Hl _ L). destruct (in_flight (q_status r)); simpl; lia.
  - lia.
Qed.

Lemma claim_bound cfg w clock d t M : cap_bound d t M → cap_bound (claim cfg w clock d).1 t M.
Proof.
  revert d. induction clock as [|now clock IH]; intros d H; simpl; [done|].
  pose proof (claim_one_bound cfg w now d t M H) as H1.
  destruct (_claim_one cfg w now d) as [d1 [c|]]; simpl in *; [|done].
  pose proof (IH d1 H1). by destruct (claim cfg w clock d1).
Qed.

Lemma ensure_limits cfg u d t M :
  tenant_max_in_flight cfg ≤ M → cap_bound d t M → cap_bound (ensure_tenant cfg u d) t M.
Proof.
  intros Hc [Hn Hl]. split; [exact Hn|]. simpl. destruct (tenant_limits d !! u) eqn:E; [exact Hl|].
  intros l. destruct (decide (u = t)) as [->|N].
  - rewrite lookup_insert_eq. intros [= <-]. exact Hc.
  - rewrite lookup_insert_ne by done. apply Hl.
Qed.

Lemma enqueue_limits cfg now rt i d :
  tenant_limits (enqueue cfg now rt i d).1 = tenant_limits d ∨
  ∃ u, tenant_limits (enqueue cfg now rt i d).1 = tenant_limits (ensure_tenant cfg u d).
Proof.
  unfold enqueue. destruct (tenant_id (i_tenant_id i)) as [u|e]; [|by left].
  destruct (negb _); [by left|]. right. exists u.
  repeat case_match; try done.
Qed.

Lemma transition_in_flight now c st code from d t :
  (∀ s, s ∈ from → in_flight s = true) →
  in_flight_all (_transition now c st code from d).1 t ≤ in_flight_all d t ∧
  tenant_limits (_transition now c st code from d).1 = tenant_limits d.
Proof.
  intros Hf. unfold _transition. destruct (owned_row c from d) as [r|] eqn:E; simpl.
  - apply owned_row_Some in E as (E & _ & Hin). split; [|done].
    eapply (in_flight_update d); [exact E|reflexivity|auto].
  - destruct (run_queue d !! claim_key c); [destruct (_ && _)|]; split; simpl; (done || lia).
Qed.

Lemma reconcile_in_flight alive now d t :
  in_flight_all (reconcile_orphans alive now d).1 t ≤ in_flight_all d t.
Proof.
  apply count_fmap. intros k r. unfold reconcile_row. destruct (negb _); [done|].
  destruct (_ <=? _); simpl; [change (in_flight q_dead) with false|change (in_flight q_queued) with false];
    by rewrite andb_false_r.
Qed.

(** The caps an operation may install for [t] stay below [M]. *)
Definition op_cap_le (t : string) (M : Z) (o : qop) : Prop :=
  match o with OSetMax u n => u = t → n ≤ M | _ => True end.

Lemma exec_bound cfg o d t M :
  tenant_max_in_flight cfg ≤ M → op_cap_le t M o → cap_bound d t M → cap_bound (exec cfg o d) t M.
Proof.
  intros Hc Ho H. pose proof H as [Hn Hl]. destruct o as
    [now rt i|w clock|now c|now c|now c st code|due c code|u run kind|u n|m| | |alive now]; try exact H.
  - split; [etrans; [apply enqueue_in_flight|done]|].
    destruct (enqueue_limits cfg now rt i d) as [E|[u E]]; simpl; rewrite E; [done|].
    by apply ensure_limits.
  - by apply claim_bound.
  - simpl. unfold heartbeat_claim. destruct (owned_row _ _ _) as [r|] eqn:E; [|done].
    apply owned_row_Some in E as (E & _ & _). split; [|done].
    etrans; [|exact Hn]. eapply (in_flight_update d); [exact E|reflexivity|done].
  - assert (∀ s, s ∈ [q_claimed] → in_flight s = true) as Hf
      by (intros s Hs; by apply list_elem_of_singleton in Hs as ->).
    destruct (transition_in_flight now c q_running None [q_claimed] d t Hf) as [A B].
    split; simpl; unfold mark_running; [lia|by rewrite B].
  - destruct (transition_in_flight now c st code [q_claimed; q_running] d t elem_in_flight) as [A B].
    split; simpl; unfold finish; [lia|by rewrite B].
  - simpl. unfold requeue. destruct (owned_row _ _ _) as [r|] eqn:E; [|done].
    apply owned_row_Some in E as (E & _ & _). split; [|done].
    etrans; [|exact Hn]. eapply (in_flight_update d); [exact E|reflexivity|done].
  - split; [|exact Hl]. simpl. unfold request_cancel.
    destruct (run_queue d !! (u, run, kind)) as [r|] eqn:E.
    + etrans; [|exact Hn]. eapply (in_flight_update d); [exact E|simpl; by rewrite alter_alt, E|].
      by case_bool_decide.
    + etrans; [|exact Hn]. apply Z.eq_le_incl, count_rows_queue. simpl. by rewrite alter_alt, E.
  - split; [exact Hn|]. simpl. intros l. apply (ensure_limits cfg u d t M) in H as [_ H]; [|done].
    destruct (decide (u = t)) as [->|N].
    + simpl in H. rewrite lookup_alter_eq. destruct (tenant_limits d !! t); simpl in *.
      * destruct (tenant_limits d !! t); simpl; [|done]. intros [= <-]. by apply Ho.
      * rewrite lookup_insert_eq. intros [= <-]. by apply Ho.
    + rewrite lookup_alter_ne by done. apply H.
  - split; [|exact Hl]. etrans; [apply reconcile_in_flight|done].
Qed.

(** A tenant never has more rows claimed or running than the largest
    [max_in_flight] it was ever given, whatever sequence of submissions,
    claims by any number of workers, transitions, cancellations, cap changes
    and orphan recoveries the queue serves. *)
Theorem in_flight_bounded cfg ops d t M :
  cap_bound d t M → tenant_max_in_flight cfg ≤ M → Forall (op_cap_le t M) ops →
  in_flight_all (run_ops cfg ops d) t ≤ M.
Proof.
  intros H Hc Ho. enough (cap_bound (run_ops cfg ops d) t M) as [? _] by done.
  revert d H. induction Ho as [|o ops Ho _ IH]; intros d H; simpl; [done|].
  by apply IH, exec_bound.
Qed.

(** ** Deficit scheduling *)

Definition deficits_capped (cfg : QSettings) (d : QueueDb) : Prop :=
  ∀ u s, tenant_sched d !! u = Some s → deficit s ≤ sched_deficit_cap cfg.

Lemma charge_lookup cfg now t m u :
  charge cfg now t m !! u =
  s ← m !! u; Some (if decide (u = t)
    then mkSched (deficit s - _CLAIM_COST) (weight s) (Some now)
    else mkSched (Z.min (deficit s + weight s) (sched_deficit_cap cfg)) (weight s) (last_claim_at s)).
Proof. unfold charge. rewrite map_lookup_imap. by destruct (m !! u). Qed.

Lemma charge_capped cfg w now d : deficits_capped cfg d → deficits_capped cfg (_claim_one cfg w now d).1.
Proof.
  intros H. unfold _claim_one. destruct (maintenance d) as [[]|]; try done.
  destruct (pick now d) as [[[k r] x]|]; [|done]. intros u s. simpl. rewrite charge_lookup.
  destruct (tenant_sched d !! u) as [s0|] eqn:E; simpl; [|done]. specialize (H u s0 E).
  intros [= <-]. destruct (decide _); unfold _CLAIM_COST; simpl; lia.
Qed.

(** After [n] claims that all served other tenants, a tenant's deficit is
    what it had plus [n] times its weight, up to the cap. *)
Lemma claim_deficit cfg w clock d d' cs t s :
  claim cfg w clock d = (d', cs) →
  deficits_capped cfg d → tenant_sched d !! t = Some s → 0 ≤ weight s →
  Forall (λ c, k_tenant_id c ≠ t) cs →
  deficits_capped cfg d' ∧
  ∃ s', tenant_sched d' !! t = Some s' ∧
    deficit s' = Z.min (sched_deficit_cap cfg) (deficit s + Z.of_nat (length cs) * weight s).
Proof.
  revert d cs s. induction clock as [|now clock IH]; intros d cs s; simpl.
  - intros [= <- <-] Hc Hs Hw _. split; [done|]. exists s. specialize (Hc _ _ Hs). simpl. split; [done|lia].
  - intros H Hc Hs Hw HF. destruct (_claim_one cfg w now d) as [d1 [c|]] eqn:E1.
    + destruct (claim cfg w clock d1) as [d2 cs'] eqn:E2. injection H as <- <-.
      pose proof (charge_capped cfg w now d Hc) as Hc1. rewrite E1 in Hc1. simpl in Hc1.
      apply Forall_cons in HF as [Ht HF].
      apply claim_one_Some in E1 as (k & r & x & _ & _ & Hk & _ & ->).
      assert (key_tenant k ≠ t) as Hne by (subst k; exact Ht).
      destruct (IH _ _ (mkSched (Z.min (deficit s + weight s) (sched_deficit_cap cfg)) (weight s)
        (last_claim_at s)) E2 Hc1) as [Hd (s' & Hs' & Ed)]; try done.
      { simpl. rewrite charge_lookup, Hs. simpl. by rewrite decide_False by congruence. }
      split; [done|]. exists s'. split; [done|]. rewrite Ed. simpl length. rewrite Nat2Z.inj_succ.
      simpl. specialize (Hc _ _ Hs). nia.
    + injection H as <- <-. unfold _claim_one in E1.
      destruct (maintenance d) as [[]|]; try (injection E1 as <-);
        try (split; [done|]; exists s; specialize (Hc _ _ Hs); simpl; split; [done|lia]).
      destruct (pick now d) as [[[k r] x]|]; [discriminate|]. injection E1 as <-.
      split; [done|]. exists s. specialize (Hc _ _ Hs). simpl. split; [done|lia].
Qed.

(** No starvation by newer work: once the claims that passed a tenant over
    have raised its deficit to the cap, the next claim of an open queue is
    served, and never serves a row enqueued later than any claimable row of
    that tenant. *)
Theorem passed_over_tenant_not_overtaken cfg w clock d d' cs t s w' now k r :
  claim cfg w clock d = (d', cs) →
  Forall (λ c, k_tenant_id c ≠ t) cs →
  deficits_capped cfg d → tenant_sched d !! t = Some s → 0 ≤ weight s →
  sched_deficit_cap cfg ≤ deficit s + Z.of_nat (length cs) * weight s →
  maintenance d' = Some m_open → key_tenant k = t →
  run_queue d' !! k = Some r → is_Some (claimable now d' k r) →
  ∃ d'' c r', _claim_one cfg w' now d' = (d'', Some c) ∧ run_queue d' !! claim_key c = Some r' ∧
    q_status r' = q_queued ∧ q_enqueued_at r' ≤ q_enqueued_at r.
Proof.
  intros Hcl HF Hc Hs Hw Hcap Hm Hk Hr [s0 Hs0].
  destruct (claim_deficit _ _ _ _ _ _ _ _ Hcl Hc Hs Hw HF) as [Hc' (s' & Hs' & Ed)].
  assert ((k, r, deficit s0) ∈ candidates now d') as Hin by (apply candidates_spec; eauto).
  assert (s0 = s') as ->.
  { unfold claimable in Hs0. rewrite Hk, Hs' in Hs0. simpl in Hs0.
    destruct (tenant_limits d' !! t); simpl in Hs0; [|done].
    repeat case_match; congruence. }
  destruct (pick now d') as [[[k1 r1] x1]|] eqn:Hp.
  2: { apply pick_None in Hp. rewrite Hp in Hin. inversion Hin. }
  destruct (pick_spec _ _ _ _ _ Hp) as [Hin1 Hbest]. specialize (Hbest _ Hin).
  apply candidates_spec in Hin1 as (Hr1 & s1 & Hs1 & <-).
  eexists _, _, r1. split; [unfold _claim_one; rewrite Hm, Hp; reflexivity|].
  unfold claim_key. simpl. destruct k1 as [[t1 run1] kd1]. simpl. split; [done|].
  unfold claimable in Hs1.
  destruct (tenant_sched d' !! key_tenant (t1, run1, kd1)) as [s2|] eqn:E2; simpl in Hs1; [|done].
  destruct (tenant_limits d' !! key_tenant (t1, run1, kd1)); simpl in Hs1; [|done].
  destruct (bool_decide _ && _ && _) eqn:B; [|done]. injection Hs1 as <-.
  apply andb_true_iff in B as [B _]. apply andb_true_iff in B as [B _]. apply bool_decide_eq_true in B.
  split; [done|]. pose proof (Hc' _ _ E2).
  unfold better in Hbest. simpl in Hbest. apply orb_false_iff in Hbest as [B1 B2].
  apply Z.ltb_ge in B1. apply andb_false_iff in B2 as [B2|B2]; [apply Z.eqb_neq in B2|apply Z.ltb_ge in B2]; lia.
Qed.

(** ** Concrete runs *)

Definition w_cfg : QSettings := mkQSettings 2 3 2 10.
Definition w_item (t run : string) : QueueItem := mkItem t run "run" [] 0 0 None None.
Definition w_empty : QueueDb := mkQueueDb ∅ ∅ ∅ (Some m_open) ∅.
(** Two runs of acme, then one of beta. *)
Definition w_loaded : QueueDb := run_ops w_cfg
  [OEnqueue 1 false (w_item "acme" "a1"); OEnqueue 2 false (w_item "acme" "a2");
   OEnqueue 3 false (w_item "beta" "b1")] w_empty.
(** w1 dies holding a1; b1 is then served before a1 is queued again. *)
Definition w_crash : list qop := [OReconcile (λ _, false) 20; OClaim "w3" [5000000]].
Definition w_first : QueueDb * option Claim := _claim_one w_cfg "w1" 10 w_loaded.
Definition w_again : QueueDb * option Claim := _claim_one w_cfg "w2" 5000000
  (run_ops w_cfg w_crash w_first.1).

Example enqueue_twice_refused :
  (enqueue w_cfg 9 true (w_item "acme" "a1") w_loaded).2 = Err ValueError.
Proof. vm_compute. reflexivity. Qed.

Example claims_alternate :
  map k_run_id (claim w_cfg "w1" [10; 11; 12] w_loaded).2 = ["a1"; "b1"; "a2"].
Proof. vm_compute. reflexivity. Qed.

Lemma stale_claim_refused_witness :
  let c1 := mkQClaim "acme" "a1" "run" 1 0 [] in
  w_first.2 = Some c1 ∧ refused c1 (run_ops w_cfg [OReconcile (λ _, false) 30] w_again.1).
Proof.
  split; [vm_compute; reflexivity|].
  apply (stale_claim_refused w_cfg "w1" "w2" 10 5000000 w_loaded w_first.1 _
    w_crash w_again.1 (mkQClaim "acme" "a1" "run" 2 1 [])).
  - vm_compute. reflexivity.
  - vm_compute. reflexivity.
  - reflexivity.
Defined.

Lemma attempts_bounded_witness :
  ∃ r, run_queue (run_ops w_cfg [OClaim "w1" [10]] w_loaded) !! ("acme", "a1", "run") = Some r ∧
    attempt_ok r.
Proof.
  eexists. split; [vm_compute; reflexivity|].
  eapply (attempts_bounded w_cfg [OClaim "w1" [10]] w_loaded (λ _, false) 20 ("acme", "a1", "run")).
  - intros k r Hr. revert k r Hr. apply map_Forall_lookup, map_Forall_to_list. vm_compute.
    repeat constructor; try (intros E; discriminate E).
  - vm_compute. reflexivity.
Defined.

Lemma in_flight_bounded_witness :
  in_flight_all (run_ops w_cfg [OClaim "w1" [10; 10; 10; 10]; OSetMax "acme" 1] w_loaded) "acme" ≤ 2.
Proof.
  apply in_flight_bounded.
  - split; [vm_compute; discriminate|]. intros l Hl. vm_compute in Hl. injection Hl as <-. vm_compute. discriminate.
  - vm_compute. discriminate.
  - repeat constructor. simpl. lia.
Defined.

(** beta is passed over once, reaches the cap 2 with weight 2, and its row is
    then served before acme's newer one. *)
Definition w_sched : QueueDb :=
  w_loaded <| tenant_sched := <["beta" := mkSched 0 2 None]> (tenant_sched w_loaded) |>.

Lemma passed_over_tenant_not_overtaken_witness :
  ∃ d'' c r', _claim_one w_cfg "w2" 20 (claim w_cfg "w1" [10] w_sched).1 = (d'', Some c) ∧
    run_queue (claim w_cfg "w1" [10] w_sched).1 !! claim_key c = Some r' ∧
    q_status r' = q_queued ∧ q_enqueued_at r' ≤ 3.
Proof.
  eapply (passed_over_tenant_not_overtaken w_cfg "w1" [10] w_sched _ (claim w_cfg "w1" [10] w_sched).2
    "beta" (mkSched 0 2 None) "w2" 20 ("beta", "b1", "run")
    (fresh_row w_cfg 3 0 (w_item "beta" "b1"))).
  - apply surjective_pairing.
  - vm_compute. repeat constructor; discriminate.
  - unfold deficits_capped. apply map_Forall_lookup, map_Forall_to_list. vm_compute.
    repeat constructor; discriminate.
  - vm_compute. reflexivity.
  - vm_compute. discriminate.
  - vm_compute. discriminate.
  - vm_compute. reflexivity.
  - reflexivity.
  - vm_compute. reflexivity.
  - vm_compute. eauto.
Defined.
