(* ===== verification/Idempotency.v ===== *)
(** * Idempotency-Key results (persistence/idempotency.py)

    [control.db]'s [idempotency_keys] table as a finite map from the primary
    key, and [IdempotencyStore.reserve], [complete] and [release], each one
    IMMEDIATE transaction.  The clock is whole seconds and is an argument of
    [reserve], which reads it under the write lock.  The bounded sweep has no
    ORDER BY, so the order in which SQLite visits the rows is an argument. *)
From S2P Require Import Prelude.
From Stdlib Require Import ZArith Lia.
Open Scope Z_scope.

Definition LEASE_SECONDS : Z := 30.
Definition SWEEP_LIMIT : nat := 500.

Record KeyScope := mkScope { s_tenant_id : string; s_program_id : string; s_step_id : string; s_key : string }.
#[export] Instance KeyScope_eq_dec : EqDecision KeyScope. Proof. solve_decision. Defined.
#[export] Instance KeyScope_countable : Countable KeyScope.
Proof.
  refine (inj_countable' (λ s, (s_tenant_id s, s_program_id s, s_step_id s, s_key s))
    (λ x, mkScope x.1.1.1 x.1.1.2 x.1.2 x.2) _). by intros [].
Defined.

(** The state and the run id the CHECK constraint ties to it. *)
Inductive KeyState := pending | complete_with (run_id : string).
#[export] Instance KeyState_eq_dec : EqDecision KeyState. Proof. solve_decision. Defined.

Record KeyRow := mkKeyRow {
  kr_hash : string; kr_state : KeyState; kr_created : Z; kr_expires : Z }.

Inductive Outcome := RESERVED | REPLAY | TAKEN_OVER | IN_PROGRESS | MISMATCH.
Inductive Completion := COMPLETED | SUPERSEDED | LOST.
Record Reservation := mkRes { outcome : Outcome; res_run_id : option string; lease : option Z }.

Notation keys_db := (gmap KeyScope KeyRow).

Definition expired (now : Z) (r : KeyRow) : bool := kr_expires r <=? now.

Definition is_expired_key (now : Z) (d : keys_db) (s : KeyScope) : bool :=
  match d !! s with Some r => expired now r | None => false end.

(** DELETE ... WHERE rowid IN (SELECT rowid ... WHERE expires_at <= now LIMIT 500) *)
Definition sweep (scan : list KeyScope) (now : Z) (d : keys_db) : keys_db :=
  foldr (λ s m, delete s m) d (take SWEEP_LIMIT (List.filter (is_expired_key now d) scan)).

Definition drop_expired (s : KeyScope) (now : Z) (d : keys_db) : keys_db :=
  if is_expired_key now d s then delete s d else d.

Definition reserve (ttl : Z) (scan : list KeyScope) (now : Z) (s : KeyScope) (request_hash : string)
    (d0 : keys_db) : keys_db * Reservation :=
  let d := drop_expired s now (sweep scan now d0) in
  match d !! s with
  | None => (<[s := mkKeyRow request_hash pending now (now + ttl)]> d, mkRes RESERVED None (Some now))
  | Some r =>
      if negb (String.eqb (kr_hash r) request_hash) then (d, mkRes MISMATCH None None)
      else match kr_state r with
           | complete_with run => (d, mkRes REPLAY (Some run) None)
           | pending =>
               if now - kr_created r <? LEASE_SECONDS then (d, mkRes IN_PROGRESS None None)
               else (<[s := mkKeyRow (kr_hash r) pending now (now + ttl)]> d,
                     mkRes TAKEN_OVER None (Some now))
           end
  end.

(** The row a request holds: pending, same hash, same lease. *)
Definition held (s : KeyScope) (request_hash : string) (l : Z) (d : keys_db) : option KeyRow :=
  r ← d !! s;
  if bool_decide (kr_state r = pending) && String.eqb (kr_hash r) request_hash && (kr_created r =? l)
  then Some r else None.

Definition complete (s : KeyScope) (request_hash run_id : string) (l : Z) (d : keys_db)
    : keys_db * Completion :=
  match held s request_hash l d with
  | Some r => (<[s := mkKeyRow (kr_hash r) (complete_with run_id) (kr_created r) (kr_expires r)]> d,
               COMPLETED)
  | None =>
      (d, match d !! s with
          | None => LOST
          | Some r =>
              if negb (String.eqb (kr_hash r) request_hash) then LOST
              else match kr_state r with
                   | complete_with run => if String.eqb run run_id then COMPLETED else LOST
                   | pending => SUPERSEDED
                   end
          end)
  end.

Definition release (s : KeyScope) (request_hash : string) (l : Z) (d : keys_db) : keys_db :=
  match held s request_hash l d with Some _ => delete s d | None => d end.

(** ** Histories *)

Inductive kop : Type :=
  | KReserve (scan : list KeyScope) (now : Z) (s : KeyScope) (h : string)
  | KComplete (s : KeyScope) (h run : string) (l : Z)
  | KRelease (s : KeyScope) (h : string) (l : Z).

Definition kexec (ttl : Z) (o : kop) (d : keys_db) : keys_db :=
  match o with
  | KReserve scan now s h => (reserve ttl scan now s h d).1
  | KComplete s h run l => (complete s h run l d).1
  | KRelease s h l => release s h l d
  end.

Definition krun (ttl : Z) (ops : list kop) (d : keys_db) : keys_db := fold_left (λ d o, kexec ttl o d) ops d.

(** The clock the store reads never steps back; [clock_after t ops] is its
    last reading. *)
Fixpoint clock_after (t : Z) (ops : list kop) : Z :=
  match ops with
  | [] => t
  | KReserve _ now _ _ :: ops' => clock_after now ops'
  | _ :: ops' => clock_after t ops'
  end.
Fixpoint clock_ok (t : Z) (ops : list kop) : Prop :=
  match ops with
  | [] => True
  | KReserve _ now _ _ :: ops' => t ≤ now ∧ clock_ok now ops'
  | _ :: ops' => clock_ok t ops'
  end.

(** ** The row of one key under the operations *)

Lemma sweep_lookup scan now d s :
  sweep scan now d !! s = d !! s ∨ (sweep scan now d !! s = None ∧ is_expired_key now d s = true).
Proof.
  unfold sweep.
  assert (∀ x, x ∈ take SWEEP_LIMIT (List.filter (is_expired_key now d) scan) →
               is_expired_key now d x = true) as H.
  { intros x Hx. apply elem_of_take in Hx as (i & Hi & _).
    apply list_elem_of_lookup_2, list_elem_of_In, filter_In in Hi. tauto. }
  induction (take _ _) as [|x l IH]; simpl; [by left|].
  destruct (decide (x = s)) as [->|N].
  - right. split; [apply lookup_delete_eq|]. apply H. left.
  - rewrite lookup_delete_ne by done. apply IH. intros y Hy. apply H. by right.
Qed.

(** After the two deletes the key's row is the stored one, unless expired. *)
Lemma cleaned_lookup scan now s d :
  drop_expired s now (sweep scan now d) !! s =
  (r ← d !! s; if expired now r then None else Some r).
Proof.
  unfold drop_expired, is_expired_key at 1.
  destruct (sweep_lookup scan now d s) as [E|[E X]]; rewrite E.
  - destruct (d !! s) as [r|] eqn:Er; simpl; [|by rewrite E].
    destruct (expired now r); [apply lookup_delete_eq|done].
  - rewrite E. unfold is_expired_key in X. destruct (d !! s); simpl; [by rewrite X|done].
Qed.

Lemma cleaned_other scan now s s' d :
  s ≠ s' →
  drop_expired s' now (sweep scan now d) !! s = d !! s ∨
  (drop_expired s' now (sweep scan now d) !! s = None ∧ is_expired_key now d s = true).
Proof.
  intros N. unfold drop_expired. destruct (is_expired_key now _ s').
  - rewrite lookup_delete_ne by done. apply sweep_lookup.
  - apply sweep_lookup.
Qed.

(** What one operation may do to one key's row. *)
Inductive key_change (ttl : Z) (s : KeyScope) (d : keys_db) : kop → option KeyRow → Prop :=
  | kc_same o : key_change ttl s d o (d !! s)
  | kc_expired scan now s' h r :
      d !! s = Some r → expired now r = true → key_change ttl s d (KReserve scan now s' h) None
  | kc_reserved scan now h :
      (∀ r, d !! s = Some r → expired now r = true) →
      key_change ttl s d (KReserve scan now s h) (Some (mkKeyRow h pending now (now + ttl)))
  | kc_taken scan now h r :
      d !! s = Some r → kr_state r = pending → kr_hash r = h → LEASE_SECONDS ≤ now - kr_created r →
      key_change ttl s d (KReserve scan now s h) (Some (mkKeyRow h pending now (now + ttl)))
  | kc_complete h run r :
      d !! s = Some r → kr_state r = pending → kr_hash r = h →
      key_change ttl s d (KComplete s h run (kr_created r))
        (Some (mkKeyRow h (complete_with run) (kr_created r) (kr_expires r)))
  | kc_release h r :
      d !! s = Some r → kr_state r = pending → kr_hash r = h →
      key_change ttl s d (KRelease s h (kr_created r)) None.

Lemma held_Some s h l d r :
  held s h l d = Some r ↔ d !! s = Some r ∧ kr_state r = pending ∧ kr_hash r = h ∧ kr_created r = l.
Proof.
  unfold held. destruct (d !! s) as [r0|]; simpl.
  - destruct (_ && _) eqn:B; split.
    + intros [= <-]. apply andb_true_iff in B as [B B3]. apply andb_true_iff in B as [B1 B2].
      apply bool_decide_eq_true in B1. apply String.eqb_eq in B2. apply Z.eqb_eq in B3. done.
    + intros ([= <-] & _). done.
    + done.
    + intros ([= <-] & H1 & H2 & H3). subst. rewrite String.eqb_refl, Z.eqb_refl, H1 in B. done.
  - split; [done|]. by intros [? _].
Qed.

Lemma reserve_cases ttl scan now s h d :
  let d1 := (reserve ttl scan now s h d).1 in
  (∀ s', s' ≠ s → d1 !! s' = drop_expired s now (sweep scan now d) !! s') ∧
  key_change ttl s d (KReserve scan now s h) (d1 !! s).
Proof.
  unfold reserve. pose proof (cleaned_lookup scan now s d) as E.
  destruct (drop_expired s now (sweep scan now d) !! s) as [r|] eqn:Er; simpl.
  - destruct (d !! s) as [r0|] eqn:E0; simpl in E; [|done].
    destruct (expired now r0) eqn:X; [done|]. injection E as <-.
    destruct (String.eqb (kr_hash r) h) eqn:Eh; simpl.
    + apply String.eqb_eq in Eh. destruct (kr_state r) eqn:St; simpl.
      * destruct (_ <? _) eqn:L; simpl.
        -- split; [done|]. rewrite Er, <- E0. constructor.
        -- split; [intros s' N; by rewrite lookup_insert_ne|]. rewrite lookup_insert_eq, Eh.
           apply (kc_taken _ _ _ _ _ _ r); [done..|lia].
      * split; [done|]. rewrite Er, <- E0. constructor.
    + split; [done|]. rewrite Er, <- E0. constructor.
  - split; [intros s' N; by rewrite lookup_insert_ne|]. rewrite lookup_insert_eq. constructor.
    intros r Hr. rewrite Hr in E. simpl in E. by destruct (expired now r).
Qed.

Lemma kexec_change ttl o d s : key_change ttl s d o (kexec ttl o d !! s).
Proof.
  destruct o as [scan now s' h|s' h run l|s' h l]; simpl.
  - destruct (reserve_cases ttl scan now s' h d) as [H1 H2].
    destruct (decide (s = s')) as [->|N]; [done|]. rewrite (H1 s N).
    destruct (cleaned_other scan now s s' d N) as [E|[E X]]; rewrite E; [constructor|].
    unfold is_expired_key in X. destruct (d !! s) as [r|] eqn:Er; [|done]. by apply (kc_expired _ _ _ _ _ _ _ r).
  - unfold complete. destruct (held s' h l d) as [r|] eqn:H; simpl; [|constructor].
    apply held_Some in H as (E & St & Hh & <-).
    destruct (decide (s = s')) as [->|N].
    + rewrite lookup_insert_eq, Hh. by constructor.
    + rewrite lookup_insert_ne by done. constructor.
  - unfold release. destruct (held s' h l d) as [r|] eqn:H; simpl; [|constructor].
    apply held_Some in H as (E & St & Hh & <-).
    destruct (decide (s = s')) as [->|N].
    + rewrite lookup_delete_eq. by apply kc_release.
    + rewrite lookup_delete_ne by done. constructor.
Qed.

(** ** Invariants along a history *)

Definition clock_step (t : Z) (o : kop) : Z := match o with KReserve _ now _ _ => now | _ => t end.
Definition step_ok (t : Z) (o : kop) : Prop := match o with KReserve _ now _ _ => t ≤ now | _ => True end.

Lemma krun_inv ttl (good : kop → Prop) (I : Z → keys_db → Prop) t ops d :
  (∀ t o d, good o → step_ok t o → I t d → I (clock_step t o) (kexec ttl o d)) →
  Forall good ops → clock_ok t ops → I t d → I (clock_after t ops) (krun ttl ops d).
Proof.
  intros Hs HF. revert t d. induction HF as [|o ops Ho _ IH]; intros t d Hc HI; simpl; [done|].
  pose proof (Hs t o d Ho) as H1.
  destruct o; simpl in *; (destruct Hc as [Hc1 Hc2] || rename Hc into Hc2); apply IH; auto.
Qed.

Lemma clock_after_ge t ops : clock_ok t ops → t ≤ clock_after t ops.
Proof.
  revert t. induction ops as [|[] ops IH]; intros t; simpl; [lia| |apply IH..].
  intros [H1 H2]. specialize (IH _ H2). lia.
Qed.

(** A reservation's row, right after it was made. *)
Lemma reserve_lease ttl scan now s h d d' res l :
  reserve ttl scan now s h d = (d', res) → lease res = Some l →
  l = now ∧ d' !! s = Some (mkKeyRow h pending now (now + ttl)).
Proof.
  unfold reserve. destruct (_ !! s) as [r|].
  - destruct (String.eqb (kr_hash r) h) eqn:Eh; simpl; [|by intros [= <- <-]].
    apply String.eqb_eq in Eh. destruct (kr_state r); [|by intros [= <- <-]].
    destruct (_ <? _); intros [= <- <-]; simpl; [done|]. intros [= <-].
    by rewrite lookup_insert_eq, Eh.
  - intros [= <- <-]; simpl. intros [= <-]. by rewrite lookup_insert_eq.
Qed.

(** A lease is only given out once the row before it, if any, is over. *)
Lemma reserve_lease_over ttl scan now s h d d' res l :
  reserve ttl scan now s h d = (d', res) → lease res = Some l →
  ∀ r, d !! s = Some r → expired now r = true ∨ LEASE_SECONDS ≤ now - kr_created r.
Proof.
  unfold reserve. rewrite cleaned_lookup. intros H L r Hr. rewrite Hr in H. simpl in H.
  destruct (expired now r); [by left|]. right.
  destruct (negb _); [by injection H as <- <-|].
  destruct (kr_state r); [|by injection H as <- <-].
  destruct (_ <? _) eqn:E; [by injection H as <- <-|]. lia.
Qed.

(** While a lease was not superseded its row keeps it; afterwards the clock
    is past it. *)
Definition lease_live (ttl : Z) (s : KeyScope) (h : string) (l t : Z) (d : keys_db) : Prop :=
  l ≤ t ∧ (l < t ∨ ∃ r, d !! s = Some r ∧ kr_created r = l ∧ kr_expires r = l + ttl ∧ kr_hash r = h).

Lemma lease_live_step ttl s h l t o d :
  0 < ttl → o ≠ KRelease s h l → step_ok t o → lease_live ttl s h l t d →
  lease_live ttl s h l (clock_step t o) (kexec ttl o d).
Proof.
  intros Httl No Hk [Hle H].
  assert (l ≤ clock_step t o) by (destruct o; simpl in *; lia).
  split; [done|].
  destruct H as [H|(r & Hr & Hc & He & Hh)]; [left; destruct o; simpl in *; lia|].
  destruct (kexec_change ttl o d s) as [o|scan now s' h' r' Hr' X|scan now h' X|scan now h' r' Hr' _ _ X
    |h' run r' Hr' St Hh'|h' r' Hr' St Hh']; simpl in *.
  - right. eauto.
  - left. assert (r' = r) as -> by congruence. apply Z.leb_le in X. lia.
  - left. specialize (X r Hr). apply Z.leb_le in X. lia.
  - left. assert (r' = r) as -> by congruence. unfold LEASE_SECONDS in X. lia.
  - right. assert (r' = r) as -> by congruence. eexists. split; [done|]. simpl. subst. done.
  - assert (r' = r) as -> by congruence. subst. done.
Qed.

(** Every row of the key is younger than [l]. *)
Definition lease_past (s : KeyScope) (l t : Z) (d : keys_db) : Prop :=
  l < t ∧ ∀ r, d !! s = Some r → l < kr_created r.

Lemma lease_past_step ttl s l t o d :
  step_ok t o → lease_past s l t d → lease_past s l (clock_step t o) (kexec ttl o d).
Proof.
  intros Hk [Ht H]. split; [destruct o; simpl in *; lia|].
  destruct (kexec_change ttl o d s) as [o|scan now s' h' r' Hr' X|scan now h' X|scan now h' r' Hr' _ _ X
    |h' run r' Hr' St Hh'|h' r' Hr' St Hh']; simpl in *; intros r Hr; try discriminate; eauto;
    injection Hr as <-; simpl; try lia; auto.
Qed.

(** A superseded lease is powerless: once another request reserved the key
    after it (a takeover, or a fresh row after expiry), the earlier request's
    [complete] and [release] change nothing, whatever else is done before or
    after, and its lease differs from the new one.  Only the holder itself
    releases its own lease. *)
Theorem superseded_lease_powerless ttl scan1 t1 s h d d1 res1 ops scan2 t2 h2 d2 res2 ops' :
  0 < ttl →
  reserve ttl scan1 t1 s h d = (d1, res1) → lease res1 = Some t1 →
  clock_ok t1 ops → KRelease s h t1 ∉ ops → clock_after t1 ops ≤ t2 →
  reserve ttl scan2 t2 s h2 (krun ttl ops d1) = (d2, res2) → lease res2 = Some t2 →
  clock_ok t2 ops' →
  let d' := krun ttl ops' d2 in
  t1 < t2 ∧ release s h t1 d' = d' ∧ ∀ run, (complete s h run t1 d').1 = d'.
Proof.
  intros Httl R1 L1 Hc No Hle R2 L2 Hc' d'.
  destruct (reserve_lease _ _ _ _ _ _ _ _ _ R1 L1) as [_ E1].
  assert (lease_live ttl s h t1 (clock_after t1 ops) (krun ttl ops d1)) as HA.
  { apply (krun_inv ttl (λ o, o ≠ KRelease s h t1)); [intros; by apply lease_live_step| |done|].
    - apply Forall_forall. intros o Ho ->. by apply No.
    - split; [lia|]. right. by eexists. }
  assert (t1 < t2) as Hlt.
  { destruct HA as [_ [?|(r & Hr & Hcr & He & _)]]; [lia|].
    destruct (reserve_lease_over _ _ _ _ _ _ _ _ _ R2 L2 r Hr) as [X|X].
    - apply Z.leb_le in X. lia.
    - unfold LEASE_SECONDS in X. lia. }
  assert (lease_past s t1 (clock_after t2 ops') d') as [_ HB].
  { apply (krun_inv ttl (λ _, True)); [intros; by apply lease_past_step|by apply Forall_true|done|].
    split; [done|]. intros r. destruct (reserve_lease _ _ _ _ _ _ _ _ _ R2 L2) as [_ ->].
    intros [= <-]. done. }
  assert (held s h t1 d' = None) as Hn.
  { destruct (held s h t1 d') as [r|] eqn:E; [|done]. apply held_Some in E as (E & _ & _ & Er).
    specialize (HB r E). lia. }
  split; [done|]. unfold release, complete. by rewrite Hn.
Qed.

(** A row's entry is unchanged while it is complete and not expired. *)
Lemma complete_row_stays ttl s r run t o d :
  kr_state r = complete_with run → clock_step t o < kr_expires r → step_ok t o →
  d !! s = Some r → kexec ttl o d !! s = Some r.
Proof.
  intros St Hx Hk Hr.
  destruct (kexec_change ttl o d s) as [o|scan now s' h' r' Hr' X|scan now h' X|scan now h' r' Hr' St' _ X
    |h' run' r' Hr' St' Hh'|h' r' Hr' St' Hh']; simpl in *; try congruence.
  - assert (r' = r) as -> by congruence. apply Z.leb_le in X. lia.
  - specialize (X r Hr). apply Z.leb_le in X. lia.
Qed.

Lemma complete_row_stays_run ttl s r run t ops d :
  kr_state r = complete_with run → clock_ok t ops → clock_after t ops < kr_expires r →
  d !! s = Some r → krun ttl ops d !! s = Some r.
Proof.
  intros St. revert t d. induction ops as [|o ops IH]; intros t d Hc Hx Hr; simpl; [done|].
  assert (step_ok t o ∧ clock_ok (clock_step t o) ops ∧ clock_after (clock_step t o) ops < kr_expires r)
    as (H1 & H2 & H3) by (destruct o; simpl in *; tauto).
  apply (IH (clock_step t o)); try done. apply (complete_row_stays ttl s r run t); try done.
  pose proof (clock_after_ge _ _ H2). lia.
Qed.

Lemma complete_COMPLETED s h run l d d' :
  complete s h run l d = (d', COMPLETED) →
  ∃ r, d' !! s = Some r ∧ kr_state r = complete_with run ∧ kr_hash r = h.
Proof.
  unfold complete. destruct (held s h l d) as [r|] eqn:H.
  - intros [= <-]. apply held_Some in H as (_ & _ & Hh & _). eexists.
    split; [apply lookup_insert_eq|]. done.
  - destruct (d !! s) as [r|] eqn:Hr; [|done].
    destruct (String.eqb (kr_hash r) h) eqn:Eh; simpl; [|done].
    apply String.eqb_eq in Eh. destruct (kr_state r) as [|run'] eqn:St; [done|].
    destruct (String.eqb run' run) eqn:Er; [|done]. apply String.eqb_eq in Er as ->.
    intros [= <-]. eauto.
Qed.

(** A completed key answers with the recorded run until it expires: whatever
    other requests do in between, a request with the same body is a replay of
    that run, one with another body is refused as a mismatch, and nobody can
    record a different run for it. *)
Theorem completed_key_replays ttl s h run l d d1 r t ops scan now h' run' l' :
  complete s h run l d = (d1, COMPLETED) → d1 !! s = Some r →
  clock_ok t ops → clock_after t ops ≤ now → now < kr_expires r →
  let d2 := krun ttl ops d1 in
  (reserve ttl scan now s h' d2).2 =
    (if String.eqb h h' then mkRes REPLAY (Some run) None else mkRes MISMATCH None None) ∧
  release s h' l' d2 = d2 ∧
  complete s h' run' l' d2 =
    (d2, if String.eqb h h' && String.eqb run run' then COMPLETED else LOST).
Proof.
  intros Hc Hr Ho Hle Hx d2.
  apply complete_COMPLETED in Hc as (r' & Hr' & St & Hh). assert (r' = r) as -> by congruence.
  assert (d2 !! s = Some r) as E
    by (apply (complete_row_stays_run ttl s r run t); try done; lia).
  assert (expired now r = false) as X by (apply Z.leb_gt; lia).
  assert (held s h' l' d2 = None) as Hn by (unfold held; by rewrite E; simpl; rewrite St).
  split_and!.
  - unfold reserve. rewrite cleaned_lookup, E. simpl. rewrite X, Hh, St. by destruct (String.eqb h h').
  - unfold release. by rewrite Hn.
  - unfold complete. rewrite Hn, E, Hh, St. simpl. by destruct (String.eqb h h').
Qed.

(** Inside its lease a reservation is exclusive: until the holder completes
    or releases it, no other request gets a lease for the key for 30 seconds;
    the same body is told [IN_PROGRESS], another body [MISMATCH]. *)
Theorem lease_excludes_others ttl scan1 t1 s h d d1 res1 ops scan2 t2 h2 :
  LEASE_SECONDS ≤ ttl →
  reserve ttl scan1 t1 s h d = (d1, res1) → lease res1 = Some t1 →
  clock_ok t1 ops → KRelease s h t1 ∉ ops → (∀ run, KComplete s h run t1 ∉ ops) →
  clock_after t1 ops ≤ t2 → t2 < t1 + LEASE_SECONDS →
  (reserve ttl scan2 t2 s h2 (krun ttl ops d1)).2 =
    mkRes (if String.eqb h h2 then IN_PROGRESS else MISMATCH) None None.
Proof.
  intros Httl R1 L1 Hc No Nc Hle Hlt.
  destruct (reserve_lease _ _ _ _ _ _ _ _ _ R1 L1) as [_ E1].
  assert (clock_after t1 ops < t1 + LEASE_SECONDS →
    krun ttl ops d1 !! s = Some (mkKeyRow h pending t1 (t1 + ttl))) as HI.
  { apply (krun_inv ttl (λ o, o ≠ KRelease s h t1 ∧ ∀ run, o ≠ KComplete s h run t1)
      (λ t d, t < t1 + LEASE_SECONDS → d !! s = Some (mkKeyRow h pending t1 (t1 + ttl)))); try done.
    - intros t o d0 [No1 Nc1] Hk Hd Ht.
      assert (t < t1 + LEASE_SECONDS) as Ht' by (destruct o; simpl in *; lia). specialize (Hd Ht').
      destruct (kexec_change ttl o d0 s) as [o|scan now s' h' r' Hr' X|scan now h' X|scan now h' r' Hr' St' _ X
        |h' run' r' Hr' St' Hh'|h' r' Hr' St' Hh']; simpl in *; try done.
      + rewrite Hd in Hr'. injection Hr' as <-.
        apply Z.leb_le in X. simpl in X. lia.
      + specialize (X _ Hd). apply Z.leb_le in X. simpl in X. lia.
      + rewrite Hd in Hr'. injection Hr' as <-. simpl in X. lia.
      + rewrite Hd in Hr'. injection Hr' as <-. simpl in *. subst. by destruct (Nc1 run').
      + rewrite Hd in Hr'. injection Hr' as <-. simpl in *. by subst.
    - apply Forall_forall. intros o Ho. split; [intros ->; by apply No|].
      intros run ->. by apply (Nc run). }
  unfold reserve. rewrite cleaned_lookup, HI by lia. simpl.
  assert (expired t2 (mkKeyRow h pending t1 (t1 + ttl)) = false) as -> by (apply Z.leb_gt; simpl; lia).
  simpl. destruct (String.eqb h h2); simpl; [|done].
  assert ((t2 - t1 <? LEASE_SECONDS) = true) as -> by lia. done.
Qed.

(** ** A concrete history *)

Definition w_key : KeyScope := mkScope "acme" "p" "s1" "k".
Definition w_res1 := reserve 60 [] 100 w_key "h" ∅.
Definition w_res2 := reserve 60 [] 130 w_key "h" w_res1.1.

Lemma superseded_lease_powerless_witness :
  w_res2.2 = mkRes TAKEN_OVER None (Some 130) ∧
  let d' := krun 60 [KComplete w_key "h" "run-2" 130] w_res2.1 in
  100 < 130 ∧ release w_key "h" 100 d' = d' ∧ ∀ run, (complete w_key "h" run 100 d').1 = d'.
Proof.
  split; [vm_compute; reflexivity|].
  eapply (superseded_lease_powerless 60 [] 100 w_key "h" ∅ w_res1.1 w_res1.2 [] [] 130 "h"
    w_res2.1 w_res2.2).
  - lia.
  - apply surjective_pairing.
  - vm_compute. reflexivity.
  - exact I.
  - apply not_elem_of_nil.
  - vm_compute. discriminate.
  - apply surjective_pairing.
  - vm_compute. reflexivity.
  - exact I.
Defined.

Lemma completed_key_replays_witness :
  (reserve 60 [] 150 w_key "h"
    (krun 60 [KReserve [w_key] 140 w_key "other"] (complete w_key "h" "run-1" 100 w_res1.1).1)).2
  = mkRes REPLAY (Some "run-1") None.
Proof.
  eapply (completed_key_replays 60 w_key "h" "run-1" 100 w_res1.1
    (complete w_key "h" "run-1" 100 w_res1.1).1 (mkKeyRow "h" (complete_with "run-1") 100 160) 100
    [KReserve [w_key] 140 w_key "other"] [] 150 "h" "run-1" 100).
  - etransitivity; [apply surjective_pairing|]. apply (f_equal2 pair eq_refl). vm_compute. reflexivity.
  - vm_compute. reflexivity.
  - simpl. lia.
  - simpl. lia.
  - simpl. lia.
Defined.

Lemma lease_excludes_others_witness :
  (reserve 60 [] 129 w_key "h" (krun 60 [KReserve [] 120 w_key "x"] w_res1.1)).2
  = mkRes IN_PROGRESS None None.
Proof.
  apply (lease_excludes_others 60 [] 100 w_key "h" ∅ w_res1.1 w_res1.2 [KReserve [] 120 w_key "x"] [] 129 "h").
  - vm_compute. discriminate.
  - apply surjective_pairing.
  - vm_compute. reflexivity.
  - simpl. lia.
  - intros H. apply list_elem_of_singleton in H. discriminate.
  - intros run H. apply list_elem_of_singleton in H. discriminate.
  - simpl. lia.
  - vm_compute. reflexivity.
Defined.
