(* ===== verification/Quota.v ===== *)
(** * The weekly job quota (contracts/policy.py, jobs/quota_repo.py, jobs/__init__.py)

    [JobQuota] with its admission rules, [JobQuotaRepository]'s two tables and
    every operation on them as one transaction, and [JobRunner.run] around a
    job.  Instants are microseconds, a week is its ISO id, and the JSON maps of
    a row are the maps they encode.  The theorems: the reserved columns are
    always the sum of the open reservations, spend and reservations together
    stay under the caps whatever is reserved, settled, released or expired,
    and a run charges its tokens exactly once. *)
From S2P Require Import Prelude.
From Stdlib Require Import ZArith Lia.
Open Scope Z_scope.

(** ** contracts/policy.py *)

Inductive JobPriority :=
  | recertifier | curator_retire | fail_cluster_author | practice_band | practice_hex | compress.
#[export] Instance JobPriority_eq_dec : EqDecision JobPriority. Proof. solve_decision. Defined.

Record JobQuota := mkJobQuota {
  weekly_token_cap : Z; hex_share : float; max_hex_jobs_per_task_class : Z;
  max_status_writes_per_tick : Z; max_compress_candidates_per_tick : Z;
  computer_use_practice_share : float; jq_tokens_spent : Z; jq_hex_tokens_spent : Z;
  jq_computer_use_tokens_spent : Z; hex_jobs_by_class : gmap string Z }.
#[export] Instance eta_JobQuota : Eta JobQuota := λ q,
  mkJobQuota (weekly_token_cap q) (hex_share q) (max_hex_jobs_per_task_class q) (max_status_writes_per_tick q)
    (max_compress_candidates_per_tick q) (computer_use_practice_share q) (jq_tokens_spent q)
    (jq_hex_tokens_spent q) (jq_computer_use_tokens_spent q) (hex_jobs_by_class q).

(** [d.get(key, 0)] *)
Definition get0 (d : gmap string Z) (k : string) : Z := default 0 (d !! k).

Definition COMPUTER_USE_TASK_CLASSES : list string := ["bug_reproduction"; "playtest_operator"; "docs_auditor"].

(** [int(cap * share)] *)
Definition share_cap (cap : Z) (share : float) : Z := f2Z (Z2f cap ⊗ share).

Definition remaining (q : JobQuota) : Z := Z.max 0 (weekly_token_cap q - jq_tokens_spent q).
Definition _share_remaining (q : JobQuota) (spent : Z) (share : float) : Z :=
  Z.max 0 (Z.min (share_cap (weekly_token_cap q) share - spent) (remaining q)).
Definition hex_remaining (q : JobQuota) : Z := _share_remaining q (jq_hex_tokens_spent q) (hex_share q).
Definition computer_use_remaining (q : JobQuota) : Z :=
  _share_remaining q (jq_computer_use_tokens_spent q) (computer_use_practice_share q).
Definition _computer_use_class (c : option string) : bool :=
  match c with Some c => bool_decide (c ∈ COMPUTER_USE_TASK_CLASSES) | None => false end.
Definition is_practice (p : JobPriority) : bool := bool_decide (p = practice_band) || bool_decide (p = practice_hex).

Definition can_admit (q : JobQuota) (job : JobPriority) (task_class : option string) (tokens : Z) : bool :=
  if remaining q <=? 0 then false
  else if _computer_use_class task_class && is_practice job &&
          ((computer_use_remaining q <=? 0) || (computer_use_remaining q <? tokens)) then false
  else match job with
       | recertifier | curator_retire | fail_cluster_author | practice_band | compress => tokens <=? remaining q
       | practice_hex =>
           if match task_class with
              | Some c => max_hex_jobs_per_task_class q <=? get0 (hex_jobs_by_class q) c
              | None => false
              end then false
           else (0 <? hex_remaining q) && (tokens <=? hex_remaining q)
       end.

Definition charge (q : JobQuota) (job : JobPriority) (tokens : Z) (task_class : option string) : JobQuota :=
  let hex := bool_decide (job = practice_hex) in
  q <| jq_tokens_spent := jq_tokens_spent q + tokens |>
    <| jq_hex_tokens_spent := if hex then jq_hex_tokens_spent q + tokens else jq_hex_tokens_spent q |>
    <| jq_computer_use_tokens_spent :=
         if _computer_use_class task_class && is_practice job then jq_computer_use_tokens_spent q + tokens
         else jq_computer_use_tokens_spent q |>
    <| hex_jobs_by_class :=
         match hex, task_class with
         | true, Some c => <[c := get0 (hex_jobs_by_class q) c + 1]> (hex_jobs_by_class q)
         | _, _ => hex_jobs_by_class q
         end |>.

(** ** The tables of job_quota.sqlite *)

Record WeekRow := mkWeek {
  w_spent : Z; w_reserved : Z; w_hex_spent : Z; w_hex_reserved : Z; w_cu_spent : Z; w_cu_reserved : Z;
  w_jobs : gmap string Z; w_jobs_reserved : gmap string Z }.

Inductive ResvStatus := rs_reserved | rs_settled | rs_released.
#[export] Instance ResvStatus_eq_dec : EqDecision ResvStatus. Proof. solve_decision. Defined.

Record ResvRow := mkResv {
  r_week : string; r_job : string; r_priority : JobPriority; r_tokens : Z; r_settled_tokens : option Z;
  r_cu : Z; r_hex : Z; r_class : option string; r_status : ResvStatus; r_created : Z; r_settled_at : option Z }.
#[export] Instance eta_ResvRow : Eta ResvRow := λ r,
  mkResv (r_week r) (r_job r) (r_priority r) (r_tokens r) (r_settled_tokens r) (r_cu r) (r_hex r) (r_class r)
    (r_status r) (r_created r) (r_settled_at r).

(** Keyed by [(tenant_id, week_id)] and [(tenant_id, reservation_id)]. *)
Record QuotaDb := mkQuotaDb {
  weeks : gmap (string * string) WeekRow; resvs : gmap (string * string) ResvRow }.
#[export] Instance eta_QuotaDb : Eta QuotaDb := λ d, mkQuotaDb (weeks d) (resvs d).

(** ** Operations, [t] the repository's tenant *)

Definition new_week (spent hex cu : Z) (jobs : gmap string Z) : WeekRow := mkWeek spent 0 hex 0 cu 0 jobs ∅.

(** [INSERT ... ON CONFLICT DO NOTHING] *)
Definition _insert_week (t week : string) (r : WeekRow) (d : QuotaDb) : QuotaDb :=
  match weeks d !! (t, week) with
  | Some _ => d
  | None => d <| weeks := <[(t, week) := r]> (weeks d) |>
  end.
Definition _ensure_week (t week : string) (d : QuotaDb) : QuotaDb := _insert_week t week (new_week 0 0 0 ∅) d.

(** What the sidecar file says: [None] when it is missing, empty or unreadable. *)
Record SidecarSpend := mkSpend {
  sp_week : string; sp_tokens : Z; sp_hex : Z; sp_cu : Z; sp_jobs : gmap string Z }.

Definition import_sidecar (t week : string) (side : option SidecarSpend) (d : QuotaDb) : QuotaDb :=
  match side with
  | Some s => if String.eqb (sp_week s) week
              then _insert_week t week (new_week (sp_tokens s) (sp_hex s) (sp_cu s) (sp_jobs s)) d
              else d
  | None => d
  end.

Definition seed_open_week (t week : string) (q : JobQuota) (d : QuotaDb) : QuotaDb :=
  if (jq_tokens_spent q =? 0) && (jq_hex_tokens_spent q =? 0) && (jq_computer_use_tokens_spent q =? 0) &&
     bool_decide (hex_jobs_by_class q = ∅) then d
  else _insert_week t week
         (new_week (jq_tokens_spent q) (jq_hex_tokens_spent q) (jq_computer_use_tokens_spent q) (hex_jobs_by_class q)) d.

(** [{key: settled.get(key, 0) + reserved.get(key, 0) for key in classes}] *)
Definition add_jobs (a b : gmap string Z) : gmap string Z :=
  union_with (λ x y, Some (x + y)) a b.

Definition snapshot (t week : string) (base : JobQuota) (d : QuotaDb) : JobQuota :=
  match weeks d !! (t, week) with
  | None => base
  | Some r =>
      base <| jq_tokens_spent := w_spent r + w_reserved r |>
           <| jq_hex_tokens_spent := w_hex_spent r + w_hex_reserved r |>
           <| jq_computer_use_tokens_spent := w_cu_spent r + w_cu_reserved r |>
           <| hex_jobs_by_class := add_jobs (w_jobs r) (w_jobs_reserved r) |>
  end.

Definition over_cap (q : JobQuota) (r : WeekRow) (tokens hex cu : Z) (slot : option string) : bool :=
  (weekly_token_cap q <? w_spent r + w_reserved r + tokens)
  || (share_cap (weekly_token_cap q) (hex_share q) <? w_hex_spent r + w_hex_reserved r + hex)
  || (share_cap (weekly_token_cap q) (computer_use_practice_share q) <? w_cu_spent r + w_cu_reserved r + cu)
  || match slot with
     | Some c => max_hex_jobs_per_task_class q <=? get0 (w_jobs r) c + get0 (w_jobs_reserved r) c
     | None => false
     end.

Definition _hold (t week : string) (q : JobQuota) (tokens hex cu : Z) (slot : option string) (d : QuotaDb)
    : option QuotaDb :=
  match weeks d !! (t, week) with
  | None => None
  | Some r =>
      if over_cap q r tokens hex cu slot then None
      else Some (d <| weeks := <[(t, week) := mkWeek (w_spent r) (w_reserved r + tokens)
             (w_hex_spent r) (w_hex_reserved r + hex) (w_cu_spent r) (w_cu_reserved r + cu) (w_jobs r)
             (match slot with
              | Some c => <[c := get0 (w_jobs_reserved r) c + 1]> (w_jobs_reserved r)
              | None => w_jobs_reserved r end)]> (weeks d) |>)
  end.

(** [rid] is the fresh uuid; the row's primary key refuses a used one. *)
Definition reserve (t : string) (q : JobQuota) (job : string) (priority : JobPriority) (tokens : Z)
    (task_class : option string) (week rid : string) (created : Z) (d : QuotaDb) : QuotaDb * result string :=
  if tokens <? 0 then (d, Err QuotaExceeded)
  else
    let hex := if bool_decide (priority = practice_hex) then tokens else 0 in
    let cu := if _computer_use_class task_class && is_practice priority then tokens else 0 in
    let slot := match task_class with
                | Some c => if bool_decide (priority = practice_hex) && negb (String.eqb c "") then Some c else None
                | None => None
                end in
    match _hold t week q tokens hex cu slot (_ensure_week t week d) with
    | None => (d, Err QuotaExceeded)
    | Some d' =>
        match resvs d' !! (t, rid) with
        | Some _ => (d, Err IntegrityError)
        | None => (d' <| resvs := <[(t, rid) := mkResv week job priority tokens None cu hex slot rs_reserved created None]>
                                    (resvs d') |>, Ok rid)
        end
    end.

(** [reserved[c] = max(0, reserved.get(c, 0) - 1)], dropped at zero. *)
Definition drop_job (c : string) (m : gmap string Z) : gmap string Z :=
  let n := Z.max 0 (get0 m c - 1) in if n =? 0 then delete c m else <[c := n]> m.

Definition _unhold (t week : string) (tokens hex cu : Z) (slot : option string) (settle : bool) (d : QuotaDb) : QuotaDb :=
  match weeks d !! (t, week) with
  | None => d
  | Some r =>
      let reserved := match slot with Some c => drop_job c (w_jobs_reserved r) | None => w_jobs_reserved r end in
      let settled := match slot, settle with
                     | Some c, true => <[c := get0 (w_jobs r) c + 1]> (w_jobs r)
                     | _, _ => w_jobs r end in
      let plus (x y : Z) := if settle then x + y else x in
      d <| weeks := <[(t, week) := mkWeek
          (plus (w_spent r) tokens) (Z.max 0 (w_reserved r - tokens))
          (plus (w_hex_spent r) hex) (Z.max 0 (w_hex_reserved r - hex))
          (plus (w_cu_spent r) cu) (Z.max 0 (w_cu_reserved r - cu)) settled reserved]> (weeks d) |>
  end.

Definition _finish (t rid : string) (settle : bool) (now : Z) (d : QuotaDb) : QuotaDb :=
  match resvs d !! (t, rid) with
  | Some r =>
      if bool_decide (r_status r = rs_reserved) then
        let d' := _unhold t (r_week r) (r_tokens r) (r_hex r) (r_cu r)
                    (match r_class r with Some c => if String.eqb c "" then None else Some c | None => None end) settle d in
        d' <| resvs := <[(t, rid) := r <| r_status := if settle then rs_settled else rs_released |>
                <| r_settled_tokens := if settle then Some (r_tokens r) else None |>
                <| r_settled_at := Some now |>]> (resvs d') |>
      else d
  | None => d
  end.
Definition settle (t rid : string) (now : Z) (d : QuotaDb) : QuotaDb := _finish t rid true now d.
Definition release (t rid : string) (now : Z) (d : QuotaDb) : QuotaDb := _finish t rid false now d.

Definition _reserved_created (t : string) (d : QuotaDb) : list (string * Z) :=
  omap (λ kr : string * string * ResvRow,
    if bool_decide (kr.1.1 = t) && bool_decide (r_status kr.2 = rs_reserved) then Some (kr.1.2, r_created kr.2) else None)
    (map_to_list (resvs d)).

(** [ttl] and the instants in microseconds. *)
Definition release_expired (t : string) (ttl now : Z) (d : QuotaDb) : QuotaDb * Z :=
  foldl (λ (acc : QuotaDb * Z) (x : string * Z),
    if ttl <=? now - x.2 then (release t x.1 now acc.1, acc.2 + 1) else acc) (d, 0) (_reserved_created t d).

Definition totals (t week : string) (d : QuotaDb) : Z * Z :=
  match weeks d !! (t, week) with Some r => (w_spent r, w_reserved r) | None => (0, 0) end.

(** [publish]: what the sidecar is rewritten to, if anything.  [template]'s
    computer-use spend is replaced like the others. *)
Definition publish (t week : string) (d : QuotaDb) (side : option SidecarSpend) : option SidecarSpend :=
  match weeks d !! (t, week) with
  | Some r => Some (mkSpend week (w_spent r) (w_hex_spent r) (w_cu_spent r) (w_jobs r))
  | None => side
  end.

(** ** [JobRunner] (jobs/__init__.py) *)

Definition JOB_PRIORITY_ORDER : list (string * JobPriority) :=
  [("recertifier", recertifier); ("curator_retire", curator_retire); ("fail_cluster_author", fail_cluster_author);
   ("practice_band", practice_band); ("practice_hex", practice_hex); ("compress", compress)].
Definition JOB_NAME_TO_PRIORITY : list (string * JobPriority) :=
  [("recertify", recertifier); ("recertifier", recertifier); ("curator", curator_retire); ("curate", curator_retire);
   ("curator_retire", curator_retire); ("fail_cluster", fail_cluster_author);
   ("fail_cluster_author", fail_cluster_author); ("practice", practice_band); ("practice_band", practice_band);
   ("practice_hex", practice_hex); ("hex", practice_hex); ("compress", compress); ("mine", curator_retire);
   ("miner", curator_retire); ("trading", curator_retire); ("trading_propose", curator_retire)].
Definition named (l : list (string * JobPriority)) (n : string) : option JobPriority :=
  snd <$> find_first (λ kv, String.eqb kv.1 n) l.
Definition resolve_job_priority (n : string) : option JobPriority :=
  match named JOB_PRIORITY_ORDER n with Some p => Some p | None => named JOB_NAME_TO_PRIORITY n end.

(** A runner with a quota path has the repository's database; [rn_side] is
    the JSON sidecar. *)
Record Runner := mkRunner { rn_quota : JobQuota; rn_db : option QuotaDb; rn_side : option SidecarSpend }.
#[export] Instance eta_Runner : Eta Runner := λ r, mkRunner (rn_quota r) (rn_db r) (rn_side r).

Inductive JobResult := Skipped | Ran (proposals : Z).

(** The instants, weeks and ids one run reads: [week] before the job and
    [week'] after it. *)
Record RunClock := mkRunClock { rc_now : Z; rc_ttl : Z; rc_week : string; rc_week' : string; rc_rid : string; rc_end : Z }.

Definition tenant0 : string := "local".

Definition with_db (f : QuotaDb → QuotaDb) (s : Runner) : Runner := s <| rn_db := f <$> rn_db s |>.
Definition snap (week : string) (s : Runner) : Runner :=
  match rn_db s with Some d => s <| rn_quota := snapshot tenant0 week (rn_quota s) d |> | None => s end.
Definition publish_run (week : string) (s : Runner) : Runner :=
  match rn_db s with Some d => s <| rn_side := publish tenant0 week d (rn_side s) |> | None => s end.

Definition runner_admits (s : Runner) (p : JobPriority) (task_class : option string) (tokens : Z) : bool :=
  can_admit (rn_quota s) p task_class tokens.

Definition _release_reservation (c : RunClock) (rid : option string) (s : Runner) : Runner :=
  match rid, rn_db s with
  | Some rid, Some _ => publish_run (rc_week' c) (snap (rc_week' c) (with_db (release tenant0 rid (rc_end c)) s))
  | _, _ => s
  end.

(** [fn] may touch the database (another process may too) and returns how many
    proposals it made; [skip] is [hex_compress_skip_reason]'s answer. *)
Definition run (c : RunClock) (skip : bool) (job_name : string) (fn : Runner → Runner * result Z)
    (max_proposals tokens : Z) (task_class : option string) (s0 : Runner) : Runner * result JobResult :=
  let priority := resolve_job_priority job_name in
  let s := snap (rc_week c) (with_db (λ d, (release_expired tenant0 (rc_ttl c) (rc_now c) d).1) s0) in
  if match priority with Some practice_hex | Some compress => skip | _ => false end then (s, Ok Skipped)
  else if match priority with Some p => negb (runner_admits s p task_class tokens) | None => false end then (s, Ok Skipped)
  else
    let reserved : Runner * result (option string) :=
      match rn_db s, priority with
      | Some d, Some p =>
          if tokens =? 0 then (s, Ok None)
          else match reserve tenant0 (rn_quota s) job_name p tokens task_class (rc_week c) (rc_rid c) (rc_now c) d with
               | (d', Ok rid) => (s <| rn_db := Some d' |>, Ok (Some rid))
               | (d', Err e) => (s <| rn_db := Some d' |>, Err e)
               end
      | _, _ => (s, Ok None)
      end in
    match reserved with
    | (s, Err QuotaExceeded) => (s, Ok Skipped)
    | (s, Err e) => (s, Err e)
    | (s, Ok rid) =>
        match fn s with
        | (s, Err e) => (_release_reservation c rid s, Err e)
        | (s, Ok n) =>
            if max_proposals <? n then (_release_reservation c rid s, Err (PyError "JobError"))
            else
              match rid, rn_db s, priority with
              | Some rid, Some _, _ =>
                  (publish_run (rc_week' c) (snap (rc_week' c) (with_db (settle tenant0 rid (rc_end c)) s)), Ok (Ran n))
              | _, _, Some p =>
                  if tokens =? 0 then (s, Ok (Ran n))
                  else
                    let s := s <| rn_quota := charge (rn_quota s) p tokens task_class |> in
                    (match rn_db s with
                     | Some _ => s <| rn_side := Some (mkSpend (rc_week' c) (jq_tokens_spent (rn_quota s))
                         (jq_hex_tokens_spent (rn_quota s)) (jq_computer_use_tokens_spent (rn_quota s))
                         (hex_jobs_by_class (rn_quota s))) |>
                     | None => s end, Ok (Ran n))
              | _, _, None => (s, Ok (Ran n))
              end
        end
    end.

(** ** The accounts

    A column of the tables: what a reservation holds in it, and what a week's
    row says is held and spent. *)

Inductive column := c_tokens | c_hex | c_cu | c_class (c : string).

Definition amount (col : column) (r : ResvRow) : Z :=
  match col with
  | c_tokens => r_tokens r | c_hex => r_hex r | c_cu => r_cu r
  | c_class c => if bool_decide (r_class r = Some c) then 1 else 0
  end.
Definition held_in (col : column) (w : WeekRow) : Z :=
  match col with
  | c_tokens => w_reserved w | c_hex => w_hex_reserved w | c_cu => w_cu_reserved w
  | c_class c => get0 (w_jobs_reserved w) c
  end.
Definition spent_in (col : column) (w : WeekRow) : Z :=
  match col with
  | c_tokens => w_spent w | c_hex => w_hex_spent w | c_cu => w_cu_spent w
  | c_class c => get0 (w_jobs w) c
  end.
Definition cap_of (q : JobQuota) (col : column) : Z :=
  match col with
  | c_tokens => weekly_token_cap q
  | c_hex => share_cap (weekly_token_cap q) (hex_share q)
  | c_cu => share_cap (weekly_token_cap q) (computer_use_practice_share q)
  | c_class _ => max_hex_jobs_per_task_class q
  end.

(** The open reservations of tenant [t] in week [w], added up. *)
Definition open_in (t w : string) (k : string * string) (r : ResvRow) : bool :=
  bool_decide (k.1 = t) && bool_decide (r_week r = w) && bool_decide (r_status r = rs_reserved).
Definition reserved_sum (col : column) (t w : string) (d : QuotaDb) : Z :=
  msum (λ k r, if open_in t w k r then amount col r else 0) (resvs d).

Definition resv_ok (r : ResvRow) : Prop := 0 ≤ r_tokens r ∧ 0 ≤ r_hex r ∧ 0 ≤ r_cu r ∧ r_class r ≠ Some "".

Record accounts (d : QuotaDb) : Prop := {
  acc_row t w row col : weeks d !! (t, w) = Some row → held_in col row = reserved_sum col t w d;
  acc_resv t rid r : resvs d !! (t, rid) = Some r → resv_ok r;
  acc_open t rid r : resvs d !! (t, rid) = Some r → r_status r = rs_reserved → is_Some (weeks d !! (t, r_week r)) }.

Lemma amount_nonneg col r : resv_ok r → 0 ≤ amount col r.
Proof. intros (? & ? & ? & _). destruct col; simpl; try done. by case_bool_decide. Qed.

Lemma summand_nonneg d col t w k r :
  accounts d → resvs d !! k = Some r → 0 ≤ (if open_in t w k r then amount col r else 0).
Proof. intros A Hr. destruct k as [t' rid]. pose proof (amount_nonneg col r (acc_resv _ A _ _ _ Hr)). by destruct (open_in _ _ _ _). Qed.

Lemma get0_insert m c c' n : get0 (<[c := n]> m) c' = if bool_decide (c = c') then n else get0 m c'.
Proof. unfold get0. case_bool_decide as E; [subst; by rewrite lookup_insert_eq|by rewrite lookup_insert_ne]. Qed.

Lemma get0_drop m c c' : 0 ≤ get0 m c' →
  get0 (drop_job c m) c' = Z.max 0 (get0 m c' - if bool_decide (Some c = Some c') then 1 else 0).
Proof.
  intros Hn. unfold drop_job. destruct (bool_decide_reflect (Some c = Some c')) as [[= ->]|Hc].
  - destruct (_ =? 0) eqn:E; [apply Z.eqb_eq in E; unfold get0 at 1; by rewrite lookup_delete_eq|].
    by rewrite get0_insert, bool_decide_true.
  - assert (c ≠ c') by congruence. rewrite Z.sub_0_r, (Z.max_r 0 (get0 m c')) by done.
    destruct (_ =? 0); [unfold get0; by rewrite lookup_delete_ne|]. by rewrite get0_insert, bool_decide_false.
Qed.

(** The reservation row [reserve] would write. *)
Definition new_resv (job : string) (priority : JobPriority) (tokens : Z) (task_class : option string) (week : string)
    (created : Z) : ResvRow :=
  mkResv week job priority tokens None
    (if _computer_use_class task_class && is_practice priority then tokens else 0)
    (if bool_decide (priority = practice_hex) then tokens else 0)
    (match task_class with
     | Some c => if bool_decide (priority = practice_hex) && negb (String.eqb c "") then Some c else None
     | None => None
     end) rs_reserved created None.

Lemma new_resv_ok job p tokens tc week created : 0 ≤ tokens → resv_ok (new_resv job p tokens tc week created).
Proof.
  intros H. unfold resv_ok, new_resv. simpl. split_and!; [done|by case_bool_decide|by destruct (_ && _)|].
  destruct tc as [c|]; [|done]. destruct (bool_decide (p = practice_hex)); simpl; [|done].
  destruct (String.eqb_spec c ""); simpl; congruence.
Qed.

(** Taking a reservation moves its amounts into the row, under the caps. *)
Lemma hold_row t w q rv d d' :
  r_status rv = rs_reserved →
  _hold t w q (r_tokens rv) (r_hex rv) (r_cu rv) (r_class rv) d = Some d' →
  ∃ row row', weeks d !! (t, w) = Some row ∧ d' = d <| weeks := <[(t, w) := row']> (weeks d) |> ∧
    ∀ col, spent_in col row' = spent_in col row ∧ held_in col row' = held_in col row + amount col rv ∧
      (amount col rv = 0 ∨ spent_in col row + held_in col row + amount col rv ≤ cap_of q col).
Proof.
  intros _. unfold _hold. destruct (weeks d !! (t, w)) as [row|]; [|done].
  destruct (over_cap _ _ _ _ _ _) eqn:E; [done|]. intros [= <-]. do 2 eexists. split_and!; [done|done|].
  unfold over_cap in E. rewrite !orb_false_iff, !Z.ltb_ge in E. destruct E as [[[E1 E2] E3] E4].
  intros [| | |c]; simpl; try (split_and!; [done|done|by right]).
  destruct (r_class rv) as [c'|].
  - rewrite get0_insert. destruct (bool_decide_reflect (c' = c)) as [->|Hc].
    + rewrite bool_decide_true by done. split_and!; [done|done|right]. apply Z.leb_gt in E4. lia.
    + rewrite bool_decide_false by congruence. split_and!; [done|lia|by left].
  - split_and!; [done|simpl; lia|by left].
Qed.

(** Closing one takes them out again, and into spend when it is settled. *)
Lemma unhold_row t rv settle d row :
  resv_ok rv → (∀ col, 0 ≤ held_in col row) → weeks d !! (t, r_week rv) = Some row →
  ∃ row', _unhold t (r_week rv) (r_tokens rv) (r_hex rv) (r_cu rv)
      (match r_class rv with Some c => if String.eqb c "" then None else Some c | None => None end) settle d
      = d <| weeks := <[(t, r_week rv) := row']> (weeks d) |> ∧
    ∀ col, held_in col row' = Z.max 0 (held_in col row - amount col rv) ∧
      spent_in col row' = spent_in col row + if settle then amount col rv else 0.
Proof.
  intros (_ & _ & _ & Hc) Hn Hr. unfold _unhold. rewrite Hr. eexists. split; [done|].
  assert ((match r_class rv with Some c => if String.eqb c "" then None else Some c | None => None end) = r_class rv) as ->.
  { destruct (r_class rv) as [c|]; [|done]. destruct (String.eqb_spec c ""); congruence. }
  intros [| | |c]; simpl; try (split; [done|destruct settle; lia]).
  specialize (Hn (c_class c)). simpl in Hn. destruct (r_class rv) as [c'|]; simpl.
  - rewrite get0_drop by done. split; [done|]. destruct settle; [|lia].
    rewrite get0_insert. destruct (bool_decide_reflect (c' = c)) as [->|Hn'].
    + rewrite bool_decide_true by done. done.
    + rewrite bool_decide_false by congruence. lia.
  - split; [lia|]. by destruct settle; lia.
Qed.

Lemma held_nonneg d t w row col : accounts d → weeks d !! (t, w) = Some row → 0 ≤ held_in col row.
Proof.
  intros A Hr. rewrite (acc_row _ A t w row col Hr). apply msum_nonneg. intros k r. by apply summand_nonneg.
Qed.

(** Inserting a week that is absent. *)
Lemma insert_week_accounts t w spent hex cu jobs d :
  accounts d → accounts (_insert_week t w (new_week spent hex cu jobs) d).
Proof.
  intros A. unfold _insert_week. destruct (weeks d !! (t, w)) eqn:E; [done|]. split; simpl.
  - intros t' w' row col. destruct (decide ((t, w) = (t', w'))) as [[= <- <-]|Hn].
    + rewrite lookup_insert_eq. intros [= <-]. transitivity 0; [by destruct col|]. symmetry. apply msum_zero.
      intros [t' rid] r Hr. destruct (open_in t w (t', rid) r) eqn:O; [|done]. exfalso.
      unfold open_in in O. rewrite !andb_true_iff, !bool_decide_eq_true in O. simpl in O. destruct O as [[-> <-] O].
      destruct (acc_open _ A _ _ _ Hr O). congruence.
    + rewrite lookup_insert_ne by done. apply (acc_row _ A).
  - apply (acc_resv _ A).
  - intros t' rid r Hr O. destruct (acc_open _ A _ _ _ Hr O) as [row Hrow].
    destruct (decide ((t, w) = (t', r_week r))) as [->|Hn]; [rewrite lookup_insert_eq; by eexists|].
    rewrite lookup_insert_ne by done. by eexists.
Qed.

Lemma is_Some_insert {K V} `{Countable K} (m : gmap K V) k v k' : is_Some (m !! k') → is_Some (<[k := v]> m !! k').
Proof. intros [x Hx]. destruct (decide (k = k')) as [->|?]; [rewrite lookup_insert_eq|rewrite lookup_insert_ne by done]; eauto. Qed.

(** Writing a reservation whose amounts the row was given. *)
Lemma accounts_new t rid rv row row' d :
  accounts d → resv_ok rv → r_status rv = rs_reserved → resvs d !! (t, rid) = None →
  weeks d !! (t, r_week rv) = Some row → (∀ col, held_in col row' = held_in col row + amount col rv) →
  accounts (d <| weeks := <[(t, r_week rv) := row']> (weeks d) |> <| resvs := <[(t, rid) := rv]> (resvs d) |>).
Proof.
  intros A Hok Hst Hno Hrow Hcol. split; simpl.
  - intros t' w' rw col Hrw. unfold reserved_sum. simpl. rewrite msum_insert by done. fold (reserved_sum col t' w' d).
    unfold open_in at 1. simpl. rewrite Hst, (bool_decide_true (rs_reserved = _)), andb_true_r by done.
    destruct (decide ((t, r_week rv) = (t', w'))) as [[= <- <-]|Hn].
    + rewrite lookup_insert_eq in Hrw. injection Hrw as <-. rewrite !bool_decide_true by done. simpl.
      rewrite Hcol, (acc_row _ A _ _ _ col Hrow). lia.
    + rewrite lookup_insert_ne in Hrw by done. rewrite (acc_row _ A _ _ _ col Hrw).
      assert (bool_decide (t = t') && bool_decide (r_week rv = w') = false) as ->; [|done].
      apply andb_false_iff. rewrite !bool_decide_eq_false. destruct (decide (t = t')); [right|by left]. congruence.
  - intros t' rid' r. destruct (decide ((t, rid) = (t', rid'))) as [->|?].
    + rewrite lookup_insert_eq. by intros [= <-].
    + rewrite lookup_insert_ne by done. apply (acc_resv _ A).
  - intros t' rid' r. destruct (decide ((t, rid) = (t', rid'))) as [[= <- <-]|?].
    + rewrite lookup_insert_eq. intros [= <-] _. rewrite lookup_insert_eq. by eexists.
    + rewrite lookup_insert_ne by done. intros Hr O. apply is_Some_insert. by eapply (acc_open _ A).
Qed.

(** Closing a reservation. *)
Lemma finish_row t rid settle now d rv :
  accounts d → resvs d !! (t, rid) = Some rv → r_status rv = rs_reserved →
  ∃ row row' rv', weeks d !! (t, r_week rv) = Some row ∧
    _finish t rid settle now d = d <| weeks := <[(t, r_week rv) := row']> (weeks d) |> <| resvs := <[(t, rid) := rv']> (resvs d) |> ∧
    r_status rv' ≠ rs_reserved ∧ resv_ok rv' ∧
    ∀ col, held_in col row' = held_in col row - amount col rv ∧
      spent_in col row' = spent_in col row + if settle then amount col rv else 0.
Proof.
  intros A Hr Hst. destruct (acc_open _ A _ _ _ Hr Hst) as [row Hrow].
  pose proof (acc_resv _ A _ _ _ Hr) as Hok. assert (∀ col, 0 ≤ held_in col row) as Hn by (intros; by eapply held_nonneg).
  destruct (unhold_row t rv settle d row Hok Hn Hrow) as (row' & E & Hcol).
  unfold _finish. rewrite Hr, Hst, bool_decide_true, E by done. do 3 eexists. split_and!; [exact Hrow|reflexivity| | |].
  - by destruct settle.
  - exact Hok.
  - intros col. destruct (Hcol col) as [-> ->]. split; [|done]. rewrite Z.max_r; [done|].
    rewrite (acc_row _ A _ _ _ col Hrow).
    pose proof (msum_row (λ k r, if open_in t (r_week rv) k r then amount col r else 0) (resvs d) (t, rid) rv) as B.
    assert (open_in t (r_week rv) (t, rid) rv = true) as O by (unfold open_in; simpl; by rewrite Hst, !bool_decide_true).
    cbv beta in B. rewrite O in B. fold (reserved_sum col t (r_week rv) d) in B.
    enough (amount col rv ≤ reserved_sum col t (r_week rv) d) by lia.
    apply B; [|done]. intros k r. by apply summand_nonneg.
Qed.

Lemma accounts_finish t rid settle now d : accounts d → accounts (_finish t rid settle now d).
Proof.
  intros A. unfold _finish. destruct (resvs d !! (t, rid)) as [rv|] eqn:Hr; [|done].
  case_bool_decide as Hst; [|done].
  destruct (finish_row t rid settle now d rv A Hr Hst) as (row & row' & rv' & Hrow & E & Hst' & Hok' & Hcol).
  unfold _finish in E. rewrite Hr, bool_decide_true in E by done. rewrite E. split; simpl.
  - intros t' w' rw col Hrw. unfold reserved_sum. simpl. rewrite (msum_update _ _ _ _ _ Hr). fold (reserved_sum col t' w' d).
    unfold open_in at 1 2. simpl. rewrite (bool_decide_false (r_status rv' = _)), andb_false_r by done.
    rewrite Hst, (bool_decide_true (rs_reserved = _)), andb_true_r by done.
    destruct (decide ((t, r_week rv) = (t', w'))) as [[= <- <-]|Hn].
    + rewrite lookup_insert_eq in Hrw. injection Hrw as <-. rewrite !bool_decide_true by done. simpl.
      destruct (Hcol col) as [-> _]. rewrite (acc_row _ A _ _ _ col Hrow). lia.
    + rewrite lookup_insert_ne in Hrw by done. rewrite (acc_row _ A _ _ _ col Hrw).
      assert (bool_decide (t = t') && bool_decide (r_week rv = w') = false) as ->; [|lia].
      apply andb_false_iff. rewrite !bool_decide_eq_false. destruct (decide (t = t')); [right|by left]. congruence.
  - intros t' rid' r. destruct (decide ((t, rid) = (t', rid'))) as [->|?].
    + rewrite lookup_insert_eq. by intros [= <-].
    + rewrite lookup_insert_ne by done. apply (acc_resv _ A).
  - intros t' rid' r. destruct (decide ((t, rid) = (t', rid'))) as [[= <- <-]|?].
    + rewrite lookup_insert_eq. by intros [= <-] ?.
    + rewrite lookup_insert_ne by done. intros Hr' O. apply is_Some_insert. by eapply (acc_open _ A).
Qed.

(** What a successful [reserve] did. *)
Lemma reserve_Ok t q job p tokens tc week rid created d d' x :
  reserve t q job p tokens tc week rid created d = (d', Ok x) →
  let rv := new_resv job p tokens tc week created in let d1 := _ensure_week t week d in
  x = rid ∧ 0 ≤ tokens ∧ resvs d !! (t, rid) = None ∧
  ∃ row row', weeks d1 !! (t, week) = Some row ∧
    d' = d1 <| weeks := <[(t, week) := row']> (weeks d1) |> <| resvs := <[(t, rid) := rv]> (resvs d1) |> ∧
    ∀ col, spent_in col row' = spent_in col row ∧ held_in col row' = held_in col row + amount col rv ∧
      (amount col rv = 0 ∨ spent_in col row + held_in col row + amount col rv ≤ cap_of q col).
Proof.
  intros H rv d1. unfold reserve in H. destruct (tokens <? 0) eqn:T; [done|]. apply Z.ltb_ge in T.
  change (match _hold t week q (r_tokens rv) (r_hex rv) (r_cu rv) (r_class rv) d1 with
          | None => (d, Err QuotaExceeded)
          | Some d' => match resvs d' !! (t, rid) with
                       | Some _ => (d, Err IntegrityError)
                       | None => (d' <| resvs := <[(t, rid) := rv]> (resvs d') |>, Ok rid) end end = (d', Ok x)) in H.
  destruct (_hold _ _ _ _ _ _ _ _) as [d2|] eqn:Hh; [|done].
  destruct (hold_row t week q rv d1 d2 eq_refl Hh) as (row & row' & Hrow & -> & Hcol). simpl in H.
  destruct (resvs d1 !! (t, rid)) eqn:Hno; [done|]. injection H as <- <-.
  split_and!; try done; [|by exists row, row'].
  unfold d1, _ensure_week, _insert_week in Hno. by destruct (weeks d !! (t, week)).
Qed.

Lemma ensure_week_resvs t w d : resvs (_ensure_week t w d) = resvs d.
Proof. unfold _ensure_week, _insert_week. by destruct (weeks d !! (t, w)). Qed.

(** A refused one changes nothing. *)
Lemma reserve_Err t q job p tokens tc week rid created d d' e :
  reserve t q job p tokens tc week rid created d = (d', Err e) → d' = d.
Proof.
  unfold reserve. destruct (tokens <? 0); [by intros [= <- _]|].
  destruct (_hold _ _ _ _ _ _ _ _) as [d2|]; [|by intros [= <- _]].
  destruct (resvs d2 !! (t, rid)); [by intros [= <- _]|done].
Qed.

Lemma accounts_reserve t q job p tokens tc week rid created d :
  accounts d → accounts (reserve t q job p tokens tc week rid created d).1.
Proof.
  intros A. destruct (reserve _ _ _ _ _ _ _ _ _ d) as [d' [x|e]] eqn:E; simpl.
  - apply reserve_Ok in E as (_ & Hp & Hno & row & row' & Hrow & -> & Hcol).
    apply (accounts_new t rid (new_resv job p tokens tc week created) row row'); try done.
    + by apply insert_week_accounts.
    + by apply new_resv_ok.
    + by rewrite ensure_week_resvs.
    + intros col. by apply Hcol.
  - by rewrite (reserve_Err _ _ _ _ _ _ _ _ _ _ _ _ E).
Qed.

(** ** Every history of the tables *)

Inductive quota_op :=
  | QReserve (t : string) (q : JobQuota) (job : string) (p : JobPriority) (tokens : Z) (tc : option string)
      (week rid : string) (created : Z)
  | QSettle (t rid : string) (now : Z)
  | QRelease (t rid : string) (now : Z)
  | QExpire (t : string) (ttl now : Z)
  | QImport (t week : string) (side : option SidecarSpend)
  | QSeed (t week : string) (q : JobQuota).

Definition quota_exec (op : quota_op) (d : QuotaDb) : QuotaDb :=
  match op with
  | QReserve t q job p tokens tc week rid created => (reserve t q job p tokens tc week rid created d).1
  | QSettle t rid now => settle t rid now d
  | QRelease t rid now => release t rid now d
  | QExpire t ttl now => (release_expired t ttl now d).1
  | QImport t week side => import_sidecar t week side d
  | QSeed t week q => seed_open_week t week q d
  end.
Definition quota_run (ops : list quota_op) (d : QuotaDb) : QuotaDb := foldl (λ d op, quota_exec op d) d ops.
Definition no_quota : QuotaDb := mkQuotaDb ∅ ∅.

(** An invariant of the releases is one of the expiry loop. *)
Lemma expire_inv (P : QuotaDb → Prop) t ttl now d :
  P d → (∀ rid d, P d → P (release t rid now d)) → P (release_expired t ttl now d).1.
Proof.
  intros HP Hr. unfold release_expired. generalize (_reserved_created t d) as l, 0 as n. intros l.
  revert d HP. induction l as [|x l IH]; intros d HP n; [done|]. simpl.
  destruct (ttl <=? now - x.2); apply IH; [by apply Hr|done].
Qed.

Lemma exec_accounts op d : accounts d → accounts (quota_exec op d).
Proof.
  intros A. destruct op; simpl.
  - by apply accounts_reserve.
  - by apply accounts_finish.
  - by apply accounts_finish.
  - apply expire_inv; [done|]. intros. by apply accounts_finish.
  - unfold import_sidecar. destruct side as [s|]; [|done]. destruct (String.eqb _ _); [|done]. by apply insert_week_accounts.
  - unfold seed_open_week. destruct (_ && _); [done|]. by apply insert_week_accounts.
Qed.

Lemma run_accounts ops d : accounts d → accounts (quota_run ops d).
Proof. revert d. induction ops as [|op ops IH]; intros d A; [done|]. apply IH. by apply exec_accounts. Qed.

Lemma no_accounts : accounts no_quota.
Proof. by split. Qed.

(** A limit no cap exceeds, and no imported spend either. *)
Definition within (lim : column → Z) (d : QuotaDb) : Prop :=
  ∀ t w row col, weeks d !! (t, w) = Some row → spent_in col row + held_in col row ≤ lim col.

Definition op_within (lim : column → Z) (op : quota_op) : Prop :=
  match op with
  | QReserve _ q _ _ _ _ _ _ _ => ∀ col, cap_of q col ≤ lim col
  | QImport _ _ (Some s) => ∀ col, spent_in col (new_week (sp_tokens s) (sp_hex s) (sp_cu s) (sp_jobs s)) ≤ lim col
  | QSeed _ _ q => ∀ col, spent_in col (new_week (jq_tokens_spent q) (jq_hex_tokens_spent q)
                            (jq_computer_use_tokens_spent q) (hex_jobs_by_class q)) ≤ lim col
  | _ => True
  end.

Lemma insert_week_within lim t w spent hex cu jobs d :
  within lim d → (∀ col, spent_in col (new_week spent hex cu jobs) ≤ lim col) →
  within lim (_insert_week t w (new_week spent hex cu jobs) d).
Proof.
  intros H Hs. unfold _insert_week. destruct (weeks d !! (t, w)) eqn:E; [done|]. intros t' w' row col. simpl.
  destruct (decide ((t, w) = (t', w'))) as [->|?]; [rewrite lookup_insert_eq; intros [= <-]|rewrite lookup_insert_ne by done; apply H].
  specialize (Hs col). replace (held_in col (new_week spent hex cu jobs)) with 0 by (by destruct col). lia.
Qed.

Lemma set_week_within lim t w row' d :
  within lim d → (∀ col, spent_in col row' + held_in col row' ≤ lim col) →
  within lim (d <| weeks := <[(t, w) := row']> (weeks d) |>).
Proof.
  intros H Hs t' w' row col. simpl. destruct (decide ((t, w) = (t', w'))) as [->|?].
  - rewrite lookup_insert_eq. intros [= <-]. apply Hs.
  - rewrite lookup_insert_ne by done. apply H.
Qed.

Lemma finish_within lim t rid settle now d :
  accounts d → within lim d → within lim (_finish t rid settle now d).
Proof.
  intros A H. destruct (resvs d !! (t, rid)) as [rv|] eqn:Hr; [|unfold _finish; by rewrite Hr].
  destruct (decide (r_status rv = rs_reserved)) as [Hst|Hst]; [|unfold _finish; by rewrite Hr, bool_decide_false].
  destruct (finish_row t rid settle now d rv A Hr Hst) as (row & row' & rv' & Hrow & -> & _ & Hok & Hcol).
  intros t' w' r col. apply (set_week_within lim t (r_week rv) row' d); [done|]. clear col. intros col.
  destruct (Hcol col) as [-> ->]. pose proof (H _ _ _ col Hrow). pose proof (amount_nonneg col rv (acc_resv _ A _ _ _ Hr)).
  destruct settle; lia.
Qed.

Lemma exec_within lim op d :
  (∀ col, 0 ≤ lim col) → accounts d → within lim d → op_within lim op → within lim (quota_exec op d).
Proof.
  intros Hl A H Hop. destruct op as [t q job p tokens tc week rid created|t rid now|t rid now|t ttl now|t week side|t week q]; simpl.
  - destruct (reserve _ _ _ _ _ _ _ _ _ d) as [d' [x|e]] eqn:E; simpl; [|by rewrite (reserve_Err _ _ _ _ _ _ _ _ _ _ _ _ E)].
    apply reserve_Ok in E as (_ & _ & _ & row & row' & Hrow & -> & Hcol).
    assert (within lim (_ensure_week t week d)) as Hd.
    { apply insert_week_within; [done|]. intros col. replace (spent_in col _) with 0 by (by destruct col). apply Hl. }
    intros t' w' r col. apply (set_week_within lim t week row' _ Hd). clear col. intros col.
    destruct (Hcol col) as (-> & -> & [Hz|Hc]).
    + pose proof (Hd _ _ _ col Hrow). lia.
    + specialize (Hop col). lia.
  - by apply finish_within.
  - by apply finish_within.
  - apply (expire_inv (λ d, accounts d ∧ within lim d)); [done|].
    intros rid d' [A' H']. split; [by apply accounts_finish|by apply finish_within].
  - unfold import_sidecar. destruct side as [s|]; [|done]. destruct (String.eqb _ _); [|done]. by apply insert_week_within.
  - unfold seed_open_week. destruct (_ && _); [done|]. by apply insert_week_within.
Qed.

(** The caps hold in every history: whatever is reserved, settled, released,
    expired or imported, each week's reserved column is the sum of the
    reservations still open in it, and spend and reservations together never
    pass a limit that no reserving quota's cap (and no imported spend) passes:
    tokens, HEX tokens, computer-use tokens and HEX jobs per task class. *)
Theorem quota_within_caps lim ops t w row col :
  (∀ col, 0 ≤ lim col) → Forall (op_within lim) ops →
  weeks (quota_run ops no_quota) !! (t, w) = Some row →
  held_in col row = reserved_sum col t w (quota_run ops no_quota) ∧ spent_in col row + held_in col row ≤ lim col.
Proof.
  intros Hl Hops Hrow. split; [apply (acc_row _ (run_accounts ops _ no_accounts) _ _ _ _ Hrow)|].
  revert Hrow. assert (within lim no_quota) as H by done. pose proof no_accounts as A. revert H A.
  generalize no_quota as d. induction Hops as [|op ops Hop _ IH]; intros d H A; [apply H|].
  simpl. apply IH; [by apply exec_within|by apply exec_accounts].
Qed.

(** Settling an open reservation of any history moves exactly its amounts from
    reserved to spent, in its own week only; releasing it gives them back; and
    whatever is then done with the same reservation changes nothing more. *)
Theorem reservation_closes_once ops t rid rv paid now :
  let d := quota_run ops no_quota in let d' := _finish t rid paid now d in
  resvs d !! (t, rid) = Some rv → r_status rv = rs_reserved →
  (∃ row row', weeks d !! (t, r_week rv) = Some row ∧ weeks d' !! (t, r_week rv) = Some row' ∧
    ∀ col, held_in col row' = held_in col row - amount col rv ∧
      spent_in col row' = spent_in col row + if paid then amount col rv else 0) ∧
  (∀ k, k ≠ (t, r_week rv) → weeks d' !! k = weeks d !! k) ∧
  ∀ paid' now', _finish t rid paid' now' d' = d'.
Proof.
  intros d d' Hr Hst. pose proof (run_accounts ops _ no_accounts) as A. fold d in A.
  destruct (finish_row t rid paid now d rv A Hr Hst) as (row & row' & rv' & Hrow & E & Hst' & _ & Hcol).
  fold d' in E. rewrite E. split_and!.
  - exists row, row'. simpl. by rewrite lookup_insert_eq.
  - intros k Hk. simpl. by rewrite lookup_insert_ne.
  - intros paid' now'. unfold _finish. simpl. by rewrite lookup_insert_eq, bool_decide_false.
Qed.

(** ** One run of a job *)

Lemma ensure_totals t week d : totals t week (_ensure_week t week d) = totals t week d.
Proof.
  unfold totals, _ensure_week, _insert_week. destruct (weeks d !! (t, week)) eqn:E; [by rewrite E|].
  simpl. by rewrite lookup_insert_eq.
Qed.

Lemma reserve_finish_totals t q job p tokens tc week rid created d d' x paid now :
  accounts d → reserve t q job p tokens tc week rid created d = (d', Ok x) →
  totals t week (_finish t rid paid now d') =
  ((totals t week d).1 + (if paid then tokens else 0), (totals t week d).2).
Proof.
  intros A E. pose proof (accounts_reserve t q job p tokens tc week rid created d A) as A'. rewrite E in A'. simpl in A'.
  apply reserve_Ok in E as (_ & Hp & Hno & row & row1 & Hrow & -> & Hcol). set (rv := new_resv _ _ _ _ _ _) in *.
  set (d' := setf resvs _ _) in *.
  assert (resvs d' !! (t, rid) = Some rv) as Hr by apply lookup_insert_eq.
  destruct (finish_row t rid paid now d' rv A' Hr eq_refl) as (row2 & row' & rv' & Hrow2 & -> & _ & _ & Hfin).
  simpl in Hrow2. rewrite lookup_insert_eq in Hrow2. injection Hrow2 as <-.
  rewrite <- (ensure_totals t week d). unfold totals. simpl. rewrite Hrow, lookup_insert_eq. simpl.
  destruct (Hcol c_tokens) as (S1 & H1 & _), (Hfin c_tokens) as [H2 S2]. simpl in S1, H1, H2, S2.
  rewrite S2, H2, S1, H1. simpl. f_equal; destruct paid; lia.
Qed.

(** A job's tokens are charged exactly once: with a quota database and a job
    that leaves it alone, a run that returns its proposals moved its whole
    token budget into the week's spend; one that is skipped, raises, or makes
    too many proposals charged nothing; and no reservation of the run stays
    open either way. *)
Theorem run_charges_once c skip job p fn max_proposals tokens tc s s' d out :
  rn_db s = Some d → accounts d → resolve_job_priority job = Some p → tokens ≠ 0 →
  (∀ r, (fn r).1 = r) → run c skip job fn max_proposals tokens tc s = (s', out) →
  let before := totals tenant0 (rc_week c) (release_expired tenant0 (rc_ttl c) (rc_now c) d).1 in
  ∃ d', rn_db s' = Some d' ∧
    totals tenant0 (rc_week c) d' =
    (before.1 + (match out with Ok (Ran _) => tokens | _ => 0 end), before.2).
Proof.
  intros Hd A Hp Ht Hfn H before. unfold run in H. rewrite Hp in H.
  set (d1 := (release_expired tenant0 (rc_ttl c) (rc_now c) d).1) in *.
  assert (accounts d1) as A1 by (apply expire_inv; [done|intros; by apply accounts_finish]).
  set (s1 := snap _ _) in H. assert (rn_db s1 = Some d1) as E1 by (unfold s1, snap, with_db; simpl; by rewrite Hd).
  assert (before = (before.1 + 0, before.2)) as B0 by (rewrite Z.add_0_r; apply surjective_pairing).
  destruct (match p with practice_hex | compress => skip | _ => false end); [injection H as <- <-; by exists d1|].
  destruct (negb _); [injection H as <- <-; by exists d1|].
  rewrite E1, (proj2 (Z.eqb_neq _ _)) in H by done.
  destruct (reserve _ _ _ _ _ _ _ _ _ d1) as [d2 [rid|e]] eqn:ER.
  2: { pose proof (reserve_Err _ _ _ _ _ _ _ _ _ _ _ _ ER) as ->. destruct e; injection H as <- <-; by exists d1. }
  pose proof (reserve_Ok _ _ _ _ _ _ _ _ _ _ _ _ ER) as (-> & _).
  set (s2 := setf rn_db _ s1) in H. specialize (Hfn s2). destruct (fn s2) as [s3 r]. simpl in Hfn. subst s3.
  assert (rn_db s2 = Some d2) as E2 by done.
  pose proof (λ paid, reserve_finish_totals _ _ _ _ _ _ _ _ _ _ _ _ paid (rc_end c) A1 ER) as T.
  assert (∃ d', rn_db (_release_reservation c (Some (rc_rid c)) s2) = Some d' ∧
    totals tenant0 (rc_week c) d' = (before.1 + 0, before.2)) as Rel.
  { unfold _release_reservation. rewrite E2. unfold publish_run, snap, with_db. rewrite E2. simpl.
    eexists. split; [done|]. apply (T false). }
  destruct r as [n|e]; [|by injection H as <- <-]. destruct (_ <? n); [by injection H as <- <-|].
  rewrite E2 in H. injection H as <- <-. unfold publish_run, snap, with_db. rewrite E2. simpl.
  eexists. split; [done|]. apply (T true).
Qed.

(** A runner that outlives its week keeps last week's spend: when that spend
    reached the cap and the new week has no row yet, the snapshot leaves the
    old figures in place, every job with a priority is refused, and since no
    row is ever made the next run finds the same: the new week's budget is
    never used. *)
Theorem week_rollover_refuses c skip job p fn max_proposals tokens tc s d :
  rn_db s = Some d → resolve_job_priority job = Some p → remaining (rn_quota s) = 0 →
  weeks (release_expired tenant0 (rc_ttl c) (rc_now c) d).1 !! (tenant0, rc_week c) = None →
  let out := run c skip job fn max_proposals tokens tc s in
  out.2 = Ok Skipped ∧ rn_quota out.1 = rn_quota s ∧
  ∃ d', rn_db out.1 = Some d' ∧ weeks d' !! (tenant0, rc_week c) = None.
Proof.
  intros Hd Hp Hq Hw out. unfold out, run. rewrite Hp. set (s1 := snap _ _).
  assert (rn_db s1 = Some (release_expired tenant0 (rc_ttl c) (rc_now c) d).1) as E1
    by (unfold s1, snap, with_db; simpl; by rewrite Hd).
  assert (rn_quota s1 = rn_quota s) as Eq by (unfold s1, snap, with_db, snapshot; simpl; by rewrite Hd; simpl; rewrite Hw).
  destruct (match p with practice_hex | compress => skip | _ => false end); [split_and!; eauto|].
  assert (runner_admits s1 p tc tokens = false) as ->; [|split_and!; eauto].
  unfold runner_admits, can_admit. by rewrite Eq, Hq.
Qed.

(** ** Concrete histories *)

Definition q1000 : JobQuota := mkJobQuota 1000 (dec 1 4) 1 50 1 (dec 3 20) 0 0 0 ∅.
Definition demo_ops : list quota_op :=
  [QReserve "local" q1000 "practice" practice_band 100 None "2026-W01" "r1" 0;
   QReserve "local" q1000 "hex" practice_hex 200 (Some "docs") "2026-W01" "r2" 0;
   QSettle "local" "r1" 5].
Definition demo_lim (col : column) : Z := match col with c_class _ => 1 | _ => 1000 end.
Definition demo_row : WeekRow := default (new_week 0 0 0 ∅) (weeks (quota_run demo_ops no_quota) !! ("local", "2026-W01")).

(** 100 spent, 200 still reserved; a second HEX job of the class is refused. *)
Example demo_totals : totals "local" "2026-W01" (quota_run demo_ops no_quota) = (100, 200).
Proof. vm_compute. reflexivity. Qed.
Example hex_slot_taken :
  (reserve "local" q1000 "hex" practice_hex 10 (Some "docs") "2026-W01" "r3" 9 (quota_run demo_ops no_quota)).2
  = Err QuotaExceeded.
Proof. vm_compute. reflexivity. Qed.

Lemma quota_within_caps_witness :
  held_in c_tokens demo_row = reserved_sum c_tokens "local" "2026-W01" (quota_run demo_ops no_quota) ∧
  spent_in c_tokens demo_row + held_in c_tokens demo_row ≤ 1000.
Proof.
  refine (quota_within_caps demo_lim demo_ops "local" "2026-W01" demo_row c_tokens _ _ _).
  - by intros [].
  - repeat constructor; simpl; intros []; vm_compute; discriminate.
  - vm_compute. reflexivity.
Defined.

Lemma reservation_closes_once_witness :
  _finish "local" "r2" false 9 (_finish "local" "r2" true 7 (quota_run demo_ops no_quota)) =
  _finish "local" "r2" true 7 (quota_run demo_ops no_quota).
Proof.
  refine (proj2 (proj2 (reservation_closes_once demo_ops "local" "r2"
    (new_resv "hex" practice_hex 200 (Some "docs") "2026-W01" 0) true 7 _ _)) false 9).
  - vm_compute. reflexivity.
  - reflexivity.
Defined.

Definition demo_clock : RunClock := mkRunClock 10 1000 "2026-W01" "2026-W01" "job-1" 20.
Definition demo_runner : Runner := mkRunner q1000 (Some no_quota) None.
Definition demo_run := run demo_clock false "practice" (λ r, (r, Ok 2)) 10 300 None demo_runner.

Lemma run_charges_once_witness :
  demo_run.2 = Ok (Ran 2) ∧
  ∃ d', rn_db demo_run.1 = Some d' ∧ totals tenant0 "2026-W01" d' = (0 + match demo_run.2 with Ok (Ran _) => 300 | _ => 0 end, 0).
Proof.
  split; [vm_compute; reflexivity|].
  apply (run_charges_once demo_clock false "practice" practice_band (λ r, (r, Ok 2)) 10 300 None demo_runner
    demo_run.1 no_quota demo_run.2); [reflexivity|apply no_accounts|reflexivity|discriminate|reflexivity|apply surjective_pairing].
Defined.

Definition spent_out : Runner := mkRunner (q1000 <| jq_tokens_spent := 1000 |>) (Some no_quota) None.
Lemma week_rollover_refuses_witness :
  (run demo_clock false "recertify" (λ r, (r, Ok 2)) 10 300 None spent_out).2 = Ok Skipped.
Proof.
  refine (proj1 (week_rollover_refuses demo_clock false "recertify" recertifier (λ r, (r, Ok 2)) 10 300 None spent_out no_quota _ _ _ _));
    vm_compute; reflexivity.
Defined.
