(* ===== verification/Mea.v ===== *)
(** * Audited task state (contracts/audited_task_state.py, mea/*.py)

    The versioned projection of a long task, the auditor's delta and its
    compare-and-swap, the three-layer activation, the controller's round and
    budget gates, and the two hooks that bind them to a run: intake creates the
    projection, validate audits it.  The store is a map from file names to
    projections.  The theorems: a delta is accepted at most once and only on
    the version it was made for; the locked criteria, objective and isolation
    never drift; the number of audits is bounded by the rounds and the
    remaining attempts; the projection is the replay of the emitted deltas;
    and what counts as verified was passed by a scored result. *)
From S2P Require Import Prelude Budgets Contracts NodeBase.
From Stdlib Require Import ZArith Lia Ascii.
Open Scope Z_scope.

(** ** contracts/audited_task_state.py *)

Inductive NetworkScope := net_none | net_allowlist | net_open.
Record ScopeDescriptor := mkScope {
  sc_files : list string; sc_commands : list string; sc_network : NetworkScope;
  sc_permissions : list string; sc_notes : option string }.
Definition default_scope : ScopeDescriptor := mkScope [] [] net_none [] None.

Inductive ArtifactKind := ak_screenshot | ak_har | ak_terminal_log | ak_diff | ak_file | ak_json | ak_text | ak_other.
Record ArtifactRef := mkArtifactRef {
  ar_kind : ArtifactKind; ar_ref : string; ar_description : option string; ar_sha256 : option string }.

Inductive ProvenanceSource := ps_mea_loop | ps_trajectory_import | ps_synthetic | ps_operator | ps_external_demo.
Record ProvenanceBundle := mkProvenance {
  pb_source : ProvenanceSource; pb_source_ref : option string; pb_captured_at : option datetime;
  pb_run_id : option string; pb_notes : list string }.

Record VerifiedDecision := mkDecision {
  vd_decision_id : string; vd_statement : string; vd_evidence_refs : list ArtifactRef;
  vd_verified_at : datetime; vd_applicability : option string; vd_revalidation_rule : option string }.
Record FailedApproach := mkFailedApproach {
  fa_approach_id : string; fa_description : string; fa_observed_failure : string;
  fa_evidence_refs : list ArtifactRef; fa_recorded_at : datetime }.
Record Blocker := mkBlocker {
  bl_blocker_id : string; bl_description : string; bl_since_version : Z; bl_evidence_refs : list ArtifactRef }.
Record ModelHarnessRoute := mkRouteRef {
  mr_provider : option string; mr_model_id : option string; mr_route_label : option string }.

Record AuditedTaskState := mkAudited {
  at_state_id : string; at_goal_id : string; at_version : Z; at_objective : string;
  at_constraints : list string; at_acceptance_criteria : list TaskCriterion;
  at_criteria_snapshot_hash : string; at_scope : ScopeDescriptor; at_isolation_policy_ref : string;
  at_accepted_commit : option string; at_verified_decisions : list VerifiedDecision;
  at_failed_approaches : list FailedApproach; at_current_blockers : list Blocker;
  at_current_phase : string; at_assigned_route : option ModelHarnessRoute; at_evidence_refs : list ArtifactRef;
  at_budget_residual : ResidualBudget; at_last_auditor_report_id : option string;
  at_provenance : ProvenanceBundle; at_updated_at : datetime; at_rounds_consumed : Z; at_max_rounds : Z }.
#[export] Instance eta_AuditedTaskState : Eta AuditedTaskState := λ s,
  mkAudited (at_state_id s) (at_goal_id s) (at_version s) (at_objective s) (at_constraints s)
    (at_acceptance_criteria s) (at_criteria_snapshot_hash s) (at_scope s) (at_isolation_policy_ref s)
    (at_accepted_commit s) (at_verified_decisions s) (at_failed_approaches s) (at_current_blockers s)
    (at_current_phase s) (at_assigned_route s) (at_evidence_refs s) (at_budget_residual s)
    (at_last_auditor_report_id s) (at_provenance s) (at_updated_at s) (at_rounds_consumed s) (at_max_rounds s).

(** The field constraints and [_rounds_within_cap]. *)
Definition audited_valid (s : AuditedTaskState) : bool :=
  (0 <=? at_version s) && negb (is_nil (at_acceptance_criteria s)) &&
  negb (String.eqb (at_criteria_snapshot_hash s) "") &&
  forallb (λ d, negb (is_nil (vd_evidence_refs d))) (at_verified_decisions s) &&
  forallb (λ b, 0 <=? bl_since_version b) (at_current_blockers s) &&
  residual_valid (at_budget_residual s) && (0 <=? at_rounds_consumed s) && (1 <=? at_max_rounds s) &&
  (at_rounds_consumed s <=? at_max_rounds s).

Record SubtaskContract := mkSubtask {
  su_subtask_id : string; su_parent_state_version : Z; su_description : string;
  su_acceptance_criteria : list TaskCriterion; su_scope : ScopeDescriptor; su_budget : Budget;
  su_max_steps : Z; su_dependencies : list string; su_allowed_actions : list string }.
Definition subtask_valid (c : SubtaskContract) : bool :=
  (0 <=? su_parent_state_version c) && negb (is_nil (su_acceptance_criteria c)) && (1 <=? su_max_steps c).

Record AuditorDelta := mkDelta {
  de_report_id : string; de_parent_version : Z; de_proposed_version : Z;
  de_verified_decisions_added : list VerifiedDecision; de_failed_approaches_added : list FailedApproach;
  de_blockers_set : list Blocker; de_blockers_cleared : list string; de_current_phase : option string;
  de_accepted_commit : option string; de_evidence_refs_added : list ArtifactRef;
  de_criteria_snapshot_hash : string; de_isolation_policy_ref : string;
  de_budget_residual : ResidualBudget; de_produced_at : datetime }.
(** The field constraints and [_version_advances]. *)
Definition delta_valid (d : AuditorDelta) : bool :=
  (0 <=? de_parent_version d) && (de_proposed_version d =? de_parent_version d + 1) &&
  forallb (λ v, negb (is_nil (vd_evidence_refs v))) (de_verified_decisions_added d) &&
  forallb (λ b, 0 <=? bl_since_version b) (de_blockers_set d) && residual_valid (de_budget_residual d).

(** Why a delta is refused. *)
Inductive refusal := cas_mismatch | criteria_drift | isolation_mismatch | isolation_empty | max_rounds_exceeded.

(** [delta.current_phase or state.current_phase] *)
Definition or_else (o : option string) (d : string) : string :=
  match o with Some s => if String.eqb s "" then d else s | None => d end.

Definition apply_auditor_delta (s : AuditedTaskState) (d : AuditorDelta) : AuditedTaskState + refusal :=
  if negb (de_parent_version d =? at_version s) then inr cas_mismatch
  else if negb (String.eqb (de_criteria_snapshot_hash d) (at_criteria_snapshot_hash s)) then inr criteria_drift
  else if negb (String.eqb (de_isolation_policy_ref d) (at_isolation_policy_ref s)) then inr isolation_mismatch
  else if String.eqb (de_isolation_policy_ref d) "" then inr isolation_empty
  else if at_max_rounds s <? at_rounds_consumed s + 1 then inr max_rounds_exceeded
  else
    let remaining := List.filter (λ b, negb (bool_decide (bl_blocker_id b ∈ de_blockers_cleared d))) (at_current_blockers s) in
    inl (s <| at_version := de_proposed_version d |>
           <| at_verified_decisions := at_verified_decisions s ++ de_verified_decisions_added d |>
           <| at_failed_approaches := at_failed_approaches s ++ de_failed_approaches_added d |>
           <| at_current_blockers := remaining ++ de_blockers_set d |>
           <| at_current_phase := or_else (de_current_phase d) (at_current_phase s) |>
           <| at_accepted_commit := match de_accepted_commit d with Some c => Some c | None => at_accepted_commit s end |>
           <| at_evidence_refs := at_evidence_refs s ++ de_evidence_refs_added d |>
           <| at_budget_residual := de_budget_residual d |>
           <| at_last_auditor_report_id := Some (de_report_id d) |>
           <| at_rounds_consumed := at_rounds_consumed s + 1 |>
           <| at_updated_at := de_produced_at d |>).

(** ** mea/activation.py *)

Record MeaActivation := mkActivation {
  ma_policy_enabled : bool; ma_goal_opt_in : bool; ma_runtime_strategy : ExecutionStrategy;
  ma_active : bool; ma_fallback_reason : option string }.
Definition is_mea (e : ExecutionStrategy) : bool := match e with ES_mea => true | ES_single => false end.

Definition resolve_mea_activation (policy goal : bool) (strategy : ExecutionStrategy) : MeaActivation :=
  if negb policy then mkActivation false goal strategy false (Some "policy_mea_disabled")
  else if negb goal then mkActivation true false strategy false (Some "goal_not_opted_in")
  else if negb (is_mea strategy) then mkActivation true true strategy false (Some "runtime_strategy_not_mea")
  else mkActivation true true ES_mea true None.

Definition should_note_fallback (a : MeaActivation) : bool :=
  if ma_active a then false else ma_policy_enabled a || ma_goal_opt_in a || is_mea (ma_runtime_strategy a).

(** ** mea/controller.py *)

Inductive MeaEarlyStop := max_rounds_reached | residual_attempts_exhausted.

Definition enforce_round_budget (s : AuditedTaskState) : option MeaEarlyStop :=
  if at_max_rounds s <=? at_rounds_consumed s then Some max_rounds_reached
  else if r_max_attempts (at_budget_residual s) <=? 0 then Some residual_attempts_exhausted
  else None.

Inductive audit_gate := auditor_missing_conversation | auditor_shares_executor_conversation.
Definition require_fresh_auditor_context (executor auditor : option string) : option audit_gate :=
  match auditor, executor with
  | None, _ => Some auditor_missing_conversation
  | Some a, Some e => if String.eqb a e then Some auditor_shares_executor_conversation else None
  | Some _, None => None
  end.

Definition with_attempts (r : ResidualBudget) (a c : Z) : ResidualBudget :=
  mkResidualBudget a c (r_max_tokens r) (r_max_wall_clock_s r) (r_max_cost_usd r) (r_max_branches r)
    (r_max_parallel_steps r) (r_claim_timeout_s r) (r_max_versions_written r).

Definition propose_subtask (s : AuditedTaskState) (subtask_id description : string)
    (criteria : option (list TaskCriterion)) (scope : option ScopeDescriptor) (max_steps : Z)
    : result (SubtaskContract + MeaEarlyStop) :=
  match enforce_round_budget s with
  | Some stop => Ok (inr stop)
  | None =>
      let criteria := match criteria with Some (_ :: _ as l) => l | _ => at_acceptance_criteria s end in
      let r := at_budget_residual s in
      let rounds := Z.max 1 (at_max_rounds s - at_rounds_consumed s) in
      let attempts := Z.max 1 (Z.min (r_max_attempts r) (Z.max 1 (r_max_attempts r / rounds))) in
      let tools := if 0 <? r_max_tool_calls r
                   then Z.max 1 (Z.min (r_max_tool_calls r) (Z.max 1 (r_max_tool_calls r / rounds)))
                   else r_max_tool_calls r in
      budget ← as_admission_budget (with_attempts r attempts (Z.max 1 tools));
      let c := mkSubtask subtask_id (at_version s) description criteria (default (at_scope s) scope) budget
                 max_steps [] [] in
      _ ← raise_unless (subtask_valid c) ValidationError;
      Ok (inl c)
  end.

(** ** mea/store.py *)

(** [run_id.replace("/", "_").replace("..", "_") + ".json"] *)
Fixpoint replace_slash (s : string) : string :=
  match s with
  | EmptyString => EmptyString
  | String c s' => String (if Ascii.eqb c "/" then "_"%char else c) (replace_slash s')
  end.
Fixpoint replace_dots (s : string) : string :=
  match s with
  | String "." (String "." s') => String "_" (replace_dots s')
  | String c s' => String c (replace_dots s')
  | EmptyString => EmptyString
  end.
Definition path_for (run_id : string) : string := replace_dots (replace_slash run_id) +:+ ".json".

Definition AuditedStateStore : Type := gmap string AuditedTaskState.
Definition load (st : AuditedStateStore) (run_id : string) : option AuditedTaskState := st !! path_for run_id.
Definition save (st : AuditedStateStore) (run_id : string) (s : AuditedTaskState) : AuditedStateStore :=
  <[path_for run_id := s]> st.

(** ** mea/runtime.py *)

(** What the hooks read of [Policy]. *)
Record MeaPolicy := mkMeaPolicy { mp_mea_enabled : bool; mp_mea_max_rounds : Z }.

Definition resolve_from_run (s : RunState) (policy : option MeaPolicy) : MeaActivation :=
  resolve_mea_activation
    (match policy with Some p => mp_mea_enabled p | None => false end)
    (match goal (task s) with Some g => mea_opt_in g | None => false end)
    (execution_strategy (task s)).

(** [ResidualBudget.model_validate(budget.model_dump())] *)
Definition residual_of (b : Budget) : ResidualBudget :=
  mkResidualBudget (max_attempts b) (max_tool_calls b) (max_tokens b) (max_wall_clock_s b) (max_cost_usd b)
    (max_branches b) (max_parallel_steps b) (claim_timeout_s b) (max_versions_written b).

Section Hooks.
Context (criteria_hash : list TaskCriterion → string).   (* SHA-256 of the canonical JSON *)

Definition truthy (o : option string) : option string :=
  match o with Some s => if String.eqb s "" then None else Some s | None => None end.

Definition create_audited_state (s : RunState) (policy : option MeaPolicy) (now : datetime) : result AuditedTaskState :=
  let t := task s in
  let goal_id' := default (task_id t) (g ← goal t; truthy (goal_id g)) in
  let objective := match (g ← goal t; truthy (g_context g)), truthy (request t) with
                   | Some c, _ => c | None, Some r => r | None, None => task_id t end in
  let residual := residual_of (budget s) in
  let snap := default (criteria_hash (criteria s)) (truthy (mf_criteria_hash (manifest s))) in
  let a := {| at_state_id := "ats_" +:+ run_id s; at_goal_id := goal_id'; at_version := 0; at_objective := objective;
     at_constraints := []; at_acceptance_criteria := criteria s; at_criteria_snapshot_hash := snap;
     at_scope := default_scope; at_isolation_policy_ref := "container_default"; at_accepted_commit := None;
     at_verified_decisions := []; at_failed_approaches := []; at_current_blockers := [];
     at_current_phase := "intake"; at_assigned_route := None; at_evidence_refs := [];
     at_budget_residual := residual; at_last_auditor_report_id := None;
     at_provenance := mkProvenance ps_mea_loop None None (Some (run_id s)) []; at_updated_at := now;
     at_rounds_consumed := 0; at_max_rounds := match policy with Some p => mp_mea_max_rounds p | None => 12 end |} in
  _ ← raise_unless (audited_valid a) ValidationError; Ok a.

Definition executor_conversation_id (run : string) (attempt : Z) : string := run +:+ ":solve:" +:+ pretty attempt.
Definition auditor_conversation_id (run : string) (attempt : Z) : string := run +:+ ":validate:" +:+ pretty attempt.

(** The world of the hooks: the sidecar store and the ledger's fallback notes. *)
Record MeaWorld := mkMeaWorld { mw_store : AuditedStateStore; mw_notes : list (string * MeaActivation) }.

Definition upd (f : MeaWorld → MeaWorld) : M MeaWorld unit := λ w, (f w, Ok tt).

Definition bind_after_intake (s : RunState) (policy : option MeaPolicy) (has_ledger : bool) (now : datetime)
    : M MeaWorld RunState :=
  let a := resolve_from_run s policy in
  if ma_active a && negb (is_nil (criteria s)) then
    ats ← lift (create_audited_state s policy now);
    _ ← upd (λ w, mkMeaWorld (save (mw_store w) (run_id s) ats) (mw_notes w));
    mret (s <| mea_active := true |> <| mea_fallback_reason := None |>)
  else if should_note_fallback a then
    _ ← upd (λ w, if has_ledger then mkMeaWorld (mw_store w) (mw_notes w ++ [(run_id s, a)]) else w);
    mret (s <| mea_active := false |> <| mea_fallback_reason := ma_fallback_reason a |>)
  else mret s.

Fixpoint str_drop (n : nat) (s : string) : string :=
  match n, s with S n, String _ s' => str_drop n s' | _, _ => s end.

(** The evidence and the decision recorded for a passed result. *)
Definition evidence_of (r : CriterionResult) : ArtifactRef :=
  mkArtifactRef ak_terminal_log ("criterion:" +:+ r_criterion_id r) (truthy (Some (r_output_excerpt r))) None.
Definition decision_of (now : datetime) (r : CriterionResult) : VerifiedDecision :=
  mkDecision (r_criterion_id r) ("criterion " +:+ r_criterion_id r +:+ " passed under validate")
    [evidence_of r] now None None.
Definition blocker_of (version : Z) (cid : string) : Blocker :=
  mkBlocker ("crit:" +:+ cid) ("criterion " +:+ cid +:+ " failed") (version + 1) [].

Definition propose_validate_delta (a : AuditedTaskState) (s : RunState) (attempt : Z) (now : datetime)
    : option AuditorDelta :=
  match require_fresh_auditor_context (Some (executor_conversation_id (run_id s) attempt))
          (Some (auditor_conversation_id (run_id s) attempt)) with
  | Some _ => None
  | None =>
      match enforce_round_budget a with
      | Some _ => None
      | None =>
          let known := map vd_decision_id (at_verified_decisions a) in
          let new := List.filter (λ r, r_passed r && negb (bool_decide (r_criterion_id r ∈ known))) (results s) in
          let added := map (decision_of now) new in
          let passing := map r_criterion_id (List.filter r_passed (results s)) in
          let failing := map r_criterion_id (List.filter (λ r, negb (r_passed r)) (results s)) in
          let existing := map bl_blocker_id (at_current_blockers a) in
          let blockers := map (blocker_of (at_version a))
            (List.filter (λ cid, negb (bool_decide (("crit:" +:+ cid) ∈ existing))) failing) in
          let cleared := List.filter
            (λ b, String.prefix "crit:" b && bool_decide (str_drop 5 b ∈ passing)) existing in
          let r := at_budget_residual a in
          let residual := with_attempts r (Z.max 0 (r_max_attempts r - 1)) (r_max_tool_calls r) in
          let n_verified := Z.of_nat (length (at_verified_decisions a) + length added) in
          let n_crit := Z.of_nat (length (at_acceptance_criteria a)) in
          let phase := if (0 <? n_crit) && (n_crit <=? n_verified) && is_nil failing then "complete" else "execute" in
          Some {| de_report_id := "ar_" +:+ run_id s +:+ "_" +:+ pretty (at_version a + 1);
                  de_parent_version := at_version a; de_proposed_version := at_version a + 1;
                  de_verified_decisions_added := added; de_failed_approaches_added := [];
                  de_blockers_set := blockers; de_blockers_cleared := cleared; de_current_phase := Some phase;
                  de_accepted_commit := None; de_evidence_refs_added := map evidence_of new;
                  de_criteria_snapshot_hash := at_criteria_snapshot_hash a;
                  de_isolation_policy_ref := at_isolation_policy_ref a;
                  de_budget_residual := residual; de_produced_at := now |}
      end
  end.

Definition apply_validate_audit (a : AuditedTaskState) (s : RunState) (attempt : Z) (now : datetime)
    : option (AuditedTaskState * AuditorDelta) :=
  d ← propose_validate_delta a s attempt now;
  match apply_auditor_delta a d with inl a' => Some (a', d) | inr _ => None end.

Definition audit_after_validate (s : RunState) (attempt : Z) (now : datetime) (st : AuditedStateStore)
    : AuditedStateStore * option AuditorDelta :=
  if negb (mea_active s) then (st, None)
  else match load st (run_id s) with
       | None => (st, None)
       | Some a => match apply_validate_audit a s attempt now with
                   | Some (a', d) => (save st (run_id s) a', Some d)
                   | None => (st, None)
                   end
       end.

End Hooks.

(** ** Compare-and-swap *)

Lemma apply_delta_inl s d s' :
  apply_auditor_delta s d = inl s' ↔
  de_parent_version d = at_version s ∧ de_criteria_snapshot_hash d = at_criteria_snapshot_hash s ∧
  de_isolation_policy_ref d = at_isolation_policy_ref s ∧ de_isolation_policy_ref d ≠ "" ∧
  at_rounds_consumed s + 1 ≤ at_max_rounds s ∧
  s' = s <| at_version := de_proposed_version d |>
         <| at_verified_decisions := at_verified_decisions s ++ de_verified_decisions_added d |>
         <| at_failed_approaches := at_failed_approaches s ++ de_failed_approaches_added d |>
         <| at_current_blockers := List.filter (λ b, negb (bool_decide (bl_blocker_id b ∈ de_blockers_cleared d)))
              (at_current_blockers s) ++ de_blockers_set d |>
         <| at_current_phase := or_else (de_current_phase d) (at_current_phase s) |>
         <| at_accepted_commit := match de_accepted_commit d with Some c => Some c | None => at_accepted_commit s end |>
         <| at_evidence_refs := at_evidence_refs s ++ de_evidence_refs_added d |>
         <| at_budget_residual := de_budget_residual d |>
         <| at_last_auditor_report_id := Some (de_report_id d) |>
         <| at_rounds_consumed := at_rounds_consumed s + 1 |>
         <| at_updated_at := de_produced_at d |>.
Proof.
  unfold apply_auditor_delta.
  destruct (Z.eqb_spec (de_parent_version d) (at_version s)) as [E1|E1]; simpl; [|by split; [|naive_solver]].
  destruct (String.eqb_spec (de_criteria_snapshot_hash d) (at_criteria_snapshot_hash s)) as [E2|E2]; simpl; [|by split; [|naive_solver]].
  destruct (String.eqb_spec (de_isolation_policy_ref d) (at_isolation_policy_ref s)) as [E3|E3]; simpl; [|by split; [|naive_solver]].
  destruct (String.eqb_spec (de_isolation_policy_ref d) "") as [E4|E4]; [by split; [|naive_solver]|].
  destruct (Z.ltb_spec (at_max_rounds s) (at_rounds_consumed s + 1)) as [E5|E5]; [split; [done|intros (_ & _ & _ & _ & ? & _); lia]|].
  split; [intros [= <-]; by split_and!|]. by intros (_ & _ & _ & _ & _ & ->).
Qed.

(** What no accepted delta changes. *)
Definition same_task (a b : AuditedTaskState) : Prop :=
  at_state_id b = at_state_id a ∧ at_goal_id b = at_goal_id a ∧ at_objective b = at_objective a ∧
  at_constraints b = at_constraints a ∧ at_acceptance_criteria b = at_acceptance_criteria a ∧
  at_criteria_snapshot_hash b = at_criteria_snapshot_hash a ∧
  at_isolation_policy_ref b = at_isolation_policy_ref a ∧ at_max_rounds b = at_max_rounds a ∧
  at_scope b = at_scope a ∧ at_provenance b = at_provenance a.
#[export] Instance same_task_refl : Reflexive same_task. Proof. intros a. by repeat split. Qed.
#[export] Instance same_task_trans : Transitive same_task.
Proof. intros a b c (?&?&?&?&?&?&?&?&?&?) (?&?&?&?&?&?&?&?&?&?). unfold same_task. by split_and!; congruence. Qed.

(** Replaying deltas from a projection, as the trajectory events allow. *)
Fixpoint replay (a : AuditedTaskState) (ds : list AuditorDelta) : option AuditedTaskState :=
  match ds with
  | [] => Some a
  | d :: ds' => match apply_auditor_delta a d with inl a' => replay a' ds' | inr _ => None end
  end.

Lemma replay_app a ds ds' : replay a (ds ++ ds') = (b ← replay a ds; replay b ds').
Proof. revert a. induction ds as [|d ds IH]; intros a; simpl; [done|]. by destruct (apply_auditor_delta a d). Qed.

(** What accepted deltas do to the version, the rounds and the task. *)
Lemma replay_Some a ds b :
  Forall (λ d, delta_valid d = true) ds → replay a ds = Some b →
  same_task a b ∧ at_version b = at_version a + Z.of_nat (length ds) ∧
  at_rounds_consumed b = at_rounds_consumed a + Z.of_nat (length ds) ∧
  (ds ≠ [] → at_rounds_consumed b ≤ at_max_rounds a).
Proof.
  intros Hd. revert a. induction Hd as [|d ds Hv _ IH]; intros a H; simpl in H.
  - injection H as <-. split_and!; [done|simpl; lia|simpl; lia|done].
  - destruct (apply_auditor_delta a d) as [a'|] eqn:E; [|done].
    apply apply_delta_inl in E as (Ep & _ & _ & _ & Hr & ->). destruct (IH _ H) as (T & V & R & B).
    unfold delta_valid in Hv. rewrite !andb_true_iff, Z.eqb_eq in Hv. destruct Hv as [[[[_ Hv] _] _] _].
    simpl in V, R, B. split_and!.
    + etrans; [|exact T]. by repeat split.
    + cbn [length]. lia.
    + cbn [length]. lia.
    + intros _. destruct ds as [|d' ds]; [|by apply B]. simpl in R |- *. lia.
Qed.

(** A delta is accepted at most once, and only while nothing else was: after
    it, whatever further valid deltas were accepted, every delta made for its
    version or an earlier one (itself included) is refused, while the locked
    criteria, their hash, the objective, the isolation policy and the round
    cap are what they were. *)
Theorem delta_accepted_once a d a' ds b d' :
  delta_valid d = true → Forall (λ d, delta_valid d = true) ds →
  apply_auditor_delta a d = inl a' → replay a' ds = Some b →
  de_parent_version d' ≤ de_parent_version d →
  apply_auditor_delta b d' = inr cas_mismatch ∧ same_task a b ∧ at_rounds_consumed b ≤ at_max_rounds b.
Proof.
  intros Hv Hds Ha Hr Hp. assert (replay a (d :: ds) = Some b) as R by (simpl; by rewrite Ha).
  destruct (replay_Some a (d :: ds) b) as (T & V & _ & B); [by constructor|done|].
  apply apply_delta_inl in Ha as (Ep & _). cbn [length] in V. split_and!; [|done|].
  - unfold apply_auditor_delta. rewrite (proj2 (Z.eqb_neq _ _)) by lia. done.
  - destruct T as (_ & _ & _ & _ & _ & _ & _ & -> & _). by apply B.
Qed.

(** ** One audit *)

Lemma string_app_inj s x y : s +:+ x = s +:+ y → x = y.
Proof. induction s as [|c s IH]; [done|]. intros [= E]. by apply IH. Qed.

(** The two conversation ids of an attempt never coincide. *)
Lemma fresh_gate run n :
  require_fresh_auditor_context (Some (executor_conversation_id run n)) (Some (auditor_conversation_id run n)) = None.
Proof.
  unfold require_fresh_auditor_context, executor_conversation_id, auditor_conversation_id.
  destruct (String.eqb_spec (run +:+ ":validate:" +:+ pretty n) (run +:+ ":solve:" +:+ pretty n)) as [E|]; [|done].
  by apply string_app_inj in E.
Qed.

Definition new_results (a : AuditedTaskState) (s : RunState) : list CriterionResult :=
  List.filter (λ r, r_passed r && negb (bool_decide (r_criterion_id r ∈ map vd_decision_id (at_verified_decisions a)))) (results s).
Definition all_pass (s : RunState) : bool := is_nil (List.filter (λ r, negb (r_passed r)) (results s)).

Lemma is_nil_map {A B} (f : A → B) l : is_nil (map f l) = is_nil l.
Proof. by destruct l. Qed.

Lemma residual_spent r : residual_valid r = true →
  residual_valid (with_attempts r (Z.max 0 (r_max_attempts r - 1)) (r_max_tool_calls r)) = true.
Proof.
  unfold residual_valid, with_attempts. simpl. rewrite !andb_true_iff, !Z.leb_le. intros H. split_and!; try apply H. lia.
Qed.

(** The fields of the delta the auditor proposes. *)
Lemma propose_Some a s n now d :
  propose_validate_delta a s n now = Some d →
  enforce_round_budget a = None ∧ de_parent_version d = at_version a ∧ de_proposed_version d = at_version a + 1 ∧
  de_verified_decisions_added d = map (decision_of now) (new_results a s) ∧
  Forall (λ b, bl_since_version b = at_version a + 1) (de_blockers_set d) ∧
  de_criteria_snapshot_hash d = at_criteria_snapshot_hash a ∧
  de_isolation_policy_ref d = at_isolation_policy_ref a ∧
  de_budget_residual d = with_attempts (at_budget_residual a) (Z.max 0 (r_max_attempts (at_budget_residual a) - 1))
                           (r_max_tool_calls (at_budget_residual a)) ∧
  de_current_phase d = Some
    (if (0 <? Z.of_nat (length (at_acceptance_criteria a))) &&
        (Z.of_nat (length (at_acceptance_criteria a)) <=?
           Z.of_nat (length (at_verified_decisions a) + length (new_results a s))) && all_pass s
     then "complete" else "execute").
Proof.
  unfold propose_validate_delta. rewrite fresh_gate. destruct (enforce_round_budget a); [done|].
  intros [= <-]. split_and!; try done; cbn [de_blockers_set de_current_phase].
  - apply Forall_forall. intros b (c & <- & _)%list_elem_of_In%in_map_iff. done.
  - by rewrite length_map, is_nil_map.
Qed.

Lemma forallb_map_True {A B} (f : A → B) (p : B → bool) l : (∀ x, p (f x) = true) → forallb p (map f l) = true.
Proof. intros H. apply forallb_forall. by intros y (x & <- & _)%in_map_iff. Qed.

Lemma forallb_filter {A} (p q : A → bool) l : forallb p l = true → forallb p (List.filter q l) = true.
Proof. rewrite !forallb_forall. intros H x Hx%filter_In. apply H, Hx. Qed.

Lemma propose_valid a s n now d :
  audited_valid a = true → propose_validate_delta a s n now = Some d → delta_valid d = true.
Proof.
  intros Hv (_ & Ep & En & Ed & Eb & _ & _ & Er & _)%propose_Some.
  unfold audited_valid in Hv. rewrite !andb_true_iff, !Z.leb_le in Hv.
  destruct Hv as [[[[[[[[H0 _] _] _] _] Hr] _] _] _].
  unfold delta_valid. rewrite !andb_true_iff, Ep, En, Ed, Er, Z.leb_le, Z.eqb_eq. split_and!; [done|done| | |].
  - by apply forallb_map_True.
  - apply forallb_forall. intros b Hb. rewrite Forall_forall in Eb. apply Z.leb_le.
    rewrite Eb by (by apply list_elem_of_In). lia.
  - by apply residual_spent.
Qed.

Lemma apply_audit_Some a s n now a' d :
  apply_validate_audit a s n now = Some (a', d) ↔
  propose_validate_delta a s n now = Some d ∧ apply_auditor_delta a d = inl a'.
Proof.
  unfold apply_validate_audit. destruct (propose_validate_delta a s n now) as [d0|]; cbn [mbind option_bind];
    [|by split; [|intros [? _]]].
  split.
  - destruct (apply_auditor_delta a d0) eqn:E; [|done]. by intros [= -> ->].
  - intros [[= ->] ->]. done.
Qed.

Lemma enforce_None a :
  enforce_round_budget a = None ↔ at_rounds_consumed a < at_max_rounds a ∧ 0 < r_max_attempts (at_budget_residual a).
Proof.
  unfold enforce_round_budget. destruct (Z.leb_spec (at_max_rounds a) (at_rounds_consumed a)); [split; [done|lia]|].
  destruct (Z.leb_spec (r_max_attempts (at_budget_residual a)) 0); [split; [done|lia]|]. done.
Qed.

(** An accepted valid delta keeps the projection well formed. *)
Lemma apply_delta_valid a d a' :
  audited_valid a = true → delta_valid d = true → apply_auditor_delta a d = inl a' → audited_valid a' = true.
Proof.
  intros Hv Hd (_ & _ & _ & _ & Hr & ->)%apply_delta_inl. unfold audited_valid, delta_valid in *.
  rewrite !andb_true_iff, ?Z.leb_le, ?Z.eqb_eq in *. simpl. rewrite !forallb_app, !andb_true_iff.
  destruct Hv as [[[[[[[[H0 H1] H2] H3] H4] H5] H6] H7] H8], Hd as [[[[G0 G1] G2] G3] G4].
  split_and!; try done; try lia. by apply forallb_filter.
Qed.

(** One audit that is accepted. *)
Lemma audit_step a s n now a' d :
  audited_valid a = true → apply_validate_audit a s n now = Some (a', d) →
  delta_valid d = true ∧ apply_auditor_delta a d = inl a' ∧ audited_valid a' = true ∧ same_task a a' ∧
  at_rounds_consumed a' = at_rounds_consumed a + 1 ∧ at_rounds_consumed a' ≤ at_max_rounds a' ∧
  at_verified_decisions a' = at_verified_decisions a ++ map (decision_of now) (new_results a s) ∧
  r_max_attempts (at_budget_residual a') = r_max_attempts (at_budget_residual a) - 1 ∧
  0 ≤ r_max_attempts (at_budget_residual a').
Proof.
  intros Hv (Hp & Ha)%apply_audit_Some. pose proof (propose_valid _ _ _ _ _ Hv Hp) as Hd.
  pose proof (apply_delta_valid _ _ _ Hv Hd Ha) as Hv'.
  destruct (propose_Some _ _ _ _ _ Hp) as (Hb & _ & _ & Ed & _ & _ & _ & Er & _). apply enforce_None in Hb as [Hb1 Hb2].
  do 3 (split; [done|]). clear Hv'. apply apply_delta_inl in Ha as (_ & _ & _ & _ & Hr & ->).
  unfold same_task. simpl. rewrite Ed, Er. simpl. split_and!; done || lia.
Qed.

(** ** A run of audits *)

(** One validate hop: the state it left, its attempt number, the clock, and
    whether the hop was committed (its delta event with it). *)
Record audit_hop := mkHop { h_state : RunState; h_attempt : Z; h_now : datetime; h_committed : bool }.

(** The store and the trajectory's delta events after a sequence of hops. *)
Fixpoint audit_run (st : AuditedStateStore) (hs : list audit_hop) : AuditedStateStore * list AuditorDelta :=
  match hs with
  | [] => (st, [])
  | h :: hs' =>
      let '(st1, e) := audit_after_validate (h_state h) (h_attempt h) (h_now h) st in
      let '(st2, ds) := audit_run st1 hs' in
      (st2, (match e with Some d => if h_committed h then [d] else [] | None => [] end) ++ ds)
  end.

Lemma load_save st run a : load (save st run a) run = Some a.
Proof. apply (lookup_insert_eq (M:=gmap string)). Qed.

(** One hop either leaves the store alone and emits nothing, or applies the
    delta it emits. *)
Lemma audit_hop_cases run st a s n now :
  load st run = Some a → run_id s = run →
  audit_after_validate s n now st = (st, None) ∨
  ∃ a' d, apply_validate_audit a s n now = Some (a', d) ∧
          audit_after_validate s n now st = (save st run a', Some d).
Proof.
  intros Hl <-. unfold audit_after_validate. destruct (mea_active s); [|by left]. cbn [negb]. rewrite Hl.
  destruct (apply_validate_audit a s n now) as [[a' d]|]; [|by left]. right. by exists a', d.
Qed.

(** When every hop commits, the stored projection is the replay of the emitted
    deltas from the one it started with; it stays well formed and on the same
    task, no other projection moves, and the accepted audits are bounded by the
    rounds and by the attempts left: each costs one of both. *)
Theorem audits_replayable run st a hs st' ds :
  load st run = Some a → audited_valid a = true →
  Forall (λ h, run_id (h_state h) = run ∧ h_committed h = true) hs →
  audit_run st hs = (st', ds) →
  ∃ b, load st' run = Some b ∧ replay a ds = Some b ∧ audited_valid b = true ∧ same_task a b ∧
    at_rounds_consumed b = at_rounds_consumed a + Z.of_nat (length ds) ∧
    r_max_attempts (at_budget_residual b) = r_max_attempts (at_budget_residual a) - Z.of_nat (length ds) ∧
    Z.of_nat (length ds) ≤ Z.min (at_max_rounds a - at_rounds_consumed a) (r_max_attempts (at_budget_residual a)) ∧
    (∀ k, k ≠ path_for run → st' !! k = st !! k).
Proof.
  intros Hl Hv Hhs. revert st a st' ds Hl Hv. induction Hhs as [|h hs [Hr Hc] _ IH]; intros st a st' ds Hl Hv.
  { intros [= <- <-]. exists a. unfold audited_valid, residual_valid in Hv. rewrite !andb_true_iff, !Z.leb_le in Hv.
    cbn [length replay]. split_and!; try done; try lia. unfold audited_valid, residual_valid.
    rewrite !andb_true_iff, !Z.leb_le. done. }
  cbn [audit_run].
  destruct (audit_hop_cases run st a (h_state h) (h_attempt h) (h_now h) Hl Hr) as [->|(a1 & d & Ha & ->)].
  { destruct (audit_run st hs) as [st2 ds2] eqn:E. intros [= <- <-]. by apply (IH st a st2 ds2). }
  destruct (audit_step _ _ _ _ _ _ Hv Ha) as (_ & Hd & Hv1 & T & Er & Hle & _ & Eat & H0).
  destruct (audit_run (save st run a1) hs) as [st2 ds2] eqn:E. rewrite Hc. intros [= <- <-].
  destruct (IH (save st run a1) a1 st2 ds2 (load_save _ _ _) Hv1 E) as (b & Hb & Hrep & Hvb & Tb & Rb & Ab & Lb & Fb).
  pose proof T as (_ & _ & _ & _ & _ & _ & _ & Em & _).
  exists b. cbn [replay length app]. rewrite Hd. split_and!; try done; try lia.
  - by etrans.
  - intros k Hk. rewrite (Fb k Hk). by apply (lookup_insert_ne (M:=gmap string)).
Qed.

(** The first delta emitted is made for the stored version. *)
Lemma audit_run_first run st a hs st' ds :
  load st run = Some a → Forall (λ h, run_id (h_state h) = run ∧ h_committed h = true) hs →
  audit_run st hs = (st', ds) → ds ≠ [] → ∃ d ds', ds = d :: ds' ∧ de_parent_version d = at_version a.
Proof.
  intros Hl Hhs. revert st a st' ds Hl. induction Hhs as [|h hs [Hr Hc] _ IH]; intros st a st' ds Hl.
  { by intros [= <- <-]. }
  cbn [audit_run].
  destruct (audit_hop_cases run st a (h_state h) (h_attempt h) (h_now h) Hl Hr) as [->|(a2 & d2 & Ha2 & ->)].
  - destruct (audit_run st hs) as [st3 ds3] eqn:E3. intros [= <- <-] Hne. by apply (IH st a st3 ds3).
  - destruct (audit_run (save st run a2) hs) as [st3 ds3]. rewrite Hc. intros [= <- <-] _.
    exists d2, ds3. split; [done|]. apply apply_audit_Some in Ha2 as (Hp & _). by apply propose_Some in Hp as (_ & ? & _).
Qed.

(** A hop that saved the projection and crashed before its commit leaves the
    events unable to reproduce it: every delta the retried audits emit starts
    at a version the events never reached, and the retry pays a round and an
    attempt again. *)
Theorem lost_delta_unreplayable run st a h hs st' ds :
  load st run = Some a → audited_valid a = true → run_id (h_state h) = run → h_committed h = false →
  Forall (λ h, run_id (h_state h) = run ∧ h_committed h = true) hs →
  is_Some (apply_validate_audit a (h_state h) (h_attempt h) (h_now h)) →
  mea_active (h_state h) = true →
  audit_run st (h :: hs) = (st', ds) → ds ≠ [] →
  replay a ds = None.
Proof.
  intros Hl Hv Hr Hc Hhs [[a1 d] Ha] Hm. cbn [audit_run]. unfold audit_after_validate.
  rewrite Hm, Hr, Hl, Ha. cbn [negb]. destruct (audit_run (save st run a1) hs) as [st2 ds2] eqn:E. rewrite Hc.
  intros [= <- <-] Hne. destruct (audit_step _ _ _ _ _ _ Hv Ha) as (_ & Hd & Hv1 & _).
  assert (at_version a1 = at_version a + 1) as Ev.
  { apply apply_audit_Some in Ha as (Hp & _). destruct (propose_Some _ _ _ _ _ Hp) as (_ & _ & Ep & _).
    apply apply_delta_inl in Hd as (_ & _ & _ & _ & _ & ->). simpl. by rewrite Ep. }
  destruct (audit_run_first run (save st run a1) a1 hs st2 ds2) as (d1 & ds1 & -> & Ep); [apply load_save|done..|].
  cbn [app replay]. unfold apply_auditor_delta. rewrite (proj2 (Z.eqb_neq _ _)) by lia. done.
Qed.

(** ** What counts as verified *)

Definition crit_ids (a : AuditedTaskState) : list string := map c_id (at_acceptance_criteria a).
Definition verified_ids (a : AuditedTaskState) : list string := map vd_decision_id (at_verified_decisions a).
(** Every decision verifies its own locked criterion, once. *)
Definition decisions_ok (a : AuditedTaskState) : Prop := NoDup (verified_ids a) ∧ verified_ids a ⊆ crit_ids a.
(** The results a run scored: one per criterion it locked. *)
Definition results_of (a : AuditedTaskState) (s : RunState) : Prop :=
  NoDup (map r_criterion_id (results s)) ∧ map r_criterion_id (results s) ⊆ crit_ids a.

Lemma map_filter_elem (p : CriterionResult → bool) l x :
  x ∈ map r_criterion_id (List.filter p l) → ∃ r, r ∈ l ∧ p r = true ∧ r_criterion_id r = x.
Proof.
  rewrite list_elem_of_In, in_map_iff. intros (r & <- & (Hr & Hp)%filter_In). exists r. by rewrite list_elem_of_In.
Qed.

Lemma audit_decisions_ok a s n now a' d :
  audited_valid a = true → decisions_ok a → results_of a s →
  apply_validate_audit a s n now = Some (a', d) →
  decisions_ok a' ∧ verified_ids a' = verified_ids a ++ map r_criterion_id (new_results a s) ∧ crit_ids a' = crit_ids a.
Proof.
  intros Hv [Hn Hsub] [Rn Rsub] Ha. destruct (audit_step _ _ _ _ _ _ Hv Ha) as (_ & _ & _ & T & _ & _ & Ev & _).
  destruct T as (_ & _ & _ & _ & Ec & _). unfold decisions_ok, verified_ids, crit_ids in *. rewrite Ev, Ec, map_app, map_map.
  change (map (λ x, vd_decision_id (decision_of now x)) (new_results a s)) with (map r_criterion_id (new_results a s)).
  split_and!; try done.
  - apply NoDup_app. split_and!; [done| |by apply NoDup_map_filter]. intros x Hx (r & _ & Hp & <-)%map_filter_elem.
    apply andb_true_iff in Hp as [_ Hp]. apply negb_true_iff, bool_decide_eq_false in Hp. by apply Hp.
  - apply list_subseteq_app_iff_l. split; [done|]. intros x (r & Hr & _ & <-)%map_filter_elem.
    apply Rsub. by apply (list_elem_of_fmap_2 r_criterion_id).
Qed.

(** Distinct elements of a list of distinct elements: as many is all. *)
Lemma covered_by_count {A} (l k : list A) :
  NoDup l → NoDup k → l ⊆ k → (length k ≤ length l)%nat ↔ k ⊆ l.
Proof.
  intros Hl Hk Hs. split.
  - intros Hlen x Hx. rewrite (submseteq_length_Permutation l k); [done|by apply NoDup_submseteq|done].
  - intros H. by apply submseteq_length, NoDup_submseteq.
Qed.

Lemma all_pass_iff s : all_pass s = true ↔ ∀ r, r ∈ results s → r_passed r = true.
Proof.
  unfold all_pass. induction (results s) as [|r l IH]; simpl.
  - split; [|done]. intros _ r Hr. by apply elem_of_nil in Hr.
  - destruct (r_passed r) eqn:E; simpl.
    + rewrite IH. setoid_rewrite elem_of_cons. naive_solver.
    + split; [done|]. intros H. by rewrite H in E by (by left).
Qed.

Lemma audit_phase a s n now a' d :
  audited_valid a = true → apply_validate_audit a s n now = Some (a', d) →
  at_current_phase a' = "complete" ↔
    (length (at_acceptance_criteria a) ≤ length (at_verified_decisions a'))%nat ∧ all_pass s = true.
Proof.
  intros Hv Ha. destruct (audit_step _ _ _ _ _ _ Hv Ha) as (_ & _ & _ & _ & _ & _ & Ev & _).
  apply apply_audit_Some in Ha as (Hp & Hap). destruct (propose_Some _ _ _ _ _ Hp) as (_ & _ & _ & _ & _ & _ & _ & _ & Eph).
  apply apply_delta_inl in Hap as (_ & _ & _ & _ & _ & E).
  assert (at_current_phase a' = or_else (de_current_phase d) (at_current_phase a)) as -> by (by rewrite E).
  assert (0 < length (at_acceptance_criteria a))%nat as Hpos.
  { unfold audited_valid in Hv. rewrite !andb_true_iff in Hv.
    destruct Hv as [[[[[[[[_ H1] _] _] _] _] _] _] _]. destruct (at_acceptance_criteria a); [done|simpl; lia]. }
  rewrite Eph, Ev, length_app, length_map. rewrite (proj2 (Z.ltb_lt _ _)) by lia.
  destruct (Z.leb_spec (Z.of_nat (length (at_acceptance_criteria a)))
    (Z.of_nat (length (at_verified_decisions a) + length (new_results a s)))) as [H|H]; cbn [andb].
  - destruct (all_pass s); [|by split; [|intros []]]. split; [intros _; split; [lia|done]|done].
  - split; [done|intros [? _]; lia].
Qed.

(** The phase the auditor writes says complete exactly when every locked
    criterion has a verified decision and no result of this validate failed:
    counting decisions is enough because each verifies its own criterion. And
    every decision it adds is a result that passed in this validate. *)
Theorem complete_means_verified a s n now a' d :
  audited_valid a = true → decisions_ok a → NoDup (crit_ids a) → results_of a s →
  apply_validate_audit a s n now = Some (a', d) →
  decisions_ok a' ∧
  (at_current_phase a' = "complete" ↔
     (∀ c, c ∈ at_acceptance_criteria a' → c_id c ∈ verified_ids a') ∧ (∀ r, r ∈ results s → r_passed r = true)) ∧
  (∀ x, x ∈ verified_ids a' → x ∈ verified_ids a ∨ ∃ r, r ∈ results s ∧ r_passed r = true ∧ r_criterion_id r = x).
Proof.
  intros Hv Hd Hnc Hr Ha. destruct (audit_decisions_ok _ _ _ _ _ _ Hv Hd Hr Ha) as (Hd' & Ei & Ec).
  split; [done|]. split.
  - rewrite (audit_phase _ _ _ _ _ _ Hv Ha), <-all_pass_iff, <-(length_map c_id), <-(length_map vd_decision_id).
    fold (crit_ids a) (verified_ids a'). rewrite covered_by_count by (try apply Hd'; try done; rewrite <-Ec; apply Hd').
    rewrite <-Ec. apply and_iff_compat_r. split; intros H c Hc.
    + apply H. by apply list_elem_of_fmap_2.
    + apply list_elem_of_fmap in Hc as (c0 & -> & Hc). by apply H.
  - intros x. rewrite Ei. intros [Hx|(r & Hr' & Hp & <-)%map_filter_elem]%elem_of_app; [by left|right].
    exists r. by apply andb_true_iff in Hp as [Hp _].
Qed.

(** ** Activation and subtask slices *)

Definition three_layers (s : RunState) (policy : option MeaPolicy) : bool :=
  match policy with Some p => mp_mea_enabled p | None => false end &&
  match goal (task s) with Some g => mea_opt_in g | None => false end && is_mea (execution_strategy (task s)).

Lemma active_layers s policy : ma_active (resolve_from_run s policy) = three_layers s policy.
Proof.
  unfold resolve_from_run, resolve_mea_activation, three_layers.
  destruct policy as [[[] ?]|]; [|done|done]; cbn [mp_mea_enabled]. destruct (goal (task s)) as [g|]; [|done].
  destruct (mea_opt_in g); [|done]. by destruct (execution_strategy (task s)).
Qed.

Lemma create_audited_Ok h s policy now a :
  create_audited_state h s policy now = Ok a →
  audited_valid a = true ∧ at_version a = 0 ∧ at_rounds_consumed a = 0 ∧ at_acceptance_criteria a = criteria s ∧
  at_budget_residual a = residual_of (budget s) ∧ at_verified_decisions a = [].
Proof.
  unfold create_audited_state. cbv zeta. unfold raise_unless.
  destruct (audited_valid _) eqn:E; [|done]. intros [= <-]. by split_and!.
Qed.

(** Intake turns the loop on only when policy, goal and runtime all ask for
    it and the run has criteria, and then the stored projection is a well-formed
    version 0 over the locked criteria and the whole budget, with nothing
    verified. Otherwise the store is untouched, the run is not active, and the
    incomplete request is noted in the ledger, except when all three layers ask
    and there are no criteria: then nothing is noted. *)
Theorem activation_three_layers h s policy has_ledger now w w' s' :
  mea_active s = false → bind_after_intake h s policy has_ledger now w = (w', Ok s') →
  (mea_active s' = true ↔ three_layers s policy = true ∧ criteria s ≠ []) ∧
  (if mea_active s'
   then ∃ a, load (mw_store w') (run_id s) = Some a ∧ audited_valid a = true ∧ at_version a = 0 ∧
             at_rounds_consumed a = 0 ∧ at_acceptance_criteria a = criteria s ∧
             at_budget_residual a = residual_of (budget s) ∧ at_verified_decisions a = []
   else mw_store w' = mw_store w) ∧
  (three_layers s policy = true → mw_notes w' = mw_notes w) ∧
  (three_layers s policy = false → should_note_fallback (resolve_from_run s policy) = true → has_ledger = true →
     mw_notes w' = mw_notes w ++ [(run_id s, resolve_from_run s policy)]).
Proof.
  intros Hm. unfold bind_after_intake. cbv zeta. rewrite active_layers. destruct (three_layers s policy) eqn:E3; cbn [andb].
  - destruct (criteria s) as [|c cs] eqn:Ec; cbn [is_nil negb].
    + unfold should_note_fallback. rewrite active_layers, E3. intros [= <- <-]. rewrite Hm. naive_solver.
    + unfold lift. destruct (create_audited_state h s policy now) as [a|] eqn:Ea; [|done]. intros [= <- <-].
      apply create_audited_Ok in Ea. rewrite Ec in Ea. cbn. split_and!; [naive_solver| |done|done].
      exists a. split; [apply (load_save (mw_store w))|]. exact Ea.
  - destruct (should_note_fallback _) eqn:En.
    + intros [= <- <-]. cbn. split_and!; [naive_solver| |done|]; by destruct has_ledger.
    + intros [= <- <-]. rewrite Hm. split_and!; [naive_solver|done..].
Qed.

Lemma as_admission_Ok r b :
  as_admission_budget r = Ok b →
  1 ≤ r_max_attempts r ∧ max_attempts b = r_max_attempts r ∧ max_tool_calls b = Z.max 1 (r_max_tool_calls r).
Proof.
  unfold as_admission_budget. destruct (Z.ltb_spec (r_max_attempts r) 1); [done|].
  cbv zeta. intros [-> _]%new_Budget_Ok. by split_and!.
Qed.

(** One round's share of [n] over [k] rounds. *)
Lemma slice_bounds n k :
  0 < n → 0 < k → let s := Z.max 1 (Z.min n (Z.max 1 (n / k))) in 1 ≤ s ≤ n ∧ (s = 1 ∨ s * k ≤ n).
Proof.
  intros Hn Hk s. pose proof (Z.mul_div_le n k Hk). pose proof (Z.div_le_upper_bound n k n Hk).
  assert (n / k ≤ n) by nia. split; [lia|]. destruct (Z.le_gt_cases (n / k) 1); [left; lia|right].
  assert (s = n / k) as -> by lia. lia.
Qed.

(** A proposed subtask is bounded by what is left: its attempts, times the
    rounds still allowed, fit the residual attempts unless they are the minimum
    of one; its tool calls do the same. A residual with no tool calls left still
    buys one: the budget contract cannot say zero. *)
Theorem subtask_fits_residual a id desc cs sc steps c :
  propose_subtask a id desc cs sc steps = Ok (inl c) →
  let r := at_budget_residual a in let rounds := at_max_rounds a - at_rounds_consumed a in
  0 < rounds ∧ 1 ≤ max_attempts (su_budget c) ≤ r_max_attempts r ∧
  (max_attempts (su_budget c) = 1 ∨ max_attempts (su_budget c) * rounds ≤ r_max_attempts r) ∧
  (max_tool_calls (su_budget c) = 1 ∨ max_tool_calls (su_budget c) * rounds ≤ r_max_tool_calls r) ∧
  (r_max_tool_calls r = 0 → max_tool_calls (su_budget c) = 1) ∧
  su_parent_state_version c = at_version a ∧ subtask_valid c = true.
Proof.
  unfold propose_subtask. destruct (enforce_round_budget a) eqn:He; [done|]. apply enforce_None in He as [H1 H2].
  set (r := at_budget_residual a) in *. set (k := at_max_rounds a - at_rounds_consumed a).
  assert (Z.max 1 k = k) as -> by lia. set (bb := as_admission_budget _).
  cbv zeta. destruct bb as [b|] eqn:Eb; cbn [mbind result_bind]; [|done].
  unfold raise_unless. destruct (subtask_valid _) eqn:Es; cbn [mbind result_bind]; [|done]. intros [= <-]. simpl.
  apply as_admission_Ok in Eb as (_ & -> & ->). cbn [with_attempts r_max_attempts r_max_tool_calls].
  destruct (slice_bounds (r_max_attempts r) k) as [B1 B2]; [lia..|].
  split; [lia|]. split; [lia|]. split; [done|]. destruct (Z.ltb_spec 0 (r_max_tool_calls r)) as [Ht|Ht].
  - destruct (slice_bounds (r_max_tool_calls r) k) as [B3 B4]; [lia..|]. split_and!; try done; lia.
  - split_and!; try done; lia.
Qed.

(** ** Witnesses *)

Definition m_hash (cs : list TaskCriterion) : string := "h".
Definition m_policy : option MeaPolicy := Some (mkMeaPolicy true 12).
Definition m_goal : Goal := mkGoal (Some "g1") [] [] (Some "ship it") None [] None true.
Definition m_task : Task := mkTask "t1" (Some m_goal) (Some "make") None None None 0 false ES_mea.
Definition m_result (id : string) (ok : bool) : CriterionResult :=
  mkResult id None ok f1 None None None None "" false f0.
Definition m_intake : RunState := (demo_state "make" ["a"; "b"]) <| task := m_task |>.
Definition m_state (rs : list CriterionResult) : RunState := m_intake <| mea_active := true |> <| results := rs |>.
Definition m_first : RunState := m_state [m_result "a" true; m_result "b" false].
Definition m_second : RunState := m_state [m_result "a" true; m_result "b" true].
Definition m_blank : AuditedTaskState := mkAudited "" "" 0 "" [] [] "" default_scope "" None [] [] [] "" None []
  (mkResidualBudget 0 0 None 0 None 0 0 0 0) None (mkProvenance ps_mea_loop None None None []) 0 0 0.
Definition m_v0 : AuditedTaskState :=
  match create_audited_state m_hash m_intake m_policy 0 with Ok a => a | Err _ => m_blank end.
Definition m_audit (a : AuditedTaskState) (s : RunState) : AuditedTaskState * AuditorDelta :=
  default (m_blank, mkDelta "" 0 0 [] [] [] [] None None [] "" "" (at_budget_residual m_blank) 0) (apply_validate_audit a s 1 7).
Definition m_v1 := m_audit m_v0 m_first.
Definition m_v2 := m_audit m_v1.1 m_second.
Definition m_store : AuditedStateStore := save ∅ "r1" m_v0.
Definition m_hops (c : bool) : list audit_hop := [mkHop m_first 1 7 c; mkHop m_second 2 7 true].
Definition m_run (c : bool) := audit_run m_store (m_hops c).

(** The second delta was made for version 1; the first one comes back late. *)
Lemma delta_accepted_once_witness :
  apply_auditor_delta m_v2.1 m_v1.2 = inr cas_mismatch ∧ same_task m_v1.1 m_v2.1 ∧ at_rounds_consumed m_v2.1 ≤ at_max_rounds m_v2.1.
Proof.
  assert (same_task m_v1.1 m_v2.1) as T by (unfold same_task; split_and!; vm_compute; reflexivity).
  destruct (delta_accepted_once m_v0 m_v1.2 m_v1.1 [m_v2.2] m_v2.1 m_v1.2) as (H1 & _ & H3);
    [vm_compute; reflexivity|constructor; [vm_compute; reflexivity|constructor]|vm_compute; reflexivity|vm_compute; reflexivity|vm_compute; discriminate|].
  split; [exact H1|split; [exact T|exact H3]].
Defined.

Lemma audits_replayable_witness :
  ∃ b, load (m_run true).1 "r1" = Some b ∧ replay m_v0 (m_run true).2 = Some b ∧ at_current_phase b = "complete" ∧
       at_rounds_consumed b = 2.
Proof.
  destruct (audits_replayable "r1" m_store m_v0 (m_hops true) (m_run true).1 (m_run true).2)
    as (b & H1 & H2 & _);
    [vm_compute; reflexivity|vm_compute; reflexivity|repeat constructor|apply surjective_pairing|].
  exists b. split; [exact H1|]. split; [exact H2|].
  assert (replay m_v0 (m_run true).2 = Some m_v2.1) as E by (vm_compute; reflexivity).
  rewrite E in H2. apply (inj Some) in H2. rewrite <-H2. split; vm_compute; reflexivity.
Defined.

Lemma lost_delta_unreplayable_witness : replay m_v0 (m_run false).2 = None ∧ (m_run false).2 ≠ [].
Proof.
  assert ((m_run false).2 ≠ []) as Hne by (vm_compute; discriminate).
  split; [|exact Hne].
  refine (lost_delta_unreplayable "r1" m_store m_v0 (mkHop m_first 1 7 false) [mkHop m_second 2 7 true]
    (m_run false).1 (m_run false).2 _ _ _ _ _ _ _ _ Hne);
    [vm_compute; reflexivity|vm_compute; reflexivity|reflexivity|reflexivity|repeat constructor|
     vm_compute; eexists; reflexivity|reflexivity|apply surjective_pairing].
Defined.

Lemma complete_means_verified_witness :
  decisions_ok m_v2.1 ∧ (at_current_phase m_v2.1 = "complete" →
    ∀ c, c ∈ at_acceptance_criteria m_v2.1 → c_id c ∈ verified_ids m_v2.1).
Proof.
  destruct (complete_means_verified m_v1.1 m_second 1 7 m_v2.1 m_v2.2) as (H1 & H2 & _).
  - vm_compute; reflexivity.
  - split; [apply (bool_decide_unpack _); vm_compute; exact I|apply (bool_decide_unpack _); vm_compute; exact I].
  - apply (bool_decide_unpack _); vm_compute; exact I.
  - split; apply (bool_decide_unpack _); vm_compute; exact I.
  - vm_compute; reflexivity.
  - split; [exact H1|]. intros E. apply H2, E.
Defined.

Definition m_world : MeaWorld := mkMeaWorld ∅ [].
Definition m_bind : MeaWorld * result RunState := bind_after_intake m_hash m_intake m_policy true 0 m_world.

Lemma activation_three_layers_witness : three_layers m_intake m_policy = true ∧ mw_notes m_bind.1 = [].
Proof.
  split; [reflexivity|].
  refine (proj1 (proj2 (proj2 (activation_three_layers m_hash m_intake m_policy true 0 m_world m_bind.1
    (m_intake <| mea_active := true |> <| mea_fallback_reason := None |>) _ _))) _); vm_compute; reflexivity.
Defined.

Definition m_subtask : SubtaskContract :=
  match propose_subtask m_v0 "s1" "d" None None 50 with
  | Ok (inl c) => c | _ => mkSubtask "" 0 "" [] default_scope default_Budget 0 [] [] end.

Lemma subtask_fits_residual_witness :
  max_attempts (su_budget m_subtask) = 1 ∧ 0 < at_max_rounds m_v0 - at_rounds_consumed m_v0 ∧ subtask_valid m_subtask = true.
Proof.
  destruct (subtask_fits_residual m_v0 "s1" "d" None None 50 m_subtask) as (H1 & _ & _ & _ & _ & _ & H2); [vm_compute; reflexivity|].
  split; [vm_compute; reflexivity|]. split; [exact H1|exact H2].
Defined.
