(* ===== verification/Skills.v ===== *)
(** * Skill records (contracts/skill.py, status.py, stats.py, common.py, lint.py)

    The three halves of a skill: the immutable [SkillVersion] with its
    validators (patterns, the step graph, placeholders), the lifecycle
    projection [SkillStatus] and the derived [SkillStats].  The theorems: the
    step check accepts exactly the graphs that have a topological order, so an
    accepted skill has no step that depends on itself; the application counter
    counts distinct sessions and stays bounded. *)
From S2P Require Import Prelude PyStr Budgets Contracts.
From Stdlib Require Import ZArith Lia Ascii.
Open Scope Z_scope.

(** ** contracts/common.py *)

Inductive Curation := human_authored | mined_from_human_artifact | mined_from_paper | self_distilled.
Inductive Derivation := success_transcript | failure_cluster | mined_artifact | hand_authored.
Inductive Lifecycle := lc_draft | lc_candidate | lc_shadow | lc_approved | lc_benched | lc_needs_recert
  | lc_deprecated | lc_quarantined.
#[export] Instance Curation_eq_dec : EqDecision Curation. Proof. solve_decision. Defined.
#[export] Instance Lifecycle_eq_dec : EqDecision Lifecycle. Proof. solve_decision. Defined.
Definition RETRIEVABLE_LIFECYCLES : list Lifecycle := [lc_approved; lc_shadow].

(** ** Field patterns *)

Definition is_lower (c : ascii) : bool := let n := nat_of_ascii c in ((97 <=? n) && (n <=? 122))%nat.
Definition is_digit (c : ascii) : bool := let n := nat_of_ascii c in ((48 <=? n) && (n <=? 57))%nat.

(** [^[a-z0-9]+(<sep>[a-z0-9]+)*$]: [word] tells whether the current segment
    already has a character. *)
Fixpoint segments (sep : ascii) (word : bool) (s : string) : bool :=
  match s with
  | EmptyString => word
  | String c s' =>
      if is_lower c || is_digit c then segments sep true s'
      else if Ascii.eqb c sep then word && segments sep false s' else false
  end.
Definition _SKILL_ID_PATTERN (s : string) : bool := segments "-" false s.
Definition _STEP_ID_PATTERN (s : string) : bool := segments "_" false s.

Definition name_start (c : ascii) : bool := is_lower c || Ascii.eqb c "_".
Definition name_char (c : ascii) : bool := name_start c || is_digit c.
(** [^[a-z_][a-z0-9_]*$] *)
Definition name_pattern (s : string) : bool :=
  match s with EmptyString => false | String c s' => name_start c && all_chars name_char s' end.

(** ** contracts/skill.py *)

Inductive ParameterType := pt_string | pt_number | pt_boolean | pt_path | pt_enum | pt_json.
Record SkillParameter := mkParameter {
  pa_name : string; pa_type : ParameterType; pa_required : bool; pa_default : option json;
  pa_enum_values : option (list string); pa_description : option string }.

Inductive PreconditionKind := pk_file_exists | pk_path_glob | pk_env_present | pk_tool_available | pk_probe.
#[export] Instance PreconditionKind_eq_dec : EqDecision PreconditionKind. Proof. solve_decision. Defined.
Record Precondition := mkPrecondition {
  pc_kind : PreconditionKind; pc_value : string; pc_arguments : json_obj; pc_description : option string }.

Inductive LoopUntil := until_criteria_pass | until_no_change | until_predicate.
Record StepLoop := mkStepLoop { sl_until : LoopUntil; sl_predicate : option string; sl_max_iterations : Z }.

Inductive StepValueType := vt_string | vt_number | vt_boolean | vt_path | vt_json.
#[export] Instance StepValueType_eq_dec : EqDecision StepValueType. Proof. solve_decision. Defined.
Inductive ValueFrom := from_stdout | from_stderr | from_exit_code.
Record StepOutput := mkStepOutput { so_name : string; so_type : StepValueType; so_value_from : ValueFrom }.
Record InputBinding := mkInputBinding { ib_input : string; ib_source_step : string; ib_output : string }.

Record Step := mkStep {
  st_id : string; st_tool : option string; st_intent : string; st_inputs : json_obj;
  st_outputs : list StepOutput; st_input_bindings : list InputBinding; st_optional : bool;
  st_resources : list ResourceClaim; st_loop : option StepLoop }.

Record FailureMode := mkFailureMode { fm_symptom : string; fm_response : string }.

Record Provenance := mkSkillProvenance {
  pv_distilled_from_run : string; pv_distilled_at : datetime; pv_authored_by : option string;
  pv_curation : Curation; pv_derivation : option Derivation; pv_failure_cluster_id : option string;
  pv_authoring_prior_version : option string; pv_evolved_because : option string; pv_model : option string;
  pv_source_case_ids : list string; pv_source_run_ids : list string; pv_source_session_ids : list string;
  pv_source_contributor_ids : list string; pv_attribution_summary : option string }.

Inductive SecretScan := scan_passed | scan_failed | scan_skipped.
#[export] Instance SecretScan_eq_dec : EqDecision SecretScan. Proof. solve_decision. Defined.
Record Hygiene := mkHygiene {
  hy_secret_scan : SecretScan; hy_scanned_at : option datetime; hy_lint_content_hash : option string }.
#[export] Instance eta_Hygiene : Eta Hygiene := λ h, mkHygiene (hy_secret_scan h) (hy_scanned_at h) (hy_lint_content_hash h).

Record SkillUse := mkSkillUse { us_skill_id : string; us_version : Z }.
#[export] Instance SkillUse_eq_dec : EqDecision SkillUse. Proof. solve_decision. Defined.

(** contracts/criteria.py: the shared [_CriterionFields], then its own two. *)
Inductive AuthoredBy := by_distiller | by_human.
Record SkillCertificationCriterion := mkCertCriterion {
  cc_id : string; cc_kind : CriterionKind; cc_run : option string; cc_expect_exit : Z; cc_expr : option string;
  cc_target : option string; cc_schema_ref : option string; cc_metric : option string; cc_op : option MetricOp;
  cc_threshold : option float; cc_rubric : option string; cc_isolation : Isolation; cc_lens : option Lens;
  cc_timeout_s : Z; cc_weight : float; cc_sensitivity_proof : option SensitivityProof;
  cc_authored_by : AuthoredBy; cc_preregistered : bool }.
(** The shared fields in the form [Contracts] reads them. *)
Definition shared_fields (c : SkillCertificationCriterion) : TaskCriterion :=
  mkTaskCriterion (cc_id c) (cc_kind c) (cc_run c) (cc_expect_exit c) (cc_expr c) (cc_target c) (cc_schema_ref c)
    (cc_metric c) (cc_op c) (cc_threshold c) (cc_rubric c) (cc_isolation c) (cc_lens c) (cc_timeout_s c)
    (cc_weight c) (cc_sensitivity_proof c) from_critic (cc_preregistered c).
Definition is_judge (c : SkillCertificationCriterion) : bool := bool_decide (cc_kind c = K_judge).

Inductive SkillScope := scope_run | scope_project | scope_org | scope_global.
Record SkillVersion := mkSkillVersion {
  sv_skill_id : string; sv_version : Z; sv_supersedes : option Z; sv_title : string; sv_intent : string;
  sv_task_class : string; sv_tags : list string; sv_scope : SkillScope; sv_uses : list SkillUse;
  sv_parameters : list SkillParameter; sv_preconditions : list Precondition; sv_steps : list Step;
  sv_certification_criteria : list SkillCertificationCriterion; sv_failure_modes : list FailureMode;
  sv_provenance : Provenance; sv_hygiene : Hygiene }.
#[export] Instance eta_SkillVersion : Eta SkillVersion := λ v,
  mkSkillVersion (sv_skill_id v) (sv_version v) (sv_supersedes v) (sv_title v) (sv_intent v) (sv_task_class v)
    (sv_tags v) (sv_scope v) (sv_uses v) (sv_parameters v) (sv_preconditions v) (sv_steps v)
    (sv_certification_criteria v) (sv_failure_modes v) (sv_provenance v) (sv_hygiene v).

(** *** Validators *)

Definition has_dup {A} `{EqDecision A} (l : list A) : bool := negb (bool_decide (NoDup l)).

Definition _source_matches_type (o : StepOutput) : bool :=
  match so_value_from o with
  | from_exit_code => bool_decide (so_type o = vt_number)
  | from_stdout | from_stderr => negb (bool_decide (so_type o = vt_number))
  end.
Definition output_valid (o : StepOutput) : bool := name_pattern (so_name o) && _source_matches_type o.
Definition binding_valid (b : InputBinding) : bool :=
  name_pattern (ib_input b) && _STEP_ID_PATTERN (ib_source_step b) && name_pattern (ib_output b).
Definition loop_valid (l : StepLoop) : bool := (1 <=? sl_max_iterations l) && (sl_max_iterations l <=? 10).

Definition _outputs_and_bindings_are_unique (s : Step) : bool :=
  negb (has_dup (map so_name (st_outputs s))) && negb (has_dup (map ib_input (st_input_bindings s))).
Definition step_valid (s : Step) : bool :=
  _STEP_ID_PATTERN (st_id s) && (5 <=? String.length (st_intent s))%nat && forallb output_valid (st_outputs s) &&
  forallb binding_valid (st_input_bindings s) && match st_loop s with Some l => loop_valid l | None => true end &&
  _outputs_and_bindings_are_unique s.

Definition step_dependencies (s : Step) : list string := remove_dups (map ib_source_step (st_input_bindings s)).

Definition find_step (steps : list Step) (id : string) : option Step := find_first (λ s, String.eqb (st_id s) id) steps.

(** Every binding reads a named output of another step. *)
Definition binding_resolves (steps : list Step) (s : Step) (b : InputBinding) : bool :=
  negb (String.eqb (ib_source_step b) (st_id s)) &&
  match find_step steps (ib_source_step b) with
  | None => false
  | Some src => bool_decide (ib_output b ∈ map so_name (st_outputs src))
  end.

(** Kahn's algorithm: [indegree] counts unvisited dependencies, the queue is a
    stack whose last element is popped. *)
Definition successors (steps : list Step) (id : string) : list string :=
  map st_id (List.filter (λ s, bool_decide (id ∈ step_dependencies s)) steps).
Definition indegree0 (steps : list Step) : gmap string Z :=
  list_to_map (map (λ s, (st_id s, Z.of_nat (length (step_dependencies s)))) steps).
Definition relax (st : gmap string Z * list string) (nxt : string) : gmap string Z * list string :=
  let d := default 0 (st.1 !! nxt) - 1 in
  (<[nxt := d]> st.1, if d =? 0 then st.2 ++ [nxt] else st.2).
Fixpoint kahn (fuel : nat) (steps : list Step) (indegree : gmap string Z) (queue : list string) (visited : nat) : nat :=
  match fuel, rev queue with
  | S fuel', node :: rest =>
      let '(indegree', queue') := foldl relax (indegree, rev rest) (successors steps node) in
      kahn fuel' steps indegree' queue' (S visited)
  | _, _ => visited
  end.
(** [[sid for sid, deg in indegree.items() if deg == 0]] *)
Definition sources (steps : list Step) : list string :=
  map st_id (List.filter (λ s, is_nil (step_dependencies s)) steps).

Definition _steps_form_a_dag (steps : list Step) : bool :=
  negb (has_dup (map st_id steps)) &&
  forallb (λ s, forallb (binding_resolves steps s) (st_input_bindings s)) steps &&
  Nat.eqb (kahn (length steps) steps (indegree0 steps) (sources steps) 0) (length steps).

Definition _at_least_one_non_judge_criterion (v : SkillVersion) : bool :=
  negb (forallb is_judge (sv_certification_criteria v)).

(** [\s] of a str pattern, on ASCII. *)
Definition re_space (c : ascii) : bool := isspace c.
Fixpoint skip_space (s : string) : string :=
  match s with String c s' => if re_space c then skip_space s' else s | EmptyString => s end.
Fixpoint span_name (s : string) : string * string :=
  match s with
  | String c s' => if name_char c then let '(n, r) := span_name s' in (String c n, r) else (EmptyString, s)
  | EmptyString => (EmptyString, s)
  end.
Definition tag_at (s : string) : option (string * string) :=
  match s with
  | String "{" (String "{" s1) =>
      match skip_space s1 with
      | String c _ as s2 =>
          if name_start c then
            let '(n, s3) := span_name s2 in
            match skip_space s3 with String "}" (String "}" s4) => Some (n, s4) | _ => None end
          else None
      | EmptyString => None
      end
  | _ => None
  end.
(** [re.findall]: fuel [String.length], each round consumes a character. *)
Fixpoint placeholders (fuel : nat) (s : string) : list string :=
  match fuel, s with
  | S fuel', String _ s' =>
      match tag_at s with
      | Some (n, rest) => n :: placeholders fuel' rest
      | None => placeholders fuel' s'
      end
  | _, _ => []
  end.
Definition _placeholders_in (text : string) : list string := placeholders (String.length text) text.

Definition truthy_text (o : option string) : list string :=
  match o with Some s => if String.eqb s "" then [] else [s] | None => [] end.
Definition used_placeholders (v : SkillVersion) : list string :=
  flat_map (λ s, _placeholders_in (st_intent s) ++
                 flat_map (λ kv : string * json, match kv.2 with JStr t => _placeholders_in t | _ => [] end) (st_inputs s))
    (sv_steps v) ++
  flat_map (λ c, flat_map _placeholders_in (truthy_text (cc_run c) ++ truthy_text (cc_rubric c) ++ truthy_text (cc_expr c)))
    (sv_certification_criteria v).
Definition _parameters_cover_placeholders (v : SkillVersion) : bool :=
  forallb (λ p, bool_decide (p ∈ map pa_name (sv_parameters v))) (used_placeholders v).

Definition _uses_within_depth (v : SkillVersion) : bool := negb (has_dup (sv_uses v)).

Definition skill_valid (v : SkillVersion) : bool :=
  _SKILL_ID_PATTERN (sv_skill_id v) && (1 <=? sv_version v) &&
  match sv_supersedes v with Some n => 1 <=? n | None => true end &&
  ((8 <=? String.length (sv_title v)) && (String.length (sv_title v) <=? 120) && (20 <=? String.length (sv_intent v)))%nat &&
  _SKILL_ID_PATTERN (sv_task_class v) &&
  forallb (λ u, _SKILL_ID_PATTERN (us_skill_id u) && (1 <=? us_version u)) (sv_uses v) &&
  forallb (λ p, name_pattern (pa_name p)) (sv_parameters v) &&
  negb (is_nil (sv_steps v)) && forallb step_valid (sv_steps v) &&
  negb (is_nil (sv_certification_criteria v)) &&
  forallb (λ c, criterion_valid (shared_fields c)) (sv_certification_criteria v) &&
  _steps_form_a_dag (sv_steps v) && _at_least_one_non_judge_criterion v &&
  _parameters_cover_placeholders v && _uses_within_depth v.
Definition new_SkillVersion (v : SkillVersion) : result SkillVersion :=
  if skill_valid v then Ok v else Err ValidationError.

(** ** contracts/status.py *)

Inductive RecertStatus := rc_fresh | rc_stale | rc_failed | rc_never.
#[export] Instance RecertStatus_eq_dec : EqDecision RecertStatus. Proof. solve_decision. Defined.
Record Certification := mkCertification {
  ce_model_validated_on : option string; ce_tool_fingerprint : list (string * string);
  ce_golden_set_ref : option string; ce_last_recertified_at : option datetime; ce_recert_status : RecertStatus }.
#[export] Instance Certification_eq_dec : EqDecision Certification. Proof. solve_decision. Defined.
Definition no_certification : Certification := mkCertification None [] None None rc_never.

Inductive RetirementReason := rr_negative_contribution | rr_cap_pressure | rr_superseded_child | rr_manual.
#[export] Instance RetirementReason_eq_dec : EqDecision RetirementReason. Proof. solve_decision. Defined.
Record Retirement := mkRetirement {
  re_benched_at : option datetime; re_reason : option RetirementReason; re_evidence : option text;
  re_restored_at : option datetime; re_grace_period_remaining : option Z }.
#[export] Instance farg_eq_dec : EqDecision farg. Proof. solve_decision. Defined.
#[export] Instance text_eq_dec : EqDecision text. Proof. solve_decision. Defined.
#[export] Instance Retirement_eq_dec : EqDecision Retirement. Proof. solve_decision. Defined.
#[export] Instance eta_Retirement : Eta Retirement := λ r,
  mkRetirement (re_benched_at r) (re_reason r) (re_evidence r) (re_restored_at r) (re_grace_period_remaining r).
Definition no_retirement : Retirement := mkRetirement None None None None None.

Record SkillStatus := mkStatus {
  ss_skill_id : string; ss_version : Z; ss_lifecycle : Lifecycle; ss_active : bool;
  ss_certification : Certification; ss_retirement : Retirement }.
#[export] Instance SkillStatus_eq_dec : EqDecision SkillStatus. Proof. solve_decision. Defined.
#[export] Instance eta_SkillStatus : Eta SkillStatus := λ s,
  mkStatus (ss_skill_id s) (ss_version s) (ss_lifecycle s) (ss_active s) (ss_certification s) (ss_retirement s).
Definition _active_requires_retrievable_lifecycle (s : SkillStatus) : bool :=
  negb (ss_active s) || bool_decide (ss_lifecycle s ∈ RETRIEVABLE_LIFECYCLES).
Definition is_retrievable (s : SkillStatus) : bool := bool_decide (ss_lifecycle s = lc_approved) && ss_active s.
(** [SkillStatus(skill_id=..., version=..., lifecycle=...)] with its defaults. *)
Definition new_status (id : string) (v : Z) (l : Lifecycle) : SkillStatus :=
  mkStatus id v l false no_certification no_retirement.

(** ** contracts/stats.py *)

Record PredictiveTrust := mkTrust {
  pt_applications : Z; pt_successes : Z; pt_last_used_at : option datetime; pt_decayed_score : option float }.
#[export] Instance PredictiveTrust_eq_dec : EqDecision PredictiveTrust. Proof. solve_decision. Defined.
#[export] Instance eta_PredictiveTrust : Eta PredictiveTrust := λ t,
  mkTrust (pt_applications t) (pt_successes t) (pt_last_used_at t) (pt_decayed_score t).
Definition trust_score (applications successes : Z) : float := dec (successes + 1) (applications + 2).
Definition score (t : PredictiveTrust) : float := trust_score (pt_applications t) (pt_successes t).

Record Contribution := mkContribution {
  co_applications : Z; co_successes : Z; co_suppressed_applications : Z; co_suppressed_successes : Z;
  co_interval_low : option float; co_interval_high : option float; co_last_evaluated_at : option datetime }.
#[export] Instance Contribution_eq_dec : EqDecision Contribution. Proof. solve_decision. Defined.
Definition no_contribution : Contribution := mkContribution 0 0 0 0 None None None.
Definition estimate (c : Contribution) : option float :=
  if (co_applications c =? 0) || (co_suppressed_applications c =? 0) then None
  else Some (dec (co_successes c) (co_applications c) ⊖ dec (co_suppressed_successes c) (co_suppressed_applications c)).

Record RetrievalAblationEffect := mkAblation {
  ra_task_class : string; ra_enabled : Z; ra_enabled_successes : Z; ra_suppressed : Z; ra_suppressed_successes : Z;
  ra_interval_low : option float; ra_interval_high : option float; ra_last_evaluated_at : option datetime }.

Record ApplyDiversity := mkDiversity {
  ad_distinct_apply_sessions : Z; ad_apply_session_sample : list string; ad_floor : Z }.
#[export] Instance ApplyDiversity_eq_dec : EqDecision ApplyDiversity. Proof. solve_decision. Defined.
Definition no_diversity : ApplyDiversity := mkDiversity 0 [] 30.
Definition note (d : ApplyDiversity) (session_id : string) : ApplyDiversity :=
  if String.eqb session_id "" then d
  else if bool_decide (session_id ∈ ad_apply_session_sample d) then d
  else if is_nil (ad_apply_session_sample d) && (ad_floor d <=? ad_distinct_apply_sessions d) then d
  else
    let count := ad_distinct_apply_sessions d + 1 in
    mkDiversity count (if ad_floor d <=? count then [] else ad_apply_session_sample d ++ [session_id]) (ad_floor d).

Record SkillStats := mkStats {
  sk_skill_id : string; sk_version : Z; sk_predictive_trust : PredictiveTrust; sk_contribution : Contribution;
  sk_apply_diversity : ApplyDiversity }.
#[export] Instance SkillStats_eq_dec : EqDecision SkillStats. Proof. solve_decision. Defined.
#[export] Instance eta_SkillStats : Eta SkillStats := λ s,
  mkStats (sk_skill_id s) (sk_version s) (sk_predictive_trust s) (sk_contribution s) (sk_apply_diversity s).
Definition new_stats (id : string) (v : Z) : SkillStats :=
  mkStats id v (mkTrust 0 0 None None) no_contribution no_diversity.
(** [_sample_bounded_by_floor] *)
Definition diversity_ok (d : ApplyDiversity) : bool :=
  (Z.of_nat (length (ad_apply_session_sample d)) <=? ad_floor d) &&
  (Z.of_nat (length (ad_apply_session_sample d)) <=? ad_distinct_apply_sessions d).

(** ** The step graph *)

Section Dag.
Context (steps : list Step).
Hypothesis Hids : NoDup (map st_id steps).
Let ids := map st_id steps.

Definition deps (id : string) : list string :=
  match find_step steps id with Some s => step_dependencies s | None => [] end.

Lemma find_step_self s : s ∈ steps → find_step steps (st_id s) = Some s.
Proof.
  unfold find_step. clear ids. induction steps as [|x l IH]; intros Hs; [by apply elem_of_nil in Hs|].
  simpl in *. apply NoDup_cons in Hids as [Hx Hl]. destruct (String.eqb_spec (st_id x) (st_id s)) as [E|E].
  - apply elem_of_cons in Hs as [->|Hs]; [done|]. destruct Hx. rewrite E. by apply (list_elem_of_fmap_2 st_id).
  - apply elem_of_cons in Hs as [->|Hs]; [done|]. by apply IH.
Qed.
Lemma deps_self s : s ∈ steps → deps (st_id s) = step_dependencies s.
Proof. intros Hs. unfold deps. by rewrite find_step_self. Qed.
Lemma deps_NoDup id : NoDup (deps id).
Proof. unfold deps. destruct (find_step steps id); [apply NoDup_remove_dups|constructor]. Qed.
Lemma ids_step id : id ∈ ids → ∃ s, s ∈ steps ∧ st_id s = id.
Proof. intros (s & -> & Hs)%list_elem_of_fmap. eauto. Qed.

Lemma NoDup_lfilter {A} (p : A → bool) l : NoDup l → NoDup (List.filter p l).
Proof.
  induction 1 as [|x l Hx Hl IH]; simpl; [constructor|]. destruct (p x); [|done]. constructor; [|done].
  rewrite elem_of_lfilter. tauto.
Qed.
Lemma successors_NoDup node : NoDup (successors steps node).
Proof. by apply NoDup_map_filter. Qed.
Lemma elem_of_successors node id : id ∈ successors steps node ↔ id ∈ ids ∧ node ∈ deps id.
Proof.
  unfold successors. rewrite list_elem_of_fmap. split.
  - intros (s & -> & [Hs Hn]%list_elem_of_In%filter_In). rewrite <- list_elem_of_In in Hs.
    rewrite (deps_self s Hs). split; [by apply (list_elem_of_fmap_2 st_id)|by apply bool_decide_eq_true in Hn].
  - intros [(s & Hs & <-)%ids_step Hn]. exists s. split; [done|]. apply list_elem_of_In, filter_In.
    rewrite <- list_elem_of_In. rewrite (deps_self s Hs) in Hn. split; [done|by apply bool_decide_eq_true].
Qed.

(** The inner loop: every successor loses one, those at zero are queued. *)
Lemma relax_fold l m q :
  NoDup l →
  (foldl relax (m, q) l).2 = q ++ List.filter (λ x, default 0 (m !! x) - 1 =? 0) l ∧
  ∀ x, (foldl relax (m, q) l).1 !! x = if bool_decide (x ∈ l) then Some (default 0 (m !! x) - 1) else m !! x.
Proof.
  revert m q. induction l as [|y l IH]; intros m q Hl; simpl.
  { split; [by rewrite app_nil_r|]. done. }
  apply NoDup_cons in Hl as [Hy Hl]. unfold relax at 2. unfold relax at 3. cbn [fst snd].
  destruct (IH (<[y:=default 0 (m !! y) - 1]> m) (if default 0 (m !! y) - 1 =? 0 then q ++ [y] else q) Hl) as [E1 E2].
  split.
  - rewrite E1. assert (List.filter (λ x, default 0 (<[y:=default 0 (m !! y) - 1]> m !! x) - 1 =? 0) l =
      List.filter (λ x, default 0 (m !! x) - 1 =? 0) l) as ->.
    { apply List.filter_ext_in. intros x Hx%list_elem_of_In. rewrite lookup_insert_ne; [done|]. congruence. }
    destruct (default 0 (m !! y) - 1 =? 0); [by rewrite <- (assoc_L (++))|done].
  - intros x. rewrite E2. destruct (decide (x = y)) as [->|Hxy].
    + rewrite (bool_decide_false (y ∈ l)), (bool_decide_true (y ∈ y :: l)) by (by try left). by rewrite lookup_insert_eq.
    + rewrite lookup_insert_ne by congruence. destruct (decide (x ∈ l)).
      * by rewrite !bool_decide_true by (by try right).
      * rewrite !bool_decide_false; [done| |done]. rewrite elem_of_cons. naive_solver.
Qed.

Definition pending (V : list string) (id : string) : Z :=
  Z.of_nat (length (List.filter (λ d, negb (bool_decide (d ∈ V))) (deps id))).
Lemma pending_zero V id : pending V id = 0 ↔ deps id ⊆ V.
Proof.
  unfold pending. induction (deps id) as [|d l IH]; simpl; [split; [intros _ x Hx; by apply elem_of_nil in Hx|done]|].
  destruct (decide (d ∈ V)) as [Hd|Hd].
  - rewrite bool_decide_true by done. simpl. rewrite IH. split; intros H x Hx.
    + apply elem_of_cons in Hx as [->|Hx]; [done|by apply H].
    + apply H. by right.
  - rewrite bool_decide_false by done. simpl. split; [lia|]. intros H. destruct Hd. apply H. by left.
Qed.
Lemma pending_cons V node id :
  node ∉ V → pending (node :: V) id = pending V id - (if bool_decide (node ∈ deps id) then 1 else 0).
Proof.
  intros Hn. unfold pending. pose proof (deps_NoDup id) as Hd. revert Hd.
  induction (deps id) as [|d l IH]; intros Hd; simpl; [done|]. apply NoDup_cons in Hd as [Hx Hl]. specialize (IH Hl).
  destruct (decide (d = node)) as [->|Hne].
  - rewrite (bool_decide_true (node ∈ node :: V)) by (by left). rewrite (bool_decide_false (node ∈ V)) by done.
    rewrite (bool_decide_true (node ∈ node :: l)) by (by left). rewrite (bool_decide_false (node ∈ l)) in IH by done.
    simpl. lia.
  - assert (bool_decide (d ∈ node :: V) = bool_decide (d ∈ V)) as ->.
    { apply bool_decide_ext. rewrite elem_of_cons. naive_solver. }
    assert (bool_decide (node ∈ d :: l) = bool_decide (node ∈ l)) as ->.
    { apply bool_decide_ext. rewrite elem_of_cons. naive_solver. }
    destruct (bool_decide (d ∈ V)); simpl in *; lia.
Qed.

(** Newest first: every visited step was visited after what it depends on. *)
Fixpoint laid_out (V : list string) : Prop :=
  match V with [] => True | v :: V' => deps v ⊆ V' ∧ laid_out V' end.

Record kahn_inv (m : gmap string Z) (q V : list string) : Prop := {
  ki_indegree : ∀ id, id ∈ ids → m !! id = Some (pending V id);
  ki_NoDup : NoDup (q ++ V);
  ki_ready : ∀ id, id ∈ q ++ V ↔ id ∈ ids ∧ deps id ⊆ V;
  ki_order : laid_out V }.

Lemma kahn_start : kahn_inv (indegree0 steps) (sources steps) [].
Proof.
  split.
  - intros id (s & Hs & <-)%ids_step. unfold indegree0. apply elem_of_list_to_map_1.
    + rewrite map_map. exact Hids.
    + apply list_elem_of_fmap. exists s. split; [|done]. f_equal. unfold pending. rewrite deps_self by done.
      f_equal. f_equal. symmetry. induction (step_dependencies s) as [|d l IH]; simpl; [done|]. f_equal. exact IH.
  - rewrite app_nil_r. by apply NoDup_map_filter.
  - intros id. rewrite app_nil_r. unfold sources. rewrite list_elem_of_fmap. split.
    + intros (s & -> & [Hs%list_elem_of_In Hn]%list_elem_of_In%filter_In). rewrite deps_self by done.
      split; [by apply (list_elem_of_fmap_2 st_id)|]. destruct (step_dependencies s); done.
    + intros [(s & Hs & <-)%ids_step Hd]. rewrite deps_self in Hd by done. exists s. split; [done|].
      apply list_elem_of_In, filter_In. rewrite <- list_elem_of_In. split; [done|].
      destruct (step_dependencies s) as [|d l]; [done|]. specialize (Hd d ltac:(left)). by apply elem_of_nil in Hd.
  - done.
Qed.

Lemma kahn_step m q V node :
  kahn_inv m (q ++ [node]) V →
  let st := foldl relax (m, q) (successors steps node) in kahn_inv st.1 st.2 (node :: V).
Proof.
  intros [H1 H2 H3 H4] st.
  destruct (relax_fold (successors steps node) m q (successors_NoDup node)) as [E1 E2]. fold st in E1, E2.
  rewrite <- (assoc_L (++)) in H2. apply NoDup_app in H2 as (Hq & Hqv & HV). apply NoDup_cons in HV as [HnV HV].
  assert (node ∈ ids ∧ deps node ⊆ V) as [Hni Hnd] by (apply H3; set_solver).
  assert (∀ id, id ∈ ids → default 0 (m !! id) - 1 =? 0 = true ↔ pending V id = 1) as Hone.
  { intros id Hid. rewrite (H1 id Hid). simpl. lia. }
  assert (∀ id, id ∈ st.2 ↔ id ∈ q ∨ (id ∈ ids ∧ node ∈ deps id ∧ pending V id = 1)) as Hq'.
  { intros id. rewrite E1, elem_of_app, elem_of_lfilter, elem_of_successors. split.
    - intros [?|(H&?&?)]; [by left|right]. split_and!; [done..|]. by apply Hone.
    - intros [?|(?&?&?)]; [by left|right]. split_and!; [by apply Hone|done..]. }
  assert (∀ id, id ∈ ids → deps id ⊆ node :: V ↔ deps id ⊆ V ∨ (node ∈ deps id ∧ pending V id = 1)) as Hnew.
  { intros id Hid. rewrite <- !pending_zero, pending_cons by done. destruct (decide (node ∈ deps id)) as [Hin|Hin].
    - rewrite bool_decide_true by done. split; [intros H; right; split; [done|lia]|]. intros [H|[_ H]]; [|lia].
      apply pending_zero in H. destruct HnV. by apply H.
    - rewrite bool_decide_false by done. split; [intros H; left; lia|]. intros [H|[H _]]; [lia|done]. }
  split.
  - intros id Hid. rewrite E2, pending_cons by done. destruct (decide (node ∈ deps id)) as [Hin|Hin].
    + rewrite (bool_decide_true (id ∈ _)) by (by apply elem_of_successors). rewrite (H1 id Hid), bool_decide_true by done. done.
    + rewrite (bool_decide_false (id ∈ _)) by (rewrite elem_of_successors; tauto). rewrite (H1 id Hid), bool_decide_false by done.
      f_equal. lia.
  - assert (∀ id, id ∈ q ∨ id ∈ V → pending V id ≠ 1) as Hold.
    { intros id Hid. assert (deps id ⊆ V) as Hd by (apply H3; set_solver). apply pending_zero in Hd. lia. }
    rewrite E1. apply NoDup_app. split_and!.
    + apply NoDup_app. split_and!; [done| |by apply NoDup_lfilter, successors_NoDup].
      intros x Hx [Hp [Hxi _]%elem_of_successors]%elem_of_lfilter. apply (Hold x); [by left|by apply Hone].
    + intros x [Hx|[Hp [Hxi Hxd]%elem_of_successors]%elem_of_lfilter]%elem_of_app [->|Hv]%elem_of_cons.
      * apply (Hqv node Hx). left.
      * apply (Hqv x Hx). by right.
      * apply Hnd in Hxd. done.
      * apply (Hold x); [by right|by apply Hone].
    + by constructor.
  - intros id. rewrite elem_of_app, Hq', elem_of_cons. specialize (H3 id).
    rewrite !elem_of_app, list_elem_of_singleton in H3. split.
    + intros [[Hx|(?&?&?)]|[->|Hx]].
      * destruct H3 as [[? ?] _]; [by eauto|]. split; [done|]. apply Hnew; eauto.
      * split; [done|]. apply Hnew; eauto.
      * split; [done|]. apply Hnew; eauto.
      * destruct H3 as [[? ?] _]; [by eauto|]. split; [done|]. apply Hnew; eauto.
    + intros [Hid [Hd|[??]]%Hnew]; [|by eauto|done]. destruct H3 as [_ [[?| ->]|?]]; eauto.
  - by split.
Qed.

(** The loop visits [V'] and stops with an empty queue or out of fuel. *)
Lemma kahn_run fuel m q V :
  kahn_inv m q V → ∃ m' q' V', kahn_inv m' q' V' ∧ kahn fuel steps m q (length V) = length V' ∧
    (q' = [] ∨ length V' = length V + fuel)%nat.
Proof.
  revert m q V. induction fuel as [|fuel IH]; intros m q V HI.
  { exists m, q, V. split_and!; [done|done|right; lia]. }
  simpl. destruct (rev q) as [|node rest] eqn:Eq.
  { exists m, q, V. split_and!; [done|done|left]. by rewrite <- (rev_involutive q), Eq. }
  assert (q = rev rest ++ [node]) as -> by (by rewrite <- (rev_involutive q), Eq).
  apply kahn_step in HI. destruct (foldl relax (m, rev rest) (successors steps node)) as [m1 q1].
  destruct (IH m1 q1 (node :: V) HI) as (m' & q' & V' & H1 & H2 & H3). exists m', q', V'.
  split_and!; [done|exact H2|]. destruct H3 as [->|H3]; [by left|right]. simpl in H3. lia.
Qed.

Definition topological (order : list string) : Prop :=
  ∀ l1 id l2, order = l1 ++ id :: l2 → deps id ⊆ l1.
Lemma laid_out_split V : laid_out V ↔ ∀ l1 v l2, V = l1 ++ v :: l2 → deps v ⊆ l2.
Proof.
  induction V as [|x V IH]; simpl.
  - split; [intros _ [] v l2; discriminate|done].
  - rewrite IH. split.
    + intros [Hx HV] [|y l1] v l2 [= -> ->]; [done|]. by apply (HV l1).
    + intros H. split; [by apply (H [])|]. intros l1 v l2 ->. by apply (H (x :: l1)).
Qed.
Lemma topological_rev V : laid_out V ↔ topological (rev V).
Proof.
  rewrite laid_out_split. unfold topological. split; intros H l1 v l2 E.
  - rewrite <- (rev_involutive V), E, rev_app_distr in H. simpl in H. rewrite <- (assoc_L (++)) in H.
    intros d Hd. specialize (H (rev l2) v (rev l1) eq_refl d Hd). rewrite list_elem_of_In, <- in_rev, <- list_elem_of_In in H. done.
  - rewrite E, rev_app_distr in H. simpl in H. rewrite <- (assoc_L (++)) in H. intros d Hd.
    specialize (H (rev l2) v (rev l1) eq_refl d Hd). rewrite list_elem_of_In, <- in_rev, <- list_elem_of_In in H. done.
Qed.

(** A visited set that is stuck holds every topologically placed step. *)
Lemma topological_visited V order :
  (∀ id, id ∈ ids → deps id ⊆ V → id ∈ V) → topological order → (∀ x, x ∈ order → x ∈ ids) → ∀ x, x ∈ order → x ∈ V.
Proof.
  intros HV Ht Hin. assert (∀ l l', order = l ++ l' → ∀ x, x ∈ l → x ∈ V) as H.
  { induction l as [|y l IH] using rev_ind; intros l' E x Hx; [by apply elem_of_nil in Hx|].
    rewrite <- (assoc_L (++)) in E. apply elem_of_app in Hx as [Hx|Hx]; [by apply (IH _ E)|].
    apply list_elem_of_singleton in Hx as ->. apply HV; [apply Hin; rewrite E; set_solver|].
    intros d Hd. apply (IH _ E). by apply (Ht l y l'). }
  intros x. apply (H order []). by rewrite app_nil_r.
Qed.

Lemma kahn_iff :
  kahn (length steps) steps (indegree0 steps) (sources steps) 0 = length steps ↔
  ∃ order, order ≡ₚ ids ∧ topological order.
Proof.
  destruct (kahn_run (length steps) _ _ [] kahn_start) as (m & q & V & [_ HN HR HL] & E & Hstop).
  simpl in E. rewrite E. assert (∀ x, x ∈ V → x ∈ ids) as HVi by (intros x Hx; apply HR; set_solver).
  apply NoDup_app in HN as (_ & _ & HNV). assert (length steps = length ids) as Hn by (by unfold ids; rewrite length_map).
  split.
  - intros Hlen. exists (rev V). split; [|by apply topological_rev].
    transitivity V; [symmetry; apply Permutation_rev|]. apply submseteq_length_Permutation; [by apply NoDup_submseteq|lia].
  - intros (order & Hp & Ht). destruct Hstop as [->|H]; [|simpl in H; lia].
    assert (∀ x, x ∈ ids → x ∈ V) as Hall.
    { intros x Hx. apply (topological_visited V order); [|done| |by rewrite Hp].
      - intros id Hid Hd. by apply HR.
      - intros y Hy. by rewrite <- Hp. }
    rewrite Hn. apply Nat.le_antisymm; apply submseteq_length, NoDup_submseteq; done.
Qed.
End Dag.

(** Step [a] reads an output of step [b]. *)
Definition depends (steps : list Step) (a b : string) : Prop :=
  ∃ s, s ∈ steps ∧ st_id s = a ∧ b ∈ step_dependencies s.

Lemma and_iff_compat_l' (A B C D : Prop) : (A → B ∧ C ↔ D) → ((A ∧ B) ∧ C ↔ A ∧ D).
Proof. tauto. Qed.
Lemma and_iff_compat' (A B C D : Prop) : (A ↔ C) → (B ↔ D) → (A ∧ B ↔ C ∧ D).
Proof. tauto. Qed.

Lemma depends_deps steps a b : NoDup (map st_id steps) → depends steps a b ↔ b ∈ deps steps a.
Proof.
  intros Hn. split.
  - intros (s & Hs & <- & Hb). by rewrite deps_self.
  - unfold deps, find_step. destruct (find_first _ steps) as [s|] eqn:E; [|by intros ?%elem_of_nil].
    apply find_first_Some in E as [Hs E%String.eqb_eq]. intros Hb. by exists s.
Qed.

Lemma binding_resolves_iff steps s b :
  NoDup (map st_id steps) →
  binding_resolves steps s b = true ↔ ib_source_step b ≠ st_id s ∧
    ∃ src, src ∈ steps ∧ st_id src = ib_source_step b ∧ ib_output b ∈ map so_name (st_outputs src).
Proof.
  intros Hn. unfold binding_resolves. rewrite andb_true_iff, negb_true_iff, String.eqb_neq. apply and_iff_compat_l.
  split.
  - destruct (find_step steps (ib_source_step b)) as [src|] eqn:E; [|done]. intros H%bool_decide_eq_true.
    apply find_first_Some in E as [Hs E%String.eqb_eq]. by exists src.
  - intros (src & Hs & <- & Ho). rewrite find_step_self by done. by apply bool_decide_eq_true.
Qed.

(** In a topological order, what a step needs, however indirectly, is earlier. *)
Lemma topological_tc steps order a b :
  (∀ l1 id l2, order = l1 ++ id :: l2 → ∀ d, depends steps id d → d ∈ l1) →
  tc (depends steps) a b → ∀ l1 l2, order = l1 ++ a :: l2 → b ∈ l1.
Proof.
  intros Ht Hab. induction Hab as [a b H|a c b H _ IH]; intros l1 l2 E; [by apply (Ht _ _ _ E)|].
  pose proof (Ht _ _ _ E _ H) as Hc. apply list_elem_of_split in Hc as (l3 & l4 & ->).
  rewrite <- (assoc_L (++)) in E. specialize (IH l3 (l4 ++ a :: l2) E). set_solver.
Qed.

Lemma dag_check_iff steps :
  _steps_form_a_dag steps = true ↔
    NoDup (map st_id steps) ∧
    (∀ s b, s ∈ steps → b ∈ st_input_bindings s → ib_source_step b ≠ st_id s ∧
       ∃ src, src ∈ steps ∧ st_id src = ib_source_step b ∧ ib_output b ∈ map so_name (st_outputs src)) ∧
    ∃ order, order ≡ₚ map st_id steps ∧
      ∀ l1 id l2, order = l1 ++ id :: l2 → ∀ d, depends steps id d → d ∈ l1.
Proof.
  unfold _steps_form_a_dag, has_dup. rewrite negb_involutive, !andb_true_iff, Nat.eqb_eq, bool_decide_eq_true.
  apply and_iff_compat_l'. intros Hn. rewrite kahn_iff by done. apply and_iff_compat'.
  - rewrite forallb_forall. setoid_rewrite forallb_forall. setoid_rewrite <- list_elem_of_In.
    split; intros H s; [intros b Hs Hb|intros Hs b Hb]; apply binding_resolves_iff; eauto.
  - split; intros (order & Hp & Ht); exists order; (split; [done|]); intros l1 id l2 E d Hd;
      [apply (Ht l1 id l2 E)|eapply Ht; [exact E|]]; by apply depends_deps.
Qed.

(** C32: The step check accepts exactly the skills whose step ids are distinct,
    whose bindings read named outputs of other steps, and whose steps can be
    put in an order where every step comes after all it reads from; in
    particular no step of an accepted skill depends on itself, however many
    steps lie in between. *)
Theorem dag_check_exact steps :
  (_steps_form_a_dag steps = true ↔
     NoDup (map st_id steps) ∧
     (∀ s b, s ∈ steps → b ∈ st_input_bindings s → ib_source_step b ≠ st_id s ∧
        ∃ src, src ∈ steps ∧ st_id src = ib_source_step b ∧ ib_output b ∈ map so_name (st_outputs src)) ∧
     ∃ order, order ≡ₚ map st_id steps ∧
       ∀ l1 id l2, order = l1 ++ id :: l2 → ∀ d, depends steps id d → d ∈ l1) ∧
  (_steps_form_a_dag steps = true → ∀ id, ¬ tc (depends steps) id id).
Proof.
  split; [apply dag_check_iff|]. intros (Hn & Hb & order & Hp & Ht)%dag_check_iff id Hc.
  assert (id ∈ order) as Hin.
  { assert (∃ b, depends steps id b) as (b & s & Hs & <- & _) by (inversion Hc; eauto).
    rewrite Hp. by apply (list_elem_of_fmap_2 st_id). }
  apply list_elem_of_split in Hin as (l1 & l2 & E). pose proof (topological_tc _ _ _ _ Ht Hc _ _ E) as H1.
  rewrite <- Hp, E in Hn. apply NoDup_app in Hn as (_ & Hn & _). apply (Hn id H1). left.
Qed.

(** ** Application sessions *)

Definition noted (l : list string) : gset string := list_to_set (List.filter (λ s, negb (String.eqb s "")) l).

Lemma noted_snoc l s : noted (l ++ [s]) = if String.eqb s "" then noted l else noted l ∪ {[s]}.
Proof.
  unfold noted. rewrite List.filter_app, list_to_set_app_L. simpl.
  destruct (String.eqb s ""); simpl; by rewrite ?(right_id_L ∅ (∪)).
Qed.
Lemma elem_of_noted l s : s ∈ noted l ↔ s ∈ l ∧ s ≠ "".
Proof. unfold noted. rewrite elem_of_list_to_set, elem_of_lfilter, negb_true_iff, String.eqb_neq. tauto. Qed.

(** Below the floor the sample is what was noted; at the floor it is empty. *)
Lemma sessions_sample floor l :
  1 ≤ floor → let d := foldl note (mkDiversity 0 [] floor) l in
  ad_floor d = floor ∧ ad_distinct_apply_sessions d = Z.min floor (Z.of_nat (size (noted l))) ∧
  if Z.of_nat (size (noted l)) <? floor
  then NoDup (ad_apply_session_sample d) ∧ list_to_set (ad_apply_session_sample d) = noted l
  else ad_apply_session_sample d = [].
Proof.
  intros Hf. induction l as [|s l IH] using rev_ind.
  { change (noted []) with (∅ : gset string). rewrite size_empty. simpl.
    rewrite (proj2 (Z.ltb_lt _ _)) by lia. split_and!; [done|lia|constructor|done]. }
  rewrite foldl_app, noted_snoc. simpl. destruct (foldl note _ l) as [n sample fl]. simpl in IH.
  destruct IH as (-> & -> & IH). unfold note. simpl. destruct (String.eqb s "") eqn:Es; [by split_and!|].
  destruct (Z.ltb_spec (Z.of_nat (size (noted l))) floor) as [Hlt|Hge].
  - destruct IH as [Hn Hs]. destruct (bool_decide (s ∈ sample)) eqn:Ein.
    + apply bool_decide_eq_true in Ein. assert (noted l ∪ {[s]} = noted l) as -> by set_solver.
      simpl. rewrite (proj2 (Z.ltb_lt _ _) Hlt). by split_and!.
    + apply bool_decide_eq_false in Ein. assert (s ∉ noted l) as Hni by set_solver.
      rewrite (proj2 (Z.leb_gt floor (Z.min floor _))) by lia. rewrite andb_false_r. simpl.
      assert (size (noted l ∪ {[s]}) = S (size (noted l))) as -> by (rewrite size_union, size_singleton; [lia|set_solver]).
      split_and!; [done|lia|]. destruct (Z.leb_spec floor (Z.min floor (Z.of_nat (size (noted l))) + 1)) as [H|H].
      * rewrite (proj2 (Z.ltb_ge _ _)) by lia. done.
      * rewrite (proj2 (Z.ltb_lt _ _)) by lia. split; [|rewrite list_to_set_app_L, Hs; set_solver].
        apply NoDup_app. split_and!; [done|set_solver|apply NoDup_singleton].
  - rewrite IH. rewrite bool_decide_false by apply not_elem_of_nil. simpl. rewrite (proj2 (Z.leb_le _ _)) by lia. simpl.
    assert (size (noted l) ≤ size (noted l ∪ {[s]}))%nat by (apply subseteq_size; set_solver).
    rewrite (proj2 (Z.ltb_ge _ _)) by lia. split_and!; [done|lia|done].
Qed.

(** The application counter counts distinct sessions up to its floor, in any
    order and however often each is noted; its sample never outgrows the floor
    or the count, and below the floor it is exactly the sessions noted. *)
Theorem sessions_counted floor l :
  1 ≤ floor → let d := foldl note (mkDiversity 0 [] floor) l in
  ad_distinct_apply_sessions d = Z.min floor (Z.of_nat (size (noted l))) ∧ diversity_ok d = true ∧
  (ad_distinct_apply_sessions d < floor → ∀ s, s ∈ ad_apply_session_sample d ↔ s ∈ l ∧ s ≠ "").
Proof.
  intros Hf d. destruct (sessions_sample floor l Hf) as (Ef & En & Es). fold d in Ef, En, Es.
  unfold diversity_ok. rewrite Ef, En, andb_true_iff, !Z.leb_le.
  destruct (Z.ltb_spec (Z.of_nat (size (noted l))) floor) as [Hlt|Hge].
  - destruct Es as [Hn Es]. assert (length (ad_apply_session_sample d) = size (noted l)) as ->
      by (rewrite <- Es; symmetry; by apply size_list_to_set).
    split_and!; [done|lia|lia|]. intros _ s. rewrite <- elem_of_noted, <- Es. by rewrite elem_of_list_to_set.
  - rewrite Es. simpl. split_and!; [done|lia|lia|]. intros ?. lia.
Qed.

(** ** Witnesses *)

Definition demo_step (id : string) (from : list string) : Step :=
  mkStep id None "do it" [] [mkStepOutput "out" vt_string from_stdout]
    (map (λ s, mkInputBinding ("in_" +:+ s) s "out") from) false [] None.
Definition demo_steps : list Step := [demo_step "c" ["a"; "b"]; demo_step "a" []; demo_step "b" ["a"]].

Example demo_steps_ok : _steps_form_a_dag demo_steps = true.
Proof. vm_compute. reflexivity. Qed.
Example demo_cycle_refused : _steps_form_a_dag [demo_step "a" ["b"]; demo_step "b" ["a"]] = false.
Proof. vm_compute. reflexivity. Qed.
Example demo_placeholders : _placeholders_in "use {{ a }} and {{{b_1}} not {{2}} {{c }" = ["a"; "b_1"].
Proof. vm_compute. reflexivity. Qed.

Lemma sessions_counted_witness :
  ad_distinct_apply_sessions (foldl note (mkDiversity 0 [] 3) ["s1"; "s2"; "s1"; ""]) = 2.
Proof.
  refine (eq_trans (proj1 (sessions_counted 3 ["s1"; "s2"; "s1"; ""] _)) _); [lia|vm_compute; reflexivity].
Defined.

Lemma dag_check_exact_witness : ¬ tc (depends demo_steps) "a" "a".
Proof. refine (proj2 (dag_check_exact demo_steps) _ "a"). vm_compute. reflexivity. Defined.
