(* ===== verification/EvalStore.v ===== *)
(** * Evaluation evidence (evals/store.py, contracts/eval.py, stats.py, memory/procedural/contribution.py)

    The [EvalStore] tables as lists in row order, the observation derived from
    a finished run, the SQL aggregates over observations, and the two
    estimators on them.  Times are UTC and their ISO text sorts as they do;
    integers fit SQLite's 64 bits.  The theorems: what a recorded observation
    is and that it stays, that the bulk aggregate is the per-skill one, what a
    failure streak counts, and which runs no aggregate sees. *)
From S2P Require Import Prelude PyStr Budgets Contracts Skills.
From Stdlib Require Import ZArith Lia Ascii.
Open Scope Z_scope.

(** ** contracts/eval.py *)

Record BinomialSample := mkSample { bs_successes : Z; bs_trials : Z }.
#[export] Instance BinomialSample_eq_dec : EqDecision BinomialSample. Proof. solve_decision. Defined.
Definition empty_sample : BinomialSample := mkSample 0 0.
Definition rate (s : BinomialSample) : option float :=
  if bs_trials s =? 0 then None else Some (dec (bs_successes s) (bs_trials s)).
Record ConfidenceInterval := mkInterval { ci_low : float; ci_high : float; ci_level : float; ci_method : string }.

Inductive RunResolution := decided | unresolved | invalid.
#[export] Instance RunResolution_eq_dec : EqDecision RunResolution. Proof. solve_decision. Defined.
Record ControlBaseline := mkBaseline {
  bl_task_class : string; bl_snapshot_id : string; bl_model_version : option string; bl_control : BinomialSample;
  bl_interval : option ConfidenceInterval; bl_created_at : datetime; bl_report_id : option string }.

Record EvalObservation := mkObservation {
  ob_run_id : string; ob_task_class : string; ob_arm : Arm; ob_snapshot_id : string; ob_model_version : option string;
  ob_first_attempt_success : bool; ob_predicted_success : option float; ob_terminal : option Terminal;
  ob_fixture_id : option string; ob_is_eval_fixture : bool; ob_recorded_at : datetime; ob_strategy : option string;
  ob_attempt_no : option Z; ob_cost_usd : option float; ob_abstention_confirmed : option bool;
  ob_skill_id : option string; ob_skill_version : option Z;
  ob_suppressed_skill_id : option string; ob_suppressed_skill_version : option Z;
  ob_valid_non_judge_evidence : bool; ob_evidence_hash : option string; ob_curation : option Curation;
  ob_practice_converted : option bool; ob_resolution : option RunResolution; ob_exit_code : option Z;
  ob_reason : option string }.
Definition observation_valid (o : EvalObservation) : bool :=
  opt_ge 0 (ob_attempt_no o) && match ob_cost_usd o with Some c => f0 <=?. c | None => true end &&
  opt_ge 1 (ob_skill_version o) && opt_ge 1 (ob_suppressed_skill_version o).

(** ** evals/store.py: what a run is recorded as *)

Definition ObservationError : exn := PyError "ObservationError".

(** [{result.criterion_id: result for result in results}]: the last one wins. *)
Definition result_for (rs : list CriterionResult) (id : string) : option CriterionResult :=
  foldl (λ acc r, if String.eqb (r_criterion_id r) id then Some r else acc) None rs.
Fixpoint first_required_exit (rs : list CriterionResult) (cs : list TaskCriterion) : option Z :=
  match cs with
  | [] => None
  | c :: cs' =>
      if negb (is_required c) then first_required_exit rs cs'
      else match (r ← result_for rs (c_id c); r_exit_code r) with
           | Some code => Some code
           | None => first_required_exit rs cs'
           end
  end.
Definition _first_required_exit_code (s : RunState) : option Z := first_required_exit (results s) (criteria s).
Definition _UNRESOLVED_EXITS : list Z := [124; 126].
Definition _UNRESOLVED_REASONS (code : Z) : string :=
  if code =? 124 then "required criterion timed out (exit 124)" else "required criterion unavailable (exit 126)".
Fixpoint first_unresolved (rs : list CriterionResult) (cs : list TaskCriterion) : option Z :=
  match cs with
  | [] => None
  | c :: cs' =>
      if negb (is_required c) then first_unresolved rs cs'
      else match (r ← result_for rs (c_id c); r_exit_code r) with
           | Some code => if bool_decide (code ∈ _UNRESOLVED_EXITS) then Some code else first_unresolved rs cs'
           | None => first_unresolved rs cs'
           end
  end.
Definition classify_run_resolution (s : RunState) : RunResolution * option Z * string :=
  if bool_decide (terminal s = Some T_error) then (invalid, _first_required_exit_code s, "terminal=error")
  else match first_unresolved (results s) (criteria s) with
       | Some code => (unresolved, Some code, _UNRESOLVED_REASONS code)
       | None => (decided, None, "decided")
       end.
Definition reported_resolution (stored : option RunResolution) : string :=
  match stored with
  | None => "legacy" | Some decided => "decided" | Some unresolved => "unresolved" | Some invalid => "invalid"
  end.

(** ** The tables *)

Record ObsRow := mkObsRow { ow_obs : EvalObservation; ow_tenant : option string }.
Record Probe := mkProbe {
  pr_task_class : string; pr_snapshot_id : string; pr_precision_at_3 : float; pr_skill_count : Z; pr_recorded_at : datetime }.
Record EvalDB := mkEvalDB {
  ed_observations : list ObsRow;
  ed_baselines : list (Z * ControlBaseline);      (* with the autoincrement id *)
  ed_next_baseline : Z;
  ed_ablation : gmap string RetrievalAblationEffect;
  ed_probes : list Probe }.
#[export] Instance eta_EvalDB : Eta EvalDB := λ d,
  mkEvalDB (ed_observations d) (ed_baselines d) (ed_next_baseline d) (ed_ablation d) (ed_probes d).
Definition empty_EvalDB : EvalDB := mkEvalDB [] [] 1 ∅ [].

Definition EV := M EvalDB.
Definition observations (d : EvalDB) : list EvalObservation := map ow_obs (ed_observations d).

Section Recording.
(** SHA-256 of the run's canonical JSON, and the clock. *)
Context (state_sha256 : RunState → string) (now : datetime).

Definition required_non_judge (s : RunState) : list string :=
  map c_id (List.filter (λ c, is_required c && negb (bool_decide (c_kind c = K_judge))) (criteria s)).
Definition valid_non_judge_evidence (s : RunState) : bool :=
  let req := required_non_judge s in
  let scored := map r_criterion_id (List.filter (λ r, negb (r_errored r)) (results s)) in
  negb (is_nil req) && forallb (λ id, bool_decide (id ∈ scored)) req.
Definition truthy (o : option string) : bool := match o with Some s => negb (String.eqb s "") | None => false end.

Definition observation_of (s : RunState) (strategy_override : option string) (force_eval_fixture : bool)
    (tc snap : string) : EvalObservation :=
  let is_fixture := is_eval_fixture (task s) || force_eval_fixture in
  let '(resolution, exit_code, reason) := classify_run_resolution s in
  mkObservation (run_id s) tc (arm s) snap (mf_model_version (manifest s))
    (bool_decide (terminal s = Some T_solved) && (attempt_no s =? 1)) (predicted_success s) (terminal s)
    (if is_fixture then Some (task_id (task s)) else None) is_fixture now
    (match strategy_override with Some o => Some o | None => strategy_str <$> strategy s end)
    (Some (attempt_no s)) (Some (s_cost_usd (spent s)))
    (Some (bool_decide (terminal s = Some T_abstained) && bool_decide (is_Some (failure s))))
    (cand_skill_id <$> chosen s) (cand_version <$> chosen s)
    (cand_skill_id <$> suppressed_skill s) (cand_version <$> suppressed_skill s)
    (valid_non_judge_evidence s) (Some (state_sha256 s)) None None (Some resolution) exit_code (Some reason).

Definition _append_observation (o : EvalObservation) (tenant : option string) : EV unit := λ d,
  if bool_decide (ob_run_id o ∈ map ob_run_id (observations d)) then (d, Err ObservationError)
  else (d <| ed_observations := ed_observations d ++ [mkObsRow o tenant] |>, Ok tt).

Definition append_run (s : RunState) (strategy_override : option string) (force_eval_fixture : bool)
    (tenant : option string) : EV EvalObservation :=
  _ ← lift (raise_unless (bool_decide (is_Some (terminal s))) ObservationError);
  _ ← lift (raise_unless (bool_decide (is_Some (criteria_locked_at s)) &&
                          bool_decide (is_Some (mf_criteria_hash (manifest s)))) ObservationError);
  match task_class (task s), mf_index_snapshot_id (manifest s) with
  | Some tc, Some snap =>
      _ ← lift (raise_unless (negb (String.eqb tc "") && negb (String.eqb snap "")) ObservationError);
      let o := observation_of s strategy_override force_eval_fixture tc snap in
      _ ← lift (raise_unless (observation_valid o) ValidationError);
      _ ← _append_observation o tenant; mret o
  | _, _ => raise ObservationError
  end.
Definition record_observation (o : EvalObservation) : EV unit := raise ObservationError.
End Recording.

Definition write_baseline (b : ControlBaseline) : EV unit := λ d,
  let clashes (r : Z * ControlBaseline) :=
    String.eqb (bl_task_class r.2) (bl_task_class b) && String.eqb (bl_snapshot_id r.2) (bl_snapshot_id b) &&
    match bl_report_id r.2, bl_report_id b with Some x, Some y => String.eqb x y | _, _ => false end in
  (d <| ed_baselines := List.filter (λ r, negb (clashes r)) (ed_baselines d) ++ [(ed_next_baseline d, b)] |>
     <| ed_next_baseline := ed_next_baseline d + 1 |>, Ok tt).
Definition baselines_for (d : EvalDB) (tc : string) : list ControlBaseline :=
  map snd (sorted_by (lex (λ a b : Z * ControlBaseline, bl_created_at a.2 <? bl_created_at b.2) (λ a b, a.1 <? b.1))
    (List.filter (λ r, String.eqb (bl_task_class r.2) tc) (ed_baselines d))).
Definition latest_baseline (d : EvalDB) (tc : string) : option ControlBaseline := last (baselines_for d tc).
Definition write_retrieval_ablation (e : RetrievalAblationEffect) : EV unit := λ d,
  (d <| ed_ablation := <[ra_task_class e := e]> (ed_ablation d) |>, Ok tt).
Definition retrieval_ablation (d : EvalDB) (tc : string) : option RetrievalAblationEffect := ed_ablation d !! tc.
Definition record_probe_snapshot (p : Probe) : EV unit := λ d, (d <| ed_probes := ed_probes d ++ [p] |>, Ok tt).
(** [ORDER BY recorded_at DESC, id DESC LIMIT ?]; a negative limit is none. *)
Definition list_probe_snapshots (d : EvalDB) (tc : string) (limit : Z) : list Probe :=
  let l := sorted_by (λ a b, pr_recorded_at b <? pr_recorded_at a)
             (rev (List.filter (λ p, String.eqb (pr_task_class p) tc) (ed_probes d))) in
  if limit <? 0 then l else take (Z.to_nat limit) l.

(** ** The aggregates *)

(** [strategy LIKE 'faithfulness:%'] ignores ASCII case; [str.startswith] does not. *)
Definition like_faithfulness (o : EvalObservation) : bool :=
  match ob_strategy o with Some s => String.prefix "faithfulness:" (str_lower s) | None => false end.
Definition starts_faithfulness (o : EvalObservation) : bool :=
  match ob_strategy o with Some s => String.prefix "faithfulness:" s | None => false end.
Definition in_window (tc : string) (snap : option string) (o : EvalObservation) : bool :=
  String.eqb (ob_task_class o) tc && negb (ob_is_eval_fixture o) &&
  match snap with Some s => String.eqb (ob_snapshot_id o) s | None => true end.
Definition counted (tc : string) (snap : option string) (o : EvalObservation) : bool :=
  in_window tc snap o && negb (like_faithfulness o).

(** [SUM(first_attempt_success), COUNT( * )] *)
Definition sample (l : list EvalObservation) : BinomialSample :=
  mkSample (Z.of_nat (length (List.filter ob_first_attempt_success l))) (Z.of_nat (length l)).

Definition skill_key (o : EvalObservation) : option (string * Z) :=
  id ← ob_skill_id o; n ← ob_skill_version o; Some (id, n).
Definition suppressed_key (o : EvalObservation) : option (string * Z) :=
  id ← ob_suppressed_skill_id o; n ← ob_suppressed_skill_version o; Some (id, n).
Definition evidence (a : Arm) (tc : string) (snap : option string) (o : EvalObservation) : bool :=
  counted tc snap o && bool_decide (ob_arm o = a) && ob_valid_non_judge_evidence o.

Definition contribution_samples (d : EvalDB) (id : string) (n : Z) (tc : string) (snap : option string)
    : BinomialSample * BinomialSample :=
  (sample (List.filter (λ o, evidence shadow tc snap o && bool_decide (skill_key o = Some (id, n))) (observations d)),
   sample (List.filter (λ o, evidence control tc snap o && bool_decide (suppressed_key o = Some (id, n))) (observations d))).

(** [GROUP BY] the key: one row per key that occurs. *)
Definition group_by (key : EvalObservation → option (string * Z)) (l : list EvalObservation)
    : list ((string * Z) * BinomialSample) :=
  map (λ k, (k, sample (List.filter (λ o, bool_decide (key o = Some k)) l))) (remove_dups (omap key l)).
Definition contribution_samples_bulk (d : EvalDB) (tc : string) (snap : option string)
    : gmap (string * Z) (BinomialSample * BinomialSample) :=
  let shadow_rows := group_by skill_key (List.filter (evidence shadow tc snap) (observations d)) in
  let suppression_rows := group_by suppressed_key (List.filter (evidence control tc snap) (observations d)) in
  let out := foldl (λ m (row : (string * Z) * BinomialSample),
                 <[row.1 := (row.2, (default (empty_sample, empty_sample) (m !! row.1)).2)]> m) ∅ shadow_rows in
  foldl (λ m (row : (string * Z) * BinomialSample),
    <[row.1 := ((default (empty_sample, empty_sample) (m !! row.1)).1, row.2)]> m) out suppression_rows.

Definition retrieval_ablation_samples (d : EvalDB) (tc : string) (snap : option string) : BinomialSample * BinomialSample :=
  let arm_sample a := sample (List.filter (λ o, in_window tc snap o && bool_decide (ob_arm o = a) && ob_valid_non_judge_evidence o)
                                (observations d)) in
  (arm_sample treatment, arm_sample control).

(** The dicts keyed by arm, as their lookup. *)
Definition arm_counts (d : EvalDB) (tc : string) (snap : option string) (a : Arm) : option BinomialSample :=
  let l := List.filter (λ o, counted tc snap o && bool_decide (ob_arm o = a)) (observations d) in
  if is_nil l then None else Some (sample l).
Definition by_time : EvalObservation → EvalObservation → bool :=
  lex (λ a b, ob_recorded_at a <? ob_recorded_at b) (λ a b, String.ltb (ob_run_id a) (ob_run_id b)).
Definition success_vectors (d : EvalDB) (tc : string) (snap : option string) (a : Arm) : list float :=
  map (λ o, if ob_first_attempt_success o then f1 else f0)
    (List.filter (λ o, negb (starts_faithfulness o) && bool_decide (ob_arm o = a))
       (sorted_by by_time (List.filter (in_window tc snap) (observations d)))).
Definition snapshot_rate_map (d : EvalDB) (tc : string) (snap : option string) (a : Arm) : list (string * float) :=
  let l := List.filter (λ o, counted tc snap o && bool_decide (ob_arm o = a)) (observations d) in
  map (λ sid, let s := sample (List.filter (λ o, String.eqb (ob_snapshot_id o) sid) l) in
              (sid, dec (bs_successes s) (bs_trials s)))
    (sorted_by String.ltb (remove_dups (map ob_snapshot_id l))).
Definition snapshot_rates (d : EvalDB) (tc : string) (snap : option string) (a : Arm) : list float :=
  map snd (snapshot_rate_map d tc snap a).
Definition variance_inputs (d : EvalDB) (tc : string) (snap : option string)
    : list float * list float * list float * bool :=
  let t_map := snapshot_rate_map d tc snap treatment in
  let c_map := snapshot_rate_map d tc snap control in
  if (2 <=? length t_map)%nat || (2 <=? length c_map)%nat
  then (map snd t_map, map snd c_map,
        flat_map (λ t, flat_map (λ c, if String.eqb t.1 c.1 then [t.2 ⊖ c.2] else []) c_map) t_map, true)
  else (success_vectors d tc snap treatment, success_vectors d tc snap control, [], false).
Definition arm_rate_series (d : EvalDB) (tc : string) (snap : option string) : list float * list float :=
  let '(t, c, _, _) := variance_inputs d tc snap in (t, c).

(** *** field_failure_streaks *)

Definition field_lt : (string * Z) * EvalObservation → (string * Z) * EvalObservation → bool :=
  lex (λ a b, String.ltb a.1.1 b.1.1) (lex (λ a b, a.1.2 <? b.1.2) (λ a b, by_time b.2 a.2)).
Definition field_rows (d : EvalDB) : list ((string * Z) * EvalObservation) :=
  omap (λ o, if bool_decide (ob_arm o = treatment) && negb (ob_is_eval_fixture o) then k ← skill_key o; Some (k, o) else None)
    (observations d).
Definition field_failing (o : EvalObservation) : bool :=
  bool_decide (ob_terminal o ∈ [Some T_unsolved; Some T_rejected; Some T_error]).
Definition streak_step (st : gmap (string * Z) Z * gset (string * Z)) (row : (string * Z) * EvalObservation)
    : gmap (string * Z) Z * gset (string * Z) :=
  let '(streaks, broken) := st in
  if bool_decide (row.1 ∈ broken) then st
  else if field_failing row.2 then (<[row.1 := default 0 (streaks !! row.1) + 1]> streaks, broken)
  else (<[row.1 := default 0 (streaks !! row.1)]> streaks, {[row.1]} ∪ broken).
Definition field_failure_streaks (d : EvalDB) : gmap (string * Z) Z :=
  (foldl streak_step (∅, ∅) (sorted_by field_lt (field_rows d))).1.

(** *** list_observations: the payloads read back; JSON has no infinities or NaN *)

Definition json_float (o : option float) : option float :=
  match o with Some (S754_zero s) => Some (S754_zero s) | Some (S754_finite s m e) => Some (S754_finite s m e) | _ => None end.
Definition read_back (o : EvalObservation) : EvalObservation :=
  mkObservation (ob_run_id o) (ob_task_class o) (ob_arm o) (ob_snapshot_id o) (ob_model_version o)
    (ob_first_attempt_success o) (json_float (ob_predicted_success o)) (ob_terminal o) (ob_fixture_id o)
    (ob_is_eval_fixture o) (ob_recorded_at o) (ob_strategy o) (ob_attempt_no o) (json_float (ob_cost_usd o))
    (ob_abstention_confirmed o) (ob_skill_id o) (ob_skill_version o) (ob_suppressed_skill_id o)
    (ob_suppressed_skill_version o) (ob_valid_non_judge_evidence o) (ob_evidence_hash o) (ob_curation o)
    (ob_practice_converted o) (ob_resolution o) (ob_exit_code o) (ob_reason o).
Definition opt_is {A} `{EqDecision A} (filter : option A) (x : A) : bool :=
  match filter with Some y => bool_decide (x = y) | None => true end.
Definition list_observations (d : EvalDB) (tc snap tenant : option string) : list EvalObservation :=
  map (λ r, read_back (ow_obs r))
    (sorted_by (λ a b, ob_recorded_at (ow_obs a) <? ob_recorded_at (ow_obs b))
       (List.filter (λ r, opt_is tc (ob_task_class (ow_obs r)) && opt_is snap (ob_snapshot_id (ow_obs r)) &&
          match tenant, ow_tenant r with Some t, Some t' => String.eqb t t' | _, _ => true end)
          (ed_observations d))).

(** ** stats.py and memory/procedural/contribution.py *)

Section Estimates.
(** C's [pow(x, 2.0)], which [x ** 2] calls; and the clock. *)
Context (pow2 : float → float) (now : datetime).

Definition fsqrt : float → float := SFsqrt 53 1024.
Definition fmin (a b : float) : float := if b <?. a then b else a.
Definition fmax (a b : float) : float := if a <?. b then b else a.
(** The three table entries as their binary64 values. *)
Definition _z_for (level : float) : option float :=
  if feqb level (dec 9 10) then Some (S754_finite false 7407762181417659 (-52))
  else if feqb level (dec 95 100) then Some (S754_finite false 8826893070434180 (-52))
  else if feqb level (dec 99 100) then Some (S754_finite false 5800251945816416 (-51))
  else None.
Definition wilson_interval (successes trials : Z) (level : float) : result (option ConfidenceInterval) :=
  if trials <=? 0 then Ok None
  else match _z_for level with
  | None => Err ValueError
  | Some z =>
      let n := Z2f trials in
      let p := dec successes trials in
      let z2 := fmul z z in
      let denom := f1 ⊕ fdiv z2 n in
      let centre := fdiv (p ⊕ fdiv z2 (Z2f (2 * trials))) denom in
      let half := fmul (fdiv z denom)
        (fsqrt (fdiv (fmul p (f1 ⊖ p)) n ⊕ fdiv z2 (Z2f (4 * trials * trials)))) in
      Ok (Some (mkInterval (fmax f0 (centre ⊖ half)) (fmin f1 (centre ⊕ half)) level "wilson"))
  end.
Definition newcombe_wilson_difference (treatment control : BinomialSample) (level : float)
    : result (option ConfidenceInterval) :=
  ti ← wilson_interval (bs_successes treatment) (bs_trials treatment) level;
  ci ← wilson_interval (bs_successes control) (bs_trials control) level;
  match ti, ci, rate treatment, rate control with
  | Some ti, Some ci, Some rt, Some rc =>
      let diff := rt ⊖ rc in
      let low := diff ⊖ fsqrt (pow2 (rt ⊖ ci_low ti) ⊕ pow2 (ci_high ci ⊖ rc)) in
      let high := diff ⊕ fsqrt (pow2 (ci_high ti ⊖ rt) ⊕ pow2 (rc ⊖ ci_low ci)) in
      Ok (Some (mkInterval low high level "newcombe_wilson"))
  | None, _, _, _ | _, None, _, _ => Ok None
  | _, _, _, _ => Err AssertionError
  end.

Definition estimate_contribution (shadow suppression : BinomialSample) (has_required_non_judge : bool) : result Contribution :=
  if negb has_required_non_judge then Ok (mkContribution (bs_trials shadow) (bs_successes shadow) 0 0 None None (Some now))
  else if (bs_trials shadow =? 0) || (bs_trials suppression =? 0)
  then Ok (mkContribution (bs_trials shadow) (bs_successes shadow) (bs_trials suppression) (bs_successes suppression) None None (Some now))
  else
    interval ← newcombe_wilson_difference shadow suppression (dec 95 100);
    Ok (mkContribution (bs_trials shadow) (bs_successes shadow) (bs_trials suppression) (bs_successes suppression)
          (ci_low <$> interval) (ci_high <$> interval) (Some now)).
Definition estimate_retrieval_ablation (tc : string) (enabled suppressed : BinomialSample) : result RetrievalAblationEffect :=
  interval ← newcombe_wilson_difference enabled suppressed (dec 95 100);
  Ok (mkAblation tc (bs_trials enabled) (bs_successes enabled) (bs_trials suppressed) (bs_successes suppressed)
        (ci_low <$> interval) (ci_high <$> interval) (Some now)).
End Estimates.

(** ** Theorems *)

(** *** The bulk aggregate *)

Lemma fold_upsert {K A B} `{Countable K} (f : A → option B → B) (rows : list (K * A)) (m : gmap K B) k :
  NoDup (map fst rows) →
  foldl (λ m row, <[row.1 := f row.2 (m !! row.1)]> m) m rows !! k =
  match find_first (λ row, bool_decide (row.1 = k)) rows with Some row => Some (f row.2 (m !! k)) | None => m !! k end.
Proof.
  revert m. induction rows as [|[k' a] rows IH]; intros m Hn; simpl; [done|].
  apply NoDup_cons in Hn as [Hk Hn]. rewrite IH by done. simpl in Hk. destruct (decide (k' = k)) as [->|Hne].
  - rewrite bool_decide_true by done. simpl. destruct (find_first _ rows) as [[k2 a2]|] eqn:E.
    + apply find_first_Some in E as [Hin E%bool_decide_eq_true]. simpl in E. subst k2.
      destruct Hk. by apply (list_elem_of_fmap_2 fst) in Hin.
    + by rewrite lookup_insert_eq.
  - rewrite bool_decide_false by done. by rewrite lookup_insert_ne.
Qed.
Lemma find_group key l k :
  find_first (λ row : (string * Z) * BinomialSample, bool_decide (row.1 = k)) (group_by key l) =
  let s := List.filter (λ o, bool_decide (key o = Some k)) l in if is_nil s then None else Some (k, sample s).
Proof.
  unfold group_by. destruct (is_nil _) eqn:En.
  - destruct (find_first _ _) as [[k' s]|] eqn:E; [|done]. apply find_first_Some in E as [Hin E%bool_decide_eq_true].
    simpl in E. subst k'. apply list_elem_of_fmap in Hin as (k' & [= <- ->] & Hin).
    apply elem_of_remove_dups, list_elem_of_omap in Hin as (o & Ho & Hk).
    destruct (List.filter _ l) eqn:Ef; [|done]. assert (o ∈ @nil EvalObservation) as Hx; [|by apply elem_of_nil in Hx].
    rewrite <- Ef. apply elem_of_lfilter. split; [by apply bool_decide_eq_true|done].
  - assert (∃ o, o ∈ l ∧ key o = Some k) as (o & Ho & Hk).
    { destruct (List.filter _ l) as [|o l'] eqn:Ef; [done|]. exists o.
      assert (o ∈ List.filter (λ o, bool_decide (key o = Some k)) l) as Hin by (rewrite Ef; left).
      apply elem_of_lfilter in Hin as [?%bool_decide_eq_true ?]. done. }
    assert (k ∈ remove_dups (omap key l)) as Hin by (apply elem_of_remove_dups, list_elem_of_omap; eauto).
    clear -Hin. induction (remove_dups (omap key l)) as [|k' ks IH]; [by apply elem_of_nil in Hin|]. simpl.
    case_bool_decide as E; [by subst k'|]. apply elem_of_cons in Hin as [->|Hin]; [done|]. by apply IH.
Qed.
Lemma NoDup_group key l : NoDup (map fst (group_by key l)).
Proof. unfold group_by. rewrite map_map. simpl. rewrite map_id. apply NoDup_remove_dups. Qed.

Lemma lfilter_and {A} (p q : A → bool) l : List.filter q (List.filter p l) = List.filter (λ x, p x && q x) l.
Proof. induction l as [|x l IH]; simpl; [done|]. destruct (p x); simpl; [destruct (q x)|]; by rewrite IH. Qed.
Lemma sample_nil l : is_nil l = true → sample l = empty_sample.
Proof. by destruct l. Qed.

Lemma bulk_lookup d tc snap k :
  default (empty_sample, empty_sample) (contribution_samples_bulk d tc snap !! k) = contribution_samples d k.1 k.2 tc snap ∧
  (contribution_samples_bulk d tc snap !! k = None ↔
   bs_trials (contribution_samples d k.1 k.2 tc snap).1 = 0 ∧ bs_trials (contribution_samples d k.1 k.2 tc snap).2 = 0).
Proof.
  unfold contribution_samples_bulk, contribution_samples.
  set (l := observations d). set (out := foldl _ ∅ _).
  assert (out !! k = let s := List.filter (λ o, evidence shadow tc snap o && bool_decide (skill_key o = Some k)) l in
                     if is_nil s then None else Some (sample s, empty_sample)) as Eout.
  { subst out. rewrite (fold_upsert (λ s o, (s, (default (empty_sample, empty_sample) o).2))) by apply NoDup_group.
    rewrite find_group, lfilter_and. simpl. rewrite lookup_empty. by destruct (is_nil _). }
  rewrite (fold_upsert (λ s o, ((default (empty_sample, empty_sample) o).1, s))) by apply NoDup_group.
  rewrite find_group, lfilter_and, Eout. simpl. rewrite <- surjective_pairing.
  set (a := List.filter (λ o, evidence shadow tc snap o && bool_decide (skill_key o = Some k)) l).
  set (b := List.filter (λ o, evidence control tc snap o && bool_decide (suppressed_key o = Some k)) l).
  destruct a as [|x a], b as [|y b]; simpl; (split; [done|]); (split; [done|]); first [done|intros [? ?]; lia].
Qed.
(** The bulk aggregate is the per-skill one for every skill, whatever the
    table holds: a skill in the result has exactly the samples the two queries
    give for it, and a skill that is absent has none. *)
Theorem bulk_samples_agree d tc snap id n :
  default (empty_sample, empty_sample) (contribution_samples_bulk d tc snap !! (id, n)) = contribution_samples d id n tc snap ∧
  (contribution_samples_bulk d tc snap !! (id, n) = None ↔
   contribution_samples d id n tc snap = (empty_sample, empty_sample)).
Proof.
  destruct (bulk_lookup d tc snap (id, n)) as [E Hn]. split; [done|]. rewrite Hn. cbn [fst snd]. split; [|by intros ->].
  intros [H1 H2]. unfold contribution_samples in *. simpl in *.
  destruct (List.filter _ _); [|simpl in H1; lia]. destruct (List.filter _ _); [done|simpl in H2; lia].
Qed.

(** *** What is recorded, and that it stays *)

Inductive EvalOp :=
  | Op_append (s : RunState) (strategy_override : option string) (force : bool) (tenant : option string) (now : datetime)
  | Op_record (o : EvalObservation)
  | Op_baseline (b : ControlBaseline)
  | Op_ablation (e : RetrievalAblationEffect)
  | Op_probe (p : Probe).

Section History.
Context (state_sha256 : RunState → string).

Definition exec (d : EvalDB) (op : EvalOp) : EvalDB :=
  match op with
  | Op_append s ov f t now => (append_run state_sha256 now s ov f t d).1
  | Op_record o => (record_observation o d).1
  | Op_baseline b => (write_baseline b d).1
  | Op_ablation e => (write_retrieval_ablation e d).1
  | Op_probe p => (record_probe_snapshot p d).1
  end.

(** The observation of a run that ended with its criteria locked. *)
Definition derived (o : EvalObservation) : Prop :=
  ∃ s ov f tc snap now, o = observation_of state_sha256 now s ov f tc snap ∧
    is_Some (terminal s) ∧ is_Some (criteria_locked_at s) ∧ is_Some (mf_criteria_hash (manifest s)) ∧
    task_class (task s) = Some tc ∧ mf_index_snapshot_id (manifest s) = Some snap ∧ tc ≠ "" ∧ snap ≠ "" ∧
    observation_valid o = true.

Lemma append_run_spec now s ov f t d :
  let r := append_run state_sha256 now s ov f t d in
  (r.1 = d ∧ ∃ e, r.2 = Err e) ∨
  (∃ o, r = (d <| ed_observations := ed_observations d ++ [mkObsRow o t] |>, Ok o) ∧ derived o ∧
        ob_run_id o ∉ map ob_run_id (observations d) ∧
        o = observation_of state_sha256 now s ov f (ob_task_class o) (ob_snapshot_id o)).
Proof.
  unfold append_run, lift, raise_unless, mbind, M_bind. simpl.
  destruct (terminal s) eqn:Et; simpl; [|left; eauto].
  destruct (criteria_locked_at s) eqn:El; simpl; [|left; eauto].
  destruct (mf_criteria_hash (manifest s)) eqn:Eh; simpl; [|left; eauto].
  destruct (task_class (task s)) as [tc|] eqn:Ec; [|left; simpl; eauto].
  destruct (mf_index_snapshot_id (manifest s)) as [snap|] eqn:Es; [|left; simpl; eauto].
  destruct (String.eqb_spec tc "") as [|Htc]; simpl; [left; eauto|].
  destruct (String.eqb_spec snap "") as [|Hsn]; simpl; [left; eauto|].
  set (o := observation_of _ _ _ _ _ _ _). destruct (observation_valid o) eqn:Ev; simpl; [|left; eauto].
  unfold _append_observation. case_bool_decide as Hin; simpl; [left; eauto|right]. exists o. split; [done|].
  assert (ob_task_class o = tc ∧ ob_snapshot_id o = snap) as [-> ->].
  { unfold o, observation_of. by destruct (classify_run_resolution s) as [[??]?]. }
  split; [|done]. exists s, ov, f, tc, snap, now. split_and!; eauto; by rewrite ?Et, ?El, ?Eh.
Qed.
Lemma exec_spec d op :
  observations (exec d op) = observations d ∨
  ∃ o, observations (exec d op) = observations d ++ [o] ∧ derived o ∧ ob_run_id o ∉ map ob_run_id (observations d).
Proof.
  destruct op as [s ov f t now| | | |]; try by left. unfold exec.
  destruct (append_run_spec now s ov f t d) as [[-> _]|(o & -> & Hd & Hn & _)]; [by left|right]. exists o.
  unfold observations. simpl. by rewrite map_app.
Qed.

(** Whatever is called and in whatever order, each run has at most one
    observation, every observation was derived from a run that had ended with
    its criteria locked (a caller-authored one is refused), and once recorded
    it stays what it was, in its place. *)
Theorem observations_immutable ops more :
  let d := foldl exec empty_EvalDB ops in
  NoDup (map ob_run_id (observations d)) ∧ Forall derived (observations d) ∧
  observations d `prefix_of` observations (foldl exec d more).
Proof.
  intros d. assert (NoDup (map ob_run_id (observations d)) ∧ Forall derived (observations d)) as [H1 H2].
  { subst d. induction ops as [|op ops IH] using rev_ind; [split; constructor|]. rewrite foldl_app. simpl.
    destruct (exec_spec (foldl exec empty_EvalDB ops) op) as [->|(o & -> & Hd & Hn)]; [done|]. destruct IH as [I1 I2].
    rewrite map_app. split; [|by apply Forall_app_2; [|constructor]].
    apply NoDup_app. split_and!; [done| |apply NoDup_singleton]. by intros x Hx ->%list_elem_of_singleton. }
  split_and!; [done|done|]. clear H1 H2. induction more as [|op more IH] using rev_ind; [done|]. rewrite foldl_app. simpl.
  destruct (exec_spec (foldl exec d more) op) as [->|(o & -> & _)]; [done|]. by apply prefix_app_r.
Qed.

(** *** Fixtures *)

Lemma lfilter_snoc {A} (p : A → bool) l x : p x = false → List.filter p (l ++ [x]) = List.filter p l.
Proof. intros Hx. rewrite List.filter_app. simpl. rewrite Hx. apply app_nil_r. Qed.

(** A run recorded as an evaluation fixture, or forced to be, moves none of
    the aggregates the library decides on: not the contribution samples, the
    retrieval ablation, the arm counts, the outcome and rate series, nor the
    failure streaks that quarantine a skill. *)
Theorem fixtures_move_nothing now s ov f t d tc snap id n a :
  is_eval_fixture (task s) || f = true →
  let d' := (append_run state_sha256 now s ov f t d).1 in
  contribution_samples d' id n tc snap = contribution_samples d id n tc snap ∧
  contribution_samples_bulk d' tc snap = contribution_samples_bulk d tc snap ∧
  retrieval_ablation_samples d' tc snap = retrieval_ablation_samples d tc snap ∧
  arm_counts d' tc snap a = arm_counts d tc snap a ∧ success_vectors d' tc snap a = success_vectors d tc snap a ∧
  snapshot_rate_map d' tc snap a = snapshot_rate_map d tc snap a ∧
  variance_inputs d' tc snap = variance_inputs d tc snap ∧
  field_failure_streaks d' = field_failure_streaks d.
Proof.
  intros Hf. simpl. destruct (append_run_spec now s ov f t d) as [[-> _]|(o & -> & _ & _ & Eo)]; [by split_and!|]. simpl.
  assert (ob_is_eval_fixture o = true) as Ho.
  { rewrite Eo. unfold observation_of. by destruct (classify_run_resolution s) as [[??]?]. }
  set (d' := d <| ed_observations := _ |>). assert (observations d' = observations d ++ [o]) as E.
  { unfold observations. simpl. by rewrite map_app. }
  assert (∀ sn, in_window tc sn o = false) as Hw by (intros; unfold in_window; rewrite Ho; simpl; by rewrite andb_false_r).
  assert (∀ sn, counted tc sn o = false) as Hc by (intros; unfold counted; by rewrite Hw).
  assert (∀ b sn, evidence b tc sn o = false) as He by (intros; unfold evidence; by rewrite Hc).
  assert (∀ b, snapshot_rate_map d' tc snap b = snapshot_rate_map d tc snap b) as Hr.
  { intros b. unfold snapshot_rate_map. rewrite E, !lfilter_snoc by (by rewrite Hc). done. }
  assert (∀ b, success_vectors d' tc snap b = success_vectors d tc snap b) as Hv.
  { intros b. unfold success_vectors. by rewrite E, lfilter_snoc by apply Hw. }
  split_and!.
  - unfold contribution_samples. by rewrite E, !lfilter_snoc by (by rewrite He).
  - unfold contribution_samples_bulk. by rewrite E, !lfilter_snoc by apply He.
  - unfold retrieval_ablation_samples. by rewrite E, !lfilter_snoc by (by rewrite Hw).
  - unfold arm_counts. by rewrite E, lfilter_snoc by (by rewrite Hc).
  - apply Hv.
  - apply Hr.
  - unfold variance_inputs. by rewrite !Hr, !Hv.
  - unfold field_failure_streaks, field_rows. rewrite E, omap_app. simpl. rewrite Ho, andb_false_r. simpl. by rewrite app_nil_r.
Qed.
End History.

(** *** Failure streaks *)

Fixpoint leading {A} (p : A → bool) (l : list A) : nat :=
  match l with x :: l' => if p x then S (leading p l') else O | [] => O end.
Definition field_of (k : string * Z) (o : EvalObservation) : bool :=
  bool_decide (ob_arm o = treatment) && negb (ob_is_eval_fixture o) && bool_decide (skill_key o = Some k).

Lemma streak_broken l streaks broken k :
  k ∈ broken → (foldl streak_step (streaks, broken) l).1 !! k = streaks !! k.
Proof.
  revert streaks broken. induction l as [|[k' o] l IH]; intros streaks broken Hk; simpl; [done|]. case_bool_decide as Hb; [by apply IH|].
  assert (k' ≠ k) by (intros ->; done). destruct (field_failing o); rewrite IH by set_solver; by rewrite lookup_insert_ne.
Qed.
Lemma streak_fold l streaks broken k :
  k ∉ broken →
  (foldl streak_step (streaks, broken) l).1 !! k =
  let rows := map snd (List.filter (λ r : (string * Z) * EvalObservation, bool_decide (r.1 = k)) l) in
  if is_nil rows then streaks !! k else Some (default 0 (streaks !! k) + Z.of_nat (leading field_failing rows)).
Proof.
  revert streaks broken. induction l as [|[k' o] l IH]; intros streaks broken Hk; [done|].
  cbn [foldl List.filter fst]. unfold streak_step at 2. cbn [fst snd]. case_bool_decide as Hb.
  { rewrite (bool_decide_false (k' = k)) by (intros ->; done). by apply IH. }
  destruct (decide (k' = k)) as [->|Hne].
  - rewrite (bool_decide_true (k = k)) by done. simpl. destruct (field_failing o).
    + rewrite IH, lookup_insert_eq by done. simpl. destruct (map snd _) as [|x rows]; simpl; [f_equal; lia|].
      destruct (field_failing x); f_equal; lia.
    + rewrite streak_broken by set_solver. rewrite lookup_insert_eq. f_equal. simpl. lia.
  - rewrite (bool_decide_false (k' = k)) by done. destruct (field_failing o); rewrite IH by set_solver; by rewrite lookup_insert_ne.
Qed.
Lemma StronglySorted_lfilter {A} (R : relation A) (p : A → bool) l : StronglySorted R l → StronglySorted R (List.filter p l).
Proof.
  induction 1 as [|x l Hl IH Hx]; simpl; [constructor|]. destruct (p x); [|done]. constructor; [done|].
  rewrite Forall_forall in *. intros y [_ Hy]%elem_of_lfilter. by apply Hx.
Qed.
Lemma lfilter_perm {A} (p : A → bool) (l l' : list A) : l ≡ₚ l' → List.filter p l ≡ₚ List.filter p l'.
Proof.
  induction 1 as [|x l l2 _ IH|x y l|l l2 l3 _ IH1 _ IH2]; simpl; [done| | |by rewrite IH1].
  - destruct (p x); by rewrite IH.
  - destruct (p x), (p y); done || by constructor.
Qed.
Lemma rows_of_key d k :
  map snd (List.filter (λ r : (string * Z) * EvalObservation, bool_decide (r.1 = k)) (field_rows d)) =
  List.filter (field_of k) (observations d).
Proof.
  unfold field_rows, field_of. induction (observations d) as [|o l IH]; simpl; [done|].
  destruct (bool_decide (ob_arm o = treatment) && negb (ob_is_eval_fixture o)); simpl; [|done].
  destruct (skill_key o) as [k'|]; simpl; [|done]. rewrite (bool_decide_ext (Some k' = Some k) (k' = k)) by naive_solver.
  case_bool_decide; simpl; [f_equal|]; exact IH.
Qed.
Lemma swo_by_time : swo by_time.
Proof. apply swo_lex; [apply (swo_on ob_recorded_at), swo_Z|apply (swo_on ob_run_id), swo_str]. Qed.
Lemma swo_field : swo field_lt.
Proof.
  apply swo_lex; [apply (swo_on (λ a : (string * Z) * EvalObservation, a.1.1)), swo_str|].
  apply swo_lex; [apply (swo_on (λ a : (string * Z) * EvalObservation, a.1.2)), swo_Z|].
  apply (swo_on snd (λ a b, by_time b a)), swo_flip, swo_by_time.
Qed.
Lemma field_same_key a b : a.1 = b.1 → field_lt b a = false → by_time a.2 b.2 = false.
Proof.
  intros E. unfold field_lt, lex at 1 2. rewrite E, Z.ltb_irrefl.
  destruct (String.ltb b.1.1 b.1.1) eqn:El; [done|]. by simpl.
Qed.

(** The streak of a skill is the number of failures of its treatment runs
    since the last run that was not one, newest first by time then run id;
    a skill without such a run has no entry. *)
Theorem failure_streak_exact d k :
  ∃ rows, rows ≡ₚ List.filter (field_of k) (observations d) ∧ StronglySorted (λ a b, by_time a b = false) rows ∧
    field_failure_streaks d !! k = if is_nil rows then None else Some (Z.of_nat (leading field_failing rows)).
Proof.
  set (l := List.filter (λ r : (string * Z) * EvalObservation, bool_decide (r.1 = k)) (sorted_by field_lt (field_rows d))).
  exists (map snd l). split_and!.
  - rewrite <- rows_of_key. apply Permutation_map, lfilter_perm, sorted_by_perm.
  - pose proof (StronglySorted_lfilter _ (λ r, bool_decide (r.1 = k)) _ (sorted_swo field_lt (field_rows d) swo_field)) as Hl.
    fold l in Hl. assert (Forall (λ r : (string * Z) * EvalObservation, r.1 = k) l) as Hk.
    { apply Forall_forall. intros r [Hr _]%elem_of_lfilter. by apply bool_decide_eq_true in Hr. }
    induction Hl as [|x l' Hl IH Hx]; simpl; [constructor|]. apply Forall_cons in Hk as [Hxk Hk]. constructor; [by apply IH|].
    rewrite Forall_forall in Hx, Hk. apply Forall_forall. intros y (r & -> & Hr)%list_elem_of_fmap. apply field_same_key; [|by apply Hx].
    rewrite Hxk. symmetry. by apply Hk.
  - unfold field_failure_streaks. rewrite streak_fold by set_solver. simpl. fold l. rewrite lookup_empty. simpl.
    by destruct (map snd l).
Qed.

(** ** Witnesses *)

Definition demo_manifest : RunManifest := mkManifest None None [] (Some "snap") None None (Some "h") None.
Definition demo_run (rid : string) (fixture : bool) (t : Terminal) : RunState :=
  let s := initial_RunState rid (mkTask rid None None (Some "repo-chore") None None 0 fixture ES_single) [] default_Budget
             treatment demo_manifest in
  s <| criteria_locked_at := Some 5 |> <| terminal := Some t |> <| attempt_no := 1 |>
    <| chosen := Some (mkCandidate "fix-lint" 1 f1 None None [] None false) |>.
Definition demo_evals : EvalDB :=
  foldl (exec (λ _, "sha")) empty_EvalDB
    [Op_append (demo_run "r1" false T_solved) None false None 10;
     Op_append (demo_run "r2" false T_unsolved) None false None 20;
     Op_append (demo_run "r3" false T_error) None false None 30;
     Op_append (demo_run "r2" false T_solved) None false None 40].

Example demo_recorded : map ob_run_id (observations demo_evals) = ["r1"; "r2"; "r3"].
Proof. vm_compute. reflexivity. Qed.
Example demo_streak : field_failure_streaks demo_evals !! ("fix-lint", 1) = Some 2.
Proof. vm_compute. reflexivity. Qed.
Example demo_arm_counts : arm_counts demo_evals "repo-chore" None treatment = Some (mkSample 1 3).
Proof. vm_compute. reflexivity. Qed.

Lemma fixtures_move_nothing_witness :
  field_failure_streaks (append_run (λ _, "sha") 50 (demo_run "r4" true T_unsolved) None false None demo_evals).1 =
  field_failure_streaks demo_evals.
Proof.
  refine (proj2 (proj2 (proj2 (proj2 (proj2 (proj2 (proj2
    (fixtures_move_nothing (λ _, "sha") 50 (demo_run "r4" true T_unsolved) None false None demo_evals "repo-chore" None "fix-lint" 1 treatment _)))))))); reflexivity.
Defined.
(** An observation of skill fix-lint at version 1, in either arm. *)
Definition demo_obs (rid : string) (a : Arm) (success : bool) (shown suppressed : option string) : EvalObservation :=
  mkObservation rid "repo-chore" a "snap" None success None (Some (if success then T_solved else T_unsolved)) None false 0 None
    (Some 1) (Some f0) (Some false) shown ((λ _, 1) <$> shown) suppressed ((λ _, 1) <$> suppressed) true (Some "sha") None None (Some decided) None
    (Some "decided").
(** [good] shadow runs of the skill succeed, [bad] fail; without it, the same. *)
Definition demo_trials (id : string) (good bad good_without bad_without : nat) : EvalDB :=
  let rows (tag : string) (a : Arm) (ok : bool) (shown suppressed : option string) (n : nat) :=
    map (λ i, mkObsRow (demo_obs (tag +:+ pretty (Z.of_nat i)) a ok shown suppressed) None) (seq 0 n) in
  empty_EvalDB <| ed_observations :=
    rows "s" shadow true (Some id) None good ++ rows "f" shadow false (Some id) None bad ++
    rows "c" control true None (Some id) good_without ++ rows "d" control false None (Some id) bad_without |>.
