(* ===== verification/Library.v ===== *)
(** * The skill library (memory/procedural/store.py, allocate.py, lineage.py, apply_diversity.py)

    [SkillStore] over the directory tree skills/<id>/v<N>/, the version
    allocator, the lineage index with its log, and the revoke queue.  A JSON
    document is the record it encodes; SHA-256 and HMAC over documents are
    parameters ([LibraryEnv]).  The theorems: versions are written once and
    allocated once, statuses stay well formed, only the promotion path makes a
    version approved, the lineage index is its log, and what a drain marks. *)
From S2P Require Import Prelude PyStr Budgets Contracts Skills EvalStore.
From Stdlib Require Import ZArith Lia Ascii.
Open Scope Z_scope.

(** ** The environment *)

(** What the digests cover, as data: [lint_content_hash] excludes the hygiene
    record and [distilled_at]; [structural_hash] covers the behavioural surface. *)
Record Surface := mkSurface {
  sf_task_class : string; sf_tools : list (option string); sf_intents : list string;
  sf_preconditions : list (PreconditionKind * string); sf_criteria : list (CriterionKind * option string) }.

Class LibraryEnv := {
  json_sha256 : SkillVersion → string;              (* SHA-256 of the canonical JSON of the document *)
  surface_sha256 : Surface → string;                (* SHA-256 of the canonical JSON of the payload *)
  file_hmac : string → SkillVersion → string;       (* HMAC of version.json under the key *)
  ledger_hmac_key : string;                         (* the setting *)
  SEED_SKILLS : list string                         (* ids of the hand-authored seeds *)
}.

Definition FileNotFoundError : exn := PyError "FileNotFoundError".
Definition ImmutabilityError : exn := PyError "ImmutabilityError".
Definition ApprovedLifecycleError : exn := PyError "ApprovedLifecycleError".
Definition LifecycleConflictError : exn := PyError "LifecycleConflictError".
Definition SeedSignatureError : exn := PyError "SeedSignatureError".

(** ** State *)

(** One directory v<N>: it exists with its version.json. *)
Record Entry := mkEntryDir {
  en_version : SkillVersion; en_sig : option string; en_status : option SkillStatus; en_stats : option SkillStats }.
#[export] Instance eta_Entry : Eta Entry := λ e, mkEntryDir (en_version e) (en_sig e) (en_status e) (en_stats e).

Definition mapping : Type := list (string * list string).   (* a dict, in insertion order *)
Record LineageIndex := mkLineage {
  li_wal : list (string * string);     (* lineage.jsonl *)
  li_idx : option mapping;             (* lineage.idx.json *)
  li_map : option mapping }.           (* self._map *)
#[export] Instance eta_LineageIndex : Eta LineageIndex := λ i, mkLineage (li_wal i) (li_idx i) (li_map i).
Record RevokeItem := mkRevoke { ri_source_kind : string; ri_source_id : string; ri_reason : string }.
Record Note := mkNote { nt_actor : string; nt_action : string; nt_target : string; nt_evidence : list farg }.

(** What promotion keeps besides the library: the golden gate's result rows, the
    log files next to it, and the operator's audit entries. *)
Record GoldenResult := mkGolden { gr_skill_id : string; gr_version : Z; gr_golden_path : string; gr_passed : bool }.
Inductive RefusalKind := golden_gate | predecessor_non_regression | gate_error_kind | audit_unavailable.
#[export] Instance RefusalKind_eq_dec : EqDecision RefusalKind. Proof. solve_decision. Defined.
Record AuditEntry := mkAuditEntry {
  ae_skill_id : string; ae_version : Z; ae_refusal_kind : RefusalKind; ae_failing_fixtures : list string;
  ae_results : list GoldenResult }.
Inductive LogFile := refusal_log (kind : RefusalKind) (failing_count : Z) (audit_ref : string) | report_log (results : list GoldenResult).

Record Library := mkLibrary {
  lb_entries : gmap (string * Z) Entry;
  lb_reservations : gset (string * Z);
  lb_lineage : option LineageIndex;
  lb_revokes : option (list RevokeItem);
  lb_ledger : list Note;
  lb_evals : EvalDB;
  lb_logs : gmap string LogFile;         (* log_dir, by file name *)
  lb_audit : list (string * AuditEntry) }.
#[export] Instance eta_Library : Eta Library := λ l,
  mkLibrary (lb_entries l) (lb_reservations l) (lb_lineage l) (lb_revokes l) (lb_ledger l) (lb_evals l) (lb_logs l) (lb_audit l).

Definition LB := M Library.
Definition gets {A} (f : Library → A) : LB A := λ w, (w, Ok (f w)).
Definition modify (f : Library → Library) : LB unit := λ w, (f w, Ok tt).
Definition guard (b : bool) (e : exn) : LB unit := lift (raise_unless b e).
Definition entry_at (id : string) (n : Z) : LB (option Entry) := gets (λ w, lb_entries w !! (id, n)).
Definition put_entry (id : string) (n : Z) (e : Entry) : LB unit :=
  modify (λ w, w <| lb_entries := <[(id, n) := e]> (lb_entries w) |>).

(** ** memory/procedural/lineage.py: the index *)

Definition target_of (id : string) (n : Z) : string := id +:+ "@" +:+ pretty n.
Definition source_keys (v : SkillVersion) : list string :=
  let p := sv_provenance v in
  map (λ i, "case:" +:+ i) (pv_source_case_ids p) ++ map (λ i, "run:" +:+ i) (pv_source_run_ids p) ++
  map (λ i, "session:" +:+ i) (pv_source_session_ids p) ++ map (λ i, "contributor:" +:+ i) (pv_source_contributor_ids p) ++
  ["skill:" +:+ target_of (sv_skill_id v) (sv_version v)].

(** [int(text)] on ASCII: surrounding space, a sign, digits with single
    underscores between them. *)
Fixpoint digits_val (acc : Z) (after_digit : bool) (s : string) : option Z :=
  match s with
  | EmptyString => if after_digit then Some acc else None
  | String c s' =>
      if is_digit c then digits_val (10 * acc + (Z.of_nat (nat_of_ascii c) - 48)) true s'
      else if Ascii.eqb c "_" && after_digit then digits_val acc false s' else None
  end.
Definition py_int (s : string) : option Z :=
  match strip s with
  | String "-" s' => Z.opp <$> digits_val 0 false s'
  | String "+" s' => digits_val 0 false s'
  | s' => digits_val 0 false s'
  end.
(** [str.partition("@")] *)
Fixpoint partition_at (s : string) : option (string * string) :=
  match s with
  | EmptyString => None
  | String c s' => if Ascii.eqb c "@" then Some (EmptyString, s')
                   else match partition_at s' with Some (a, b) => Some (String c a, b) | None => None end
  end.
Definition _parse_target (target : string) : option (string * Z) :=
  match partition_at target with
  | Some (id, ver) => if String.eqb id "" then None else n ← py_int ver; Some (id, n)
  | None => None
  end.

(** [bucket = mapping.setdefault(key, []); if target not in bucket: bucket.append(target)] *)
Fixpoint add_target (m : mapping) (key target : string) : mapping :=
  match m with
  | [] => [(key, [target])]
  | (k, b) :: m' => if String.eqb k key then (k, if bool_decide (target ∈ b) then b else b ++ [target]) :: m'
                    else (k, b) :: add_target m' key target
  end.
Fixpoint bucket (m : mapping) (key : string) : option (list string) :=
  match m with [] => None | (k, b) :: m' => if String.eqb k key then Some b else bucket m' key end.

Definition _replay_wal (wal : list (string * string)) : mapping :=
  foldl (λ m row, if String.eqb row.1 "" || String.eqb row.2 "" then m else add_target m row.1 row.2) [] wal.
Definition _load_map (i : LineageIndex) : mapping * LineageIndex :=
  match li_map i with
  | Some m => (m, i)
  | None =>
      match li_idx i with
      | Some m => (m, i <| li_map := Some m |>)
      | None => let m := _replay_wal (li_wal i) in
                (m, mkLineage (li_wal i) (if is_nil m then None else Some m) (Some m))
      end
  end.
Definition record_row (target : string) (st : mapping * bool) (key : string) : mapping * bool :=
  let old := default [] (bucket st.1 key) in
  (add_target st.1 key target, st.2 || negb (bool_decide (target ∈ old))).
Definition record (v : SkillVersion) (i : LineageIndex) : LineageIndex :=
  let keys := source_keys v in
  if is_nil keys then i
  else
    let target := target_of (sv_skill_id v) (sv_version v) in
    let '(m, i1) := _load_map i in
    let '(m', changed) := foldl (record_row target) (m, false) keys in
    mkLineage (li_wal i1 ++ map (λ k, (k, target)) keys) (if changed then Some m' else li_idx i1) (Some m').
Definition lookup_lineage (kind id : string) (i : LineageIndex) : list (string * Z) * LineageIndex :=
  let '(m, i1) := _load_map i in
  (omap _parse_target (default [] (bucket m (kind +:+ ":" +:+ id))), i1).

(** ** memory/procedural/store.py *)

Section Store.
Context `{LE : LibraryEnv}.

Definition blank_hygiene : Hygiene := mkHygiene scan_skipped None None.
Definition undated (p : Provenance) : Provenance :=
  mkSkillProvenance (pv_distilled_from_run p) 0 (pv_authored_by p) (pv_curation p) (pv_derivation p)
    (pv_failure_cluster_id p) (pv_authoring_prior_version p) (pv_evolved_because p) (pv_model p)
    (pv_source_case_ids p) (pv_source_run_ids p) (pv_source_session_ids p) (pv_source_contributor_ids p)
    (pv_attribution_summary p).
(** contracts/lint.py: the excluded fields are blanked before hashing. *)
Definition lint_content_hash (v : SkillVersion) : string :=
  json_sha256 (v <| sv_hygiene := blank_hygiene |> <| sv_provenance := undated (sv_provenance v) |>).
(** memory/procedural/hygiene.py *)
Definition stamp_lint_hash (v : SkillVersion) : SkillVersion :=
  let digest := lint_content_hash v in
  if bool_decide (hy_lint_content_hash (sv_hygiene v) = Some digest) then v
  else v <| sv_hygiene := (sv_hygiene v) <| hy_lint_content_hash := Some digest |> |>.

(** memory/procedural/seeds/signature.py *)
Definition _key : option string := let s := strip ledger_hmac_key in if String.eqb s "" then None else Some s.
Definition is_seed (id : string) : bool := bool_decide (id ∈ SEED_SKILLS).
Definition stamp_seed (id : string) (v : SkillVersion) : option string :=
  match _key with Some k => if is_seed id then Some (file_hmac k v) else None | None => None end.
Definition verify_seed (id : string) (e : option Entry) : result unit :=
  if negb (is_seed id) then Ok tt
  else
    let sig := e ← e; en_sig e in
    match _key, sig with
    | None, Some _ => Err SeedSignatureError
    | None, None => Ok tt
    | Some _, None => Err SeedSignatureError
    | Some k, Some got =>
        match e with
        | Some e => raise_unless (String.eqb got (file_hmac k (en_version e))) SeedSignatureError
        | None => Err FileNotFoundError
        end
    end.

(** Reading the three documents; a status or stats that was changed by
    [model_copy] is validated again when it is read. *)
Definition stats_valid (s : SkillStats) : bool :=
  let c := sk_contribution s in let t := sk_predictive_trust s in let d := sk_apply_diversity s in
  (0 <=? pt_applications t) && (0 <=? pt_successes t) && (0 <=? co_applications c) && (0 <=? co_successes c) &&
  (0 <=? co_suppressed_applications c) && (0 <=? co_suppressed_successes c) &&
  (0 <=? ad_distinct_apply_sessions d) && (1 <=? ad_floor d) && diversity_ok d.
Definition read_status (s : SkillStatus) : result SkillStatus :=
  if _active_requires_retrievable_lifecycle s then Ok s else Err ValidationError.
Definition read_stats (s : SkillStats) : result SkillStats := if stats_valid s then Ok s else Err ValidationError.

Definition get_version (id : string) (n : Z) : LB SkillVersion :=
  e ← entry_at id n;
  _ ← lift (verify_seed id e);
  match e with Some e => mret (en_version e) | None => raise FileNotFoundError end.
Definition get_status (id : string) (n : Z) : LB SkillStatus :=
  e ← entry_at id n;
  match (e ← e; en_status e) with Some s => lift (read_status s) | None => raise FileNotFoundError end.
Definition get_stats (id : string) (n : Z) : LB SkillStats :=
  e ← entry_at id n;
  match (e ← e; en_stats e) with Some s => lift (read_stats s) | None => mret (new_stats id n) end.
Definition _read_status_if_present (id : string) (n : Z) : LB (option SkillStatus) :=
  e ← entry_at id n;
  match (e ← e; en_status e) with Some s => s ← lift (read_status s); mret (Some s) | None => mret None end.

Definition dir_lt (a b : string * Z) : bool :=
  String.ltb a.1 b.1 || (String.eqb a.1 b.1 && String.ltb ("v" +:+ pretty a.2) ("v" +:+ pretty b.2)).
Definition list_versions (w : Library) : list (string * Z) := sorted_by dir_lt (map fst (map_to_list (lb_entries w))).
Definition load_one (k : string * Z) : LB (SkillVersion * SkillStatus * SkillStats) :=
  v ← get_version k.1 k.2;
  s ← _read_status_if_present k.1 k.2;
  st ← get_stats k.1 k.2;
  mret (v, default (new_status k.1 k.2 lc_draft) s, st).
Definition iter_loaded : LB (list (SkillVersion * SkillStatus * SkillStats)) :=
  ks ← gets list_versions; mapM_ load_one ks.

(** *** Writes *)

Definition write_version (v0 : SkillVersion) : LB unit :=
  let v := stamp_lint_hash v0 in
  e ← entry_at (sv_skill_id v) (sv_version v);
  match e with
  | Some _ => raise ImmutabilityError
  | None =>
      _ ← put_entry (sv_skill_id v) (sv_version v) (mkEntryDir v (stamp_seed (sv_skill_id v) v) None None);
      modify (λ w, w <| lb_lineage := record v <$> lb_lineage w |>)
  end.

Definition enqueue (kind id reason : string) (w : Library) : Library :=
  w <| lb_revokes := (λ q, q ++ [mkRevoke kind id reason]) <$> lb_revokes w |>.
Definition revoke_sources (v : SkillVersion) : list (string * string) :=
  let p := sv_provenance v in
  ("skill", target_of (sv_skill_id v) (sv_version v)) ::
  map (pair "run") (pv_source_run_ids p) ++ map (pair "case") (pv_source_case_ids p) ++
  map (pair "session") (pv_source_session_ids p) ++ map (pair "contributor") (pv_source_contributor_ids p).
Definition enqueue_revoke_for_quarantine (v : SkillVersion) (reason : string) : LB unit :=
  modify (λ w, foldl (λ w s, enqueue s.1 s.2 reason w) w (revoke_sources v)).

(** [try: ... except FileNotFoundError: None] *)
Definition or_missing {A} (m : LB A) : LB (option A) := λ w,
  match m w with
  | (w', Ok a) => (w', Ok (Some a))
  | (w', Err e) => if bool_decide (e = FileNotFoundError) then (w', Ok None) else (w', Err e)
  end.
Definition lifecycle_of (s : option SkillStatus) : option Lifecycle := ss_lifecycle <$> s.
Definition _maybe_enqueue_revoke (s : SkillStatus) (previous : option SkillStatus) : LB unit :=
  if negb (bool_decide (ss_lifecycle s = lc_quarantined)) then mret tt
  else if bool_decide (lifecycle_of previous = Some lc_quarantined) then mret tt
  else
    q ← gets lb_revokes;
    match q with
    | None => mret tt
    | Some _ =>
        v ← or_missing (get_version (ss_skill_id s) (ss_version s));
        match v with Some v => enqueue_revoke_for_quarantine v "quarantine_version" | None => mret tt end
    end.

Definition _write_status_unchecked (s : SkillStatus) : LB unit :=
  e ← entry_at (ss_skill_id s) (ss_version s);
  match e with
  | None => raise FileNotFoundError
  | Some e => put_entry (ss_skill_id s) (ss_version s) (e <| en_status := Some s |>)
  end.
Definition write_status (s : SkillStatus) (expected : option Lifecycle) : LB unit :=
  e ← entry_at (ss_skill_id s) (ss_version s);
  _ ← guard (bool_decide (is_Some e)) FileNotFoundError;
  existing ← _read_status_if_present (ss_skill_id s) (ss_version s);
  _ ← guard (match expected with Some x => bool_decide (lifecycle_of existing = Some x) | None => true end)
        LifecycleConflictError;
  _ ← guard (negb (bool_decide (ss_lifecycle s = lc_approved)) || bool_decide (lifecycle_of existing = Some lc_approved))
        ApprovedLifecycleError;
  _ ← _write_status_unchecked s;
  _maybe_enqueue_revoke s existing.
Definition write_stats (s : SkillStats) : LB unit :=
  e ← entry_at (sk_skill_id s) (sk_version s);
  match e with
  | None => raise FileNotFoundError
  | Some e => put_entry (sk_skill_id s) (sk_version s) (e <| en_stats := Some s |>)
  end.

Definition _PROTECTED_FROM_CANDIDATE_DEMOTE : list Lifecycle :=
  [lc_approved; lc_quarantined; lc_shadow; lc_benched; lc_needs_recert; lc_deprecated].
Definition write_candidate (v0 : SkillVersion) : LB SkillVersion :=
  let v := stamp_lint_hash v0 in
  e ← entry_at (sv_skill_id v) (sv_version v);
  _ ← (if bool_decide (is_Some e) then mret tt else write_version v);
  existing ← _read_status_if_present (sv_skill_id v) (sv_version v);
  _ ← guard (match existing with
             | Some s => negb (bool_decide (ss_lifecycle s ∈ _PROTECTED_FROM_CANDIDATE_DEMOTE)) | None => true end)
        ApprovedLifecycleError;
  _ ← write_status (new_status (sv_skill_id v) (sv_version v) lc_candidate) None;
  _ ← write_stats (new_stats (sv_skill_id v) (sv_version v));
  mret v.

(** memory/procedural/apply_diversity.py *)
Definition note_apply_session (id : string) (n : Z) (session : string) : LB SkillStats :=
  st ← get_stats id n;
  let st' := st <| sk_apply_diversity := note (sk_apply_diversity st) session |> in
  _ ← write_stats st'; mret st'.

(** ** memory/procedural/allocate.py: one transaction each, under the skill's lock *)

Definition taken (w : Library) (id : string) : list Z :=
  omap (λ k : string * Z, if String.eqb k.1 id then Some k.2 else None)
    (map fst (map_to_list (lb_entries w)) ++ elements (lb_reservations w)).
Definition next_free (w : Library) (id : string) : Z := foldr Z.max 0 (taken w id) + 1.
Definition allocate_next_version (id : string) : LB Z :=
  n ← gets (λ w, next_free w id);
  _ ← modify (λ w, w <| lb_reservations := {[(id, n)]} ∪ lb_reservations w |>);
  mret n.
Definition write_version_exclusive (v : SkillVersion) : LB unit :=
  _ ← write_version v;
  modify (λ w, w <| lb_reservations := lb_reservations w ∖ {[(sv_skill_id v, sv_version v)]} |>).
Definition allocate_and_write (v : SkillVersion) : LB SkillVersion :=
  n ← gets (λ w, next_free w (sv_skill_id v));
  let stamped := v <| sv_version := n |> in
  _ ← write_version stamped; mret stamped.

(** ** memory/procedural/lineage.py: rebuild and drain *)

Definition add_keys (m : mapping) (v : SkillVersion) : mapping :=
  foldl (λ m k, add_target m k (target_of (sv_skill_id v) (sv_version v))) m (source_keys v).
Definition rebuild : LB Z :=
  l ← iter_loaded;
  let m := foldl add_keys [] (map (λ x, x.1.1) l) in
  _ ← modify (λ w, w <| lb_lineage := (λ _, mkLineage (flat_map (λ kb, map (pair kb.1) kb.2) m) (Some m) (Some m)) <$> lb_lineage w |>);
  mret (Z.of_nat (length l)).

Definition drain (limit : Z) : LB (list RevokeItem) := λ w,
  match lb_revokes w with
  | Some q => if limit <=? 0 then (w, Ok [])
              else (w <| lb_revokes := Some (drop (Z.to_nat limit) q) |>, Ok (take (Z.to_nat limit) q))
  | None => (w, Ok [])
  end.

Definition _mark_needs_recert (id : string) (n : Z) : LB (option SkillStatus) :=
  o ← or_missing (get_status id n);
  match o with
  | None => mret None
  | Some s =>
      if bool_decide (ss_lifecycle s ∈ [lc_quarantined; lc_deprecated; lc_needs_recert]) then mret None
      else
        let s' := s <| ss_lifecycle := lc_needs_recert |> <| ss_active := false |> in
        _ ← write_status s' None; mret (Some s')
  end.

(** The state of the drain loop: what was marked, and the writes left. *)
Definition parents_of (docs : list SkillVersion) (k : string * Z) : list (string * Z) :=
  flat_map (λ v, flat_map (λ u, if bool_decide ((us_skill_id u, us_version u) = k) then [(sv_skill_id v, sv_version v)] else [])
    (sv_uses v)) docs.
Fixpoint mark_parents (ps : list (string * Z)) (touched : list SkillStatus) (remaining : Z) : LB (list SkillStatus * Z) :=
  match ps with
  | [] => mret (touched, remaining)
  | p :: ps' =>
      if remaining <=? 0 then mret (touched, remaining)
      else
        m ← _mark_needs_recert p.1 p.2;
        match m with
        | Some s => mark_parents ps' (touched ++ [s]) (remaining - 1)
        | None => mark_parents ps' touched remaining
        end
  end.
(** [Some left] when the item must be queued again. *)
Fixpoint mark_targets (docs : list SkillVersion) (ts : list (string * Z)) (touched : list SkillStatus) (remaining : Z)
    : LB (list SkillStatus * Z * bool) :=
  match ts with
  | [] => mret (touched, remaining, false)
  | t :: ts' =>
      if remaining <=? 0 then mret (touched, remaining, true)
      else
        m ← _mark_needs_recert t.1 t.2;
        let '(touched, remaining) := match m with Some s => (touched ++ [s], remaining - 1) | None => (touched, remaining) end in
        r ← mark_parents (parents_of docs t) touched remaining;
        mark_targets docs ts' r.1 r.2
  end.
Definition with_lineage {A} (f : LineageIndex → A * LineageIndex) (d : A) : LB A := λ w,
  match lb_lineage w with
  | Some i => let '(a, i') := f i in (w <| lb_lineage := Some i' |>, Ok a)
  | None => (w, Ok d)
  end.
Fixpoint drain_items (docs : list SkillVersion) (items : list RevokeItem) (touched : list SkillStatus) (remaining : Z)
    (leftover : list RevokeItem) : LB (list SkillStatus * list RevokeItem) :=
  match items with
  | [] => mret (touched, leftover)
  | it :: items' =>
      if remaining <=? 0 then drain_items docs items' touched remaining (leftover ++ [it])
      else
        ts ← with_lineage (lookup_lineage (ri_source_kind it) (ri_source_id it)) [];
        r ← mark_targets docs ts touched remaining;
        drain_items docs items' r.1.1 r.1.2 (if r.2 : bool then leftover ++ [it] else leftover)
  end.
Definition drain_revokes (max_writes : Z) : LB (list SkillStatus) :=
  items ← drain max_writes;
  docs ← iter_loaded;
  r ← drain_items (map (λ x, x.1.1) docs) items [] max_writes [];
  _ ← modify (λ w, foldl (λ w it, enqueue (ri_source_kind it) (ri_source_id it)
                                    (if String.eqb (ri_reason it) "" then "requeued" else ri_reason it) w) w r.2);
  mret r.1.
End Store.

(** ** What every operation keeps *)

Definition keeps (R : Library → Library → Prop) {A} (m : LB A) : Prop := ∀ w, R w (m w).1.

Section Keeps.
Context (R : Library → Library → Prop) `{!PreOrder R}.
Lemma keeps_ret {A} (a : A) : keeps R (mret a). Proof. intros w. reflexivity. Qed.
Lemma keeps_raise {A} e : keeps R (raise e : LB A). Proof. intros w. reflexivity. Qed.
Lemma keeps_lift {A} (r : result A) : keeps R (lift r). Proof. intros w. reflexivity. Qed.
Lemma keeps_gets {A} (f : Library → A) : keeps R (gets f). Proof. intros w. reflexivity. Qed.
Lemma keeps_bind {A B} (m : LB A) (f : A → LB B) : keeps R m → (∀ a, keeps R (f a)) → keeps R (m ≫= f).
Proof.
  intros Hm Hf w. specialize (Hm w). unfold mbind, M_bind. destruct (m w) as [w1 [a|e]]; [|done].
  etrans; [exact Hm|apply Hf].
Qed.
Lemma keeps_mapM {A B} (f : A → LB B) l : (∀ x, keeps R (f x)) → keeps R (mapM_ f l).
Proof.
  intros Hf. induction l as [|x l IH]; simpl; [apply keeps_ret|].
  apply keeps_bind; [done|]. intros y. apply keeps_bind; [done|]. intros ys. apply keeps_ret.
Qed.
Lemma keeps_or_missing {A} (m : LB A) : keeps R m → keeps R (or_missing m).
Proof.
  intros Hm w. specialize (Hm w). unfold or_missing. destruct (m w) as [w1 [a|e]]; [done|]. by destruct (bool_decide _).
Qed.
End Keeps.

(** Reading changes nothing. *)
Definition reads {A} (m : LB A) : Prop := keeps eq m.

Create HintDb recertia_keeps.
#[export] Hint Resolve keeps_ret keeps_raise keeps_lift keeps_gets keeps_mapM keeps_or_missing : recertia_keeps.
Ltac keeps_tac :=
  repeat (intros; first
    [ solve [eauto with recertia_keeps typeclass_instances]
    | match goal with |- keeps _ (mbind _ _) => apply keeps_bind; [typeclasses eauto| |] end
    | match goal with |- keeps _ (mapM_ _ _) => apply keeps_mapM; [typeclasses eauto|] end
    | apply keeps_or_missing
    | progress (unfold guard, entry_at)
    | match goal with
      | |- keeps _ (match ?x with _ => _ end) => destruct x
      | |- keeps _ (if ?x then _ else _) => destruct x
      | |- keeps _ (let '(_, _) := ?x in _) => destruct x
      end ]).

Definition has_version (w : Library) (k : string * Z) (v : SkillVersion) : Prop :=
  ∃ e, lb_entries w !! k = Some e ∧ en_version e = v.
Definition status_at (w : Library) (k : string * Z) : option SkillStatus := e ← lb_entries w !! k; en_status e.
Definition lifecycle_at (w : Library) (k : string * Z) : option Lifecycle := lifecycle_of (status_at w k).

(** A status the lifecycle rules can build: it keys to its directory and only
    an approved version is active. *)
Definition status_ok (k : string * Z) (s : SkillStatus) : Prop :=
  (ss_skill_id s, ss_version s) = k ∧ (ss_active s = true → ss_lifecycle s = lc_approved).
Definition key_ok (k : string * Z) : Prop := _SKILL_ID_PATTERN k.1 = true ∧ 1 ≤ k.2.

Definition all_rows (w : Library) (row : string * string) : Prop :=
  ∃ e, lb_entries w !! (sv_skill_id (en_version e), sv_version (en_version e)) = Some e ∧
       row.1 ∈ source_keys (en_version e) ∧ row.2 = target_of (sv_skill_id (en_version e)) (sv_version (en_version e)).
Definition targets (m : mapping) (key target : string) : Prop := ∃ b, bucket m key = Some b ∧ target ∈ b.

Section Ok.
Context `{LE : LibraryEnv}.

(** The lineage index, when attached, is its log, and the log records exactly
    the stored versions. *)
Record lineage_ok (w : Library) (i : LineageIndex) : Prop := {
  lo_map : ∀ m, li_map i = Some m → m = _replay_wal (li_wal i);
  lo_idx : ∀ m, li_idx i = Some m → m = _replay_wal (li_wal i);
  lo_rows : ∀ key target, targets (_replay_wal (li_wal i)) key target ↔ all_rows w (key, target) }.

Record lib_ok (w : Library) : Prop := {
  ok_entries : ∀ k e, lb_entries w !! k = Some e →
    key_ok k ∧ (sv_skill_id (en_version e), sv_version (en_version e)) = k ∧
    hy_lint_content_hash (sv_hygiene (en_version e)) = Some (lint_content_hash (en_version e));
  ok_status : ∀ k s, status_at w k = Some s → status_ok k s;
  ok_reserved : ∀ k, k ∈ lb_reservations w → 1 ≤ k.2;
  ok_lineage : ∀ i, lb_lineage w = Some i → lineage_ok w i }.

(** What every operation keeps: documents once written, the invariant, the
    numbers taken; and a version becomes approved only where [P] allows it. *)
Record lib_le (P : string * Z → Prop) (w w' : Library) : Prop := {
  le_versions : ∀ k e, lb_entries w !! k = Some e →
    ∃ e', lb_entries w' !! k = Some e' ∧ en_version e' = en_version e ∧ en_sig e' = en_sig e;
  le_ok : lib_ok w → lib_ok w';
  le_approved : ∀ k, lifecycle_at w' k = Some lc_approved → lifecycle_at w k = Some lc_approved ∨ P k;
  le_taken : ∀ id n, n ∈ taken w id → n ∈ taken w' id }.
#[export] Instance lib_le_preorder P : PreOrder (lib_le P).
Proof.
  split.
  - intros w. split; eauto.
  - intros a b c [A1 A2 A3 A4] [B1 B2 B3 B4]. split; [| |intros k Hk; destruct (B3 k Hk); eauto|eauto].
    + intros k e He. destruct (A1 k e He) as (e1 & H1 & E1 & S1). destruct (B1 k e1 H1) as (e2 & H2 & E2 & S2).
      exists e2. split_and!; congruence.
    + auto.
Qed.
Lemma lib_le_weaken (P Q : string * Z → Prop) w w' : (∀ k, P k → Q k) → lib_le P w w' → lib_le Q w w'.
Proof. intros H [A1 A2 A3 A4]. split; [done|done| |done]. intros k Hk. destruct (A3 k Hk); eauto. Qed.

Lemma elem_of_taken w id n :
  n ∈ taken w id ↔ is_Some (lb_entries w !! (id, n)) ∨ (id, n) ∈ lb_reservations w.
Proof.
  unfold taken. rewrite list_elem_of_omap. split.
  - intros ([id' n'] & Hin & E). simpl in E. destruct (String.eqb_spec id' id) as [->|]; [|done]. injection E as ->.
    apply elem_of_app in Hin as [Hin|Hin]; [left|right; by apply elem_of_elements].
    apply list_elem_of_fmap in Hin as ([k e] & [= <-] & He). apply elem_of_map_to_list in He. simpl in *. eauto.
  - intros H. exists (id, n). simpl. rewrite String.eqb_refl. split; [|done]. apply elem_of_app.
    destruct H as [[e He]|H]; [left|right; by apply elem_of_elements].
    apply list_elem_of_fmap. exists ((id, n), e). split; [done|]. by apply elem_of_map_to_list.
Qed.
Lemma next_free_fresh w id n : n ∈ taken w id → n < next_free w id.
Proof.
  unfold next_free. induction (taken w id) as [|x l IH]; intros Hn; [by apply elem_of_nil in Hn|].
  simpl. apply elem_of_cons in Hn as [->|Hn]; [lia|]. specialize (IH Hn). lia.
Qed.
Lemma next_free_pos w id : 1 ≤ next_free w id.
Proof. unfold next_free. induction (taken w id); simpl; lia. Qed.

(** *** Primitive writes *)

Lemma lib_le_same_entries P w w' :
  lb_entries w' = lb_entries w → lb_reservations w ⊆ lb_reservations w' → (∀ k, k ∈ lb_reservations w' → 1 ≤ k.2 ∨ k ∈ lb_reservations w) →
  (lib_ok w → ∀ i, lb_lineage w' = Some i → lineage_ok w i) → lib_le P w w'.
Proof.
  intros Ee Hr Hpos Hl. split.
  - intros k e. rewrite Ee. eauto.
  - intros Hok. pose proof Hok as [A1 A2 A3 A4]. split.
    + intros k e. rewrite Ee. apply A1.
    + intros k s. unfold status_at. rewrite Ee. apply A2.
    + intros k Hk. destruct (Hpos k Hk); eauto.
    + intros i Hi. destruct (Hl Hok i Hi) as [B1 B2 B3]. split; [done|done|]. intros key target. rewrite B3.
      unfold all_rows. by rewrite Ee.
  - intros k. unfold lifecycle_at, status_at. rewrite Ee. eauto.
  - intros id n. rewrite !elem_of_taken, Ee. intros [?|?]; [by left|right; by apply Hr].
Qed.
Lemma lib_le_same P w w' :
  lb_entries w' = lb_entries w → lb_reservations w' = lb_reservations w → lb_lineage w' = lb_lineage w → lib_le P w w'.
Proof.
  intros Ee Er El. apply lib_le_same_entries; [done|by rewrite Er|rewrite Er; eauto|].
  rewrite El. intros H. apply H.
Qed.

(** Replacing the status or the stats of a stored version. *)
Lemma all_rows_update w k e e' row :
  lb_entries w !! k = Some e → en_version e' = en_version e →
  all_rows (w <| lb_entries := <[k := e']> (lb_entries w) |>) row ↔ all_rows w row.
Proof.
  intros He Ev. unfold all_rows. simpl. split; intros (e1 & H1 & H2).
  - apply lookup_insert_Some in H1 as [[Hk <-]|[Hk H1]]; [|by exists e1].
    exists e. rewrite Ev in *. rewrite <- Hk. by split.
  - destruct (decide (k = (sv_skill_id (en_version e1), sv_version (en_version e1)))) as [Hk|Hk].
    + exists e'. rewrite <- Hk, He in H1. injection H1 as <-. rewrite Ev, <- Hk, lookup_insert_eq. by split.
    + exists e1. rewrite lookup_insert_ne by done. by split.
Qed.
Lemma lib_le_update (P : string * Z → Prop) w k e e' :
  lb_entries w !! k = Some e → en_version e' = en_version e → en_sig e' = en_sig e →
  (∀ s, en_status e' = Some s → en_status e = Some s ∨ status_ok k s) →
  (lifecycle_of (en_status e') = Some lc_approved → lifecycle_of (en_status e) = Some lc_approved ∨ P k) →
  lib_le P w (w <| lb_entries := <[k := e']> (lb_entries w) |>).
Proof.
  intros He Ev Es Hs Ha. split; simpl.
  - intros k' e1 H1. destruct (decide (k = k')) as [<-|Hk].
    + rewrite He in H1. injection H1 as <-. exists e'. by rewrite lookup_insert_eq.
    + exists e1. by rewrite lookup_insert_ne.
  - intros [A1 A2 A3 A4]. split; simpl.
    + intros k' e1 [[<- <-]|[Hk H1]]%lookup_insert_Some; [|by apply A1]. rewrite Ev. by apply A1.
    + intros k' s. unfold status_at. simpl. destruct (decide (k = k')) as [<-|Hk].
      * rewrite lookup_insert_eq. simpl. intros H1. destruct (Hs s H1) as [H|H]; [|done]. apply A2. unfold status_at. by rewrite He.
      * rewrite lookup_insert_ne by done. apply A2.
    + done.
    + intros i Hi. destruct (A4 i Hi) as [B1 B2 B3]. split; [done|done|]. intros key target.
      by rewrite (all_rows_update w k e e' _ He Ev).
  - intros k'. unfold lifecycle_at, status_at. simpl. destruct (decide (k = k')) as [<-|Hk].
    + rewrite lookup_insert_eq, He. apply Ha.
    + rewrite lookup_insert_ne by done. eauto.
  - intros id n. rewrite !elem_of_taken. simpl. intros [H|H]; [left|by right].
    apply lookup_insert_is_Some. destruct (decide (k = (id, n))); eauto.
Qed.

(** *** The lineage index *)

Lemma bucket_add m key t k :
  bucket (add_target m key t) k =
  if String.eqb key k
  then Some (let b := default [] (bucket m key) in if bool_decide (t ∈ b) then b else b ++ [t])
  else bucket m k.
Proof.
  induction m as [|[k' b] m IH]; simpl.
  - destruct (String.eqb_spec key k) as [<-|]; done.
  - destruct (String.eqb_spec k' key) as [->|Hk]; simpl.
    + by destruct (String.eqb_spec key k).
    + rewrite IH. destruct (String.eqb_spec key k) as [E|]; [|done]. subst k.
      destruct (String.eqb_spec k' key); [congruence|done].
Qed.
Lemma targets_add m key t k x : targets (add_target m key t) k x ↔ targets m k x ∨ (k = key ∧ x = t).
Proof.
  unfold targets. rewrite bucket_add. destruct (String.eqb_spec key k) as [<-|Hk];
    [|split; [by left|by intros [?|[-> _]]]].
  destruct (bucket m key) as [b|]; simpl.
  - case_bool_decide as Ht; split.
    + intros (b' & [= <-] & Hx). eauto.
    + intros [H|[_ ->]]; eauto.
    + intros (b' & [= <-] & [Hx|Hx]%elem_of_app); [eauto|]. apply list_elem_of_singleton in Hx. eauto.
    + intros [(b' & [= <-] & Hx)|[_ ->]]; eexists; (split; [done|]); set_solver.
  - split; [intros (b' & [= <-] & Hx%list_elem_of_singleton); eauto|].
    intros [(b' & [=] & _)|[_ ->]]. exists [t]. split; [done|left].
Qed.
Lemma add_known m key t : t ∈ default [] (bucket m key) → add_target m key t = m.
Proof.
  induction m as [|[k b] m IH]; simpl; [intros H; by apply elem_of_nil in H|].
  destruct (String.eqb_spec k key) as [->|Hk]; simpl; intros Ht; [by rewrite bool_decide_true|]. by rewrite IH.
Qed.

Lemma source_key_nonempty v k : k ∈ source_keys v → String.eqb k "" = false.
Proof.
  unfold source_keys. rewrite !elem_of_app, list_elem_of_singleton.
  intros [(i & -> & _)%list_elem_of_fmap|[(i & -> & _)%list_elem_of_fmap|[(i & -> & _)%list_elem_of_fmap|[(i & -> & _)%list_elem_of_fmap| ->]]]]; done.
Qed.
Lemma source_keys_not_nil v : is_nil (source_keys v) = false.
Proof.
  unfold source_keys. destruct (sv_provenance v) as [? ? ? ? ? ? ? ? ? [] [] [] [] ?]; done.
Qed.
Lemma target_nonempty id n : String.eqb (target_of id n) "" = false.
Proof. by destruct id. Qed.

Definition add_all (t : string) (m : mapping) (ks : list string) : mapping := foldl (λ m k, add_target m k t) m ks.
Lemma replay_rows wal t ks :
  String.eqb t "" = false → Forall (λ k, String.eqb k "" = false) ks →
  _replay_wal (wal ++ map (λ k, (k, t)) ks) = add_all t (_replay_wal wal) ks.
Proof.
  intros Ht Hk. unfold _replay_wal, add_all. rewrite foldl_app. generalize (foldl (λ m row,
    if String.eqb row.1 "" || String.eqb row.2 "" then m else add_target m row.1 row.2) [] wal).
  induction Hk as [|k ks H _ IH]; intros m; simpl; [done|]. rewrite H, Ht. apply IH.
Qed.
Lemma targets_add_all t m ks k x : targets (add_all t m ks) k x ↔ targets m k x ∨ (k ∈ ks ∧ x = t).
Proof.
  revert m. induction ks as [|k' ks IH]; intros m; simpl.
  - split; [by left|]. intros [?|[H _]]; [done|by apply elem_of_nil in H].
  - unfold add_all in *. simpl. rewrite IH, targets_add, elem_of_cons. naive_solver.
Qed.
Lemma record_rows t m c ks :
  (foldl (record_row t) (m, c) ks).1 = add_all t m ks ∧
  ((foldl (record_row t) (m, c) ks).2 = false → c = false ∧ add_all t m ks = m).
Proof.
  revert m c. induction ks as [|k ks IH]; intros m c; [done|]. cbn [foldl]. unfold add_all in *. cbn [foldl].
  destruct (IH (add_target m k t) (c || negb (bool_decide (t ∈ default [] (bucket m k))))) as [E1 E2].
  unfold record_row at 2 4. cbn [fst snd]. split; [done|]. intros H. destruct (E2 H) as [Hc E].
  apply orb_false_iff in Hc as [-> Ht%negb_false_iff%bool_decide_eq_true].
  split; [done|]. rewrite E. by apply add_known.
Qed.

Lemma load_map_ok w i : lineage_ok w i →
  (_load_map i).1 = _replay_wal (li_wal i) ∧ li_wal (_load_map i).2 = li_wal i ∧ lineage_ok w (_load_map i).2.
Proof.
  intros Hi. pose proof Hi as [H1 H2 H3]. unfold _load_map. destruct (li_map i) as [m|] eqn:Em; [split_and!; [by apply H1|done|done]|].
  destruct (li_idx i) as [m|] eqn:Ei; simpl.
  - split_and!; [by apply H2|done|]. split; simpl; [|rewrite Ei; exact H2|done]. intros m' [= <-]. by apply H2.
  - split_and!; [done|done|]. split; simpl; [by intros m' [= <-]| |done].
    destruct (is_nil _); [done|]. by intros m' [= <-].
Qed.

Lemma record_ok w v i e :
  lineage_ok w i → en_version e = v → lb_entries w !! (sv_skill_id v, sv_version v) = None →
  lineage_ok (w <| lb_entries := <[(sv_skill_id v, sv_version v) := e]> (lb_entries w) |>) (record v i).
Proof.
  intros Hi <- Hn. set (v := en_version e) in *. destruct (load_map_ok w i Hi) as (Em & Ew & [L1 L2 L3]).
  unfold record. rewrite source_keys_not_nil.
  destruct (_load_map i) as [m i1]. simpl in Em, Ew, L1, L2, L3. subst m. rewrite Ew in L1, L2, L3.
  set (t := target_of (sv_skill_id v) (sv_version v)).
  destruct (record_rows t (_replay_wal (li_wal i)) false (source_keys v)) as [E Hsame].
  destruct (foldl (record_row t) (_replay_wal (li_wal i), false) (source_keys v)) as [m' changed]. simpl in E, Hsame. subst m'.
  assert (_replay_wal (li_wal i1 ++ map (λ k, (k, t)) (source_keys v)) = add_all t (_replay_wal (li_wal i)) (source_keys v)) as Er.
  { rewrite replay_rows; [by rewrite Ew|apply target_nonempty|]. apply Forall_forall. apply source_key_nonempty. }
  split; simpl; rewrite Er.
  - by intros m [= <-].
  - intros m. destruct changed; [by intros [= <-]|]. intros Hm. rewrite (proj2 (Hsame eq_refl)). by apply L2.
  - intros key x. rewrite targets_add_all, L3. unfold all_rows. simpl. split.
    + intros [(e1 & H1 & H2)|[Hk ->]].
      * exists e1. rewrite lookup_insert_ne; [by split|]. intros Heq. rewrite Heq in Hn. congruence.
      * exists e. fold v. rewrite lookup_insert_eq. by split_and!.
    + intros (e1 & [[Hk He]|[Hk H1]]%lookup_insert_Some & H2 & H3); [right|left; by exists e1].
      subst e1. by split.
Qed.

(** *** Writing a version *)

Lemma stamp_hash v : lint_content_hash (stamp_lint_hash v) = lint_content_hash v.
Proof. unfold stamp_lint_hash. by case_bool_decide. Qed.
Lemma stamp_stamped v : hy_lint_content_hash (sv_hygiene (stamp_lint_hash v)) = Some (lint_content_hash (stamp_lint_hash v)).
Proof. rewrite stamp_hash. unfold stamp_lint_hash. by case_bool_decide. Qed.
Lemma stamp_id v : sv_skill_id (stamp_lint_hash v) = sv_skill_id v.
Proof. unfold stamp_lint_hash. by case_bool_decide. Qed.
Lemma stamp_version v : sv_version (stamp_lint_hash v) = sv_version v.
Proof. unfold stamp_lint_hash. by case_bool_decide. Qed.
Lemma stamp_idem v : stamp_lint_hash (stamp_lint_hash v) = stamp_lint_hash v.
Proof.
  unfold stamp_lint_hash at 1. rewrite stamp_hash. rewrite bool_decide_true; [done|]. by rewrite stamp_stamped, stamp_hash.
Qed.

(** What [write_version] does when the directory is free. *)
Definition with_version (w : Library) (v : SkillVersion) : Library :=
  w <| lb_entries := <[(sv_skill_id v, sv_version v) := mkEntryDir v (stamp_seed (sv_skill_id v) v) None None]> (lb_entries w) |>
    <| lb_lineage := record v <$> lb_lineage w |>.
Lemma write_version_spec v w :
  write_version v w =
  match lb_entries w !! (sv_skill_id v, sv_version v) with
  | Some _ => (w, Err ImmutabilityError)
  | None => (with_version w (stamp_lint_hash v), Ok tt)
  end.
Proof.
  unfold write_version, mbind, M_bind, entry_at, gets, put_entry, modify, with_version. cbv zeta. rewrite stamp_id, stamp_version.
  by destruct (lb_entries w !! _).
Qed.

Lemma lib_le_with_version P w v :
  lb_entries w !! (sv_skill_id v, sv_version v) = None → key_ok (sv_skill_id v, sv_version v) →
  hy_lint_content_hash (sv_hygiene v) = Some (lint_content_hash v) → lib_le P w (with_version w v).
Proof.
  intros Hn Hk Hh. unfold with_version. set (e := mkEntryDir v _ None None). split; simpl.
  - intros k e1 H1. exists e1. rewrite lookup_insert_ne by congruence. done.
  - intros [A1 A2 A3 A4]. split; simpl.
    + intros k e1 [[<- <-]|[Hne H1]]%lookup_insert_Some; [|by apply A1]. by split_and!.
    + intros k s. unfold status_at. simpl. destruct (decide ((sv_skill_id v, sv_version v) = k)) as [<-|Hne].
      * by rewrite lookup_insert_eq.
      * rewrite lookup_insert_ne by done. apply A2.
    + done.
    + intros i (i0 & Hi & ->)%fmap_Some. apply A4 in Hi.
      destruct (record_ok w v i0 e Hi eq_refl Hn) as [B1 B2 B3]. by split.
  - intros k. unfold lifecycle_at, status_at. simpl. destruct (decide ((sv_skill_id v, sv_version v) = k)) as [<-|Hne].
    + by rewrite lookup_insert_eq.
    + rewrite lookup_insert_ne by done. eauto.
  - intros id n. rewrite !elem_of_taken. simpl. intros [H|H]; [left|by right].
    apply lookup_insert_is_Some. destruct (decide ((sv_skill_id v, sv_version v) = (id, n))); eauto.
Qed.

Lemma keeps_write_version P v : key_ok (sv_skill_id v, sv_version v) → keeps (lib_le P) (write_version v).
Proof.
  intros Hk w. rewrite write_version_spec. destruct (lb_entries w !! _) eqn:E; [reflexivity|].
  apply lib_le_with_version; rewrite ?stamp_id, ?stamp_version; [done|done|apply stamp_stamped].
Qed.

(** *** Writing a status or stats *)

Lemma keeps_modify_revokes P f :
  (∀ w, lb_entries (f w) = lb_entries w ∧ lb_reservations (f w) = lb_reservations w ∧ lb_lineage (f w) = lb_lineage w) →
  keeps (lib_le P) (modify f).
Proof. intros H w. destruct (H w) as (?&?&?). by apply lib_le_same. Qed.

Lemma enqueue_all_same (l : list (string * string)) f w :
  let w' := foldl (λ w s, enqueue s.1 s.2 (f s) w) w l in
  lb_entries w' = lb_entries w ∧ lb_reservations w' = lb_reservations w ∧ lb_lineage w' = lb_lineage w.
Proof. revert w. induction l as [|s l IH]; intros w; [done|]. exact (IH (enqueue s.1 s.2 (f s) w)). Qed.

Lemma keeps_get_version R `{!PreOrder R} id n : keeps R (get_version id n).
Proof. unfold get_version. keeps_tac. Qed.
Lemma keeps_get_status R `{!PreOrder R} id n : keeps R (get_status id n).
Proof. unfold get_status. keeps_tac. Qed.
Lemma keeps_get_stats R `{!PreOrder R} id n : keeps R (get_stats id n).
Proof. unfold get_stats. keeps_tac. Qed.
Lemma keeps_read_status R `{!PreOrder R} id n : keeps R (_read_status_if_present id n).
Proof. unfold _read_status_if_present. keeps_tac. Qed.
Lemma keeps_iter_loaded R `{!PreOrder R} : keeps R iter_loaded.
Proof.
  unfold iter_loaded, load_one. keeps_tac; eauto using keeps_get_version, keeps_get_stats, keeps_read_status.
Qed.
Lemma keeps_maybe_revoke P s o : keeps (lib_le P) (_maybe_enqueue_revoke s o).
Proof.
  unfold _maybe_enqueue_revoke. keeps_tac; try (apply keeps_get_version; apply _).
  unfold enqueue_revoke_for_quarantine. apply keeps_modify_revokes. intros w.
  exact (enqueue_all_same (revoke_sources _) (λ _, "quarantine_version") w).
Qed.

Lemma keeps_unchecked (P : string * Z → Prop) s :
  (ss_active s = true → ss_lifecycle s = lc_approved) →
  (ss_lifecycle s = lc_approved → P (ss_skill_id s, ss_version s)) → keeps (lib_le P) (_write_status_unchecked s).
Proof.
  intros Ha Hp w. unfold _write_status_unchecked, mbind, M_bind, entry_at, gets, put_entry, modify.
  destruct (lb_entries w !! _) as [e|] eqn:E; [|reflexivity]. apply (lib_le_update P w _ e); [done|done|done| |].
  - intros s' [= <-]. right. by split.
  - intros [= H]. right. by apply Hp.
Qed.

(** The whole of [write_status]: refused, it changes nothing; accepted, it
    replaces the status and may queue revocations. *)
Definition status_accepted (w : Library) (s : SkillStatus) (expected : option Lifecycle) : Prop :=
  let k := (ss_skill_id s, ss_version s) in
  is_Some (lb_entries w !! k) ∧ (∀ s0, status_at w k = Some s0 → _active_requires_retrievable_lifecycle s0 = true) ∧
  (∀ x, expected = Some x → lifecycle_at w k = Some x) ∧
  (ss_lifecycle s = lc_approved → lifecycle_at w k = Some lc_approved).
Lemma write_status_spec s expected w :
  (¬ status_accepted w s expected ∧ ∃ e, write_status s expected w = (w, Err e)) ∨
  (status_accepted w s expected ∧
   write_status s expected w =
   (_ ← _write_status_unchecked s; _maybe_enqueue_revoke s (status_at w (ss_skill_id s, ss_version s))) w).
Proof.
  unfold status_accepted, lifecycle_at, status_at. cbv zeta.
  unfold write_status, _read_status_if_present, guard, lift, entry_at, gets, read_status. unfold mbind, M_bind.
  set (k := (ss_skill_id s, ss_version s)). destruct (lb_entries w !! k) as [e|] eqn:He; simpl.
  2:{ left. split; [intros [[? [=]] _]|eauto]. }
  destruct (en_status e) as [s0|]; simpl.
  - destruct (_active_requires_retrievable_lifecycle s0) eqn:Ev; simpl.
    2:{ left. split; [|eauto]. intros (_ & H & _). specialize (H s0 eq_refl). congruence. }
    destruct expected as [x|]; simpl; [destruct (bool_decide_reflect (Some (ss_lifecycle s0) = Some x)) as [Hx|Hx]; simpl|].
    2:{ left. split; [|eauto]. intros (_ & _ & H & _). by specialize (H x eq_refl). }
    all: destruct (bool_decide_reflect (ss_lifecycle s = lc_approved)) as [Ha|Ha]; simpl;
      [destruct (bool_decide_reflect (Some (ss_lifecycle s0) = Some lc_approved)) as [Hb|Hb]; simpl|];
      try (left; split; [intros (_ & _ & _ & H); by specialize (H Ha)|by eauto]);
      right; (split; [split_and!; [by eauto|naive_solver|naive_solver|done]|done]).
  - destruct expected as [x|]; simpl; [left; split; [intros (_ & _ & H & _); by specialize (H x eq_refl)|eauto]|].
    destruct (bool_decide_reflect (ss_lifecycle s = lc_approved)) as [Ha|Ha]; simpl.
    + left. split; [intros (_ & _ & _ & H); by specialize (H Ha)|eauto].
    + right. split; [split_and!; [by eauto|done|done|done]|done].
Qed.

Lemma keeps_write_status P s expected :
  (ss_active s = true → ss_lifecycle s = lc_approved) → keeps (lib_le P) (write_status s expected).
Proof.
  intros Ha w. destruct (write_status_spec s expected w) as [[_ [e ->]]|[(_ & _ & _ & Hap) ->]]; [reflexivity|].
  set (k := (ss_skill_id s, ss_version s)) in *.
  set (Q := λ k', k' = k ∧ ss_lifecycle s = lc_approved).
  assert (keeps (lib_le Q) (_ ← _write_status_unchecked s; _maybe_enqueue_revoke s (status_at w k))) as HQ.
  { apply keeps_bind; [apply _|by apply keeps_unchecked|]. intros _. apply keeps_maybe_revoke. }
  destruct (HQ w) as [B1 B2 B3 B4].
  split; [done|done| |done]. intros k' Hk'. destruct (B3 k' Hk') as [|[-> Hl]]; [by left|left]. by apply Hap.
Qed.
Lemma keeps_write_stats P s : keeps (lib_le P) (write_stats s).
Proof.
  intros w. unfold write_stats, mbind, M_bind, entry_at, gets, put_entry, modify.
  destruct (lb_entries w !! _) as [e|] eqn:E; [|reflexivity]. apply (lib_le_update P w _ e); simpl; eauto.
Qed.
Lemma keeps_note P id n x : keeps (lib_le P) (note_apply_session id n x).
Proof. unfold note_apply_session. keeps_tac; [apply keeps_get_stats; apply _|apply keeps_write_stats]. Qed.
Lemma keeps_write_candidate P v : key_ok (sv_skill_id v, sv_version v) → keeps (lib_le P) (write_candidate v).
Proof.
  intros Hk. unfold write_candidate. keeps_tac;
    try (apply keeps_read_status; apply _); try apply keeps_write_stats; try by apply keeps_write_status.
  apply keeps_write_version. by rewrite stamp_id, stamp_version.
Qed.

(** *** Allocation *)

Lemma keeps_allocate P id : keeps (lib_le P) (allocate_next_version id).
Proof.
  intros w. unfold allocate_next_version, gets, modify. simpl. apply lib_le_same_entries; simpl; [done|set_solver| |by intros H; apply H].
  intros k [->%elem_of_singleton|?]%elem_of_union; [left; apply next_free_pos|by right].
Qed.
Lemma keeps_write_exclusive P v : key_ok (sv_skill_id v, sv_version v) → keeps (lib_le P) (write_version_exclusive v).
Proof.
  intros Hk w. unfold write_version_exclusive, mbind, M_bind. pose proof (keeps_write_version P v Hk w) as HW.
  rewrite write_version_spec in *. destruct (lb_entries w !! _) eqn:E; [reflexivity|]. simpl in *.
  destruct HW as [A1 A2 A3 A4]. split; [exact A1| |exact A3|].
  - intros Hok. destruct (A2 Hok) as [B1 B2 B3 B4]. split; simpl; [exact B1|exact B2| |].
    + intros k [Hk' _]%elem_of_difference. by apply B3.
    + intros i Hi. destruct (B4 i Hi) as [C1 C2 C3]. by split.
  - intros id n Hn. apply A4 in Hn. rewrite elem_of_taken in *. simpl in *.
    destruct (decide ((id, n) = (sv_skill_id v, sv_version v))) as [->|Hne].
    + left. rewrite stamp_id, stamp_version, lookup_insert_eq. eauto.
    + destruct Hn as [Hn|Hn]; [by left|right]. set_solver.
Qed.
Lemma keeps_allocate_write P v : _SKILL_ID_PATTERN (sv_skill_id v) = true → keeps (lib_le P) (allocate_and_write v).
Proof.
  intros Hk w. unfold allocate_and_write, mbind, M_bind, gets. set (v' := v <| sv_version := _ |>).
  pose proof (keeps_write_version P v' (conj Hk (next_free_pos w (sv_skill_id v))) w) as HW.
  by destruct (write_version v' w) as [w' [[]|e]].
Qed.

(** *** The log of a rebuilt index *)

Record wf_mapping (m : mapping) : Prop := {
  wf_keys : NoDup (map fst m);
  wf_buckets : Forall (λ kb : string * list string, String.eqb kb.1 "" = false ∧ kb.2 ≠ [] ∧ NoDup kb.2 ∧
                                 Forall (λ t, String.eqb t "" = false) kb.2) m }.
Lemma add_target_keys m key t : map fst (add_target m key t) = if bool_decide (key ∈ map fst m) then map fst m else map fst m ++ [key].
Proof.
  induction m as [|[k b] m IH]; simpl; [done|]. destruct (String.eqb_spec k key) as [->|Hk]; simpl.
  - rewrite bool_decide_true by (by left). done.
  - rewrite IH. assert (bool_decide (key ∈ k :: map fst m) = bool_decide (key ∈ map fst m)) as ->.
    { apply bool_decide_ext. rewrite elem_of_cons. naive_solver. }
    by destruct (bool_decide _).
Qed.
Lemma add_target_wf m key t : wf_mapping m → String.eqb key "" = false → String.eqb t "" = false → wf_mapping (add_target m key t).
Proof.
  intros [H1 H2] Hk Ht. split.
  - rewrite add_target_keys. case_bool_decide; [done|]. apply NoDup_app. split_and!; [done| |apply NoDup_singleton].
    intros x Hx ->%list_elem_of_singleton. done.
  - clear H1. induction H2 as [|[k b] m (E1 & E2 & E3 & E4) Hm IH]; simpl.
    + constructor; [|constructor]. split_and!; [done|done|apply NoDup_singleton|by constructor].
    + destruct (String.eqb_spec k key) as [->|Hne]; simpl; constructor; simpl; [|done|by split_and!|done].
      case_bool_decide as Hin; [by split_and!|]. split_and!; [done|by destruct b| |by apply Forall_app_2; [|constructor]].
      apply NoDup_app. split_and!; [done| |apply NoDup_singleton]. by intros x Hx ->%list_elem_of_singleton.
Qed.

Lemma add_target_app acc m key t : key ∉ map fst acc → add_target (acc ++ m) key t = acc ++ add_target m key t.
Proof.
  induction acc as [|[k b] acc IH]; simpl; [done|]. rewrite not_elem_of_cons. intros [Hk Ha].
  destruct (String.eqb_spec k key); [congruence|]. by rewrite IH.
Qed.
Definition wal_row (m : mapping) (row : string * string) : mapping :=
  if String.eqb row.1 "" || String.eqb row.2 "" then m else add_target m row.1 row.2.
Lemma wal_row_add m k t : String.eqb k "" = false → String.eqb t "" = false → wal_row m (k, t) = add_target m k t.
Proof. intros Hk Ht. unfold wal_row. simpl. by rewrite Hk, Ht. Qed.
Lemma replay_bucket acc k b0 b :
  k ∉ map fst acc → String.eqb k "" = false → Forall (λ t, String.eqb t "" = false) b → NoDup (b0 ++ b) →
  foldl wal_row (acc ++ [(k, b0)]) (map (pair k) b) = acc ++ [(k, b0 ++ b)].
Proof.
  intros Ha Hk Hb. revert b0. induction Hb as [|t b Ht _ IH]; intros b0 Hn; simpl; [by rewrite app_nil_r|].
  rewrite wal_row_add, add_target_app by done. simpl. rewrite String.eqb_refl.
  rewrite bool_decide_false by (apply NoDup_app in Hn as (_ & Hn & _); intros Hin; apply (Hn t Hin); left).
  rewrite IH; rewrite <- (assoc_L (++)); done.
Qed.
Lemma replay_flat m : wf_mapping m → _replay_wal (flat_map (λ kb : string * list string, map (pair kb.1) kb.2) m) = m.
Proof.
  intros [H1 H2]. change (foldl wal_row [] (flat_map (λ kb : string * list string, map (pair kb.1) kb.2) m) = [] ++ m).
  change (NoDup (map fst ([] ++ m))) in H1. revert H1. generalize (@nil (string * list string)).
  induction H2 as [|[k b] m (E1 & E2 & E3 & E4) _ IH]; intros acc H1; simpl; [by rewrite app_nil_r|].
  rewrite foldl_app. rewrite map_app in H1. simpl in H1. apply NoDup_app in H1 as (Ha & Hd & Hm).
  assert (k ∉ map fst acc) as Hk by (intros Hin; apply (Hd k Hin); left).
  destruct b as [|t b]; [done|]. simpl in *. inversion E4 as [|? ? Ht Hb]; subst.
  rewrite wal_row_add by done. rewrite <- (app_nil_r acc) at 1. rewrite add_target_app by done. simpl.
  rewrite replay_bucket by done. simpl. rewrite IH; [by rewrite <- (assoc_L (++))|].
  rewrite <- (assoc_L (++)), map_app. simpl. apply NoDup_app. by split_and!.
Qed.

Lemma add_keys_all m v : add_keys m v = add_all (target_of (sv_skill_id v) (sv_version v)) m (source_keys v).
Proof. done. Qed.
Lemma add_all_wf t m ks :
  wf_mapping m → String.eqb t "" = false → Forall (λ k, String.eqb k "" = false) ks → wf_mapping (add_all t m ks).
Proof.
  intros Hm Ht Hk. revert m Hm. induction Hk as [|k ks H _ IH]; intros m Hm; [done|]. apply IH. by apply add_target_wf.
Qed.
Lemma add_docs docs m key x :
  wf_mapping m →
  wf_mapping (foldl add_keys m docs) ∧
  (targets (foldl add_keys m docs) key x ↔
   targets m key x ∨ ∃ v, v ∈ docs ∧ key ∈ source_keys v ∧ x = target_of (sv_skill_id v) (sv_version v)).
Proof.
  revert m. induction docs as [|v docs IH]; intros m Hm; simpl.
  - split; [done|]. split; [by left|]. intros [?|(v & Hv & _)]; [done|by apply elem_of_nil in Hv].
  - destruct (IH (add_keys m v)) as [B1 B2].
    { rewrite add_keys_all. apply add_all_wf; [done|apply target_nonempty|apply Forall_forall, source_key_nonempty]. }
    split; [done|]. rewrite B2, add_keys_all, targets_add_all. setoid_rewrite elem_of_cons. naive_solver.
Qed.

Lemma reads_mapM {A B} (f : A → LB B) l w w' ys :
  (∀ x, reads (f x)) → mapM_ f l w = (w', Ok ys) → w' = w ∧ Forall2 (λ x y, f x w = (w, Ok y)) l ys.
Proof.
  intros Hf. revert ys. induction l as [|x l IH]; intros ys; simpl; [by intros [= <- <-]|].
  intros H. apply M_bind_Ok in H as (y & w1 & Hx & H). apply M_bind_Ok in H as (ys' & w2 & Hl & H).
  injection H as -> <-. pose proof (Hf x w) as E. rewrite Hx in E. simpl in E. subst w1.
  destruct (IH ys' Hl) as [-> HF]. split; [done|by constructor].
Qed.
Lemma reads_load_one k : reads (load_one k).
Proof.
  unfold reads, load_one. keeps_tac; [apply keeps_get_version|apply keeps_read_status|apply keeps_get_stats]; apply _.
Qed.
Lemma load_one_Ok k w v s st : load_one k w = (w, Ok (v, s, st)) → ∃ e, lb_entries w !! k = Some e ∧ en_version e = v ∧
  s = default (new_status k.1 k.2 lc_draft) (en_status e).
Proof.
  unfold load_one. intros H. apply M_bind_Ok in H as (v0 & w1 & H1 & H). apply M_bind_Ok in H as (s0 & w2 & H2 & H).
  apply M_bind_Ok in H as (st0 & w3 & H3 & H). injection H as -> -> <- <-.
  pose proof (keeps_get_version eq k.1 k.2 w) as E1. rewrite H1 in E1. simpl in E1. subst w1.
  pose proof (keeps_read_status eq k.1 k.2 w) as E2. rewrite H2 in E2. simpl in E2. subst w2.
  unfold get_version, entry_at, gets, lift in H1. unfold mbind, M_bind in H1. rewrite <- surjective_pairing in H1.
  destruct (lb_entries w !! k) as [e|] eqn:He; [|by destruct (verify_seed k.1 None)].
  exists e. split; [done|]. destruct (verify_seed k.1 (Some e)); [|done]. injection H1 as <-. split; [done|].
  unfold _read_status_if_present, entry_at, gets, lift in H2. unfold mbind, M_bind in H2. rewrite <- surjective_pairing, He in H2.
  simpl in H2. unfold read_status in H2. destruct (en_status e) as [s1|]; [|by injection H2 as <-].
  destruct (_active_requires_retrievable_lifecycle s1); [|done]. by injection H2 as <-.
Qed.
Lemma iter_loaded_Ok w w' l :
  iter_loaded w = (w', Ok l) → w' = w ∧
  (∀ v s st, (v, s, st) ∈ l → ∃ k e, lb_entries w !! k = Some e ∧ en_version e = v ∧
     s = default (new_status k.1 k.2 lc_draft) (en_status e)) ∧
  (∀ k e, lb_entries w !! k = Some e → ∃ st, (en_version e, default (new_status k.1 k.2 lc_draft) (en_status e), st) ∈ l).
Proof.
  unfold iter_loaded. intros H. apply M_bind_Ok in H as (ks & w1 & Hk & H). injection Hk as <- <-.
  destruct (reads_mapM load_one _ _ _ _ reads_load_one H) as [-> HF]. split; [done|]. split.
  - intros v s st Hin. apply list_elem_of_lookup in Hin as [i Hi].
    destruct (Forall2_lookup_r _ _ _ _ _ HF Hi) as (k & Hk & Hl). exists k. by apply load_one_Ok with st.
  - intros k e He. assert (k ∈ list_versions w) as Hin.
    { unfold list_versions. rewrite sorted_by_elem. apply list_elem_of_fmap. exists (k, e). split; [done|]. by apply elem_of_map_to_list. }
    apply list_elem_of_lookup in Hin as [i Hi]. destruct (Forall2_lookup_l _ _ _ _ _ HF Hi) as ([[v s] st] & Hy & Hl).
    destruct (load_one_Ok _ _ _ _ _ Hl) as (e' & He' & <- & ->). rewrite He in He'. injection He' as <-.
    exists st. apply list_elem_of_lookup. eauto.
Qed.

Lemma lib_le_lineage P w i' :
  (∀ i, lib_ok w → lb_lineage w = Some i → lineage_ok w i') → lib_le P w (w <| lb_lineage := (λ _, i') <$> lb_lineage w |>).
Proof.
  intros H. apply lib_le_same_entries; simpl; [done|done|eauto|].
  intros Hok i1 (i & Hi & ->)%fmap_Some. by apply (H i).
Qed.
Lemma rebuilt_ok w l w' :
  lib_ok w → iter_loaded w = (w', Ok l) →
  let m := foldl add_keys [] (map (λ x, x.1.1) l) in
  lineage_ok w (mkLineage (flat_map (λ kb : string * list string, map (pair kb.1) kb.2) m) (Some m) (Some m)).
Proof.
  intros Hok (_ & H1 & H2)%iter_loaded_Ok m.
  assert (wf_mapping []) as H0 by (split; [constructor|constructor]).
  assert (wf_mapping m) as Hm by apply (add_docs (map (λ x, x.1.1) l) [] "" "" H0).
  assert (_replay_wal (flat_map (λ kb : string * list string, map (pair kb.1) kb.2) m) = m) as Er by by apply replay_flat.
  split; simpl; rewrite ?Er; [by intros ? [= <-]|by intros ? [= <-]|]. intros key x.
  pose proof (proj2 (add_docs (map (λ x, x.1.1) l) [] key x H0)) as Ht. fold m in Ht. rewrite Ht. split.
  - intros [(b & [=] & _)|(v & Hv & Hk & ->)]. apply list_elem_of_fmap in Hv as ([[v1 s] st] & -> & Hin). simpl in *.
    destruct (H1 _ _ _ Hin) as (k & e & He & <- & _). exists e. destruct (ok_entries w Hok k e He) as (_ & -> & _). done.
  - intros (e & He & Hk & Hx). simpl in Hk, Hx. right. exists (en_version e). split_and!; [|done|done].
    destruct (H2 _ _ He) as [st Hin]. by apply (list_elem_of_fmap_2 (λ x, x.1.1)) in Hin.
Qed.
Lemma keeps_rebuild P : keeps (lib_le P) rebuild.
Proof.
  intros w. unfold rebuild, mbind, M_bind. pose proof (keeps_iter_loaded (lib_le P) w) as HK.
  destruct (iter_loaded w) as [w1 [l|e]] eqn:E; [|done]. unfold modify. simpl.
  pose proof (proj1 (iter_loaded_Ok _ _ _ E)) as ->. apply lib_le_lineage. intros i Hok _. by apply rebuilt_ok with w.
Qed.

Lemma keeps_lookup P kind id : keeps (lib_le P) (with_lineage (lookup_lineage kind id) []).
Proof.
  intros w. unfold with_lineage, lookup_lineage. destruct (lb_lineage w) as [i|] eqn:Ei; [|reflexivity].
  pose proof (load_map_ok w i) as HL. destruct (_load_map i) as [m i1]. simpl in *.
  apply lib_le_same_entries; simpl; [done|done|eauto|]. intros Hok i2 [= <-]. by apply HL, ok_lineage.
Qed.
Lemma keeps_mark P id n : keeps (lib_le P) (_mark_needs_recert id n).
Proof. unfold _mark_needs_recert. keeps_tac; [apply keeps_get_status; apply _|by apply keeps_write_status]. Qed.
Lemma keeps_mark_parents P ps t r : keeps (lib_le P) (mark_parents ps t r).
Proof.
  revert t r. induction ps as [|p ps IH]; intros t r; simpl; [apply keeps_ret; apply _|].
  keeps_tac; apply keeps_mark.
Qed.
Lemma keeps_mark_targets P docs ts t r : keeps (lib_le P) (mark_targets docs ts t r).
Proof.
  revert t r. induction ts as [|x ts IH]; intros t r; simpl; [apply keeps_ret; apply _|].
  destruct (r <=? 0); [apply keeps_ret; apply _|]. apply keeps_bind; [apply _|apply keeps_mark|]. intros m.
  destruct m; (apply keeps_bind; [apply _|apply keeps_mark_parents|done]).
Qed.
Lemma keeps_drain_items P docs items t r left_ : keeps (lib_le P) (drain_items docs items t r left_).
Proof.
  revert t r left_. induction items as [|it items IH]; intros t r left_; simpl; [apply keeps_ret; apply _|].
  destruct (r <=? 0); [done|]. apply keeps_bind; [apply _|apply keeps_lookup|]. intros ts.
  apply keeps_bind; [apply _|apply keeps_mark_targets|done].
Qed.
Lemma keeps_drain_revokes P n : keeps (lib_le P) (drain_revokes n).
Proof.
  unfold drain_revokes. apply keeps_bind; [apply _| |intros items; apply keeps_bind; [apply _|apply keeps_iter_loaded; apply _|intros docs]].
  - intros w. unfold drain. destruct (lb_revokes w); [|reflexivity]. destruct (n <=? 0); [reflexivity|]. by apply lib_le_same.
  - apply keeps_bind; [apply _|apply keeps_drain_items|]. intros r. apply keeps_bind; [apply _| |intros; apply keeps_ret; apply _].
    apply keeps_modify_revokes. intros w. induction r.2 as [|it l IH] using rev_ind; [done|]. by rewrite foldl_app.
Qed.
End Ok.

(** ** Reading back a target *)

Lemma pretty_digit x : (x < 10)%N →
  is_digit (pretty_N_char x) = true ∧ Z.of_nat (nat_of_ascii (pretty_N_char x)) - 48 = Z.of_N x.
Proof.
  intros Hx. assert (x = 0 ∨ x = 1 ∨ x = 2 ∨ x = 3 ∨ x = 4 ∨ x = 5 ∨ x = 6 ∨ x = 7 ∨ x = 8 ∨ x = 9)%N as H by lia.
  destruct H as [->|[->|[->|[->|[->|[->|[->|[->|[->| ->]]]]]]]]]; by vm_compute.
Qed.
Lemma digits_pretty_go x b s :
  digits_val 0 b (pretty_N_go x s) = if decide (x = 0)%N then digits_val 0 b s else digits_val (Z.of_N x) true s.
Proof.
  revert s. induction (N.lt_wf_0 x) as [x _ IH]. intros s. destruct (decide (x = 0)%N) as [->|Hx]; [by rewrite pretty_N_go_0|].
  rewrite pretty_N_go_step by lia. rewrite IH by (apply N.div_lt; lia).
  destruct (pretty_digit (x `mod` 10)%N) as [D1 D2]; [by apply N.mod_lt|].
  pose proof (N.div_mod x 10 ltac:(lia)) as Hdm. destruct (decide (x `div` 10 = 0)%N) as [H0|H0]; simpl; rewrite D1, D2; f_equal; lia.
Qed.
Lemma digits_all_go x s : all_chars is_digit s = true → all_chars is_digit (pretty_N_go x s) = true.
Proof.
  revert s. induction (N.lt_wf_0 x) as [x _ IH]. intros s Hs. destruct (decide (x = 0)%N) as [->|Hx]; [by rewrite pretty_N_go_0|].
  rewrite pretty_N_go_step by lia. apply IH; [apply N.div_lt; lia|]. simpl. rewrite Hs.
  by rewrite (proj1 (pretty_digit _ (N.mod_lt x 10 ltac:(lia)))).
Qed.
Lemma digit_not_space c : is_digit c = true → isspace c = false ∧ Ascii.eqb c "-" = false ∧ Ascii.eqb c "+" = false ∧ Ascii.eqb c "@" = false.
Proof. destruct c as [[] [] [] [] [] [] [] []]; by vm_compute. Qed.
Lemma strip_digits s : all_chars is_digit s = true → strip s = s.
Proof.
  intros Hs. assert (lstrip s = s) as El.
  { destruct s as [|c s]; [done|]. simpl in *. apply andb_true_iff in Hs as [Hc _]. by rewrite (proj1 (digit_not_space c Hc)). }
  unfold strip. rewrite El. clear El. induction s as [|c s IH]; [done|]. simpl in *. apply andb_true_iff in Hs as [Hc Hs].
  rewrite IH by done. destruct s; [by rewrite (proj1 (digit_not_space c Hc))|done].
Qed.
Lemma py_int_pretty n : 1 ≤ n → py_int (pretty n) = Some n.
Proof.
  intros Hn. destruct n as [|p|p]; [lia| |lia]. change (pretty (Zpos p)) with (pretty (Npos p)).
  unfold pretty, pretty_N. rewrite decide_False by done. unfold py_int.
  pose proof (digits_all_go (Npos p) "" eq_refl) as Hd. rewrite strip_digits by done.
  pose proof (digits_pretty_go (Npos p) false "") as E. rewrite decide_False in E by done. simpl in E.
  destruct (pretty_N_go (Npos p) "") as [|c s]; [by vm_compute in E|]. simpl in Hd. apply andb_true_iff in Hd as [Hc _].
  destruct (digit_not_space c Hc) as (_ & H1 & H2 & _). rewrite <- E.
  destruct c as [[] [] [] [] [] [] [] []]; try done.
Qed.
Lemma segments_no_at sep b s : Ascii.eqb sep "@" = false → segments sep b s = true → ∀ s', partition_at (s +:+ String "@" s') = Some (s, s').
Proof.
  intros Hsep. revert b. induction s as [|c s IH]; intros b Hs s'; simpl in *; [done|].
  destruct (Ascii.eqb_spec c "@") as [->|Hc].
  - change (is_lower "@" || is_digit "@") with false in Hs. rewrite Ascii.eqb_sym, Hsep in Hs. done.
  - destruct (is_lower c || is_digit c); [by rewrite (IH true)|].
    destruct (Ascii.eqb c sep); [|done]. apply andb_true_iff in Hs as [_ Hs]. by rewrite (IH false).
Qed.
Lemma parse_target_of id n : key_ok (id, n) → _parse_target (target_of id n) = Some (id, n).
Proof.
  intros [Hid Hn]. simpl in *. unfold _parse_target, target_of. unfold _SKILL_ID_PATTERN in Hid.
  change (id +:+ "@" +:+ pretty n) with (id +:+ String "@" (pretty n)).
  rewrite (segments_no_at "-" false id); [|done|done]. destruct id; [done|]. simpl. by rewrite py_int_pretty.
Qed.

Section Lookup.
Context `{LE : LibraryEnv}.

Lemma targets_bucket m key t : t ∈ default [] (bucket m key) ↔ targets m key t.
Proof.
  unfold targets. destruct (bucket m key) as [b|]; simpl; [naive_solver|].
  split; [by intros ?%elem_of_nil|by intros (b & [=] & _)].
Qed.

(** The lineage index answers for the library: a lookup by an authoring source
    (or by a version's own identity) returns exactly the stored versions that
    name that source, whatever was written, rebuilt or reloaded before. *)
Lemma lookup_library w i kind id :
  lib_ok w → lb_lineage w = Some i →
  ∀ k, k ∈ (lookup_lineage kind id i).1 ↔
       ∃ e, lb_entries w !! k = Some e ∧ (kind +:+ ":" +:+ id) ∈ source_keys (en_version e).
Proof.
  intros Hok Hi k. pose proof (ok_lineage w Hok i Hi) as Hl. destruct (load_map_ok w i Hl) as (Em & _ & _).
  destruct Hl as [_ _ Hrows]. unfold lookup_lineage. destruct (_load_map i) as [m i1]. simpl in *. subst m.
  rewrite list_elem_of_omap. setoid_rewrite targets_bucket. setoid_rewrite Hrows. unfold all_rows. simpl. split.
  - intros (t & (e & He & Hk & ->) & Hp). destruct (ok_entries w Hok _ e He) as (Hko & _ & _).
    rewrite parse_target_of in Hp by done. injection Hp as <-. by exists e.
  - intros (e & He & Hk). destruct (ok_entries w Hok _ e He) as (Hko & Ek & _). rewrite <- Ek in He, Hko.
    exists (target_of (sv_skill_id (en_version e)) (sv_version (en_version e))). split; [by exists e|].
    rewrite parse_target_of by done. by rewrite Ek.
Qed.
End Lookup.

Section Drain.
Context `{LE : LibraryEnv}.

Definition put_status (w : Library) (s : SkillStatus) : Library :=
  let k := (ss_skill_id s, ss_version s) in
  match lb_entries w !! k with
  | Some e => w <| lb_entries := <[k := e <| en_status := Some s |>]> (lb_entries w) |>
  | None => w
  end.
Lemma status_put w s k :
  is_Some (lb_entries w !! (ss_skill_id s, ss_version s)) →
  status_at (put_status w s) k = if decide (k = (ss_skill_id s, ss_version s)) then Some s else status_at w k.
Proof.
  intros [e He]. unfold status_at, put_status. rewrite He. simpl. destruct (decide _) as [->|Hk].
  - by rewrite lookup_insert_eq.
  - by rewrite lookup_insert_ne.
Qed.
Lemma unchecked_spec s w :
  _write_status_unchecked s w =
  match lb_entries w !! (ss_skill_id s, ss_version s) with
  | None => (w, Err FileNotFoundError) | Some _ => (put_status w s, Ok tt) end.
Proof.
  unfold _write_status_unchecked, mbind, M_bind, entry_at, gets, put_entry, modify, put_status.
  by destruct (lb_entries w !! _).
Qed.
(** A status that is not quarantined is written and nothing else happens. *)
Lemma write_status_plain s expected w :
  status_accepted w s expected → ss_lifecycle s ≠ lc_quarantined → write_status s expected w = (put_status w s, Ok tt).
Proof.
  intros Ha Hq. destruct (write_status_spec s expected w) as [[Hn _]|[_ ->]]; [done|].
  unfold mbind, M_bind. rewrite unchecked_spec. destruct Ha as [[e ->] _].
  unfold _maybe_enqueue_revoke. by rewrite bool_decide_false.
Qed.
Lemma get_status_Ok w w' k s :
  get_status k.1 k.2 w = (w', Ok s) ↔ w' = w ∧ status_at w k = Some s ∧ _active_requires_retrievable_lifecycle s = true.
Proof.
  unfold get_status, status_at, entry_at, gets, lift, read_status. unfold mbind at 1, M_bind. rewrite <- surjective_pairing.
  destruct (lb_entries w !! k) as [e|]; simpl; [|by split; [intros [= ]|intros (_ & [= ] & _)]].
  destruct (en_status e) as [s0|]; simpl; [|by split; [intros [= ]|intros (_ & [= ] & _)]].
  destruct (_active_requires_retrievable_lifecycle s0) eqn:E; split.
  - by intros [= <- <-].
  - by intros (-> & [= ->] & _).
  - by intros [= ].
  - intros (_ & [= ->] & E'). congruence.
Qed.
Lemma status_entry w k s : status_at w k = Some s → is_Some (lb_entries w !! k).
Proof. unfold status_at. by destruct (lb_entries w !! k). Qed.

Definition recert_of (s : SkillStatus) : SkillStatus := s <| ss_lifecycle := lc_needs_recert |> <| ss_active := false |>.
Definition unmarked : list Lifecycle := [lc_quarantined; lc_deprecated; lc_needs_recert].
Lemma mark_spec w k s :
  lib_ok w → get_status k.1 k.2 w = (w, Ok s) →
  _mark_needs_recert k.1 k.2 w =
  if bool_decide (ss_lifecycle s ∈ unmarked) then (w, Ok None) else (put_status w (recert_of s), Ok (Some (recert_of s))).
Proof.
  intros Hok Hg. unfold _mark_needs_recert, mbind, M_bind, or_missing. rewrite Hg. unfold unmarked.
  case_bool_decide as Hl; [done|]. apply get_status_Ok in Hg as (_ & Hs & Hv). fold (recert_of s).
  destruct (ok_status w Hok k s Hs) as [Hk _].
  rewrite write_status_plain; [done| |done]. split_and!; [|..].
  - simpl. rewrite Hk. by apply status_entry with s.
  - simpl. rewrite Hk. intros s0 Hs0. congruence.
  - done.
  - done.
Qed.

(** *** Bounds of a drain *)

Definition marked_ok (s : SkillStatus) : Prop := ss_lifecycle s = lc_needs_recert ∧ ss_active s = false.
Lemma mark_marked id n w w' s : _mark_needs_recert id n w = (w', Ok (Some s)) → marked_ok s.
Proof.
  unfold _mark_needs_recert. intros H. apply M_bind_Ok in H as (o & w1 & _ & H). destruct o as [s0|]; [|by injection H].
  destruct (bool_decide _); [by injection H|]. apply M_bind_Ok in H as (u & w2 & _ & H). by injection H as _ <-.
Qed.
Lemma mark_parents_bound ps t r w w' t' r' :
  0 ≤ r → Forall marked_ok t → mark_parents ps t r w = (w', Ok (t', r')) →
  0 ≤ r' ∧ Z.of_nat (length t') + r' = Z.of_nat (length t) + r ∧ Forall marked_ok t'.
Proof.
  revert t r w. induction ps as [|p ps IH]; intros t r w Hr Ht; simpl; [by intros [= <- <- <-]|].
  destruct (Z.leb_spec r 0) as [Hz|Hz]; [by intros [= <- <- <-]|]. intros H. apply M_bind_Ok in H as (m & w1 & Hm & H).
  destruct m as [s|]; apply IH in H; try done; [|lia|].
  - destruct H as (A & B & C). rewrite length_app in B. simpl in B. split_and!; [done|lia|done].
  - apply Forall_app_2; [done|]. constructor; [by apply (mark_marked _ _ _ _ _ Hm)|done].
Qed.
Lemma mark_targets_bound docs ts t r w w' t' r' b :
  0 ≤ r → Forall marked_ok t → mark_targets docs ts t r w = (w', Ok (t', r', b)) →
  0 ≤ r' ∧ Z.of_nat (length t') + r' = Z.of_nat (length t) + r ∧ Forall marked_ok t'.
Proof.
  revert t r w. induction ts as [|x ts IH]; intros t r w Hr Ht; simpl; [by intros [= <- <- <- <-]|].
  destruct (Z.leb_spec r 0) as [Hz|Hz]; [by intros [= <- <- <- <-]|]. intros H. apply M_bind_Ok in H as (m & w1 & Hm & H).
  destruct m as [s|]; apply M_bind_Ok in H as ([t1 r1] & w2 & Hp & H); apply mark_parents_bound in Hp as (A & B & C); try done; try lia.
  - destruct (IH _ _ _ A C H) as (A' & B' & C'). rewrite length_app in B. simpl in B, B'. split_and!; [done|lia|done].
  - apply Forall_app_2; [done|]. constructor; [by apply (mark_marked _ _ _ _ _ Hm)|done].
  - destruct (IH _ _ _ A C H) as (A' & B' & C'). simpl in B'. split_and!; [done|lia|done].
Qed.
Lemma drain_items_bound docs items t r left_ w w' t' l' :
  0 ≤ r → Forall marked_ok t → drain_items docs items t r left_ w = (w', Ok (t', l')) →
  Z.of_nat (length t') ≤ Z.of_nat (length t) + r ∧ Forall marked_ok t'.
Proof.
  revert t r left_ w. induction items as [|it items IH]; intros t r left_ w Hr Ht; simpl.
  { intros [= <- <- <-]. split; [lia|done]. }
  destruct (Z.leb_spec r 0) as [Hz|Hz]; [by apply IH|]. intros H. apply M_bind_Ok in H as (ts & w1 & _ & H).
  apply M_bind_Ok in H as ([[t1 r1] b] & w2 & Hm & H). apply mark_targets_bound in Hm as (A & B & C); [|done..].
  simpl in H. apply IH in H as [D E]; [|done..]. split; [lia|done].
Qed.
Lemma drain_revokes_bound n w w' touched :
  drain_revokes n w = (w', Ok touched) → Z.of_nat (length touched) ≤ Z.max 0 n ∧ Forall marked_ok touched.
Proof.
  unfold drain_revokes. intros H. apply M_bind_Ok in H as (items & w1 & Hi & H). apply M_bind_Ok in H as (docs & w2 & _ & H).
  apply M_bind_Ok in H as ([t l] & w3 & Hd & H). apply M_bind_Ok in H as (u & w4 & _ & H). injection H as _ <-.
  destruct (Z.le_gt_cases n 0) as [Hn|Hn].
  - assert (items = []) as ->. { unfold drain in Hi. destruct (lb_revokes w); [|by injection Hi]. rewrite (proj2 (Z.leb_le _ _) Hn) in Hi. by injection Hi. }
    injection Hd as _ <- _. simpl. split; [lia|constructor].
  - apply drain_items_bound in Hd as [A B]; [|lia|constructor]. simpl in *. split; [lia|done].
Qed.
End Drain.

(** ** Claims on the index and the drain *)

(** Following a source through the lineage index finds exactly the stored
    versions that name it, whatever was written, rebuilt or reloaded before. *)
Theorem lineage_lookup_exact `{LE : LibraryEnv} w i kind id :
  lib_ok w → lb_lineage w = Some i →
  ∀ k, k ∈ (lookup_lineage kind id i).1 ↔
       ∃ e, lb_entries w !! k = Some e ∧ (kind +:+ ":" +:+ id) ∈ source_keys (en_version e).
Proof. apply lookup_library. Qed.

(** A drain marks at most [max_writes] versions, every status it returns is
    needs_recert and inactive, and no stored document, other approval or
    allocated number changes. *)
Theorem drain_bounded `{LE : LibraryEnv} n w w' touched :
  drain_revokes n w = (w', Ok touched) →
  Z.of_nat (length touched) ≤ Z.max 0 n ∧ Forall marked_ok touched ∧ lib_le (λ _, False) w w'.
Proof.
  intros H. destruct (drain_revokes_bound n w w' touched H) as [A B]. split_and!; [done|done|].
  pose proof (keeps_drain_revokes (λ _, False) n w) as HK. by rewrite H in HK.
Qed.

Section Requeue.
Context `{LE : LibraryEnv}.
Definition same_revokes (w w' : Library) : Prop := lb_revokes w' = lb_revokes w.
#[local] Instance same_revokes_preorder : PreOrder same_revokes.
Proof. split; [done|]. intros a b c H1 H2. unfold same_revokes in *. congruence. Qed.

Lemma revokes_mark id n : keeps same_revokes (_mark_needs_recert id n).
Proof.
  intros w. unfold _mark_needs_recert, mbind, M_bind, or_missing. pose proof (keeps_get_status eq id n w) as Hr.
  destruct (get_status id n w) as [w1 [s|e]]; simpl in Hr; subst w1; [|by case_bool_decide].
  case_bool_decide; [done|]. set (s' := (s <| ss_lifecycle := lc_needs_recert |>) <| ss_active := false |>).
  destruct (write_status_spec s' None w) as [[_ [e ->]]|[Ha _]]; [done|]. rewrite write_status_plain by done. unfold same_revokes, put_status. simpl. by destruct (lb_entries w !! _).
Qed.
Lemma revokes_mark_parents ps t r : keeps same_revokes (mark_parents ps t r).
Proof.
  revert t r. induction ps as [|p ps IH]; intros t r; simpl; [apply keeps_ret; apply _|].
  destruct (r <=? 0); [apply keeps_ret; apply _|]. apply keeps_bind; [apply _|apply revokes_mark|]. by intros [].
Qed.
Lemma mark_single_target docs k r t w w' t' r' b :
  0 < r → mark_targets docs [k] t r w = (w', Ok (t', r', b)) → b = false ∧ lb_revokes w' = lb_revokes w.
Proof.
  intros Hr. simpl. rewrite (proj2 (Z.leb_gt r 0)) by lia. intros H. apply M_bind_Ok in H as (m & w1 & Hm & H).
  pose proof (revokes_mark k.1 k.2 w) as E1. rewrite Hm in E1. unfold same_revokes in E1. simpl in E1. rewrite <- E1. clear E1 Hm.
  destruct m; apply M_bind_Ok in H as ([t1 r1] & w2 & Hp & H); injection H as <- _ _ <-; (split; [done|]);
    [pose proof (revokes_mark_parents (parents_of docs k) (t ++ [s]) (r - 1) w1) as E
    |pose proof (revokes_mark_parents (parents_of docs k) t r w1) as E]; by rewrite Hp in E.
Qed.

(** The write cap can cut the marking of parents short, and then nothing is
    queued again: draining a source that names one version empties the queue
    whatever the cap, although only [max_writes] of that version and its
    parents were marked. *)
Theorem drain_forgets_parents w w' i it k n touched :
  lb_lineage w = Some i → (lookup_lineage (ri_source_kind it) (ri_source_id it) i).1 = [k] → lb_revokes w = Some [it] → 1 ≤ n →
  drain_revokes n w = (w', Ok touched) → lb_revokes w' = Some [] ∧ Z.of_nat (length touched) ≤ n.
Proof.
  intros Hi Hk Hq Hn H. split; [|destruct (drain_revokes_bound n w w' touched H) as [A _]; lia].
  unfold drain_revokes in H. apply M_bind_Ok in H as (items & w1 & Hd & H).
  unfold drain in Hd. rewrite Hq, (proj2 (Z.leb_gt n 0)) in Hd by lia.
  destruct (Z.to_nat n) as [|n'] eqn:En; [lia|]. simpl in Hd. rewrite drop_nil, take_nil in Hd. injection Hd as <- <-.
  set (w1 := w <| lb_revokes := Some [] |>) in *.
  apply M_bind_Ok in H as (docs & w2 & Hl & H). apply iter_loaded_Ok in Hl as [-> _].
  apply M_bind_Ok in H as ([t l] & w3 & Hm & H). simpl in Hm. rewrite (proj2 (Z.leb_gt n 0)) in Hm by lia.
  apply M_bind_Ok in Hm as (ts & w4 & Ht & Hm). unfold with_lineage in Ht. simpl in Ht. rewrite Hi in Ht.
  destruct (lookup_lineage (ri_source_kind it) (ri_source_id it) i) as [ts' i'] eqn:El. simpl in Hk. subst ts'. injection Ht as <- <-.
  apply M_bind_Ok in Hm as ([[t1 r1] b] & w5 & Hm & Hr). apply mark_single_target in Hm as [-> E]; [|lia].
  simpl in Hr. injection Hr as <- <- <-. apply M_bind_Ok in H as (u & w6 & Hu & H). unfold modify in Hu. simpl in Hu.
  injection Hu as <- _. injection H as <- _. by rewrite E.
Qed.
End Requeue.

(** ** Witnesses *)

Definition demo_env : LibraryEnv :=
  {| json_sha256 := λ v, "sha:" +:+ sv_skill_id v; surface_sha256 := λ s, "surface:" +:+ sf_task_class s;
     file_hmac := λ k v, k +:+ sv_skill_id v; ledger_hmac_key := ""; SEED_SKILLS := [] |}.
Definition demo_criterion : SkillCertificationCriterion :=
  mkCertCriterion "c1" K_command (Some "true") 0 None None None None None None None fresh_context None 60 f1 None by_human true.
Definition demo_version (id : string) (runs : list string) (uses : list SkillUse) : SkillVersion :=
  mkSkillVersion id 1 None "A title" "Do it when asked" "repo-chore" [] scope_project uses [] []
    [mkStep "s1" None "do it" [] [] [] false [] None] [demo_criterion] []
    (mkSkillProvenance "r0" 0 None human_authored None None None None None [] runs [] [] None)
    (mkHygiene scan_passed None None).
Definition empty_library : Library := mkLibrary ∅ ∅ (Some (mkLineage [] None None)) (Some []) [] empty_EvalDB ∅ [].
Definition set_status (s : SkillStatus) (w : Library) : Library := put_status w s.
Definition demo_library : Library :=
  let w := foldl (λ w v, (@write_version demo_env v w).1) empty_library
    [demo_version "child" ["r9"] []; demo_version "p1" [] [mkSkillUse "child" 1]; demo_version "p2" [] [mkSkillUse "child" 1]] in
  foldl (λ w id, set_status ((new_status id 1 lc_approved) <| ss_active := true |>) w) w ["child"; "p1"; "p2"].
Definition demo_queued : Library := enqueue "run" "r9" "revoked" demo_library.
Definition demo_index : LineageIndex := default (mkLineage [] None None) (lb_lineage demo_queued).
Definition demo_drained : Library := (@drain_revokes demo_env 2 demo_queued).1.

Lemma lib_ok_empty `{LE : LibraryEnv} q l d logs audit : lib_ok (mkLibrary ∅ ∅ (Some (mkLineage [] None None)) q l d logs audit).
Proof.
  split; simpl.
  - intros k e. by rewrite lookup_empty.
  - intros k s. unfold status_at. simpl. by rewrite lookup_empty.
  - set_solver.
  - intros i [= <-]. split; simpl; [done|done|]. intros key target. split; [by intros (b & [=] & _)|].
    intros (e & He & _). simpl in He. by rewrite lookup_empty in He.
Qed.
Lemma lib_ok_put `{LE : LibraryEnv} w s :
  lib_ok w → status_ok (ss_skill_id s, ss_version s) s → lib_ok (put_status w s).
Proof.
  intros Hok Hs. unfold put_status. destruct (lb_entries w !! _) as [e|] eqn:He; [|done].
  apply (lib_le_update (λ _, True) w _ e); simpl; try done; try (by intros s' [= <-]; right); by right.
Qed.
Lemma demo_library_ok : @lib_ok demo_env demo_queued.
Proof.
  assert (∀ l w, @lib_ok demo_env w → (∀ v, v ∈ l → key_ok (sv_skill_id v, sv_version v)) →
    @lib_ok demo_env (foldl (λ w v, (@write_version demo_env v w).1) w l)) as Hw.
  { induction l as [|v l IH]; intros w Hok Hl; simpl; [done|]. apply IH; [|intros v' Hv'; apply Hl; by right].
    apply (@keeps_write_version demo_env (λ _, True) v (Hl v ltac:(left)) w), Hok. }
  unfold demo_queued. apply (@lib_le_same demo_env (λ _, True) demo_library); [done|done|done|].
  unfold demo_library. simpl. do 3 (apply lib_ok_put; [|by split]).
  match goal with |- lib_ok (write_version ?c (write_version ?b (write_version ?a _).1).1).1 => apply (Hw [a; b; c]) end.
  - apply lib_ok_empty.
  - intros v [->|[->|[->|Hv%elem_of_nil]%elem_of_cons]%elem_of_cons]%elem_of_cons; [split; [reflexivity|simpl; lia]..|done].
Qed.
Lemma lineage_lookup_exact_witness : ("child", 1) ∈ (lookup_lineage "run" "r9" demo_index).1.
Proof.
  apply (@lineage_lookup_exact demo_env demo_queued demo_index "run" "r9" demo_library_ok).
  - vm_compute. reflexivity.
  - assert (is_Some (lb_entries demo_queued !! ("child", 1))) as [e He] by (vm_compute; eauto).
    exists e. split; [exact He|]. vm_compute in He. injection He as <-. vm_compute. left.
Defined.
Lemma drain_forgets_parents_witness :
  lb_revokes demo_drained = Some [] ∧ lifecycle_at demo_drained ("p2", 1) = Some lc_approved.
Proof.
  split; [|vm_compute; reflexivity].
  refine (proj1 (@drain_forgets_parents demo_env demo_queued demo_drained demo_index (mkRevoke "run" "r9" "revoked") ("child", 1) 2
    [recert_of (new_status "child" 1 lc_approved); recert_of (new_status "p1" 1 lc_approved)] _ _ _ _ _)).
  - vm_compute. reflexivity.
  - vm_compute. reflexivity.
  - vm_compute. reflexivity.
  - lia.
  - vm_compute. reflexivity.
Defined.
Lemma drain_bounded_witness : Z.of_nat (length [recert_of (new_status "child" 1 lc_approved)]) ≤ Z.max 0 1.
Proof.
  refine (proj1 (@drain_bounded demo_env 1 demo_queued (@drain_revokes demo_env 1 demo_queued).1
    [recert_of (new_status "child" 1 lc_approved)] _)).
  vm_compute. reflexivity.
Defined.
