(* ===== verification/SkillGates.v ===== *)
(** * The gates a skill version passes (contracts/profiles.py, contracts/lint.py,
      memory/procedural/lint.py, memory/procedural/applicability.py)

    Profiles, the lint report with its hash shortcut, the walks over the uses
    graph, and the applicability gate.  A violation is its unformatted message.
    Text is ASCII for the two word patterns.  The theorems: the shortcut makes
    lint say nothing about any stored version, and what the applicability gate
    and the uses walk accept. *)
From S2P Require Import Prelude PyStr Budgets Contracts Skills EvalStore Library.
From Stdlib Require Import ZArith Lia Ascii.
Open Scope Z_scope.

Class GateEnv := {
  evidence_hash : TaskCriterion → string → string;     (* contracts/criteria.py: SHA-256 of the fields and the fingerprint *)
  environment_tools : list string;                     (* names of the registry's tools *)
  embedding_near : SkillVersion → SkillVersion → bool  (* cosine of two documents at least 0.97 *)
}.

(** ** contracts/profiles.py *)

Section Profiles.
Context `{GE : GateEnv}.

(** [sensitivity_proof_binds] on a certification criterion. *)
Definition is_preregistered_and_proven (c : SkillCertificationCriterion) : bool :=
  match cc_sensitivity_proof c with
  | None => false
  | Some p =>
      p_rejected p && truthy (p_evidence_hash p) &&
      (let checked := default "" (p_checked_against p) in
       String.prefix "sha256:" checked &&
       bool_decide (p_evidence_hash p =
         Some (evidence_hash (shared_fields c) (String.substring 7 (String.length checked - 7) checked))))
  end.
Definition cc_is_required (c : SkillCertificationCriterion) : bool := f1 <=?. cc_weight c.
Definition violation (b : bool) (t : text) : list text := if b then [t] else [].

Definition validate_predictive_trust (t : PredictiveTrust) : list text :=
  violation (pt_applications t <? pt_successes t) (lit "predictive_trust.successes exceeds applications") ++
  violation (match pt_decayed_score t with Some x => negb ((f0 <=?. x) && (x <=?. f1)) | None => false end)
    (lit "predictive_trust.decayed_score must be in [0, 1] when set").
Definition validate_contribution (c : Contribution) : list text :=
  violation (co_applications c <? co_successes c) (lit "contribution.successes exceeds applications") ++
  violation (co_suppressed_applications c <? co_suppressed_successes c)
    (lit "contribution.suppressed_successes exceeds suppressed_applications") ++
  if (co_applications c =? 0) || (co_suppressed_applications c =? 0) then
    violation (bool_decide (is_Some (co_interval_low c)) || bool_decide (is_Some (co_interval_high c)))
      (lit "contribution interval requires both shadow and suppression observations")
  else violation (match co_interval_low c, co_interval_high c with Some l, Some h => h <?. l | _, _ => false end)
      (lit "contribution interval_low exceeds interval_high").
Definition validate_retrieval_ablation (e : RetrievalAblationEffect) : list text :=
  violation (ra_enabled e <? ra_enabled_successes e) (lit "retrieval_enabled_successes exceeds retrieval_enabled") ++
  violation (ra_suppressed e <? ra_suppressed_successes e) (lit "retrieval_suppressed_successes exceeds retrieval_suppressed") ++
  violation (((ra_enabled e =? 0) || (ra_suppressed e =? 0)) &&
             (bool_decide (is_Some (ra_interval_low e)) || bool_decide (is_Some (ra_interval_high e))))
    (lit "retrieval ablation interval requires both enabled and suppressed arms").
Definition validate_apply_diversity (d : ApplyDiversity) : list text :=
  violation (ad_floor d <? Z.of_nat (length (ad_apply_session_sample d))) (lit "apply_diversity.apply_session_sample exceeds floor") ++
  violation (ad_distinct_apply_sessions d <? Z.of_nat (length (ad_apply_session_sample d)))
    (lit "apply_diversity.distinct_apply_sessions smaller than sample").
Definition validate_skill_stats (s : SkillStats) : list text :=
  validate_predictive_trust (sk_predictive_trust s) ++ validate_contribution (sk_contribution s) ++
  validate_apply_diversity (sk_apply_diversity s).

Definition keys_to (v : SkillVersion) (s : SkillStatus) : bool :=
  String.eqb (ss_skill_id s) (sv_skill_id v) && (ss_version s =? sv_version v).
Definition validate_candidate_skill (v : SkillVersion) (s : SkillStatus) : list text :=
  let required := List.filter cc_is_required (sv_certification_criteria v) in
  violation (negb (keys_to v s)) (lit "status does not key to this version") ++
  violation (negb (bool_decide (ss_lifecycle s ∈ [lc_candidate; lc_shadow; lc_approved]))) (lit "lifecycle never reached candidate") ++
  violation (is_nil required) (lit "no required certification criteria; cannot reach candidate (specs §15.2)") ++
  violation (negb (existsb is_preregistered_and_proven required))
    (lit "no required criterion has a valid, rejecting sensitivity proof (specs §15.2)") ++
  violation (negb (bool_decide (hy_secret_scan (sv_hygiene v) = scan_passed)))
    (lit "hygiene.secret_scan MUST be 'passed' before a version may be stored").
Definition is_self_distilled (v : SkillVersion) : bool := bool_decide (pv_curation (sv_provenance v) = self_distilled).
Definition validate_approved_skill (v : SkillVersion) (s : SkillStatus) (st : SkillStats) : list text :=
  validate_candidate_skill v s ++ validate_skill_stats st ++
  violation (negb (bool_decide (ss_lifecycle s = lc_approved))) (lit "lifecycle is not approved") ++
  violation (forallb is_judge (sv_certification_criteria v)) (lit "a judge-only skill MUST NOT reach approved (specs §2.1)") ++
  violation (bool_decide (ce_model_validated_on (ss_certification s) = None))
    (lit "certification.model_validated_on MUST be recorded before approval") ++
  violation (is_self_distilled v && (pt_applications (sk_predictive_trust st) =? 0) &&
             bool_decide (ce_recert_status (ss_certification s) = rc_never))
    (lit "self_distilled skill approved with zero observed applications and no certification run") ++
  violation (is_self_distilled v && (0 <? pt_applications (sk_predictive_trust st)) &&
             (ad_distinct_apply_sessions (sk_apply_diversity st) <? 2))
    (lit "self_distilled skill approved from a single application session") ++
  violation (ss_active s && negb (bool_decide (ss_lifecycle s = lc_approved))) (lit "active=True requires lifecycle == 'approved'") ++
  flat_map (λ u, violation (String.eqb (us_skill_id u) (sv_skill_id v))
                   (lit "uses graph MUST NOT reference the parent skill itself (cycle)")) (sv_uses v).
End Profiles.

(** ** memory/procedural/lint.py *)

Inductive LintSeverity := sev_error | sev_warning.
Record LintFinding := mkFinding { lf_code : string; lf_severity : LintSeverity; lf_message : text }.
Record LintReport := mkLintReport { lr_findings : list LintFinding; lr_content_hash : string }.
Definition is_error (f : LintFinding) : bool := match lf_severity f with sev_error => true | sev_warning => false end.
Definition errors (r : LintReport) : list LintFinding := List.filter is_error (lr_findings r).

(** *** Word patterns: [re.search] of alternatives between word boundaries, ignoring case *)

Definition word_char (c : ascii) : bool := isalpha c || is_digit c || Ascii.eqb c "_".
Fixpoint drop_str (n : nat) (s : string) : string :=
  match n, s with S n', String _ s' => drop_str n' s' | _, _ => s end.
Definition starts_word (s : string) : bool := match s with String c _ => word_char c | EmptyString => false end.
(** The last character of [w] against what follows it: a boundary lies between. *)
Fixpoint ends_word (w : string) : bool :=
  match w with EmptyString => false | String c EmptyString => word_char c | String _ w' => ends_word w' end.
Definition alternative_at (s : string) (w : string) : bool :=
  String.prefix w (str_lower s) && xorb (ends_word w) (starts_word (drop_str (String.length w) s)).
(** [prev]: the character before [s] is a word character; every alternative starts with one. *)
Fixpoint word_search (ws : list string) (prev : bool) (s : string) : bool :=
  match s with
  | EmptyString => false
  | String c s' => (negb prev && existsb (alternative_at s) ws) || word_search ws (word_char c) s'
  end.
Definition _WHEN_CLAUSE (s : string) : bool := word_search ["when"; "if"; "before"; "unless"; "only"] false s.
Definition _VAGUE (s : string) : bool :=
  word_search ["be careful"; "handle edge cases"; "edge cases"; "as appropriate"; "generally"; "try to"; "make sure";
               "etc."; "etc"; "and so on"; "do the right thing"] false s.

Fixpoint replace_char (a b : ascii) (s : string) : string :=
  match s with EmptyString => EmptyString | String c s' => String (if Ascii.eqb c a then b else c) (replace_char a b s') end.

Definition _specificity_severity (s : SkillStatus) : LintSeverity :=
  if bool_decide (ss_lifecycle s ∈ [lc_draft; lc_candidate; lc_shadow]) then sev_error else sev_warning.
Definition vague_blobs (v : SkillVersion) : list string :=
  [sv_intent v; sv_title v] ++ map st_intent (sv_steps v) ++ map fm_symptom (sv_failure_modes v) ++ map fm_response (sv_failure_modes v).
Definition thin (m : FailureMode) : bool :=
  (String.length (strip (fm_symptom m)) <? 12)%nat || (String.length (strip (fm_response m)) <? 12)%nat.
Definition _specificity_findings (v : SkillVersion) (s : SkillStatus) : list LintFinding :=
  let severity := _specificity_severity s in
  map (mkFinding "SPEC" severity)
    (violation (is_nil (sv_preconditions v)) (lit "preconditions required: name the tools, files, or env the skill assumes") ++
     violation (is_nil (sv_failure_modes v)) (lit "failure_modes required: each entry is condition → observed failure → recovery") ++
     flat_map (λ m, violation (thin m) (lit "failure_modes is too thin; name the observed failure and the recovery action"))
       (sv_failure_modes v)) ++
  map (mkFinding "VAGUE" severity)
    (violation (existsb _VAGUE (vague_blobs v)) (lit "vague language: name the condition and the recovery")).
Definition _packaging_findings (v : SkillVersion) : list LintFinding :=
  map (mkFinding "R1.3" sev_warning) (violation (is_nil (sv_preconditions v) && negb (_WHEN_CLAUSE (sv_intent v)))
    (lit "preconditions missing and intent has no when/if clause")) ++
  map (mkFinding "R1.4" sev_warning) (violation (String.eqb (str_lower (sv_title v)) (replace_char "-" " " (sv_skill_id v)))
    (lit "title is the skill_id slug")) ++
  flat_map (λ st,
    map (mkFinding "R2.4" sev_error) (violation (String.eqb (str_lower (replace_char "-" "_" (st_intent st))) (st_id st))
      (fmt "step {!r} intent equals the step id" [FR (st_id st)])) ++
    map (mkFinding "R3.1" sev_warning) (violation (2048 <? String.length (st_intent st))%nat
      (fmt "step {!r} intent > 2KiB" [FR (st_id st)]))) (sv_steps v) ++
  map (mkFinding "R5" sev_error) (violation (bool_decide (hy_secret_scan (sv_hygiene v) = scan_failed)) (lit "secret scan failed")) ++
  map (mkFinding "CRIT" sev_error) (violation (forallb is_judge (sv_certification_criteria v))
    (lit "no non-judge certification criterion")).

Section Lint.
Context `{LE : LibraryEnv} `{GE : GateEnv}.

Fixpoint _check_uses_resolve (uses : list SkillUse) : LB (list text) :=
  match uses with
  | [] => mret []
  | u :: uses' =>
      c ← or_missing (get_version (us_skill_id u) (us_version u));
      rest ← _check_uses_resolve uses';
      mret (violation (match c with None => true | Some _ => false end)
              (fmt "uses entry {}@v{} does not exist in the skill store" [FS (us_skill_id u); FZ (us_version u)]) ++ rest)
  end.

(** Depth 1 to 3: a [uses] entry deeper than that is a violation, so the walk
    ends. *)
Fixpoint walk_uses (levels : nat) (id : string) (n : Z) (path : list (string * Z)) : LB (list text) :=
  if bool_decide ((id, n) ∈ path) then mret [lit "uses graph contains a cycle"]
  else match levels with
  | O => mret [fmt "uses depth exceeds {} at {}@v{}" [FZ 3; FS id; FZ n]]
  | S levels' =>
      c ← or_missing (get_version id n);
      match c with
      | None => mret []
      | Some child =>
          vs ← mapM_ (λ u, walk_uses levels' (us_skill_id u) (us_version u) (path ++ [(id, n)])) (sv_uses child);
          mret (concat vs)
      end
  end.
Definition _check_uses_acyclic (v : SkillVersion) : LB (list text) :=
  vs ← mapM_ (λ u, walk_uses 3 (us_skill_id u) (us_version u) [(sv_skill_id v, sv_version v)]) (sv_uses v);
  mret (concat vs).

#[export] Instance ResourceKind_eq_dec : EqDecision ResourceKind. Proof. solve_decision. Defined.
Definition writes_claim (c : ResourceClaim) : bool := match claim_mode c with RM_read => false | _ => true end.
Definition composed_key (c : ResourceClaim) : ResourceKind * string := (claim_kind c, claim_id c).
Fixpoint first_keys {K} `{EqDecision K} (l : list K) (seen : list K) : list K :=
  match l with
  | [] => []
  | k :: l' => if bool_decide (k ∈ seen) then first_keys l' seen else k :: first_keys l' (k :: seen)
  end.
Fixpoint child_claims (uses : list SkillUse) : LB (list ((ResourceKind * string) * string)) :=
  match uses with
  | [] => mret []
  | u :: uses' =>
      c ← or_missing (get_version (us_skill_id u) (us_version u));
      rest ← child_claims uses';
      let holder := us_skill_id u +:+ "@v" +:+ pretty (us_version u) in
      mret (match c with
            | Some child => flat_map (λ st, map (λ cl, (composed_key cl, holder)) (List.filter writes_claim (st_resources st))) (sv_steps child)
            | None => []
            end ++ rest)
  end.
Definition _check_composed_claims (v : SkillVersion) : LB (list text) :=
  if (length (sv_uses v) <? 2)%nat then mret []
  else
    claimed ← child_claims (sv_uses v);
    mret (flat_map (λ k,
      let unique := first_keys (map snd (List.filter (λ kc, bool_decide (kc.1 = k)) claimed)) [] in
      violation (2 <=? length unique)%nat
        (fmt "composed skills {} share undeclared claim {}" [FL (sorted_by String.ltb unique); FS k.2]))
      (first_keys (map fst claimed) [])).

Definition lint_report (v : SkillVersion) (s : SkillStatus) (st : option SkillStats) (with_store skip_if_hash_matches : bool)
    : LB LintReport :=
  let digest := lint_content_hash v in
  if skip_if_hash_matches && truthy (hy_lint_content_hash (sv_hygiene v)) &&
     bool_decide (hy_lint_content_hash (sv_hygiene v) = Some digest)
  then mret (mkLintReport [] digest)
  else
    let st := default (new_stats (sv_skill_id v) (sv_version v)) st in
    let profile := map (mkFinding "PROFILE" sev_error)
      ((if bool_decide (ss_lifecycle s ∈ [lc_candidate; lc_shadow; lc_approved]) then validate_candidate_skill v s else []) ++
       (if bool_decide (ss_lifecycle s = lc_approved) then validate_approved_skill v s st else [])) in
    let own := profile ++ _packaging_findings v ++ _specificity_findings v s in
    if with_store && negb (is_nil (sv_uses v)) then
      a ← _check_uses_resolve (sv_uses v);
      b ← _check_uses_acyclic v;
      c ← _check_composed_claims v;
      mret (mkLintReport (own ++ map (mkFinding "DAG" sev_error) (a ++ b) ++ map (mkFinding "COMPOSE" sev_error) c) digest)
    else mret (mkLintReport own digest).
(** [lint_skill(version, status, stats, store=store)] *)
Definition lint_skill (v : SkillVersion) (s : SkillStatus) (st : option SkillStats) : LB (list text) :=
  r ← lint_report v s st true true; mret (map lf_message (errors r)).
Definition lint_store : LB (list ((string * Z) * list text)) :=
  l ← iter_loaded;
  mapM_ (λ x : SkillVersion * SkillStatus * SkillStats,
    vs ← lint_skill x.1.1 x.1.2 (Some x.2); mret ((sv_skill_id x.1.1, sv_version x.1.1), vs)) l.

(** ** memory/procedural/applicability.py *)

Definition _CONTAGION_LIFECYCLES : list Lifecycle := [lc_quarantined; lc_benched; lc_deprecated].
Definition structural_hash (v : SkillVersion) : string :=
  let or_else (a b : option string) := if truthy a then a else b in
  surface_sha256 (mkSurface (sv_task_class v) (map st_tool (sv_steps v)) (map (λ s, str_lower (strip (st_intent s))) (sv_steps v))
    (map (λ p, (pc_kind p, pc_value p)) (sv_preconditions v))
    (map (λ c, (cc_kind c, or_else (or_else (cc_run c) (cc_expr c)) (cc_metric c))) (sv_certification_criteria v))).
Inductive ApplicabilityCheck := chk_environment | chk_criterion | chk_contagion.
Record ApplicabilityReport := mkApplicability {
  ap_skill_id : string; ap_version : Z; ap_ok : bool; ap_environment_ok : bool; ap_criterion_ok : bool;
  ap_contagion_ok : bool; ap_reasons : list ApplicabilityCheck; ap_structural_hash : string }.

Definition missing_tools (v : SkillVersion) (tools : list string) : list string :=
  List.filter (λ t, negb (bool_decide (t ∈ tools)))
    (flat_map (λ s, match st_tool s with Some t => if String.eqb t "" then [] else [t] | None => [] end) (sv_steps v) ++
     flat_map (λ p, if bool_decide (pc_kind p = pk_tool_available) then [pc_value p] else []) (sv_preconditions v)).
Definition _environment_ok (v : SkillVersion) (tools : list string) : bool := is_nil (missing_tools v tools).
Definition opt_match (locked own : option string) : bool :=
  match locked with Some x => bool_decide (own = Some x) | None => false end.
Definition _exact_criterion_match (c : SkillCertificationCriterion) (lc : TaskCriterion) : bool :=
  bool_decide (cc_kind c = c_kind lc) &&
  (opt_match (c_run lc) (cc_run c) || opt_match (c_expr lc) (cc_expr c) || opt_match (c_metric lc) (cc_metric c)).
Definition _criterion_ok (v : SkillVersion) (locked : option (list TaskCriterion)) : bool :=
  match locked with
  | None => existsb (λ c, negb (is_judge c)) (sv_certification_criteria v)
  | Some l =>
      let required := List.filter (λ c, is_required c && negb (bool_decide (c_kind c = K_judge))) l in
      is_nil required ||
      existsb (λ c, negb (is_judge c) && existsb (_exact_criterion_match c) required) (sv_certification_criteria v)
  end.
Definition _is_low_contribution (st : SkillStats) : bool :=
  match estimate (sk_contribution st) with Some e => e <=?. f0 | None => false end.
Definition _advisory_embedding_near (v other : SkillVersion) : bool :=
  String.eqb (sv_task_class v) (sv_task_class other) &&
  bool_decide (map st_tool (sv_steps v) = map st_tool (sv_steps other)) && embedding_near v other.
(** For each other suspect skill: blocked, or a reason that does not block. *)
Definition suspect (v : SkillVersion) (x : SkillVersion * SkillStatus * SkillStats) : bool :=
  negb (bool_decide ((sv_skill_id x.1.1, sv_version x.1.1) = (sv_skill_id v, sv_version v))) &&
  (bool_decide (ss_lifecycle x.1.2 ∈ _CONTAGION_LIFECYCLES) || _is_low_contribution x.2).
Definition contagion (v : SkillVersion) (digest : string) (l : list (SkillVersion * SkillStatus * SkillStats))
    : bool * list ApplicabilityCheck :=
  let suspects := List.filter (suspect v) l in
  (negb (existsb (λ x, String.eqb (structural_hash x.1.1) digest) suspects),
   flat_map (λ x, if String.eqb (structural_hash x.1.1) digest || _advisory_embedding_near v x.1.1 then [chk_contagion] else [])
     suspects).
Definition check_applicability (v : SkillVersion) (environment : option (list string)) (locked : option (list TaskCriterion))
    (with_store : bool) : LB ApplicabilityReport :=
  let env_ok := _environment_ok v (default environment_tools environment) in
  let crit_ok := _criterion_ok v locked in
  let digest := structural_hash v in
  c ← (if with_store then l ← iter_loaded; mret (contagion v digest l) else mret (true, []));
  mret (mkApplicability (sv_skill_id v) (sv_version v) (env_ok && crit_ok && c.1) env_ok crit_ok c.1
    ((if env_ok then [] else [chk_environment]) ++ (if crit_ok then [] else [chk_criterion]) ++ c.2) digest).
End Lint.

(** ** Theorems *)

(** *** The hash shortcut *)

Lemma mapM_pure {A B} (f : A → LB B) (P : A → B → Prop) l w :
  (∀ x, x ∈ l → ∃ y, f x w = (w, Ok y) ∧ P x y) → ∃ ys, mapM_ f l w = (w, Ok ys) ∧ Forall2 P l ys.
Proof.
  intros H. induction l as [|x l IH]; simpl; [eexists; split; [done|constructor]|].
  destruct (H x ltac:(left)) as (y & Ey & Py). destruct IH as (ys & Eys & Pys); [intros z Hz; apply H; by right|].
  exists (y :: ys). unfold mbind, M_bind. rewrite Ey, Eys. split; [done|by constructor].
Qed.

Section Shortcut.
Context `{LE : LibraryEnv} `{GE : GateEnv}.
(** A SHA-256 hex digest is not the empty string. *)
Hypothesis digest_nonempty : ∀ v, json_sha256 v ≠ "".

Lemma lint_stamped v s st w :
  hy_lint_content_hash (sv_hygiene v) = Some (lint_content_hash v) → lint_skill v s st w = (w, Ok []).
Proof.
  intros Hh. unfold lint_skill, lint_report. rewrite Hh, bool_decide_true by done. simpl.
  destruct (String.eqb_spec (lint_content_hash v) ""); [|done]. by destruct (digest_nonempty (v <| sv_hygiene := blank_hygiene |>
    <| sv_provenance := undated (sv_provenance v) |>)).
Qed.
Lemma get_version_Ok id n w w' v :
  get_version id n w = (w', Ok v) → w' = w ∧ ∃ e, lb_entries w !! (id, n) = Some e ∧ en_version e = v.
Proof.
  unfold get_version, entry_at, gets, lift. unfold mbind, M_bind. destruct (verify_seed _ _) as [[]|]; [|done].
  destruct (lb_entries w !! (id, n)) as [e|]; [|done]. intros [= <- <-]. eauto.
Qed.

(** Every version the store serves passes lint, whatever it says and whatever
    status it is checked against: storing a version stamps the hash that lint
    takes as proof of an earlier run, so no rule is ever evaluated; linting the
    whole store reports nothing for any version. *)
Theorem stored_versions_never_linted w :
  lib_ok w →
  (∀ id n w' v s st, get_version id n w = (w', Ok v) → lint_skill v s st w = (w, Ok [])) ∧
  (∀ w' l, lint_store w = (w', Ok l) → w' = w ∧ Forall (λ x : (string * Z) * list text, x.2 = []) l).
Proof.
  intros Hok. split.
  - intros id n w' v s st (_ & e & He & <-)%get_version_Ok. apply lint_stamped. by apply (ok_entries w Hok (id, n)).
  - intros w' l H. unfold lint_store in H. apply M_bind_Ok in H as (rows & w1 & Hi & H).
    apply iter_loaded_Ok in Hi as (-> & Hrows & _).
    assert (∀ x, x ∈ rows → lint_skill x.1.1 x.1.2 (Some x.2) w = (w, Ok [])) as Hl.
    { intros [[v s] st] Hx. destruct (Hrows _ _ _ Hx) as (k & e & He & <- & _). apply lint_stamped. by apply (ok_entries w Hok k). }
    destruct (mapM_pure (λ x : SkillVersion * SkillStatus * SkillStats,
        vs ← lint_skill x.1.1 x.1.2 (Some x.2); mret ((sv_skill_id x.1.1, sv_version x.1.1), vs))
      (λ _ y, y.2 = []) rows w) as (ys & Ey & HF).
    + intros x Hx. eexists. unfold mbind, M_bind. rewrite Hl by done. by split.
    + rewrite Ey in H. injection H as <- <-. split; [done|]. apply Forall_forall. intros y [i Hi]%list_elem_of_lookup.
      by destruct (Forall2_lookup_r _ _ _ _ _ HF Hi) as (x & _ & ?).
Qed.
End Shortcut.

(** *** The walk over the uses graph *)

Section Uses.
Context `{LE : LibraryEnv} `{GE : GateEnv}.

Definition use_key (u : SkillUse) : string * Z := (us_skill_id u, us_version u).
Definition uses_edge (w : Library) (k k' : string * Z) : Prop :=
  ∃ e, lb_entries w !! k = Some e ∧ k' ∈ map use_key (sv_uses (en_version e)).
(** [chain w k p]: following uses from [k] can visit [p] in this order. *)
Inductive chain (w : Library) : string * Z → list (string * Z) → Prop :=
  | chain_nil k : chain w k []
  | chain_cons k k' p : uses_edge w k k' → chain w k' p → chain w k (k' :: p).
Definition seeds_verify (w : Library) : Prop := ∀ id n, verify_seed id (lb_entries w !! (id, n)) = Ok tt.

Lemma or_missing_version w id n :
  seeds_verify w → or_missing (get_version id n) w = (w, Ok (en_version <$> lb_entries w !! (id, n))).
Proof.
  intros Hs. unfold or_missing, get_version, entry_at, gets, lift. unfold mbind, M_bind. rewrite Hs.
  by destruct (lb_entries w !! (id, n)).
Qed.
Lemma concat_nil_iff {A B} (P : A → Prop) (l : list A) (ys : list (list B)) :
  Forall2 (λ x y, y = [] ↔ P x) l ys → concat ys = [] ↔ ∀ x, x ∈ l → P x.
Proof.
  induction 1 as [|x y l ys Hy _ IH]; simpl.
  - split; [intros _ x Hx; by apply elem_of_nil in Hx|done].
  - rewrite app_nil, IH, Hy. setoid_rewrite elem_of_cons. naive_solver.
Qed.

Definition walk_ok (w : Library) (levels : nat) (path : list (string * Z)) (k : string * Z) : Prop :=
  ∀ p, chain w k p → (length p < levels)%nat ∧ NoDup (k :: p) ∧ ∀ x, x ∈ k :: p → x ∉ path.
Lemma walk_children w levels path k e :
  lb_entries w !! k = Some e → k ∉ path →
  (∀ k', k' ∈ map use_key (sv_uses (en_version e)) → walk_ok w levels (path ++ [k]) k') ↔ walk_ok w (S levels) path k.
Proof.
  intros He Hk. split.
  - intros H p Hp. destruct Hp as [|k k' p (e1 & He1 & Hin) Hp].
    + simpl. split_and!; [lia|apply NoDup_singleton|by intros x ->%list_elem_of_singleton].
    + rewrite He in He1. injection He1 as <-. destruct (H k' Hin p Hp) as (Hl & Hn & Hx). simpl.
      split_and!; [lia| |].
      * apply NoDup_cons. split; [|done]. intros Hkp. by apply (Hx k Hkp), elem_of_app; right; left.
      * intros x [->|Hin']%elem_of_cons; [done|]. intros Hpx. apply (Hx x Hin'), elem_of_app. by left.
  - intros H k' Hin p Hp. destruct (H (k' :: p)) as (Hl & Hn & Hx); [apply chain_cons; [by exists e|done]|].
    simpl in Hl. apply NoDup_cons in Hn as [Hkp Hn]. split_and!; [lia|done|].
    intros x Hin' [Hpx|Hkx%list_elem_of_singleton]%elem_of_app; [|congruence]. apply (Hx x); [by right|done].
Qed.
Lemma walk_uses_ok w levels id n path :
  seeds_verify w → ∃ vs, walk_uses levels id n path w = (w, Ok vs) ∧ (vs = [] ↔ walk_ok w levels path (id, n)).
Proof.
  intros Hs. revert id n path. induction levels as [|levels IH]; intros id n path; simpl; case_bool_decide as Hin.
  1,3: eexists; split; [done|split; [done|]]; intros H; destruct (H [] (chain_nil _ _)) as (_ & _ & Hx); by destruct (Hx (id, n)); [left|].
  - eexists. split; [done|split; [done|]]. intros H. destruct (H [] (chain_nil _ _)) as (Hl & _). simpl in Hl. lia.
  - unfold mbind at 1, M_bind. rewrite or_missing_version by done. destruct (lb_entries w !! (id, n)) as [e|] eqn:He; simpl.
    + destruct (mapM_pure (λ u, walk_uses levels (us_skill_id u) (us_version u) (path ++ [(id, n)]))
        (λ u vs, vs = [] ↔ walk_ok w levels (path ++ [(id, n)]) (use_key u)) (sv_uses (en_version e)) w) as (ys & Ey & HF); [by intros u _; apply IH|].
      unfold mbind, M_bind. rewrite Ey. eexists. split; [done|]. rewrite (concat_nil_iff _ _ _ HF), <- (walk_children _ _ _ _ _ He Hin).
      split; [intros H k' (u & -> & Hu)%list_elem_of_fmap; by apply H|intros H u Hu; by apply H, list_elem_of_fmap_2].
    + eexists. split; [done|]. split; [|done]. intros _ p Hp. destruct Hp as [|? ? ? (e & He' & _) _]; [|congruence].
      simpl. split_and!; [lia|apply NoDup_singleton|by intros x ->%list_elem_of_singleton].
Qed.

(** The uses check of a version answers for any library whose seed signatures
    verify, and reports nothing exactly when every way of following uses from
    the version visits at most three versions, none twice and never the
    version itself. *)
Theorem uses_check_exact v w :
  seeds_verify w →
  ∃ vs, _check_uses_acyclic v w = (w, Ok vs) ∧
  (vs = [] ↔ ∀ u p, u ∈ sv_uses v → chain w (use_key u) p →
     (length (use_key u :: p) ≤ 3)%nat ∧ NoDup ((sv_skill_id v, sv_version v) :: use_key u :: p)).
Proof.
  intros Hs. unfold _check_uses_acyclic.
  destruct (mapM_pure (λ u, walk_uses 3 (us_skill_id u) (us_version u) [(sv_skill_id v, sv_version v)])
    (λ u vs, vs = [] ↔ walk_ok w 3 [(sv_skill_id v, sv_version v)] (use_key u)) (sv_uses v) w) as (ys & Ey & HF);
    [by intros u _; apply walk_uses_ok|].
  unfold mbind, M_bind. rewrite Ey. eexists. split; [done|]. rewrite (concat_nil_iff _ _ _ HF). split.
  - intros H u p Hu Hp. destruct (H u Hu p Hp) as (Hl & Hn & Hx). simpl. split; [lia|]. apply NoDup_cons. split; [|done].
    intros Hin. apply (Hx _ Hin). left.
  - intros H u Hu p Hp. destruct (H u p Hu Hp) as [Hl [Hv Hn]%NoDup_cons]. simpl in Hl. split_and!; [lia|done|].
    intros x Hin ->%list_elem_of_singleton. done.
Qed.
End Uses.

(** ** Witnesses *)

Definition demo_gate : GateEnv :=
  {| evidence_hash := λ c fp, fp; environment_tools := ["bash"]; embedding_near := λ _ _, false |}.
Lemma demo_digest v : @json_sha256 demo_env v ≠ "".
Proof. done. Qed.
Lemma demo_seeds w : @seeds_verify demo_env w.
Proof. done. Qed.
(** A version nobody would accept: no preconditions, no failure modes. *)
Lemma stored_versions_never_linted_witness :
  ∃ v, sv_preconditions v = [] ∧ sv_failure_modes v = [] ∧
    @lint_skill demo_env demo_gate v (new_status "child" 1 lc_approved) None demo_queued = (demo_queued, Ok []).
Proof.
  eexists. split; [|split].
  3: refine (proj1 (@stored_versions_never_linted demo_env demo_gate demo_digest demo_queued demo_library_ok) "child" 1 _ _ _ _ _);
    vm_compute; reflexivity.
  all: vm_compute; reflexivity.
Defined.
Lemma uses_check_exact_witness :
  ∃ vs, @_check_uses_acyclic demo_env (demo_version "p1" [] [mkSkillUse "child" 1]) demo_queued = (demo_queued, Ok vs).
Proof.
  destruct (@uses_check_exact demo_env (demo_version "p1" [] [mkSkillUse "child" 1]) demo_queued (demo_seeds demo_queued)) as (vs & E & _).
  exists vs. exact E.
Defined.
