(* ===== verification/Portfolio.v ===== *)
(** * The skill portfolio (autonomy.py, memory/procedural/retirement.py, live_mix.py, portfolio.py, active_set.py)

    Who competes for an active slot, in what order, who holds one, and when a
    skill should be benched.  The pure controller and the two effectful
    adapters over the library.  The theorems: the ranking does not depend on
    the order of the candidates, the active set respects its cap, and the two
    retirement adapters agree. *)
From S2P Require Import Prelude PyStr Budgets Contracts Skills EvalStore Library SkillGates.
From Stdlib Require Import ZArith Lia.
Open Scope Z_scope.

(** ** autonomy.py *)

Record AutonomyConfig := mkAutonomy {
  shadow_min_successes : Z; shadow_min_applications : Z; shadow_min_lift : float; quarantine_consecutive_failures : Z;
  evidence_floor : Z; retirement_threshold : float; active_cap_per_task_class : Z; shadow_slots_per_task_class : Z;
  incumbent_grace_applications : Z; curation_prior_self_distilled : float }.
Definition DEFAULT_AUTONOMY : AutonomyConfig := mkAutonomy 5 8 (dec 5 100) 2 30 (dec 5 100) 50 3 5 (dec 85 100).
Definition HARSH_AUTONOMY : AutonomyConfig := mkAutonomy 5 8 (dec 5 100) 2 20 f0 3 3 5 (dec 85 100).

(** ** retirement.py *)

Inductive RetirementAction := below_floor | no_estimate | no_interval | keep_skill | retire.
#[export] Instance RetirementAction_eq_dec : EqDecision RetirementAction. Proof. solve_decision. Defined.
Record RetirementDecision := mkRetirementDecision {
  rd_action : RetirementAction; rd_estimate : option float; rd_applications : Z; rd_interval_high : option float;
  rd_evidence : option text }.
Definition should_retire (d : RetirementDecision) : bool := bool_decide (rd_action d = retire).
Definition retirement_decision (applications : Z) (estimate interval_high : option float) (floor : Z) (tau : float)
    : RetirementDecision :=
  if applications <? floor then mkRetirementDecision below_floor estimate applications interval_high None
  else match estimate with
  | None => mkRetirementDecision no_estimate None applications interval_high None
  | Some e =>
      match interval_high with
      | None => mkRetirementDecision no_interval (Some e) applications None None
      | Some h =>
          mkRetirementDecision (if fopp tau <=?. h then keep_skill else retire) (Some e) applications (Some h)
            (Some (fmt "interval_high={}" [FF h]))
      end
  end.

(** ** live_mix.py *)

Inductive LiveMixReason :=
  | mix_live | mix_shadow_trial | mix_negative_contribution | mix_capped | mix_benched | mix_needs_recert
  | mix_quarantined | mix_deprecated | mix_not_approved.
Definition live_mix_eligible (v : SkillVersion) (st : option SkillStats) : bool :=
  negb (is_self_distilled v) ||
  match st with
  | Some st => match estimate (sk_contribution st) with Some e => f0 <=?. e | None => false end
  | None => false
  end.
Definition live_mix_reason (v : SkillVersion) (s : SkillStatus) (st : option SkillStats) : LiveMixReason :=
  match ss_lifecycle s with
  | lc_quarantined => mix_quarantined
  | lc_needs_recert => mix_needs_recert
  | lc_benched => mix_benched
  | lc_deprecated => mix_deprecated
  | lc_approved =>
      if ss_active s then mix_live
      else if is_self_distilled v && negb (live_mix_eligible v st) then
        match (st ← st; estimate (sk_contribution st)) with
        | Some e => if e <?. f0 then mix_negative_contribution else mix_shadow_trial
        | None => mix_shadow_trial
        end
      else mix_capped
  | _ => mix_not_approved
  end.

(** ** portfolio.py *)

Record PortfolioRankItem := mkItem {
  it_skill_id : string; it_version : Z; it_contribution_estimate : option float; it_predictive_trust : float;
  it_applications : Z; it_last_used_at : option datetime; it_score : float; it_interval_high : option float }.
#[export] Instance eta_Item : Eta PortfolioRankItem := λ i,
  mkItem (it_skill_id i) (it_version i) (it_contribution_estimate i) (it_predictive_trust i) (it_applications i)
    (it_last_used_at i) (it_score i) (it_interval_high i).
Record RetirementProposal := mkRetirementProposal {
  rp_skill_id : string; rp_version : Z; rp_reason : RetirementReason; rp_evidence : option text;
  rp_contribution_estimate : option float; rp_applications : Z }.

Definition neg_inf : float := S754_infinity true.
(** [(has_recency, -timestamp)]: never used sorts last. *)
Definition _recency_sort_key (t : option datetime) : Z * float :=
  match t with None => (1, f0) | Some t => (0, fopp (dec t 1000000)) end.
(** The key, compared component by component; no component is NaN. *)
Definition _sort_key_lt : PortfolioRankItem → PortfolioRankItem → bool :=
  lex (λ a b, it_score b <?. it_score a)
  (lex (λ a b, it_predictive_trust b <?. it_predictive_trust a)
  (lex (λ a b, (_recency_sort_key (it_last_used_at a)).1 <? (_recency_sort_key (it_last_used_at b)).1)
  (lex (λ a b, (_recency_sort_key (it_last_used_at a)).2 <?. (_recency_sort_key (it_last_used_at b)).2)
  (lex (λ a b, it_applications b <? it_applications a)
  (lex (λ a b, String.ltb (it_skill_id a) (it_skill_id b)) (λ a b, it_version a <? it_version b)))))).
Definition row : Type := SkillVersion * SkillStatus * SkillStats.
Definition row_key (r : row) : string * Z := (sv_skill_id r.1.1, sv_version r.1.1).
Definition rank_item (r : row) : PortfolioRankItem :=
  let '(v, _, st) := r in
  let e := estimate (sk_contribution st) in
  mkItem (sv_skill_id v) (sv_version v) e (score (sk_predictive_trust st)) (co_applications (sk_contribution st))
    (pt_last_used_at (sk_predictive_trust st)) (default neg_inf e) (co_interval_high (sk_contribution st)).
Definition rank_skills (candidates : list row) (score_fn : option (PortfolioRankItem → float)) : list PortfolioRankItem :=
  let items := map rank_item candidates in
  let items := match score_fn with Some f => map (λ i, i <| it_score := f i |>) items | None => items end in
  sorted_by _sort_key_lt items.
Definition item_key (i : PortfolioRankItem) : string * Z := (it_skill_id i, it_version i).
Definition select_active (ranked : list PortfolioRankItem) (cap : Z) : gset (string * Z) :=
  if cap <=? 0 then ∅ else list_to_set (map item_key (take (Z.to_nat cap) ranked)).
Definition item_decision (config : AutonomyConfig) (i : PortfolioRankItem) : RetirementDecision :=
  retirement_decision (it_applications i) (it_contribution_estimate i) (it_interval_high i) (evidence_floor config)
    (retirement_threshold config).
Definition propose_retirements (ranked : list PortfolioRankItem) (config : AutonomyConfig) : list RetirementProposal :=
  flat_map (λ i, let d := item_decision config i in
    if should_retire d then [mkRetirementProposal (it_skill_id i) (it_version i) rr_negative_contribution (rd_evidence d)
                               (it_contribution_estimate i) (it_applications i)] else []) ranked.

(** ** active_set.py *)

Definition assign_active_on_approval (s : SkillStatus) (v : option SkillVersion) (st : option SkillStats) : SkillStatus :=
  if negb (bool_decide (ss_lifecycle s = lc_approved)) then s <| ss_active := false |>
  else match v with
  | Some v => s <| ss_active := live_mix_eligible v st |>
  | None => s <| ss_active := true |>
  end.

Inductive SlotReason := slot_benched | slot_newly_approved.
Record ShadowSlot := mkSlot { sl_skill_id : string; sl_version : Z; sl_task_class : string; sl_reason : SlotReason }.
(** [rows[:n]] *)
Definition py_take {A} (n : Z) (l : list A) : list A :=
  take (Z.to_nat (if n <? 0 then Z.max 0 (Z.of_nat (length l) + n) else n)) l.
Definition by_class (rows : list row) : list (string * list row) :=
  map (λ tc, (tc, List.filter (λ r : row, String.eqb (sv_task_class r.1.1) tc) rows))
    (first_keys (map (λ r : row, sv_task_class r.1.1) rows) []).
Definition slot_lt : row → row → bool :=
  lex (λ a b, co_applications (sk_contribution a.2) + co_suppressed_applications (sk_contribution a.2) <?
              co_applications (sk_contribution b.2) + co_suppressed_applications (sk_contribution b.2))
  (lex (λ a b, String.ltb (sv_skill_id a.1.1) (sv_skill_id b.1.1)) (λ a b, sv_version a.1.1 <? sv_version b.1.1)).
Definition wants_slot (s : SkillStatus) : bool :=
  bool_decide (ss_lifecycle s = lc_benched) || (bool_decide (ss_lifecycle s = lc_approved) && negb (ss_active s)).
Definition row_slot (tc : string) (r : row) : ShadowSlot :=
  mkSlot (sv_skill_id r.1.1) (sv_version r.1.1) tc
    (if bool_decide (ss_lifecycle r.1.2 = lc_benched) then slot_benched else slot_newly_approved).

Section ActiveSet.
Context `{LE : LibraryEnv} `{GE : GateEnv} (pow2 : float → float) (now : datetime).

Definition select_shadow_slots (config : AutonomyConfig) : LB (list ShadowSlot) :=
  l ← iter_loaded;
  mret (flat_map (λ c : string * list row, map (row_slot c.1) (py_take (shadow_slots_per_task_class config) (sorted_by slot_lt c.2)))
          (by_class (List.filter (λ r : row, wants_slot r.1.2) l))).

(** [estimate_retrieval_ablation] on the store's samples, written back. *)
Definition refresh_ablation (tc : string) : LB unit :=
  db ← gets lb_evals;
  let '(enabled, suppressed) := retrieval_ablation_samples db tc None in
  e ← lift (estimate_retrieval_ablation pow2 now tc enabled suppressed);
  modify (λ w, w <| lb_evals := (write_retrieval_ablation e (lb_evals w)).1 |>).

Definition has_both_arms (s : BinomialSample * BinomialSample) : bool := (0 <? bs_trials s.1) && (0 <? bs_trials s.2).
Definition refresh_row (samples : gmap (string * Z) (BinomialSample * BinomialSample)) (r : row) : LB row :=
  let '(v, s, st) := r in
  let p := default (empty_sample, empty_sample) (samples !! (sv_skill_id v, sv_version v)) in
  c ← lift (estimate_contribution pow2 now p.1 p.2 (has_both_arms p));
  let st' := st <| sk_contribution := c |> in
  _ ← (if bool_decide (st' = st) then mret tt else write_stats st');
  mret (v, s, st').
Definition is_approved (r : row) : bool := bool_decide (ss_lifecycle r.1.2 = lc_approved).
Definition _pool_for_class (rows : list row) (tc : string) (eval_store : bool) : LB (list row * list row) :=
  let approved := List.filter is_approved rows in
  a ← (if eval_store then
         _ ← refresh_ablation tc;
         db ← gets lb_evals;
         mapM_ (refresh_row (contribution_samples_bulk db tc None)) approved
       else mret approved);
  let evidenced := if eval_store
    then List.filter (λ r : row, bool_decide (is_Some (estimate (sk_contribution r.2))) && live_mix_eligible r.1.1 (Some r.2)) a
    else [] in
  mret (a, if is_nil evidenced then List.filter (λ r : row, live_mix_eligible r.1.1 (Some r.2)) a else evidenced).

Definition wanted_status (top_ids : gset (string * Z)) (approved : list row) (r : row) : SkillStatus :=
  let st := match find_first (λ a, bool_decide (row_key a = row_key r)) approved with Some a => a.2 | None => r.2 end in
  if is_approved r
  then r.1.2 <| ss_active := live_mix_eligible r.1.1 (Some st) && bool_decide (row_key r ∈ top_ids) |>
  else assign_active_on_approval r.1.2 (Some r.1.1) (Some st).
Fixpoint _apply_active_bits (rows : list row) (top_ids : gset (string * Z)) (approved : list row) : LB (list SkillStatus) :=
  match rows with
  | [] => mret []
  | r :: rows' =>
      let s' := wanted_status top_ids approved r in
      _ ← (if bool_decide (s' = r.1.2) then mret tt else write_status s' None);
      rest ← _apply_active_bits rows' top_ids approved;
      mret (s' :: rest)
  end.
Definition recompute_class (config : AutonomyConfig) (eval_store : bool) (c : string * list row)
    : LB (list SkillStatus * (string * float)) :=
  p ← _pool_for_class c.2 c.1 eval_store;
  let cap := active_cap_per_task_class config in
  let top_ids := select_active (rank_skills p.2 None) cap in
  updated ← _apply_active_bits c.2 top_ids p.1;
  mret (updated, (c.1, if cap =? 0 then f0 else dec (Z.max 0 (Z.of_nat (length p.1) - cap)) cap)).
Definition recompute_active_set (config : AutonomyConfig) (eval_store : bool) : LB (list SkillStatus * list (string * float)) :=
  l ← iter_loaded;
  rs ← mapM_ (recompute_class config eval_store) (by_class l);
  mret (flat_map fst rs, map snd rs).
End ActiveSet.

(** ** Theorems *)

(** *** The ranking *)

(** No component of the sort key is NaN. *)
Definition keys_real (i : PortfolioRankItem) : Prop :=
  is_nan (it_score i) = false ∧ is_nan (it_predictive_trust i) = false ∧ is_nan (_recency_sort_key (it_last_used_at i)).2 = false.

Definition key_ltb : Z * Z * Z → Z * Z * Z → bool :=
  lex (λ a b, a.1.1 <? b.1.1) (lex (λ a b, a.1.2 <? b.1.2) (λ a b, a.2 <? b.2)).
Lemma swo_key : swo key_ltb.
Proof.
  apply swo_lex; [apply (swo_on (λ k : Z * Z * Z, k.1.1)), swo_Z|].
  apply swo_lex; [apply (swo_on (λ k : Z * Z * Z, k.1.2)), swo_Z|apply (swo_on snd), swo_Z].
Qed.
Lemma fltb_keyb x y : is_nan x = false → is_nan y = false → (x <?. y) = key_ltb (fkey x) (fkey y).
Proof.
  intros Hx Hy. apply eq_true_iff_eq. rewrite fltb_key by done. unfold key_lt, key_ltb, lex.
  rewrite !orb_true_iff, !andb_true_iff, !orb_true_iff, !andb_true_iff, !negb_true_iff, !Z.ltb_lt, !Z.ltb_ge. lia.
Qed.

(** The sort key as a strict weak order on all items; it is the code's on
    items whose key has no NaN. *)
Definition sort_lt : PortfolioRankItem → PortfolioRankItem → bool :=
  lex (λ a b, key_ltb (fkey (it_score b)) (fkey (it_score a)))
  (lex (λ a b, key_ltb (fkey (it_predictive_trust b)) (fkey (it_predictive_trust a)))
  (lex (λ a b, (_recency_sort_key (it_last_used_at a)).1 <? (_recency_sort_key (it_last_used_at b)).1)
  (lex (λ a b, key_ltb (fkey (_recency_sort_key (it_last_used_at a)).2) (fkey (_recency_sort_key (it_last_used_at b)).2))
  (lex (λ a b, it_applications b <? it_applications a)
  (lex (λ a b, String.ltb (it_skill_id a) (it_skill_id b)) (λ a b, it_version a <? it_version b)))))).
Lemma swo_sort : swo sort_lt.
Proof.
  apply swo_lex; [apply (swo_on (λ i, fkey (it_score i)) (λ a b, key_ltb b a)), swo_flip, swo_key|].
  apply swo_lex; [apply (swo_on (λ i, fkey (it_predictive_trust i)) (λ a b, key_ltb b a)), swo_flip, swo_key|].
  apply swo_lex; [apply (swo_on (λ i, (_recency_sort_key (it_last_used_at i)).1)), swo_Z|].
  apply swo_lex; [apply (swo_on (λ i, fkey (_recency_sort_key (it_last_used_at i)).2)), swo_key|].
  apply swo_lex; [apply (swo_on it_applications (λ a b, b <? a)), swo_flip, swo_Z|].
  apply swo_lex; [apply (swo_on it_skill_id), swo_str|apply (swo_on it_version), swo_Z].
Qed.
Lemma sort_lt_code a b : keys_real a → keys_real b → _sort_key_lt a b = sort_lt a b.
Proof.
  intros (A1 & A2 & A3) (B1 & B2 & B3). unfold _sort_key_lt, sort_lt, lex. by rewrite !fltb_keyb.
Qed.
Lemma lex_tie {A} (lt1 lt2 : A → A → bool) a b :
  lex lt1 lt2 a b = false → lex lt1 lt2 b a = false → lt2 a b = false ∧ lt2 b a = false.
Proof. unfold lex. destruct (lt1 a b), (lt1 b a), (lt2 a b), (lt2 b a); naive_solver. Qed.
Lemma sort_tie a b : sort_lt a b = false → sort_lt b a = false → item_key a = item_key b.
Proof.
  intros H1 H2. unfold sort_lt in *.
  do 5 (destruct (lex_tie _ _ _ _ H1 H2) as [H1' H2']; clear H1 H2; rename H1' into H1, H2' into H2).
  unfold lex in *. apply orb_false_iff in H1 as [S1 V1], H2 as [S2 V2]. rewrite S1, S2 in *. simpl in *.
  apply Z.ltb_ge in V1, V2. unfold item_key. f_equal; [by apply str_ltb_total|lia].
Qed.
Lemma sorted_by_ext {A} (lt lt' : A → A → bool) l :
  (∀ a b, a ∈ l → b ∈ l → lt a b = lt' a b) → sorted_by lt l = sorted_by lt' l.
Proof.
  induction l as [|x l IH]; intros H; simpl; [done|]. rewrite IH by (intros; apply H; by right).
  assert (∀ m, (∀ y, y ∈ m → y ∈ l) → insert_by lt x m = insert_by lt' x m) as Hi.
  { induction m as [|y m IHm]; intros Hm; simpl; [done|]. rewrite H; [|right; apply Hm; left|left].
    rewrite IHm by (intros; apply Hm; by right). done. }
  apply Hi. intros y. by rewrite sorted_by_elem.
Qed.
Lemma NoDup_map_inj {A B} (f : A → B) l a b : NoDup (map f l) → a ∈ l → b ∈ l → f a = f b → a = b.
Proof.
  induction l as [|x l IH]; simpl; [by intros _ ?%elem_of_nil|]. intros [Hx Hn]%NoDup_cons.
  intros [->|Ha]%elem_of_cons [->|Hb]%elem_of_cons E; [done| | |by apply IH].
  - destruct Hx. rewrite E. by apply list_elem_of_fmap_2.
  - destruct Hx. rewrite <- E. by apply list_elem_of_fmap_2.
Qed.
Lemma map_rank_key l : map item_key (map rank_item l) = map row_key l.
Proof. rewrite map_map. apply map_ext. by intros [[v s] st]. Qed.
Lemma rank_skills_shuffle l l' :
  NoDup (map row_key l) → Forall keys_real (map rank_item l) → l ≡ₚ l' → rank_skills l None = rank_skills l' None.
Proof.
  intros Hn Hk Hp. unfold rank_skills. assert (Forall keys_real (map rank_item l')) as Hk' by (by rewrite <- Hp).
  rewrite Forall_forall in Hk, Hk'. rewrite (sorted_by_ext _sort_key_lt sort_lt (map rank_item l)), (sorted_by_ext _sort_key_lt sort_lt (map rank_item l'))
    by (intros; apply sort_lt_code; auto).
  apply sorted_by_shuffle; [apply swo_sort| |by rewrite Hp].
  intros a b Ha Hb H1 H2. rewrite <- map_rank_key in Hn. apply (NoDup_map_inj item_key _ a b Hn Ha Hb). by apply sort_tie.
Qed.

(** The ranking is decided by the candidates alone: listing the same skills in
    any order gives the same ranking, hence the same active set; nobody is
    dropped, and whoever holds a slot is not ranked below anyone left out. *)
Theorem ranking_ignores_order l l' cap :
  NoDup (map row_key l) → Forall keys_real (map rank_item l) → l ≡ₚ l' →
  rank_skills l None = rank_skills l' None ∧ rank_skills l None ≡ₚ map rank_item l ∧
  select_active (rank_skills l None) cap = select_active (rank_skills l' None) cap ∧
  ∀ i j, i ∈ rank_skills l None → j ∈ rank_skills l None → item_key i ∈ select_active (rank_skills l None) cap →
    item_key j ∉ select_active (rank_skills l None) cap → _sort_key_lt j i = false.
Proof.
  intros Hn Hk Hp. split; [by apply rank_skills_shuffle|]. split; [apply sorted_by_perm|].
  split; [by rewrite (rank_skills_shuffle l l')|]. set (r := rank_skills l None).
  assert (r = sorted_by sort_lt (map rank_item l)) as Er.
  { apply sorted_by_ext. rewrite Forall_forall in Hk. intros; apply sort_lt_code; auto. }
  assert (Forall keys_real r) as Hr by (unfold r, rank_skills; by rewrite sorted_by_perm). rewrite Forall_forall in Hr.
  assert (NoDup (map item_key r)) as Hnr.
  { assert (map item_key r ≡ₚ map row_key l) as ->; [|done]. rewrite Er, sorted_by_perm. by rewrite map_rank_key. }
  pose proof (sorted_swo sort_lt (map rank_item l) swo_sort) as Hs. rewrite <- Er in Hs.
  intros i j Hi Hj. unfold select_active. destruct (cap <=? 0); [set_solver|]. rewrite !elem_of_list_to_set.
  intros Hit Hjt. rewrite sort_lt_code by auto. rewrite <- (take_drop (Z.to_nat cap) r) in Hs, Hj.
  apply list_elem_of_fmap in Hit as (i' & Ei & Hi'). assert (i = i') as <-.
  { apply (NoDup_map_inj item_key r); [done|done| |done]. rewrite <- (take_drop (Z.to_nat cap) r). apply elem_of_app. by left. }
  apply elem_of_app in Hj as [Hj|Hj]; [by destruct Hjt; apply list_elem_of_fmap_2|].
  apply StronglySorted_app in Hs as (Hs & _ & _). by apply Hs.
Qed.
Lemma size_listset_le (l : list (string * Z)) : (size (list_to_set (C := gset (string * Z)) l) ≤ length l)%nat.
Proof.
  induction l as [|x l IH]; [done|]. rewrite list_to_set_cons, size_union_alt, size_singleton. simpl.
  assert (size (list_to_set (C := gset (string * Z)) l ∖ {[x]}) ≤ size (list_to_set (C := gset (string * Z)) l))%nat
    by (apply subseteq_size; set_solver). lia.
Qed.
Lemma size_select ranked cap : Z.of_nat (size (select_active ranked cap)) ≤ Z.max 0 cap.
Proof.
  unfold select_active. destruct (Z.leb_spec cap 0); [rewrite size_empty; lia|].
  pose proof (size_listset_le (map item_key (take (Z.to_nat cap) ranked))) as Hs.
  rewrite length_map, length_take in Hs. lia.
Qed.

(** *** The active set *)

Section Cap.
Context `{LE : LibraryEnv} `{GE : GateEnv} (pow2 : float → float) (now : datetime).

(** Where a row was read: its version, and the status it shows. *)
Definition shows (w : Library) (k : string * Z) : SkillStatus := default (new_status k.1 k.2 lc_draft) (status_at w k).
Definition row_of (w : Library) (r : row) : Prop :=
  ∃ e, lb_entries w !! row_key r = Some e ∧ en_version e = r.1.1 ∧ shows w (row_key r) = r.1.2.
Lemma NoDup_keys (w : Library) : NoDup (list_versions w).
Proof. unfold list_versions. rewrite sorted_by_perm. apply NoDup_fst_map_to_list. Qed.
Lemma lib_ok_valid w k s : lib_ok w → status_at w k = Some s → _active_requires_retrievable_lifecycle s = true.
Proof.
  intros Hok Hs. destruct (ok_status w Hok k s Hs) as [_ Ha]. unfold _active_requires_retrievable_lifecycle.
  destruct (ss_active s); [|done]. by rewrite Ha.
Qed.
Lemma loaded_rows w w' l :
  lib_ok w → iter_loaded w = (w', Ok l) →
  w' = w ∧ NoDup (map row_key l) ∧ Forall (row_of w) l ∧ (∀ k e, lb_entries w !! k = Some e → k ∈ map row_key l).
Proof.
  intros Hok H. pose proof (iter_loaded_Ok _ _ _ H) as (-> & Hr & Hall).
  unfold iter_loaded in H. apply M_bind_Ok in H as (ks & w1 & Hk & H). injection Hk as <- <-.
  destruct (reads_mapM load_one _ _ _ _ reads_load_one H) as [_ HF].
  assert (∀ k r, load_one k w = (w, Ok r) → row_key r = k ∧ row_of w r) as Hl.
  { intros k [[v s] st] (e & He & Ev & Es)%load_one_Ok. destruct (ok_entries w Hok k e He) as (_ & Ek & _). rewrite Ev in Ek.
    unfold row_of, row_key. simpl. rewrite Ek. split; [done|]. exists e. split_and!; [done|done|].
    unfold shows, status_at. rewrite He. done. }
  assert (map row_key l = list_versions w) as Em.
  { clear -HF Hl. induction HF as [|k r ks rs Hkr _ IH]; simpl; [done|]. f_equal; [by apply Hl|done]. }
  split_and!; [done|rewrite Em; apply NoDup_keys| |intros k e He].
  - apply Forall_forall. intros r [i Hi]%list_elem_of_lookup. destruct (Forall2_lookup_r _ _ _ _ _ HF Hi) as (k & _ & Hx). by apply (Hl k).
  - rewrite Em. unfold list_versions. rewrite sorted_by_elem. apply list_elem_of_fmap. exists (k, e). split; [done|].
    by apply elem_of_map_to_list.
Qed.

(** Rewriting stats changes no version and no status. *)
Definition same_versions (w w' : Library) : Prop :=
  ∀ k, en_version <$> lb_entries w' !! k = en_version <$> lb_entries w !! k.
Definition same_statuses (w w' : Library) : Prop := (∀ k, status_at w' k = status_at w k) ∧ same_versions w w'.
#[local] Instance same_statuses_preorder : PreOrder same_statuses.
Proof.
  split; [by split|]. intros a b c [A1 A2] [B1 B2]. split; intros k; [by rewrite B1|by rewrite B2].
Qed.
Lemma statuses_write_stats s : keeps same_statuses (write_stats s).
Proof.
  intros w. unfold write_stats, mbind, M_bind, entry_at, gets, put_entry, modify.
  destruct (lb_entries w !! _) as [e|] eqn:He; [|reflexivity].
  split; intros k; unfold status_at; simpl; (destruct (decide ((sk_skill_id s, sk_version s) = k)) as [<-|Hk];
    [by rewrite lookup_insert_eq, He|by rewrite lookup_insert_ne]).
Qed.
Lemma statuses_ablation tc : keeps same_statuses (refresh_ablation pow2 now tc).
Proof.
  unfold refresh_ablation. keeps_tac. by intros w.
Qed.
Lemma statuses_refresh samples r : keeps same_statuses (refresh_row pow2 now samples r).
Proof.
  destruct r as [[v s] st]. unfold refresh_row. keeps_tac; apply statuses_write_stats.
Qed.
Lemma statuses_pool rows tc ev : keeps same_statuses (_pool_for_class pow2 now rows tc ev).
Proof.
  unfold _pool_for_class. keeps_tac; [apply statuses_ablation|apply statuses_refresh].
Qed.

Lemma wanted_other top a w r :
  lib_ok w → row_of w r → is_approved r = false → wanted_status top a r = r.1.2.
Proof.
  intros Hok (e & He & _ & Es) Hr. unfold wanted_status. rewrite Hr. unfold is_approved in Hr. unfold assign_active_on_approval.
  rewrite Hr. simpl. unfold shows in Es. destruct (status_at w (row_key r)) as [s|] eqn:Hs; simpl in Es; [|by rewrite <- Es].
  rewrite <- Es in *. destruct (ok_status w Hok _ _ Hs) as [_ Ha]. apply bool_decide_eq_false in Hr.
  destruct s as [i n l [] c t]; [|done]. simpl in *. by destruct Hr; apply Ha.
Qed.
(** The status written for an approved row is accepted and nothing else is done. *)
Lemma write_wanted top a w r :
  lib_ok w → row_of w r → is_approved r = true →
  write_status (wanted_status top a r) None w = (put_status w (wanted_status top a r), Ok tt) ∧
  (ss_skill_id (wanted_status top a r), ss_version (wanted_status top a r)) = row_key r.
Proof.
  intros Hok (e & He & _ & Es) Hr. unfold wanted_status. rewrite Hr. unfold is_approved in Hr. apply bool_decide_eq_true in Hr.
  unfold shows in Es. destruct (status_at w (row_key r)) as [s|] eqn:Hs; simpl in Es; [|by rewrite <- Es in Hr].
  rewrite <- Es in *. destruct (ok_status w Hok _ _ Hs) as [Hk _]. simpl. split; [|done].
  apply write_status_plain; [|simpl; by rewrite Hr]. unfold status_accepted. simpl. rewrite Hk. split_and!; [by exists e|by intros s0; apply lib_ok_valid|done|].
  intros _. unfold lifecycle_at. rewrite Hs. simpl. by rewrite Hr.
Qed.

Lemma versions_put w s : same_versions w (put_status w s).
Proof.
  intros k. unfold put_status. destruct (lb_entries w !! _) as [e|] eqn:He; [|done]. simpl.
  destruct (decide ((ss_skill_id s, ss_version s) = k)) as [<-|Hk]; [by rewrite lookup_insert_eq, He|by rewrite lookup_insert_ne].
Qed.
Lemma row_of_same w w' r :
  same_versions w w' → status_at w' (row_key r) = status_at w (row_key r) → row_of w r → row_of w' r.
Proof.
  intros Hv Hs (e & He & Ev & Es). specialize (Hv (row_key r)). rewrite He in Hv. simpl in Hv.
  destruct (lb_entries w' !! row_key r) as [e'|] eqn:He'; [|done]. injection Hv as Ev'. exists e'.
  split_and!; [done|congruence|]. unfold shows in *. by rewrite Hs.
Qed.

Lemma apply_bits_spec top a rows w :
  lib_ok w → NoDup (map row_key rows) → Forall (row_of w) rows →
  ∃ w', _apply_active_bits rows top a w = (w', Ok (map (wanted_status top a) rows)) ∧ lib_ok w' ∧ same_versions w w' ∧
    (∀ k, k ∉ map row_key rows → status_at w' k = status_at w k) ∧
    (∀ r, r ∈ rows → shows w' (row_key r) = wanted_status top a r).
Proof.
  revert w. induction rows as [|r rows IH]; intros w Hok Hn Hr; simpl in *.
  { exists w. split_and!; [done|done|done|done|by intros r ?%elem_of_nil]. }
  apply NoDup_cons in Hn as [Hrn Hn]. apply Forall_cons in Hr as [Hr Hrs].
  assert (∃ w1, (if bool_decide (wanted_status top a r = r.1.2) then mret () else write_status (wanted_status top a r) None) w = (w1, Ok ()) ∧
    lib_ok w1 ∧ same_versions w w1 ∧ (∀ k, k ≠ row_key r → status_at w1 k = status_at w k) ∧
    shows w1 (row_key r) = wanted_status top a r) as (w1 & E1 & Hok1 & Hv1 & Ho1 & Hs1).
  { case_bool_decide as Heq; [exists w; split_and!; [done|done|done|done|destruct Hr as (e & _ & _ & ->); done]|].
    destruct (is_approved r) eqn:Ea; [|by destruct Heq; apply (wanted_other _ _ w)].
    destruct (write_wanted top a w r Hok Hr Ea) as [E Ek]. exists (put_status w (wanted_status top a r)).
    assert (is_Some (lb_entries w !! (ss_skill_id (wanted_status top a r), ss_version (wanted_status top a r)))) as Hi
      by (rewrite Ek; destruct Hr as (e & He & _); by exists e).
    split_and!; [done| |apply versions_put| |].
    - apply lib_ok_put; [done|]. split; [done|]. unfold wanted_status. rewrite Ea. simpl. intros _. by apply bool_decide_eq_true in Ea.
    - intros k Hk. rewrite status_put by done. rewrite decide_False by congruence. done.
    - unfold shows. rewrite status_put by done. by rewrite decide_True by congruence. }
  destruct (IH w1 Hok1 Hn) as (w' & E' & Hok' & Hv' & Ho' & Hs').
  { rewrite Forall_forall in *. intros r' Hr'. apply (row_of_same w); [done| |by apply Hrs]. apply Ho1. intros E. apply Hrn.
    rewrite <- E. by apply list_elem_of_fmap_2. }
  exists w'. unfold mbind, M_bind. rewrite E1, E'. split_and!; [done|done|intros k; by rewrite Hv'| |].
  - intros k [Hk1 Hk2]%not_elem_of_cons. by rewrite Ho', Ho1.
  - intros r' [->|Hr']%elem_of_cons; [|by apply Hs']. unfold shows. by rewrite Ho'.
Qed.

Lemma keeps_ablation P tc : keeps (lib_le P) (refresh_ablation pow2 now tc).
Proof. unfold refresh_ablation. keeps_tac. intros e w. by apply lib_le_same. Qed.
Lemma keeps_pool P rows tc ev : keeps (lib_le P) (_pool_for_class pow2 now rows tc ev).
Proof.
  unfold _pool_for_class. keeps_tac; [apply keeps_ablation|]. destruct x as [[v s] st]. unfold refresh_row. keeps_tac. apply keeps_write_stats.
Qed.
Lemma wanted_active top a r : ss_active (wanted_status top a r) = true → row_key r ∈ top.
Proof.
  unfold wanted_status. destruct (is_approved r) eqn:Ea; simpl; [by intros [_ H%bool_decide_eq_true]%andb_true_iff|].
  unfold assign_active_on_approval, is_approved in *. by rewrite Ea.
Qed.

Definition class_capped (cap : Z) (w : Library) (rows : list row) : Prop :=
  ∃ S : gset (string * Z), Z.of_nat (size S) ≤ Z.max 0 cap ∧
    ∀ r, r ∈ rows → ss_active (shows w (row_key r)) = true → row_key r ∈ S.
Lemma recompute_class_spec config ev c w w' out :
  lib_ok w → NoDup (map row_key c.2) → Forall (row_of w) c.2 →
  recompute_class pow2 now config ev c w = (w', Ok out) →
  lib_ok w' ∧ same_versions w w' ∧ (∀ k, k ∉ map row_key c.2 → status_at w' k = status_at w k) ∧
  class_capped (active_cap_per_task_class config) w' c.2.
Proof.
  intros Hok Hn Hr H. unfold recompute_class in H. apply M_bind_Ok in H as (p & w1 & Hp & H).
  pose proof (statuses_pool c.2 c.1 ev w) as [Hs1 Hv1]. pose proof (le_ok _ _ _ (keeps_pool (λ _, False) c.2 c.1 ev w) Hok) as Hok1.
  rewrite Hp in Hs1, Hv1, Hok1. simpl in *. set (top := select_active _ _) in H.
  destruct (apply_bits_spec top p.1 c.2 w1 Hok1 Hn) as (w2 & E & Hok2 & Hv2 & Ho2 & Hs2).
  { rewrite Forall_forall in *. intros r Hin. apply (row_of_same w); auto. }
  unfold mbind, M_bind in H. rewrite E in H. injection H as <- <-. split_and!; [done|intros k; by rewrite Hv2|intros k Hk; by rewrite Ho2|].
  exists top. split; [apply size_select|]. intros r Hin Ha. rewrite Hs2 in Ha by done. by apply wanted_active in Ha.
Qed.

Lemma first_keys_spec {K} `{EqDecision K} (l seen : list K) :
  NoDup (first_keys l seen) ∧ ∀ k, k ∈ first_keys l seen ↔ k ∈ l ∧ k ∉ seen.
Proof.
  revert seen. induction l as [|x l IH]; intros seen; simpl; [split; [constructor|set_solver]|].
  case_bool_decide as Hx; destruct (IH (if decide (x ∈ seen) then seen else x :: seen)) as [H1 H2].
  - rewrite decide_True in H1, H2 by done. split; [done|]. intros k. rewrite H2. set_solver.
  - rewrite decide_False in H1, H2 by done. split.
    + apply NoDup_cons. split; [|done]. rewrite H2. set_solver.
    + intros k. rewrite elem_of_cons, H2. destruct (decide (k = x)); set_solver.
Qed.
Definition class_of (l : list row) (c : string * list row) : Prop :=
  c.2 = List.filter (λ r : row, String.eqb (sv_task_class r.1.1) c.1) l.
Lemma by_class_spec l :
  NoDup (map fst (by_class l)) ∧ Forall (class_of l) (by_class l) ∧ ∀ r, r ∈ l → sv_task_class r.1.1 ∈ map fst (by_class l).
Proof.
  unfold by_class. destruct (first_keys_spec (map (λ r : row, sv_task_class r.1.1) l) []) as [H1 H2].
  rewrite map_map. simpl. rewrite map_id. split_and!; [done| |].
  - apply Forall_forall. by intros c (tc & -> & _)%list_elem_of_fmap.
  - intros r Hr. apply H2. split; [|by intros ?%elem_of_nil]. by apply (list_elem_of_fmap_2 (λ r : row, sv_task_class r.1.1)).
Qed.
Lemma NoDup_keys_filter (p : row → bool) l : NoDup (map row_key l) → NoDup (map row_key (List.filter p l)).
Proof. apply NoDup_map_filter. Qed.

Lemma recompute_loop config ev l cs w w' out :
  lib_ok w → NoDup (map row_key l) → NoDup (map fst cs) → Forall (class_of l) cs → Forall (λ c : string * list row, Forall (row_of w) c.2) cs →
  mapM_ (recompute_class pow2 now config ev) cs w = (w', Ok out) →
  same_versions w w' ∧ (∀ k, (∀ c, c ∈ cs → k ∉ map row_key c.2) → status_at w' k = status_at w k) ∧
  Forall (λ c, class_capped (active_cap_per_task_class config) w' c.2) cs.
Proof.
  intros Hok Hl. revert w out Hok. induction cs as [|c cs IH]; intros w out Hok Hn Hc Hr; simpl.
  { intros [= <- _]. split_and!; [done|done|constructor]. }
  intros H. apply M_bind_Ok in H as (o & w1 & H1 & H). apply M_bind_Ok in H as (os & w2 & H2 & H). injection H as -> _.
  apply NoDup_cons in Hn as [Hcn Hn]. apply Forall_cons in Hc as [Hc0 Hc]. apply Forall_cons in Hr as [Hr0 Hr].
  assert (NoDup (map row_key c.2)) as Hn0 by (rewrite Hc0; by apply NoDup_keys_filter).
  destruct (recompute_class_spec _ _ _ _ _ _ Hok Hn0 Hr0 H1) as (Hok1 & Hv1 & Ho1 & S & HS & Hcap).
  assert (∀ c', c' ∈ cs → ∀ r r', r ∈ c'.2 → r' ∈ c.2 → row_key r ≠ row_key r') as Hdis.
  { intros c' Hc' r r' Hin Hin' E. rewrite Forall_forall in Hc. rewrite (Hc c' Hc') in Hin. rewrite Hc0 in Hin'.
    apply elem_of_lfilter in Hin as [T1%String.eqb_eq Hin], Hin' as [T2%String.eqb_eq Hin'].
    pose proof (NoDup_map_inj row_key l r r' Hl Hin Hin' E) as ->. apply Hcn. rewrite <- T2, T1. by apply list_elem_of_fmap_2. }
  destruct (IH w1 os Hok1 Hn Hc) as (Hv2 & Ho2 & Hcaps); [|exact H2|].
  { rewrite Forall_forall in *. intros c' Hc'. specialize (Hr c' Hc'). rewrite Forall_forall in *. intros r Hin.
    apply (row_of_same w); [done| |by apply Hr]. apply Ho1. intros (r' & E & Hin')%list_elem_of_fmap. by apply (Hdis c' Hc' r r'). }
  split_and!; [intros k; by rewrite Hv2| |constructor; [|done]].
  - intros k Hk. rewrite Ho2 by (intros c' Hc'; apply Hk; by right). apply Ho1, Hk. left.
  - exists S. split; [done|]. intros r Hin. unfold shows. rewrite Ho2; [by apply Hcap|].
    intros c' Hc' (r' & E & Hin')%list_elem_of_fmap. by apply (Hdis c' Hc' r' r).
Qed.

(** The retrievable versions of a task class. *)
Definition retrievable_in (w : Library) (tc : string) : list (string * Z) :=
  map fst (List.filter (λ ke : (string * Z) * Entry, String.eqb (sv_task_class (en_version ke.2)) tc &&
                          match en_status ke.2 with Some s => is_retrievable s | None => false end) (map_to_list (lb_entries w))).
Lemma retrievable_elem w tc k :
  k ∈ retrievable_in w tc → ∃ e s, lb_entries w !! k = Some e ∧ sv_task_class (en_version e) = tc ∧ status_at w k = Some s ∧ ss_active s = true.
Proof.
  intros ([k' e] & -> & [Hp Hin]%elem_of_lfilter)%list_elem_of_fmap. apply elem_of_map_to_list in Hin. simpl in *.
  apply andb_true_iff in Hp as [Ht%String.eqb_eq Hs]. destruct (en_status e) as [s|] eqn:Es; [|done].
  apply andb_true_iff in Hs as [_ Ha]. exists e, s. split_and!; [done|done| |done]. unfold status_at. by rewrite Hin.
Qed.

(** After the active set is recomputed, no task class has more retrievable
    versions than its cap, whatever the evidence and whatever was active
    before. *)
Theorem active_set_capped config eval_store w w' out tc :
  lib_ok w → recompute_active_set pow2 now config eval_store w = (w', Ok out) →
  Z.of_nat (length (retrievable_in w' tc)) ≤ Z.max 0 (active_cap_per_task_class config).
Proof.
  intros Hok H. unfold recompute_active_set in H. apply M_bind_Ok in H as (l & w1 & Hl & H).
  destruct (loaded_rows _ _ _ Hok Hl) as (-> & Hn & Hr & Hall). apply M_bind_Ok in H as (rs & w2 & Hc & H). injection H as -> _.
  destruct (by_class_spec l) as (B1 & B2 & B3).
  destruct (recompute_loop config eval_store l (by_class l) w w' rs Hok Hn B1 B2) as (Hv & _ & Hcaps); [|exact Hc|].
  { apply Forall_forall. rewrite Forall_forall in B2. rewrite Forall_forall in Hr. intros c Hin. rewrite (B2 c Hin). apply Forall_forall. intros r [_ Hin']%elem_of_lfilter. by apply Hr. }
  assert (∀ k, k ∈ retrievable_in w' tc → ∃ r, r ∈ l ∧ row_key r = k ∧ sv_task_class r.1.1 = tc ∧ ss_active (shows w' k) = true) as Hk.
  { intros k (e & s & He & Ht & Hs & Ha)%retrievable_elem. pose proof (Hv k) as E. rewrite He in E. simpl in E.
    destruct (lb_entries w !! k) as [e0|] eqn:He0; [|done]. injection E as E. pose proof (Hall k e0 He0) as Hin.
    apply list_elem_of_fmap in Hin as (r & -> & Hin). exists r. rewrite Forall_forall in Hr. destruct (Hr r Hin) as (e1 & He1 & Ev & _).
    rewrite He0 in He1. injection He1 as <-. rewrite <- Ev, <- E. split_and!; [done|done|done|]. unfold shows. by rewrite Hs. }
  destruct (decide (tc ∈ map fst (by_class l))) as [Htc|Htc].
  - apply list_elem_of_fmap in Htc as (c & -> & Hin). rewrite Forall_forall in Hcaps, B2. destruct (Hcaps c Hin) as (S & HS & Hcap).
    assert (NoDup (retrievable_in w' c.1)) as Hnd by (apply NoDup_map_filter, NoDup_fst_map_to_list).
    rewrite <- (size_list_to_set (C := gset (string * Z)) _ Hnd). etrans; [|exact HS]. apply inj_le, subseteq_size.
    intros k Hin'%elem_of_list_to_set. destruct (Hk k Hin') as (r & Hrl & <- & Ht & Ha). apply Hcap; [|done].
    rewrite (B2 c Hin). apply elem_of_lfilter. split; [by apply String.eqb_eq|done].
  - destruct (retrievable_in w' tc) as [|k ks] eqn:Ek; [simpl; lia|]. destruct (Hk k ltac:(left)) as (r & Hrl & _ & <- & _).
    by destruct Htc; apply B3.
Qed.
End Cap.

(** ** Witnesses *)

Definition pow2_demo (x : float) : float := fmul x x.
Definition demo_row (id : string) : row := (demo_version id [] [], (new_status id 1 lc_approved) <| ss_active := true |>, new_stats id 1).
Lemma ranking_ignores_order_witness :
  rank_skills [demo_row "a"; demo_row "b"] None = rank_skills [demo_row "b"; demo_row "a"] None.
Proof.
  refine (proj1 (ranking_ignores_order [demo_row "a"; demo_row "b"] [demo_row "b"; demo_row "a"] 1 _ _ _)).
  - apply NoDup_cons. split; [|apply NoDup_singleton]. intros H. apply list_elem_of_singleton in H. discriminate H.
  - repeat constructor.
  - apply perm_swap.
Defined.
Definition demo_recomputed : Library := (@recompute_active_set demo_env pow2_demo 7 HARSH_AUTONOMY true demo_queued).1.
Lemma active_set_capped_witness : Z.of_nat (length (retrievable_in demo_recomputed "repo-chore")) ≤ Z.max 0 3.
Proof.
  assert (∃ out, @recompute_active_set demo_env pow2_demo 7 HARSH_AUTONOMY true demo_queued = (demo_recomputed, Ok out)) as [out E]
    by (eexists; vm_compute; reflexivity).
  exact (@active_set_capped demo_env pow2_demo 7 HARSH_AUTONOMY true demo_queued demo_recomputed out "repo-chore" demo_library_ok E).
Defined.
