(* ===== verification/Lifecycle.v ===== *)
(** * Lifecycle transitions (review/lifecycle.py, shadow.py, field_failures.py, jobs/workers.py recertification,
      memory/procedural/composition.py)

    The operations that move a stored version between lifecycles on evidence:
    shadow entry and advance, quarantine, benching and restoring,
    recertification, and the resolution of composite skills.  The hash-chained
    ledger is absent, working, or failing ([Ledger]); the clock, [pow] and the
    fresh run ids are arguments.  The theorems are about the evidence each
    transition needs and about the two retirement adapters. *)
From S2P Require Import Prelude PyStr Budgets Contracts Skills EvalStore Library SkillGates Portfolio.
From Stdlib Require Import ZArith Lia.
Open Scope Z_scope.

Definition LifecycleError : exn := PyError "LifecycleError".
Definition CompositionError : exn := PyError "CompositionError".

(** [ledger: HashChainLedger | None]; a failing one raises after the change it
    was to record. *)
Inductive Ledger := ledger_none | ledger_up | ledger_down.

Section Lifecycle.
Context `{LE : LibraryEnv} `{GE : GateEnv} (pow2 : float → float) (now : datetime).

Definition ledger_append (led : Ledger) (actor action target : string) (ev : list farg) : LB unit :=
  match led with
  | ledger_none => mret tt
  | ledger_up => modify (λ w, w <| lb_ledger := lb_ledger w ++ [mkNote actor action target ev] |>)
  | ledger_down => raise LedgerUnavailable
  end.
Definition at_v (id : string) (n : Z) : string := id +:+ "@v" +:+ pretty n.
Definition lift_note (o : option float) : farg := match o with Some x => FF x | None => FO None end.

Definition refuse_if_inapplicable (v : SkillVersion) (led : Ledger) : LB ApplicabilityReport :=
  report ← check_applicability v None None true;
  if ap_ok report then mret report
  else
    _ ← ledger_append led "applicability-gate" "applicability_reject" (at_v (sv_skill_id v) (sv_version v)) [];
    mret report.

(** ** review/lifecycle.py *)

Definition samples_of (id : string) (n : Z) (tc : string) : LB (BinomialSample * BinomialSample) :=
  gets (λ w, contribution_samples (lb_evals w) id n tc None).
Definition contribution_of (s : BinomialSample * BinomialSample) : LB Contribution :=
  lift (estimate_contribution pow2 now s.1 s.2 (has_both_arms s)).
Definition required_lift (config : AutonomyConfig) (v : SkillVersion) : result float :=
  if is_self_distilled v then
    if feqb (curation_prior_self_distilled config) f0 then Err (PyError "ZeroDivisionError")
    else Ok (fdiv (shadow_min_lift config) (curation_prior_self_distilled config))
  else Ok (shadow_min_lift config).
Definition maybe_advance_shadow_to_candidate (id : string) (n : Z) (config : AutonomyConfig) (led : Ledger) : LB SkillStatus :=
  status ← get_status id n;
  _ ← guard (bool_decide (ss_lifecycle status = lc_shadow)) LifecycleError;
  stats ← get_stats id n;
  let trust := trust_score (pt_applications (sk_predictive_trust stats)) (pt_successes (sk_predictive_trust stats)) in
  v ← get_version id n;
  s ← samples_of id n (sv_task_class v);
  contrib ← contribution_of s;
  match estimate contrib with
  | None => raise LifecycleError
  | Some lift_ =>
      _ ← guard (negb (lift_ <?. shadow_min_lift config)) LifecycleError;
      _ ← guard (shadow_min_applications config <=? bs_trials s.1) LifecycleError;
      _ ← guard (shadow_min_successes config <=? bs_successes s.1) LifecycleError;
      version_doc ← get_version id n;
      required ← lift (required_lift config version_doc);
      _ ← guard (negb (lift_ <?. required)) LifecycleError;
      applicability ← refuse_if_inapplicable version_doc led;
      _ ← guard (ap_ok applicability) LifecycleError;
      let candidate := status <| ss_lifecycle := lc_candidate |> <| ss_active := false |> in
      _ ← write_status candidate (Some (ss_lifecycle status));
      _ ← refresh_ablation pow2 now (sv_task_class v);
      _ ← write_stats (stats <| sk_predictive_trust := (sk_predictive_trust stats) <| pt_decayed_score := Some trust |> |>
                             <| sk_contribution := contrib |>);
      _ ← ledger_append led "m5-shadow-autonomy" "advance_to_candidate" (at_v id n) [FF lift_; FF trust];
      mret candidate
  end.
Definition maybe_auto_promote_from_shadow := maybe_advance_shadow_to_candidate.

Definition quarantine_on_failures (id : string) (n consecutive_failures : Z) (config : AutonomyConfig) (led : Ledger) : LB SkillStatus :=
  status ← get_status id n;
  if consecutive_failures <? quarantine_consecutive_failures config then mret status
  else
    let quarantined := status <| ss_lifecycle := lc_quarantined |> <| ss_active := false |> in
    _ ← write_status quarantined (Some (ss_lifecycle status));
    _ ← ledger_append led "m5-quarantine" "quarantine_version" (at_v id n) [FZ consecutive_failures];
    mret quarantined.

Definition uses_child (v : SkillVersion) (id : string) (n : Z) : bool :=
  existsb (λ u, String.eqb (us_skill_id u) id && (us_version u =? n)) (sv_uses v).
Definition mark_parent (child_id : string) (child_version : Z) (led : Ledger) (r : row) : LB unit :=
  if uses_child r.1.1 child_id child_version && bool_decide (ss_lifecycle r.1.2 ∈ [lc_approved; lc_shadow]) then
    _ ← write_status (r.1.2 <| ss_lifecycle := lc_needs_recert |> <| ss_active := false |>) (Some (ss_lifecycle r.1.2));
    ledger_append led "m5-retirement" "policy_change" (at_v (sv_skill_id r.1.1) (sv_version r.1.1)) [FS (at_v child_id child_version)]
  else mret tt.
Definition _mark_parents_needs_recert (child_id : string) (child_version : Z) (led : Ledger) : LB unit :=
  l ← iter_loaded;
  _ ← mapM_ (mark_parent child_id child_version led) l;
  mret tt.

Definition bench_decision (config : AutonomyConfig) (s : BinomialSample * BinomialSample) (c : Contribution) : RetirementDecision :=
  retirement_decision (bs_trials s.1) (estimate c) (co_interval_high c) (evidence_floor config) (retirement_threshold config).
Definition maybe_bench_on_contribution (id : string) (n : Z) (config : AutonomyConfig) (led : Ledger) : LB SkillStatus :=
  status ← get_status id n;
  stats ← get_stats id n;
  v ← get_version id n;
  s ← samples_of id n (sv_task_class v);
  contrib ← contribution_of s;
  let decision := bench_decision config s contrib in
  _ ← guard (negb (bool_decide (rd_action decision = below_floor))) LifecycleError;
  _ ← guard (should_retire decision) LifecycleError;
  let benched := status <| ss_lifecycle := lc_benched |> <| ss_active := false |>
    <| ss_retirement := mkRetirement (Some now) (Some rr_negative_contribution)
         (Some (default (fmt "estimate={}" [lift_note (estimate contrib)]) (rd_evidence decision))) None None |> in
  _ ← write_status benched (Some (ss_lifecycle status));
  _ ← refresh_ablation pow2 now (sv_task_class v);
  _ ← write_stats (stats <| sk_contribution := contrib |>);
  _ ← ledger_append led "m5-retirement" "deprecate" (at_v id n) [lift_note (estimate contrib); lift_note (co_interval_high contrib)];
  _ ← _mark_parents_needs_recert id n led;
  mret benched.

Definition restore_benched (id : string) (n : Z) (led : Ledger) : LB SkillStatus :=
  status ← get_status id n;
  _ ← guard (bool_decide (ss_lifecycle status = lc_benched)) LifecycleError;
  let restored := status <| ss_lifecycle := lc_candidate |> <| ss_active := false |>
    <| ss_retirement := (ss_retirement status) <| re_restored_at := Some now |> |> in
  _ ← write_status restored (Some lc_benched);
  _ ← ledger_append led "m5-retirement" "policy_change" (at_v id n) [];
  mret restored.

(** ** review/shadow.py *)

Definition enter_shadow (id : string) (n : Z) : LB unit :=
  status ← get_status id n;
  _ ← guard (bool_decide (ss_lifecycle status ∈ [lc_candidate; lc_approved; lc_benched; lc_shadow; lc_draft])) ValueError;
  write_status (status <| ss_lifecycle := lc_shadow |> <| ss_active := false |>) (Some (ss_lifecycle status)).
Record ShadowResult := mkShadowResult {
  sr_skill_id : string; sr_version : Z; sr_success : bool; sr_visible_to_caller : bool; sr_run_id : option string }.
Definition record_shadow_outcome (id : string) (n : Z) (success : bool) (rid : option string) : LB ShadowResult :=
  status ← get_status id n;
  _ ← guard (bool_decide (ss_lifecycle status ∈ [lc_shadow; lc_approved; lc_benched])) ValueError;
  mret (mkShadowResult id n success false rid).

Definition shadow_criterion : TaskCriterion :=
  mkTaskCriterion "shadow-offline" K_command (Some "true") 0 None None None None None None None fresh_context None 300 f1 None
    from_caller true.
Definition shadow_state (sl : ShadowSlot) (success : bool) (snapshot_id rid : string) : RunState :=
  let s := initial_RunState rid
    (mkTask rid None (Some ("offline shadow slot for " +:+ at_v (sl_skill_id sl) (sl_version sl))) (Some (sl_task_class sl)) None None now
       false ES_single) [shadow_criterion] default_Budget shadow (mkManifest None None [] (Some snapshot_id) None None (Some "shadow-offline") None) in
  s <| criteria_locked_at := Some now |>
    <| chosen := Some (mkCandidate (sl_skill_id sl) (sl_version sl) f1 None None [] None true) |> <| attempt_no := 1 |>
    <| results := [mkResult "shadow-offline" (Some K_command) success f1 None None None None "" false f0] |>
    <| terminal := Some (if success then T_solved else T_unsolved) |>.
Definition on_evals {A} (m : EV A) : LB A := λ w,
  let '(d, r) := m (lb_evals w) in (w <| lb_evals := d |>, r).
Definition persist_shadow_observation (state_sha256 : RunState → string) (sl : ShadowSlot) (success : bool) (snapshot_id rid : string) : LB unit :=
  _ ← on_evals (append_run state_sha256 now (shadow_state sl success snapshot_id rid) None false None); mret tt.

Definition active_flags : LB (list ((string * Z) * bool)) :=
  l ← iter_loaded; mret (map (λ r : row, (row_key r, ss_active r.1.2)) l).
(** [evaluate] scores a slot in a temporary directory; [fresh] is the hex of a
    new UUID. *)
Definition run_slot (state_sha256 : RunState → string) (with_evals : bool) (snapshot_id : string) (evaluate : ShadowSlot → LB bool)
    (fresh : ShadowSlot → string) (sl : ShadowSlot) : LB ShadowResult :=
  before ← active_flags;
  success ← evaluate sl;
  let rid := "shadow-" +:+ sl_skill_id sl +:+ "-v" +:+ pretty (sl_version sl) +:+ "-" +:+ fresh sl in
  result ← record_shadow_outcome (sl_skill_id sl) (sl_version sl) success (Some rid);
  _ ← (if with_evals then persist_shadow_observation state_sha256 sl success snapshot_id rid else mret tt);
  after ← active_flags;
  _ ← guard (bool_decide (after = before)) RuntimeError;
  mret result.
Definition schedule_shadow_slots (state_sha256 : RunState → string) (with_evals : bool) (config : AutonomyConfig) (snapshot_id : string)
    (evaluate : ShadowSlot → LB bool) (fresh : ShadowSlot → string) : LB (list ShadowResult) :=
  slots ← select_shadow_slots config;
  mapM_ (run_slot state_sha256 with_evals snapshot_id evaluate fresh) slots.

(** ** review/field_failures.py *)

Record FieldOffRamp := mkOffRamp { or_skill_id : string; or_version : Z; or_consecutive_failures : Z }.
Definition off_ramp_row (config : AutonomyConfig) (led : Ledger) (streaks : gmap (string * Z) Z) (r : row) : LB (list FieldOffRamp) :=
  let streak := default 0 (streaks !! row_key r) in
  if negb (bool_decide (ss_lifecycle r.1.2 ∈ [lc_approved; lc_shadow; lc_needs_recert])) then mret []
  else if streak <? quarantine_consecutive_failures config then mret []
  else
    q ← quarantine_on_failures (sv_skill_id r.1.1) (sv_version r.1.1) streak config led;
    mret (if bool_decide (ss_lifecycle q = lc_quarantined) then [mkOffRamp (sv_skill_id r.1.1) (sv_version r.1.1) streak] else []).
Definition recertify_field_failures (config : AutonomyConfig) (led : Ledger) : LB (list FieldOffRamp) :=
  streaks ← gets (λ w, field_failure_streaks (lb_evals w));
  l ← iter_loaded;
  o ← mapM_ (off_ramp_row config led streaks) l;
  mret (concat o).

(** ** jobs/workers.py: the Recertifier *)

Inductive RecertifyReason := why_stale_or_upgraded | why_field_failures (n : Z) | why_lineage_revoke.
Record RecertifyProposal := mkRecertify { rq_skill_id : string; rq_version : Z; rq_why : RecertifyReason }.
Definition stale_row (tool_upgraded : option string) (r : row) : LB (list RecertifyProposal) :=
  if truthy tool_upgraded || bool_decide (ce_recert_status (ss_certification r.1.2) = rc_stale) then
    _ ← write_status (r.1.2 <| ss_lifecycle := lc_needs_recert |> <| ss_active := false |>) None;
    mret [mkRecertify (sv_skill_id r.1.1) (sv_version r.1.1) why_stale_or_upgraded]
  else mret [].
Definition recertify_stale (tool_upgraded : option string) : LB (list RecertifyProposal) :=
  l ← iter_loaded;
  ps ← mapM_ (stale_row tool_upgraded) l;
  mret (concat ps).
Definition recertify_with_revokes (max_writes : Z) (tool_upgraded : option string) (with_evals : bool) : LB (list RecertifyProposal) :=
  proposals ← recertify_stale tool_upgraded;
  ramps ← (if with_evals then recertify_field_failures DEFAULT_AUTONOMY ledger_none else mret []);
  let proposals := proposals ++ map (λ o, mkRecertify (or_skill_id o) (or_version o) (why_field_failures (or_consecutive_failures o))) ramps in
  q ← gets (λ w, bool_decide (is_Some (lb_lineage w)) && bool_decide (is_Some (lb_revokes w)));
  if negb q then mret proposals
  else
    touched ← drain_revokes max_writes;
    mret (proposals ++ map (λ s, mkRecertify (ss_skill_id s) (ss_version s) why_lineage_revoke) touched).

(** ** memory/procedural/composition.py *)

Definition MAX_DEPTH : Z := 3.
(** The walk stops at depth 4, so [levels] is [MAX_DEPTH + 1 - d]; [acc] is
    what is resolved, in order, without repeats. *)
Fixpoint resolve_walk (levels : nat) (v : SkillVersion) (path : list (string * Z)) (acc : list SkillVersion) : LB (list SkillVersion) :=
  let key := (sv_skill_id v, sv_version v) in
  if bool_decide (key ∈ path) then raise CompositionError
  else match levels with
  | O => raise CompositionError
  | S levels' =>
      foldM (λ acc u,
        child ← get_version (us_skill_id u) (us_version u);
        status ← get_status (us_skill_id u) (us_version u);
        _ ← guard (negb (bool_decide (ss_lifecycle status = lc_quarantined))) CompositionError;
        _ ← guard (bool_decide (ss_lifecycle status = lc_approved) && ss_active status) CompositionError;
        let ck := (sv_skill_id child, sv_version child) in
        let acc := if bool_decide (ck ∈ map (λ c, (sv_skill_id c, sv_version c)) acc) then acc else acc ++ [child] in
        resolve_walk levels' child (path ++ [key]) acc) acc (sv_uses v)
  end.
Definition resolve_uses (v : SkillVersion) (depth : Z) : LB (list SkillVersion) :=
  if MAX_DEPTH <? depth then raise CompositionError
  else resolve_walk (Z.to_nat (MAX_DEPTH + 1 - depth)) v [] [].

Definition block_parent (child_id : string) (child_version : Z) (r : row) : LB (list SkillStatus) :=
  if uses_child r.1.1 child_id child_version then
    let s := r.1.2 <| ss_lifecycle := lc_needs_recert |> <| ss_active := false |> in
    _ ← write_status s None; mret [s]
  else mret [].
Definition quarantine_child_blocks_parents (child_id : string) (child_version : Z) : LB (list SkillStatus) :=
  child_status ← get_status child_id child_version;
  _ ← write_status (child_status <| ss_lifecycle := lc_quarantined |> <| ss_active := false |>) None;
  l ← iter_loaded;
  ts ← mapM_ (block_parent child_id child_version) l;
  mret (concat ts).
End Lifecycle.

(** ** What every transition keeps *)

#[export] Hint Resolve keeps_get_version keeps_get_status keeps_get_stats keeps_read_status keeps_iter_loaded : recertia_keeps.
#[export] Hint Resolve keeps_write_stats keeps_mark keeps_drain_revokes keeps_ablation keeps_pool keeps_rebuild : recertia_keeps.

Section Keeps.
Context `{LE : LibraryEnv} `{GE : GateEnv} (pow2 : float → float) (now : datetime) (P : string * Z → Prop).

Lemma keeps_write_inactive s expected : ss_active s = false → keeps (lib_le P) (write_status s expected).
Proof. intros Ha. apply keeps_write_status. by rewrite Ha. Qed.
Lemma keeps_modify_aux (f : Library → Library) :
  (∀ w, lb_entries (f w) = lb_entries w ∧ lb_reservations (f w) = lb_reservations w ∧ lb_lineage (f w) = lb_lineage w) →
  keeps (lib_le P) (modify f).
Proof. intros H w. destruct (H w) as (? & ? & ?). by apply lib_le_same. Qed.
Lemma keeps_ledger led a b c d : keeps (lib_le P) (ledger_append led a b c d).
Proof. destruct led; simpl; [apply keeps_ret; apply _|by apply keeps_modify_aux|apply keeps_raise; apply _]. Qed.
Lemma keeps_on_evals {A} (m : EV A) : keeps (lib_le P) (on_evals m).
Proof. intros w. unfold on_evals. destruct (m (lb_evals w)). by apply lib_le_same. Qed.
Hint Resolve keeps_write_inactive keeps_ledger keeps_on_evals : recertia_keeps.

Lemma keeps_inapplicable v led : keeps (lib_le P) (refuse_if_inapplicable v led).
Proof. unfold refuse_if_inapplicable, check_applicability. keeps_tac. Qed.
Hint Resolve keeps_inapplicable : recertia_keeps.
Lemma keeps_advance id n config led : keeps (lib_le P) (maybe_advance_shadow_to_candidate pow2 now id n config led).
Proof. unfold maybe_advance_shadow_to_candidate, samples_of, contribution_of. keeps_tac. Qed.
Lemma keeps_quarantine id n f config led : keeps (lib_le P) (quarantine_on_failures id n f config led).
Proof. unfold quarantine_on_failures. keeps_tac. Qed.
Lemma keeps_parents id n led : keeps (lib_le P) (_mark_parents_needs_recert id n led).
Proof. unfold _mark_parents_needs_recert, mark_parent. keeps_tac. Qed.
Hint Resolve keeps_quarantine keeps_parents : recertia_keeps.
Lemma keeps_bench id n config led : keeps (lib_le P) (maybe_bench_on_contribution pow2 now id n config led).
Proof. unfold maybe_bench_on_contribution, samples_of, contribution_of. keeps_tac. Qed.
Lemma keeps_restore id n led : keeps (lib_le P) (restore_benched now id n led).
Proof. unfold restore_benched. keeps_tac. Qed.
Lemma keeps_shadow id n : keeps (lib_le P) (enter_shadow id n).
Proof. unfold enter_shadow. keeps_tac. Qed.
Lemma keeps_schedule h b config snap evaluate fresh :
  (∀ sl, keeps (lib_le P) (evaluate sl)) → keeps (lib_le P) (schedule_shadow_slots now h b config snap evaluate fresh).
Proof.
  intros He. unfold schedule_shadow_slots, select_shadow_slots, run_slot, active_flags, record_shadow_outcome, persist_shadow_observation.
  keeps_tac.
Qed.
Lemma keeps_field_failures config led : keeps (lib_le P) (recertify_field_failures config led).
Proof. unfold recertify_field_failures, off_ramp_row. keeps_tac. Qed.
Hint Resolve keeps_field_failures : recertia_keeps.
Lemma keeps_stale t : keeps (lib_le P) (recertify_stale t).
Proof. unfold recertify_stale, stale_row. keeps_tac. Qed.
Hint Resolve keeps_stale : recertia_keeps.
Lemma keeps_recertify n t b : keeps (lib_le P) (recertify_with_revokes n t b).
Proof. unfold recertify_with_revokes. keeps_tac. Qed.
Lemma keeps_block id n : keeps (lib_le P) (quarantine_child_blocks_parents id n).
Proof. unfold quarantine_child_blocks_parents, block_parent. keeps_tac. Qed.
Lemma wanted_active_approved top a r : ss_active (wanted_status top a r) = true → ss_lifecycle (wanted_status top a r) = lc_approved.
Proof.
  unfold wanted_status, assign_active_on_approval, is_approved. by case_bool_decide.
Qed.
Lemma keeps_apply_bits rows top a : keeps (lib_le P) (_apply_active_bits rows top a).
Proof.
  induction rows as [|r rows IH]; simpl; [apply keeps_ret; apply _|]. keeps_tac.
  apply keeps_write_status. apply wanted_active_approved.
Qed.
Hint Resolve keeps_apply_bits : recertia_keeps.
Lemma keeps_recompute config ev : keeps (lib_le P) (recompute_active_set pow2 now config ev).
Proof. unfold recompute_active_set, recompute_class. keeps_tac. Qed.
End Keeps.

(** ** Theorems *)

Section Theorems.
Context `{LE : LibraryEnv} `{GE : GateEnv} (pow2 : float → float) (now : datetime).

Lemma guard_Ok b e (w w' : Library) u : guard b e w = (w', Ok u) → w' = w ∧ b = true.
Proof. unfold guard, lift, raise_unless. destruct b; [by intros [= <- _]|done]. Qed.
Lemma gets_Ok {A} (f : Library → A) w w' a : gets f w = (w', Ok a) → w' = w ∧ a = f w.
Proof. by intros [= <- <-]. Qed.
Lemma reads_Ok {A} (m : LB A) w w' r : keeps eq m → m w = (w', r) → w' = w.
Proof. intros H E. specialize (H w). by rewrite E in H. Qed.

(** *** Advancing a shadow *)

(** A shadow version becomes a candidate only on its own evidence: it was in
    shadow, enough randomised shadow runs and successes were recorded for
    exactly this version, its lift over the suppressed runs is at least the
    threshold (a stricter one for self-distilled skills), and the
    applicability gate let it through; it is then an inactive candidate. *)
Theorem advance_needs_evidence id n config led w w' s :
  maybe_advance_shadow_to_candidate pow2 now id n config led w = (w', Ok s) →
  ss_lifecycle s = lc_candidate ∧ ss_active s = false ∧
  ∃ s0 e c x bar, status_at w (id, n) = Some s0 ∧ ss_lifecycle s0 = lc_shadow ∧ lb_entries w !! (id, n) = Some e ∧
    let v := en_version e in
    let samples := contribution_samples (lb_evals w) id n (sv_task_class v) None in
    estimate_contribution pow2 now samples.1 samples.2 (has_both_arms samples) = Ok c ∧ estimate c = Some x ∧
    required_lift config v = Ok bar ∧ (x <?. shadow_min_lift config) = false ∧ (x <?. bar) = false ∧
    shadow_min_applications config ≤ bs_trials samples.1 ∧ shadow_min_successes config ≤ bs_successes samples.1 ∧
    ∃ w1 report, check_applicability v None None true w = (w1, Ok report) ∧ ap_ok report = true.
Proof.
  unfold maybe_advance_shadow_to_candidate. intros H.
  apply M_bind_Ok in H as (s0 & w1 & Hs & H). apply (get_status_Ok w w1 (id, n)) in Hs as (-> & Hs & _).
  apply M_bind_Ok in H as (u & w1 & [-> Hl%bool_decide_eq_true]%guard_Ok & H).
  apply M_bind_Ok in H as (st & w1 & Hst & H). apply reads_Ok in Hst as ->; [|apply keeps_get_stats; apply _].
  apply M_bind_Ok in H as (v & w1 & Hv & H). apply get_version_Ok in Hv as (-> & e & He & <-).
  apply M_bind_Ok in H as (smp & w1 & [-> ->]%gets_Ok & H). apply M_bind_Ok in H as (c & w1 & [-> Hc]%lift_Ok & H).
  destruct (estimate c) as [x|] eqn:Hx; [|done].
  apply M_bind_Ok in H as (u1 & w1 & [-> G1%negb_true_iff]%guard_Ok & H).
  apply M_bind_Ok in H as (u2 & w1 & [-> G2%Z.leb_le]%guard_Ok & H).
  apply M_bind_Ok in H as (u3 & w1 & [-> G3%Z.leb_le]%guard_Ok & H).
  apply M_bind_Ok in H as (v' & w1 & Hv & H). apply get_version_Ok in Hv as (-> & e' & He' & <-).
  rewrite He in He'. injection He' as <-.
  apply M_bind_Ok in H as (bar & w1 & [-> Hb]%lift_Ok & H). apply M_bind_Ok in H as (u4 & w1 & [-> G4%negb_true_iff]%guard_Ok & H).
  apply M_bind_Ok in H as (rep & w1 & Hr & H). apply M_bind_Ok in H as (u5 & w2 & [-> G5]%guard_Ok & H).
  apply M_bind_Ok in H as (u6 & w2 & _ & H). apply M_bind_Ok in H as (u7 & w3 & _ & H).
  apply M_bind_Ok in H as (u8 & w4 & _ & H). apply M_bind_Ok in H as (u9 & w5 & _ & H). injection H as _ <-.
  split_and!; [done|done|]. exists s0, e, c, x, bar. cbv zeta. split_and!; try done.
  unfold refuse_if_inapplicable in Hr. apply M_bind_Ok in Hr as (rep' & w6 & Hrep & Hr). exists w6, rep'. split; [done|].
  destruct (ap_ok rep') eqn:Ea; [done|]. apply M_bind_Ok in Hr as (? & ? & _ & Hr). injection Hr as _ <-. congruence.
Qed.

(** *** A tool upgrade *)

Lemma stale_rows_spec t l w :
  truthy (Some t) = true → lib_ok w → NoDup (map row_key l) → Forall (row_of w) l →
  ∃ w' ps, mapM_ (stale_row (Some t)) l w = (w', Ok ps) ∧ lib_ok w' ∧ same_versions w w' ∧
    (∀ k, k ∉ map row_key l → status_at w' k = status_at w k) ∧
    (∀ r, r ∈ l → lifecycle_at w' (row_key r) = Some lc_needs_recert).
Proof.
  intros Ht. revert w. induction l as [|r l IH]; intros w Hok Hn Hr; simpl in Hn; simpl.
  { exists w, []. split_and!; [done|done|done|done|by intros r ?%elem_of_nil]. }
  apply NoDup_cons in Hn as [Hrn Hn]. apply Forall_cons in Hr as [(e & He & Hv & Hs) Hrs].
  set (s := (r.1.2 <| ss_lifecycle := lc_needs_recert |>) <| ss_active := false |>).
  assert ((ss_skill_id s, ss_version s) = row_key r) as Ek.
  { unfold s. simpl. rewrite <- Hs. unfold shows. destruct (status_at w (row_key r)) as [s0|] eqn:E; [|by destruct (row_key r)].
    apply (ok_status w Hok _ _ E). }
  assert (write_status s None w = (put_status w s, Ok ())) as Ew.
  { apply write_status_plain; [|done]. unfold status_accepted. rewrite Ek. split_and!; [by exists e| |done|done].
    intros s0. by apply lib_ok_valid. }
  set (w1 := put_status w s) in *.
  assert (is_Some (lb_entries w !! (ss_skill_id s, ss_version s))) as Hi by (rewrite Ek; by exists e).
  assert (∀ k, status_at w1 k = if decide (k = row_key r) then Some s else status_at w k) as Hst.
  { intros k. unfold w1. rewrite status_put, Ek by done. done. }
  destruct (IH w1) as (w' & ps & E' & Hok' & Hv' & Ho' & Hs').
  - apply lib_ok_put; [done|]. by split.
  - done.
  - rewrite Forall_forall in Hrs. apply Forall_forall. intros r' Hr'. apply (row_of_same w); [apply versions_put| |by apply Hrs].
    rewrite Hst. apply decide_False. intros E. apply Hrn. rewrite <- E. by apply list_elem_of_fmap_2.
  - assert (stale_row (Some t) r w = (w1, Ok [mkRecertify (sv_skill_id r.1.1) (sv_version r.1.1) why_stale_or_upgraded])) as Er.
    { unfold stale_row. rewrite Ht. cbn [orb]. unfold mbind, M_bind. fold s. by rewrite Ew. }
    unfold mbind, M_bind. rewrite Er, E'.
    eexists _, _. split; [done|]. split_and!; [done|intros k; rewrite Hv'; apply versions_put| |].
    + intros k [Hk1 Hk2]%not_elem_of_cons. by rewrite Ho', Hst, decide_False.
    + intros r' [->|Hr']%elem_of_cons; [|by apply Hs']. unfold lifecycle_at. by rewrite Ho', Hst, decide_True.
Qed.

(** A tool upgrade moves every stored version to needs_recert, whatever its
    lifecycle was: quarantined and deprecated versions, which are terminal in
    the specification, leave that state too. *)
Theorem tool_upgrade_revives_all t w l :
  t ≠ "" → lib_ok w → iter_loaded w = (w, Ok l) →
  ∃ w' ps, recertify_stale (Some t) w = (w', Ok ps) ∧
    ∀ k e, lb_entries w !! k = Some e → lifecycle_at w' k = Some lc_needs_recert.
Proof.
  intros Ht Hok Hl. destruct (loaded_rows _ _ _ Hok Hl) as (_ & Hn & Hr & Hall).
  destruct (stale_rows_spec t l w) as (w' & ps & E & _ & _ & _ & Hs); [by apply negb_true_iff, String.eqb_neq|done..|].
  exists w', (concat ps). unfold recertify_stale, mbind, M_bind. rewrite Hl, E. split; [done|].
  intros k e He. apply Hall in He. apply list_elem_of_fmap in He as (r & -> & Hin). by apply Hs.
Qed.
End Theorems.

(** *** One retirement decision *)

Section Bench.
Context `{LE : LibraryEnv} `{GE : GateEnv} (pow2 : float → float) (now : datetime).

Lemma contribution_counts s c :
  estimate_contribution pow2 now s.1 s.2 (has_both_arms s) = Ok c → co_applications c = bs_trials s.1.
Proof.
  unfold estimate_contribution. destruct (has_both_arms s); simpl; [|by intros [= <-]].
  destruct (_ || _); [by intros [= <-]|]. intros (i & _ & [= <-])%bind_Ok_inv. done.
Qed.
Lemma samples_same_rows d d' id n tc sn :
  ed_observations d' = ed_observations d → contribution_samples d' id n tc sn = contribution_samples d id n tc sn.
Proof. intros E. unfold contribution_samples, observations. by rewrite E. Qed.
Definition same_rows (w w' : Library) : Prop := ed_observations (lb_evals w') = ed_observations (lb_evals w).
#[local] Instance same_rows_preorder : PreOrder same_rows.
Proof. split; [done|]. intros a b c H1 H2. unfold same_rows in *. congruence. Qed.
Lemma rows_write_stats s : keeps same_rows (write_stats s).
Proof.
  intros w. unfold write_stats, mbind, M_bind, entry_at, gets, put_entry, modify. by destruct (lb_entries w !! _).
Qed.
Lemma rows_ablation tc : keeps same_rows (refresh_ablation pow2 now tc).
Proof. unfold refresh_ablation. keeps_tac. by intros e w. Qed.
Lemma rows_refresh samples r : keeps same_rows (refresh_row pow2 now samples r).
Proof. destruct r as [[v s] st]. unfold refresh_row. keeps_tac; apply rows_write_stats. Qed.
Lemma refresh_row_Ok samples r w w1 r' :
  refresh_row pow2 now samples r w = (w1, Ok r') →
  row_key r' = row_key r ∧
  let p := default (empty_sample, empty_sample) (samples !! row_key r) in
  estimate_contribution pow2 now p.1 p.2 (has_both_arms p) = Ok (sk_contribution r'.2).
Proof.
  destruct r as [[v s] st]. unfold refresh_row. intros H. apply M_bind_Ok in H as (c & w2 & [-> Hc]%lift_Ok & H).
  apply M_bind_Ok in H as (u & w3 & _ & H). injection H as _ <-. by split.
Qed.
Lemma pool_refreshed rows tc w w1 p r :
  _pool_for_class pow2 now rows tc true w = (w1, Ok p) → r ∈ p.1 →
  let s := contribution_samples (lb_evals w1) (row_key r).1 (row_key r).2 tc None in
  estimate_contribution pow2 now s.1 s.2 (has_both_arms s) = Ok (sk_contribution r.2).
Proof.
  intros H Hr. unfold _pool_for_class in H. apply M_bind_Ok in H as (a & w2 & Ha & H). injection H as <- <-. simpl in Hr.
  apply M_bind_Ok in Ha as (u & w3 & Hab & Ha). apply M_bind_Ok in Ha as (db & w4 & [-> ->]%gets_Ok & Ha).
  pose proof (keeps_mapM same_rows (refresh_row pow2 now (contribution_samples_bulk (lb_evals w3) tc None)) (List.filter is_approved rows)
    (rows_refresh _) w3) as Hrows. rewrite Ha in Hrows. simpl in Hrows.
  apply list_elem_of_lookup in Hr as [i Hi].
  pose proof (mapM_Ok _ _ _ _ _ Ha) as HF. destruct (Forall2_lookup_r _ _ _ _ _ HF Hi) as (r0 & _ & w4 & w5 & Hx).
  apply refresh_row_Ok in Hx as [Ek Hc]. rewrite <- Ek in Hc. cbv zeta in Hc |- *.
  rewrite (proj1 (bulk_lookup (lb_evals w3) tc None (row_key r))) in Hc. rewrite (samples_same_rows _ _ _ _ _ _ Hrows). exact Hc.
Qed.
Lemma decisions_agree config s r :
  estimate_contribution pow2 now s.1 s.2 (has_both_arms s) = Ok (sk_contribution r.2) →
  item_decision config (rank_item r) = bench_decision config s (sk_contribution r.2).
Proof.
  intros Hc. destruct r as [[v st0] st]. unfold item_decision, bench_decision. simpl in *. by rewrite (contribution_counts _ _ Hc).
Qed.

(** Nothing that follows the write takes a version out of benched. *)
Definition stays (k : string * Z) (w w' : Library) : Prop := lifecycle_at w k = Some lc_benched → lifecycle_at w' k = Some lc_benched.
#[local] Instance stays_preorder k : PreOrder (stays k).
Proof. split; [intros w H; exact H|]. intros a b c H1 H2 H. apply H2, H1, H. Qed.
Lemma stays_same k {A} (m : LB A) : keeps same_statuses m → keeps (stays k) m.
Proof. intros H w. specialize (H w) as [Hs _]. unfold stays, lifecycle_at. by rewrite Hs. Qed.
Lemma stays_ledger k led a b c d : keeps (stays k) (ledger_append led a b c d).
Proof. destruct led; intros w H; exact H. Qed.
Lemma stays_mark k s x : x ≠ lc_benched → ss_lifecycle s = lc_needs_recert → keeps (stays k) (write_status s (Some x)).
Proof.
  intros Hx Hs w. destruct (write_status_spec s (Some x) w) as [[_ [e ->]]|[Ha _]]; [by intros H|].
  rewrite write_status_plain; [|done|by rewrite Hs]. intros Hk. simpl. unfold lifecycle_at. destruct Ha as (Hi & _ & He & _).
  rewrite status_put by done. destruct (decide _) as [->|]; [|done]. rewrite (He x eq_refl) in Hk. congruence.
Qed.
Lemma stays_parents k id n led : keeps (stays k) (_mark_parents_needs_recert id n led).
Proof.
  unfold _mark_parents_needs_recert. keeps_tac. intros r. unfold mark_parent. destruct (_ && _) eqn:E; [|keeps_tac].
  apply andb_true_iff in E as [_ E%bool_decide_eq_true]. apply keeps_bind; [apply _| |intros; apply stays_ledger].
  apply stays_mark; [|done]. intros E'. rewrite E' in E. set_solver.
Qed.

Lemma bind_stays k {A B} (m : LB A) (f : A → LB B) w w1 a :
  m w = (w1, Ok a) → keeps (stays k) (f a) → lifecycle_at w1 k = Some lc_benched → lifecycle_at ((m ≫= f) w).1 k = Some lc_benched.
Proof. intros E Hf Hl. unfold mbind, M_bind. rewrite E. by apply Hf. Qed.

(** The two retirement adapters agree: for a version of the refreshed pool, the
    effectful adapter benches it exactly when the pure one proposes it, and
    refuses without touching anything when it does not. *)
Theorem retirement_adapters_agree config led rows tc w0 w p r :
  lib_ok w → _pool_for_class pow2 now rows tc true w0 = (w, Ok p) → r ∈ p.1 →
  get_version (row_key r).1 (row_key r).2 w = (w, Ok r.1.1) → sv_task_class r.1.1 = tc →
  (∃ s, get_status (row_key r).1 (row_key r).2 w = (w, Ok s)) → (∃ st, get_stats (row_key r).1 (row_key r).2 w = (w, Ok st)) →
  let bench := maybe_bench_on_contribution pow2 now (row_key r).1 (row_key r).2 config led in
  (is_nil (propose_retirements [rank_item r] config) = true → bench w = (w, Err LifecycleError)) ∧
  (is_nil (propose_retirements [rank_item r] config) = false → lifecycle_at (bench w).1 (row_key r) = Some lc_benched).
Proof.
  intros Hok Hp Hr Hv Htc [s Hs] [st Hst] bench. pose proof (pool_refreshed _ _ _ _ _ _ Hp Hr) as Hc. cbv zeta in Hc.
  set (smp := contribution_samples _ _ _ _ _) in Hc. pose proof (decisions_agree config smp r Hc) as Hd.
  unfold propose_retirements. simpl. rewrite app_nil_r, Hd.
  assert (∀ B (f : SkillStatus → SkillStats → SkillVersion → BinomialSample * BinomialSample → Contribution → LB B),
    (status ← get_status (row_key r).1 (row_key r).2; stats ← get_stats (row_key r).1 (row_key r).2;
     v ← get_version (row_key r).1 (row_key r).2; s ← samples_of (row_key r).1 (row_key r).2 (sv_task_class v);
     c ← contribution_of pow2 now s; f status stats v s c) w = f s st r.1.1 smp (sk_contribution r.2) w) as Eb.
  { intros B f. unfold mbind, M_bind. rewrite Hs, Hst, Hv. unfold samples_of, gets. rewrite Htc. unfold contribution_of, lift.
    fold smp. by rewrite Hc. }
  unfold bench, maybe_bench_on_contribution. rewrite Eb. set (d := bench_decision config smp (sk_contribution r.2)).
  destruct (should_retire d) eqn:Er; simpl; (split; intros Hn; [try done|try done]).
  - assert (bool_decide (rd_action d = below_floor) = false) as Hb.
    { unfold should_retire in Er. apply bool_decide_eq_true in Er. by rewrite Er. }
    unfold mbind at 1 2, M_bind. rewrite Hb. simpl.
    match goal with |- context [write_status ?x _] => set (bb := x) end.
    apply (get_status_Ok w w (row_key r)) in Hs as (_ & Hs & Hval). destruct (ok_status w Hok _ _ Hs) as [Hk _].
    assert (is_Some (lb_entries w !! (ss_skill_id bb, ss_version bb))) as Hi by (simpl; rewrite Hk; by apply status_entry with s).
    apply (bind_stays _ _ _ _ (put_status w bb) tt).
    + apply write_status_plain; [|done]. split_and!; [done|simpl; rewrite Hk; intros s0 Hs0; congruence| |done].
      intros x [= <-]. simpl. unfold lifecycle_at. by rewrite Hk, Hs.
    + keeps_tac; [apply stays_same, statuses_ablation|apply stays_same, statuses_write_stats|apply stays_ledger|apply stays_parents].
    + unfold lifecycle_at. rewrite status_put by done. by rewrite decide_True by (simpl; by rewrite Hk).
  - unfold mbind, M_bind. destruct (bool_decide _); done.
Qed.
End Bench.

(** *** Composite skills *)

Section Resolve.
Context `{LE : LibraryEnv} `{GE : GateEnv}.

Definition version_key (v : SkillVersion) : string * Z := (sv_skill_id v, sv_version v).
Definition usable (w : Library) (k : string * Z) : Prop :=
  ∃ s, status_at w k = Some s ∧ ss_lifecycle s = lc_approved ∧ ss_active s = true.
Definition stored (w : Library) (c : SkillVersion) : Prop := ∃ e, lb_entries w !! version_key c = Some e ∧ en_version e = c.
(** What one use of [v] leads to is resolved in [acc]. *)
Definition resolved (w : Library) (levels : nat) (acc : list SkillVersion) (u : SkillUse) : Prop :=
  ∀ p, chain w (use_key u) p → (length (use_key u :: p) < levels)%nat ∧
    Forall (λ k, usable w k ∧ ∃ c, c ∈ acc ∧ version_key c = k ∧ stored w c) (use_key u :: p).
Lemma resolved_weaken w levels acc acc' u : (∀ c, c ∈ acc → c ∈ acc') → resolved w levels acc u → resolved w levels acc' u.
Proof.
  intros Hs H p Hp. destruct (H p Hp) as [Hl HF]. split; [done|]. eapply Forall_impl; [exact HF|].
  intros k (Hu & c & Hc & Hk). simpl. eauto.
Qed.
Lemma add_resolved (w : Library) (acc : list SkillVersion) child :
  stored w child → Forall (stored w) acc →
  let acc1 := if bool_decide (version_key child ∈ map version_key acc) then acc else acc ++ [child] in
  Forall (stored w) acc1 ∧ (∀ c, c ∈ acc → c ∈ acc1) ∧ child ∈ acc1.
Proof.
  intros Hc Ha. case_bool_decide as Hin; simpl.
  - split_and!; [done|done|]. apply list_elem_of_fmap in Hin as (c & E & Hin). rewrite Forall_forall in Ha.
    destruct (Ha c Hin) as (e & He & Ev), Hc as (e' & He' & Ev'). rewrite E, He in He'. injection He' as <-. by rewrite <- Ev', Ev.
  - split_and!; [by apply Forall_app_2; [|constructor]|intros c Hc'; apply elem_of_app; by left|apply elem_of_app; right; left].
Qed.
Lemma resolve_walk_Ok levels v path acc w w' acc' :
  lib_ok w → Forall (stored w) acc → resolve_walk levels v path acc w = (w', Ok acc') →
  w' = w ∧ Forall (stored w) acc' ∧ (∀ c, c ∈ acc → c ∈ acc') ∧ (0 < levels)%nat ∧ Forall (resolved w levels acc') (sv_uses v).
Proof.
  intros Hok. revert v path acc acc' w'. induction levels as [|levels IH]; intros v path acc acc' w' Hacc; simpl;
    (case_bool_decide as Hcyc; [done|]); [done|]. set (key := (sv_skill_id v, sv_version v)).
  intros H. assert (∀ us acc, Forall (stored w) acc → ∀ acc' w', foldM (λ acc u,
    child ← get_version (us_skill_id u) (us_version u); status ← get_status (us_skill_id u) (us_version u);
    _ ← guard (negb (bool_decide (ss_lifecycle status = lc_quarantined))) CompositionError;
    _ ← guard (bool_decide (ss_lifecycle status = lc_approved) && ss_active status) CompositionError;
    let ck := (sv_skill_id child, sv_version child) in
    let acc := if bool_decide (ck ∈ map (λ c, (sv_skill_id c, sv_version c)) acc) then acc else acc ++ [child] in
    resolve_walk levels child (path ++ [key]) acc) acc us w = (w', Ok acc') →
    w' = w ∧ Forall (stored w) acc' ∧ (∀ c, c ∈ acc → c ∈ acc') ∧ Forall (resolved w (S levels) acc') us) as Hfold.
  2:{ destruct (Hfold _ _ Hacc _ _ H) as (-> & A & B & C). split_and!; [done|done|done|lia|done]. }
  clear H acc acc' w' Hacc. induction us as [|u us IHu]; intros acc Hacc acc' w'; simpl.
  { intros [= <- <-]. split_and!; [done|done|done|constructor]. }
  intros H. apply M_bind_Ok in H as (acc2 & w2 & H1 & H).
  apply M_bind_Ok in H1 as (child & w1 & Hv & H1). apply get_version_Ok in Hv as (-> & e & He & <-).
  apply M_bind_Ok in H1 as (s & w1 & Hs & H1). apply (get_status_Ok w w1 (use_key u)) in Hs as (-> & Hs & _).
  apply M_bind_Ok in H1 as (u1 & w1 & [-> _]%guard_Ok & H1).
  apply M_bind_Ok in H1 as (u2 & w1 & [-> [Ha%bool_decide_eq_true Hact]%andb_true_iff]%guard_Ok & H1).
  destruct (ok_entries w Hok _ e He) as (_ & Ek & _).
  assert (stored w (en_version e)) as Hst by (exists e; unfold version_key; by rewrite Ek).
  destruct (add_resolved w acc (en_version e) Hst Hacc) as (A1 & A2 & A3).
  destruct (IH _ _ _ _ _ A1 H1) as (-> & B1 & B2 & B3 & B4). destruct (IHu _ B1 _ _ H) as (-> & C1 & C2 & C3).
  split_and!; [done|done|intros c Hc; by apply C2, B2, A2|]. constructor; [|done].
  apply (resolved_weaken _ _ acc2); [done|]. intros p Hp.
  assert (usable w (use_key u) ∧ ∃ c, c ∈ acc2 ∧ version_key c = use_key u ∧ stored w c) as Hu.
  { split; [by exists s|]. exists (en_version e). split_and!; [by apply B2|by unfold version_key, use_key; rewrite Ek|done]. }
  inversion Hp as [|k k' q (e' & He' & Hin) Hq]; subst; [split; [simpl; lia|by constructor]|].
  unfold use_key in He'. rewrite He in He'. injection He' as <-. apply list_elem_of_fmap in Hin as (u' & -> & Hin).
  rewrite Forall_forall in B4. destruct (B4 u' Hin q Hq) as [Hl HF]. simpl in *. split; [lia|by constructor].
Qed.

(** A composite skill that resolves leads nowhere deep: every chain of uses
    visits at most three versions, and everything on it is stored, approved,
    active and in the result; resolving writes nothing. *)
Theorem resolve_uses_sound v w w' acc :
  lib_ok w → resolve_uses v 0 w = (w', Ok acc) →
  w' = w ∧ ∀ u p, u ∈ sv_uses v → chain w (use_key u) p →
    (length (use_key u :: p) ≤ 3)%nat ∧
    Forall (λ k, usable w k ∧ ∃ c, c ∈ acc ∧ version_key c = k ∧ stored w c) (use_key u :: p).
Proof.
  intros Hok H. unfold resolve_uses in H. change (MAX_DEPTH <? 0) with false in H. change (Z.to_nat (MAX_DEPTH + 1 - 0)) with 4%nat in H. apply resolve_walk_Ok in H as (-> & _ & _ & _ & HF); [|done|constructor].
  split; [done|]. intros u p Hu Hp. rewrite Forall_forall in HF. destruct (HF u Hu p Hp) as [Hl Hk]. split; [lia|done].
Qed.
End Resolve.

(** ** Witnesses *)

Definition demo_config : AutonomyConfig := mkAutonomy 2 3 (dec 5 100) 2 3 f0 3 3 5 (dec 85 100).
(** The child in shadow, with runs of it in both arms. *)
Definition demo_shadow : Library :=
  set_status (new_status "child" 1 lc_shadow) demo_queued <| lb_evals := demo_trials "child" 9 0 0 9 |>.
Definition demo_advanced : Library :=
  (@maybe_advance_shadow_to_candidate demo_env demo_gate pow2_demo 7 "child" 1 demo_config ledger_up demo_shadow).1.
Lemma advance_needs_evidence_witness :
  ss_lifecycle (new_status "child" 1 lc_candidate) = lc_candidate ∧ lifecycle_at demo_advanced ("child", 1) = Some lc_candidate.
Proof.
  split; [|vm_compute; reflexivity].
  refine (proj1 (@advance_needs_evidence demo_env demo_gate pow2_demo 7 "child" 1 demo_config ledger_up demo_shadow demo_advanced
    (new_status "child" 1 lc_candidate) _)).
  vm_compute. reflexivity.
Defined.
Definition demo_quarantined : Library := set_status (new_status "child" 1 lc_quarantined) demo_queued.
Lemma demo_quarantined_ok : @lib_ok demo_env demo_quarantined.
Proof. apply lib_ok_put; [exact demo_library_ok|]. by split. Qed.
Lemma tool_upgrade_revives_all_witness :
  lifecycle_at demo_quarantined ("child", 1) = Some lc_quarantined ∧
  lifecycle_at (@recertify_stale demo_env (Some "ruff 2") demo_quarantined).1 ("child", 1) = Some lc_needs_recert.
Proof.
  split; [vm_compute; reflexivity|].
  assert (∃ l, @iter_loaded demo_env demo_quarantined = (demo_quarantined, Ok l)) as [l El] by (eexists; vm_compute; reflexivity).
  assert (∃ e, lb_entries demo_quarantined !! ("child", 1) = Some e) as [e Ee] by (eexists; vm_compute; reflexivity).
  destruct (@tool_upgrade_revives_all demo_env "ruff 2" demo_quarantined l ltac:(discriminate) demo_quarantined_ok El)
    as (w' & ps & E & H).
  rewrite E. exact (H _ e Ee).
Defined.
(** The child fails in its own runs and the task succeeds without it. *)
Definition demo_harmful : Library := demo_queued <| lb_evals := demo_trials "child" 0 9 9 0 |>.
Definition demo_child_rows : list row :=
  match (@iter_loaded demo_env demo_harmful).2 with
  | Ok l => List.filter (λ r : row, bool_decide (row_key r = ("child", 1))) l
  | Err _ => []
  end.
Definition demo_refreshed : Library :=
  (_pool_for_class pow2_demo 7 demo_child_rows "repo-chore" true demo_harmful).1.
Lemma demo_refreshed_ok : @lib_ok demo_env demo_refreshed.
Proof.
  apply (le_ok _ _ _ (@keeps_pool demo_env pow2_demo 7 (λ _, True) demo_child_rows "repo-chore" true demo_harmful)).
  by apply (@lib_le_same demo_env (λ _, True) demo_queued), demo_library_ok.
Qed.
Definition demo_pool : list row * list row :=
  match (_pool_for_class pow2_demo 7 demo_child_rows "repo-chore" true demo_harmful).2 with Ok p => p | Err _ => ([], []) end.
Definition demo_child : row := nth 0 demo_pool.1 (demo_row "none").
Lemma retirement_adapters_agree_witness :
  lifecycle_at (@maybe_bench_on_contribution demo_env pow2_demo 7 "child" 1 demo_config ledger_none demo_refreshed).1 ("child", 1)
  = Some lc_benched.
Proof.
  refine (proj2 (@retirement_adapters_agree demo_env pow2_demo 7 demo_config ledger_none demo_child_rows "repo-chore" demo_harmful
    demo_refreshed demo_pool demo_child demo_refreshed_ok _ _ _ _ _ _) _).
  - vm_compute. reflexivity.
  - vm_compute. left.
  - vm_compute. reflexivity.
  - vm_compute. reflexivity.
  - eexists. vm_compute. reflexivity.
  - eexists. vm_compute. reflexivity.
  - vm_compute. reflexivity.
Defined.
Lemma resolve_uses_sound_witness :
  ∃ acc, @resolve_uses demo_env (demo_version "p1" [] [mkSkillUse "child" 1]) 0 demo_queued = (demo_queued, Ok acc) ∧ acc ≠ [] ∧
    usable demo_queued ("child", 1).
Proof.
  assert (∃ c, @resolve_uses demo_env (demo_version "p1" [] [mkSkillUse "child" 1]) 0 demo_queued = (demo_queued, Ok [c])) as [c E]
    by (eexists; vm_compute; reflexivity).
  exists [c]. split; [exact E|]. split; [discriminate|].
  pose proof (proj2 (@resolve_uses_sound demo_env (demo_version "p1" [] [mkSkillUse "child" 1]) demo_queued demo_queued [c] demo_library_ok E)
    (mkSkillUse "child" 1) [] (list_elem_of_here _ _) (chain_nil _ _)) as [_ H].
  exact (proj1 (Forall_inv H)).
Defined.
