(* ===== verification/Promotion.v ===== *)
(** * Promotion through the golden gate (review/promotion.py, promotion_audit.py)

    [promote_to_approved] in the two halves around the gate: what it reads
    before, the gate itself (anything may happen to the library while it runs),
    and the decision after.  A refusal is a value, decision-only as the source
    requires.  Fixture discovery and path resolution are the file system's and
    stay parameters ([GoldenFS]); a path is a string in pathlib's form. *)
From S2P Require Import Prelude PyStr Budgets Contracts Skills EvalStore Library SkillGates Portfolio Lifecycle.
From Stdlib Require Import ZArith Lia.
Open Scope Z_scope.

Class GoldenFS := {
  fs_resolve : string → string;
  fs_exists : string → bool;
  discovered : SkillVersion → SkillVersion → list string;   (* predecessor, candidate: fixtures found under the golden root *)
  log_elsewhere : string → option LogFile                   (* a golden_set_ref read as a path *)
}.

Definition all_passed (results : list GoldenResult) : bool := negb (is_nil results) && forallb gr_passed results.
Inductive GateOutcome := gate_report (results : list GoldenResult) | gate_error.
(** [PromotionError]'s three attributes. *)
Record Refusal := mkRefusal { rf_kind : option RefusalKind; rf_failing_count : Z; rf_audit_ref : option string }.
Definition plain_refusal : Refusal := mkRefusal None 0 None.
Definition Sink : Type := AuditEntry → LB string.

(** promotion_audit.py: [OperatorAuditStore.record] and [read]; [fresh] is the
    hex of a new UUID; [None] when the database cannot be written. *)
Definition AuditSinkUnavailable : exn := PyError "AuditSinkUnavailable".
Definition operator_record (fresh : option string) : Sink := λ entry,
  match fresh with
  | None => raise AuditSinkUnavailable
  | Some hex =>
      let audit_ref := "pa-" +:+ hex in
      seen ← gets (λ w, bool_decide (audit_ref ∈ map fst (lb_audit w)));
      _ ← guard (negb seen) AuditSinkUnavailable;
      _ ← modify (λ w, w <| lb_audit := lb_audit w ++ [(audit_ref, entry)] |>);
      mret audit_ref
  end.
Definition operator_read (w : Library) (audit_ref : string) : option AuditEntry :=
  snd <$> find_first (λ r : string * AuditEntry, String.eqb r.1 audit_ref) (lb_audit w).

Section Promotion.
Context `{LE : LibraryEnv} `{GE : GateEnv} `{FS : GoldenFS} (now : datetime).

(** ** The predecessor and what it passed *)

Fixpoint approved_priors (ks : list (string * Z)) (v : SkillVersion) : LB (list Z) :=
  match ks with
  | [] => mret []
  | (id, n) :: ks' =>
      if negb (String.eqb id (sv_skill_id v)) || (sv_version v <=? n) then approved_priors ks' v
      else
        s ← or_missing (get_status id n);
        rest ← approved_priors ks' v;
        mret (match s with
              | Some s => if bool_decide (ss_lifecycle s = lc_approved) then n :: rest else rest
              | None => rest
              end)
  end.
Definition predecessor_version (v : SkillVersion) : LB (option SkillVersion) :=
  match sv_supersedes v with
  | Some m => or_missing (get_version (sv_skill_id v) m)
  | None =>
      ks ← gets list_versions;
      prior ← approved_priors ks v;
      match prior with
      | [] => mret None
      | m :: ms => p ← get_version (sv_skill_id v) (foldr Z.max m ms); mret (Some p)
      end
  end.
Definition log_name (id : string) (n : Z) : string := id +:+ "-v" +:+ pretty n +:+ ".json".
Definition passed_in (l : LogFile) : list string :=
  match l with
  | refusal_log _ _ _ => []
  | report_log rs => flat_map (λ r, if gr_passed r && negb (String.eqb (gr_golden_path r) "") then [gr_golden_path r] else []) rs
  end.
Definition _passed_dirs_from_log (golden_set_ref : option string) (id : string) (n : Z) (w : Library) : list string :=
  match lb_logs w !! log_name id n with
  | Some l => passed_in l
  | None =>
      match golden_set_ref with
      | Some r => if String.eqb r "" then [] else default [] (passed_in <$> log_elsewhere r)
      | None => []
      end
  end.
Definition path_key (p : string) : string := if fs_exists p then fs_resolve p else p.
Definition add_dir (dirs : list string) (p : string) : list string :=
  if bool_decide (path_key p ∈ map path_key dirs) then dirs else dirs ++ [p].
Definition _predecessor_golden_dirs (v : SkillVersion) : LB (list string) :=
  pred ← predecessor_version v;
  match pred with
  | None => mret []
  | Some pred =>
      s ← or_missing (get_status (sv_skill_id pred) (sv_version pred));
      logged ← gets (λ w, match s with
        | Some s => _passed_dirs_from_log (ce_golden_set_ref (ss_certification s)) (sv_skill_id pred) (sv_version pred) w
        | None => [] end);
      mret (foldl add_dir [] (logged ++ discovered pred v))
  end.

(** ** Before the gate

    What [promote_to_approved] holds in its locals while the gate runs: its two
    arguments, the documents it read and the predecessor's fixtures it computed
    from them. *)
Record Promoting := mkPromoting {
  pg_skill_id : string; pg_version : Z; pg_document : SkillVersion; pg_stats : SkillStats; pg_golden_dirs : list string }.
Definition promote_begin (id : string) (n : Z) : LB (Promoting + Refusal) :=
  ver ← get_version id n;
  status ← get_status id n;
  stats ← get_stats id n;
  violations ← lint_skill ver (status <| ss_lifecycle := lc_candidate |>) (Some stats);
  if negb (is_nil violations) then mret (inr plain_refusal)
  else
    applicability ← refuse_if_inapplicable ver ledger_none;
    if negb (ap_ok applicability) then mret (inr plain_refusal)
    else extra_dirs ← _predecessor_golden_dirs ver; mret (inl (mkPromoting id n ver stats extra_dirs)).

(** ** After the gate *)

(** Paths the predecessor passed that the report does not show passed. *)
Definition result_at (rs : list GoldenResult) (key : string) : option GoldenResult :=
  foldl (λ acc r, if negb (String.eqb (gr_golden_path r) "") && String.eqb (fs_resolve (gr_golden_path r)) key then Some r else acc)
    None rs.
Definition passed_at (rs : list GoldenResult) (dir : string) : bool :=
  match result_at rs (path_key dir) with Some r => gr_passed r | None => false end.
Definition path_name (p : string) : string := default "" (last (path_parts p)).
Definition or_str (a b : string) : string := if String.eqb a "" then b else a.
Definition _predecessor_regressions (dirs : list string) (rs : list GoldenResult) : list string :=
  map (λ d, or_str (path_name d) d) (List.filter (λ d, negb (passed_at rs d)) dirs).
Definition failing_names (rs : list GoldenResult) (regressions : list string) : list string :=
  let own := map (λ r, or_str (path_name (gr_golden_path r)) (gr_skill_id r)) (List.filter (λ r, negb (gr_passed r)) rs) in
  foldl (λ acc name, if bool_decide (name ∈ acc) then acc else acc ++ [name]) own regressions.

(** [_record_refusal]: any failure of the sink, or an empty reference, refuses
    as audit_unavailable; otherwise the decision-only log is written. *)
Definition refuse (sink : Sink) (entry : AuditEntry) (failing : Z) : LB (SkillStatus + Refusal) :=
  r ← catch (x ← sink entry; mret (Some x)) (λ _, mret None);
  match r with
  | Some audit_ref =>
      if String.eqb audit_ref "" then mret (inr (mkRefusal (Some audit_unavailable) 0 None))
      else
        _ ← modify (λ w, w <| lb_logs := <[log_name (ae_skill_id entry) (ae_version entry) :=
                                              refusal_log (ae_refusal_kind entry) failing audit_ref]> (lb_logs w) |>);
        mret (inr (mkRefusal (Some (ae_refusal_kind entry)) failing (Some audit_ref)))
  | None => mret (inr (mkRefusal (Some audit_unavailable) 0 None))
  end.
Definition gate_passes (extra_dirs : list string) (rs : list GoldenResult) : bool :=
  all_passed rs && is_nil (_predecessor_regressions extra_dirs rs).
(** The lifecycles the last check names; "retired" is not a lifecycle. *)
Definition _MOVED_DURING_GATE : list Lifecycle := [lc_quarantined; lc_benched; lc_needs_recert].
Definition promotion_write (s : SkillStatus) : LB unit :=
  if negb (bool_decide (ss_lifecycle s = lc_approved)) then raise (PyError "PromotionError") else _write_status_unchecked s.
Definition promote_finish (p : Promoting) (sink : Sink)
    (model_validated_on : string) (tool_fingerprint : list (string * string)) (golden_ref : string) (g : GateOutcome)
    : LB (SkillStatus + Refusal) :=
  let '(mkPromoting id n ver stats extra_dirs) := p in
  match g with
  | gate_error => refuse sink (mkAuditEntry id n gate_error_kind [] []) 0
  | gate_report rs =>
      let regressions := _predecessor_regressions extra_dirs rs in
      if negb (gate_passes extra_dirs rs) then
        let failing := failing_names rs regressions in
        refuse sink (mkAuditEntry id n (if is_nil regressions then golden_gate else predecessor_non_regression) failing rs)
          (Z.of_nat (length failing))
      else
        _ ← modify (λ w, w <| lb_logs := <[log_name id n := report_log rs]> (lb_logs w) |>);
        let approved := assign_active_on_approval
          (mkStatus id n lc_approved false
             (mkCertification (Some model_validated_on) tool_fingerprint (Some golden_ref) (Some now) rc_fresh) no_retirement)
          (Some ver) (Some stats) in
        violations ← lint_skill ver approved (Some stats);
        if negb (is_nil violations) then mret (inr plain_refusal)
        else
          current ← get_status id n;
          if bool_decide (ss_lifecycle current ∈ _MOVED_DURING_GATE) then mret (inr plain_refusal)
          else _ ← promotion_write approved; mret (inl approved)
  end.

Definition promote_to_approved (id : string) (n : Z) (audit : option Sink) (run_gate : SkillVersion → list string → LB GateOutcome)
    (model_validated_on : string) (tool_fingerprint : list (string * string)) (golden_ref : string) : LB (SkillStatus + Refusal) :=
  match audit with
  | None => mret (inr (mkRefusal (Some audit_unavailable) 0 None))
  | Some sink =>
      b ← promote_begin id n;
      match b with
      | inr r => mret (inr r)
      | inl p =>
          g ← run_gate (pg_document p) (pg_golden_dirs p);
          promote_finish p sink model_validated_on tool_fingerprint golden_ref g
      end
  end.
End Promotion.

(** ** Theorems *)

Section Theorems.
Context `{LE : LibraryEnv} `{GE : GateEnv} `{FS : GoldenFS} (now : datetime).

(** *** Lint only reads *)

Lemma keeps_walk R `{!PreOrder R} levels id n path : keeps R (walk_uses levels id n path).
Proof.
  revert id n path. induction levels as [|levels IH]; intros id n path; simpl; keeps_tac.
Qed.
Lemma keeps_resolve_check R `{!PreOrder R} uses : keeps R (_check_uses_resolve uses).
Proof. induction uses as [|u uses IH]; simpl; keeps_tac. Qed.
Lemma keeps_child_claims R `{!PreOrder R} uses : keeps R (child_claims uses).
Proof. induction uses as [|u uses IH]; simpl; keeps_tac. Qed.
Hint Resolve keeps_walk keeps_resolve_check keeps_child_claims : recertia_keeps.
Lemma keeps_lint R `{!PreOrder R} v s st : keeps R (lint_skill v s st).
Proof. unfold lint_skill, lint_report, _check_uses_acyclic, _check_composed_claims. keeps_tac. Qed.
Lemma keeps_applicability R `{!PreOrder R} v : keeps R (refuse_if_inapplicable v ledger_none).
Proof. unfold refuse_if_inapplicable, check_applicability. simpl. keeps_tac. Qed.
Lemma keeps_priors R `{!PreOrder R} ks v : keeps R (approved_priors ks v).
Proof. induction ks as [|[id n] ks IH]; simpl; keeps_tac. Qed.
Hint Resolve keeps_lint keeps_applicability keeps_priors : recertia_keeps.
Lemma keeps_golden_dirs R `{!PreOrder R} v : keeps R (_predecessor_golden_dirs v).
Proof. unfold _predecessor_golden_dirs, predecessor_version. keeps_tac. Qed.
Hint Resolve keeps_golden_dirs : recertia_keeps.
Lemma keeps_begin R `{!PreOrder R} id n : keeps R (promote_begin id n).
Proof. unfold promote_begin. keeps_tac. Qed.

(** *** The decision *)

Lemma keeps_catch R `{!PreOrder R} {A} (m : LB A) h : keeps R m → (∀ e, keeps R (h e)) → keeps R (catch m h).
Proof.
  intros Hm Hh w. specialize (Hm w). unfold catch. destruct (m w) as [w1 [a|e]]; [done|]. etrans; [exact Hm|apply Hh].
Qed.
Lemma keeps_refuse P sink entry failing : (∀ e, keeps (lib_le P) (sink e)) → keeps (lib_le P) (refuse sink entry failing).
Proof.
  intros Hs. unfold refuse. apply keeps_bind; [apply _| |].
  - apply keeps_catch; [apply _|keeps_tac|keeps_tac].
  - intros r. keeps_tac. by apply keeps_modify_aux.
Qed.
Lemma keeps_operator P fresh e : keeps (lib_le P) (operator_record fresh e).
Proof. unfold operator_record. keeps_tac. by apply keeps_modify_aux. Qed.
Definition gate_approves (p : Promoting) (g : GateOutcome) (k : string * Z) : Prop :=
  k = (pg_skill_id p, pg_version p) ∧ ∃ rs, g = gate_report rs ∧ gate_passes (pg_golden_dirs p) rs = true.
Lemma keeps_finish P p sink a b c g :
  (∀ e, keeps (lib_le P) (sink e)) → (∀ k, gate_approves p g k → P k) →
  keeps (lib_le P) (promote_finish now p sink a b c g).
Proof.
  destruct p as [id n ver stats dirs]. intros Hs Hp. unfold promote_finish. destruct g as [rs|]; [|by apply keeps_refuse].
  destruct (gate_passes dirs rs) eqn:Eg; simpl; [|by apply keeps_refuse].
  apply keeps_bind; [apply _|by apply keeps_modify_aux|]. intros u. keeps_tac. unfold promotion_write. keeps_tac.
  apply keeps_unchecked; [|intros _; apply Hp].
  - intros _. simpl. unfold assign_active_on_approval. done.
  - split; [done|]. by exists rs.
Qed.

Lemma regressions_nil dirs rs : is_nil (_predecessor_regressions dirs rs) = true ↔ ∀ d, d ∈ dirs → passed_at rs d = true.
Proof.
  unfold _predecessor_regressions. split.
  - intros Hn d Hd. destruct (passed_at rs d) eqn:Ep; [done|].
    assert (d ∈ List.filter (λ d, negb (passed_at rs d)) dirs) as Hin by (apply elem_of_lfilter; by rewrite Ep).
    destruct (List.filter _ dirs); [by apply elem_of_nil in Hin|done].
  - intros H. destruct (List.filter (λ d, negb (passed_at rs d)) dirs) as [|d l] eqn:El; [done|].
    assert (d ∈ List.filter (λ d, negb (passed_at rs d)) dirs) as Hin by (rewrite El; left).
    apply elem_of_lfilter in Hin as [Hp Hd]. by rewrite H in Hp.
Qed.
Definition approved_status (id : string) (n : Z) (ver : SkillVersion) (stats : SkillStats) (model : string)
    (tools : list (string * string)) (ref : string) : SkillStatus :=
  mkStatus id n lc_approved (live_mix_eligible ver (Some stats)) (mkCertification (Some model) tools (Some ref) (Some now) rc_fresh) no_retirement.

(** What the predecessor counts as having passed when a promotion of [v] looks:
    the fixtures its promotion log (or the file its certificate names) lists as
    passed at that moment, and those found for it under the golden root. *)
Definition predecessor_fixture (w : Library) (v : SkillVersion) (d : string) : Prop :=
  ∃ pred, predecessor_version v w = (w, Ok (Some pred)) ∧
    (d ∈ discovered pred v ∨
     ∃ s, status_at w (sv_skill_id pred, sv_version pred) = Some s ∧
       d ∈ _passed_dirs_from_log (ce_golden_set_ref (ss_certification s)) (sv_skill_id pred) (sv_version pred) w).
Lemma add_dir_in acc p d : d ∈ acc ∨ path_key d = path_key p → ∃ d', d' ∈ add_dir acc p ∧ path_key d' = path_key d.
Proof.
  unfold add_dir. case_bool_decide as Hp; intros [Hd|Hd].
  - by exists d.
  - apply list_elem_of_fmap in Hp as (q & Hq & Hin). exists q. by rewrite <- Hq, Hd.
  - exists d. split; [apply elem_of_app; by left|done].
  - exists p. split; [apply elem_of_app; right; by left|done].
Qed.
Lemma add_dirs_in ps acc d : d ∈ acc ++ ps → ∃ d', d' ∈ foldl add_dir acc ps ∧ path_key d' = path_key d.
Proof.
  revert acc d. induction ps as [|p ps IH]; intros acc d Hd; simpl; [rewrite app_nil_r in Hd; by exists d|].
  assert (∃ d', d' ∈ add_dir acc p ∧ path_key d' = path_key d ∨ d' ∈ ps ∧ d' = d) as (d' & [[Hin Hk]|[Hin ->]]).
  - apply elem_of_app in Hd as [Hd|Hd]; [|apply elem_of_cons in Hd as [->|Hd]].
    + destruct (add_dir_in acc p d) as (d' & ? & ?); [by left|]. exists d'. by left.
    + destruct (add_dir_in acc p p) as (d' & ? & ?); [by right|]. exists d'. by left.
    + exists d. by right.
  - destruct (IH (add_dir acc p) d') as (x & Hx & Ek); [apply elem_of_app; by left|]. exists x. by rewrite Ek.
  - apply IH, elem_of_app. by right.
Qed.
Lemma passed_at_key rs d d' : path_key d = path_key d' → passed_at rs d = passed_at rs d'.
Proof. unfold passed_at. by intros ->. Qed.
Lemma status_missing w id n o : or_missing (get_status id n) w = (w, Ok o) → o = status_at w (id, n).
Proof.
  unfold or_missing. destruct (get_status id n w) as [w1 [x|e]] eqn:E.
  - intros [= -> <-]. by apply (get_status_Ok w w (id, n)) in E as (_ & E & _).
  - revert E. unfold get_status, status_at, entry_at, gets, lift, read_status. unfold mbind at 1, M_bind.
    destruct (lb_entries w !! (id, n)) as [x|]; simpl; [|intros [= <- <-]; by intros [= <-]].
    destruct (en_status x) as [s0|]; simpl; [|intros [= <- <-]; by intros [= <-]].
    destruct (_active_requires_retrievable_lifecycle s0); [done|]. intros [= <- <-]. by case_bool_decide.
Qed.
(** Every fixture the predecessor counts as having passed is among the
    directories the promotion carries, up to the path's key. *)
Lemma golden_dirs_cover v w w' dirs d :
  _predecessor_golden_dirs v w = (w', Ok dirs) → predecessor_fixture w v d → ∃ d', d' ∈ dirs ∧ path_key d' = path_key d.
Proof.
  intros H (pred & Hp & Hd). unfold _predecessor_golden_dirs in H. unfold mbind at 1, M_bind in H. rewrite Hp in H.
  apply M_bind_Ok in H as (o & w1 & Ho & H).
  apply reads_Ok in Ho as Hw; [|unfold or_missing; keeps_tac]. subst w1. apply status_missing in Ho as ->.
  unfold gets in H. unfold mbind, M_bind in H. injection H as _ <-. apply add_dirs_in. simpl. apply elem_of_app.
  destruct Hd as [Hd|(s & -> & Hd)]; [by right|by left].
Qed.
Lemma gate_covers v w w' dirs rs d :
  _predecessor_golden_dirs v w = (w', Ok dirs) → (∀ d, d ∈ dirs → passed_at rs d = true) → predecessor_fixture w v d →
  passed_at rs d = true.
Proof.
  intros Hd Hp Hf. destruct (golden_dirs_cover v w w' dirs d Hd Hf) as (d' & Hin & Ek).
  rewrite <- (passed_at_key rs d' d Ek). by apply Hp.
Qed.
(** What a promotion holds while its gate runs is what it read. *)
Lemma begin_holds id n w w' p :
  promote_begin id n w = (w', Ok (inl p)) →
  w' = w ∧ pg_skill_id p = id ∧ pg_version p = n ∧ get_version id n w = (w, Ok (pg_document p)) ∧
  _predecessor_golden_dirs (pg_document p) w = (w, Ok (pg_golden_dirs p)).
Proof.
  intros H. assert (w' = w) as -> by (eapply reads_Ok; [|exact H]; apply keeps_begin; apply _). split; [done|].
  unfold promote_begin in H.
  apply M_bind_Ok in H as (ver & w1 & Hv & H). destruct (get_version_Ok _ _ _ _ _ Hv) as [-> _].
  apply M_bind_Ok in H as (st & w1 & Hs & H). apply reads_Ok in Hs as ->; [|keeps_tac].
  apply M_bind_Ok in H as (stats & w1 & Hs & H). apply reads_Ok in Hs as ->; [|keeps_tac].
  apply M_bind_Ok in H as (vs & w1 & Hl & H). apply reads_Ok in Hl as ->; [|apply keeps_lint; apply _].
  destruct (is_nil vs); simpl in H; [|done].
  apply M_bind_Ok in H as (ap & w1 & Hl & H). apply reads_Ok in Hl as ->; [|apply keeps_applicability; apply _].
  destruct (ap_ok ap); simpl in H; [|done].
  apply M_bind_Ok in H as (dirs & w1 & Hd & H). apply reads_Ok in Hd as Hw; [|apply keeps_golden_dirs; apply _]. subst w1.
  by injection H as <-.
Qed.
Lemma refuse_refuses sink e f w w' s : refuse sink e f w = (w', Ok (inl s)) → False.
Proof.
  unfold refuse. intros H. apply M_bind_Ok in H as ([r|] & w1 & _ & H); [|done].
  destruct (String.eqb r ""); [done|]. by apply M_bind_Ok in H as (? & ? & _ & H).
Qed.
Lemma finish_approves p sink model tools ref g w w' s :
  promote_finish now p sink model tools ref g w = (w', Ok (inl s)) → let k := (pg_skill_id p, pg_version p) in
  ∃ rs cur, g = gate_report rs ∧ all_passed rs = true ∧ (∀ d, d ∈ pg_golden_dirs p → passed_at rs d = true) ∧
    status_at w k = Some cur ∧ ss_lifecycle cur ∉ [lc_quarantined; lc_benched; lc_needs_recert] ∧
    s = approved_status k.1 k.2 (pg_document p) (pg_stats p) model tools ref ∧ status_at w' k = Some s ∧
    ∀ k', k' ≠ k → status_at w' k' = status_at w k'.
Proof.
  destruct p as [id n ver stats dirs]. simpl. destruct g as [rs|]; [|by intros H%refuse_refuses].
  destruct (gate_passes dirs rs) eqn:Eg; simpl; [|by intros H%refuse_refuses].
  intros H. apply M_bind_Ok in H as (u & w1 & Hm & H). injection Hm as <- _.
  apply M_bind_Ok in H as (vs & w2 & Hl & H). apply reads_Ok in Hl as ->; [|apply keeps_lint; apply _].
  destruct (is_nil vs); simpl in H; [|done]. apply M_bind_Ok in H as (cur & w3 & Hc & H).
  apply (get_status_Ok _ w3 (id, n)) in Hc as (-> & Hc & _). case_bool_decide as Hm; [done|].
  apply M_bind_Ok in H as (u1 & w3 & Hw & H). injection H as -> <-. unfold gate_passes in Eg. apply andb_true_iff in Eg as [E1 E2].
  exists rs, cur. split_and!; [done|done|by apply regressions_nil|done|done|done| |].
  all: unfold promotion_write in Hw; simpl in Hw; rewrite unchecked_spec in Hw;
    destruct (lb_entries _ !! _) eqn:He in Hw; [|done]; injection Hw as <- _.
  - rewrite status_put by (by eexists). by rewrite decide_True.
  - intros k Hk. rewrite status_put by (by eexists). by rewrite decide_False.
Qed.

(** C40: A promotion that succeeds had a sink, read the stored version, and ran its
    gate with the predecessor's fixtures: the report is not empty, every
    fixture in it passed, and so did each one that the predecessor's promotion
    log listed as passed when the promotion began, or that was found for the
    predecessor under the golden root; when the gate ended the version was not
    quarantined, benched or in need of recertification, whatever the gate did
    to the library.  What is written is a fresh certificate, active exactly
    when the version may enter the live mix, and no other version's status
    moves after the gate. *)
Theorem promotion_needs_gate id n audit run_gate model tools ref w w' s :
  promote_to_approved now id n audit run_gate model tools ref w = (w', Ok (inl s)) →
  ∃ ver dirs stats w1 rs cur, is_Some audit ∧ get_version id n w = (w, Ok ver) ∧
    run_gate ver dirs w = (w1, Ok (gate_report rs)) ∧
    all_passed rs = true ∧ (∀ d, predecessor_fixture w ver d → passed_at rs d = true) ∧
    status_at w1 (id, n) = Some cur ∧ ss_lifecycle cur ∉ [lc_quarantined; lc_benched; lc_needs_recert] ∧
    s = approved_status id n ver stats model tools ref ∧ status_at w' (id, n) = Some s ∧
    ∀ k, k ≠ (id, n) → status_at w' k = status_at w1 k.
Proof.
  unfold promote_to_approved. destruct audit as [sink|]; [|done]. intros H.
  apply M_bind_Ok in H as ([p|r] & w0 & Hb & H); [|done].
  apply begin_holds in Hb as (-> & Ei & En & Hv & Hd). apply M_bind_Ok in H as (g & w1 & Hg & H).
  apply finish_approves in H as (rs & cur & -> & Ha & Hp & Hc & Hl & Hs & Hs' & Ho). rewrite Ei, En in *. simpl in *.
  exists (pg_document p), (pg_golden_dirs p), (pg_stats p), w1, rs, cur. split_and!; try done.
  intros d. by apply (gate_covers _ _ _ _ _ _ Hd).
Qed.

(** And the gate is all it takes: whatever lifecycle but those three the
    version has when the gate ends - draft, shadow, or deprecated, which the
    specification calls terminal - a passing report approves it. *)
Theorem gate_is_enough p sink model tools ref rs w cur :
  let id := pg_skill_id p in let n := pg_version p in let ver := pg_document p in
  (∀ v, json_sha256 v ≠ "") → lib_ok w → get_version id n w = (w, Ok ver) → status_at w (id, n) = Some cur →
  ss_lifecycle cur ∉ [lc_quarantined; lc_benched; lc_needs_recert] → gate_passes (pg_golden_dirs p) rs = true →
  ∃ w', promote_finish now p sink model tools ref (gate_report rs) w =
    (w', Ok (inl (approved_status id n ver (pg_stats p) model tools ref))) ∧ lifecycle_at w' (id, n) = Some lc_approved.
Proof.
  destruct p as [id n ver stats dirs]. simpl. intros Hd Hok Hv Hs Hl Hg. rewrite Hg. simpl.
  apply get_version_Ok in Hv as (_ & e & He & <-). set (w1 := w <| lb_logs := <[log_name id n := report_log rs]> (lb_logs w) |>).
  assert (lib_ok w1) as Hok1 by by apply (lib_le_same (λ _, False) w).
  unfold mbind at 1, M_bind. unfold modify. fold w1. unfold mbind at 1, M_bind.
  rewrite lint_stamped; [|done|by apply (ok_entries w Hok (id, n))]. simpl. unfold mbind at 1, M_bind.
  assert (get_status id n w1 = (w1, Ok cur)) as Ec
    by (apply (get_status_Ok w1 w1 (id, n)); split_and!; [done|done|by apply (lib_ok_valid w (id, n))]).
  rewrite Ec.
  rewrite bool_decide_false by done. unfold promotion_write. simpl. unfold mbind, M_bind. rewrite unchecked_spec. simpl. rewrite He.
  eexists. split; [done|]. unfold lifecycle_at. rewrite status_put by (by exists e). by rewrite decide_True.
Qed.

(** *** Refusals *)

Lemma refuse_operator fresh entry failing w w' r ref :
  refuse (operator_record fresh) entry failing w = (w', Ok (inr r)) → rf_audit_ref r = Some ref →
  operator_read w' ref = Some entry ∧ rf_kind r = Some (ae_refusal_kind entry) ∧ rf_failing_count r = failing ∧
  lb_logs w' !! log_name (ae_skill_id entry) (ae_version entry) = Some (refusal_log (ae_refusal_kind entry) failing ref) ∧
  lb_entries w' = lb_entries w.
Proof.
  unfold refuse. intros H Hr. apply M_bind_Ok in H as (o & w1 & Hc & H). destruct o as [a|]; [|by injection H as _ <-].
  destruct (String.eqb a ""); [by injection H as _ <-|]. apply M_bind_Ok in H as (u & w2 & Hm & H). injection Hm as <- _. injection H as <- <-.
  simpl in Hr. injection Hr as ->. unfold catch in Hc. simpl.
  destruct fresh as [hex|]; simpl in Hc; [|by injection Hc]. unfold operator_record, gets, guard, lift, modify in Hc. unfold mbind, M_bind in Hc.
  destruct (bool_decide _) eqn:Eb; simpl in Hc; [by injection Hc|]. injection Hc as <- <-. simpl. apply bool_decide_eq_false in Eb.
  split_and!; [|done|done|by rewrite lookup_insert_eq|done]. unfold operator_read. simpl.
  induction (lb_audit w) as [|[x y] l IH]; simpl in *; [by rewrite String.eqb_refl|].
  apply not_elem_of_cons in Eb as [Hne Hn]. destruct (String.eqb_spec x ("pa-" +:+ hex)); [congruence|]. by apply IH.
Qed.

(** A refusal by the gate tells the proposer only its kind, a count and an
    opaque reference; with the operator's store as sink that reference reads
    back the full entry, whose failing fixtures are as many as the count, and
    no status moved.  A refusal that could not be recorded says so instead,
    and without a sink nothing runs at all. *)
Theorem refusals_audited p fresh model tools ref g w w' r :
  promote_finish now p (operator_record fresh) model tools ref g w = (w', Ok (inr r)) →
  let id := pg_skill_id p in let n := pg_version p in
  (∀ a, rf_audit_ref r = Some a → ∃ e, operator_read w' a = Some e ∧ ae_skill_id e = id ∧ ae_version e = n ∧
     rf_kind r = Some (ae_refusal_kind e) ∧ rf_failing_count r = Z.of_nat (length (ae_failing_fixtures e)) ∧
     lb_entries w' = lb_entries w) ∧
  (rf_audit_ref r = None → rf_failing_count r = 0 ∧ rf_kind r ∈ [None; Some audit_unavailable]) ∧
  (∀ gate, promote_to_approved now id n None gate model tools ref w = (w, Ok (inr (mkRefusal (Some audit_unavailable) 0 None)))).
Proof.
  destruct p as [id n ver stats dirs]. simpl. intros H. split_and!; [| |done].
  - intros a Ha. destruct g as [rs|].
    + destruct (gate_passes dirs rs); simpl in H.
      * apply M_bind_Ok in H as (u & w1 & _ & H). apply M_bind_Ok in H as (vs & w2 & _ & H).
        destruct (is_nil vs); simpl in H; [|by injection H as _ <-]. apply M_bind_Ok in H as (cur & w3 & _ & H).
        case_bool_decide; [by injection H as _ <-|]. by apply M_bind_Ok in H as (? & ? & _ & H).
      * destruct (refuse_operator _ _ _ _ _ _ _ H Ha) as (A & B & C & _ & D). eexists. by split_and!.
    + destruct (refuse_operator _ _ _ _ _ _ _ H Ha) as (A & B & C & _ & D). eexists. by split_and!.
  - intros Ha. assert (∀ e f, refuse (operator_record fresh) e f w = (w', Ok (inr r)) → rf_failing_count r = 0 ∧ rf_kind r ∈ [None; Some audit_unavailable]) as Hrf.
    { intros e f Hx. unfold refuse in Hx. apply M_bind_Ok in Hx as ([x|] & w1 & _ & Hx); [|injection Hx as _ <-; simpl; set_solver].
      destruct (String.eqb x ""); [injection Hx as _ <-; simpl; set_solver|]. apply M_bind_Ok in Hx as (u & w2 & _ & Hx). by injection Hx as _ <-. }
    destruct g as [rs|]; [|by apply Hrf in H]. destruct (gate_passes dirs rs); simpl in H; [|by apply Hrf in H].
    apply M_bind_Ok in H as (u & w1 & _ & H). apply M_bind_Ok in H as (vs & w2 & _ & H).
    destruct (is_nil vs); simpl in H; [|injection H as _ <-; simpl; set_solver]. apply M_bind_Ok in H as (cur & w3 & _ & H).
    case_bool_decide; [injection H as _ <-; simpl; set_solver|]. by apply M_bind_Ok in H as (? & ? & _ & H).
Qed.

(** A refused promotion overwrites the log of what the version passed before.
    Refusing a new run of an approved version therefore makes its successor's
    non-regression list forget every fixture that only the log named. *)
Theorem refusal_forgets_passes p fresh model tools ref g w w' r a pred v :
  let id := pg_skill_id p in let n := pg_version p in
  promote_finish now p (operator_record fresh) model tools ref g w = (w', Ok (inr r)) → rf_audit_ref r = Some a →
  get_version id n w' = (w', Ok pred) → sv_skill_id pred = id → sv_version pred = n →
  sv_skill_id v = id → sv_supersedes v = Some n → is_Some (status_at w' (id, n)) →
  (∀ s, status_at w' (id, n) = Some s → _active_requires_retrievable_lifecycle s = true) →
  _predecessor_golden_dirs v w' = (w', Ok (foldl add_dir [] (discovered pred v))).
Proof.
  destruct p as [id n ver stats dirs]. simpl. intros H Ha Hv Ei En Hvi Hsup [s Hs] Hval.
  assert (∃ k f, lb_logs w' !! log_name id n = Some (refusal_log k f a)) as (k & f & Hlog).
  { destruct g as [rs|].
    - destruct (gate_passes dirs rs); simpl in H.
      + apply M_bind_Ok in H as (u & w1 & _ & H). apply M_bind_Ok in H as (vs & w2 & _ & H).
        destruct (is_nil vs); simpl in H; [|by injection H as _ <-]. apply M_bind_Ok in H as (cur & w3 & _ & H).
        case_bool_decide; [by injection H as _ <-|]. by apply M_bind_Ok in H as (? & ? & _ & H).
      + destruct (refuse_operator _ _ _ _ _ _ _ H Ha) as (_ & _ & _ & L & _). eauto.
    - destruct (refuse_operator _ _ _ _ _ _ _ H Ha) as (_ & _ & _ & L & _). eauto. }
  unfold _predecessor_golden_dirs, predecessor_version. rewrite Hsup, Hvi. unfold mbind, M_bind, or_missing. rewrite Hv, Ei, En.
  assert (get_status id n w' = (w', Ok s)) as Ec by (apply (get_status_Ok w' w' (id, n)); split_and!; [done|done|by apply Hval]).
  rewrite Ec. unfold gets. simpl. unfold _passed_dirs_from_log. by rewrite Hlog.
Qed.
End Theorems.

(** ** Witnesses *)

Definition demo_fs : GoldenFS :=
  {| fs_resolve := λ p, p; fs_exists := λ p, true; discovered := λ _ _, []; log_elsewhere := λ _, None |}.
Definition demo_results (passed : bool) : list GoldenResult := [mkGolden "child" 1 "golden/a" true; mkGolden "child" 1 "golden/b" passed].
Definition demo_stored (id : string) : SkillVersion := @stamp_lint_hash demo_env (demo_version id ["r9"] []).
(** The gate of the child at version 1, when the predecessor passed [dirs]. *)
Definition demo_promoting (dirs : list string) : Promoting := mkPromoting "child" 1 (demo_stored "child") (new_stats "child" 1) dirs.
Definition demo_finish (dirs : list string) (passed : bool) (w : Library) : Library * result (SkillStatus + Refusal) :=
  @promote_finish demo_env demo_gate demo_fs 7 (demo_promoting dirs) (operator_record (Some "f00")) "model" [("bash", "5.2")] "golden"
    (gate_report (demo_results passed)) w.
Definition demo_candidate : Library := set_status (new_status "child" 1 lc_candidate) demo_queued.
Definition demo_approved : Library := (demo_finish ["golden/a"] true demo_candidate).1.
Definition demo_refused : Library := (demo_finish ["golden/a"] false demo_approved).1.
(** Version 2 of the child supersedes version 1, whose log lists two fixtures. *)
Definition demo_successor : SkillVersion := (demo_version "child" [] []) <| sv_version := 2 |> <| sv_supersedes := Some 1 |>.
Definition demo_succession : Library := (@write_candidate demo_env demo_successor demo_approved).1.
Definition demo_run_gate : SkillVersion → list string → LB GateOutcome := λ v dirs,
  mret (gate_report (map (λ d, mkGolden (sv_skill_id v) (sv_version v) d true) dirs)).
Definition demo_promotion : Library * result (SkillStatus + Refusal) :=
  @promote_to_approved demo_env demo_gate demo_fs 7 "child" 2 (Some (operator_record (Some "f02"))) demo_run_gate "model" [] "golden"
    demo_succession.
Definition demo_promotion_ver : SkillVersion :=
  default demo_successor (en_version <$> lb_entries demo_succession !! ("child", 2)).
Lemma promotion_needs_gate_witness :
  lifecycle_at demo_succession ("child", 2) ≠ Some lc_approved ∧
  ∃ rs s, status_at demo_promotion.1 ("child", 2) = Some s ∧ ss_lifecycle s = lc_approved ∧
    @passed_at demo_fs rs "golden/a" = true ∧ @passed_at demo_fs rs "golden/b" = true.
Proof.
  split; [vm_compute; discriminate|].
  destruct (@promotion_needs_gate demo_env demo_gate demo_fs 7 "child" 2 (Some (operator_record (Some "f02"))) demo_run_gate "model" []
    "golden" demo_succession demo_promotion.1
    (approved_status 7 "child" 2 demo_promotion_ver (new_stats "child" 2) "model" [] "golden"))
    as (ver & dirs & stats & w1 & rs & cur & _ & Hv & _ & _ & Hp & _ & _ & _ & Hs & _).
  - vm_compute. reflexivity.
  - exists rs. eexists. split; [exact Hs|]. split; [reflexivity|]. 
    assert (ver = demo_promotion_ver) as Ev by (vm_compute in Hv; injection Hv as <-; vm_compute; reflexivity).
    subst ver.
    assert (∃ pred, @predecessor_version demo_env demo_promotion_ver demo_succession = (demo_succession, Ok (Some pred)) ∧
      sv_skill_id pred = "child" ∧ sv_version pred = 1) as (pred & Ep & Ei & En)
      by (eexists; split; [vm_compute; reflexivity|split; vm_compute; reflexivity]).
    assert (∃ s, status_at demo_succession ("child", 1) = Some s) as [s Es] by (eexists; vm_compute; reflexivity).
    assert (∀ r, @_passed_dirs_from_log demo_fs r "child" 1 demo_succession = ["golden/a"; "golden/b"]) as El by (intros r; vm_compute; reflexivity).
    split; apply Hp; exists pred; (split; [exact Ep|]); right; exists s; rewrite Ei, En, El; (split; [exact Es|]);
      [left|right; left].
Defined.
Definition demo_deprecated : Library := set_status (new_status "child" 1 lc_deprecated) demo_queued.
Lemma demo_deprecated_ok : @lib_ok demo_env demo_deprecated.
Proof. apply lib_ok_put; [exact demo_library_ok|]. by split. Qed.
Lemma gate_is_enough_witness :
  lifecycle_at demo_deprecated ("child", 1) = Some lc_deprecated ∧
  ∃ ver w', lifecycle_at w' ("child", 1) = Some lc_approved ∧
    (@promote_finish demo_env demo_gate demo_fs 7 (mkPromoting "child" 1 ver (new_stats "child" 1) []) (operator_record None) "model" []
      "golden" (gate_report (demo_results true)) demo_deprecated).1 = w'.
Proof.
  split; [vm_compute; reflexivity|].
  assert (∃ ver, @get_version demo_env "child" 1 demo_deprecated = (demo_deprecated, Ok ver)) as [ver Ev] by (eexists; vm_compute; reflexivity).
  destruct (@gate_is_enough demo_env demo_gate demo_fs 7 (mkPromoting "child" 1 ver (new_stats "child" 1) []) (operator_record None) "model" []
    "golden" (demo_results true) demo_deprecated (new_status "child" 1 lc_deprecated) demo_digest demo_deprecated_ok Ev) as (w' & E & H).
  - vm_compute. reflexivity.
  - intros H. vm_compute in H. repeat (apply elem_of_cons in H as [H|H]; [discriminate H|]). by apply elem_of_nil in H.
  - vm_compute. reflexivity.
  - exists ver, w'. split; [exact H|]. rewrite E. reflexivity.
Defined.
Definition demo_refusal : Refusal := mkRefusal (Some golden_gate) 1 (Some "pa-f00").
Lemma refusals_audited_witness :
  ∃ e, operator_read demo_refused "pa-f00" = Some e ∧ ae_skill_id e = "child".
Proof.
  destruct (@refusals_audited demo_env demo_gate demo_fs 7 (demo_promoting ["golden/a"]) (Some "f00") "model" [("bash", "5.2")] "golden" (gate_report (demo_results false)) demo_approved demo_refused demo_refusal) as (H & _ & _).
  - vm_compute. reflexivity.
  - destruct (H "pa-f00" eq_refl) as (e & E & Ei & _). exists e. split; [exact E|exact Ei].
Defined.
Lemma refusal_forgets_passes_witness :
  (@_predecessor_golden_dirs demo_env demo_fs demo_successor demo_approved).2 = Ok ["golden/a"; "golden/b"] ∧
  (@_predecessor_golden_dirs demo_env demo_fs demo_successor demo_refused).2 = Ok [].
Proof.
  split; [vm_compute; reflexivity|].
  assert (∃ pred, @get_version demo_env "child" 1 demo_refused = (demo_refused, Ok pred) ∧ sv_skill_id pred = "child" ∧ sv_version pred = 1)
    as (pred & Ev & Ei & En) by (eexists; split; [vm_compute; reflexivity|split; vm_compute; reflexivity]).
  rewrite (@refusal_forgets_passes demo_env demo_gate demo_fs 7 (demo_promoting ["golden/a"]) (Some "f00") "model" [("bash", "5.2")] "golden" (gate_report (demo_results false)) demo_approved demo_refused demo_refusal "pa-f00"
    pred demo_successor); try assumption; try (vm_compute; reflexivity).
  - vm_compute. eexists. reflexivity.
  - intros s H. vm_compute in H. injection H as <-. reflexivity.
Defined.
