(* ===== verification/SkillOps.v ===== *)
(** * Every operation on the skill library, and what no sequence of them can do

    The operations of Library, Portfolio, Lifecycle and Promotion as one
    alphabet ([SkillOp]), run one after another on a shared library in any
    order ([run_ops]).  An operation is one step: the source runs only the
    allocator's and the exclusive write under the skill's lock, so what two
    longer operations do when interleaved is not covered.
    A promotion is two operations, before and after its gate: the first puts
    what it read into the list of promotions under way, the second takes one
    out of it, and any operation may come between. *)
From S2P Require Import Prelude PyStr Budgets Contracts Skills EvalStore Library SkillGates Portfolio Lifecycle Promotion.
From Stdlib Require Import ZArith Lia.
Open Scope Z_scope.

Section Ops.
Context `{LE : LibraryEnv} `{GE : GateEnv} `{FS : GoldenFS} (pow2 : float → float) (now : datetime).

Inductive SkillOp :=
  | op_write_version (v : SkillVersion)
  | op_write_candidate (v : SkillVersion)
  | op_write_exclusive (v : SkillVersion)
  | op_allocate (id : string)
  | op_allocate_and_write (v : SkillVersion)
  | op_write_status (s : SkillStatus) (expected : option Lifecycle)
  | op_write_stats (s : SkillStats)
  | op_apply_session (id : string) (n : Z) (session : string)
  | op_rebuild
  | op_revoke (kind id reason : string)
  | op_drain (max_writes : Z)
  | op_evals (f : EvalDB → EvalDB)
  | op_recompute (config : AutonomyConfig) (eval_store : bool)
  | op_advance (id : string) (n : Z) (config : AutonomyConfig) (led : Ledger)
  | op_quarantine (id : string) (n failures : Z) (config : AutonomyConfig) (led : Ledger)
  | op_bench (id : string) (n : Z) (config : AutonomyConfig) (led : Ledger)
  | op_restore (id : string) (n : Z) (led : Ledger)
  | op_enter_shadow (id : string) (n : Z)
  | op_recertify (max_writes : Z) (tool_upgraded : option string) (with_evals : bool)
  | op_block_parents (id : string) (n : Z)
  | op_promote_begin (id : string) (n : Z)
  | op_promote_finish (i : nat) (fresh : option string) (model : string) (tools : list (string * string)) (ref : string) (g : GateOutcome).

(** The library and the promotions whose gate is running. *)
Notation Shop := (Library * list Promoting)%type.
Definition exec_library (o : SkillOp) (w : Library) : Library :=
  match o with
  | op_write_version v => (write_version v w).1
  | op_write_candidate v => (write_candidate v w).1
  | op_write_exclusive v => (write_version_exclusive v w).1
  | op_allocate id => (allocate_next_version id w).1
  | op_allocate_and_write v => (allocate_and_write v w).1
  | op_write_status s expected => (write_status s expected w).1
  | op_write_stats s => (write_stats s w).1
  | op_apply_session id n session => (note_apply_session id n session w).1
  | op_rebuild => (rebuild w).1
  | op_revoke kind id reason => enqueue kind id reason w
  | op_drain n => (drain_revokes n w).1
  | op_evals f => w <| lb_evals := f (lb_evals w) |>
  | op_recompute config ev => (recompute_active_set pow2 now config ev w).1
  | op_advance id n config led => (maybe_advance_shadow_to_candidate pow2 now id n config led w).1
  | op_quarantine id n failures config led => (quarantine_on_failures id n failures config led w).1
  | op_bench id n config led => (maybe_bench_on_contribution pow2 now id n config led w).1
  | op_restore id n led => (restore_benched now id n led w).1
  | op_enter_shadow id n => (enter_shadow id n w).1
  | op_recertify n t ev => (recertify_with_revokes n t ev w).1
  | op_block_parents id n => (quarantine_child_blocks_parents id n w).1
  | op_promote_begin _ _ | op_promote_finish _ _ _ _ _ _ => w
  end.
Definition exec (o : SkillOp) (st : Shop) : Shop :=
  let '(w, ps) := st in
  match o with
  | op_promote_begin id n =>
      let '(w', r) := promote_begin id n w in (w', match r with Ok (inl p) => ps ++ [p] | _ => ps end)
  | op_promote_finish i fresh model tools ref g =>
      match ps !! i with
      | Some p => ((promote_finish now p (operator_record fresh) model tools ref g w).1, delete i ps)
      | None => (w, ps)
      end
  | _ => (exec_library o w, ps)
  end.
Definition run_ops (ops : list SkillOp) (st : Shop) : Shop := foldl (λ st o, exec o st) st ops.

(** The documents passed in were validated when they were built; a status written
    directly is active only when approved, as each caller in the repository
    writes it (the model itself would also let a shadow version be active). *)
Definition op_valid (o : SkillOp) : Prop :=
  match o with
  | op_write_version v | op_write_candidate v | op_write_exclusive v => key_ok (sv_skill_id v, sv_version v)
  | op_allocate_and_write v => _SKILL_ID_PATTERN (sv_skill_id v) = true
  | op_write_status s _ => ss_active s = true → ss_lifecycle s = lc_approved
  | _ => True
  end.
(** The only operation that can newly approve a version, and which. *)
Definition op_approves (o : SkillOp) (ps : list Promoting) (k : string * Z) : Prop :=
  match o with
  | op_promote_finish i _ _ _ _ g => ∃ p, ps !! i = Some p ∧ gate_approves p g k
  | _ => False
  end.

(** ** Each operation, and all of them *)

Hint Resolve keeps_write_version keeps_write_candidate keeps_write_exclusive keeps_allocate keeps_allocate_write
  keeps_note keeps_recompute keeps_advance keeps_quarantine keeps_bench keeps_restore keeps_shadow keeps_recertify keeps_block
  : recertia_keeps.
Lemma keeps_run P {A} (m : LB A) w : keeps (lib_le P) m → lib_le P w (m w).1.
Proof. intros H. apply H. Qed.
Lemma exec_le o w ps : op_valid o → lib_le (op_approves o ps) w (exec o (w, ps)).1.
Proof.
  destruct o; cbn [exec exec_library op_approves op_valid fst]; intros Hv; try (apply keeps_run; by eauto with recertia_keeps).
  - by apply keeps_run, keeps_write_status.
  - by apply lib_le_same.
  - by apply lib_le_same.
  - pose proof (keeps_run (λ _, False) (promote_begin id n) w (keeps_begin _ _ _)) as H. by destruct (promote_begin id n w).
  - destruct (ps !! i) as [p|] eqn:Ep; [|reflexivity]. apply keeps_run, keeps_finish; [intros e; apply keeps_operator|]. intros k Hk. by exists p.
Qed.
Lemma run_ops_app a b st : run_ops (a ++ b) st = run_ops b (run_ops a st).
Proof. apply foldl_app. Qed.
Lemma run_le ops w ps : Forall op_valid ops → lib_le (λ _, True) w (run_ops ops (w, ps)).1.
Proof.
  revert w ps. induction ops as [|o ops IH]; intros w ps Hv; [reflexivity|]. apply Forall_cons in Hv as [Ho Hv].
  change (run_ops (o :: ops) (w, ps)) with (run_ops ops (exec o (w, ps))). destruct (exec o (w, ps)) as [w1 ps1] eqn:E.
  etrans; [|by apply IH]. pose proof (exec_le o w ps Ho) as H. rewrite E in H. by eapply lib_le_weaken; [|exact H].
Qed.

(** A version that becomes approved does so when some promotion finishes. *)
Lemma run_approves ops w ps k :
  Forall op_valid ops → lifecycle_at w k ≠ Some lc_approved → lifecycle_at (run_ops ops (w, ps)).1 k = Some lc_approved →
  ∃ before o after, ops = before ++ o :: after ∧ op_approves o (run_ops before (w, ps)).2 k.
Proof.
  revert w ps. induction ops as [|o ops IH]; intros w ps Hv Hn Ha; [done|]. apply Forall_cons in Hv as [Ho Hv].
  pose proof (exec_le o w ps Ho) as Hle. change (run_ops (o :: ops) (w, ps)) with (run_ops ops (exec o (w, ps))) in Ha.
  destruct (exec o (w, ps)) as [w1 ps1] eqn:E. destruct (decide (lifecycle_at w1 k = Some lc_approved)) as [Hd|Hd].
  - destruct (le_approved _ _ _ Hle k Hd) as [|Hk]; [done|]. exists [], o, ops. by split.
  - destruct (IH w1 ps1 Hv Hd Ha) as (before & o' & after & -> & Hk). exists (o :: before), o', after. split; [done|].
    change (run_ops (o :: before) (w, ps)) with (run_ops before (exec o (w, ps))). by rewrite E.
Qed.
(** A promotion under way was begun earlier, unless it was there at the start. *)
Lemma promoting_begun ops st p :
  p ∈ (run_ops ops st).2 → p ∈ st.2 ∨ ∃ before id n after, ops = before ++ op_promote_begin id n :: after ∧
    (promote_begin id n (run_ops before st).1).2 = Ok (inl p).
Proof.
  induction ops as [|o ops IH] using rev_ind; [by left|]. rewrite run_ops_app. simpl. intros Hp.
  assert (p ∈ (run_ops ops st).2 ∨ ∃ id n, o = op_promote_begin id n ∧ (promote_begin id n (run_ops ops st).1).2 = Ok (inl p)) as [H|H].
  - destruct (run_ops ops st) as [w ps] eqn:E. unfold exec in Hp. destruct o; try (by left); simpl in *.
    + destruct (promote_begin id n w) as [w' r] eqn:Eb. simpl in Hp. destruct r as [[q|r]|e]; try (by left).
      apply elem_of_app in Hp as [Hp|Hp%list_elem_of_singleton]; [by left|subst q]. right. exists id, n. by rewrite Eb.
    + destruct (ps !! i); [|by left]. left. simpl in Hp. exact (list_elem_of_delete_inv _ _ _ Hp).
  - destruct (IH H) as [?|(before & id & n & after & -> & Hb)]; [by left|]. right. exists before, id, n, (after ++ [o]).
    by rewrite <- app_assoc.
  - right. destruct H as (id & n & -> & Hb). exists ops, id, n, []. by split.
Qed.

(** ** The theorems *)

(** C36: Whatever sequence of operations runs on a well-formed library: it stays
    well formed, every version that was stored is still stored under its key
    with the same document and the same seed signature, and a key that holds a
    version once always holds one. *)
Theorem library_history ops w ps :
  lib_ok w → Forall op_valid ops → let w' := (run_ops ops (w, ps)).1 in
  lib_ok w' ∧
  ∀ k e, lb_entries w !! k = Some e →
    ∃ e', lb_entries w' !! k = Some e' ∧ en_version e' = en_version e ∧ en_sig e' = en_sig e.
Proof. intros Hok Hv. pose proof (run_le ops w ps Hv) as H. split; [by apply (le_ok _ _ _ H)|apply (le_versions _ _ _ H)]. Qed.

(** C3: A version that was not approved and now is was approved by its own gate:
    a promotion of exactly that version began, and finished later with a report
    that is not empty, in which every fixture passed, and with it every fixture
    that the predecessor's promotion log listed as passed when the promotion
    began, or that was found for the predecessor under the golden root.  No
    other operation - distillation, an agent's status write, shadow autonomy,
    restoring, recertification - can do it.  No promotion is under way at the
    start. *)
Theorem approved_only_through_gate ops w k :
  Forall op_valid ops → lifecycle_at w k ≠ Some lc_approved → lifecycle_at (run_ops ops (w, [])).1 k = Some lc_approved →
  ∃ before between after i fresh model tools ref rs ver,
    ops = before ++ op_promote_begin k.1 k.2 :: between ++ op_promote_finish i fresh model tools ref (gate_report rs) :: after ∧
    let w0 := (run_ops before (w, [])).1 in
    get_version k.1 k.2 w0 = (w0, Ok ver) ∧ all_passed rs = true ∧ ∀ d, predecessor_fixture w0 ver d → passed_at rs d = true.
Proof.
  intros Hv Hn Ha. destruct (run_approves ops w [] k Hv Hn Ha) as (bf & o & after & -> & Hk).
  destruct o; try done. destruct Hk as (p & Hp & -> & rs & -> & Hg).
  apply list_elem_of_lookup_2 in Hp.
  destruct (promoting_begun bf (w, []) p Hp) as [Hx|(before & id & n & between & -> & Hb)]; [by apply elem_of_nil in Hx|].
  destruct (promote_begin id n (run_ops before (w, [])).1) as [w1 r] eqn:E. simpl in Hb. subst r.
  apply begin_holds in E as (_ & <- & <- & Hver & Hd). exists before, between, after. do 7 eexists. split; [by rewrite <- app_assoc|].
  simpl. split; [exact Hver|]. unfold gate_passes in Hg. apply andb_true_iff in Hg as [? Hr]. split; [done|].
  intros d. apply (gate_covers _ _ _ _ _ _ Hd). by apply regressions_nil.
Qed.

(** Version numbers are never given out twice, nor given to anyone after a
    version was stored under them: whatever happens between two allocations
    for a skill - the first number used, published and released, or never
    used at all - the second is larger, and it is free. *)
Theorem allocation_never_repeats ops ps id w n w1 m w2 :
  Forall op_valid ops →
  allocate_next_version id w = (w1, Ok n) → allocate_next_version id (run_ops ops (w1, ps)).1 = (w2, Ok m) →
  n < m ∧ lb_entries w !! (id, n) = None ∧ lb_entries (run_ops ops (w1, ps)).1 !! (id, m) = None.
Proof.
  unfold allocate_next_version, gets, modify. unfold mbind, M_bind. intros Hv [= <- <-] [= _ <-].
  assert (∀ w, lb_entries w !! (id, next_free w id) = None) as Hfree.
  { intros w0. destruct (lb_entries w0 !! _) eqn:E; [|done]. assert (next_free w0 id ∈ taken w0 id) as H%next_free_fresh; [|lia].
    apply elem_of_taken. left. by eexists. }
  split_and!; [|done|done]. apply next_free_fresh. eapply le_taken; [by apply run_le|].
  apply elem_of_taken. right. simpl. set_solver.
Qed.
End Ops.

(** ** Witnesses *)

Definition demo_ops : list SkillOp :=
  [op_allocate "child"; op_write_candidate (demo_version "child2" [] []); op_promote_begin "child2" 1; op_drain 5; op_enter_shadow "p1" 1;
   op_promote_finish 0 (Some "f01") "model" [] "golden" (gate_report (demo_results true))].
Lemma demo_ops_valid : Forall op_valid demo_ops.
Proof. repeat constructor; simpl; done. Qed.
Definition demo_run_ops (ops : list SkillOp) (w : Library) : Library := (@run_ops demo_env demo_gate demo_fs pow2_demo 7 ops (w, [])).1.
Lemma library_history_witness : is_Some (lb_entries (demo_run_ops demo_ops demo_queued) !! ("child", 1)).
Proof.
  assert (∃ e, lb_entries demo_queued !! ("child", 1) = Some e) as [e Ee] by (eexists; vm_compute; reflexivity).
  destruct (proj2 (@library_history demo_env demo_gate demo_fs pow2_demo 7 demo_ops demo_queued [] demo_library_ok demo_ops_valid) _ e Ee)
    as (e' & E & _).
  exists e'. exact E.
Defined.
Lemma approved_only_through_gate_witness :
  lifecycle_at (demo_run_ops demo_ops demo_queued) ("child2", 1) = Some lc_approved ∧
  ∃ rs, all_passed rs = true ∧ rs ≠ [].
Proof.
  split; [vm_compute; reflexivity|].
  destruct (@approved_only_through_gate demo_env demo_gate demo_fs pow2_demo 7 demo_ops demo_queued ("child2", 1) demo_ops_valid)
    as (? & ? & ? & ? & ? & ? & ? & ? & rs & ? & _ & _ & H & _).
  - vm_compute. discriminate.
  - vm_compute. reflexivity.
  - exists rs. split; [exact H|]. intros ->. discriminate H.
Defined.
Definition demo_taken : Library := (allocate_next_version "child" demo_queued).1.
Lemma allocation_never_repeats_witness : 2 < 3.
Proof.
  refine (proj1 (@allocation_never_repeats demo_env demo_gate demo_fs pow2_demo 7 [op_drain 5] [] "child" demo_queued 2 demo_taken 3
    (allocate_next_version "child" (demo_run_ops [op_drain 5] demo_taken)).1 _ _ _)).
  - repeat constructor.
  - vm_compute. reflexivity.
  - vm_compute. reflexivity.
Defined.
