(* ===== verification/Access.v ===== *)
(** * Who may do what (ports/identity.py, app/authz.py)

    The principal with its scopes and roles, the policy decision point's table
    of actions, the tool grants of a run, and the checks beside the table.
    Scopes and roles are sets of strings, so a misspelt one is simply absent.
    The theorems: privileges only add up, what a tenant's own administrator
    can never reach, tenants are kept apart by exactly the actions that look
    at the resource, the table against its specification, and which tools a
    run is granted. *)
From S2P Require Import Prelude Queue.
From Stdlib Require Import ZArith Lia.
Open Scope Z_scope.

Definition Forbidden : exn := PyError "Forbidden".
Definition NotFound : exn := PyError "NotFound".
Definition Unauthorized : exn := PyError "Unauthorized".
Definition ExecutionUnavailable : exn := PyError "ExecutionUnavailable".

(** ** ports/identity.py *)

Definition names : Type := gset string.
Definition OPERATOR_SCOPES : names := list_to_set ["admin"; "runs"; "blobs"; "metrics"; "exec"; "promote"; "jobs"].
Inductive PrincipalKind := pk_api_key | pk_console_session | pk_local_operator | pk_executor | pk_system.
#[export] Instance PrincipalKind_eq_dec : EqDecision PrincipalKind. Proof. solve_decision. Defined.
Record Principal := mkPrincipal {
  pp_subject : string; pp_kind : PrincipalKind; pp_tenant : string; pp_tenants : list string; pp_scopes : names; pp_roles : names }.

Definition has_scope (p : Principal) (scope : string) : bool :=
  bool_decide (scope ∈ pp_scopes p) || bool_decide ("platform_admin" ∈ pp_scopes p) ||
  (negb (String.eqb scope "platform_admin") && bool_decide ("admin" ∈ pp_scopes p)).
Definition has_role (p : Principal) (role : string) : bool :=
  bool_decide (role ∈ pp_roles p) || bool_decide ("platform_admin" ∈ pp_roles p) ||
  (bool_decide (role ∈ ["operator"; "reviewer"; "admin"]) && bool_decide ("admin" ∈ pp_roles p)).
(** [actor] or the name built from the user and the host. *)
Definition local_operator (tenant actor : option string) (cli_user : string) : Principal :=
  let active := default "default" tenant in
  let subject := match actor with Some a => if String.eqb a "" then cli_user else a | None => cli_user end in
  mkPrincipal subject pk_local_operator active [active] OPERATOR_SCOPES {["platform_admin"]}.
Definition from_api_key (key_id tenant : string) (scopes : names) : result Principal :=
  t ← tenant_id tenant;
  Ok (mkPrincipal key_id pk_api_key t [t] scopes (scopes ∩ list_to_set ["admin"; "platform_admin"])).
Definition ledger_actor (p : Principal) : string := pp_subject p.

(** ** app/authz.py *)

Inductive ExecutionBackend := be_container | be_local.
#[export] Instance ExecutionBackend_eq_dec : EqDecision ExecutionBackend. Proof. solve_decision. Defined.
(** [CommandOrigin], by name. *)
Definition CommandOrigin : Type := string.
(** What the decision point reads of the policy document. *)
Record IsolationSettings := mkIsolation {
  allow_external_computer : bool; long_lived_computer_backend : bool; external_computer_allowlist : list string }.
Record AccessPolicy := mkAccessPolicy { require_tool_approval_for_non_read : bool; ac_isolation : IsolationSettings }.

Record Resource := mkResource { rs_tenant_id : option string; rs_run_id : option string; rs_kind : option string }.
Definition no_resource : Resource := mkResource None None None.
Record Decision := mkDecision { dn_allow : bool; dn_status : Z; dn_reason : string }.
Definition allowed : Decision := mkDecision true 200 "".
Definition denied (reason : string) : Decision := mkDecision false 403 reason.

Definition _READ_TOOLS : list string := ["read_file"; "grep"].
Definition _CONTAINER_WRITES : list string := ["shell"; "edit_file"; "agent_subtask"; "fetch"].
Definition _LOCAL_EXEC_WRITES : list string := ["shell"; "edit_file"; "agent_subtask"].

Record ApprovalRecord := mkApproval { av_tool : string; av_step_id : string; av_actor : string; av_reason : string }.
Record ToolGrants := mkGrants { tg_grants : gset (string * option string); tg_records : list ApprovalRecord }.
Definition approve (tool : string) (step_id : option string) (actor reason : string) (g : ToolGrants) : ToolGrants :=
  let shown := match step_id with Some s => if String.eqb s "" then "*" else s | None => "*" end in
  mkGrants ({[(tool, step_id)]} ∪ tg_grants g) (tg_records g ++ [mkApproval tool shown actor reason]).
Definition is_approved (g : ToolGrants) (tool step_id : string) : bool :=
  bool_decide ((tool, Some step_id) ∈ tg_grants g) || bool_decide ((tool, None) ∈ tg_grants g).
Definition clear (g : ToolGrants) : ToolGrants := mkGrants ∅ [].

Definition _platform_admin (p : Principal) : bool := has_role p "platform_admin" || bool_decide ("platform_admin" ∈ pp_scopes p).
Definition _tenant_matches (p : Principal) (r : Resource) : bool :=
  match rs_tenant_id r with None => true | Some t => String.eqb t (pp_tenant p) || _platform_admin p end.
Definition _principal_may_exec (p : option Principal) : bool :=
  match p with None => false | Some p => bool_decide ("exec" ∈ pp_scopes p) || bool_decide ("admin" ∈ pp_scopes p) end.
Definition assert_run_executable (p : Principal) (script : bool) : result unit :=
  if script && negb (has_scope p "exec") then Err Forbidden else Ok tt.
Definition _external_computer_allowed (pol : AccessPolicy) : bool :=
  let i := ac_isolation pol in
  allow_external_computer i && long_lived_computer_backend i && negb (is_nil (external_computer_allowlist i)).

Section Pdp.
(** [self._policy] and [self._backend]. *)
Context (policy : AccessPolicy) (backend : ExecutionBackend).

Definition open_pdp (multi_node : bool) : result ToolGrants :=
  if multi_node && negb (require_tool_approval_for_non_read policy) then Err ExecutionUnavailable else Ok (mkGrants ∅ []).

Definition approve_all (tools : list string) (reason : string) (g : ToolGrants) : ToolGrants :=
  foldl (λ g name, approve name None "pdp" reason g) g tools.
Definition approve_tools (p : option Principal) (origin : CommandOrigin) (run_backend : option ExecutionBackend) (g : ToolGrants) : ToolGrants :=
  let resolved := default backend run_backend in
  let g := approve_all _READ_TOOLS "read" (clear g) in
  if String.eqb origin "model" && bool_decide (resolved = be_local) then g
  else
    let g :=
      if negb (require_tool_approval_for_non_read policy) then approve_all _CONTAINER_WRITES "approval-disabled" g
      else if bool_decide (resolved = be_container) then approve_all _CONTAINER_WRITES "container-default" g
      else if _principal_may_exec p then approve_all _LOCAL_EXEC_WRITES "exec-scope" g
      else g in
    if _external_computer_allowed policy then approve "external_computer" None "pdp" "external-computer-allowlist" g else g.

(** [body.get("tier")]: [None] for anything that is not a string. *)
Definition may_decide_proposal (p : Principal) (kind : string) (tier : option string) (console_may_review : option bool) : bool :=
  if negb (String.eqb kind "correction") && negb (bool_decide (tier = Some "T2")) then true
  else match console_may_review with Some b => b | None => bool_decide ("admin" ∈ pp_scopes p) end.
Definition may_admin_host (p : Principal) (console_roles : option names) : bool :=
  match console_roles with
  | Some roles => bool_decide ("platform_admin" ∈ roles)
  | None => has_role p "platform_admin" || bool_decide ("platform_admin" ∈ pp_scopes p)
  end.
Inductive TenantAccess := ta_platform_admin | ta_tenant_admin | ta_operator.
Definition tenant_access (p : Principal) (recorded : option string) : TenantAccess :=
  if bool_decide (pp_kind p = pk_local_operator) || has_role p "platform_admin" then ta_platform_admin
  else if bool_decide (recorded = Some "tenant_admin") || bool_decide (recorded = Some "admin") then ta_tenant_admin
  else if bool_decide (recorded = Some "operator") then ta_operator
  else if bool_decide ("admin" ∈ pp_scopes p) || has_role p "admin" then ta_tenant_admin
  else ta_operator.
Definition may_admin_registry (p : Principal) (console_is_admin : option bool) (membership_role : option string) : bool :=
  match console_is_admin with
  | Some b => b
  | None => match tenant_access p membership_role with ta_operator => false | _ => true end
  end.

Definition on (l : list string) (action : string) : bool := bool_decide (action ∈ l).
Definition scoped (p : Principal) (scope : string) (k : Decision) : Decision :=
  if has_scope p scope then k else denied ("missing scope: " +:+ scope).
Definition in_tenant (p : Principal) (r : Resource) : Decision := if _tenant_matches p r then allowed else denied "tenant mismatch".
Definition platform_only (p : Principal) : Decision := if _platform_admin p then allowed else denied "missing scope: platform_admin".
Definition admin_in_tenant (p : Principal) (r : Resource) : Decision :=
  if has_scope p "admin" || has_role p "admin" then in_tenant p r else denied "missing scope: admin".
Definition platform_secret (r : Resource) : bool :=
  bool_decide (rs_kind r = Some "_platform") || bool_decide (rs_tenant_id r = Some "_platform").
Definition decide_action (p : Principal) (action : string) (res : option Resource) : Decision :=
  let r := default no_resource res in
  if on ["runs.create"; "runs.read"] action then scoped p "runs" (in_tenant p r)
  else if on ["runs.script"] action then
    if _principal_may_exec (Some p) then allowed else denied "script requires the 'exec' scope (or admin)"
  else if on ["runs.cancel"] action then
    scoped p "runs" (if match rs_tenant_id r with Some t => negb (String.eqb t (pp_tenant p)) && negb (_platform_admin p) | None => false end
                     then mkDecision false 404 "not found" else allowed)
  else if on ["runs.resume"] action then scoped p "runs" allowed
  else if on ["skill.promote"; "skills.promote"] action then
    if has_scope p "promote" || has_role p "reviewer" then allowed else denied "missing scope: promote"
  else if on ["skill.promote_seed"] action then platform_only p
  else if on ["job.run"; "jobs.run"] action then scoped p "jobs" allowed
  else if on ["eval.run"; "evals.run"; "metrics.read"] action then
    if has_scope p "evals" || has_scope p "metrics" then allowed else denied "missing scope: evals"
  else if on ["policy.propose"] action then scoped p "runs" allowed
  else if on ["policy.apply"] action then admin_in_tenant p r
  else if on ["workspace.register"] action then
    if may_admin_host p None then allowed else denied "missing scope: platform_admin"
  else if on ["membership.grant"] action then platform_only p
  else if on ["secret.write"] action then if platform_secret r then platform_only p else admin_in_tenant p r
  else if on ["blobs.read"; "blobs.write"] action then scoped p "blobs" (in_tenant p r)
  else if on ["skills.read"; "skills.search"; "jobs.read"; "proposals.read"; "programs.read"; "programs.write"; "workspaces.read";
              "policy.read"; "ledger.verify"] action then scoped p "runs" (in_tenant p r)
  else if on ["proposals.decide"] action then scoped p "runs" (in_tenant p r)
  else if on ["workspaces.write"] action then
    if may_admin_registry p None None then allowed else denied "missing scope: admin"
  else if on ["keys.issue"; "keys.revoke"; "keys.read"] action then
    if has_scope p "admin" || has_role p "admin" || _platform_admin p then allowed else denied "missing scope: admin"
  else if on ["tenants.switch"] action then
    if _platform_admin p || bool_decide (pp_kind p = pk_console_session) then allowed else denied "missing scope: tenants.switch"
  else if on ["ops.backup"; "ops.restore"; "ops.gc"; "ops.soak"; "ops.tabletop"; "ops.systems"] action then platform_only p
  else denied ("unknown action: " +:+ action).
Definition require (p : Principal) (action : string) (res : option Resource) : result unit :=
  let d := decide_action p action res in
  if dn_allow d then Ok tt else if dn_status d =? 404 then Err NotFound else Err Forbidden.
End Pdp.

(** ** Theorems *)

(** The actions the table knows, those that belong to the platform, and those
    whose rule looks at whose resource it is. *)
Definition ACTIONS : list string :=
  ["runs.create"; "runs.read"; "runs.script"; "runs.cancel"; "runs.resume"; "skill.promote"; "skills.promote"; "skill.promote_seed";
   "job.run"; "jobs.run"; "eval.run"; "evals.run"; "metrics.read"; "policy.propose"; "policy.apply"; "workspace.register";
   "membership.grant"; "secret.write"; "blobs.read"; "blobs.write"; "skills.read"; "skills.search"; "jobs.read"; "proposals.read";
   "programs.read"; "programs.write"; "workspaces.read"; "policy.read"; "ledger.verify"; "proposals.decide"; "workspaces.write";
   "keys.issue"; "keys.revoke"; "keys.read"; "tenants.switch"; "ops.backup"; "ops.restore"; "ops.gc"; "ops.soak"; "ops.tabletop";
   "ops.systems"].
Definition PLATFORM_ACTIONS : list string :=
  ["skill.promote_seed"; "workspace.register"; "membership.grant"; "ops.backup"; "ops.restore"; "ops.gc"; "ops.soak"; "ops.tabletop";
   "ops.systems"].
Definition TENANT_ACTIONS : list string :=
  ["runs.create"; "runs.read"; "runs.cancel"; "policy.apply"; "secret.write"; "blobs.read"; "blobs.write"; "skills.read";
   "skills.search"; "jobs.read"; "proposals.read"; "programs.read"; "programs.write"; "workspaces.read"; "policy.read";
   "ledger.verify"; "proposals.decide"].
Definition can (p : Principal) (action : string) (r : option Resource) : bool := dn_allow (decide_action p action r).

Lemma on_spec l a : on l a = true ↔ a ∈ l.
Proof. apply bool_decide_eq_true. Qed.
(** Turn the boolean tests of the table into propositions, one goal per rule. *)
Ltac by_rule :=
  unfold can, decide_action, admin_in_tenant, scoped, in_tenant, platform_only, denied, allowed;
  repeat match goal with |- context [if on ?l ?a then _ else _] => destruct (on l a) eqn:? end.

(** *** Privileges only add up *)

Record grows (p q : Principal) : Prop := {
  gr_scopes : pp_scopes p ⊆ pp_scopes q; gr_roles : pp_roles p ⊆ pp_roles q;
  gr_tenant : pp_tenant q = pp_tenant p; gr_kind : pp_kind q = pp_kind p }.
Lemma in_mono (s t : names) x : s ⊆ t → bool_decide (x ∈ s) = true → bool_decide (x ∈ t) = true.
Proof. rewrite !bool_decide_eq_true. set_solver. Qed.
Lemma or_mono (a b c d : bool) : (a = true → c = true) → (b = true → d = true) → a || b = true → c || d = true.
Proof. destruct a, b, c, d; naive_solver. Qed.
Lemma and_mono (a b c : bool) : (b = true → c = true) → a && b = true → a && c = true.
Proof. destruct a, b, c; naive_solver. Qed.
Lemma scope_mono p q s : grows p q → has_scope p s = true → has_scope q s = true.
Proof.
  intros [Hs _ _ _]. unfold has_scope. apply or_mono; [apply or_mono|apply and_mono]; by apply in_mono.
Qed.
Lemma role_mono p q r : grows p q → has_role p r = true → has_role q r = true.
Proof. intros [_ Hr _ _]. unfold has_role. apply or_mono; [apply or_mono|apply and_mono]; by apply in_mono. Qed.
Lemma platform_mono p q : grows p q → _platform_admin p = true → _platform_admin q = true.
Proof.
  intros H. unfold _platform_admin. rewrite !orb_true_iff. intros [?|?]; [left; by eapply role_mono|right].
  eapply in_mono; [apply H|done].
Qed.
Lemma tenant_mono p q r : grows p q → _tenant_matches p r = true → _tenant_matches q r = true.
Proof.
  intros H. unfold _tenant_matches. destruct (rs_tenant_id r); [|done]. rewrite !orb_true_iff, (gr_tenant _ _ H).
  intros [?|?]; [by left|right; by eapply platform_mono].
Qed.
Lemma exec_mono p q : grows p q → _principal_may_exec (Some p) = true → _principal_may_exec (Some q) = true.
Proof. intros [Hs _ _ _]. simpl. apply or_mono; by apply in_mono. Qed.
Lemma host_mono p q : grows p q → may_admin_host p None = true → may_admin_host q None = true.
Proof.
  intros H. simpl. rewrite !orb_true_iff. intros [?|?]; [left; by eapply role_mono|right]. eapply in_mono; [apply H|done].
Qed.
Lemma registry_mono p q : grows p q → may_admin_registry p None None = true → may_admin_registry q None None = true.
Proof.
  intros H. unfold may_admin_registry, tenant_access. rewrite (gr_kind _ _ H).
  rewrite (bool_decide_false (None = Some "tenant_admin")), (bool_decide_false (None = Some "admin")),
    (bool_decide_false (None = Some "operator")) by done. simpl.
  destruct (bool_decide (pp_kind p = pk_local_operator)); simpl; [done|].
  destruct (has_role p "platform_admin") eqn:E1; [by rewrite (role_mono p q _ H E1)|].
  destruct (has_role q "platform_admin"); [done|].
  destruct (bool_decide ("admin" ∈ pp_scopes p)) eqn:E2; [by rewrite (in_mono _ _ _ (gr_scopes _ _ H) E2)|].
  simpl. destruct (has_role p "admin") eqn:E3; [|done]. rewrite (role_mono p q _ H E3). by rewrite orb_true_r.
Qed.

Lemma allow_mono (a b : bool) x y d d' :
  dn_allow d = false → (a = true → b = true) → (dn_allow x = true → dn_allow y = true) →
  dn_allow (if a then x else d) = true → dn_allow (if b then y else d') = true.
Proof. intros Hd Hab Hxy. destruct a; [|congruence]. by rewrite Hab. Qed.
Lemma cancel_mono p q (t : option string) d d' :
  grows p q → dn_allow d = false →
  dn_allow (if match t with Some t => negb (String.eqb t (pp_tenant p)) && negb (_platform_admin p) | None => false end then d else allowed) = true →
  dn_allow (if match t with Some t => negb (String.eqb t (pp_tenant q)) && negb (_platform_admin q) | None => false end then d' else allowed) = true.
Proof.
  intros H Hd. destruct t as [t|]; [|done]. rewrite (gr_tenant _ _ H). destruct (String.eqb t (pp_tenant p)); [done|]. simpl.
  destruct (_platform_admin p) eqn:E; simpl; [|congruence]. by rewrite (platform_mono p q H E).
Qed.
Lemma kind_mono p q k : grows p q → bool_decide (pp_kind p = k) = true → bool_decide (pp_kind q = k) = true.
Proof. intros H. by rewrite (gr_kind _ _ H). Qed.
#[local] Hint Resolve scope_mono role_mono platform_mono tenant_mono exec_mono host_mono registry_mono kind_mono : core.

(** More scopes or roles never take a permission away. *)
Theorem privileges_monotone p q action r : grows p q → can p action r = true → can q action r = true.
Proof.
  intros H. by_rule.
  all: repeat match goal with
  | |- dn_allow (if platform_secret ?r then _ else _) = true → _ => destruct (platform_secret r)
  | |- dn_allow (if match _ with _ => _ end then _ else _) = true → _ => by apply cancel_mono
  | |- dn_allow (if _ then _ else _) = true → _ => apply allow_mono; [done|repeat match goal with |- _ || _ = true → _ => apply or_mono end; by eauto|]
  | _ => done
  end.
Qed.

(** *** Tenants and the platform *)

Lemma on_within (l l' : list string) a : (∀ x, x ∈ l → x ∈ l') → on l a = true → a ∈ l'.
Proof. intros H Ha%on_spec. by apply H. Qed.
(** [x ∈ l] against a concrete list. *)
Ltac in_list := repeat (apply elem_of_cons; first [left; reflexivity|right]).
Ltac all_in :=
  let x := fresh in let H := fresh in intros x H;
  repeat (apply elem_of_cons in H as [->|H]; [in_list|]); by apply elem_of_nil in H.
(** Evaluate [on] at literals. *)
Ltac on_literals :=
  repeat match goal with |- context [on ?l ?a] => let v := eval vm_compute in (on l a) in change (on l a) with v end; cbv iota.

Definition foreign (p : Principal) (r : option Resource) : Prop := ∃ t, rs_tenant_id (default no_resource r) = Some t ∧ t ≠ pp_tenant p.
Lemma foreign_mismatch p r : foreign p r → _platform_admin p = false → _tenant_matches p (default no_resource r) = false.
Proof.
  intros (t & Ht & Hn) Hp. unfold _tenant_matches. rewrite Ht, Hp, orb_false_r. by apply String.eqb_neq.
Qed.
Lemma host_platform p : may_admin_host p None = _platform_admin p.
Proof. done. Qed.

(** C10: Without platform_admin nobody acts on another tenant's resource through
    any of the seventeen actions whose rule looks at the resource; and every
    other action's rule - running scripts, resuming, promoting, jobs,
    evaluations, policy proposals, host, membership, key and platform
    operations, or an action the table does not know - decides the same for
    every principal whatever the resource is. *)
Theorem tenants_apart p action r r' :
  (action ∈ TENANT_ACTIONS → _platform_admin p = false → foreign p r → can p action r = false) ∧
  (action ∉ TENANT_ACTIONS → decide_action p action r = decide_action p action r').
Proof.
  split.
  - intros Ha Hp Hf. pose proof (foreign_mismatch p r Hf Hp) as Ht. destruct Hf as (t & Er & Hn). apply String.eqb_neq in Hn.
    unfold TENANT_ACTIONS in Ha.
    repeat (apply elem_of_cons in Ha as [->|Ha]; [unfold can, decide_action, admin_in_tenant, scoped, in_tenant, platform_only; on_literals;
      rewrite ?Ht, ?Hp, ?Er, ?Hn; simpl; by repeat match goal with |- context [if ?b then _ else _] => destruct b end|]).
    by apply elem_of_nil in Ha.
  - intros Ha. by_rule; try reflexivity.
    all: match goal with E : on ?l ?a = true |- _ => exfalso; apply Ha; revert E; apply (on_within l TENANT_ACTIONS a); all_in end.
Qed.

(** A principal with neither platform_admin - whatever else it holds, tenant
    admin included - can do nothing that belongs to the platform: promote
    seeds, bind host directories, grant memberships, run operations, or write
    the platform's secrets. *)
Theorem tenant_admin_confined p action r :
  "platform_admin" ∉ pp_scopes p → "platform_admin" ∉ pp_roles p →
  action ∈ PLATFORM_ACTIONS ∨ (action = "secret.write" ∧ platform_secret (default no_resource r) = true) →
  require p action r = Err Forbidden.
Proof.
  intros Hs Hr Ha. assert (_platform_admin p = false) as Hp.
  { unfold _platform_admin, has_role. rewrite !bool_decide_false by done. simpl. by rewrite bool_decide_false by (set_solver). }
  unfold require, PLATFORM_ACTIONS in *. destruct Ha as [Ha|[-> Hk]].
  - repeat (apply elem_of_cons in Ha as [->|Ha]; [unfold decide_action, platform_only; rewrite ?host_platform, Hp; reflexivity|]).
    by apply elem_of_nil in Ha.
  - unfold decide_action, platform_only. rewrite Hk, Hp. reflexivity.
Qed.

(** The table of docs/plans/remediation/sec-specs.md (SEC-7), row by row, on
    its own rules for scopes and roles (S2): admin, as scope or role, stands for
    the tenant-local scopes and the console's roles; platform_admin is implied
    by nothing.  [host_ok] is whether the host root is allowed (SEC-8). *)
Definition TENANT_LOCAL_SCOPES : list string := ["runs"; "exec"; "blobs"; "metrics"; "evals"; "jobs"; "promote"; "admin"].
Definition spec_admin (p : Principal) : bool := bool_decide ("admin" ∈ pp_scopes p) || bool_decide ("admin" ∈ pp_roles p).
Definition spec_scope (p : Principal) (s : string) : bool :=
  bool_decide (s ∈ pp_scopes p) || (bool_decide (s ∈ TENANT_LOCAL_SCOPES) && spec_admin p).
Definition spec_role (p : Principal) (s : string) : bool :=
  bool_decide (s ∈ pp_roles p) || (bool_decide (s ∈ ["operator"; "reviewer"; "admin"]) && spec_admin p).
Definition spec_allows (p : Principal) (action : string) (r : Resource) (host_ok : bool) : option bool :=
  let tenant_match := match rs_tenant_id r with None => true | Some t => String.eqb t (pp_tenant p) end in
  let is_session := bool_decide (pp_kind p = pk_console_session) in
  if String.eqb action "runs.create" then Some (spec_scope p "runs" && tenant_match)
  else if String.eqb action "runs.script" then Some (spec_scope p "exec" || spec_scope p "admin")
  else if String.eqb action "runs.cancel" then Some (spec_scope p "runs" && tenant_match)
  else if String.eqb action "runs.resume" then Some (spec_scope p "runs")
  else if String.eqb action "skill.promote" then Some (spec_scope p "promote" || spec_role p "reviewer")
  else if String.eqb action "skill.promote_seed" then Some (spec_scope p "platform_admin")
  else if String.eqb action "job.run" then Some (spec_scope p "jobs")
  else if String.eqb action "eval.run" then Some (spec_scope p "evals")
  else if String.eqb action "policy.propose" then Some (spec_scope p "runs" && (negb is_session || spec_role p "reviewer"))
  else if String.eqb action "policy.apply" then Some ((spec_role p "admin" || spec_scope p "admin") && tenant_match)
  else if String.eqb action "workspace.register" then Some (spec_scope p "admin" && host_ok)
  else if String.eqb action "membership.grant" then Some (spec_scope p "platform_admin")
  else if String.eqb action "secret.write" then
    Some (if platform_secret r then spec_scope p "platform_admin" else spec_scope p "admin" && tenant_match)
  else None.
(** Principals whose admin and platform_admin roles are their scopes', as every
    API key's are. *)
Definition roles_mirrored (p : Principal) : Prop :=
  bool_decide ("admin" ∈ pp_roles p) = bool_decide ("admin" ∈ pp_scopes p) ∧
  bool_decide ("platform_admin" ∈ pp_roles p) = bool_decide ("platform_admin" ∈ pp_scopes p).
Lemma api_key_mirrored key t scopes p : from_api_key key t scopes = Ok p → roles_mirrored p.
Proof.
  unfold from_api_key. destruct (tenant_id t) as [x|]; [|done]. intros [= <-].
  split; apply bool_decide_ext; simpl; rewrite elem_of_intersection; set_solver.
Qed.
Definition DIVERGING : list string := ["eval.run"; "policy.propose"; "workspace.register"].
Lemma platform_scope p : _platform_admin p = true → "platform_admin" ∈ pp_scopes p ∨ "platform_admin" ∈ pp_roles p.
Proof.
  unfold _platform_admin, has_role. rewrite !orb_true_iff, andb_true_iff, !bool_decide_eq_true.
  intros [[[?|?]|[H _]]|?]; [by right|by right| |by left]. exfalso. revert H. apply (bool_decide_eq_false _). reflexivity.
Qed.

(** Evaluate membership in literal lists; split on every atomic test. *)
Ltac in_literals :=
  repeat match goal with
  | |- context [bool_decide (@elem_of string (list string) ?E ?x ?l)] =>
      let v := eval vm_compute in (bool_decide (@elem_of string (list string) E x l)) in
      change (bool_decide (@elem_of string (list string) E x l)) with v
  end; cbn [negb andb orb String.eqb Ascii.eqb Bool.eqb].
Ltac destruct_atoms :=
  repeat match goal with
  | |- context [match rs_tenant_id ?r with _ => _ end] => destruct (rs_tenant_id r)
  | |- context [has_scope ?p ?s] => destruct (has_scope p s)
  | |- context [has_role ?p ?s] => destruct (has_role p s)
  | |- context [_platform_admin ?p] => destruct (_platform_admin p)
  | |- context [platform_secret ?r] => destruct (platform_secret r)
  | |- context [String.eqb ?a ?b] => destruct (String.eqb a b)
  | |- context [bool_decide ?P] => destruct (bool_decide P)
  end.

(** C35: For every principal whose admin and platform_admin roles mirror its
    scopes, the decision table implements the specified rules of ten of the
    thirteen SEC-7 actions, but that platform_admin is let through nine of them
    whatever the rule asks (running scripts is the tenth), and cancelling
    another tenant's run is answered 404.  The other three differ: evaluations
    are also open to the metrics scope, policy proposals do not ask sessions
    for the reviewer role, and registering a host asks platform_admin and
    nothing of the host root, instead of admin and an allowed root. *)
Theorem table_implements_spec p action r host_ok b :
  roles_mirrored p → spec_allows p action r host_ok = Some b → let c := can p action (Some r) in let pa := _platform_admin p in
  (action ∉ DIVERGING → c = b || (pa && negb (String.eqb action "runs.script"))) ∧
  (action = "runs.cancel" → spec_scope p "runs" = true → c = false → require p action (Some r) = Err NotFound) ∧
  (action = "eval.run" → c = b || spec_scope p "metrics" || pa) ∧
  (action = "policy.propose" → c = spec_scope p "runs" || pa) ∧
  (action = "workspace.register" → c = pa).
Proof.
  intros [Ma Mp]. unfold spec_allows. cbv zeta.
  assert (_platform_admin p = bool_decide ("platform_admin" ∈ pp_scopes p)) as Epa.
  { unfold _platform_admin, has_role. rewrite Mp. change (bool_decide ("platform_admin" ∈ ["operator"; "reviewer"; "admin"])) with false.
    simpl. by rewrite orb_false_r, !orb_diag. }
  repeat match goal with |- context [String.eqb action ?s] => destruct (String.eqb_spec action s) as [->|?] end; intros [= <-].
  all: split; [|split; [|split; [|split]]]; intros H; try discriminate H; try (exfalso; apply H; in_list; fail).
  all: unfold require, can, decide_action, scoped, admin_in_tenant, in_tenant, platform_only, _tenant_matches, _principal_may_exec; simpl default;
    rewrite ?host_platform; on_literals.
  all: unfold spec_scope, spec_role, spec_admin, has_scope, has_role; rewrite ?Epa, ?Ma, ?Mp; clear H.
  all: in_literals; destruct_atoms; done.
Qed.

(** platform_admin - a role that comes with the scope of that name - opens every action of the table but one: running a raw
    script asks for the exec or admin scope itself, where the check next to it
    ([assert_run_executable]) lets platform_admin stand for both. *)
Theorem platform_admin_reaches p action r :
  "platform_admin" ∈ pp_scopes p → "platform_admin" ∈ pp_roles p → action ∈ ACTIONS →
  can p action r = negb (String.eqb action "runs.script") || _principal_may_exec (Some p) ∧
  assert_run_executable p true = Ok tt.
Proof.
  intros Hs Hro Ha.
  assert (∀ s, has_role p s = true) as Hr by (intros s; unfold has_role; by rewrite (bool_decide_true ("platform_admin" ∈ _)), orb_true_r).
  assert (may_admin_registry p None None = true) as Hreg by (unfold may_admin_registry, tenant_access; by rewrite Hr, orb_true_r).
  assert (∀ s, has_scope p s = true) as Hsc.
  { intros s. unfold has_scope. rewrite (bool_decide_true ("platform_admin" ∈ _)) by done. by rewrite orb_true_r. }
  assert (_platform_admin p = true) as Hp by (unfold _platform_admin; rewrite (bool_decide_true ("platform_admin" ∈ pp_scopes p)) by done; apply orb_true_r).
  split; [|unfold assert_run_executable; by rewrite Hsc].
  unfold can, decide_action, scoped, admin_in_tenant, in_tenant, platform_only, _tenant_matches.
  unfold ACTIONS in Ha. repeat (apply elem_of_cons in Ha as [->|Ha]; [on_literals; rewrite ?host_platform, ?Hsc, ?Hp, ?Hr, ?Hreg; simpl;
    try done; destruct (default no_resource r) as [[t|] rid k]; simpl; rewrite ?orb_true_r, ?andb_false_r; try done;
    by repeat match goal with |- context [if ?b then _ else _] => destruct b end|]).
  by apply elem_of_nil in Ha.
Qed.

(** *** Tool grants *)

Lemma approve_all_grants tools reason g tool step :
  is_approved (approve_all tools reason g) tool step = bool_decide (tool ∈ tools) || is_approved g tool step.
Proof.
  unfold approve_all, is_approved. revert g. induction tools as [|t tools IH]; intros g; simpl; [done|].
  rewrite IH. simpl. clear IH. apply eq_true_iff_eq. rewrite !orb_true_iff, !bool_decide_eq_true, elem_of_cons.
  rewrite !elem_of_union, !elem_of_singleton. naive_solver.
Qed.
Lemma approve_grants tool reason g t step :
  is_approved (approve tool None "pdp" reason g) t step = bool_decide (t = tool) || is_approved g t step.
Proof.
  unfold is_approved. simpl. apply eq_true_iff_eq. rewrite !orb_true_iff, !bool_decide_eq_true, !elem_of_union, !elem_of_singleton.
  naive_solver.
Qed.

(** A run's grants are exactly these, whatever was granted before: the read
    tools always; an origin of "model" on the local backend nothing else; the
    write tools in a container or when the policy waives approval; on the local
    backend, with approval required, shell, edit and subtask only to a caller
    with exec or admin, and fetch to nobody; the external computer only when
    the isolation settings allow it. *)
Theorem grants_exact policy backend p origin run_backend g tool step :
  let resolved := default backend run_backend in
  let model_local := String.eqb origin "model" && bool_decide (resolved = be_local) in
  let waived := negb (require_tool_approval_for_non_read policy) in
  is_approved (approve_tools policy backend p origin run_backend g) tool step = true ↔
    tool ∈ _READ_TOOLS ∨
    (model_local = false ∧
      ((tool ∈ _CONTAINER_WRITES ∧ (waived = true ∨ resolved = be_container)) ∨
       (tool ∈ _LOCAL_EXEC_WRITES ∧ waived = false ∧ resolved = be_local ∧ _principal_may_exec p = true) ∨
       (tool = "external_computer" ∧ _external_computer_allowed policy = true))).
Proof.
  intros resolved model_local waived. unfold approve_tools. fold resolved. fold model_local. fold waived.
  assert (is_approved (clear g) tool step = false) as Hc.
  { unfold is_approved. simpl. rewrite !bool_decide_false by set_solver. done. }
  assert (is_approved (approve_all _READ_TOOLS "read" (clear g)) tool step = true ↔ tool ∈ _READ_TOOLS) as Hr.
  { rewrite approve_all_grants, Hc, orb_false_r. apply bool_decide_eq_true. }
  set (base := approve_all _READ_TOOLS "read" (clear g)) in *. clearbody base. set (R := tool ∈ _READ_TOOLS) in *. set (C := tool ∈ _CONTAINER_WRITES). set (L := tool ∈ _LOCAL_EXEC_WRITES).
  destruct model_local; [rewrite Hr; intuition discriminate|].
  destruct waived, resolved, (_principal_may_exec p), (_external_computer_allowed policy);
    rewrite ?(bool_decide_true (be_container = be_container)), ?(bool_decide_false (be_local = be_container)) by done; cbv iota;
    rewrite ?approve_grants, ?approve_all_grants, ?orb_true_iff, ?Hr, ?bool_decide_eq_true; fold C; fold L; clearbody R C L;
    intuition discriminate.
Qed.

(** ** Witnesses *)

Definition demo_key (scopes : list string) : Principal :=
  mkPrincipal "key_1" pk_api_key "acme" ["acme"] (list_to_set scopes) (list_to_set (List.filter (λ s, bool_decide (s ∈ ["admin"; "platform_admin"])) scopes)).
Definition of_tenant (t : string) : option Resource := Some (mkResource (Some t) None None).
Lemma privileges_monotone_witness : can (demo_key ["runs"; "jobs"]) "runs.read" (of_tenant "acme") = true.
Proof.
  apply (privileges_monotone (demo_key ["runs"]) (demo_key ["runs"; "jobs"])); [|vm_compute; reflexivity].
  split; [|done|done|done]. apply (bool_decide_eq_true (pp_scopes (demo_key ["runs"]) ⊆ pp_scopes (demo_key ["runs"; "jobs"]))).
  vm_compute. reflexivity.
Defined.
Lemma tenants_apart_witness :
  can (demo_key ["admin"]) "policy.apply" (of_tenant "other") = false ∧ can (demo_key ["admin"]) "policy.apply" (of_tenant "acme") = true ∧
  decide_action (demo_key ["runs"]) "runs.resume" (of_tenant "other") = decide_action (demo_key ["runs"]) "runs.resume" None.
Proof.
  split; [|split; [vm_compute; reflexivity|]].
  - apply (proj1 (tenants_apart (demo_key ["admin"]) "policy.apply" (of_tenant "other") None)).
    + apply (bool_decide_eq_true (_ ∈ TENANT_ACTIONS)). vm_compute. reflexivity.
    + vm_compute. reflexivity.
    + exists "other". split; [reflexivity|discriminate].
  - apply (proj2 (tenants_apart (demo_key ["runs"]) "runs.resume" (of_tenant "other") None)).
    apply (bool_decide_eq_false (_ ∈ TENANT_ACTIONS)). vm_compute. reflexivity.
Defined.
Lemma not_platform scopes : bool_decide ("platform_admin" ∈ pp_scopes (demo_key scopes)) = false →
  bool_decide ("platform_admin" ∈ pp_roles (demo_key scopes)) = false →
  "platform_admin" ∉ pp_scopes (demo_key scopes) ∧ "platform_admin" ∉ pp_roles (demo_key scopes).
Proof. rewrite !bool_decide_eq_false. done. Qed.
Lemma tenant_admin_confined_witness : require (demo_key ["admin"; "runs"]) "ops.restore" None = Err Forbidden.
Proof.
  destruct (not_platform ["admin"; "runs"]) as [H1 H2]; [vm_compute; reflexivity|vm_compute; reflexivity|].
  apply (tenant_admin_confined (demo_key ["admin"; "runs"]) "ops.restore" None H1 H2). left.
  apply (bool_decide_eq_true ("ops.restore" ∈ PLATFORM_ACTIONS)). vm_compute. reflexivity.
Defined.
Lemma table_implements_spec_witness : can (demo_key ["metrics"]) "eval.run" (Some (mkResource (Some "acme") None None)) = true.
Proof.
  destruct (table_implements_spec (demo_key ["metrics"]) "eval.run" (mkResource (Some "acme") None None) true false
    ltac:(split; vm_compute; reflexivity) ltac:(vm_compute; reflexivity)) as (_ & _ & H & _ & _).
  rewrite (H eq_refl). vm_compute. reflexivity.
Defined.
Lemma platform_admin_reaches_witness : can (demo_key ["platform_admin"]) "runs.script" None = false.
Proof.
  rewrite (proj1 (platform_admin_reaches (demo_key ["platform_admin"]) "runs.script" None
    ltac:(apply (bool_decide_eq_true (_ ∈ pp_scopes _)); vm_compute; reflexivity)
    ltac:(apply (bool_decide_eq_true (_ ∈ pp_roles _)); vm_compute; reflexivity)
    ltac:(apply (bool_decide_eq_true (_ ∈ ACTIONS)); vm_compute; reflexivity))).
  vm_compute. reflexivity.
Defined.
