(* ===== verification/ApiKeys.v ===== *)
(** * API keys (api/auth.py)

    [ApiKeyStore] with its key and audit tables and the failure limiter in
    front of them.  HMAC-SHA256 and PBKDF2 are parameters ([KeyCrypto]), bytes
    are strings, times are microseconds: [now] of the wall clock, [mono] of the
    monotonic one.  The theorems: who is let in, that an issued key works until
    it is revoked and never after, what a pepper rotation does, and how many
    failures the limiter lets through. *)
From S2P Require Import Prelude PyStr Budgets Contracts Queue Access.
From Stdlib Require Import ZArith Lia Ascii.
Open Scope Z_scope.

Class KeyCrypto := {
  hmac_sha256 : string → string → string;    (* key, message *)
  pbkdf2_hmac : string → string → string     (* secret, salt *)
}.
Definition SecretUnavailable : exn := PyError "SecretUnavailable".
Definition HTTPException (status : Z) : exn := PyError ("HTTPException " +:+ pretty status).

Definition _ALLOWED_SCOPES : names :=
  list_to_set ["runs"; "blobs"; "metrics"; "admin"; "exec"; "promote"; "jobs"; "platform_admin"].
Definition validate_scopes (scopes : names) : result names :=
  _ ← raise_unless (negb (bool_decide (scopes = ∅))) ValueError;
  _ ← raise_unless (bool_decide (scopes ⊆ _ALLOWED_SCOPES)) ValueError;
  _ ← raise_unless (forallb (λ s, negb (str_contains "," s) && String.eqb s (strip s) && negb (String.eqb s "")) (elements scopes)) ValueError;
  Ok scopes.
Definition sorted_names (s : names) : list string := sorted_by String.ltb (elements s).

(** [^rec_(key_[0-9a-f]+)\.([A-Za-z0-9_-]+)$], the first group. *)
Definition is_hex (c : ascii) : bool :=
  let n := nat_of_ascii c in ((48 <=? n) && (n <=? 57) || (97 <=? n) && (n <=? 102))%nat.
Fixpoint hex_id (s : string) : option (string * string) :=   (* the longest run of hex digits before a dot *)
  match s with
  | EmptyString => None
  | String c s' => if Ascii.eqb c "." then Some (EmptyString, s')
                   else if is_hex c then match hex_id s' with Some (h, t) => Some (String c h, t) | None => None end else None
  end.
Definition token_ok (t : string) : bool := negb (String.eqb t "") && all_chars tenant_char t.
Definition secret_key_id (secret : string) : option string :=
  if String.prefix "rec_key_" secret then
    match hex_id (String.substring 8 (String.length secret - 8) secret) with
    | Some (h, t) => if negb (String.eqb h "") && token_ok t then Some ("key_" +:+ h) else None
    | None => None
    end
  else None.

(** ** State *)

Record KeyRow := mkKeyRow {
  kr_tenant : string; kr_scopes : string; kr_salt : string; kr_hash : string; kr_created_at : datetime;
  kr_hash_alg : string; kr_pepper_id : string; kr_revoked : option (datetime * string) }.
#[export] Instance eta_KeyRow : Eta KeyRow := λ r,
  mkKeyRow (kr_tenant r) (kr_scopes r) (kr_salt r) (kr_hash r) (kr_created_at r) (kr_hash_alg r) (kr_pepper_id r) (kr_revoked r).
Record AuditRow := mkAudit {
  au_at : datetime; au_action : string; au_key_id : option string; au_actor : string; au_detail : string }.
Record KeyDb := mkKeyDb {
  kd_keys : gmap string KeyRow; kd_audit : list AuditRow;   (* in id order *)
  kd_failures : gmap string (list Z) }.
#[export] Instance eta_KeyDb : Eta KeyDb := λ d, mkKeyDb (kd_keys d) (kd_audit d) (kd_failures d).
Definition KM := M KeyDb.
Definition kgets {A} (f : KeyDb → A) : KM A := λ d, (d, Ok (f d)).
Definition kmod (f : KeyDb → KeyDb) : KM unit := λ d, (f d, Ok tt).

(** ** [_AuthRateLimiter] *)

Definition _window : Z := 60000000.
Definition _bucket (client_ip : string) (key_id : option string) : string :=
  client_ip +:+ "|" +:+ match key_id with Some k => if String.eqb k "" then "anon" else k | None => "anon" end.
Definition fresh_stamps (mono : Z) (l : list Z) : list Z := List.filter (λ t, mono - t <? _window) l.
Definition limiter_check (max_failures mono : Z) (key : string) : KM bool := λ d,
  let stamps := fresh_stamps mono (default [] (kd_failures d !! key)) in
  (d <| kd_failures := <[key := stamps]> (kd_failures d) |>, Ok (Z.of_nat (length stamps) <? max_failures)).
Definition record_failure (mono : Z) (key : string) : KM unit :=
  kmod (λ d, d <| kd_failures := <[key := default [] (kd_failures d !! key) ++ [mono]]> (kd_failures d) |>).

(** ** [ApiKeyStore] *)

Definition _CURRENT_PEPPER : string := "v1".
Definition _AUDIT_CAP : nat := 10000.

Definition redact (secret : option string) (detail : string) : string :=
  let text := String.substring 0 200 detail in
  match secret with
  | Some s => if String.eqb s "" then text else replace_all (String.length text) s "[redacted]" text
  | None => text
  end.
(** The newest row of a successful authentication by the key is under an hour old. *)
Definition _authenticated_recently (now : datetime) (audit : list AuditRow) (key_id : string) : bool :=
  match last (List.filter (λ r, String.eqb (au_action r) "authenticated" && bool_decide (au_key_id r = Some key_id)) audit) with
  | Some r => now - au_at r <? 3600000000
  | None => false
  end.
Definition _audit (now : datetime) (action : string) (key_id : option string) (actor detail : string) (secret : option string) : KM unit :=
  kmod (λ d,
    if String.eqb action "authenticated" &&
       match key_id with Some k => negb (String.eqb k "") && _authenticated_recently now (kd_audit d) k | None => false end
    then d
    else let rows := kd_audit d ++ [mkAudit now action key_id actor (redact secret detail)] in
         d <| kd_audit := drop (length rows - _AUDIT_CAP) rows |>).

Section Store.
Context `{KC : KeyCrypto}.
(** [_pepper], [_previous_pepper], [_bind_tenant] and the limiter's budget. *)
Context (pepper : string) (previous_pepper : option string) (bind_tenant : bool) (max_failures : Z).

(** HKDF: extract with 32 zero bytes, then blocks until [length]. *)
Definition zero_salt : string := String.concat "" (repeat (String (ascii_of_nat 0) EmptyString) 32).
Fixpoint expand (fuel : nat) (prk info : string) (len counter : nat) (block okm : string) : string :=
  match fuel with
  | O => okm
  | S fuel' =>
      if (String.length okm <? len)%nat then
        let block := hmac_sha256 prk (block +:+ info +:+ String (ascii_of_nat counter) EmptyString) in
        expand fuel' prk info len (S counter) block (okm +:+ block)
      else okm
  end.
Definition _hkdf_sha256 (ikm info : string) (len : nat) : string :=
  String.substring 0 len (expand len (hmac_sha256 zero_salt ikm) info len 1 "" "").
Definition _mac_key (tenant pepper_id material : string) : string :=
  if bind_tenant then _hkdf_sha256 material (tenant +:+ "|" +:+ pepper_id) 32 else material.
Definition _hmac (material secret tenant pepper_id : string) : string := hmac_sha256 (_mac_key tenant pepper_id material) secret.

Definition issue (now : datetime) (hex token tenant : string) (scopes : names) (actor : string) : KM (string * string * names) :=
  tenant ← lift (tenant_id tenant);
  scopes ← lift (validate_scopes scopes);
  let key_id := "key_" +:+ hex in
  let secret := "rec_" +:+ key_id +:+ "." +:+ token in
  taken ← kgets (λ d, bool_decide (is_Some (kd_keys d !! key_id)));
  _ ← lift (raise_unless (negb taken) IntegrityError);
  _ ← kmod (λ d, d <| kd_keys := <[key_id :=
        mkKeyRow tenant (join_str "," (sorted_names scopes)) "" (_hmac pepper secret tenant _CURRENT_PEPPER) now "hmac-sha256"
          _CURRENT_PEPPER None]> (kd_keys d) |>);
  _ ← _audit now "issued" (Some key_id) actor ("tenant=" +:+ tenant) None;
  mret (key_id, secret, scopes).

Definition rehashed (r : KeyRow) (secret : string) : KeyRow :=
  r <| kr_hash := _hmac pepper secret (kr_tenant r) _CURRENT_PEPPER |> <| kr_salt := "" |>
    <| kr_hash_alg := "hmac-sha256" |> <| kr_pepper_id := _CURRENT_PEPPER |>.
Definition _rehash (key_id secret : string) : KM unit :=
  kmod (λ d, d <| kd_keys := alter (λ r, rehashed r secret) key_id (kd_keys d) |>).
Definition or_else (a b : string) : string := if String.eqb a "" then b else a.
Definition _hash_matches (key_id secret : string) (r : KeyRow) : KM bool :=
  let pid := or_else (or_else (kr_pepper_id r) "legacy") _CURRENT_PEPPER in
  if String.eqb (or_else (kr_hash_alg r) "pbkdf2-sha256") "pbkdf2-sha256" then
    if String.eqb (pbkdf2_hmac secret (kr_salt r)) (kr_hash r) then _ ← _rehash key_id secret; mret true else mret false
  else if String.eqb (_hmac pepper secret (kr_tenant r) pid) (kr_hash r) then
    _ ← (if String.eqb pid _CURRENT_PEPPER then mret tt else _rehash key_id secret); mret true
  else
    match previous_pepper with
    | Some old => if String.eqb (_hmac old secret (kr_tenant r) pid) (kr_hash r) then _ ← _rehash key_id secret; mret true else mret false
    | None => mret false
    end.
Definition checked_row (key_id : string) (r : KeyRow) : result Principal :=
  t ← tenant_id (kr_tenant r);
  scopes ← validate_scopes (list_to_set (split_char "," (kr_scopes r)));
  from_api_key key_id t scopes.
Definition _principal_from_row (now : datetime) (key_id secret : string) (r : KeyRow) : KM (option Principal) :=
  ok ← _hash_matches key_id secret r;
  if negb ok then mret None
  else
    match checked_row key_id r with
    | Err _ => _ ← _audit now "authentication_failed" (Some key_id) key_id "invalid tenant or scopes" (Some secret); mret None
    | Ok p => _ ← _audit now "authenticated" (Some key_id) key_id "success" (Some secret); mret (Some p)
    end.
Definition live_row (d : KeyDb) (key_id : string) : option KeyRow :=
  r ← kd_keys d !! key_id; if kr_revoked r then None else Some r.
Definition authenticate (now mono : Z) (secret : option string) (client_ip : string) : KM (option Principal) :=
  match secret with
  | None => mret None
  | Some secret =>
      if String.eqb secret "" then mret None
      else
        let structured := secret_key_id secret in
        let bucket := _bucket client_ip structured in
        open ← limiter_check max_failures mono bucket;
        if negb open then mret None
        else
          match structured with
          | None =>
              _ ← record_failure mono bucket;
              _ ← _audit now "authentication_failed" None "anonymous" "unstructured key rejected" (Some secret);
              mret None
          | Some key_id =>
              row ← kgets (λ d, live_row d key_id);
              p ← (match row with Some r => _principal_from_row now key_id secret r | None => mret None end);
              match p with
              | Some p => mret (Some p)
              | None =>
                  _ ← record_failure mono bucket;
                  _ ← _audit now "authentication_failed" (Some key_id) "anonymous" "invalid key" (Some secret);
                  mret None
              end
          end
  end.
Definition revoke (now : datetime) (key_id actor : string) : KM bool :=
  row ← kgets (λ d, live_row d key_id);
  match row with
  | None => mret false
  | Some r =>
      _ ← kmod (λ d, d <| kd_keys := <[key_id := r <| kr_revoked := Some (now, actor) |>]> (kd_keys d) |>);
      _ ← _audit now "revoked" (Some key_id) actor "revoked" None;
      mret true
  end.
Definition created_lt (a b : string * KeyRow) : bool := kr_created_at a.2 <? kr_created_at b.2.
Definition list_keys (d : KeyDb) : list (string * KeyRow) := sorted_by created_lt (map_to_list (kd_keys d)).
Definition require_key (now mono : Z) (required_scope : string) (x_api_key : option string) (client_ip : string) : KM Principal :=
  p ← authenticate now mono x_api_key client_ip;
  match p with
  | None => raise (HTTPException 401)
  | Some p => if has_scope p required_scope then mret p else raise (HTTPException 403)
  end.
End Store.

(** ** Theorems *)

(** *** Secrets and scope columns read back *)

Lemma hex_id_app h t : all_chars is_hex h = true → hex_id (h +:+ "." +:+ t) = Some (h, t).
Proof.
  induction h as [|c h IH]; intros H; [done|]. apply andb_true_iff in H as [Hc H]. change (String c h +:+ "." +:+ t) with (String c (h +:+ "." +:+ t)).
  cbn [hex_id]. rewrite IH, Hc by done. destruct (Ascii.eqb_spec c "."); [by subst|done].
Qed.
Lemma secret_key_id_issued hex token :
  all_chars is_hex hex = true → hex ≠ "" → token_ok token = true →
  secret_key_id ("rec_" +:+ ("key_" +:+ hex) +:+ "." +:+ token) = Some ("key_" +:+ hex).
Proof.
  intros Hh Hn Ht. set (rest := hex +:+ "." +:+ token).
  change ("rec_" +:+ ("key_" +:+ hex) +:+ "." +:+ token) with ("rec_key_" +:+ rest). unfold secret_key_id.
  change (String.prefix "rec_key_" ("rec_key_" +:+ rest)) with (String.prefix "" rest). replace (String.prefix "" rest) with true by by destruct rest.
  change (String.length ("rec_key_" +:+ rest) - 8)%nat with (String.length rest - 0)%nat. rewrite Nat.sub_0_r.
  change (String.substring 8 (String.length rest) ("rec_key_" +:+ rest)) with (String.substring 0 (String.length rest) rest).
  rewrite substring_full. unfold rest. rewrite hex_id_app, Ht by done. by apply String.eqb_neq in Hn as ->.
Qed.

Lemma validate_scopes_Ok s s' : validate_scopes s = Ok s' → s' = s ∧ s ≠ ∅ ∧ s ⊆ _ALLOWED_SCOPES.
Proof.
  unfold validate_scopes. intros (u1 & H1%raise_unless_Ok & (u2 & H2%raise_unless_Ok & (u3 & _ & [= <-])%bind_Ok_inv)%bind_Ok_inv)%bind_Ok_inv.
  apply negb_true_iff, bool_decide_eq_false in H1. by apply bool_decide_eq_true in H2.
Qed.
Lemma scopes_read_back s s' :
  validate_scopes s = Ok s' → validate_scopes (list_to_set (split_char "," (join_str "," (sorted_names s)))) = Ok s.
Proof.
  intros H. pose proof (validate_scopes_Ok _ _ H) as (-> & Hn & Hs).
  assert (∀ x, x ∈ sorted_names s ↔ x ∈ s) as He by (intros x; unfold sorted_names; rewrite sorted_by_elem; apply elem_of_elements).
  assert (split_char "," (join_str "," (sorted_names s)) = sorted_names s) as E.
  { apply split_join.
    - intros E. apply Hn. apply set_eq. intros x. rewrite <- He, E. set_solver.
    - intros x Hx%He%Hs. unfold _ALLOWED_SCOPES in Hx. apply elem_of_list_to_set in Hx.
      repeat (apply elem_of_cons in Hx as [->|Hx]; [reflexivity|]). by apply elem_of_nil in Hx. }
  rewrite E. assert (list_to_set (C := names) (sorted_names s) = s) as ->; [|done]. apply set_eq. intros x. by rewrite elem_of_list_to_set, He.
Qed.

Section Theorems.
Context `{KC : KeyCrypto} (pepper : string) (previous_pepper : option string) (bind_tenant : bool) (max_failures : Z).
Notation tag material secret r pid := (_hmac bind_tenant material secret (kr_tenant r) pid).
Notation auth := (authenticate pepper previous_pepper bind_tenant max_failures).
Notation rehash := (rehashed pepper bind_tenant).

(** *** What an operation does to the key table *)

(** How a secret proves itself against a row: [Some true] when the row is
    then rewritten under the current pepper. *)
Definition row_pepper (r : KeyRow) : string := or_else (or_else (kr_pepper_id r) "legacy") _CURRENT_PEPPER.
Definition proof_of (r : KeyRow) (secret : string) : option bool :=
  if String.eqb (or_else (kr_hash_alg r) "pbkdf2-sha256") "pbkdf2-sha256" then
    if String.eqb (pbkdf2_hmac secret (kr_salt r)) (kr_hash r) then Some true else None
  else if String.eqb (tag pepper secret r (row_pepper r)) (kr_hash r) then Some (negb (String.eqb (row_pepper r) _CURRENT_PEPPER))
  else match previous_pepper with
       | Some old => if String.eqb (tag old secret r (row_pepper r)) (kr_hash r) then Some true else None
       | None => None
       end.
Definition after_proof (d : KeyDb) (key_id secret : string) (o : option bool) : KeyDb :=
  match o with Some true => d <| kd_keys := alter (λ r, rehash r secret) key_id (kd_keys d) |> | _ => d end.
Lemma hash_matches_spec key_id secret r d :
  _hash_matches pepper previous_pepper bind_tenant key_id secret r d =
  (after_proof d key_id secret (proof_of r secret), Ok (bool_decide (is_Some (proof_of r secret)))).
Proof.
  unfold _hash_matches, proof_of. fold (row_pepper r).
  destruct (String.eqb (or_else (kr_hash_alg r) _) _); [by destruct (String.eqb (pbkdf2_hmac _ _) _)|].
  destruct (String.eqb (tag pepper _ _ _) _); [by destruct (String.eqb (row_pepper r) _)|].
  destruct previous_pepper as [old|]; [|done]. by destruct (String.eqb (tag old _ _ _) _).
Qed.
Lemma audit_keys now a k b c s d d' u : _audit now a k b c s d = (d', u) → kd_keys d' = kd_keys d ∧ kd_failures d' = kd_failures d ∧ u = Ok tt.
Proof. unfold _audit, kmod. intros [= <- <-]. by destruct (_ && _). Qed.

(** The whole of [authenticate]: what is returned, and what becomes of the
    keys and the failure counts. *)
Inductive authenticated (now mono : Z) (ip : string) (d : KeyDb) : option string → KeyDb → option Principal → Prop :=
  | au_blank s : s = None ∨ s = Some "" → authenticated now mono ip d s d None
  | au_blocked s d' : s ≠ "" →
      max_failures ≤ Z.of_nat (length (fresh_stamps mono (default [] (kd_failures d !! _bucket ip (secret_key_id s))))) →
      kd_keys d' = kd_keys d → kd_failures d' = <[_bucket ip (secret_key_id s) := fresh_stamps mono (default [] (kd_failures d !! _bucket ip (secret_key_id s)))]> (kd_failures d) →
      authenticated now mono ip d (Some s) d' None
  | au_failed s d' o :
      Z.of_nat (length (fresh_stamps mono (default [] (kd_failures d !! _bucket ip (secret_key_id s))))) < max_failures →
      kd_keys d' = match o with Some (k, b) => kd_keys (after_proof d k s b) | None => kd_keys d end →
      match o with
      | Some (k, b) => secret_key_id s = Some k ∧ ∃ r, live_row d k = Some r ∧ b = proof_of r s ∧ (is_Some b → ∀ p, checked_row k r ≠ Ok p)
      | None => ∀ k, secret_key_id s = Some k → live_row d k = None
      end →
      kd_failures d' = <[_bucket ip (secret_key_id s) := fresh_stamps mono (default [] (kd_failures d !! _bucket ip (secret_key_id s))) ++ [mono]]> (kd_failures d) →
      authenticated now mono ip d (Some s) d' None
  | au_accepted s k r b p d' :
      Z.of_nat (length (fresh_stamps mono (default [] (kd_failures d !! _bucket ip (Some k))))) < max_failures →
      secret_key_id s = Some k → live_row d k = Some r → proof_of r s = Some b → checked_row k r = Ok p →
      kd_keys d' = kd_keys (after_proof d k s (Some b)) →
      kd_failures d' = <[_bucket ip (Some k) := fresh_stamps mono (default [] (kd_failures d !! _bucket ip (Some k)))]> (kd_failures d) →
      authenticated now mono ip d (Some s) d' (Some p).
Lemma principal_spec now k s r d :
  ∃ d', kd_failures d' = kd_failures d ∧ kd_keys d' = kd_keys (after_proof d k s (proof_of r s)) ∧
    _principal_from_row pepper previous_pepper bind_tenant now k s r d =
    (d', Ok (match proof_of r s, checked_row k r with Some _, Ok p => Some p | _, _ => None end)).
Proof.
  unfold _principal_from_row, mbind, M_bind. rewrite hash_matches_spec. set (d1 := after_proof d k s (proof_of r s)).
  assert (kd_failures d1 = kd_failures d) as Ef by (unfold d1, after_proof; by destruct (proof_of r s) as [[]|]).
  destruct (proof_of r s) as [b|]; [|by exists d1]. cbn [is_Some bool_decide]. rewrite bool_decide_true by eauto. cbn [negb]. cbv iota.
  destruct (checked_row k r) as [p|e]; cbv beta;
    (match goal with |- context [_audit ?n ?a ?b ?c ?e ?f d1] => destruct (_audit n a b c e f d1) as [d2 u] eqn:Ea end;
     apply audit_keys in Ea as (A & B & ->); exists d2; split_and!; [congruence|done|done]).
Qed.
Lemma failure_spec now mono bk st s d d1 act id actor detail :
  kd_failures d1 = <[bk := st]> (kd_failures d) →
  ∃ d', (_ ← record_failure mono bk; _ ← _audit now act id actor detail s; mret None) d1 = (d', Ok (None : option Principal)) ∧
    kd_keys d' = kd_keys d1 ∧ kd_failures d' = <[bk := st ++ [mono]]> (kd_failures d).
Proof.
  intros Ef. unfold mbind, M_bind, record_failure, kmod at 1.
  destruct (_audit now act id actor detail s _) as [d3 u] eqn:Ea. apply audit_keys in Ea as (A & B & ->).
  eexists. split; [done|]. rewrite A, B. split; [done|]. simpl. rewrite Ef. simpl. by rewrite lookup_insert_eq, insert_insert_eq.
Qed.
Lemma authenticate_spec now mono s ip d :
  ∃ d' o, auth now mono s ip d = (d', Ok o) ∧ authenticated now mono ip d s d' o.
Proof.
  unfold authenticate. destruct s as [s|]; [|eexists _, _; split; [done|by constructor; left]].
  destruct (String.eqb_spec s "") as [->|Hs]; [eexists _, _; split; [done|by constructor; right]|].
  set (bk := _bucket ip (secret_key_id s)). unfold mbind at 1, M_bind. unfold limiter_check. fold bk.
  set (st := fresh_stamps mono _). set (d1 := d <| kd_failures := _ |>). destruct (Z.ltb_spec (Z.of_nat (length st)) max_failures) as [Hl|Hl]; cbn [negb]; cbv iota.
  2:{ eexists _, _. split; [done|]. by apply au_blocked. }
  destruct (secret_key_id s) as [k|] eqn:Ek.
  2:{ destruct (failure_spec now mono bk st (Some s) d d1 "authentication_failed" None "anonymous" "unstructured key rejected" eq_refl) as (d' & E & A & B).
      eexists _, _. split; [exact E|]. apply (au_failed _ _ _ _ _ _ None); rewrite ?Ek; [exact Hl|exact A|by intros k|exact B]. }
  unfold mbind at 1, M_bind. unfold kgets. change (live_row d1 k) with (live_row d k).
  destruct (live_row d k) as [r|] eqn:Er.
  2:{ destruct (failure_spec now mono bk st (Some s) d d1 "authentication_failed" (Some k) "anonymous" "invalid key" eq_refl) as (d' & E & A & B).
      eexists _, _. split; [exact E|].
      apply (au_failed _ _ _ _ _ _ None); rewrite ?Ek; [exact Hl|exact A| |exact B]. by intros k' [= <-]. }
  destruct (principal_spec now k s r d1) as (d2 & Ef & Ek2 & E).
  assert (kd_keys (after_proof d1 k s (proof_of r s)) = kd_keys (after_proof d k s (proof_of r s))) as E1
    by (unfold after_proof; by destruct (proof_of r s) as [[]|]).
  unfold mbind at 1, M_bind. rewrite E. destruct (proof_of r s) as [b|] eqn:Eb; [destruct (checked_row k r) as [p|e] eqn:Ec|].
  1:{ eexists _, _. split; [done|]. apply (au_accepted _ _ _ _ _ k r b p); [done|done|done|done|done|by rewrite Ek2|by rewrite Ef]. }
  all: destruct (failure_spec now mono bk st (Some s) d d2 "authentication_failed" (Some k) "anonymous" "invalid key") as (d' & E' & A & B);
    [by rewrite Ef|]; eexists _, _; (split; [exact E'|]).
  all: apply (au_failed _ _ _ _ _ _ (Some (k, proof_of r s))); rewrite ?Ek, ?Eb; [exact Hl|by rewrite A, Ek2| |exact B].
  all: split; [done|]; exists r; rewrite ?Ec; split_and!; [done|by rewrite Eb|].
  - done.
  - by intros [? ?].
Qed.

(** *** Sequences of operations *)

Inductive KeyOp :=
  | k_issue (now : datetime) (hex token tenant : string) (scopes : names) (actor : string)
  | k_authenticate (now mono : Z) (secret : option string) (ip : string)
  | k_revoke (now : datetime) (key_id actor : string).
Definition kexec (d : KeyDb) (o : KeyOp) : KeyDb :=
  match o with
  | k_issue now hex token tenant scopes actor => (issue pepper bind_tenant now hex token tenant scopes actor d).1
  | k_authenticate now mono secret ip => (auth now mono secret ip d).1
  | k_revoke now k actor => (revoke now k actor d).1
  end.
Definition krun (ops : list KeyOp) (d : KeyDb) : KeyDb := foldl kexec d ops.

Lemma issue_spec now hex token tenant scopes actor d d' res :
  issue pepper bind_tenant now hex token tenant scopes actor d = (d', res) →
  let k := "key_" +:+ hex in let secret := "rec_" +:+ k +:+ "." +:+ token in
  (kd_keys d' = kd_keys d ∧ kd_failures d' = kd_failures d ∧ ∃ e, res = Err e) ∨
  (∃ t sc, tenant_id tenant = Ok t ∧ validate_scopes scopes = Ok sc ∧ kd_keys d !! k = None ∧ res = Ok (k, secret, sc) ∧
    kd_failures d' = kd_failures d ∧
    kd_keys d' = <[k := mkKeyRow t (join_str "," (sorted_names sc)) "" (_hmac bind_tenant pepper secret t _CURRENT_PEPPER) now "hmac-sha256"
                         _CURRENT_PEPPER None]> (kd_keys d)).
Proof.
  intros H k secret. unfold issue, mbind, M_bind, lift in H. destruct (tenant_id tenant) as [t|e]; [|injection H as <- <-; left; eauto].
  destruct (validate_scopes scopes) as [sc|e]; [|injection H as <- <-; left; eauto]. unfold kgets in H. fold k in H.
  destruct (kd_keys d !! k) as [r|] eqn:Ek; [rewrite bool_decide_true in H by eauto; injection H as <- <-; left; eauto|].
  rewrite bool_decide_false in H by (by intros [? ?]). cbn [negb raise_unless] in H. fold secret in H. unfold kmod at 1 in H.
  match type of H with context [_audit ?n ?a ?b ?c ?e ?f ?x] => destruct (_audit n a b c e f x) as [d2 u] eqn:Ea end.
  apply audit_keys in Ea as (A & B & ->). injection H as <- <-. right. exists t, sc. split_and!; done.
Qed.
Lemma revoke_spec now k actor d :
  (live_row d k = None ∧ revoke now k actor d = (d, Ok false)) ∨
  (∃ r d', live_row d k = Some r ∧ revoke now k actor d = (d', Ok true) ∧ kd_failures d' = kd_failures d ∧
    kd_keys d' = <[k := r <| kr_revoked := Some (now, actor) |>]> (kd_keys d)).
Proof.
  unfold revoke, mbind, M_bind, kgets. destruct (live_row d k) as [r|]; [right|by left].
  unfold kmod at 1. match goal with |- context [_audit ?n ?a ?b ?c ?e ?f ?x] => destruct (_audit n a b c e f x) as [d2 u] eqn:Ea end.
  apply audit_keys in Ea as (A & B & ->). by exists r, d2.
Qed.

(** Each operation leaves a row alone, makes it for the first time, rewrites
    it under the current pepper after a proof, or revokes it. *)
Lemma kexec_row d o k :
  kd_keys (kexec d o) !! k = kd_keys d !! k ∨ kd_keys d !! k = None ∨
  (∃ r s now mono ip, o = k_authenticate now mono (Some s) ip ∧ secret_key_id s = Some k ∧ live_row d k = Some r ∧
     proof_of r s = Some true ∧ kd_keys (kexec d o) !! k = Some (rehash r s)) ∨
  (∃ r now actor, o = k_revoke now k actor ∧ live_row d k = Some r ∧
     kd_keys (kexec d o) !! k = Some (r <| kr_revoked := Some (now, actor) |>)).
Proof.
  assert (∀ k' s b, live_row d k' = None ∨ (∃ r, live_row d k' = Some r ∧ b = proof_of r s) →
    kd_keys (after_proof d k' s b) !! k = kd_keys d !! k ∨
    (k' = k ∧ ∃ r, live_row d k' = Some r ∧ proof_of r s = Some true ∧ kd_keys (after_proof d k' s b) !! k = Some (rehash r s)) ∨
    live_row d k' = None) as Hafter.
  { intros k' s b [?|(r & Hr & ->)]; [by right; right|]. destruct (proof_of r s) as [[]|] eqn:Ep; simpl; [|by left|by left].
    destruct (decide (k' = k)) as [->|Hn]; [|left; by rewrite lookup_alter_ne]. right. left. split; [done|]. exists r. split_and!; [done|done|].
    unfold live_row in Hr. destruct (kd_keys d !! k) as [r'|] eqn:E; [|done]. simpl in Hr. destruct (kr_revoked r'); [done|]. injection Hr as ->.
    by rewrite lookup_alter_eq, E. }
  destruct o as [now hex token tenant scopes actor|now mono secret ip|now k' actor]; simpl.
  - destruct (issue _ _ now hex token tenant scopes actor d) as [d' res] eqn:E.
    apply issue_spec in E as [(A & _)|(t & sc & _ & _ & Hk & _ & _ & A)]; simpl; rewrite A; [by left|].
    destruct (decide (k = "key_" +:+ hex)) as [->|Hn]; [by right; left|left; by rewrite lookup_insert_ne].
  - destruct (authenticate_spec now mono secret ip d) as (d' & o & -> & Ha). simpl.
    destruct Ha as [s|s d' _ _ A _|s d' o _ A Ho _|s k' r b p d' _ Hs Hr Hb _ A _]; rewrite ?A; [by left|by left| |].
    + destruct o as [[k' b]|]; [|by left]. destruct Ho as (Hs & r & Hr & -> & _). destruct (Hafter k' s (proof_of r s)) as [E|[(-> & r' & E1 & E2 & E3)|E]].
      * right. by exists r.
      * by left.
      * do 2 right. left. by exists r', s, now, mono, ip.
      * congruence.
    + destruct (Hafter k' s (Some b)) as [E|[(-> & r' & E1 & E2 & E3)|E]]; [right; by exists r|by left| |congruence].
      do 2 right. left. by exists r', s, now, mono, ip.
  - destruct (revoke_spec now k' actor d) as [[_ ->]|(r & d' & Hr & -> & _ & A)]; simpl; [by left|]. rewrite A.
    destruct (decide (k' = k)) as [->|Hn]; [|left; by rewrite lookup_insert_ne]. do 3 right. exists r, now, actor. by rewrite lookup_insert_eq.
Qed.

(** *** Who is let in *)

Lemma checked_row_Ok k r p :
  checked_row k r = Ok p → pp_subject p = k ∧ pp_kind p = pk_api_key ∧ pp_tenant p = kr_tenant r ∧ pp_tenants p = [kr_tenant r] ∧
    pp_scopes p = list_to_set (split_char "," (kr_scopes r)) ∧ pp_scopes p ⊆ _ALLOWED_SCOPES ∧
    pp_roles p = pp_scopes p ∩ list_to_set ["admin"; "platform_admin"].
Proof.
  unfold checked_row, from_api_key, tenant_id. destruct (tenant_ok (kr_tenant r)) eqn:Et; [|done].
  intros (t & [= <-] & (sc & H & Hp)%bind_Ok_inv)%bind_Ok_inv. rewrite Et in Hp. injection Hp as <-.
  apply validate_scopes_Ok in H as (-> & _ & Hs). done.
Qed.
Lemma row_after d k s b : (kd_keys (after_proof d k s b) !! k = kd_keys d !! k) ∨
  (b = Some true ∧ kd_keys (after_proof d k s b) !! k = (λ r, rehash r s) <$> kd_keys d !! k).
Proof. destruct b as [[]|]; simpl; [right; by rewrite lookup_alter_eq|by left|by left]. Qed.

(** C11: Whoever is let in presented a secret whose own text names the key: the key
    is in the table and not revoked, the secret proves itself under the
    current pepper, the previous one or the old hash, the caller is under its
    failure budget, and what it may do is what the row says - one tenant, the
    row's scopes, all of them allowed, no role but admin and platform_admin. *)
Theorem authenticate_sound now mono secret ip d d' p :
  auth now mono secret ip d = (d', Ok (Some p)) →
  ∃ s r, secret = Some s ∧ secret_key_id s = Some (pp_subject p) ∧
    kd_keys d !! pp_subject p = Some r ∧ kr_revoked r = None ∧
    (kr_hash r = pbkdf2_hmac s (kr_salt r) ∨ kr_hash r = tag pepper s r (row_pepper r) ∨
     ∃ old, previous_pepper = Some old ∧ kr_hash r = tag old s r (row_pepper r)) ∧
    Z.of_nat (length (fresh_stamps mono (default [] (kd_failures d !! _bucket ip (Some (pp_subject p)))))) < max_failures ∧
    pp_tenant p = kr_tenant r ∧ pp_tenants p = [kr_tenant r] ∧ pp_scopes p = list_to_set (split_char "," (kr_scopes r)) ∧
    pp_scopes p ⊆ _ALLOWED_SCOPES ∧ pp_roles p = pp_scopes p ∩ list_to_set ["admin"; "platform_admin"].
Proof.
  intros H. destruct (authenticate_spec now mono secret ip d) as (d1 & o & E & Ha). rewrite H in E. injection E as <- <-.
  inversion Ha as [| | |s k r b p' d2 Hl Hs Hr Hb Hc _ _]; subst. destruct (checked_row_Ok _ _ _ Hc) as (E1 & E2 & E3 & E4 & E5 & E6 & E7).
  rewrite E1 in *. unfold live_row in Hr. destruct (kd_keys d !! k) as [r0|] eqn:Ek; [|done]. simpl in Hr.
  destruct (kr_revoked r0) eqn:Erv; [done|]. injection Hr as ->. exists s, r. split_and!; try done.
  unfold proof_of in Hb. destruct (String.eqb _ "pbkdf2-sha256"); [destruct (String.eqb_spec (pbkdf2_hmac s (kr_salt r)) (kr_hash r)); [by left|done]|].
  destruct (String.eqb_spec (tag pepper s r (row_pepper r)) (kr_hash r)); [by right; left|].
  destruct previous_pepper as [old|]; [|done].
  destruct (String.eqb_spec (tag old s r (row_pepper r)) (kr_hash r)) as [E|]; [|done]. right. right. by exists old.
Qed.

(** *** Revocation *)

Definition revoked_row (d : KeyDb) (k : string) : Prop := ∃ r, kd_keys d !! k = Some r ∧ kr_revoked r ≠ None.
Lemma revoked_dead d k : revoked_row d k → live_row d k = None.
Proof. intros (r & Hr & Hn). unfold live_row. rewrite Hr. simpl. by destruct (kr_revoked r). Qed.
Lemma kexec_revoked d o k : revoked_row d k → revoked_row (kexec d o) k.
Proof.
  intros Hk. pose proof (revoked_dead d k Hk) as Hd. destruct Hk as (r & Hr & Hn).
  destruct (kexec_row d o k) as [E|[E|[(r' & s & now & mono & ip & _ & _ & Hl & _)|(r' & now & actor & _ & Hl & _)]]]; try congruence.
  exists r. by rewrite E.
Qed.

Lemma krun_revoked ops d k : revoked_row d k → revoked_row (krun ops d) k.
Proof. revert d. induction ops as [|o ops IH]; intros d Hd; [done|]. by apply IH, kexec_revoked. Qed.

(** Revoking is final: once a key was revoked no secret, no later operation -
    issuing, authenticating, revoking again - and no pepper rotation of a row
    lets anyone in under it again. *)
Theorem revoked_key_is_dead now k actor d d1 ops now' mono secret ip d2 p :
  revoke now k actor d = (d1, Ok true) → auth now' mono secret ip (krun ops d1) = (d2, Ok (Some p)) → pp_subject p ≠ k.
Proof.
  intros Hrv H. assert (revoked_row d1 k) as Hk.
  { destruct (revoke_spec now k actor d) as [[_ E]|(r & d' & _ & E & _ & A)]; rewrite Hrv in E; [done|]. injection E as <-.
    eexists. rewrite A, lookup_insert_eq. split; done. }
  assert (revoked_row (krun ops d1) k) as Hk'.
  { by apply krun_revoked. }
  intros <-. destruct (authenticate_spec now' mono secret ip (krun ops d1)) as (d' & o & E & Ha). rewrite H in E. injection E as <- <-.
  inversion Ha as [| | |s k r b p' d3 Hl Hs Hr Hb Hc _ _]; subst. apply checked_row_Ok in Hc as [Ep _]. rewrite Ep in Hk'.
  by rewrite (revoked_dead _ _ Hk') in Hr.
Qed.

(** *** An issued key works *)

(** The row [issue] makes; nobody else proves itself against it in a way that
    rewrites it, as long as no tag under the previous pepper is a tag under
    the current one. *)
Definition issued_row (now : datetime) (tenant secret : string) (scopes : names) : KeyRow :=
  mkKeyRow tenant (join_str "," (sorted_names scopes)) "" (_hmac bind_tenant pepper secret tenant _CURRENT_PEPPER) now "hmac-sha256"
    _CURRENT_PEPPER None.
Hypothesis tags_distinct : ∀ old t s s', previous_pepper = Some old →
  _hmac bind_tenant old s' t _CURRENT_PEPPER ≠ _hmac bind_tenant pepper s t _CURRENT_PEPPER.
Lemma issued_stays now t s sc s' : proof_of (issued_row now t s sc) s' ≠ Some true.
Proof.
  unfold proof_of, issued_row, row_pepper. simpl. destruct (String.eqb _ _); [done|].
  destruct previous_pepper as [old|]; [|done]. match goal with |- context [String.eqb ?a ?b] => destruct (String.eqb_spec a b) as [E|] end; [|done].
  by apply tags_distinct in E.
Qed.
Lemma krun_issued ops d k now t s sc :
  (∀ now actor, k_revoke now k actor ∉ ops) → kd_keys d !! k = Some (issued_row now t s sc) → kd_keys (krun ops d) !! k = Some (issued_row now t s sc).
Proof.
  revert d. induction ops as [|o ops IH]; intros d Hn Hk; [done|]. apply IH; [intros n a Hin; by apply (Hn n a); right|].
  destruct (kexec_row d o k) as [E|[E|[(r' & s' & n & mono & ip & _ & _ & Hl & Hp & _)|(r' & n & actor & -> & _)]]]; [by rewrite E|congruence| |].
  - unfold live_row in Hl. rewrite Hk in Hl. injection Hl as <-. by apply issued_stays in Hp.
  - by destruct (Hn n actor); left.
Qed.

(** An issued key lets its holder in, with the tenant and exactly the scopes it
    was issued for, after any history of other operations, until it is
    revoked - unless the caller's address has used up its failures. *)
Theorem issued_key_works now hex token tenant scopes actor d d1 k secret sc ops now' mono ip :
  all_chars is_hex hex = true → hex ≠ "" → token_ok token = true →
  issue pepper bind_tenant now hex token tenant scopes actor d = (d1, Ok (k, secret, sc)) →
  (∀ now actor, k_revoke now k actor ∉ ops) →
  Z.of_nat (length (fresh_stamps mono (default [] (kd_failures (krun ops d1) !! _bucket ip (Some k))))) < max_failures →
  ∃ d2 p, auth now' mono (Some secret) ip (krun ops d1) = (d2, Ok (Some p)) ∧
    pp_subject p = k ∧ pp_tenant p = tenant ∧ pp_scopes p = scopes.
Proof.
  intros Hh Hn Ht Hi Hr Hl. apply issue_spec in Hi as [(_ & _ & e & [=])|(t & sc' & Et & Es & _ & [= -> -> ->] & _ & Hk)].
  unfold tenant_id in Et. destruct (tenant_ok tenant) eqn:Eok; [|done]. injection Et as <-.
  pose proof (validate_scopes_Ok _ _ Es) as (-> & _). set (k := "key_" +:+ hex) in *. set (secret := "rec_" +:+ k +:+ "." +:+ token) in *.
  assert (kd_keys (krun ops d1) !! k = Some (issued_row now tenant secret scopes)) as Hk'
    by (apply krun_issued; [done|by rewrite Hk, lookup_insert_eq]).
  assert (checked_row k (issued_row now tenant secret scopes) = Ok (mkPrincipal k pk_api_key tenant [tenant] scopes (scopes ∩ list_to_set ["admin"; "platform_admin"]))) as Hc.
  { unfold checked_row, from_api_key, tenant_id. simpl. rewrite Eok. simpl. rewrite (scopes_read_back _ _ Es). simpl. by rewrite Eok. }
  destruct (authenticate_spec now' mono (Some secret) ip (krun ops d1)) as (d2 & o & E & Ha).
  assert (secret_key_id secret = Some k) as Hs by by apply secret_key_id_issued.
  assert (live_row (krun ops d1) k = Some (issued_row now tenant secret scopes)) as Hlr by (unfold live_row; by rewrite Hk').
  assert (proof_of (issued_row now tenant secret scopes) secret = Some false) as Hp by (unfold proof_of; simpl; by rewrite String.eqb_refl).
  inversion Ha as [s Hb|s d' _ Hb _ _|s d' o' _ _ Ho _|s k' r b p d' _ Hs' Hr' _ Hc' _ _]; subst.
  - by destruct Hb.
  - rewrite Hs in Hb. lia.
  - destruct o' as [[k' b]|]; [|by specialize (Ho k Hs); congruence]. destruct Ho as (Hs' & r & Hr' & -> & Hno).
    rewrite Hs in Hs'. injection Hs' as <-. rewrite Hlr in Hr'. injection Hr' as <-. rewrite Hp in Hno. by destruct (Hno ltac:(by eexists) _ Hc).
  - rewrite Hs in Hs'. injection Hs' as <-. rewrite Hlr in Hr'. injection Hr' as <-. rewrite Hc in Hc'. injection Hc' as <-. eexists _, _. by split.
Qed.
End Theorems.

(** *** The failure budget *)

Section Limiter.
Context `{KC : KeyCrypto} (pepper : string) (previous_pepper : option string) (bind_tenant : bool) (max_failures : Z).
Notation auth := (authenticate pepper previous_pepper bind_tenant max_failures).
Notation exec := (kexec pepper previous_pepper bind_tenant max_failures).

Definition stamps_at (d : KeyDb) (bk : string) (t : Z) : list Z := fresh_stamps t (default [] (kd_failures d !! bk)).
Definition within_budget (t : Z) (d : KeyDb) : Prop := ∀ bk, Z.of_nat (length (stamps_at d bk t)) ≤ Z.max 0 max_failures.
Lemma fresh_shrinks t t' l : t ≤ t' → (length (fresh_stamps t' l) ≤ length (fresh_stamps t l))%nat.
Proof.
  intros Ht. induction l as [|x l IH]; simpl; [lia|]. destruct (Z.ltb_spec (t' - x) _window), (Z.ltb_spec (t - x) _window); simpl; lia.
Qed.
Lemma fresh_length t l : (length (fresh_stamps t l) ≤ length l)%nat.
Proof. apply List.filter_length_le. Qed.
Lemma budget_later t t' d : t ≤ t' → within_budget t d → within_budget t' d.
Proof. intros Ht H bk. specialize (H bk). pose proof (fresh_shrinks t t' (default [] (kd_failures d !! bk)) Ht). unfold stamps_at in *. lia. Qed.
Lemma fresh_app t l l' : fresh_stamps t (l ++ l') = fresh_stamps t l ++ fresh_stamps t l'.
Proof. apply List.filter_app. Qed.
Lemma budget_insert t d d' bk l :
  within_budget t d → kd_failures d' = <[bk := l]> (kd_failures d) → Z.of_nat (length (fresh_stamps t l)) ≤ Z.max 0 max_failures →
  within_budget t d'.
Proof.
  intros H E Hl bk'. unfold stamps_at. rewrite E. destruct (decide (bk' = bk)) as [->|Hn]; [by rewrite lookup_insert_eq|].
  rewrite lookup_insert_ne by done. apply H.
Qed.
Lemma budget_same t d d' : kd_failures d' = kd_failures d → within_budget t d → within_budget t d'.
Proof. intros E H bk. unfold stamps_at. rewrite E. apply H. Qed.
Lemma auth_budget now mono s ip d : within_budget mono d → within_budget mono (auth now mono s ip d).1.
Proof.
  intros H. destruct (authenticate_spec pepper previous_pepper bind_tenant max_failures now mono s ip d) as (d' & o & -> & Ha). simpl.
  destruct Ha as [s|s d' _ _ _ F|s d' o Hl _ _ F|s k r b p d' _ _ _ _ _ _ F]; [done| | |].
  - apply (budget_insert _ _ _ _ _ H F). pose proof (H (_bucket ip (secret_key_id s))) as Hb. unfold stamps_at in Hb.
    pose proof (fresh_length mono (fresh_stamps mono (default [] (kd_failures d !! _bucket ip (secret_key_id s))))). lia.
  - apply (budget_insert _ _ _ _ _ H F). rewrite fresh_app, length_app.
    pose proof (fresh_length mono (fresh_stamps mono (default [] (kd_failures d !! _bucket ip (secret_key_id s))))).
    pose proof (fresh_length mono [mono]). simpl in *. lia.
  - apply (budget_insert _ _ _ _ _ H F). pose proof (H (_bucket ip (Some k))) as Hb. unfold stamps_at in Hb.
    pose proof (fresh_length mono (fresh_stamps mono (default [] (kd_failures d !! _bucket ip (Some k))))). lia.
Qed.

Definition op_time (o : KeyOp) : option Z := match o with k_authenticate _ mono _ _ => Some mono | _ => None end.
(** The monotonic clock readings of the operations, in order, from [t] on. *)
Inductive clocked : Z → list KeyOp → Z → Prop :=
  | clock_end t : clocked t [] t
  | clock_auth t t' now mono s ip ops : t ≤ mono → clocked mono ops t' → clocked t (k_authenticate now mono s ip :: ops) t'
  | clock_other t t' o ops : op_time o = None → clocked t ops t' → clocked t (o :: ops) t'.
Lemma exec_budget t o d : op_time o = None → within_budget t d → within_budget t (exec d o).
Proof.
  intros Ho H. destruct o as [now hex token tenant scopes actor| |now k actor]; [|done|]; simpl.
  - destruct (issue _ _ now hex token tenant scopes actor d) as [d' res] eqn:E.
    apply issue_spec in E as [(_ & F & _)|(t0 & sc & _ & _ & _ & _ & F & _)]; simpl; by apply (budget_same t d).
  - destruct (revoke_spec now k actor d) as [[_ ->]|(r & d' & _ & -> & F & _)]; simpl; [done|by apply (budget_same t d)].
Qed.

(** In any sixty seconds an address is charged at most [max_failures] failed
    attempts for a key, however the attempts, successes, issues and
    revocations interleave; once they are used up every further attempt is
    refused, the right secret included, and no key row is touched. *)
Theorem failure_budget t ops t' d :
  kd_failures d = ∅ → clocked t ops t' →
  let d' := foldl exec d ops in
  (∀ ip key_id, Z.of_nat (length (stamps_at d' (_bucket ip key_id) t')) ≤ Z.max 0 max_failures) ∧
  (∀ now s ip, s ≠ "" → max_failures ≤ Z.of_nat (length (stamps_at d' (_bucket ip (secret_key_id s)) t')) →
    ∃ d2, auth now t' (Some s) ip d' = (d2, Ok None) ∧ kd_keys d2 = kd_keys d').
Proof.
  intros Hd Hc d'. assert (within_budget t' d') as H.
  { subst d'. assert (within_budget t d) as H0 by (intros bk; unfold stamps_at; rewrite Hd, lookup_empty; simpl; lia). clear Hd.
    revert d H0. induction Hc as [t|t t' now mono s ip ops Ht _ IH|t t' o ops Ho _ IH]; intros d H0; simpl; [done| |].
    - apply IH, auth_budget. by apply (budget_later t).
    - apply IH. by apply exec_budget. }
  split; [intros ip k; apply H|]. intros now s ip Hs Hl.
  destruct (authenticate_spec pepper previous_pepper bind_tenant max_failures now t' (Some s) ip d') as (d2 & o & E & Ha). unfold stamps_at in Hl.
  inversion Ha as [s' Hb|s' d3 _ _ K _|s' d3 o' Hlt _ _ _|s' k r b p d3 Hlt Hk _ _ _ _ _]; subst.
  - by destruct Hb as [|[= ?]].
  - by exists d2.
  - lia.
  - rewrite Hk in Hl. lia.
Qed.
End Limiter.

(** *** Rotating the pepper *)

Lemma authenticate_open `{KC : KeyCrypto} pepper prev bind_tenant max_failures now mono ip d k s r p :
  Z.of_nat (length (stamps_at d (_bucket ip (Some k)) mono)) < max_failures → secret_key_id s = Some k → s ≠ "" →
  live_row d k = Some r → checked_row k r = Ok p →
  ∃ d', authenticate pepper prev bind_tenant max_failures now mono (Some s) ip d =
    (d', Ok (match proof_of pepper prev bind_tenant r s with Some _ => Some p | None => None end)) ∧
    kd_keys d' = kd_keys (after_proof pepper bind_tenant d k s (proof_of pepper prev bind_tenant r s)) ∧
    (proof_of pepper prev bind_tenant r s ≠ None →
     kd_failures d' = <[_bucket ip (Some k) := stamps_at d (_bucket ip (Some k)) mono]> (kd_failures d)).
Proof.
  intros Hl Hk Hs Hr Hc. destruct (authenticate_spec pepper prev bind_tenant max_failures now mono (Some s) ip d) as (d' & o & E & Ha).
  unfold stamps_at in *.
  inversion Ha as [s' Hb|s' d3 _ Hb _ _|s' d3 o' _ K Ho F|s' k' r' b p' d3 _ Hk' Hr' Hp Hc' K F]; subst.
  - by destruct Hb as [|[= ?]].
  - rewrite Hk in Hb. lia.
  - destruct o' as [[k' b]|]; [|by specialize (Ho k Hk); congruence]. destruct Ho as (Hk' & r' & Hr' & -> & Hno).
    rewrite Hk in Hk'. injection Hk' as <-. rewrite Hr in Hr'. injection Hr' as <-. exists d'. rewrite E.
    destruct (proof_of pepper prev bind_tenant r s) as [b|]; [by destruct (Hno ltac:(by eexists) p)|done].
  - rewrite Hk in Hk'. injection Hk' as <-. rewrite Hr in Hr'. injection Hr' as <-. rewrite Hc in Hc'. injection Hc' as <-.
    exists d'. by rewrite E, Hp.
Qed.

(** The first use of a key after its pepper was replaced carries it over: let
    in under the previous pepper, its row is rewritten, and from then on the
    previous pepper is no longer needed; a key not used while the previous
    pepper is kept is lost with it. *)
Theorem rotation_carries_over `{KC : KeyCrypto} new old bind_tenant max_failures now mono ip d k s r p :
  kd_failures d = ∅ → 0 < max_failures → secret_key_id s = Some k → s ≠ "" → live_row d k = Some r → kr_hash_alg r = "hmac-sha256" →
  kr_hash r = _hmac bind_tenant old s (kr_tenant r) (row_pepper r) → kr_hash r ≠ _hmac bind_tenant new s (kr_tenant r) (row_pepper r) →
  checked_row k r = Ok p →
  ∃ d1, authenticate new (Some old) bind_tenant max_failures now mono (Some s) ip d = (d1, Ok (Some p)) ∧
    (∃ d2, authenticate new None bind_tenant max_failures now mono (Some s) ip d1 = (d2, Ok (Some p)) ∧ kd_keys d2 = kd_keys d1) ∧
    ∃ d3, authenticate new None bind_tenant max_failures now mono (Some s) ip d = (d3, Ok None).
Proof.
  intros Hf Hm Hk Hs Hr Ha Hold Hnew Hc.
  assert (∀ prev, proof_of new prev bind_tenant r s = match prev with
    Some o => if String.eqb (_hmac bind_tenant o s (kr_tenant r) (row_pepper r)) (kr_hash r) then Some true else None | None => None end) as Hp.
  { intros prev. unfold proof_of. rewrite Ha. simpl. by rewrite (proj2 (String.eqb_neq _ _)) by (intros E; by apply Hnew). }
  assert (Z.of_nat (length (stamps_at d (_bucket ip (Some k)) mono)) < max_failures) as Hl by (unfold stamps_at; by rewrite Hf, lookup_empty).
  pose proof Hr as Hr0. unfold live_row in Hr0. destruct (kd_keys d !! k) as [r0|] eqn:Ek; [|done]. simpl in Hr0.
  destruct (kr_revoked r0) eqn:Erv; [done|]. injection Hr0 as ->.
  destruct (authenticate_open new (Some old) bind_tenant max_failures now mono ip d k s r p) as (d1 & E1 & K1 & F1); [done..|].
  destruct (authenticate_open new None bind_tenant max_failures now mono ip d k s r p) as (d3 & E3 & _); [done..|].
  rewrite Hp in E1, E3, K1, F1. rewrite Hold, String.eqb_refl in E1, K1, F1. exists d1. split; [done|]. split; [|by exists d3].
  simpl in K1. set (r1 := rehashed new bind_tenant r s).
  assert (live_row d1 k = Some r1) as Hr1 by (unfold live_row; rewrite K1, lookup_alter_eq, Ek; simpl; by rewrite Erv).
  assert (Z.of_nat (length (stamps_at d1 (_bucket ip (Some k)) mono)) < max_failures) as Hl1.
  { unfold stamps_at. rewrite F1, lookup_insert_eq by done. simpl. pose proof (fresh_length mono (stamps_at d (_bucket ip (Some k)) mono)).
    unfold stamps_at in *. lia. }
  assert (proof_of new None bind_tenant r1 s = Some false) as Hp1 by (unfold proof_of, r1; simpl; by rewrite String.eqb_refl).
  destruct (authenticate_open new None bind_tenant max_failures now mono ip d1 k s r1 p) as (d2 & E2 & K2 & _); [done..|].
  rewrite Hp1 in E2, K2. by exists d2.
Qed.

(** ** Witnesses *)

Definition demo_crypto : KeyCrypto := {| hmac_sha256 := λ k m, k +:+ "|" +:+ m; pbkdf2_hmac := λ s salt, salt +:+ s |}.
Definition no_keys : KeyDb := mkKeyDb ∅ [] ∅.
Definition demo_scopes : names := list_to_set ["runs"; "jobs"].
Definition demo_secret : string := "rec_key_0a1b.tok".
Definition demo_issue (pepper : string) (d : KeyDb) : KeyDb * result (string * string * names) :=
  @issue demo_crypto pepper false 5 "0a1b" "tok" "acme" demo_scopes "cli" d.
Definition demo_keys : KeyDb := (demo_issue "new" no_keys).1.
Definition demo_auth (pepper : string) (prev : option string) (d : KeyDb) : KeyDb * result (option Principal) :=
  @authenticate demo_crypto pepper prev false 20 6 7 (Some demo_secret) "10.0.0.1" d.
Definition demo_principal : Principal := mkPrincipal "key_0a1b" pk_api_key "acme" ["acme"] demo_scopes (demo_scopes ∩ list_to_set ["admin"; "platform_admin"]).
Lemma authenticate_sound_witness : pp_tenant demo_principal = "acme" ∧ secret_key_id demo_secret = Some (pp_subject demo_principal).
Proof.
  destruct (@authenticate_sound demo_crypto "new" None false 20 6 7 (Some demo_secret) "10.0.0.1" demo_keys (demo_auth "new" None demo_keys).1
    demo_principal) as (s & r & E & Hs & _).
  - vm_compute. reflexivity.
  - injection E as <-. split; [reflexivity|exact Hs].
Defined.
Lemma demo_tags : ∀ old t s s', Some "old" = Some old →
  @_hmac demo_crypto false old s' t _CURRENT_PEPPER ≠ @_hmac demo_crypto false "new" s t _CURRENT_PEPPER.
Proof. intros old t s s' [= <-] E. discriminate E. Qed.
Definition demo_history : list KeyOp :=
  [k_issue 6 "ff" "tok2" "acme" demo_scopes "cli"; k_authenticate 7 8 (Some "rec_key_0a1b.guess") "10.0.0.9"; k_revoke 9 "key_ff" "cli"].
Lemma issued_key_works_witness :
  ∃ d2 p, @authenticate demo_crypto "new" (Some "old") false 20 6 9 (Some demo_secret) "10.0.0.1"
    (@krun demo_crypto "new" (Some "old") false 20 demo_history demo_keys) = (d2, Ok (Some p)) ∧ pp_subject p = "key_0a1b".
Proof.
  destruct (@issued_key_works demo_crypto "new" (Some "old") false 20 demo_tags 5 "0a1b" "tok" "acme" demo_scopes "cli" no_keys demo_keys
    "key_0a1b" demo_secret demo_scopes demo_history 6 9 "10.0.0.1") as (d2 & p & E & Ep & _).
  - reflexivity.
  - discriminate.
  - reflexivity.
  - vm_compute. reflexivity.
  - intros n a H. repeat (apply elem_of_cons in H as [H|H]; [discriminate H|]). by apply elem_of_nil in H.
  - vm_compute. reflexivity.
  - exists d2, p. split; [exact E|exact Ep].
Defined.
Lemma revoked_key_is_dead_witness : pp_subject (demo_principal) = "key_0a1b" ∧ "key_ff" ≠ "key_0a1b".
Proof.
  split; [reflexivity|]. intros E.
  refine (@revoked_key_is_dead demo_crypto "new" None false 20 5 "key_ff" "cli" (@issue demo_crypto "new" false 5 "ff" "tok" "acme" demo_scopes "cli" demo_keys).1
    (revoke 5 "key_ff" "cli" (@issue demo_crypto "new" false 5 "ff" "tok" "acme" demo_scopes "cli" demo_keys).1).1 [] 6 7 (Some demo_secret) "10.0.0.1"
    (demo_auth "new" None (revoke 5 "key_ff" "cli" (@issue demo_crypto "new" false 5 "ff" "tok" "acme" demo_scopes "cli" demo_keys).1).1).1
    demo_principal _ _ _).
  - vm_compute. reflexivity.
  - vm_compute. reflexivity.
  - symmetry. exact E.
Defined.
Lemma failure_budget_witness :
  ∃ d2, @authenticate demo_crypto "new" None false 1 6 8 (Some demo_secret) "10.0.0.1"
    (@krun demo_crypto "new" None false 1 [k_authenticate 7 8 (Some "rec_key_0a1b.guess") "10.0.0.1"] demo_keys) = (d2, Ok None).
Proof.
  destruct (proj2 (@failure_budget demo_crypto "new" None false 1 0 [k_authenticate 7 8 (Some "rec_key_0a1b.guess") "10.0.0.1"] 8
    demo_keys eq_refl (clock_auth 0 8 7 8 (Some "rec_key_0a1b.guess") "10.0.0.1" [] ltac:(lia) (clock_end 8))) 6 demo_secret "10.0.0.1")
    as (d2 & E & _).
  - discriminate.
  - vm_compute. discriminate.
  - exists d2. exact E.
Defined.
Lemma rotation_carries_over_witness :
  ∃ d1, demo_auth "new" (Some "old") (demo_issue "old" no_keys).1 = (d1, Ok (Some demo_principal)) ∧
    (∃ d2, demo_auth "new" None d1 = (d2, Ok (Some demo_principal))).
Proof.
  destruct (live_row (demo_issue "old" no_keys).1 "key_0a1b") as [r|] eqn:Er; [|vm_compute in Er; discriminate Er].
  destruct (@rotation_carries_over demo_crypto "new" "old" false 20 6 7 "10.0.0.1" (demo_issue "old" no_keys).1 "key_0a1b" demo_secret r
    demo_principal) as (d1 & E & (d2 & E2 & _) & _).
  1: reflexivity. 1: lia. 1: reflexivity. 1: discriminate. 1: exact Er.
  1-3: vm_compute in Er; injection Er as <-; vm_compute; first [reflexivity|discriminate].
  - vm_compute in Er. injection Er as <-. vm_compute. reflexivity.
  - exists d1. split; [exact E|]. exists d2. exact E2.
Defined.
