(* ===== verification/ClientKey.v ===== *)
(** * Whose login start is it (api/console_auth.py, [oidc_client_key])

    The client identity behind the per-client limit on pending logins: the
    socket peer, or behind a trusted proxy the rightmost hop of
    X-Forwarded-For that is not itself a proxy, with fixed buckets for headers
    that are too large or look rewritten.  [ipaddress] addresses are the
    numbers they stand for, parsed and printed as the standard library does;
    the one-time warnings are left out.  The theorems: a client that is not a
    trusted proxy cannot choose its key, a client behind one cannot either
    whatever it puts in the header, and two IPv6 addresses of one /64 share a
    key. *)
From S2P Require Import Prelude PyStr Queue.
From Stdlib Require Import ZArith Lia Ascii.
Open Scope Z_scope.

(** ** ipaddress *)

Inductive IPAddress := IPv4 (n : Z) | IPv6 (n : Z) (scope_id : option string).
#[export] Instance IPAddress_eq_dec : EqDecision IPAddress. Proof. solve_decision. Defined.
Record IPNetwork := mkNet { nw_v6 : bool; nw_address : Z; nw_prefixlen : Z }.
Definition max_prefixlen (v6 : bool) : Z := if v6 then 128 else 32.
Definition netmask (v6 : bool) (prefixlen : Z) : Z :=
  Z.shiftl (Z.ones prefixlen) (max_prefixlen v6 - prefixlen).

Definition in_range (lo hi : nat) (c : ascii) : bool := ((lo <=? code c) && (code c <=? hi))%nat.
Definition isdigit (c : ascii) : bool := in_range 48 57 c.
Definition hexdigit (c : ascii) : bool := isdigit c || in_range 65 70 c || in_range 97 102 c.
Definition digit_value (c : ascii) : Z :=
  Z.of_nat (if isdigit c then code c - 48 else if in_range 65 70 c then code c - 55 else code c - 87)%nat.
Fixpoint value (base acc : Z) (s : string) : Z :=
  match s with EmptyString => acc | String c s' => value base (base * acc + digit_value c) s' end.
Definition _parse_octet (s : string) : option Z :=
  if String.eqb s "" || negb (all_chars isdigit s) || (3 <? String.length s)%nat
     || (negb (String.eqb s "0") && String.prefix "0" s) then None
  else if 255 <? value 10 0 s then None else Some (value 10 0 s).
Definition _parse_hextet (s : string) : option Z :=
  if negb (all_chars hexdigit s) || (4 <? String.length s)%nat || String.eqb s "" then None else Some (value 16 0 s).
Definition folded (base : Z) (l : list Z) : Z := foldl (λ acc x, base * acc + x) 0 l.
Definition v4_of (s : string) : option Z :=
  let octets := split_char "." s in
  if Nat.eqb (length octets) 4 then folded 256 <$> mapM _parse_octet octets else None.

(** The groups of an IPv6 text, an IPv4 tail turned into two of them. *)
Fixpoint trim_zeros (s : string) : string :=
  match s with String c s' => if Ascii.eqb c "0" && negb (String.eqb s' "") then trim_zeros s' else s | _ => s end.
Definition nibble (n k : Z) : ascii := hex_digit (Z.to_nat (Z.land (Z.shiftr n k) 15)).
(** ["%x" % n] of a 16-bit number. *)
Definition lower_hex (n : Z) : string :=
  trim_zeros (String (nibble n 12) (String (nibble n 8) (String (nibble n 4) (String (nibble n 0) EmptyString)))).
Definition v6_groups (s : string) : option (list string) :=
  let parts := split_char ":" s in
  if (length parts <? 3)%nat then None
  else
    let tail := default "" (last parts) in
    if any_char (Ascii.eqb ".") tail then
      n ← v4_of tail;
      Some (take (length parts - 1) parts ++ [lower_hex (Z.land (Z.shiftr n 16) 65535); lower_hex (Z.land n 65535)])
    else Some parts.
(** The indices [1..len-2] of empty groups. *)
Definition gaps (parts : list string) : list nat :=
  List.filter (λ i, String.eqb (nth i parts "") "") (seq 1 (length parts - 2)).
Definition v6_of (s : string) : option Z :=
  parts ← v6_groups s;
  if (9 <? length parts)%nat then None
  else
    match gaps parts with
    | [] =>
        if negb (Nat.eqb (length parts) 8) || String.eqb (nth 0 parts "") "" || String.eqb (nth (length parts - 1) parts "") "" then None
        else folded 65536 <$> mapM _parse_hextet parts
    | [i] =>
        let head_blank := String.eqb (nth 0 parts "") "" in
        let tail_blank := String.eqb (nth (length parts - 1) parts "") "" in
        let hi := (if head_blank then i - 1 else i)%nat in
        let lo := (length parts - i - 1 - (if tail_blank then 1 else 0))%nat in
        if (head_blank && negb (Nat.eqb hi 0)) || (tail_blank && negb (Nat.eqb lo 0)) || (8 <=? hi + lo)%nat then None
        else
          a ← mapM _parse_hextet (take hi parts);
          b ← mapM _parse_hextet (drop (length parts - lo) parts);
          Some (folded 65536 (a ++ repeat 0 (8 - (hi + lo)) ++ b))
    | _ => None
    end.
Fixpoint partition_char (sep : ascii) (s : string) : string * option string :=
  match s with
  | EmptyString => (EmptyString, None)
  | String c s' => if Ascii.eqb c sep then (EmptyString, Some s')
                   else let r := partition_char sep s' in (String c r.1, r.2)
  end.
Definition v6_scoped (s : string) : option IPAddress :=
  let '(addr, scope) := partition_char "%" s in
  if match scope with Some z => String.eqb z "" || any_char (Ascii.eqb "%") z | None => false end then None
  else (λ n, IPv6 n scope) <$> v6_of addr.
(** [ipaddress.ip_address(s)], [None] for the [ValueError]. *)
Definition ip_address (s : string) : option IPAddress :=
  if any_char (Ascii.eqb "/") s then None
  else match v4_of s with Some n => Some (IPv4 n) | None => v6_scoped s end.
Definition ipv4_mapped (n : Z) : option Z := if Z.shiftr n 32 =? 65535 then Some (Z.land n (2 ^ 32 - 1)) else None.

(** [str(ip)]: the longest run of at least two zero groups becomes "::". *)
Definition v4_str (n : Z) : string :=
  join_str "." (map (λ k, pretty (Z.land (Z.shiftr n k) 255)) [24; 16; 8; 0]).
Definition hextets (n : Z) : list string :=
  map (λ k, lower_hex (Z.land (Z.shiftr n k) 65535)) [112; 96; 80; 64; 48; 32; 16; 0].
Definition best_run (zeros : list bool) : nat * nat :=   (* start, length *)
  (foldl (λ '(i, start, len, best) (z : bool),
     if z then
       let start := if Nat.eqb len 0 then i else start in
       let len := S len in
       (S i, start, len, if (best.2 <? len)%nat then (start, len) else best)
     else (S i, 0, 0, best)) (0, 0, 0, (0, 0)) zeros).2%nat.
Definition _compress_hextets (l : list string) : list string :=
  let '(start, len) := best_run (map (String.eqb "0") l) in
  if (1 <? len)%nat then
    (if Nat.eqb start 0 then [""] else []) ++ take start l ++ [""] ++ drop (start + len) l ++
    (if Nat.eqb (start + len) (length l) then [""] else [])
  else l.
Definition v6_str (n : Z) : string := join_str ":" (_compress_hextets (hextets n)).
Definition with_scope (s : string) (scope : option string) : string :=
  match scope with Some z => s +:+ "%" +:+ z | None => s end.
Definition ip_number (ip : IPAddress) : Z := match ip with IPv4 n => n | IPv6 n _ => n end.
Definition is_v6 (ip : IPAddress) : bool := match ip with IPv6 _ _ => true | IPv4 _ => false end.

(** ** Client keys *)

Definition _OIDC_UNKNOWN_CLIENT : string := "unknown".
Definition _OIDC_REWRITTEN_CLIENT : string := "proxy-headers-rewritten".
Definition _OIDC_IPV6_KEY_PREFIX : Z := 64.
Definition _XFF_MAX_LINES : nat := 16.
Definition _XFF_MAX_BYTES : nat := 8192.
Definition _XFF_MAX_HOPS : nat := 64.

Definition _ip (v : string) : option IPAddress :=
  ip ← ip_address (strip v);
  match ip with
  | IPv6 n _ => match ipv4_mapped n with Some m => Some (IPv4 m) | None => Some ip end
  | IPv4 _ => Some ip
  end.
Definition count_char (c : ascii) (s : string) : nat := length (split_char c s) - 1.
Definition _hop_ip_loose (hop : string) : option IPAddress :=
  let h := strip hop in
  _ip (match h with
       | String "[" h' => (partition_char "]" h').1
       | _ => if Nat.eqb (count_char ":" h) 1 then (partition_char ":" h).1 else h
       end).
(** An IPv6 network keeps its text, scope included, only when it is already
    the address of the /64. *)
Definition _key (ip : IPAddress) : string :=
  match ip with
  | IPv4 n => v4_str n
  | IPv6 n scope =>
      let masked := Z.land n (netmask true _OIDC_IPV6_KEY_PREFIX) in
      (if masked =? n then with_scope (v6_str n) scope else v6_str masked) +:+ "/" +:+ pretty _OIDC_IPV6_KEY_PREFIX
  end.
Definition ip_in (ip : IPAddress) (net : IPNetwork) : bool :=
  Bool.eqb (is_v6 ip) (nw_v6 net) && (Z.land (ip_number ip) (netmask (nw_v6 net) (nw_prefixlen net)) =? nw_address net).
Definition _is_trusted (ip : IPAddress) (trusted : list IPNetwork) : bool := existsb (ip_in ip) trusted.
Definition _oversized_xff : string := _OIDC_REWRITTEN_CLIENT.

(** [for hop in reversed(hops)] over the reversed list. *)
Fixpoint walk_hops (trusted : list IPNetwork) (peer_ip : IPAddress) (rev_hops : list string) : string :=
  match rev_hops with
  | [] => _key peer_ip
  | hop :: hops' =>
      match (if String.eqb hop "" then None else _ip hop) with
      | None => _key peer_ip
      | Some ip => if _is_trusted ip trusted then walk_hops trusted peer_ip hops' else _key ip
      end
  end.
Definition _rightmost_client_key (hops : list string) (peer_ip : IPAddress) (trusted : list IPNetwork) : string :=
  walk_hops trusted peer_ip (reverse hops).
(** [while tail and _ip(tail[-1]) == peer_ip: tail = tail[:-1]] *)
Fixpoint drop_self (peer_ip : IPAddress) (rev_tail : list string) : list string :=
  match rev_tail with
  | [] => []
  | hop :: l => if bool_decide (_ip hop = Some peer_ip) then drop_self peer_ip l else rev_tail
  end.
Definition among (ip : option IPAddress) (hops : list string) : bool := bool_decide (ip ∈ map _hop_ip_loose hops).
Definition split_hops (forwarded_for : list string) : list string :=
  concat (map (λ v, map strip (split_char "," v)) forwarded_for).
Definition without_self_hops (peer_ip : IPAddress) (hops : list string) : list string :=
  let tail := reverse (drop_self peer_ip (reverse hops)) in
  if negb (is_nil tail) && (length tail <? length hops)%nat && negb (among (Some peer_ip) tail) then tail else hops.
Definition oversized (forwarded_for : list string) : bool :=
  (_XFF_MAX_LINES <? length forwarded_for)%nat || (_XFF_MAX_BYTES <? sum_list (map String.length forwarded_for))%nat.
Definition oidc_client_key (peer : option string) (forwarded_for : list string) (trusted : list IPNetwork) (peer_port : option Z) : string :=
  let peer := default "" peer in
  if String.eqb peer "" then _OIDC_UNKNOWN_CLIENT
  else if oversized forwarded_for then _oversized_xff
  else
    let hops := split_hops forwarded_for in
    if (_XFF_MAX_HOPS <? length hops)%nat then _oversized_xff
    else
      match _ip peer with
      | None => _OIDC_REWRITTEN_CLIENT
      | Some peer_ip =>
          let hops :=
            if negb (default 0 peer_port =? 0) && negb (is_nil hops) && _is_trusted peer_ip trusted
            then without_self_hops peer_ip hops else hops in
          if negb (is_nil hops) && (bool_decide (strip peer ∈ hops) || among (Some peer_ip) hops) then _OIDC_REWRITTEN_CLIENT
          else if negb (_is_trusted peer_ip trusted) then _key peer_ip
          else _rightmost_client_key hops peer_ip trusted
      end.

(** ** Theorems *)

(** *** Printed addresses read back *)

Lemma nibble_spec n k : digit_value (nibble n k) = Z.land (Z.shiftr n k) 15 ∧ Ascii.eqb (nibble n k) ":" = false.
Proof.
  unfold nibble. change 15 with (Z.ones 4). rewrite Z.land_ones by lia. set (x := Z.shiftr n k mod 2 ^ 4).
  assert (0 <= x < 16) as Hx by (apply Z.mod_pos_bound; lia). rewrite <- (Z2Nat.id x) at 2 by lia.
  assert (Z.to_nat x < 16)%nat as Hn by lia. revert Hn. generalize (Z.to_nat x). intros m Hm.
  do 16 (destruct m as [|m]; [done|]). lia.
Qed.
Lemma value_trim s : value 16 0 (trim_zeros s) = value 16 0 s.
Proof.
  induction s as [|c s IH]; [done|]. simpl. destruct (Ascii.eqb_spec c "0") as [->|]; [|done].
  destruct (negb (String.eqb s "")); [|done]. simpl. by rewrite IH.
Qed.
Lemma trim_filled s : s ≠ "" → trim_zeros s ≠ "".
Proof.
  induction s as [|c s IH]; [done|]. intros _. simpl. destruct (_ && _) eqn:E; [|done].
  apply andb_true_iff in E as [_ E%negb_true_iff%String.eqb_neq]. auto.
Qed.
Lemma trim_clean sep s : any_char (Ascii.eqb sep) s = false → any_char (Ascii.eqb sep) (trim_zeros s) = false.
Proof.
  induction s as [|c s IH]; [done|]. intros H. cbn [trim_zeros]. destruct (_ && _); [|done]. apply IH. by apply orb_false_iff in H as [_ ?].
Qed.
Lemma lower_hex_value n : 0 <= n < 65536 → value 16 0 (lower_hex n) = n.
Proof.
  intros Hn. unfold lower_hex. rewrite value_trim. cbn [value]. rewrite !(proj1 (nibble_spec _ _)).
  change 15 with (Z.ones 4). rewrite !Z.land_ones, !Z.shiftr_div_pow2 by lia. change (2 ^ 0) with 1. Z.div_mod_to_equations. lia.
Qed.
Lemma lower_hex_plain n : lower_hex n ≠ "" ∧ any_char (Ascii.eqb ":") (lower_hex n) = false.
Proof.
  split; [by apply trim_filled|]. apply trim_clean. cbn [any_char]. rewrite !(Ascii.eqb_sym ":"), !(proj2 (nibble_spec _ _)). done.
Qed.
(** *** What a header can reach *)

Lemma split_hops_snoc lines v hop : split_char "," hop = [hop] → strip hop = hop →
  ∃ forged, split_hops (lines ++ [v +:+ "," +:+ hop]) = forged ++ [hop].
Proof.
  intros Hc Hs. unfold split_hops. rewrite map_app, concat_app. simpl. change ("," +:+ hop) with (String "," hop). rewrite app_nil_r, split_app, Hc, map_app. simpl. rewrite Hs.
  eexists. by rewrite app_assoc.
Qed.
Lemma without_self_last p forged hop : _ip hop ≠ Some p → without_self_hops p (forged ++ [hop]) = forged ++ [hop].
Proof.
  intros H. unfold without_self_hops. rewrite reverse_snoc. cbn [drop_self]. rewrite bool_decide_false by done.
  rewrite <- reverse_snoc, reverse_involutive, Nat.ltb_irrefl, andb_false_r. done.
Qed.

(** [x ∈ l] for a concrete list that holds [x] itself. *)
Ltac pick_in := repeat (apply elem_of_cons; first [left; reflexivity|right]).

(** C17: A client cannot choose its key.  A direct client's key is its own address
    whatever header it sends, unless the header looks rewritten or oversized,
    in which case it lands in the fixed shared bucket; and behind a trusted
    proxy that appends the client it saw, nothing the client wrote to the left
    of that hop - further header lines, forged hops, the proxy's own address -
    yields a key other than the client's own or the shared bucket. *)
Theorem client_key_not_forgeable peer peer_ip trusted port :
  _ip peer = Some peer_ip →
  (_is_trusted peer_ip trusted = false →
    oidc_client_key (Some peer) [] trusted port = _key peer_ip ∧
    ∀ forged, oidc_client_key (Some peer) forged trusted port ∈ [_key peer_ip; _OIDC_REWRITTEN_CLIENT]) ∧
  (_is_trusted peer_ip trusted = true →
    ∀ lines v hop ip, split_char "," hop = [hop] → strip hop = hop → _ip hop = Some ip → _is_trusted ip trusted = false →
      oidc_client_key (Some peer) (lines ++ [v +:+ "," +:+ hop]) trusted port ∈ [_key ip; _OIDC_REWRITTEN_CLIENT]).
Proof.
  intros Hp. assert (String.eqb peer "" = false) as Hn by (apply String.eqb_neq; by intros ->).
  unfold oidc_client_key, _oversized_xff. simpl default. rewrite Hn, Hp. split; intros Ht; [split; [|intros forged]|].
  - change (oversized []) with false. change (split_hops []) with (@nil string). cbv zeta iota. simpl. by rewrite Ht, andb_false_r.
  - destruct (oversized forged); [pick_in|]. destruct (_ <? _)%nat; [pick_in|]. cbv zeta.
    rewrite Ht, andb_false_r. simpl. destruct (_ && _); [pick_in|pick_in].
  - intros lines v hop ip Hc Hs Hh Hi. destruct (oversized _); [pick_in|].
    destruct (split_hops_snoc lines v hop Hc Hs) as [forged ->]. destruct (_ <? _)%nat; [pick_in|]. cbv zeta.
    assert (_ip hop ≠ Some peer_ip) as Hne by (rewrite Hh; intros [= ->]; congruence).
    rewrite (without_self_last _ _ _ Hne). rewrite Ht.
    assert (∀ b : bool, (if b then forged ++ [hop] else forged ++ [hop]) = forged ++ [hop]) as -> by by intros [].
    destruct (_ && _); [pick_in|]. simpl. unfold _rightmost_client_key. rewrite reverse_snoc. simpl.
    destruct (String.eqb_spec hop "") as [->|]; [discriminate|]. rewrite Hh, Hi. pick_in.
Qed.
Definition demo_nets : list IPNetwork := [mkNet false (10 * 2 ^ 24) 8].
Lemma client_key_not_forgeable_witness :
  oidc_client_key (Some "7.0.0.1") ["1.2.3.4"] demo_nets (Some 4000) = "7.0.0.1" ∧
  oidc_client_key (Some "10.0.0.1") (["5.5.5.5"] ++ ["6.6.6.6, 10.0.0.9" +:+ "," +:+ "8.8.8.8"]) demo_nets (Some 4000) ∈ [_key (IPv4 134744072); _OIDC_REWRITTEN_CLIENT].
Proof.
  split; [reflexivity|].
  apply (client_key_not_forgeable "10.0.0.1" (IPv4 167772161) demo_nets (Some 4000) eq_refl); reflexivity.
Defined.

(** *** Which clients share a key *)

Lemma high_bit_false w z i : 0 <= z < 2 ^ w → 0 <= w <= i → Z.testbit z i = false.
Proof.
  intros Hz Hi. destruct (Z.eq_dec z 0) as [->|Hne]; [apply Z.testbit_0_l|]. apply Z.bits_above_log2; [lia|].
  apply Z.lt_le_trans with w; [apply Z.log2_lt_pow2; lia|lia].
Qed.
Lemma groups_inj w len n m :
  0 < w → 0 <= len → 0 <= n < 2 ^ (w * len) → 0 <= m < 2 ^ (w * len) →
  (∀ j, 0 <= j < len → Z.land (Z.shiftr n (w * j)) (Z.ones w) = Z.land (Z.shiftr m (w * j)) (Z.ones w)) → n = m.
Proof.
  intros Hw Hlen Hn Hm H. apply Z.bits_inj'. intros i Hi. destruct (Z_lt_le_dec i (w * len)) as [Hl|Hg].
  - assert (0 <= i / w < len) as Hj by (split; [apply Z.div_pos; lia|apply Z.div_lt_upper_bound; lia]).
    pose proof (Z.div_mod i w ltac:(lia)) as E. pose proof (Z.mod_pos_bound i w Hw) as Hr.
    pose proof (f_equal (λ z, Z.testbit z (i mod w)) (H (i / w) Hj)) as Hb. cbn beta in Hb.
    rewrite !Z.land_spec, !Z.shiftr_spec, Z.ones_spec_low, !andb_true_r in Hb by lia. replace (i mod w + w * (i / w)) with i in Hb by lia. done.
  - by rewrite !(high_bit_false (w * len)) by nia.
Qed.
Lemma hextets_inj n m : 0 <= n < 2 ^ 128 → 0 <= m < 2 ^ 128 → hextets n = hextets m → n = m.
Proof.
  intros Hn Hm H. apply (groups_inj 16 8); [lia|lia|done|done|]. unfold hextets in H. simpl map in H. injection H as E7 E6 E5 E4 E3 E2 E1 E0.
  assert (∀ k, lower_hex (Z.land (Z.shiftr n k) 65535) = lower_hex (Z.land (Z.shiftr m k) 65535) →
               Z.land (Z.shiftr n k) (Z.ones 16) = Z.land (Z.shiftr m k) (Z.ones 16)) as Hx.
  { intros k E%(f_equal (value 16 0)). change 65535 with (Z.ones 16) in E.
    rewrite !lower_hex_value in E by (rewrite Z.land_ones by lia; apply Z.mod_pos_bound; lia). done. }
  intros j Hj. assert (j = 0 ∨ j = 1 ∨ j = 2 ∨ j = 3 ∨ j = 4 ∨ j = 5 ∨ j = 6 ∨ j = 7) as Hc by lia.
  destruct Hc as [->|[->|[->|[->|[->|[->|[->| ->]]]]]]]; apply Hx; assumption.
Qed.

(** A compressed address read back: the groups before the gap, zeros, the
    groups after it. *)
Definition filled (s : string) : bool := negb (String.eqb s "").
Fixpoint before_gap (l : list string) : list string :=
  match l with [] => [] | x :: l' => if filled x then x :: before_gap l' else [] end.
Definition expand_groups (l : list string) : list string :=
  let p := before_gap l in
  let q := List.filter filled (drop (length p) l) in
  p ++ repeat "0" (8 - length p - length q) ++ q.
Definition run_ok (zeros : list bool) : bool :=
  let r := best_run zeros in
  (r.1 + r.2 <=? length zeros)%nat && forallb id (take r.2 (drop r.1 zeros)).
Lemma run_ok_all zeros : length zeros = 8%nat → run_ok zeros = true.
Proof.
  intros H. do 8 (destruct zeros as [|? zeros]; [done|]). destruct zeros; [|done]. clear H.
  repeat match goal with b : bool |- _ => destruct b end; vm_compute; reflexivity.
Qed.
Lemma best_run_zero l : length l = 8%nat → ∃ s k, best_run (map (String.eqb "0") l) = (s, k) ∧ l = take s l ++ repeat "0" k ++ drop (s + k) l.
Proof.
  intros Hl. pose proof (run_ok_all (map (String.eqb "0") l)) as H. rewrite length_map in H. specialize (H Hl). unfold run_ok in H.
  destruct (best_run _) as [s k]. cbn [fst snd] in H. cbv zeta in H. apply andb_true_iff in H as [H1%Nat.leb_le H2]. rewrite length_map in H1.
  exists s, k. split; [done|]. rewrite <- (take_drop s l) at 1. f_equal. rewrite <- (take_drop k (drop s l)) at 1. rewrite drop_drop. f_equal.
  rewrite skipn_map, firstn_map in H2.
  assert (length (take k (drop s l)) = k) as E by (rewrite length_take, length_drop; lia). revert H2 E.
  generalize (take k (drop s l)). clear. intros l. revert k. induction l as [|x l IH]; intros k H E; [by subst|].
  cbn [map forallb length] in *. apply andb_true_iff in H as [Hx H]. unfold id in Hx. apply String.eqb_eq in Hx as <-. destruct k; [done|]. simpl. f_equal. apply IH; [done|lia].
Qed.

Lemma before_gap_filled p q : Forall (λ x, x ≠ "") p → before_gap (p ++ "" :: q) = p.
Proof. induction 1 as [|x p Hx Hp IH]; [done|]. simpl. unfold filled. apply String.eqb_neq in Hx as ->. simpl. by rewrite IH. Qed.
Lemma filter_filled p : Forall (λ x, x ≠ "") p → List.filter filled p = p.
Proof. induction 1 as [|x p Hx Hp IH]; [done|]. simpl. unfold filled at 1. apply String.eqb_neq in Hx as ->. simpl. by rewrite IH. Qed.
Lemma before_gap_all p : Forall (λ x, x ≠ "") p → before_gap p = p.
Proof. induction 1 as [|x p Hx Hp IH]; [done|]. simpl. unfold filled. apply String.eqb_neq in Hx as ->. simpl. by rewrite IH. Qed.
Lemma expand_compress l : length l = 8%nat → Forall (λ x, x ≠ "") l → expand_groups (_compress_hextets l) = l.
Proof.
  intros Hl Hf. destruct (best_run_zero l Hl) as (s & k & Hb & E). unfold _compress_hextets. rewrite Hb.
  destruct (Nat.ltb_spec 1 k) as [Hk|_].
  2: { unfold expand_groups. rewrite before_gap_all, drop_all by done. simpl. by rewrite Hl, app_nil_r. }
  assert (length l = length (take s l) + k + length (drop (s + k) l))%nat as El.
  { rewrite E at 1. rewrite !length_app, repeat_length. lia. }
  assert (Forall (λ x, x ≠ "") (take s l) ∧ Forall (λ x, x ≠ "") (drop (s + k) l)) as [Hp Hq] by (by split; [apply Forall_take|apply Forall_drop]).
  revert E El Hp Hq. generalize (drop (s + k) l) as q. intros q E El Hp Hq.
  set (tl := if Nat.eqb (s + k) (length l) then [""] else []).
  assert (∀ h, List.filter filled (h ++ q ++ tl) = List.filter filled h ++ q) as Htl.
  { intros h. rewrite !List.filter_app. f_equal. rewrite (filter_filled q Hq). unfold tl. by destruct (Nat.eqb _ _); rewrite app_nil_r. }
  destruct (Nat.eqb_spec s 0) as [->|Hs].
  - change (take 0 l) with (@nil string) in *. cbn [app length Nat.add] in *. unfold expand_groups. change (before_gap ("" :: "" :: q ++ tl)) with (@nil string). cbn [app length drop].
    change ("" :: "" :: q ++ tl) with ([""; ""] ++ q ++ tl). rewrite Htl. change (List.filter filled [""; ""] ++ q) with q.
    rewrite E at 1. do 2 f_equal. lia.
  - simpl app. unfold expand_groups. change ([""] ++ q ++ tl) with ("" :: q ++ tl). rewrite before_gap_filled by done.
    rewrite drop_app_length. change ("" :: q ++ tl) with ([""] ++ q ++ tl). rewrite Htl. simpl. rewrite E at 3. do 3 f_equal. lia.
Qed.

Lemma hextets_plain n : Forall (λ x, x ≠ "" ∧ any_char (Ascii.eqb ":") x = false) (hextets n).
Proof. unfold hextets. apply Forall_map. apply Forall_forall. intros k _. apply lower_hex_plain. Qed.
Lemma compress_pieces l x : x ∈ _compress_hextets l → x = "" ∨ x ∈ l.
Proof.
  unfold _compress_hextets. destruct (best_run _) as [s k]. destruct (1 <? k)%nat; [|by right].
  destruct (Nat.eqb s 0), (Nat.eqb (s + k) _);
    rewrite ?elem_of_app, ?elem_of_cons, ?elem_of_nil; intros H;
    repeat match type of H with _ ∨ _ => destruct H as [H|H] end; subst; auto; try done;
    right; by first [eapply elem_of_take in H as (? & ? & _); eapply list_elem_of_lookup_2|eapply subseteq_drop].
Qed.
Lemma compress_some l : l ≠ [] → _compress_hextets l ≠ [].
Proof.
  intros H. unfold _compress_hextets. destruct (best_run _) as [s k]. destruct (1 <? k)%nat; [|done].
  destruct (Nat.eqb s 0); [done|]. simpl. by destruct (take s l).
Qed.
Lemma v6_str_inj n m : 0 <= n < 2 ^ 128 → 0 <= m < 2 ^ 128 → v6_str n = v6_str m → n = m.
Proof.
  intros Hn Hm E. apply hextets_inj; [done|done|].
  assert (∀ n, expand_groups (split_char ":" (v6_str n)) = hextets n) as H; [|by rewrite <- (H n), <- (H m), E].
  clear. intros n. pose proof (hextets_plain n) as Hf. unfold v6_str.
  assert (expand_groups (_compress_hextets (hextets n)) = hextets n) as He.
  { apply expand_compress; [done|]. eapply Forall_impl; [exact Hf|]. by intros x [? _]. }
  rewrite split_join; [done| |].
  - by apply compress_some.
  - intros x Hx. apply split_clean. apply compress_pieces in Hx as [->|Hx]; [done|]. rewrite Forall_forall in Hf. by apply Hf.
Qed.
Definition octet_ok (z : Z) : bool := (value 10 0 (pretty z) =? z) && all_chars isdigit (pretty z).
Lemma octets_ok : forallb (λ k, octet_ok (Z.of_nat k)) (seq 0 256) = true.
Proof. vm_compute. reflexivity. Qed.
Lemma digits_lack c s : isdigit c = false → all_chars isdigit s = true → any_char (Ascii.eqb c) s = false.
Proof.
  intros Hc. induction s as [|d s IH]; [done|]. simpl. intros [Hd H]%andb_true_iff. rewrite IH by done.
  destruct (Ascii.eqb_spec c d) as [->|]; [congruence|done].
Qed.
Lemma octet_spec n k : octet_ok (Z.land (Z.shiftr n k) 255) = true.
Proof.
  change 255 with (Z.ones 8). rewrite Z.land_ones by lia. pose proof (Z.mod_pos_bound (Z.shiftr n k) (2 ^ 8) ltac:(lia)) as H.
  pose proof octets_ok as Ho. rewrite forallb_forall in Ho. rewrite <- (Z2Nat.id (_ mod _)) by lia. apply Ho. apply in_seq. lia.
Qed.
Lemma octet_digits n k : all_chars isdigit (pretty (Z.land (Z.shiftr n k) 255)) = true.
Proof. by apply andb_true_iff with (1 := octet_spec n k). Qed.
Lemma v4_str_inj n m : 0 <= n < 2 ^ 32 → 0 <= m < 2 ^ 32 → v4_str n = v4_str m → n = m.
Proof.
  intros Hn Hm E. apply (f_equal (split_char ".")) in E. unfold v4_str in E. rewrite !split_join in E; [|done| |done|].
  2,3: intros x Hx; apply split_clean; apply list_elem_of_fmap in Hx as (k & -> & _);
    apply digits_lack; [done|]; by apply octet_digits.
  apply (groups_inj 8 4); [lia|lia|done|done|]. simpl map in E. injection E as E3 E2 E1 E0.
  assert (∀ k, pretty (Z.land (Z.shiftr n k) 255) = pretty (Z.land (Z.shiftr m k) 255) →
               Z.land (Z.shiftr n k) (Z.ones 8) = Z.land (Z.shiftr m k) (Z.ones 8)) as Hx.
  { intros k E%(f_equal (value 10 0)). pose proof (octet_spec n k) as H1. pose proof (octet_spec m k) as H2. unfold octet_ok in *.
    apply andb_true_iff in H1 as [H1%Z.eqb_eq _], H2 as [H2%Z.eqb_eq _]. change (Z.ones 8) with 255. congruence. }
  intros j Hj. assert (j = 0 ∨ j = 1 ∨ j = 2 ∨ j = 3) as Hc by lia. destruct Hc as [->|[->|[->| ->]]]; apply Hx; assumption.
Qed.

Lemma any_char_app f a b : any_char f (a +:+ b) = any_char f a || any_char f b.
Proof. induction a as [|c a IH]; [done|]. rewrite append_cons. simpl. rewrite IH. by rewrite orb_assoc. Qed.
Lemma v6_masked n : 0 <= n < 2 ^ 128 → Z.land n (netmask true _OIDC_IPV6_KEY_PREFIX) = n / 2 ^ 64 * 2 ^ 64.
Proof.
  intros Hn. rewrite <- Z.shiftr_div_pow2, <- Z.shiftl_mul_pow2 by lia. apply Z.bits_inj'. intros i Hi.
  rewrite Z.land_spec. unfold netmask. change (max_prefixlen true - _OIDC_IPV6_KEY_PREFIX) with 64. change _OIDC_IPV6_KEY_PREFIX with 64.
  destruct (Z_lt_le_dec i 64) as [Hl|Hg]; [rewrite !Z.shiftl_spec_low by lia; apply andb_false_r|].
  rewrite !Z.shiftl_spec, Z.shiftr_spec by lia. replace (i - 64 + 64) with i by lia.
  destruct (Z_lt_le_dec i 128) as [Hj|Hj]; [rewrite Z.ones_spec_low by lia; apply andb_true_r|].
  by rewrite (high_bit_false 128) by lia.
Qed.
Lemma v4_no_slash n : any_char (Ascii.eqb "/") (v4_str n) = false.
Proof.
  unfold v4_str. simpl map. cbn [join_str]. rewrite !any_char_app.
  rewrite !(digits_lack "/" (pretty _)) by (done || apply octet_digits). done.
Qed.
(** The address a key stands for: an address the parser gives, with no zone. *)
Definition plain_address (ip : IPAddress) : Prop :=
  match ip with IPv4 n => 0 <= n < 2 ^ 32 | IPv6 n scope => 0 <= n < 2 ^ 128 ∧ scope = None end.
Definition same_client (a b : IPAddress) : Prop :=
  match a, b with
  | IPv4 m, IPv4 n => m = n
  | IPv6 m _, IPv6 n _ => m / 2 ^ 64 = n / 2 ^ 64
  | _, _ => False
  end.
Lemma key_plain ip : plain_address ip →
  _key ip = match ip with IPv4 n => v4_str n | IPv6 n _ => v6_str (n / 2 ^ 64 * 2 ^ 64) +:+ "/64" end.
Proof.
  destruct ip as [n|n scope]; [done|]. intros [Hn ->]. unfold _key. cbv zeta. rewrite v6_masked by done.
  change (pretty _OIDC_IPV6_KEY_PREFIX) with "64". destruct (Z.eqb_spec (n / 2 ^ 64 * 2 ^ 64) n) as [E|]; [|done].
  simpl with_scope. rewrite E. done.
Qed.

(** Two clients share a key exactly when they have the same IPv4 address or
    IPv6 addresses of the same /64, and no client's key is one of the fixed
    buckets. *)
Theorem client_keys_exact a b :
  plain_address a → plain_address b →
  (_key a = _key b ↔ same_client a b) ∧ _key a ∉ [_OIDC_UNKNOWN_CLIENT; _OIDC_REWRITTEN_CLIENT].
Proof.
  intros Ha Hb. assert (∀ x y : string, x +:+ "/64" = y +:+ "/64" → x = y) as Hcut.
  { intros x. induction x as [|c x IH]; intros [|d y]; rewrite ?append_cons, ?append_nil_l; try done; intros [= -> E]; try (by destruct x as [|? [|? [|? [|]]]]);
      try (by destruct y as [|? [|? [|? [|]]]]). f_equal. by apply IH. }
  assert (∀ n, any_char (Ascii.eqb ".") (v4_str n) = true) as H4.
  { intros n. unfold v4_str. simpl map. cbn [join_str]. rewrite !any_char_app. by rewrite orb_true_r. }
  assert (∀ n, any_char (Ascii.eqb "/") (v6_str n +:+ "/64") = true) as H6 by (intros n; by rewrite any_char_app, orb_true_r).
  assert (∀ n m, v4_str n ≠ v6_str m +:+ "/64") as H46.
  { intros n m E. pose proof (v4_no_slash n) as H. rewrite E in H. pose proof (H6 m). congruence. }
  rewrite (key_plain a Ha), (key_plain b Hb). split.
  - destruct a as [m|m x], b as [n|n y]; simpl in Ha, Hb |- *.
    + split; [by apply v4_str_inj|congruence].
    + split; [by intros ?%H46|done].
    + split; [by intros E; symmetry in E; apply H46 in E|done].
    + split; [|congruence]. intros E%Hcut%v6_str_inj; [lia| |]; Z.div_mod_to_equations; lia.
  - intros [E|[E|[]%elem_of_nil]%elem_of_cons]%elem_of_cons; destruct a as [n|n ?];
      first [pose proof (H4 n) as H; rewrite E in H; discriminate H|pose proof (H6 (n / 2 ^ 64 * 2 ^ 64)) as H; rewrite E in H; discriminate H].
Qed.
Lemma client_keys_exact_witness :
  ip_address "2001:db8::1" = Some (IPv6 42540766411282592856903984951653826561 None) ∧
  (_key (IPv6 42540766411282592856903984951653826561 None) = _key (IPv6 42540766411282592856903984951653826562 None) ↔ True) ∧
  _key (IPv4 167772161) ∉ [_OIDC_UNKNOWN_CLIENT; _OIDC_REWRITTEN_CLIENT].
Proof.
  split; [reflexivity|]. split.
  - split; [done|]. intros _.
    refine (proj2 (proj1 (client_keys_exact (IPv6 42540766411282592856903984951653826561 None) (IPv6 42540766411282592856903984951653826562 None) _ _)) _);
      [split; [lia|reflexivity]|split; [lia|reflexivity]|vm_compute; reflexivity].
  - refine (proj2 (client_keys_exact (IPv4 167772161) (IPv4 167772161) _ _)); simpl; lia.
Defined.

(** The address of a /64 itself keeps its zone, so two of its clients differ. *)
Lemma zones_split_a_prefix :
  _key <$> _ip "fe80::%a" ≠ _key <$> _ip "fe80::%b" ∧ _key <$> _ip "fe80::1%a" = _key <$> _ip "fe80::1%b".
Proof. vm_compute. split; [discriminate|reflexivity]. Qed.
