(* ===== verification/Console.v ===== *)
(** * Browser sessions (api/console_auth.py)

    [SessionStore] with its rows, pending logins and spent token ids, and the
    OIDC exchange that ends in a session.  A session payload is the record its
    JSON encodes, [os.environ] is a function, random tokens are arguments,
    times are microseconds.  The two HTTP exchanges with the provider are
    arguments too: what it answered.  The theorems: who holds a session and
    for how long, that login starts stay bounded and one client cannot push
    out another's, that a login start and a token id are used once, and which
    roles a provider can hand out. *)
From S2P Require Import Prelude PyStr Budgets Contracts Queue Access ApiKeys ClientKey.
From Stdlib Require Import ZArith Lia Ascii.
Open Scope Z_scope.

(** ** Settings from the environment *)

Section Environment.
Context (env : string → option string).
Definition getenv (name d : string) : string := default d (env name).
Definition auth_mode : string := or_else (str_lower (strip (getenv "RECERTIA_CONSOLE_AUTH" "off"))) "off".
Definition flag_on (s : string) : bool := bool_decide (s ∈ ["1"; "true"; "yes"]).
Definition dev_login_enabled : bool :=
  bool_decide (auth_mode ∈ ["dev"; "development"]) && flag_on (str_lower (strip (getenv "RECERTIA_CONSOLE_DEV_LOGIN" ""))).
Definition dev_admin_enabled : bool := flag_on (str_lower (strip (getenv "RECERTIA_CONSOLE_DEV_ADMIN" ""))).
Definition cookie_secure : bool :=
  let raw := str_lower (strip (getenv "RECERTIA_CONSOLE_COOKIE_SECURE" "")) in
  if bool_decide (raw ∈ ["0"; "false"; "no"]) then false else if flag_on raw then true else negb (String.eqb auth_mode "dev").
Record CookieKwargs := mkCookie { httponly : bool; samesite : string; secure : bool; path : string }.
Definition session_cookie_kwargs : CookieKwargs := mkCookie true "strict" cookie_secure "/".
Definition csrf_cookie_kwargs : CookieKwargs :=
  mkCookie false (samesite session_cookie_kwargs) (secure session_cookie_kwargs) (path session_cookie_kwargs).
Definition resolve_session_secret (explicit : option string) (fresh : string) : result string :=
  let raw := strip (or_else (or_else (default "" explicit) (default "" (env "RECERTIA_CONSOLE_SESSION_SECRET"))) "") in
  if negb (String.eqb raw "") then if (String.length raw <? 32)%nat then Err RuntimeError else Ok raw
  else if String.eqb auth_mode "oidc" then Err RuntimeError
  else Ok fresh.
Definition oidc_configured : bool :=
  forallb (λ n, negb (String.eqb (getenv n "") "")) ["RECERTIA_OIDC_ISSUER"; "RECERTIA_OIDC_CLIENT_ID"; "RECERTIA_OIDC_CLIENT_SECRET"].
End Environment.

(** ** Users *)

Definition _VALID_ROLES : names := list_to_set ["operator"; "reviewer"; "admin"].
Record ConsoleUser := mkUser {
  cu_user_id : string; cu_display_name : string; cu_roles : names; cu_tenants : list string; cu_active_tenant : string }.
Definition is_admin (u : ConsoleUser) : bool := bool_decide ("admin" ∈ cu_roles u).
Inductive Role := role_operator | role_reviewer | role_admin.
Definition role_order (r : string) : Z :=
  if String.eqb r "operator" then 1 else if String.eqb r "reviewer" then 2 else if String.eqb r "admin" then 3 else 0.
Definition may (u : ConsoleUser) (role : Role) : bool :=
  if is_admin u then true
  else
    let have := foldr Z.max 0 (map role_order (elements (cu_roles u))) in
    match role with
    | role_operator => (1 <=? have) || bool_decide ("operator" ∈ cu_roles u) || bool_decide ("reviewer" ∈ cu_roles u)
    | role_reviewer => bool_decide ("reviewer" ∈ cu_roles u) || is_admin u
    | role_admin => is_admin u
    end.
Fixpoint mapR {A B} (f : A → result B) (l : list A) : result (list B) :=
  match l with [] => Ok [] | x :: l' => y ← f x; ys ← mapR f l'; Ok (y :: ys) end.
Definition _checked_tenants (tenants : list string) (active : option string) : result (list string * string) :=
  _ ← raise_unless (negb (is_nil tenants)) ValueError;
  checked ← mapR tenant_id tenants;
  chosen ← match active with None => Ok (default "" (head checked)) | Some a => tenant_id a end;
  _ ← raise_unless (bool_decide (chosen ∈ checked)) ValueError;
  Ok (checked, chosen).

(** ** [SessionStore] *)

Record SessionPayload := mkPayload {
  sp_user_id : string; sp_display_name : string; sp_roles : list string; sp_tenants : list string;
  sp_active_tenant : string; sp_csrf : string; sp_exp : Z }.
Record OidcPending := mkPending {
  op_verifier : string; op_redirect_uri : string; op_created_at : Z; op_nonce : string; op_client_key : string }.
(** [_oidc] is a dict: by state, in insertion order. *)
Record Sessions := mkSessions {
  ss_rows : gmap string SessionPayload; ss_oidc : list (string * OidcPending); ss_jti : gset string }.
#[export] Instance eta_Sessions : Eta Sessions := λ s, mkSessions (ss_rows s) (ss_oidc s) (ss_jti s).
Definition SM := M Sessions.
Definition smod (f : Sessions → Sessions) : SM unit := λ s, (f s, Ok tt).

Definition _OIDC_TTL : Z := 600000000.
Definition _OIDC_PENDING_MAX : nat := 1024.
Definition _OIDC_PENDING_PER_CLIENT : nat := 16.
Definition seconds (now : Z) : Z := now / 1000000.

(** [bytes.hex()] *)
Fixpoint to_hex (s : string) : string :=
  match s with
  | EmptyString => EmptyString
  | String c s' => let n := nat_of_ascii c in String (hex_digit (n / 16)) (String (hex_digit (n mod 16)) (to_hex s'))
  end.
(** [s.split(".", 2)] when it gives three parts. *)
Fixpoint cut_dot (s : string) : option (string * string) :=
  match s with
  | EmptyString => None
  | String c s' => if Ascii.eqb c "." then Some (EmptyString, s')
                   else match cut_dot s' with Some (a, b) => Some (String c a, b) | None => None end
  end.
Definition split_token (s : string) : option (string * string * string) :=
  match cut_dot s with
  | Some (a, r) => match cut_dot r with Some (b, c) => Some (a, b, c) | None => None end
  | None => None
  end.

(** [hmac.compare_digest] of two strings: it takes ASCII only. *)
Definition ascii_only (s : string) : bool := negb (any_char (λ c, (128 <=? code c)%nat) s).
Definition compare_digest (a b : string) : result bool :=
  if ascii_only a && ascii_only b then Ok (String.eqb a b) else Err (PyError "TypeError").
(** [s.encode()]: UTF-8 of the code points 0-255. *)
Fixpoint utf8 (s : string) : string :=
  match s with
  | EmptyString => EmptyString
  | String c s' => if (code c <? 128)%nat then String c (utf8 s')
                   else chr (192 + code c / 64) +:+ chr (128 + code c mod 64) +:+ utf8 s'
  end.

Section Store.
Context `{KC : KeyCrypto} (hmac_key : string).

Definition signature (session_id : string) : string := to_hex (hmac_sha256 hmac_key (utf8 session_id)).
Definition _token (session_id : string) : string := "v2." +:+ session_id +:+ "." +:+ signature session_id.
Definition _session_id (token : option string) : result (option string) :=
  match token with
  | None => Ok None
  | Some t =>
      if String.eqb t "" || negb (String.prefix "v2." t) then Ok None
      else match split_token t with
           | Some (prefix, session_id, sig) =>
               if negb (String.eqb prefix "v2") || String.eqb session_id "" || String.eqb sig "" then Ok None
               else
                 let expect := signature session_id in
                 if negb (Nat.eqb (String.length expect) (String.length sig)) then Ok None
                 else same ← compare_digest expect sig; Ok (if same : bool then Some session_id else None)
           | None => Ok None
           end
  end.
Definition issue_session (now : Z) (session_id csrf : string) (user : ConsoleUser) (ttl_s : Z) : SM string :=
  ta ← lift (_checked_tenants (cu_tenants user) (Some (cu_active_tenant user)));
  _ ← smod (λ s, s <| ss_rows := <[session_id := mkPayload (cu_user_id user) (cu_display_name user) (sorted_names (cu_roles user))
                                                    ta.1 ta.2 csrf (seconds now + ttl_s)]> (ss_rows s) |>);
  mret (_token session_id).
Definition _payload (now : Z) (token : option string) : SM (option SessionPayload) := λ s,
  match _session_id token with
  | Err e => (s, Err e)
  | Ok None => (s, Ok None)
  | Ok (Some sid) =>
      match ss_rows s !! sid with
      | None => (s, Ok None)
      | Some p => if sp_exp p <? seconds now then (s <| ss_rows := delete sid (ss_rows s) |>, Ok None) else (s, Ok (Some p))
      end
  end.
Definition user_of (p : SessionPayload) : option ConsoleUser :=
  if is_nil (sp_tenants p) then None
  else match _checked_tenants (sp_tenants p) (Some (sp_active_tenant p)) with
       | Err _ => None
       | Ok ta =>
           let roles := list_to_set (sp_roles p) in
           if bool_decide (roles ∩ _VALID_ROLES = ∅) then None
           else Some (mkUser (sp_user_id p) (or_else (sp_display_name p) (sp_user_id p)) roles ta.1 ta.2)
       end.
Definition parse (now : Z) (token : option string) : SM (option ConsoleUser) :=
  p ← _payload now token; mret (p ← p; user_of p).
Definition csrf_for (now : Z) (token : option string) : SM (option string) :=
  p ← _payload now token; mret (p ← p; if String.eqb (sp_csrf p) "" then None else Some (sp_csrf p)).
Definition csrf_matches (now : Z) (token : option string) (presented : string) : SM bool :=
  e ← csrf_for now token;
  let expected := default "" e in
  if String.eqb expected "" || negb (Nat.eqb (String.length expected) (String.length presented)) then mret false
  else lift (compare_digest expected presented).
Definition switch_tenant (user : ConsoleUser) (tenant : string) : result ConsoleUser :=
  t ← tenant_id tenant;
  _ ← raise_unless (bool_decide (t ∈ cu_tenants user)) ValueError;
  Ok (mkUser (cu_user_id user) (cu_display_name user) (cu_roles user) (cu_tenants user) t).

Definition pending := list (string * OidcPending).
Definition _purge_oidc_locked (now : Z) (l : pending) : pending :=
  List.filter (λ kv, negb (_OIDC_TTL <? now - op_created_at kv.2)) l.
Definition dict_pop (k : string) (l : pending) : pending := List.filter (λ kv, negb (String.eqb kv.1 k)) l.
Fixpoint dict_set (k : string) (v : OidcPending) (l : pending) : pending :=
  match l with [] => [(k, v)] | kv :: l' => if String.eqb kv.1 k then (k, v) :: l' else kv :: dict_set k v l' end.
Definition mine (client_key : string) (l : pending) : list string :=
  map fst (List.filter (λ kv, String.eqb (op_client_key kv.2) client_key) l).
(** The two eviction loops. *)
Definition evict_own (client_key : string) (l : pending) : pending :=
  foldl (λ l k, dict_pop k l) l (take (length (mine client_key l) - (_OIDC_PENDING_PER_CLIENT - 1)) (mine client_key l)).
Definition evict_oldest (l : pending) : pending := drop (length l - (_OIDC_PENDING_MAX - 1)) l.
Definition begin_oidc (now : Z) (state verifier nonce redirect_uri client_key : string) : SM (string * string * string) :=
  _ ← smod (λ s, s <| ss_oidc :=
        dict_set state (mkPending verifier redirect_uri now nonce client_key)
          (evict_oldest (evict_own client_key (_purge_oidc_locked now (ss_oidc s)))) |>);
  mret (state, verifier, nonce).
Definition dict_get (k : string) (l : pending) : option OidcPending := snd <$> find_first (λ kv, String.eqb kv.1 k) l.
Definition take_oidc (now : Z) (state : string) : SM (option OidcPending) := λ s,
  let l := _purge_oidc_locked now (ss_oidc s) in
  (s <| ss_oidc := dict_pop state l |>, Ok (dict_get state l)).
Definition claim_jti (jti : string) : SM unit := λ s,
  if String.eqb jti "" || any_char isspace jti then (s, Err ValueError)
  else if bool_decide (jti ∈ ss_jti s) then (s, Err ValueError)
  else (s <| ss_jti := {[jti]} ∪ ss_jti s |>, Ok tt).

(** ** OIDC *)

(** [bool(x)] of a JSON value, and [dict.get] with an [or] after it. *)
Definition first_true (a b : option json) : option json := match a with Some v => Some v | None => b end.
Definition comma_list (s : string) : list string :=
  List.filter (λ r, negb (String.eqb r "")) (map strip (split_char "," s)).
Inductive http_answer := HttpError (status : Z) | UrlError | NotJson | Body (j : json).

Section Oidc.
(** [os.environ], [str] of a JSON value that is not a string, and the base64
    and JSON decoding of a token's middle part ([None] for its errors). *)
Context (env : string → option string) (str_other : json → string) (decode_part : string → option json).
Definition py_str (j : json) : string := match j with JStr s => s | _ => str_other j end.
(** A string is split at commas, another iterable gives the [str] of its items. *)
Definition claim_list (j : json) : result (list string) :=
  match j with
  | JStr s => Ok (comma_list s)
  | JArr l => Ok (map py_str l)
  | JObj o => Ok (map fst o)
  | _ => Err (PyError "TypeError")
  end.
Definition _map_oidc_roles (profile : json_obj) : result names :=
  claimed ← claim_list (default (JArr []) (first_true (get_true "roles" profile) (get_true "groups" profile)));
  let allowed : names := list_to_set (comma_list (getenv env "RECERTIA_OIDC_ROLE_ALLOWLIST" "operator,reviewer")) ∩ _VALID_ROLES in
  let roles : names := list_to_set claimed ∩ allowed in
  let roles := if bool_decide (roles = ∅)
               then list_to_set (comma_list (getenv env "RECERTIA_OIDC_DEFAULT_ROLES" "operator")) ∩ allowed else roles in
  let roles := if bool_decide ("admin" ∈ roles) && negb (bool_decide ("admin" ∈ allowed)) then roles ∖ {["admin"]} else roles in
  Ok (if bool_decide (roles = ∅) then {["operator"]} else roles).

Definition _id_token_payload (token : string) : result json_obj :=
  match split_char "." token with
  | [_; part; _] =>
      if String.eqb part "" then Err (HTTPException 400)
      else match decode_part part with Some (JObj o) => Ok o | _ => Err (HTTPException 400) end
  | _ => Err (HTTPException 400)
  end.
Definition is_value_error (e : exn) : bool := match e with ValueError | InvalidTenantId => true | _ => false end.
Definition or_http {A} (status : Z) (m : SM A) : SM A := catch m (λ e, raise (if is_value_error e then HTTPException status else e)).
Definition _check_id_token (token nonce : string) : SM unit :=
  payload ← lift (_id_token_payload token);
  match obj_get "nonce" payload with
  | Some (JStr got) =>
      if negb (Nat.eqb (String.length got) (String.length nonce)) then raise (HTTPException 400)
      else
        same ← lift (compare_digest got nonce);
        if negb same then raise (HTTPException 400)
        else
          match obj_get "jti" payload with
          | Some (JStr jti) => or_http 400 (claim_jti jti)
          | _ => raise (HTTPException 400)
          end
  | _ => raise (HTTPException 400)
  end.
(** [json.loads(resp.read().decode())] as a dict, and the errors of urlopen. *)
Definition answer (a : http_answer) : result json_obj :=
  match a with
  | HttpError _ | UrlError => Err (HTTPException 502)
  | NotJson => Err (PyError "JSONDecodeError")
  | Body (JObj o) => Ok o
  | Body _ => Err (PyError "AttributeError")
  end.
Definition env_required (name : string) : result string := match env name with Some v => Ok v | None => Err KeyError end.
Definition user_from_profile (profile : json_obj) : result ConsoleUser :=
  let user_id := from_option py_str "" (first_true (get_true "sub" profile) (get_true "email" profile)) in
  _ ← raise_unless (negb (String.eqb user_id "")) (HTTPException 502);
  roles ← _map_oidc_roles profile;
  claimed ← claim_list (default (JStr (getenv env "RECERTIA_OIDC_DEFAULT_TENANTS" "default")) (get_true "tenants" profile));
  ta ← match _checked_tenants (if is_nil claimed then ["default"] else claimed) None with
       | Err e => Err (if is_value_error e then HTTPException 502 else e) | Ok ta => Ok ta end;
  Ok (mkUser user_id (from_option py_str user_id (first_true (get_true "name" profile) (get_true "email" profile))) roles ta.1 ta.2).
Definition oidc_exchange_code (token_answer info_answer : http_answer) (nonce : string) : SM ConsoleUser :=
  _ ← lift (env_required "RECERTIA_OIDC_ISSUER");
  _ ← lift (env_required "RECERTIA_OIDC_CLIENT_ID");
  _ ← lift (env_required "RECERTIA_OIDC_CLIENT_SECRET");
  tok ← lift (answer token_answer);
  _ ← lift (raise_unless (bool_decide (is_Some (get_true "access_token" tok))) (HTTPException 502));
  match get_true "id_token" tok with
  | Some (JStr id_token) =>
      _ ← _check_id_token id_token nonce;
      profile ← lift (answer info_answer);
      lift (user_from_profile profile)
  | _ => raise (HTTPException 502)
  end.

(** ** The session of a request *)

Definition console_session (now : Z) (header cookie : option string) : SM (option ConsoleUser) :=
  if String.eqb (auth_mode env) "off" then mret None
  else parse now (match header with Some h => if String.eqb h "" then cookie else Some h | None => cookie end).
Definition require_console_user (now : Z) (header cookie : option string) (min_role : Role) (x_recertia_tenant : option string) : SM ConsoleUser :=
  user ← console_session now header cookie;
  match user with
  | None => raise (HTTPException 401)
  | Some user =>
      if negb (may user min_role) then raise (HTTPException 403)
      else
        match x_recertia_tenant with
        | Some t => if String.eqb t "" then mret user
                    else if negb (bool_decide (t ∈ cu_tenants user)) then raise (HTTPException 403)
                    else lift (switch_tenant user t)
        | None => mret user
        end
  end.
End Oidc.
End Store.

(** ** Theorems *)

(** *** Tokens *)

Lemma compare_digest_refl a : ascii_only a = true → compare_digest a a = Ok true.
Proof. unfold compare_digest. intros ->. simpl. by rewrite String.eqb_refl. Qed.
Lemma hex_digit_ascii n : (n < 16)%nat → (128 <=? code (hex_digit n))%nat = false.
Proof. intros H. do 16 (destruct n as [|n]; [done|]). lia. Qed.
Lemma to_hex_ascii s : ascii_only (to_hex s) = true.
Proof.
  unfold ascii_only. apply negb_true_iff. induction s as [|c s IH]; [done|]. cbn [to_hex any_char]. rewrite IH.
  pose proof (nat_ascii_bounded c). rewrite !hex_digit_ascii; [done|by apply Nat.mod_upper_bound|].
  apply Nat.Div0.div_lt_upper_bound. lia.
Qed.
Lemma to_hex_filled s : s ≠ "" → to_hex s ≠ "".
Proof. by destruct s. Qed.

Lemma cut_dot_app a b : all_chars tenant_char a = true → cut_dot (a +:+ "." +:+ b) = Some (a, b).
Proof.
  induction a as [|c a IH]; [done|]. cbn [all_chars]. intros [Hc H]%andb_true_iff. rewrite append_cons. cbn [cut_dot].
  rewrite IH by done. destruct (Ascii.eqb_spec c "."); [by subst|done].
Qed.
Lemma cut_dot_Some s a b : cut_dot s = Some (a, b) → s = a +:+ "." +:+ b.
Proof.
  revert a b. induction s as [|c s IH]; intros a b; [done|]. cbn [cut_dot]. destruct (Ascii.eqb_spec c ".") as [->|].
  - by intros [= <- <-].
  - destruct (cut_dot s) as [[a' b']|]; [|done]. intros [= <- <-]. by rewrite append_cons, <- (IH _ _ eq_refl).
Qed.

Section Theorems.
Context `{KC : KeyCrypto} (hmac_key : string).
(** A digest has 32 bytes; all that is needed is that it has some. *)
Context (hmac_filled : ∀ k m, hmac_sha256 k m ≠ "").

Lemma session_id_token sid :
  token_ok sid = true → _session_id hmac_key (Some (_token hmac_key sid)) = Ok (Some sid).
Proof.
  intros [Hn Hc]%andb_true_iff. apply negb_true_iff in Hn. unfold _session_id. set (sig := signature hmac_key sid).
  assert (String.eqb sig "" = false) as Hs by (apply String.eqb_neq; by apply to_hex_filled).
  change (_token hmac_key sid) with ("v2." +:+ (sid +:+ "." +:+ sig)).
  change (String.prefix "v2." ("v2." +:+ (sid +:+ "." +:+ sig))) with (String.prefix "" (sid +:+ "." +:+ sig)).
  replace (String.prefix "" (sid +:+ "." +:+ sig)) with true by by destruct (sid +:+ "." +:+ sig).
  unfold split_token. change (cut_dot ("v2." +:+ (sid +:+ "." +:+ sig))) with (Some ("v2"%string, sid +:+ "." +:+ sig)). cbv beta iota.
  rewrite cut_dot_app by done. change (String.eqb "v2" "v2") with true. rewrite Hn, Hs. cbn [negb orb].
  fold sig. rewrite Nat.eqb_refl, compare_digest_refl by apply to_hex_ascii. done.
Qed.
(** What a token that is accepted looks like. *)
Lemma session_id_Some tok sid : _session_id hmac_key tok = Ok (Some sid) → tok = Some (_token hmac_key sid).
Proof.
  unfold _session_id. destruct tok as [t|]; [|done]. destruct (_ || _); [done|]. unfold split_token.
  destruct (cut_dot t) as [[a r]|] eqn:E1; [|done]. destruct (cut_dot r) as [[b sig]|] eqn:E2; [|done].
  destruct (negb (String.eqb a "v2")) eqn:Ea; [done|]. destruct (_ || _); [done|]. simpl. destruct (negb (Nat.eqb _ _)); [done|].
  unfold compare_digest. destruct (_ && _); [|done]. cbn. destruct (String.eqb_spec (signature hmac_key b) sig) as [Es|]; [|done].
  intros [= <-]. apply negb_false_iff, String.eqb_eq in Ea as ->. apply cut_dot_Some in E1 as ->. apply cut_dot_Some in E2 as ->. by subst.
Qed.

(** *** Tenants and users of a row *)

Lemma tenant_id_Ok t u : tenant_id t = Ok u → u = t.
Proof. unfold tenant_id. destruct (tenant_ok t); congruence. Qed.
Lemma mapR_tenants l l' : mapR tenant_id l = Ok l' → l' = l ∧ Forall (λ t, tenant_id t = Ok t) l.
Proof.
  revert l'. induction l as [|t l IH]; intros l'; cbn [mapR]; [by intros [= <-]|].
  intros (t' & Ht & (ts & Hl & [= <-])%bind_Ok_inv)%bind_Ok_inv. destruct (IH _ Hl) as [-> Hf]. pose proof (tenant_id_Ok _ _ Ht) as ->. by split; [|constructor].
Qed.
Lemma mapR_valid l : Forall (λ t, tenant_id t = Ok t) l → mapR tenant_id l = Ok l.
Proof. induction 1 as [|t l Ht Hl IH]; [done|]. cbn [mapR]. rewrite Ht. cbn. by rewrite IH. Qed.
Lemma checked_tenants_Ok l a r :
  _checked_tenants l (Some a) = Ok r → r = (l, a) ∧ a ∈ l ∧ l ≠ [] ∧ Forall (λ t, tenant_id t = Ok t) l.
Proof.
  unfold _checked_tenants.
  intros (u & Hn%raise_unless_Ok & (l' & [-> Hl]%mapR_tenants & (a' & Ha & (v & Hi%raise_unless_Ok & [= <-])%bind_Ok_inv)%bind_Ok_inv)%bind_Ok_inv)%bind_Ok_inv.
  pose proof (tenant_id_Ok _ _ Ha) as ->. apply bool_decide_eq_true in Hi. repeat split; [done| |done]. by destruct l.
Qed.
Lemma sorted_names_set (s : names) : list_to_set (C := names) (sorted_names s) = s.
Proof. apply set_eq. intros x. unfold sorted_names. by rewrite elem_of_list_to_set, sorted_by_elem, elem_of_elements. Qed.

Lemma user_of_Some p u : user_of p = Some u →
  cu_user_id u = sp_user_id p ∧ cu_roles u = list_to_set (sp_roles p) ∧ cu_tenants u = sp_tenants p ∧
  cu_active_tenant u = sp_active_tenant p ∧ cu_active_tenant u ∈ cu_tenants u ∧ Forall (λ t, tenant_id t = Ok t) (cu_tenants u) ∧
  cu_roles u ∩ _VALID_ROLES ≠ ∅.
Proof.
  unfold user_of. destruct (is_nil _); [done|]. destruct (_checked_tenants _ _) as [ta|] eqn:E; [|done].
  apply checked_tenants_Ok in E as (-> & Hi & _ & Hf). case_bool_decide as Hr; [done|]. intros [= <-]. done.
Qed.
Lemma payload_Some t tok s s' p :
  _payload hmac_key t tok s = (s', Ok (Some p)) ↔
  s' = s ∧ ∃ sid, _session_id hmac_key tok = Ok (Some sid) ∧ ss_rows s !! sid = Some p ∧ seconds t <= sp_exp p.
Proof.
  unfold _payload. destruct (_session_id hmac_key tok) as [[sid|]|e]; [|naive_solver|naive_solver].
  destruct (ss_rows s !! sid) as [q|] eqn:E; [|naive_solver]. destruct (Z.ltb_spec (sp_exp q) (seconds t)).
  - split; [done|]. intros (_ & ? & [= <-] & Hq & ?). rewrite E in Hq. injection Hq as ->. lia.
  - split; [intros [= <- <-]; eauto 10|]. intros (-> & ? & [= <-] & Hq & ?). rewrite E in Hq. by injection Hq as ->.
Qed.
Lemma parse_Some t tok s s' u :
  parse hmac_key t tok s = (s', Ok (Some u)) ↔ ∃ p, _payload hmac_key t tok s = (s', Ok (Some p)) ∧ user_of p = Some u.
Proof.
  unfold parse. unfold mbind at 1, M_bind. destruct (_payload hmac_key t tok s) as [s1 [[p|]|e]]; simpl; [|naive_solver|naive_solver].
  split; [intros [= <- H]; eauto|]. intros (q & [= <- <-] & H). by rewrite H.
Qed.

(** *** Who holds a session *)

(** A browser session is only ever accepted for a token this store signed,
    over a row it still has and that has not expired, and the user is exactly
    the row's: nothing a cookie says chooses roles or tenants. *)
Theorem session_sound t tok s s' u :
  parse hmac_key t tok s = (s', Ok (Some u)) →
  s' = s ∧ ∃ sid p, tok = Some (_token hmac_key sid) ∧ ss_rows s !! sid = Some p ∧ seconds t <= sp_exp p ∧
    cu_user_id u = sp_user_id p ∧ cu_roles u = list_to_set (sp_roles p) ∧ cu_tenants u = sp_tenants p ∧
    cu_active_tenant u = sp_active_tenant p ∧ cu_active_tenant u ∈ cu_tenants u.
Proof.
  intros (p & (-> & sid & H1%session_id_Some & H2 & H3)%payload_Some & H4)%parse_Some. split; [done|]. exists sid, p.
  apply user_of_Some in H4. naive_solver.
Qed.

Lemma issue_Ok now sid csrf u ttl s s' tok :
  issue_session hmac_key now sid csrf u ttl s = (s', Ok tok) →
  tok = _token hmac_key sid ∧ _checked_tenants (cu_tenants u) (Some (cu_active_tenant u)) = Ok (cu_tenants u, cu_active_tenant u) ∧
  s' = s <| ss_rows := <[sid := mkPayload (cu_user_id u) (cu_display_name u) (sorted_names (cu_roles u)) (cu_tenants u)
                                  (cu_active_tenant u) csrf (seconds now + ttl)]> (ss_rows s) |>.
Proof.
  unfold issue_session. intros (ta & s1 & [-> Hc]%lift_Ok & ([] & s2 & E & [-> ->]%ret_Ok)%M_bind_Ok)%M_bind_Ok.
  pose proof (checked_tenants_Ok _ _ _ Hc) as (-> & _). apply (f_equal fst) in E. cbn in E. by rewrite <- E.
Qed.
Lemma user_of_issued u csrf exp :
  cu_roles u ∩ _VALID_ROLES ≠ ∅ → _checked_tenants (cu_tenants u) (Some (cu_active_tenant u)) = Ok (cu_tenants u, cu_active_tenant u) →
  user_of (mkPayload (cu_user_id u) (cu_display_name u) (sorted_names (cu_roles u)) (cu_tenants u) (cu_active_tenant u) csrf exp) =
  Some (mkUser (cu_user_id u) (or_else (cu_display_name u) (cu_user_id u)) (cu_roles u) (cu_tenants u) (cu_active_tenant u)).
Proof.
  intros Hr Hc. pose proof (checked_tenants_Ok _ _ _ Hc) as (_ & _ & Hn & _). unfold user_of. simpl.
  replace (is_nil (cu_tenants u)) with false by by destruct (cu_tenants u). rewrite Hc, sorted_names_set. by rewrite bool_decide_false.
Qed.

Definition session_of (u : ConsoleUser) : ConsoleUser :=
  mkUser (cu_user_id u) (or_else (cu_display_name u) (cu_user_id u)) (cu_roles u) (cu_tenants u) (cu_active_tenant u).
(** Whom a session issued for [u] stands for: nobody when [u] has none of the
    console's roles. *)
Definition issued_user (u : ConsoleUser) : option ConsoleUser :=
  if bool_decide (cu_roles u ∩ _VALID_ROLES = ∅) then None else Some (session_of u).
Lemma issued_row now sid csrf u ttl s s' tok t :
  token_ok sid = true → issue_session hmac_key now sid csrf u ttl s = (s', Ok tok) → seconds t <= seconds now + ttl →
  ∃ row, _payload hmac_key t (Some tok) s' = (s', Ok (Some row)) ∧ sp_csrf row = csrf ∧ user_of row = issued_user u.
Proof.
  intros Hs (-> & Hc & ->)%issue_Ok Ht. eexists. split; [apply payload_Some; split; [done|]|].
  - exists sid. split; [by apply session_id_token|]. split; [apply lookup_insert_eq|done].
  - split; [done|]. unfold issued_user. case_bool_decide as Hr; [|by apply user_of_issued].
    unfold user_of. simpl. replace (is_nil (cu_tenants u)) with false by (pose proof (checked_tenants_Ok _ _ _ Hc) as (_ & _ & Hn & _); by destruct (cu_tenants u)).
    rewrite Hc, sorted_names_set. by rewrite bool_decide_true.
Qed.
Lemma issued_payload now sid csrf u ttl s s' tok t :
  token_ok sid = true → issue_session hmac_key now sid csrf u ttl s = (s', Ok tok) → seconds t <= seconds now + ttl →
  ∃ row, _payload hmac_key t (Some tok) s' = (s', Ok (Some row)) ∧ sp_csrf row = csrf ∧
    (cu_roles u ∩ _VALID_ROLES ≠ ∅ → user_of row = Some (session_of u)).
Proof.
  intros Hs Hi Ht. destruct (issued_row _ _ _ _ _ _ _ _ t Hs Hi Ht) as (row & Hp & Hc & Hu). exists row. split_and!; [done|done|].
  intros Hr. rewrite Hu. unfold issued_user. by rewrite bool_decide_false.
Qed.

(** C33: A session round-trips: until it expires its token gives back the user it
    was issued for (an empty display name is read as the user id) and changes
    nothing - or nobody, when that user has none of the console's roles, which
    issuing does not check; once it is presented after that it is gone for
    good, even for a clock that is set back. *)
Theorem session_round_trip now sid csrf u ttl s s' tok t :
  token_ok sid = true → issue_session hmac_key now sid csrf u ttl s = (s', Ok tok) →
  (seconds t <= seconds now + ttl → parse hmac_key t (Some tok) s' = (s', Ok (issued_user u))) ∧
  (seconds now + ttl < seconds t →
     ∃ s'', parse hmac_key t (Some tok) s' = (s'', Ok None) ∧ ∀ t', parse hmac_key t' (Some tok) s'' = (s'', Ok None)).
Proof.
  intros Hs Hi. split; intros Ht.
  { destruct (issued_row _ _ _ _ _ _ _ _ t Hs Hi Ht) as (row & Hp & _ & Hu). unfold parse, mbind, M_bind. rewrite Hp. simpl. by rewrite Hu. }
  apply issue_Ok in Hi as (-> & Hc & ->). pose proof (session_id_token sid Hs) as Hi.
  { unfold parse, _payload, mbind, M_bind. rewrite Hi. cbn [ss_rows setf eta eta_Sessions]. rewrite lookup_insert_eq. cbn [sp_exp].
    destruct (Z.ltb_spec (seconds now + ttl) (seconds t)); [|lia]. eexists. split; [done|]. intros t'. cbn. by rewrite lookup_delete_eq. }
Qed.

(** Presenting a session fails with an error only for a token with a
    signature of the right length that is not ASCII - where the comparison
    itself raises, before anything was looked up. *)
Theorem session_errors t tok s s' e :
  parse hmac_key t tok s = (s', Err e) →
  s' = s ∧ e = PyError "TypeError" ∧
  ∃ sid sig, tok = Some ("v2." +:+ sid +:+ "." +:+ sig) ∧ String.length sig = String.length (signature hmac_key sid) ∧ ascii_only sig = false.
Proof.
  unfold parse, mbind, M_bind, _payload. destruct (_session_id hmac_key tok) as [[sid|]|e'] eqn:E; [|done|].
  - destruct (ss_rows s !! sid) as [p|]; [|done]. by destruct (_ <? _).
  - simpl. intros [= <- <-]. split; [done|]. revert E. unfold _session_id. destruct tok as [tk|]; [|done]. destruct (_ || _); [done|]. unfold split_token.
    destruct (cut_dot tk) as [[a r]|] eqn:E1; [|done]. destruct (cut_dot r) as [[b sig]|] eqn:E2; [|done].
    destruct (negb (String.eqb a "v2")) eqn:Ea; [done|]. destruct (_ || _); [done|]. simpl.
    destruct (Nat.eqb_spec (String.length (signature hmac_key b)) (String.length sig)) as [El|]; [|done]. simpl. unfold compare_digest. unfold signature at 1. rewrite to_hex_ascii. simpl.
    destruct (ascii_only sig) eqn:Es; [done|]. intros [= <-]. split; [done|].
    apply negb_false_iff, String.eqb_eq in Ea as ->. apply cut_dot_Some in E1 as ->. apply cut_dot_Some in E2 as ->. eauto.
Qed.
End Theorems.

(** Small instances for the witnesses. *)
Definition demo_hmac : KeyCrypto := {| hmac_sha256 := λ k m, "#" +:+ k +:+ m; pbkdf2_hmac := λ s salt, salt +:+ s |}.
Definition demo_key : string := "k".
Definition demo_user : ConsoleUser := mkUser "ada" "" {["operator"]} ["t1"; "t2"] "t1".
Definition demo_issue : Sessions * result string := @issue_session demo_hmac demo_key 5000000 "sid-1" "csrf" demo_user 60 (mkSessions ∅ [] ∅).
Definition demo_token : string := @_token demo_hmac demo_key "sid-1".
Definition demo_sessions : Sessions := demo_issue.1.
Lemma demo_filled k m : @hmac_sha256 demo_hmac k m ≠ "".
Proof. done. Qed.
Lemma demo_roles : cu_roles demo_user ∩ _VALID_ROLES ≠ ∅.
Proof. apply (bool_decide_eq_false (_ = _)). vm_compute. reflexivity. Qed.
Lemma session_round_trip_witness :
  @parse demo_hmac demo_key 65000000 (Some demo_token) demo_sessions = (demo_sessions, Ok (Some (session_of demo_user))) ∧
  ∃ s'', @parse demo_hmac demo_key 66000000 (Some demo_token) demo_sessions = (s'', Ok None) ∧
         ∀ t', @parse demo_hmac demo_key t' (Some demo_token) s'' = (s'', Ok None).
Proof.
  split.
  - refine (eq_trans (proj1 (@session_round_trip demo_hmac demo_key demo_filled 5000000 "sid-1" "csrf" demo_user 60 (mkSessions ∅ [] ∅) demo_sessions demo_token 65000000 _ _) _) _);
      [reflexivity|reflexivity|vm_compute; discriminate|vm_compute; reflexivity].
  - refine (proj2 (@session_round_trip demo_hmac demo_key demo_filled 5000000 "sid-1" "csrf" demo_user 60 (mkSessions ∅ [] ∅) demo_sessions demo_token 66000000 _ _) _);
      reflexivity.
Defined.
Lemma session_sound_witness :
  ∃ sid p, Some demo_token = Some (@_token demo_hmac demo_key sid) ∧ ss_rows demo_sessions !! sid = Some p.
Proof.
  destruct (@session_sound demo_hmac demo_key 5000000 (Some demo_token) demo_sessions demo_sessions (session_of demo_user)) as (_ & sid & p & H1 & H2 & _); [|by exists sid, p].
  apply (λ H, proj2 (@parse_Some demo_hmac demo_key _ _ _ _ _) H).
  destruct (@issued_payload demo_hmac demo_key demo_filled 5000000 "sid-1" "csrf" demo_user 60 (mkSessions ∅ [] ∅) demo_sessions demo_token 5000000) as (row & Hp & _ & Hu);
    [reflexivity|reflexivity|vm_compute; discriminate|exists row; split; [exact Hp|exact (Hu demo_roles)]].
Defined.
(** A cookie whose signature has the right length but holds a letter beyond
    ASCII: the request fails instead of being unauthenticated. *)
Definition accented : string := chr 233 +:+ String.concat "" (repeat "0" 13).
Lemma session_errors_witness :
  @parse demo_hmac demo_key 0 (Some ("v2." +:+ "sid-1" +:+ "." +:+ accented)) demo_sessions = (demo_sessions, Err (PyError "TypeError")) ∧
  ∃ sid sig, Some ("v2." +:+ "sid-1" +:+ "." +:+ accented) = Some ("v2." +:+ sid +:+ "." +:+ sig) ∧
    String.length sig = String.length (@signature demo_hmac demo_key sid) ∧ ascii_only sig = false.
Proof.
  assert (@parse demo_hmac demo_key 0 (Some ("v2." +:+ "sid-1" +:+ "." +:+ accented)) demo_sessions = (demo_sessions, Err (PyError "TypeError"))) as H by reflexivity.
  split; [exact H|]. exact (proj2 (proj2 (@session_errors demo_hmac demo_key _ _ _ _ _ H))).
Defined.

(** *** Login starts *)

Definition own (c : string) (l : pending) : pending := List.filter (λ kv, String.eqb (op_client_key kv.2) c) l.
Definition others (c : string) (l : pending) : pending := List.filter (λ kv, negb (String.eqb (op_client_key kv.2) c)) l.
Definition live_at (t : Z) (kv : string * OidcPending) : bool := negb (_OIDC_TTL <? t - op_created_at kv.2).
Record pending_ok (l : pending) : Prop := {
  pd_keys : NoDup (map fst l);
  pd_total : (length l <= _OIDC_PENDING_MAX)%nat;
  pd_client : ∀ c, (length (own c l) <= _OIDC_PENDING_PER_CLIENT)%nat }.

Lemma own_others c l : (length (own c l) + length (others c l) = length l)%nat.
Proof. unfold own, others. induction l as [|x l IH]; [done|]. simpl. destruct (String.eqb _ c); simpl; lia. Qed.
Lemma filter_drop {A} (f : A → bool) m l : ∃ j, List.filter f (drop m l) = drop j (List.filter f l) ∧ (j <= m)%nat.
Proof.
  revert l. induction m as [|m IH]; intros l; [by exists 0%nat|]. destruct l as [|x l]; [exists 0%nat; split; [done|lia]|].
  cbn [drop List.filter]. destruct (IH l) as (j & -> & Hj). destruct (f x); [exists (S j)|exists j]; (split; [done|lia]).
Qed.

(** Keys, one by one, popped off a dict. *)
Lemma pop_all ks l : foldl (λ l k, dict_pop k l) l ks = List.filter (λ kv, negb (bool_decide (kv.1 ∈ ks))) l.
Proof.
  revert l. induction ks as [|k ks IH]; intros l; [symmetry; by apply filter_all|]. cbn [foldl]. rewrite IH. unfold dict_pop. clear IH.
  induction l as [|[k' v] l IH]; [done|]. cbn [List.filter fst].
  rewrite (bool_decide_ext (k' ∈ k :: ks) (k' = k ∨ k' ∈ ks)) by apply elem_of_cons. rewrite bool_decide_or.
  destruct (String.eqb_spec k' k) as [->|Hn]; [by rewrite bool_decide_true by done|]. rewrite (bool_decide_false (k' = k)) by done.
  cbn [negb orb List.filter fst]. by destruct (negb _); rewrite IH.
Qed.
Lemma drop_keys n (l : pending) :
  NoDup (map fst l) → List.filter (λ kv, negb (bool_decide (kv.1 ∈ take n (map fst l)))) l = drop n l.
Proof.
  revert n. induction l as [|[k v] l IH]; intros n Hd; [by destruct n|]. destruct n as [|n]; [by apply filter_all|].
  cbn [map take List.filter drop fst]. rewrite bool_decide_true by left. cbn [negb].
  apply NoDup_cons in Hd as [Hk Hd]. rewrite <- (IH n Hd). apply List.filter_ext_in. intros [k' v'] Hi%list_elem_of_In. simpl.
  rewrite (bool_decide_ext (k' ∈ k :: take n (map fst l)) (k' ∈ take n (map fst l))); [done|]. rewrite elem_of_cons.
  split; [|by right]. intros [->|]; [|done]. exfalso. apply Hk. apply list_elem_of_fmap. by exists (k, v').
Qed.
Lemma own_keys_apart c (l : pending) k v :
  NoDup (map fst l) → (k, v) ∈ others c l → k ∉ map fst (own c l).
Proof.
  intros Hd Hi Hk. apply list_elem_of_fmap in Hk as ([k' v'] & -> & Hk). apply elem_of_lfilter in Hi as [Hc Hi], Hk as [Hc' Hk].
  cut (v' = v); [intros ->; simpl in *; by rewrite Hc' in Hc|]. clear Hc Hc'. simpl in *. induction l as [|[a b] l IH]; [by apply elem_of_nil in Hi|].
  apply NoDup_cons in Hd as [Ha Hd]. assert (∀ x, (k', x) ∈ l → k' ≠ a) as Hne.
  { intros x Hx ->. apply Ha. apply list_elem_of_fmap. by exists (a, x). }
  apply elem_of_cons in Hi as [E|Hi], Hk as [E'|Hk]; [congruence|apply Hne in Hk; congruence|apply Hne in Hi; congruence|auto].
Qed.
Lemma evict_own_own c l : NoDup (map fst l) → own c (evict_own c l) = drop (length (own c l) - (_OIDC_PENDING_PER_CLIENT - 1)) (own c l).
Proof.
  intros Hd. unfold evict_own, mine. rewrite pop_all, length_map. unfold own at 1. rewrite filter_comm. fold (own c l). apply drop_keys.
  by apply NoDup_map_filter.
Qed.
Lemma evict_own_others c l : NoDup (map fst l) → others c (evict_own c l) = others c l.
Proof.
  intros Hd. unfold evict_own, mine. rewrite pop_all. unfold others at 1. rewrite filter_comm. fold (others c l). apply filter_all.
  intros [k v] Hi. apply negb_true_iff, bool_decide_eq_false. intros Hk. apply elem_of_take in Hk as (i & Hk & _).
  apply list_elem_of_lookup_2 in Hk. by apply (own_keys_apart c l k v) in Hk.
Qed.
Lemma evict_own_len c l : (length (evict_own c l) <= length l)%nat.
Proof. unfold evict_own. rewrite pop_all. apply filter_len. Qed.
Lemma filter_len2 {A} (f g : A → bool) l : (length (List.filter f (List.filter g l)) <= length (List.filter f l))%nat.
Proof. rewrite filter_comm. apply filter_len. Qed.

Lemma dict_set_keys k v l : map fst (dict_set k v l) = map fst l ∨ (k ∉ map fst l ∧ map fst (dict_set k v l) = map fst l ++ [k]).
Proof.
  induction l as [|[a b] l IH]; [right; split; [apply not_elem_of_nil|done]|]. cbn [dict_set fst]. destruct (String.eqb_spec a k) as [->|Hn]; [by left|].
  cbn [map fst]. destruct IH as [->|[Hk ->]]; [by left|right]. split; [|done]. rewrite elem_of_cons. naive_solver.
Qed.
Lemma dict_set_len k v l : (length (dict_set k v l) <= S (length l))%nat.
Proof. induction l as [|[a b] l IH]; simpl; [lia|]. destruct (String.eqb a k); simpl; lia. Qed.
Lemma dict_set_own k v c l :
  (length (own c (dict_set k v l)) <= length (own c l) + (if String.eqb (op_client_key v) c then 1 else 0))%nat.
Proof.
  unfold own. induction l as [|[a b] l IH]; cbn [dict_set fst List.filter snd]; [destruct (String.eqb _ _); simpl; lia|].
  destruct (String.eqb a k); cbn [List.filter snd]; repeat destruct (String.eqb _ c); simpl in *; lia.
Qed.
Lemma dict_set_others k v l : k ∉ map fst (others (op_client_key v) l) → others (op_client_key v) (dict_set k v l) = others (op_client_key v) l.
Proof.
  unfold others. induction l as [|[a b] l IH]; intros Hk; cbn [dict_set List.filter fst snd] in *; [by rewrite String.eqb_refl|].
  destruct (String.eqb_spec a k) as [->|Hn]; cbn [List.filter snd].
  - rewrite String.eqb_refl. cbn [negb]. destruct (negb (String.eqb (op_client_key b) _)); [|done]. exfalso. apply Hk. left.
  - destruct (negb (String.eqb (op_client_key b) _)); rewrite IH; try done. intros H. apply Hk. by right.
Qed.

(** The list a start is added to. *)
Definition made_room (now : Z) (c : string) (l : pending) : pending := evict_oldest (evict_own c (_purge_oidc_locked now l)).
Lemma purge_ok now l : pending_ok l → pending_ok (_purge_oidc_locked now l).
Proof.
  intros [Hd Hl Hc]. split; [by apply NoDup_map_filter| |].
  - pose proof (filter_len (λ kv, negb (_OIDC_TTL <? now - op_created_at kv.2)) l). unfold _purge_oidc_locked. lia.
  - intros c. unfold own, _purge_oidc_locked. pose proof (filter_len2 (λ kv, String.eqb (op_client_key kv.2) c) (λ kv, negb (_OIDC_TTL <? now - op_created_at kv.2)) l).
    specialize (Hc c). unfold own in Hc. lia.
Qed.
Lemma evict_own_ok c l : pending_ok l → pending_ok (evict_own c l) ∧ (length (own c (evict_own c l)) <= _OIDC_PENDING_PER_CLIENT - 1)%nat.
Proof.
  intros [Hd Hl Hc]. split.
  - split; [unfold evict_own; rewrite pop_all; by apply NoDup_map_filter|pose proof (evict_own_len c l); lia|].
    intros c'. unfold evict_own. rewrite pop_all. etransitivity; [apply filter_len2|apply Hc].
  - rewrite evict_own_own, length_drop by done. specialize (Hc c). unfold _OIDC_PENDING_PER_CLIENT in *. lia.
Qed.
Lemma drop_ok m l : pending_ok l → pending_ok (drop m l) ∧ ∀ c, (length (own c (drop m l)) <= length (own c l))%nat.
Proof.
  intros [Hd Hl Hc]. assert (∀ c, (length (own c (drop m l)) <= length (own c l))%nat) as H.
  { intros c. unfold own. destruct (filter_drop (λ kv : string * OidcPending, String.eqb (op_client_key kv.2) c) m l) as (j & -> & _). rewrite length_drop. lia. }
  split; [split|done].
  - rewrite <- skipn_map. rewrite <- (take_drop m (map fst l)) in Hd. by apply NoDup_app in Hd as (_ & _ & ?).
  - rewrite length_drop. lia.
  - intros c. specialize (H c). specialize (Hc c). lia.
Qed.
Lemma made_room_ok now c l : pending_ok l →
  pending_ok (made_room now c l) ∧ (length (made_room now c l) <= _OIDC_PENDING_MAX - 1)%nat ∧
  (length (own c (made_room now c l)) <= _OIDC_PENDING_PER_CLIENT - 1)%nat.
Proof.
  intros H%(purge_ok now)%(evict_own_ok c). destruct H as [H Ho]. unfold made_room, evict_oldest.
  destruct (drop_ok (length (evict_own c (_purge_oidc_locked now l)) - (_OIDC_PENDING_MAX - 1)) _ H) as [Hk Hc]. split; [done|]. split.
  - rewrite length_drop. pose proof (pd_total _ H). unfold _OIDC_PENDING_MAX in *. lia.
  - specialize (Hc c). lia.
Qed.
Lemma begin_pending now state verifier nonce uri c s :
  ss_oidc (begin_oidc now state verifier nonce uri c s).1 = dict_set state (mkPending verifier uri now nonce c) (made_room now c (ss_oidc s)).
Proof. done. Qed.

Lemma begin_ok now state verifier nonce uri c s :
  pending_ok (ss_oidc s) → pending_ok (ss_oidc (begin_oidc now state verifier nonce uri c s).1).
Proof.
  intros H. rewrite begin_pending. destruct (made_room_ok now c _ H) as ([Hd Hl Hc] & Hr & Ho). split.
  - destruct (dict_set_keys state (mkPending verifier uri now nonce c) (made_room now c (ss_oidc s))) as [->|[Hk ->]]; [done|].
    apply NoDup_app. split; [done|]. split; [|apply NoDup_singleton]. intros x Hx ->%list_elem_of_singleton. done.
  - pose proof (dict_set_len state (mkPending verifier uri now nonce c) (made_room now c (ss_oidc s))). unfold _OIDC_PENDING_MAX in *. lia.
  - intros c'. pose proof (dict_set_own state (mkPending verifier uri now nonce c) c' (made_room now c (ss_oidc s))) as Hs. simpl in Hs.
    specialize (Hc c'). destruct (String.eqb_spec c c') as [<-|]; unfold _OIDC_PENDING_PER_CLIENT in *; lia.
Qed.
Lemma take_ok now state s : pending_ok (ss_oidc s) → pending_ok (ss_oidc (take_oidc now state s).1).
Proof.
  intros [Hd Hl Hc]%(purge_ok now). unfold take_oidc. cbn -[dict_pop]. unfold dict_pop. split; [by apply NoDup_map_filter| |].
  - pose proof (filter_len (λ kv : string * OidcPending, negb (String.eqb kv.1 state)) (_purge_oidc_locked now (ss_oidc s))). unfold pending in *. lia.
  - intros c'. etransitivity; [apply filter_len2|apply Hc].
Qed.

(** A run of starts by one client. *)
Record Start := mkStart { st_now : Z; st_state : string; st_verifier : string; st_nonce : string; st_uri : string }.
Definition start_login (c : string) (s : Sessions) (st : Start) : Sessions :=
  (begin_oidc (st_now st) (st_state st) (st_verifier st) (st_nonce st) (st_uri st) c s).1.
Definition alive (starts : list Start) (kv : string * OidcPending) : bool := forallb (λ st, live_at (st_now st) kv) starts.

Lemma made_room_others now c l : pending_ok l →
  others c (made_room now c l) = List.filter (live_at now) (others c l) ∨
  others c (made_room now c l) = drop 1 (List.filter (live_at now) (others c l)) ∧
    (_OIDC_PENDING_MAX - _OIDC_PENDING_PER_CLIENT <= length (others c (made_room now c l)))%nat.
Proof.
  intros H%(purge_ok now). assert (others c (_purge_oidc_locked now l) = List.filter (live_at now) (others c l)) as Ep.
  { unfold others, _purge_oidc_locked. apply filter_comm. }
  pose proof (evict_own_others c _ (pd_keys _ H)) as Eo. destruct (evict_own_ok c _ H) as [Hk Hc].
  unfold made_room, evict_oldest. set (Y := evict_own c (_purge_oidc_locked now l)) in *. rewrite Ep in Eo.
  pose proof (pd_total _ Hk) as Ht. destruct (Nat.le_gt_cases (length Y) (_OIDC_PENDING_MAX - 1)) as [Hl|Hg].
  - left. replace (length Y - _)%nat with 0%nat by lia. by rewrite drop_0.
  - replace (length Y - _)%nat with 1%nat by (unfold _OIDC_PENDING_MAX in *; lia).
    destruct (filter_drop (λ kv, negb (String.eqb (op_client_key kv.2) c)) 1 Y) as (j & Hj & Hj1). fold (others c Y) (others c (drop 1 Y)) in Hj.
    rewrite Hj, Eo. assert (j = 0 ∨ j = 1)%nat as [->| ->] by lia; [left; by rewrite drop_0|right]. split; [done|].
    rewrite length_drop, <- Eo. pose proof (own_others c Y). unfold _OIDC_PENDING_MAX, _OIDC_PENDING_PER_CLIENT in *. lia.
Qed.
Lemma filter_alive sts st (l : pending) : List.filter (live_at (st_now st)) (List.filter (alive sts) l) = List.filter (alive (sts ++ [st])) l.
Proof.
  induction l as [|x l IH]; [done|]. cbn [List.filter].
  assert (alive (sts ++ [st]) x = alive sts x && live_at (st_now st) x) as -> by (unfold alive; rewrite forallb_app; simpl; by rewrite andb_true_r).
  destruct (alive sts x); cbn [List.filter andb]; [|done]. destruct (live_at _ x); by rewrite IH.
Qed.
Lemma drop_filter_one {A} (f : A → bool) l : ∃ j, drop 1 (List.filter f l) = List.filter f (drop j l) ∧ (j <= length l)%nat.
Proof.
  induction l as [|x l (j & IH & Hj)]; [by exists 0%nat|]. simpl. destruct (f x).
  - exists 1%nat. simpl. split; [by rewrite drop_0|lia].
  - exists (S j). simpl. split; [done|lia].
Qed.
Lemma start_ok c s st : pending_ok (ss_oidc s) → pending_ok (ss_oidc (start_login c s st)).
Proof. intros H. by apply begin_ok. Qed.

Lemma keys_sub (l l' : pending) : l ⊆ l' → map fst l ⊆ map fst l'.
Proof. intros H x (y & -> & Hy)%list_elem_of_fmap. apply list_elem_of_fmap. eauto. Qed.
Lemma filter_sub {A} (f : A → bool) (l : list A) : List.filter f l ⊆ l.
Proof. by intros x [_ ?]%elem_of_lfilter. Qed.
Lemma flood c starts s :
  pending_ok (ss_oidc s) → (∀ st, st ∈ starts → st_state st ∉ map fst (others c (ss_oidc s))) →
  pending_ok (ss_oidc (foldl (start_login c) s starts)) ∧
  ∃ k, others c (ss_oidc (foldl (start_login c) s starts)) = List.filter (alive starts) (drop k (others c (ss_oidc s))) ∧
    (k = 0 ∨ k + 1008 <= length (others c (ss_oidc s)))%nat.
Proof.
  intros H Hf. induction starts as [|st starts IH] using rev_ind.
  { split; [done|]. exists 0%nat. split; [|by left]. rewrite drop_0. symmetry. by apply filter_all. }
  rewrite foldl_app. cbn [foldl]. destruct IH as (Hk & k & Ho & Hl); [intros st' Hi; apply Hf, elem_of_app; by left|].
  set (s1 := foldl (start_login c) s starts) in *. set (O := others c (ss_oidc s)) in *. split; [by apply start_ok|].
  assert (∃ k', others c (made_room (st_now st) c (ss_oidc s1)) = List.filter (alive (starts ++ [st])) (drop k' O) ∧ (k' = 0 ∨ k' + 1008 <= length O)%nat) as (k' & Ek & Hk').
  { destruct (made_room_others (st_now st) c _ Hk) as [E|[E Hn]]; rewrite E, Ho, filter_alive in *; [by exists k|].
    destruct (drop_filter_one (alive (starts ++ [st])) (drop k O)) as (j & Ej & Hj). rewrite Ej in Hn |- *. rewrite drop_drop in *.
    exists (k + j)%nat. split; [done|]. right. rewrite length_drop in Hj. pose proof (filter_len (alive (starts ++ [st])) (drop (k + j) O)) as Hlen.
    rewrite length_drop in Hlen. unfold _OIDC_PENDING_MAX, _OIDC_PENDING_PER_CLIENT in Hn. destruct Hl; lia. }
  exists k'. split; [|done]. rewrite <- Ek. unfold start_login. rewrite begin_pending.
  apply (dict_set_others _ (mkPending (st_verifier st) (st_uri st) (st_now st) (st_nonce st) c)). simpl op_client_key.
  rewrite Ek. intros Hi. apply (Hf st); [apply elem_of_app; right; by apply list_elem_of_singleton|].
  revert Hi. apply keys_sub. etransitivity; [apply filter_sub|apply subseteq_drop].
Qed.

(** C12: However many unauthenticated login starts arrive, and from whomever, at
    most 1024 are pending and at most 16 of any one client, and a start is
    never refused.  A client that floods the store pushes out others' starts
    only while the map is full and it is still under its own limit: of the
    others' starts all but the oldest few survive, every one of them when they
    were at most 1008, and never fewer than 1008 otherwise. *)
Theorem pending_bounded c starts s :
  pending_ok (ss_oidc s) →
  (∀ st, st ∈ starts → st_state st ∉ map fst (others c (ss_oidc s))) →
  let s' := foldl (start_login c) s starts in
  pending_ok (ss_oidc s') ∧
  (∀ st s0, (begin_oidc (st_now st) (st_state st) (st_verifier st) (st_nonce st) (st_uri st) c s0).2 = Ok (st_state st, st_verifier st, st_nonce st)) ∧
  ∃ k, others c (ss_oidc s') = List.filter (alive starts) (drop k (others c (ss_oidc s))) ∧
    (k = 0 ∨ k + 1008 <= length (others c (ss_oidc s)))%nat.
Proof. intros H Hf. cbv zeta. destruct (flood c starts s H Hf). auto. Qed.
Definition demo_pending (c : string) (t : Z) : OidcPending := mkPending "v" "https://x/cb" t "n" c.
Definition demo_store : Sessions := mkSessions ∅ [("s0", demo_pending "10.0.0.1" 0); ("s1", demo_pending "10.0.0.2" 5)] ∅.
Lemma pending_bounded_witness :
  let starts := [mkStart 6 "a" "v" "n" "u"; mkStart 7 "b" "v" "n" "u"] in
  pending_ok (ss_oidc (foldl (start_login "10.0.0.2") demo_store starts)).
Proof.
  intros starts. refine (proj1 (pending_bounded "10.0.0.2" starts demo_store _ _)).
  - split; [apply (bool_decide_eq_true (NoDup _)); vm_compute; reflexivity|apply (Nat.leb_le 2 1024); reflexivity|].
    intros c. unfold own. etransitivity; [apply filter_len|]. apply (Nat.leb_le 2 16). reflexivity.
  - intros st Hst. apply (bool_decide_eq_false (_ ∈ _)).
    repeat (apply elem_of_cons in Hst as [->|Hst]; [vm_compute; reflexivity|]). by apply elem_of_nil in Hst.
Defined.

(** *** Used once *)

Lemma take_Some now state s s' p : take_oidc now state s = (s', Ok (Some p)) →
  (state, p) ∈ ss_oidc s ∧ now - op_created_at p <= _OIDC_TTL ∧ ss_rows s' = ss_rows s ∧ ss_jti s' = ss_jti s ∧
  state ∉ map fst (ss_oidc s').
Proof.
  unfold take_oidc, dict_get. intros [= <- H]. simpl.
  destruct (find_first _ _) as [[k v]|] eqn:E; [|done]. injection H as ->. apply find_first_Some in E as [Hi Hs].
  apply String.eqb_eq in Hs as <-. apply elem_of_lfilter in Hi as [Hl Hi]. apply negb_true_iff, Z.ltb_ge in Hl.
  split; [done|]. split; [done|]. do 2 (split; [done|]). intros ([k' v'] & E & Hk)%list_elem_of_fmap. simpl in E. subst k'.
  unfold dict_pop in Hk. apply elem_of_lfilter in Hk as [Hk _]. simpl in Hk. by rewrite String.eqb_refl in Hk.
Qed.
Lemma take_gone now state s : state ∉ map fst (ss_oidc s) → (take_oidc now state s).2 = Ok None.
Proof.
  intros H. simpl. unfold dict_get. destruct (find_first _ _) as [[k v]|] eqn:E; [|done]. apply find_first_Some in E as [Hi Hs].
  apply String.eqb_eq in Hs as <-. exfalso. apply H. apply elem_of_lfilter in Hi as [_ Hi]. apply list_elem_of_fmap. by exists (k, v).
Qed.
Lemma claim_Ok jti s s' u : claim_jti jti s = (s', Ok u) →
  jti ∉ ss_jti s ∧ ss_rows s' = ss_rows s ∧ ss_oidc s' = ss_oidc s ∧ ss_jti s' = {[jti]} ∪ ss_jti s.
Proof. unfold claim_jti. destruct (_ || _); [done|]. case_bool_decide; [done|]. by intros [= <- _]. Qed.
Lemma or_http_Ok {A} st (m : SM A) s s' a : or_http st m s = (s', Ok a) → m s = (s', Ok a).
Proof. unfold or_http, catch. destruct (m s) as [s1 [x|e]]; [done|]. by destruct (is_value_error e). Qed.

Section Provider.
Context (env : string → option string) (str_other : json → string) (decode_part : string → option json).
Lemma check_id_token_Ok token nonce s s' u : _check_id_token decode_part token nonce s = (s', Ok u) →
  ∃ payload jti, _id_token_payload decode_part token = Ok payload ∧ obj_get "nonce" payload = Some (JStr nonce) ∧
    obj_get "jti" payload = Some (JStr jti) ∧ claim_jti jti s = (s', Ok u).
Proof.
  unfold _check_id_token. intros (payload & s1 & [-> Hp]%lift_Ok & H)%M_bind_Ok. exists payload.
  destruct (obj_get "nonce" payload) as [[| | | |got| |]|] eqn:En; try discriminate H.
  destruct (negb (Nat.eqb _ _)); [discriminate H|]. apply M_bind_Ok in H as (same & s1 & [-> Hs]%lift_Ok & H).
  destruct same; [|discriminate H]. unfold compare_digest in Hs. destruct (_ && _); [|discriminate Hs]. injection Hs as Hs. apply String.eqb_eq in Hs as ->.
  simpl in H. destruct (obj_get "jti" payload) as [[| | | |jti| |]|] eqn:Ej; try discriminate H.
  exists jti. repeat split; try done. by apply (or_http_Ok 400).
Qed.
(** What the provider may hand out, from the environment. *)
Definition allowlist : names := list_to_set (comma_list (getenv env "RECERTIA_OIDC_ROLE_ALLOWLIST" "operator,reviewer")) ∩ _VALID_ROLES.
Lemma roles_bounded profile r : _map_oidc_roles env str_other profile = Ok r → r ⊆ {["operator"]} ∪ allowlist ∧ r ∩ _VALID_ROLES ≠ ∅.
Proof.
  unfold _map_oidc_roles. intros (claimed & _ & [= <-])%bind_Ok_inv. fold allowlist.
  assert (allowlist ⊆ _VALID_ROLES) as Ha by (unfold allowlist; set_solver).
  set (r1 := if bool_decide (list_to_set claimed ∩ allowlist = ∅) then _ else _).
  assert (r1 ⊆ allowlist) as H1 by (subst r1; case_bool_decide; set_solver). clearbody r1.
  set (r2 := if _ && _ then _ else _). assert (r2 ⊆ r1) as H2 by (subst r2; destruct (_ && _); set_solver). clearbody r2.
  case_bool_decide as He.
  - split; [set_solver|]. intros H. assert ("operator" ∈ ({["operator"]} : names) ∩ _VALID_ROLES) as Hi by (apply (bool_decide_eq_true (_ ∈ _)); vm_compute; reflexivity).
    rewrite H in Hi. set_solver.
  - split; [set_solver|]. replace (r2 ∩ _VALID_ROLES) with r2 by (apply set_eq; set_solver). done.
Qed.
Lemma profile_Ok profile u : user_from_profile env str_other profile = Ok u →
  cu_roles u ⊆ {["operator"]} ∪ allowlist ∧ cu_roles u ∩ _VALID_ROLES ≠ ∅.
Proof.
  unfold user_from_profile.
  intros (? & _ & (r & Hr & (c & _ & (ta & _ & [= <-])%bind_Ok_inv)%bind_Ok_inv)%bind_Ok_inv)%bind_Ok_inv. by apply (roles_bounded profile).
Qed.
Lemma exchange_Ok tok info nonce s s' u : oidc_exchange_code env str_other decode_part tok info nonce s = (s', Ok u) →
  ∃ token payload jti, _id_token_payload decode_part token = Ok payload ∧ obj_get "nonce" payload = Some (JStr nonce) ∧
    obj_get "jti" payload = Some (JStr jti) ∧ claim_jti jti s = (s', Ok tt) ∧
    cu_roles u ⊆ {["operator"]} ∪ allowlist ∧ cu_roles u ∩ _VALID_ROLES ≠ ∅.
Proof.
  unfold oidc_exchange_code.
  intros (? & ? & [-> _]%lift_Ok & (? & ? & [-> _]%lift_Ok & (? & ? & [-> _]%lift_Ok & (tokens & ? & [-> _]%lift_Ok & (? & ? & [-> _]%lift_Ok & H)%M_bind_Ok)%M_bind_Ok)%M_bind_Ok)%M_bind_Ok)%M_bind_Ok.
  destruct (get_true "id_token" tokens) as [[| | | |token| |]|]; try discriminate H.
  apply M_bind_Ok in H as ([] & s1 & (payload & jti & Hp & Hn & Hj & Hc)%check_id_token_Ok & (profile & s2 & [-> _]%lift_Ok & [-> Hu]%lift_Ok)%M_bind_Ok).
  apply profile_Ok in Hu. naive_solver.
Qed.
End Provider.
