(* ===== verification/Callers.v ===== *)
(** * Who is calling (api/identity.py, api/deps.py, api/routes/auth.py)

    The principal behind a request - an API key or a browser session, never
    both -, the tenant it may act in, and the login, logout and tenant-switch
    routes.  A request is the headers and cookies these functions read; the
    state is the key store's database and the session store.  The theorems:
    where a principal comes from, that the two tenant resolvers agree, that a
    browser session obtained from the provider never acts for the platform,
    and what the development login and logout do to that. *)
From S2P Require Import Prelude PyStr Budgets Contracts Queue Access ApiKeys ClientKey Console.
From Stdlib Require Import ZArith Lia Ascii.
Open Scope Z_scope.

(** ** Requests and the response they set cookies on *)

Record Request := mkRequest {
  rq_api_key : option string;          (* X-API-Key *)
  rq_session : option string;          (* X-Recertia-Session *)
  rq_tenant : option string;           (* X-Recertia-Tenant *)
  rq_csrf : option string;             (* X-Recertia-CSRF *)
  rq_origin : option string; rq_host : option string;
  rq_cookie_session : option string; rq_cookie_csrf : option string }.
Record AppAuth := mkAppAuth { aa_keys : KeyDb; aa_sessions : Sessions }.
#[export] Instance eta_AppAuth : Eta AppAuth := λ a, mkAppAuth (aa_keys a) (aa_sessions a).
Definition AM := M AppAuth.
Definition on_keys {A} (m : KM A) : AM A := λ a, let r := m (aa_keys a) in (a <| aa_keys := r.1 |>, r.2).
Definition on_sessions {A} (m : SM A) : AM A := λ a, let r := m (aa_sessions a) in (a <| aa_sessions := r.1 |>, r.2).
Definition present (o : option string) : bool := match o with Some s => negb (String.eqb s "") | None => false end.
(** A cookie of the response: set to a value, or deleted. *)
Definition SetCookie : Type := string * option (string * CookieKwargs).

(** ** api/identity.py *)

Definition _ROLE_SCOPES (role : string) : names :=
  if String.eqb role "operator" then list_to_set ["runs"; "blobs"; "metrics"]
  else if String.eqb role "reviewer" then list_to_set ["runs"; "blobs"; "metrics"; "promote"; "jobs"; "evals"]
  else if String.eqb role "admin" then list_to_set ["runs"; "blobs"; "metrics"; "promote"; "jobs"; "evals"; "admin"; "exec"]
  else if String.eqb role "platform_admin" then
    list_to_set ["runs"; "blobs"; "metrics"; "promote"; "jobs"; "evals"; "admin"; "exec"; "platform_admin"]
  else ∅.
Definition _scopes_for_roles (roles : names) : names := ⋃ (map _ROLE_SCOPES (elements roles)).
Definition principal_from_session_user (user : ConsoleUser) : result Principal :=
  tenants ← mapR tenant_id (cu_tenants user);
  active ← (if bool_decide (cu_active_tenant user ∈ tenants) then tenant_id (cu_active_tenant user)
            else match tenants with t :: _ => Ok t | [] => Err (PyError "IndexError") end);
  Ok (mkPrincipal (cu_user_id user) pk_console_session active tenants (_scopes_for_roles (cu_roles user)) (cu_roles user)).
(** identity.py's [resolve_tenant]. *)
Definition member_tenant (p : Principal) (requested : option string) : result string :=
  match requested with
  | None => Ok (pp_tenant p)
  | Some r =>
      if String.eqb r "" then Ok (pp_tenant p)
      else
        wanted ← tenant_id r;
        _ ← raise_unless (bool_decide (wanted ∈ pp_tenants p) || String.eqb wanted (pp_tenant p)) Forbidden;
        Ok wanted
  end.

Section App.
Context `{KC : KeyCrypto} (env : string → option string) (hmac_key : string).
(** The key store's settings. *)
Context (pepper : string) (previous_pepper : option string) (bind_tenant : bool) (max_failures : Z).
(** The wall clock and the monotonic one. *)
Context (now mono : Z).

Definition resolve_principal (rq : Request) (session_user : option ConsoleUser) : KM Principal :=
  let sessions_on := negb (String.eqb (auth_mode env) "off") in
  let session_user := if sessions_on then session_user else None in
  let has_session := sessions_on && (present (rq_cookie_session rq) || present (rq_session rq)) || bool_decide (is_Some session_user) in
  let has_key := present (rq_api_key rq) in
  if has_key && has_session then raise Forbidden
  else if has_key then
    p ← authenticate pepper previous_pepper bind_tenant max_failures now mono (rq_api_key rq) "unknown";
    match p with Some p => mret p | None => raise Unauthorized end
  else match session_user with
       | Some u => lift (principal_from_session_user u)
       | None => raise Unauthorized
       end.
Definition optional_console_user (rq : Request) : SM (option ConsoleUser) :=
  console_session hmac_key env now (rq_session rq) (rq_cookie_session rq).
(** [IdentityResolver.from_request] *)
Definition from_request (rq : Request) : AM Principal :=
  user ← on_sessions (optional_console_user rq);
  on_keys (resolve_principal rq user).
(** identity.py's [require] dependency. *)
Definition require_scope (scope : string) (rq : Request) : KM Principal :=
  p ← catch (resolve_principal rq None) (λ e,
        raise (if bool_decide (e = Unauthorized) then HTTPException 401 else if bool_decide (e = Forbidden) then HTTPException 403 else e));
  if has_scope p scope then mret p else raise (HTTPException 403).

(** ** api/deps.py *)

(** [RouteState.resolve_tenant] *)
Definition resolve_tenant (p : Principal) (rq : Request) : SM string :=
  user ← optional_console_user rq;
  match rq_tenant rq with
  | Some t =>
      if String.eqb t "" then mret (match user with Some u => cu_active_tenant u | None => pp_tenant p end)
      else match user with
           | Some u => if bool_decide (t ∈ cu_tenants u) then mret t else raise (HTTPException 403)
           | None => if String.eqb t (pp_tenant p) then mret t else raise (HTTPException 403)
           end
  | None => mret (match user with Some u => cu_active_tenant u | None => pp_tenant p end)
  end.
Definition acting_name (user : option ConsoleUser) (p : Principal) : string :=
  match user with Some u => cu_user_id u | None => ledger_actor p end.
Definition require_host_admin (p : Principal) (rq : Request) : SM string :=
  user ← optional_console_user rq;
  if may_admin_host p (cu_roles <$> user) then mret (acting_name user p) else raise (HTTPException 403).
Definition require_workspace_admin (p : Principal) (rq : Request) : SM string :=
  user ← optional_console_user rq;
  if may_admin_registry p ((λ u, may u role_admin) <$> user) None then mret (acting_name user p) else raise (HTTPException 403).
Definition require_library_write (p : Principal) (rq : Request) (scope : string) (min_role : Role) : SM unit :=
  user ← optional_console_user rq;
  match user with
  | Some u => if may u min_role then mret tt else raise (HTTPException 403)
  | None => if bool_decide ("admin" ∈ pp_scopes p) || bool_decide (scope ∈ pp_scopes p) then mret tt else raise (HTTPException 403)
  end.

(** ** api/routes/auth.py *)

Definition _set_session_cookies (token : string) : SM (list SetCookie) :=
  csrf ← csrf_for hmac_key now (Some token);
  mret (("recertia_session", Some (token, session_cookie_kwargs env)) ::
        match csrf with
        | Some c => if String.eqb c "" then [] else [("recertia_csrf", Some (c, csrf_cookie_kwargs env))]
        | None => []
        end).
Definition _require_cookie_csrf (rq : Request) : SM unit :=
  if negb (present (rq_cookie_session rq)) then mret tt
  else
    let header := default "" (rq_csrf rq) in
    let cookie := default "" (rq_cookie_csrf rq) in
    if String.eqb header "" || negb (Nat.eqb (String.length header) (String.length cookie)) then raise (HTTPException 403)
    else
      same ← lift (compare_digest header cookie);
      if negb same then raise (HTTPException 403)
      else
        good ← csrf_matches hmac_key now (rq_cookie_session rq) header;
        if good : bool then mret tt else raise (HTTPException 403).
(** [s.rstrip("/")] *)
Fixpoint rstrip_slash (s : string) : string :=
  match s with
  | EmptyString => EmptyString
  | String c s' => match rstrip_slash s' with EmptyString => if Ascii.eqb c "/"%char then EmptyString else String c EmptyString | t => String c t end
  end.
Definition _reject_foreign_origin (rq : Request) : SM unit :=
  match rq_origin rq with
  | None => mret tt
  | Some origin =>
      let host := default "" (rq_host rq) in
      if String.eqb origin "" || bool_decide (rstrip_slash origin ∈ ["http://" +:+ host; "https://" +:+ host]) then mret tt
      else raise (HTTPException 403)
  end.
Record DevLogin := mkDevLogin {
  dl_user_id : string; dl_display_name : string; dl_roles : list string; dl_tenants : list string; dl_active_tenant : option string }.
Definition dev_user (body : DevLogin) : ConsoleUser :=
  let requested : names := if is_nil (dl_roles body) then {["operator"]} else list_to_set (dl_roles body) in
  let tenants := if is_nil (dl_tenants body) then ["default"] else dl_tenants body in
  mkUser (dl_user_id body) (dl_display_name body) requested tenants (or_else (default "" (dl_active_tenant body)) (default "" (head tenants))).
Definition dev_login (session_id csrf : string) (body : DevLogin) (rq : Request) : SM (ConsoleUser * list SetCookie) :=
  _ ← _reject_foreign_origin rq;
  _ ← _require_cookie_csrf rq;
  _ ← lift (raise_unless (dev_login_enabled env) (HTTPException 404));
  let user := dev_user body in
  _ ← lift (raise_unless (negb (bool_decide ("admin" ∈ cu_roles user) && negb (dev_admin_enabled env))) (HTTPException 403));
  token ← or_http 400 (issue_session hmac_key now session_id csrf user 86400);
  cookies ← _set_session_cookies token;
  mret (user, cookies).
Definition logout (rq : Request) : SM (list SetCookie) :=
  _ ← _reject_foreign_origin rq;
  _ ← _require_cookie_csrf rq;
  mret [("recertia_session", None); ("recertia_csrf", None)].
Definition switch_tenant_route (session_id csrf tenant : string) (rq : Request) : SM (ConsoleUser * list SetCookie) :=
  _ ← _reject_foreign_origin rq;
  _ ← _require_cookie_csrf rq;
  user ← optional_console_user rq;
  match user with
  | None => raise (HTTPException 401)
  | Some user =>
      p ← lift (principal_from_session_user user);
      _ ← catch (lift (require p "tenants.switch" None)) (λ e, raise (if bool_decide (e = Forbidden) then HTTPException 403 else e));
      switched ← or_http 403 (lift (switch_tenant user tenant));
      token ← issue_session hmac_key now session_id csrf switched 86400;
      cookies ← _set_session_cookies token;
      mret (switched, cookies)
  end.
Definition oidc_open : bool := String.eqb (auth_mode env) "oidc" && oidc_configured env.
Definition oidc_login (state verifier nonce redirect : string) (peer : option string) (forwarded_for : list string)
    (trusted : list IPNetwork) (peer_port : option Z) : SM (string * string * string) :=
  _ ← lift (raise_unless oidc_open (HTTPException 404));
  begin_oidc now state verifier nonce redirect (oidc_client_key peer forwarded_for trusted peer_port).
Definition oidc_callback (str_other : json → string) (decode_part : string → option json) (token_answer info_answer : OidcPending → http_answer)
    (session_id csrf state : string) : SM (ConsoleUser * list SetCookie) :=
  _ ← lift (raise_unless oidc_open (HTTPException 404));
  pending ← take_oidc now state;
  match pending with
  | None => raise (HTTPException 400)
  | Some p =>
      user ← oidc_exchange_code env str_other decode_part (token_answer p) (info_answer p) (op_nonce p);
      token ← issue_session hmac_key now session_id csrf user 86400;
      cookies ← _set_session_cookies token;
      mret (user, cookies)
  end.
End App.

(** ** Theorems *)

Lemma M_run {W A B} (m : M W A) (f : A → M W B) w w1 a : m w = (w1, Ok a) → (m ≫= f) w = f a w1.
Proof. unfold mbind, M_bind. by intros ->. Qed.

(** *** Scopes of roles *)

Lemma scopes_spec roles x : x ∈ _scopes_for_roles roles ↔ ∃ r, r ∈ roles ∧ x ∈ _ROLE_SCOPES r.
Proof.
  unfold _scopes_for_roles. rewrite elem_of_union_list. split.
  - intros (X & (r & -> & Hr)%list_elem_of_fmap & Hx). exists r. by rewrite <- elem_of_elements.
  - intros (r & Hr & Hx). exists (_ROLE_SCOPES r). split; [|done]. apply list_elem_of_fmap. exists r. by rewrite elem_of_elements.
Qed.
Lemma platform_scope_role r : "platform_admin" ∈ _ROLE_SCOPES r → r = "platform_admin".
Proof.
  unfold _ROLE_SCOPES. intros H.
  destruct (String.eqb r "operator"); [exfalso; revert H; apply (bool_decide_eq_false (_ ∈ _)); vm_compute; reflexivity|].
  destruct (String.eqb r "reviewer"); [exfalso; revert H; apply (bool_decide_eq_false (_ ∈ _)); vm_compute; reflexivity|].
  destruct (String.eqb r "admin"); [exfalso; revert H; apply (bool_decide_eq_false (_ ∈ _)); vm_compute; reflexivity|].
  destruct (String.eqb r "platform_admin") eqn:E; [by apply String.eqb_eq in E|]. by apply elem_of_empty in H.
Qed.
Lemma session_platform u p : principal_from_session_user u = Ok p → _platform_admin p = bool_decide ("platform_admin" ∈ cu_roles u).
Proof.
  unfold principal_from_session_user. intros (ts & _ & (a & _ & [= <-])%bind_Ok_inv)%bind_Ok_inv.
  unfold _platform_admin, has_role. cbn [pp_roles pp_scopes].
  rewrite (bool_decide_false (("platform_admin" : string) ∈ ["operator"; "reviewer"; "admin"])) by (apply (bool_decide_eq_false (_ ∈ _)); reflexivity).
  rewrite andb_false_l, orb_false_r. case_bool_decide as H; [done|]. simpl. apply bool_decide_eq_false.
  intros (r & Hr & Hx)%scopes_spec. by apply platform_scope_role in Hx as ->.
Qed.

(** The principal of a session whose tenants are valid. *)
Definition session_principal (u : ConsoleUser) : Principal :=
  mkPrincipal (cu_user_id u) pk_console_session (cu_active_tenant u) (cu_tenants u) (_scopes_for_roles (cu_roles u)) (cu_roles u).
Lemma principal_valid u : Forall (λ t, tenant_id t = Ok t) (cu_tenants u) → cu_active_tenant u ∈ cu_tenants u →
  principal_from_session_user u = Ok (session_principal u).
Proof.
  intros Hf Hi. unfold principal_from_session_user. rewrite (mapR_valid _ Hf). cbn. rewrite bool_decide_true by done.
  rewrite Forall_forall in Hf. by rewrite (Hf _ Hi).
Qed.

(** *** The provider's sessions *)

Section Provider.
Context `{KC : KeyCrypto} (env : string → option string) (hmac_key : string).
Context (hmac_filled : ∀ k m, hmac_sha256 k m ≠ "").
Context (str_other : json → string) (decode_part : string → option json).
Notation callback := (oidc_callback env hmac_key).

Lemma cookies_Ok now tok s s' c : _set_session_cookies env hmac_key now tok s = (s', Ok c) →
  ss_jti s' = ss_jti s ∧ ss_oidc s' = ss_oidc s ∧ ∃ rest, c = ("recertia_session", Some (tok, session_cookie_kwargs env)) :: rest.
Proof.
  unfold _set_session_cookies, csrf_for, _payload, mbind, M_bind.
  destruct (_session_id hmac_key (Some tok)) as [[sid|]|e]; [|by intros [= <- <-]; eauto|done].
  destruct (ss_rows s !! sid) as [p|]; [|by intros [= <- <-]; eauto]. by destruct (_ <? _); intros [= <- <-]; simpl; eauto.
Qed.
Lemma cookies_run now sid csrf u s s1 token :
  token_ok sid = true → issue_session hmac_key now sid csrf u 86400 s = (s1, Ok token) →
  ∃ c, _set_session_cookies env hmac_key now token s1 = (s1, Ok c).
Proof.
  intros Hs Hi. destruct (issued_payload hmac_key hmac_filled _ _ _ _ _ _ _ _ now Hs Hi ltac:(lia)) as (row & Hp & _).
  unfold _set_session_cookies, csrf_for. unfold mbind, M_bind. rewrite Hp. eexists. reflexivity.
Qed.
Lemma cookies_issued now sid csrf u s s1 token s' c :
  token_ok sid = true → issue_session hmac_key now sid csrf u 86400 s = (s1, Ok token) →
  _set_session_cookies env hmac_key now token s1 = (s', Ok c) → s' = s1.
Proof.
  intros Hs Hi. destruct (issued_payload hmac_key hmac_filled _ _ _ _ _ _ _ _ now Hs Hi ltac:(lia)) as (row & Hp & _).
  unfold _set_session_cookies, csrf_for. unfold mbind, M_bind. rewrite Hp. by intros [= <- _].
Qed.
Lemma callback_Ok now tok info sid csrf state s s' u c :
  callback now str_other decode_part tok info sid csrf state s = (s', Ok (u, c)) →
  ∃ p s1 s2 token, take_oidc now state s = (s1, Ok (Some p)) ∧
    oidc_exchange_code env str_other decode_part (tok p) (info p) (op_nonce p) s1 = (s2, Ok u) ∧
    issue_session hmac_key now sid csrf u 86400 s2 = ((issue_session hmac_key now sid csrf u 86400 s2).1, Ok token) ∧
    _set_session_cookies env hmac_key now token (issue_session hmac_key now sid csrf u 86400 s2).1 = (s', Ok c).
Proof.
  unfold oidc_callback. intros (? & ? & [-> _]%lift_Ok & (pd & s1 & Ht & H)%M_bind_Ok)%M_bind_Ok.
  destruct pd as [p|]; [|discriminate H].
  apply M_bind_Ok in H as (user & s2 & He & (token & s3 & Hi & (cookies & s4 & Hc & [-> [= -> ->]]%ret_Ok)%M_bind_Ok)%M_bind_Ok).
  exists p, s1, s2, token. rewrite Hi. done.
Qed.

(** C13: A login at the provider completes at most once: the state had been
    started here, within ten minutes, the identity token carries its nonce and
    a token id never seen before, and afterwards the state is no longer known,
    whatever the provider answers, nor is the token id fresh. *)
Theorem callback_once now tok info sid csrf state s s' u c :
  callback now str_other decode_part tok info sid csrf state s = (s', Ok (u, c)) →
  (∃ p token payload jti, (state, p) ∈ ss_oidc s ∧ now - op_created_at p <= _OIDC_TTL ∧
     _id_token_payload decode_part token = Ok payload ∧ obj_get "nonce" payload = Some (JStr (op_nonce p)) ∧
     obj_get "jti" payload = Some (JStr jti) ∧ jti ∉ ss_jti s ∧ jti ∈ ss_jti s') ∧
  ∀ now2 tok2 info2 sid2 csrf2, (callback now2 str_other decode_part tok2 info2 sid2 csrf2 state s').2 = Err (HTTPException 400).
Proof.
  intros H. assert (oidc_open env = true) as Ho by (unfold oidc_callback in H; apply M_bind_Ok in H as (? & ? & [_ ?%raise_unless_Ok]%lift_Ok & _); done).
  apply callback_Ok in H as (p & s1 & s2 & token & Ht & He & Hi & Hc). apply take_Some in Ht as (Hp & Hl & _ & Hj1 & Hg).
  apply exchange_Ok in He as (tk & payload & jti & E1 & E2 & E3 & (Hn & _ & Ho2 & Hj2)%claim_Ok & _ & _).
  apply issue_Ok in Hi as (_ & _ & Hi). apply cookies_Ok in Hc as (Hj4 & Ho4 & _). split.
  - exists p, tk, payload, jti. rewrite Hj1 in Hn. do 6 (split; [done|]). rewrite Hj4, Hi. cbn [ss_jti setf eta eta_Sessions]. rewrite Hj2. set_solver.
  - intros. unfold oidc_callback. unfold mbind, M_bind, lift. rewrite Ho. cbn [raise_unless].
    pose proof (take_gone now2 state s') as G. destruct (take_oidc now2 state s') as [s5 [o|e]]; cbn [snd] in G.
    + rewrite Ho4, Hi in G. cbn [ss_oidc setf eta eta_Sessions] in G. rewrite Ho2 in G. specialize (G Hg). injection G as ->. done.
    + rewrite Ho4, Hi in G. cbn [ss_oidc setf eta eta_Sessions] in G. rewrite Ho2 in G. by specialize (G Hg).
Qed.

(** A session obtained from the provider holds only roles the allowlist names
    - or operator, when nothing is left - and so it never acts for the
    platform: its principal is not a platform administrator and cannot bind a
    host directory. *)
Theorem provider_never_platform now tok info sid csrf state s s' u c t rq :
  callback now str_other decode_part tok info sid csrf state s = (s', Ok (u, c)) →
  token_ok sid = true → seconds t <= seconds now + 86400 →
  rq_session rq = None → rq_cookie_session rq = Some (_token hmac_key sid) →
  ∃ u' p, optional_console_user env hmac_key t rq s' = (s', Ok (Some u')) ∧
    cu_roles u' ⊆ {["operator"]} ∪ allowlist env ∧
    principal_from_session_user u' = Ok p ∧ _platform_admin p = false ∧ may_admin_host p (Some (cu_roles u')) = false.
Proof.
  intros H Hs Ht H1 H2. assert (oidc_open env = true) as Ho by (unfold oidc_callback in H; apply M_bind_Ok in H as (? & ? & [_ ?%raise_unless_Ok]%lift_Ok & _); done).
  apply callback_Ok in H as (p & s1 & s2 & token & _ & He & Hi & Hc).
  apply exchange_Ok in He as (_ & _ & _ & _ & _ & _ & _ & Hr & Hv). pose proof (cookies_issued _ _ _ _ _ _ _ _ _ Hs Hi Hc) as ->.
  pose proof (issue_Ok _ _ _ _ _ _ _ _ _ Hi) as (-> & (_ & Ha & _ & Hf)%checked_tenants_Ok & _).
  destruct (issued_payload hmac_key hmac_filled _ _ _ _ _ _ _ _ t Hs Hi Ht) as (row & Hp & _ & Hu).
  exists (session_of u), (session_principal (session_of u)). split.
  { unfold optional_console_user, console_session. apply andb_true_iff in Ho as [->%String.eqb_eq _]. rewrite H1, H2. apply parse_Some. eauto. }
  assert ("platform_admin" ∉ cu_roles u) as Hn.
  { intros Hi2. apply Hr in Hi2. assert (("platform_admin" : string) ∉ ({["operator"]} ∪ _VALID_ROLES : names)) as Hno by (apply (bool_decide_eq_false (_ ∈ _)); vm_compute; reflexivity).
    apply Hno. unfold allowlist in Hi2. set_solver. }
  split; [done|]. pose proof (principal_valid (session_of u) Hf Ha) as Hpr. split; [done|].
  rewrite (session_platform _ _ Hpr). split; by apply bool_decide_eq_false.
Qed.

(** *** The development login *)

Lemma no_cookie_csrf now rq s : present (rq_cookie_session rq) = false → _require_cookie_csrf hmac_key now rq s = (s, Ok tt).
Proof. unfold _require_cookie_csrf. by intros ->. Qed.
Definition wants (roles : list string) (tenant : string) : DevLogin := mkDevLogin "mallory" "Mallory" roles [tenant] None.

(** The development login checks the role "admin" against its own switch and
    no other: with that switch off, a body that asks for platform_admin next
    to any ordinary role is served, and the session acts for the platform -
    more than the admin the switch would have refused. *)
Theorem dev_login_ungated now rq sid csrf roles tenant s t rq2 :
  dev_login_enabled env = true → rq_origin rq = None → present (rq_cookie_session rq) = false →
  token_ok sid = true → tenant_id tenant = Ok tenant →
  "platform_admin" ∈ roles → "admin" ∉ roles → list_to_set (C := names) roles ∩ _VALID_ROLES ≠ ∅ →
  seconds t <= seconds now + 86400 → rq_session rq2 = None → rq_cookie_session rq2 = Some (_token hmac_key sid) →
  ∃ s' u c u' p, dev_login env hmac_key now sid csrf (wants roles tenant) rq s = (s', Ok (u, c)) ∧
    optional_console_user env hmac_key t rq2 s' = (s', Ok (Some u')) ∧ principal_from_session_user u' = Ok p ∧
    _platform_admin p = true ∧ require_host_admin env hmac_key t p rq2 s' = (s', Ok "mallory").
Proof.
  intros He Ho Hc Hs Ht Hp Ha Hv Hl H1 H2. set (body := wants roles tenant). set (u := dev_user body).
  assert (roles ≠ []) as Hne by (intros ->; by apply elem_of_nil in Hp).
  assert (cu_roles u = list_to_set roles) as Hr by (unfold u, dev_user; simpl; by destruct roles).
  assert (cu_tenants u = [tenant] ∧ cu_active_tenant u = tenant) as [Hts Hat] by done.
  assert (_checked_tenants (cu_tenants u) (Some (cu_active_tenant u)) = Ok ([tenant], tenant)) as Hck.
  { rewrite Hts, Hat. unfold _checked_tenants. cbn [mapR]. rewrite Ht. cbn. by rewrite bool_decide_true by (by apply list_elem_of_singleton). }
  assert (∃ s1, issue_session hmac_key now sid csrf u 86400 s = (s1, Ok (_token hmac_key sid))) as [s1 Hi].
  { unfold issue_session, mbind, M_bind, lift. rewrite Hck. eexists. reflexivity. }
  destruct (cookies_run _ _ _ _ _ _ _ Hs Hi) as [c Hck2].
  destruct (issued_payload hmac_key hmac_filled _ _ _ _ _ _ _ _ t Hs Hi Hl) as (row & Hpl & _ & Hu). rewrite Hr in Hu. specialize (Hu Hv).
  assert (optional_console_user env hmac_key t rq2 s1 = (s1, Ok (Some (session_of u)))) as Hsess.
  { unfold optional_console_user, console_session. apply andb_true_iff in He as [Hm%bool_decide_eq_true _].
    replace (String.eqb (auth_mode env) "off") with false by (symmetry; apply String.eqb_neq; intros E; rewrite E in Hm; revert Hm; by apply (bool_decide_eq_false (_ ∈ _))).
    rewrite H1, H2. apply parse_Some. eauto. }
  assert (principal_from_session_user (session_of u) = Ok (session_principal (session_of u))) as Hpr.
  { apply principal_valid; simpl; [by constructor|by apply list_elem_of_singleton]. }
  exists s1, u, c, (session_of u), (session_principal (session_of u)). split; [|split; [done|split; [done|split]]].
  - unfold dev_login. rewrite (M_run _ _ s s tt) by (unfold _reject_foreign_origin; by rewrite Ho).
    rewrite (M_run _ _ s s tt) by (by apply no_cookie_csrf). rewrite He. rewrite (M_run _ _ s s tt) by done. cbv zeta. fold u.
    rewrite (M_run _ _ s s tt) by (rewrite Hr, (bool_decide_false ("admin" ∈ _)) by (by rewrite elem_of_list_to_set); done).
    rewrite (M_run _ _ s s1 (_token hmac_key sid)) by (unfold or_http, catch; by rewrite Hi). by rewrite (M_run _ _ s1 s1 c).
  - rewrite (session_platform _ _ Hpr). change (cu_roles (session_of u)) with (cu_roles u). rewrite Hr. apply bool_decide_eq_true. by apply elem_of_list_to_set.
  - unfold require_host_admin, mbind, M_bind. rewrite Hsess. cbn [fmap option_fmap option_map may_admin_host]. change (cu_roles (session_of u)) with (cu_roles u). rewrite Hr.
    by rewrite bool_decide_true by (by apply elem_of_list_to_set).
Qed.

(** Logging out deletes the two cookies and nothing else: the session row
    stays, so whoever kept the token is still that user until it expires. *)
Theorem logout_keeps_session now rq s s' c t tok u :
  logout hmac_key now rq s = (s', Ok c) → parse hmac_key t tok s = (s, Ok (Some u)) →
  c = [("recertia_session", None); ("recertia_csrf", None)] ∧ parse hmac_key t tok s' = (s', Ok (Some u)).
Proof.
  unfold logout. intros ([] & s1 & Ho & ([] & s2 & Hc & [-> ->]%ret_Ok)%M_bind_Ok)%M_bind_Ok Hp. split; [done|].
  assert (s1 = s) as ->.
  { unfold _reject_foreign_origin in Ho. destruct (rq_origin rq); [|by injection Ho]. cbv zeta in Ho. destruct (_ || _); [by injection Ho|done]. }
  assert (s2 = s) as ->; [|done]. revert Hc. unfold _require_cookie_csrf. destruct (negb (present _)); [by intros [= ->]|].
  cbv zeta. destruct (_ || _); [done|]. intros (same & s3 & [-> _]%lift_Ok & H)%M_bind_Ok. destruct same; [|done]. cbn [negb] in H.
  apply M_bind_Ok in H as (good & s4 & Hg & H). destruct good; [|done]. injection H as <-.
  unfold csrf_matches, csrf_for in Hg. apply M_bind_Ok in Hg as (e & s5 & (pl & s6 & Hpl & [-> ->]%ret_Ok)%M_bind_Ok & Hg).
  destruct pl as [pl|]; [|by cbn in Hg]. apply payload_Some in Hpl as [-> _]. cbv zeta in Hg. destruct (_ || _); [done|]. by apply lift_Ok in Hg as [-> _].
Qed.
End Provider.

(** *** Tenants and identities *)

Section Requests.
Context `{KC : KeyCrypto} (env : string → option string) (hmac_key : string).
Context (pepper : string) (previous_pepper : option string) (bind_tenant : bool) (max_failures : Z).

Lemma console_user_valid now rq s s' u : optional_console_user env hmac_key now rq s = (s', Ok (Some u)) →
  s' = s ∧ String.eqb (auth_mode env) "off" = false ∧ (present (rq_session rq) || present (rq_cookie_session rq) = true) ∧
  principal_from_session_user u = Ok (session_principal u) ∧ Forall (λ t, tenant_id t = Ok t) (cu_tenants u) ∧ cu_active_tenant u ∈ cu_tenants u.
Proof.
  unfold optional_console_user, console_session. destruct (String.eqb (auth_mode env) "off"); [done|].
  intros (p & Hp & Hu)%parse_Some. apply payload_Some in Hp as (-> & sid & Hs & _). apply user_of_Some in Hu as (_ & _ & _ & _ & Ha & Hf & _).
  split; [done|]. split; [done|]. split; [|split; [by apply principal_valid|done]].
  apply session_id_Some in Hs. destruct (rq_session rq) as [h|]; [|by rewrite Hs].
  simpl. destruct (String.eqb h ""); [|done]. by rewrite Hs.
Qed.

(** The two tenant resolvers - the one for principals and the one the routes
    use - name the same tenant and refuse the same requests, both for a
    browser session and for an API key, whose only tenant is its own: no
    header invents a tenant. *)
Theorem resolvers_agree now rq s p u :
  optional_console_user env hmac_key now rq s = (s, Ok u) →
  match u with Some u => principal_from_session_user u = Ok p | None => pp_tenants p = [pp_tenant p] ∧ tenant_id (pp_tenant p) = Ok (pp_tenant p) end →
  ∀ name, (resolve_tenant env hmac_key now p rq s = (s, Ok name) ↔ member_tenant p (rq_tenant rq) = Ok name) ∧
          (member_tenant p (rq_tenant rq) = Ok name → name ∈ pp_tenants p).
Proof.
  intros Hu Hp name. assert (Forall (λ t, tenant_id t = Ok t) (pp_tenants p) ∧ pp_tenant p ∈ pp_tenants p ∧
    match u with Some u => pp_tenants p = cu_tenants u ∧ pp_tenant p = cu_active_tenant u | None => pp_tenants p = [pp_tenant p] end) as (Hf & Hi & Hu2).
  { destruct u as [u|].
    - apply console_user_valid in Hu as (_ & _ & _ & Hv & Hf & Ha). rewrite Hv in Hp. by injection Hp as <-.
    - destruct Hp as [E Ht]. rewrite E. split; [by constructor|]. split; [by apply list_elem_of_singleton|done]. }
  unfold resolve_tenant. rewrite (M_run _ _ s s u Hu). unfold member_tenant.
  assert ((match u with Some u => cu_active_tenant u | None => pp_tenant p end) = pp_tenant p) as E0 by (destruct u as [u|]; [by destruct Hu2 as [_ ->]|done]).
  destruct (rq_tenant rq) as [t|]; [|rewrite E0; split; [unfold mret, M_ret, result_ret; naive_solver|by intros [= <-]]].
  destruct (String.eqb t ""); [rewrite E0; split; [unfold mret, M_ret, result_ret; naive_solver|by intros [= <-]]|].
  assert (bool_decide (t ∈ pp_tenants p) || String.eqb t (pp_tenant p) = bool_decide (t ∈ pp_tenants p)) as E1.
  { destruct (String.eqb_spec t (pp_tenant p)) as [->|]; [by rewrite bool_decide_true|by rewrite orb_false_r]. }
  assert (∀ b : bool, (if b then mret t else raise (HTTPException 403)) s = (s, if b then Ok t else Err (HTTPException 403)) :> Sessions * result string) as E2 by by intros [].
  assert ((match u with Some u => if bool_decide (t ∈ cu_tenants u) then mret t else raise (HTTPException 403)
           | None => if String.eqb t (pp_tenant p) then mret t else raise (HTTPException 403) end) s =
          (s, if bool_decide (t ∈ pp_tenants p) then Ok t else Err (HTTPException 403)) :> Sessions * result string) as ->.
  { destruct u as [u|]; rewrite E2; [by destruct Hu2 as [-> _]|]. rewrite Hu2.
    destruct (String.eqb_spec t (pp_tenant p)) as [Et|Hn]; [by rewrite bool_decide_true by (by apply list_elem_of_singleton)|].
    by rewrite bool_decide_false by (by intros ?%list_elem_of_singleton). }
  case_bool_decide as Hm.
  - rewrite Forall_forall in Hf. rewrite (Hf t Hm). cbn [mbind result_bind]. rewrite ?bool_decide_true by done. cbn. split; [naive_solver|by intros [= <-]].
  - assert ((wanted ← tenant_id t; _ ← raise_unless (bool_decide (wanted ∈ pp_tenants p) || String.eqb wanted (pp_tenant p)) Forbidden; Ok wanted) ≠ Ok name) as Hno.
    { intros (w & Hw & (? & Hr%raise_unless_Ok & _)%bind_Ok_inv)%bind_Ok_inv. pose proof (tenant_id_Ok _ _ Hw) as ->. cbn in E1. by rewrite ?bool_decide_false, ?E1 in Hr. }
    split; [split; [done|by intros]|by intros].
Qed.

Lemma key_principal now mono key d d' p :
  (q ← authenticate pepper previous_pepper bind_tenant max_failures now mono key "unknown";
   match q with Some p => mret p | None => raise Unauthorized end : KM Principal) d = (d', Ok p) →
  pp_kind p = pk_api_key ∧ authenticate pepper previous_pepper bind_tenant max_failures now mono key "unknown" d = (d', Ok (Some p)).
Proof.
  destruct (authenticate_spec pepper previous_pepper bind_tenant max_failures now mono key "unknown" d) as (d1 & o & Ha & Hs).
  rewrite (M_run _ _ d d1 o Ha). destruct o as [q|]; [|done]. intros [-> ->]%ret_Ok. split; [|done].
  inversion Hs as [| | |? ? ? ? ? ? ? ? ? ? Hc]; subst. revert Hc. unfold checked_row, from_api_key.
  by intros (? & _ & (? & _ & (? & _ & [= <-])%bind_Ok_inv)%bind_Ok_inv)%bind_Ok_inv.
Qed.

(** A request acts under one identity.  A key and a session together are
    refused; a key alone gives the key's principal, a session alone the
    principal of the signed row, and nothing gives no principal. *)
Theorem one_identity now mono rq a a' p :
  from_request env hmac_key pepper previous_pepper bind_tenant max_failures now mono rq a = (a', Ok p) →
  (present (rq_api_key rq) = true ∧ pp_kind p = pk_api_key ∧
     (auth_mode env = "off" ∨ (present (rq_cookie_session rq) = false ∧ present (rq_session rq) = false)) ∧
     authenticate pepper previous_pepper bind_tenant max_failures now mono (rq_api_key rq) "unknown" (aa_keys a) = (aa_keys a', Ok (Some p))) ∨
  (present (rq_api_key rq) = false ∧ auth_mode env ≠ "off" ∧ aa_keys a' = aa_keys a ∧
     ∃ u, optional_console_user env hmac_key now rq (aa_sessions a) = (aa_sessions a, Ok (Some u)) ∧ p = session_principal u).
Proof.
  unfold from_request. intros (u & a1 & Hu & Hp)%M_bind_Ok. unfold on_sessions in Hu. injection Hu as Ha1 Hu.
  assert (aa_keys a1 = aa_keys a) as Ek by by rewrite <- Ha1. unfold on_keys in Hp. injection Hp as Ha' Hp. rewrite Ek in Hp.
  destruct (resolve_principal env pepper previous_pepper bind_tenant max_failures now mono rq u (aa_keys a)) as [k r] eqn:Er.
  assert (aa_keys a' = k) as Ek' by (rewrite <- Ha', Ek, Er; done). cbn in Hp. subst r. rewrite Ek'. clear Ha' Ha1 Ek' Ek. revert Er.
  unfold resolve_principal. destruct (String.eqb_spec (auth_mode env) "off") as [Hm|Hm]; cbn [negb andb orb]; cbv zeta.
  - rewrite bool_decide_false by (by intros []). rewrite andb_false_r. destruct (present (rq_api_key rq)) eqn:Hk; [|done].
    intros [Hkind Hp]%key_principal. left. auto.
  - destruct (present (rq_api_key rq)) eqn:Hk; cbn [andb].
    + destruct (_ || _) eqn:Hs; [done|]. intros [Hkind Hp]%key_principal. left. apply orb_false_iff in Hs as [[]%orb_false_iff _]. auto 10.
    + destruct u as [u|]; [|done]. intros [-> Hp]%lift_Ok. right. split; [done|]. split; [done|]. split; [done|].
      destruct (optional_console_user env hmac_key now rq (aa_sessions a)) as [s1 r] eqn:Eo. cbn in Hu. subst r.
      pose proof (console_user_valid _ _ _ _ _ Eo) as (-> & _ & _ & Hv & _). rewrite Hv in Hp. injection Hp as <-. eauto.
Qed.
End Requests.

(** *** Small instances *)

Definition oidc_env (name : string) : option string :=
  if String.eqb name "RECERTIA_CONSOLE_AUTH" then Some "oidc" else if String.eqb name "RECERTIA_OIDC_ISSUER" then Some "https://idp"
  else if String.eqb name "RECERTIA_OIDC_CLIENT_ID" then Some "c" else if String.eqb name "RECERTIA_OIDC_CLIENT_SECRET" then Some "s" else None.
Definition dev_env (name : string) : option string :=
  if String.eqb name "RECERTIA_CONSOLE_AUTH" then Some "dev" else if String.eqb name "RECERTIA_CONSOLE_DEV_LOGIN" then Some "1" else None.
Definition decode_demo (part : string) : option json :=
  if String.eqb part "good" then Some (JObj [("nonce", JStr "n"); ("jti", JStr "j1")]) else None.
Definition token_demo : http_answer := Body (JObj [("access_token", JStr "a"); ("id_token", JStr "h.good.s")]).
Definition info_demo : http_answer := Body (JObj [("sub", JStr "ada"); ("roles", JArr [JStr "admin"; JStr "reviewer"; JStr "platform_admin"])]).
Definition no_request : Request := mkRequest None None None None None None None None.
Definition with_cookie (tok : string) : Request := mkRequest None None None None None None (Some tok) None.
Definition callback_demo : Sessions * result (ConsoleUser * list SetCookie) :=
  @oidc_callback demo_hmac oidc_env demo_key 600000005 (λ _, "") decode_demo (λ _, token_demo) (λ _, info_demo) "sid-1" "csrf" "s1" demo_store.
Definition callback_user : ConsoleUser := mkUser "ada" "ada" {["reviewer"]} ["default"] "default".
Definition callback_cookies : list SetCookie := match callback_demo.2 with Ok (_, c) => c | Err _ => [] end.
Lemma callback_demo_Ok : callback_demo = (callback_demo.1, Ok (callback_user, callback_cookies)).
Proof. vm_compute. reflexivity. Qed.
Lemma callback_once_witness :
  (@oidc_callback demo_hmac oidc_env demo_key 600000006 (λ _, "") decode_demo (λ _, token_demo) (λ _, info_demo) "sid-2" "csrf" "s1" callback_demo.1).2 = Err (HTTPException 400).
Proof. exact (proj2 (@callback_once demo_hmac oidc_env demo_key demo_filled (λ _, "") decode_demo _ _ _ _ _ _ _ _ _ _ callback_demo_Ok) 600000006 _ _ "sid-2" "csrf"). Defined.
Lemma provider_never_platform_witness :
  ∃ u' p, @optional_console_user demo_hmac oidc_env demo_key 700000000 (with_cookie demo_token) callback_demo.1 = (callback_demo.1, Ok (Some u')) ∧
    principal_from_session_user u' = Ok p ∧ _platform_admin p = false.
Proof.
  destruct (@provider_never_platform demo_hmac oidc_env demo_key demo_filled (λ _, "") decode_demo 600000005 _ _ "sid-1" _ _ _ _ _ _ 700000000 (with_cookie demo_token) callback_demo_Ok)
    as (u' & p & H1 & _ & H2 & H3 & _); [reflexivity|vm_compute; discriminate|reflexivity|reflexivity|].
  exists u', p. split; [exact H1|]. split; [exact H2|exact H3].
Defined.

Definition escalating : list string := ["operator"; "platform_admin"].
Lemma escalating_valid : list_to_set (C := names) escalating ∩ _VALID_ROLES ≠ ∅.
Proof. apply (bool_decide_eq_false (_ = _)). vm_compute. reflexivity. Qed.
Lemma dev_login_ungated_witness :
  dev_admin_enabled dev_env = false ∧
  ∃ s' u c p, @dev_login demo_hmac dev_env demo_key 0 "sid-1" "csrf" (wants escalating "t1") no_request (mkSessions ∅ [] ∅) = (s', Ok (u, c)) ∧
    _platform_admin p = true ∧ @require_host_admin demo_hmac dev_env demo_key 1000000 p (with_cookie demo_token) s' = (s', Ok "mallory").
Proof.
  split; [reflexivity|].
  destruct (@dev_login_ungated demo_hmac dev_env demo_key demo_filled 0 no_request "sid-1" "csrf" escalating "t1" (mkSessions ∅ [] ∅) 1000000 (with_cookie demo_token))
    as (s' & u & c & u' & p & H1 & _ & _ & H2 & H3);
    [reflexivity|reflexivity|reflexivity|reflexivity|reflexivity| | |exact escalating_valid|vm_compute; discriminate|reflexivity|reflexivity|].
  - apply (bool_decide_eq_true (_ ∈ escalating)). reflexivity.
  - apply (bool_decide_eq_false (_ ∈ escalating)). reflexivity.
  - exists s', u, c, p. split; [exact H1|]. split; [exact H2|exact H3].
Defined.
Lemma logout_keeps_session_witness :
  @parse demo_hmac demo_key 6000000 (Some demo_token) (@logout demo_hmac demo_key 6000000 no_request demo_sessions).1 =
    (demo_sessions, Ok (Some (session_of demo_user))).
Proof.
  assert (@parse demo_hmac demo_key 6000000 (Some demo_token) demo_sessions = (demo_sessions, Ok (Some (session_of demo_user)))) as H.
  { destruct (@issued_payload demo_hmac demo_key demo_filled 5000000 "sid-1" "csrf" demo_user 60 (mkSessions ∅ [] ∅) demo_sessions demo_token 6000000) as (row & Hp & _ & Hu);
      [reflexivity|reflexivity|vm_compute; discriminate|]. apply parse_Some. exists row. split; [exact Hp|exact (Hu demo_roles)]. }
  exact (proj2 (@logout_keeps_session demo_hmac demo_key 6000000 no_request demo_sessions demo_sessions _ 6000000 _ _ eq_refl H)).
Defined.
Definition demo_principal : Principal := mkPrincipal "key_1" pk_api_key "t1" ["t1"] {["runs"]} ∅.
Definition asks (t : string) : Request := mkRequest (Some "rec_key_1.x") None (Some t) None None None None None.
Lemma resolvers_agree_witness :
  member_tenant demo_principal (Some "t1") = Ok "t1" ∧
  @resolve_tenant demo_hmac dev_env demo_key 0 demo_principal (asks "t1") demo_sessions = (demo_sessions, Ok "t1").
Proof.
  split; [reflexivity|].
  apply (proj1 (@resolvers_agree demo_hmac dev_env demo_key 0 (asks "t1") demo_sessions demo_principal None eq_refl (conj eq_refl eq_refl) "t1")). reflexivity.
Defined.
Definition demo_app : AppAuth := mkAppAuth (mkKeyDb ∅ [] ∅) demo_sessions.
Definition demo_request : AppAuth * result Principal :=
  @from_request demo_hmac dev_env demo_key "pepper" None false 5 6000000 0 (with_cookie demo_token) demo_app.
Lemma demo_request_Ok : demo_request = (demo_app, Ok (session_principal demo_user)).
Proof. vm_compute. reflexivity. Qed.
Lemma one_identity_witness :
  present (rq_api_key (with_cookie demo_token)) = false ∧
  ∃ u, @optional_console_user demo_hmac dev_env demo_key 6000000 (with_cookie demo_token) demo_sessions = (demo_sessions, Ok (Some u)).
Proof.
  split; [reflexivity|].
  destruct (@one_identity demo_hmac dev_env demo_key "pepper" None false 5 6000000 0 (with_cookie demo_token) demo_app demo_app _ demo_request_Ok)
    as [(H & _)|(_ & _ & _ & u & H & _)]; [discriminate H|exists u; exact H].
Defined.
