(* ===== verification/RunListing.v ===== *)
(** * The run list (app/run_listing.py, runtime/cursor.py, runtime/registry.py)

    [GET /v1/runs]: a page of a tenant's runs, newest first, read by keyset
    from three sources - checkpoint summaries, the run registry, the runs in
    memory - and merged.  A timestamp text is the instant it denotes in
    microseconds, [None] for an empty one, so that text order is time order as
    the source requires; a table is a finite map; base64, JSON and ISO dates
    are the operations of a class.  A generator is the list it yields.  The
    theorems: a page is exactly the reference page - all runs, one row each,
    sorted, cut - although each source is read in chunks and the registry only
    down to the page's last row; following the cursors lists every run once,
    in order; and a cursor reads back. *)
From S2P Require Import Prelude PyStr.
From Stdlib Require Import Ascii ZArith Lia DecimalString DecimalZ.
Open Scope Z_scope.

Definition InvalidCursor : exn := PyError "InvalidCursor".
Definition RunIdExists : exn := PyError "RunIdExists".
(** "created_at" and a run id, compared as Python and SQLite compare them. *)
Notation RunKey := (option Z * string)%type.
Definition stamp_ltb (a b : option Z) : bool :=
  match a, b with None, Some _ => true | Some x, Some y => x <? y | _, _ => false end.
Definition key_ltb (a b : RunKey) : bool := lex (λ a b, stamp_ltb a.1 b.1) (λ a b, String.ltb a.2 b.2) a b.

(** ** runtime/cursor.py *)

Class CursorCodec := {
  json_dumps : json → string;              (* sorted keys, no spaces, ASCII *)
  json_loads : string → option json;
  b64encode : string → string;             (* URL-safe, padding stripped *)
  b64decode : string → option string;      (* padding restored, validated *)
  isoformat : Z → string;
  fromisoformat : string → option (Z * bool)   (* the instant, and whether it has an offset *)
}.
Definition MAX_CURSOR_CHARS : nat := 512.
Definition MAX_RUN_ID_CHARS : nat := 256.

Section Cursor.
Context `{CC : CursorCodec}.
Definition encode_cursor (payload : json_obj) : string := b64encode (json_dumps (JObj payload)).
Definition _RUN_KEYS : list string := ["created_at"; "run_id"].
Definition null_or_str (j : json) : bool := match j with JNull | JStr _ => true | _ => false end.
Definition same_keys (o : json_obj) : bool :=
  forallb (λ kv, bool_decide (kv.1 ∈ _RUN_KEYS)) o && forallb (λ k, bool_decide (k ∈ map fst o)) _RUN_KEYS.
Definition decode_cursor (cursor : string) : result json_obj :=
  if String.eqb cursor "" || (MAX_CURSOR_CHARS <? String.length cursor)%nat then Err InvalidCursor
  else match (raw ← b64decode cursor; json_loads raw) with
       | Some (JObj o) =>
           if negb (same_keys o) || negb (forallb (λ kv, null_or_str kv.2) o) then Err InvalidCursor
           else if negb (String.eqb (encode_cursor o) cursor) then Err InvalidCursor
           else Ok o
       | _ => Err InvalidCursor
       end.
Definition encode_run_cursor (position : RunKey) : string :=
  encode_cursor [("created_at", match position.1 with Some t => JStr (isoformat t) | None => JNull end); ("run_id", JStr position.2)].
Definition decode_run_cursor (cursor : string) : result RunKey :=
  data ← decode_cursor cursor;
  match obj_get "run_id" data with
  | Some (JStr run_id) =>
      if String.eqb run_id "" || (MAX_RUN_ID_CHARS <? String.length run_id)%nat then Err InvalidCursor
      else match obj_get "created_at" data with
           | Some (JStr raw) => match fromisoformat raw with
                                | Some (t, true) => Ok (Some t, run_id)
                                | _ => Err InvalidCursor
                                end
           | _ => Ok (None, run_id)
           end
  | _ => Err InvalidCursor
  end.
End Cursor.

(** ** The sources *)

(** A row of [run_summaries], of [runs], and a record in memory. *)
Record Summary := mkSummary {
  su_task_class : option string; su_terminal : option string; su_attempt_no : option Z; su_arm : option string;
  su_cost_usd : option float; su_created_at : option Z }.
Record Registered := mkRegistered {
  rg_status : string; rg_request_hash : string; rg_summary : json_obj; rg_workdir : option string;
  rg_created_at : option Z; rg_updated_at : option Z }.
Record RunRecord := mkRunRecord {
  rr_run_id : string; rr_request : option string; rr_task_class : string; rr_status : string; rr_created_at : Z; rr_tenant_id : string;
  rr_terminal : option string; rr_failure_class : option string; rr_attempt_no : option Z; rr_arm : option string;
  rr_route_log : option (list json_obj); rr_has_goal : bool; rr_cost_usd : option float; rr_mode : option string;
  rr_criteria_hash : option string; rr_workspace_id : option string; rr_workdir : option string }.
#[export] Instance eta_RunRecord : Eta RunRecord := λ r,
  mkRunRecord (rr_run_id r) (rr_request r) (rr_task_class r) (rr_status r) (rr_created_at r) (rr_tenant_id r) (rr_terminal r) (rr_failure_class r)
    (rr_attempt_no r) (rr_arm r) (rr_route_log r) (rr_has_goal r) (rr_cost_usd r) (rr_mode r) (rr_criteria_hash r) (rr_workspace_id r) (rr_workdir r).
Inductive Row :=
  | from_memory (rec : RunRecord) (created_at : option Z)
  | from_summary (run_id : string) (s : Summary)
  | from_registry (run_id : string) (r : Registered).
Notation Keyed := (RunKey * Row)%type.
Record Sources := mkSources {
  so_runs : gmap (string * string) RunRecord;
  so_checkpoints : option (gmap string Summary);                (* None: no database yet *)
  so_registry : option (gmap (string * string) Registered) }.

(** [ORDER BY created_at DESC, run_id DESC LIMIT ?] *)
Definition newest_first {V} (created : V → option Z) (l : list (string * V)) : list (string * V) :=
  sorted_by (λ a b, key_ltb (created b.2, b.1) (created a.2, a.1)) l.

(** graph/store.py, [list_summaries_page] on a table that is filled. *)
Definition list_summaries_page (limit : Z) (created_at_before : option (option Z)) (run_id_before task_class terminal : option string)
    (t : gmap string Summary) : list (string * Summary) :=
  if limit <? 1 then []
  else
    let clause (kv : string * Summary) :=
      match created_at_before, run_id_before with
      | Some at_, Some id => key_ltb (su_created_at kv.2, kv.1) (at_, id)
      | Some at_, None => negb (stamp_ltb at_ (su_created_at kv.2))
      | None, _ => true
      end &&
      match task_class with Some c => bool_decide (su_task_class kv.2 = Some c) | None => true end &&
      match terminal with Some c => String.eqb (default "" (su_terminal kv.2)) c | None => true end in
    take (Z.to_nat limit) (newest_first su_created_at (List.filter clause (map_to_list t))).
(** registry.py, [list_page] and [get_many]. *)
Definition list_page (limit : Z) (tenant_id : string) (created_at_before : option (option Z)) (run_id_before : option string)
    (created_at_after : option (option Z)) (run_id_after : option string) (t : gmap (string * string) Registered) : list (string * Registered) :=
  let clause (kv : string * string * Registered) :=
    String.eqb kv.1.1 tenant_id &&
    match created_at_before, run_id_before with Some at_, Some id => key_ltb (rg_created_at kv.2, kv.1.2) (at_, id) | _, _ => true end &&
    match created_at_after, run_id_after with Some at_, Some id => key_ltb (at_, id) (rg_created_at kv.2, kv.1.2) | _, _ => true end in
  take (Z.to_nat limit) (newest_first rg_created_at (map (λ kv, (kv.1.2, kv.2)) (List.filter clause (map_to_list t)))).
(** registry.py, [reserve]: insert only. *)
Definition reserve (now : Z) (tenant_id run_id request_hash : string) (summary : json_obj) (workdir : option string)
    (t : gmap (string * string) Registered) : gmap (string * string) Registered * result unit :=
  match t !! (tenant_id, run_id) with
  | Some _ => (t, Err RunIdExists)
  | None => (<[(tenant_id, run_id) := mkRegistered "accepted" request_hash summary workdir (Some now) (Some now)]> t, Ok tt)
  end.

(** ** The streams *)

Section Listing.
Context (tenant_id : string) (so : Sources).
Definition nonempty (o : option string) : option string := match o with Some s => if String.eqb s "" then None else Some s | None => None end.
Context (task_class terminal : option string).

Definition _tenant_records : list (string * RunRecord) :=
  omap (λ kv : string * string * RunRecord,
    if String.eqb kv.1.1 tenant_id && String.eqb (rr_tenant_id kv.2) tenant_id then Some (kv.1.2, kv.2) else None) (map_to_list (so_runs so)).
Definition records : list (string * RunRecord) := _tenant_records.
Definition in_records (run_id : string) : bool := bool_decide (run_id ∈ map fst records).
Definition summary_of (run_id : string) : option Summary := t ← so_checkpoints so; t !! run_id.
Definition registered_of (run_id : string) : option Registered := t ← so_registry so; t !! (tenant_id, run_id).

Definition record_matches (r : RunRecord) : bool :=
  match nonempty task_class with Some c => String.eqb (rr_task_class r) c | None => true end &&
  match nonempty terminal with Some c => String.eqb (default "" (rr_terminal r)) c | None => true end.
(** The position of a run in memory: the stored date if there is one. *)
Definition memory_date (run_id : string) (r : RunRecord) : option Z :=
  match summary_of run_id with
  | Some s => su_created_at s
  | None => match registered_of run_id with Some g => rg_created_at g | None => Some (rr_created_at r) end
  end.
Definition memory_row (kv : string * RunRecord) : Keyed := ((memory_date kv.1 kv.2, kv.1), from_memory kv.2 (memory_date kv.1 kv.2)).
Definition below (boundary : option RunKey) (k : RunKey) : bool := match boundary with Some b => key_ltb k b | None => true end.
Definition desc_by_key (a b : Keyed) : bool := key_ltb b.1 a.1.
Definition _memory_stream (boundary : option RunKey) : list Keyed :=
  sorted_by desc_by_key
    (List.filter (λ kr, below boundary kr.1) (map memory_row (List.filter (λ kv, record_matches kv.2) records))).

Definition summary_row (kv : string * Summary) : Keyed := ((su_created_at kv.2, kv.1), from_summary kv.1 kv.2).
Fixpoint checkpoint_pages (fuel : nat) (chunk : Z) (before_at : option (option Z)) (before_id : option string) (t : gmap string Summary)
    : list (string * Summary) :=
  match fuel with
  | O => []
  | S fuel' =>
      let rows := list_summaries_page chunk before_at before_id (nonempty task_class) (nonempty terminal) t in
      rows ++
      (if Z.of_nat (length rows) <? chunk then []
       else match last rows with
            | Some (run_id, s) => checkpoint_pages fuel' chunk (Some (su_created_at s)) (Some run_id) t
            | None => []
            end)
  end.
(** The second a position falls in. *)
Definition whole_second (t : Z) : Z := t / 1000000 * 1000000.
Definition _checkpoint_stream (boundary : option RunKey) (chunk : Z) : list Keyed :=
  match so_checkpoints so with
  | None => []
  | Some t =>
      let '(before_at, before_id) :=
        match boundary with
        | Some (None, id) => (Some None, Some id)
        | Some (Some at_, id) => (Some (Some (whole_second at_)), if at_ mod 1000000 =? 0 then Some id else None)
        | None => (None, None)
        end in
      map summary_row (List.filter (λ kv, negb (in_records kv.1)) (checkpoint_pages (S (size t)) chunk before_at before_id t))
  end.

Definition registry_row (kv : string * Registered) : Keyed := ((rg_created_at kv.2, kv.1), from_registry kv.1 kv.2).
Fixpoint registry_pages (fuel : nat) (chunk : Z) (before_at : option (option Z)) (before_id : option string)
    (after_at : option (option Z)) (after_id : option string) (t : gmap (string * string) Registered) : list (string * Registered) :=
  match fuel with
  | O => []
  | S fuel' =>
      let rows := list_page chunk tenant_id before_at before_id after_at after_id t in
      rows ++
      (if Z.of_nat (length rows) <? chunk then []
       else match last rows with
            | Some (run_id, r) => registry_pages fuel' chunk (Some (rg_created_at r)) (Some run_id) after_at after_id t
            | None => []
            end)
  end.
Definition _registry_stream (boundary floor : option RunKey) (chunk : Z) : list Keyed :=
  match so_registry so with
  | None => []
  | Some t =>
      if negb (bool_decide (nonempty task_class = None)) || negb (bool_decide (nonempty terminal = None)) then []
      else
        map registry_row
          (List.filter (λ kv, negb (in_records kv.1 || bool_decide (is_Some (summary_of kv.1))))
            (registry_pages (S (size t)) chunk (fst <$> boundary) (snd <$> boundary) (fst <$> floor) (snd <$> floor) t))
  end.

(** [heapq.merge(a, b, key=..., reverse=True)]: on a tie the first stream goes
    first. *)
Fixpoint heap_merge (a : list Keyed) : list Keyed → list Keyed :=
  fix go (b : list Keyed) : list Keyed :=
    match a, b with
    | [], _ => b
    | _, [] => a
    | x :: a', y :: b' => if key_ltb x.1 y.1 then y :: go b' else x :: heap_merge a' b
    end.

Definition page_rows (limit : nat) (boundary : option RunKey) : list Keyed :=
  let head := take (S limit) (heap_merge (_memory_stream boundary) (_checkpoint_stream boundary (Z.of_nat (S limit)))) in
  let floor := fst <$> head !! limit in
  take (S limit) (heap_merge head (_registry_stream boundary floor (Z.of_nat (S limit)))).
Definition list_run_page `{CC : CursorCodec} (limit : Z) (cursor : option string) : result (list Row * option string) :=
  if limit <? 1 then Err ValueError
  else
    boundary ← (match nonempty cursor with Some c => Some <$> decode_run_cursor c | None => Ok None end);
    let n := Z.to_nat limit in
    let taken := page_rows n boundary in
    Ok (map snd (take n taken),
        if (n <? length taken)%nat then encode_run_cursor ∘ fst <$> taken !! (n - 1)%nat else None).
End Listing.

(** ** Theorems *)

(** *** Lists in descending order of a key *)

Lemma stamp_swo : swo stamp_ltb.
Proof. split; intros [x|] [y|]; try (intros [z|]); simpl; rewrite ?Z.ltb_lt, ?Z.ltb_ge; try done; lia. Qed.
Lemma stamp_total a b : stamp_ltb a b = false → stamp_ltb b a = false → a = b.
Proof. destruct a as [x|], b as [y|]; simpl; rewrite ?Z.ltb_ge; try done. intros. f_equal. lia. Qed.
Lemma key_swo : swo key_ltb.
Proof. unfold key_ltb. apply swo_lex; [apply (swo_on fst), stamp_swo|apply (swo_on snd), swo_str]. Qed.
Lemma key_total a b : key_ltb a b = false → key_ltb b a = false → a = b.
Proof.
  destruct a as [a1 a2], b as [b1 b2]. unfold key_ltb, lex. simpl. destruct (stamp_ltb a1 b1) eqn:E1; [done|]. destruct (stamp_ltb b1 a1) eqn:E2; [done|].
  simpl. intros H1 H2. f_equal; [by apply stamp_total|by apply str_ltb_total].
Qed.
Lemma key_irrefl a : key_ltb a a = false.
Proof. destruct (key_ltb a a) eqn:E; [|done]. pose proof (swo_asym _ key_swo _ _ E). congruence. Qed.
Lemma key_trans a b c : key_ltb a b = true → key_ltb b c = true → key_ltb a c = true.
Proof.
  intros H1 H2. destruct (key_ltb a c) eqn:E; [done|]. destruct (key_ltb c a) eqn:E2.
  - pose proof (swo_neg _ key_swo b a c (swo_asym _ key_swo _ _ H1) E). congruence.
  - pose proof (key_total _ _ E E2) as ->. pose proof (swo_asym _ key_swo _ _ H1). congruence.
Qed.

Section Descending.
Context {X : Type} (key : X → RunKey).
Definition newer (a b : X) : Prop := key_ltb (key b) (key a) = true.
Definition desc (l : list X) : Prop := StronglySorted newer l.
#[local] Instance newer_trans : Transitive newer.
Proof. intros a b c H1 H2. by apply (key_trans _ (key b)). Qed.

Lemma desc_nodup l : desc l → NoDup l.
Proof.
  induction 1 as [|x l Hl IH Hx]; [constructor|]. constructor; [|done]. intros Hi. rewrite Forall_forall in Hx. specialize (Hx x Hi).
  unfold newer in Hx. by rewrite key_irrefl in Hx.
Qed.
Lemma desc_unique l1 l2 : desc l1 → desc l2 → (∀ x, x ∈ l1 ↔ x ∈ l2) → l1 = l2.
Proof.
  intros H1 H2 H. apply (StronglySorted_unique_strong newer); [|done|done|].
  - intros x y _ _ Hxy Hyx. pose proof (swo_asym _ key_swo _ _ Hxy). unfold newer in *. congruence.
  - apply NoDup_Permutation; [by apply desc_nodup|by apply desc_nodup|done].
Qed.
Lemma desc_filter f l : desc l → desc (List.filter f l).
Proof.
  induction 1 as [|x l Hl IH Hx]; [constructor|]. simpl. destruct (f x); [|done]. constructor; [done|].
  rewrite Forall_forall in *. intros y [_ Hy]%elem_of_lfilter. auto.
Qed.
Lemma desc_app l1 l2 : desc (l1 ++ l2) ↔ desc l1 ∧ desc l2 ∧ ∀ x y, x ∈ l1 → y ∈ l2 → newer x y.
Proof.
  induction l1 as [|a l1 IH]; simpl.
  - split; [intros H; split; [constructor|split; [done|]]; intros x y []%elem_of_nil|tauto].
  - split.
    + intros [H Ha]%StronglySorted_inv. apply IH in H as (H1 & H2 & H3). rewrite Forall_forall in Ha.
      split; [constructor; [done|]; rewrite Forall_forall; intros y Hy; apply Ha, elem_of_app; by left|]. split; [done|].
      intros x y [->|Hx]%elem_of_cons Hy; [apply Ha, elem_of_app; by right|auto].
    + intros ([H1 Ha]%StronglySorted_inv & H2 & H3). constructor.
      * apply IH. split; [done|]. split; [done|]. intros x y Hx Hy. apply H3; [by right|done].
      * rewrite Forall_forall in *. intros y [Hy|Hy]%elem_of_app; [by apply Ha|]. apply H3; [left|done].
Qed.
Lemma desc_sorted lt l :
  (∀ a b, lt a b = key_ltb (key b) (key a)) → NoDup (map key l) → desc (sorted_by lt l).
Proof.
  intros Hlt Hd. assert (StronglySorted (λ a b, key_ltb (key a) (key b) = false) (sorted_by lt l)) as H.
  { apply sorted_by_StronglySorted; [intros a b c Hab Hbc; by eapply (swo_neg _ key_swo)| |]; intros x y; rewrite Hlt; [apply (swo_asym _ key_swo)|done]. }
  assert (NoDup (map key (sorted_by lt l))) as Hn by (eapply NoDup_Permutation_proper; [apply Permutation_map, sorted_by_perm|done]).
  revert H Hn. generalize (sorted_by lt l). clear. intros l H. induction H as [|x l Hl IH Hx]; intros Hn; [constructor|].
  apply NoDup_cons in Hn as [Hi Hn]. constructor; [by apply IH|]. rewrite Forall_forall in *. intros y Hy. specialize (Hx y Hy).
  unfold newer. destruct (key_ltb (key y) (key x)) eqn:E; [done|]. exfalso. apply Hi. rewrite (key_total _ _ Hx E). apply list_elem_of_fmap. eauto.
Qed.


(** What is older than the last row of a full chunk is the rest of the list. *)
Definition older (k : RunKey) (y : X) : bool := key_ltb (key y) k.
Lemma older_split l1 x l2 : desc (l1 ++ x :: l2) → List.filter (older (key x)) (l1 ++ x :: l2) = l2.
Proof.
  intros (H1 & [H2 Hx]%StronglySorted_inv & H3)%desc_app. rewrite List.filter_app. rewrite Forall_forall in Hx.
  rewrite filter_none; [|intros y Hy; apply (swo_asym _ key_swo), H3; [done|left]].
  simpl. unfold older at 1. rewrite key_irrefl. apply filter_all. exact Hx.
Qed.
Lemma older_than_last l c x : desc l → last (take c l) = Some x → List.filter (older (key x)) l = drop c l.
Proof.
  intros Hl [l' E]%last_Some. assert (l = l' ++ x :: drop c l) as El by (rewrite <- (take_drop c l) at 1; by rewrite E, <- app_assoc).
  rewrite El at 1. apply older_split. by rewrite <- El.
Qed.

(** Fetching chunk after chunk gives everything. *)
Fixpoint drain (fuel : nat) (c : nat) (fetch : RunKey → list X) (rows : list X) : list X :=
  rows ++
  (if (length rows <? c)%nat then []
   else match last rows, fuel with Some x, S fuel' => drain fuel' c fetch (fetch (key x)) | _, _ => [] end).
Lemma drain_all fuel c fetch L :
  (1 <= c)%nat → (length L <= fuel)%nat → desc L → (∀ x, x ∈ L → fetch (key x) = take c (List.filter (older (key x)) L)) →
  drain fuel c fetch (take c L) = L.
Proof.
  intros Hc. revert L. induction fuel as [|fuel IH]; intros L Hf Hd Hfetch.
  { destruct L; [|simpl in Hf; lia]. simpl. destruct c; [lia|done]. }
  cbn [drain]. rewrite length_take. destruct (Nat.ltb_spec (c `min` length L) c) as [Hs|Hs]; [rewrite app_nil_r; apply take_ge; lia|].
  assert (is_Some (last (take c L))) as [x Hx] by (apply last_is_Some; intros E; apply (f_equal length) in E; rewrite length_take in E; simpl in E; lia).
  assert (x ∈ L) as Hi by (apply last_Some in Hx as [l' E]; apply (subseteq_take c); rewrite E; apply elem_of_app; right; by apply list_elem_of_singleton).
  pose proof (older_than_last L c x Hd Hx) as Ho. rewrite Hx, (Hfetch x Hi), Ho.
  transitivity (take c L ++ drop c L); [f_equal|apply take_drop]. pose proof Hd as Hd2. rewrite <- (take_drop c L) in Hd2. apply desc_app in Hd2 as (_ & Hd2 & Hn).
  apply IH; [rewrite length_drop; lia|done|]. intros y Hy. rewrite Hfetch by (by apply (subseteq_drop c)). f_equal.
  rewrite <- (take_drop c L) at 1. rewrite List.filter_app, filter_none; [done|]. intros z Hz. apply (swo_asym _ key_swo). by apply Hn.
Qed.
End Descending.
Arguments newer {X} key a b /.

(** *** Merging and cutting *)

Notation keyed_desc := (desc (fst : Keyed → RunKey)).
Lemma heap_merge_perm a b : heap_merge a b ≡ₚ a ++ b.
Proof.
  revert b. induction a as [|x a IHa]; intros b; [by destruct b|]. induction b as [|y b IHb]; [by rewrite app_nil_r|].
  cbn [heap_merge] in *. destruct (key_ltb x.1 y.1).
  - rewrite IHb. by rewrite <- Permutation_middle.
  - by rewrite IHa.
Qed.
Lemma heap_merge_elem a b x : x ∈ heap_merge a b ↔ x ∈ a ∨ x ∈ b.
Proof. by rewrite heap_merge_perm, elem_of_app. Qed.
Lemma heap_merge_desc a b :
  keyed_desc a → keyed_desc b → (∀ x y, x ∈ a → y ∈ b → x.1 ≠ y.1) → keyed_desc (heap_merge a b).
Proof.
  revert b. induction a as [|x a IHa]; intros b Ha Hb Hn; [by destruct b|]. induction b as [|y b IHb]; [done|].
  pose proof Ha as [Ha2 Hx]%StronglySorted_inv. pose proof Hb as [Hb2 Hy]%StronglySorted_inv. rewrite Forall_forall in Hx, Hy.
  assert (∀ z, z ∈ a → newer fst x z) as Hx' by exact Hx. assert (∀ z, z ∈ b → newer fst y z) as Hy' by exact Hy.
  assert (x.1 ≠ y.1) as Hne by (apply Hn; left). cbn [heap_merge] in *. destruct (key_ltb x.1 y.1) eqn:E.
  - constructor; [apply IHb; [done|]; intros z w Hz Hw; apply Hn; [done|by right]|]. rewrite Forall_forall. intros z Hz.
    apply (heap_merge_elem (x :: a) b) in Hz as [[->|Hz]%elem_of_cons|Hz]; [exact E| |by apply Hy'].
    apply (key_trans _ x.1); [by apply Hx'|done].
  - assert (key_ltb y.1 x.1 = true) as E2 by (destruct (key_ltb y.1 x.1) eqn:E2; [done|]; exfalso; by apply Hne, key_total).
    constructor; [apply IHa; [done|done|]; intros z w Hz Hw; apply Hn; [by right|done]|]. rewrite Forall_forall. intros z Hz.
    apply heap_merge_elem in Hz as [Hz|[->|Hz]%elem_of_cons]; [by apply Hx'|exact E2|].
    apply (key_trans _ y.1); [by apply Hy'|done].
Qed.

(** The rows not older than [k] are a prefix. *)
Lemma prefix_from (k : RunKey) (L : list Keyed) : keyed_desc L → ∃ m, List.filter (λ y, negb (key_ltb y.1 k)) L = take m L.
Proof.
  induction 1 as [|x L HL (m & IH) Hx]; [by exists 0%nat|]. cbn [List.filter]. destruct (key_ltb x.1 k) eqn:E.
  - exists 0%nat. cbn [negb]. apply filter_none. intros y Hy. rewrite Forall_forall in Hx. specialize (Hx y Hy). simpl in Hx.
    rewrite (key_trans _ _ _ Hx E). done.
  - exists (S m). cbn [negb take]. by rewrite IH.
Qed.
(** A page of the merge needs the second list only down to the page's last
    row of the first. *)
Lemma merge_page n (A C L : list Keyed) :
  keyed_desc A → keyed_desc C → keyed_desc L → (∀ x y, x ∈ A → y ∈ C → x.1 ≠ y.1) → (∀ x, x ∈ L ↔ x ∈ A ∨ x ∈ C) →
  take (S n) (heap_merge (take (S n) A)
    (List.filter (λ y, match fst <$> take (S n) A !! n with Some f => key_ltb f y.1 | None => true end) C)) = take (S n) L.
Proof.
  intros HA HC HL Hne He. destruct (take (S n) A !! n) as [x|] eqn:Ex; cbn [fmap option_fmap option_map].
  2: { apply lookup_ge_None in Ex. rewrite length_take in Ex. rewrite (take_ge A (S n)) by lia. f_equal. rewrite filter_all by done.
       apply (desc_unique fst); [by apply heap_merge_desc|done|]. intros z. by rewrite heap_merge_elem, He. }
  assert (last (take (S n) A) = Some x) as Hlast.
  { rewrite last_lookup. apply lookup_lt_Some in Ex as Hlt. rewrite length_take in *. replace (pred (S n `min` length A)) with n by lia. done. }
  assert (take (S n) A = List.filter (λ y, negb (key_ltb y.1 x.1)) A) as EA.
  { pose proof (older_than_last fst A (S n) x HA Hlast) as Ho. rewrite <- (take_drop (S n) A) in HA. apply desc_app in HA as (H1 & _ & H3).
    rewrite <- (take_drop (S n) A) at 2. rewrite List.filter_app, filter_all, filter_none; [by rewrite app_nil_r| |].
    - intros y Hy. apply negb_false_iff. rewrite <- Ho in Hy. by apply elem_of_lfilter in Hy as [? _].
    - intros y Hy. apply negb_true_iff. apply last_Some in Hlast as [l' El]. rewrite El in H1, Hy. apply desc_app in H1 as (_ & _ & H1).
      apply elem_of_app in Hy as [Hy| ->%list_elem_of_singleton]; [|apply key_irrefl]. apply (swo_asym _ key_swo). apply H1; [done|by apply list_elem_of_singleton]. }
  assert (heap_merge (take (S n) A) (List.filter (λ y, key_ltb x.1 y.1) C) = List.filter (λ y, negb (key_ltb y.1 x.1)) L) as ->.
  { apply (desc_unique fst).
    - apply heap_merge_desc; [rewrite EA; by apply desc_filter|by apply desc_filter|]. intros y z Hy [_ Hz]%elem_of_lfilter. apply Hne; [by apply (subseteq_take (S n))|done].
    - by apply desc_filter.
    - intros y. rewrite heap_merge_elem, EA, !elem_of_lfilter, He. assert (x ∈ A) as Hx by (apply list_elem_of_lookup_2 in Ex; by apply (subseteq_take (S n))).
      split; [intros [[? ?]|[H ?]]; (split; [|by auto]); [done|apply negb_true_iff; by apply (swo_asym _ key_swo)]|].
      intros [H [Hi|Hi]]; [by left|right]. split; [|done]. apply negb_true_iff in H. destruct (key_ltb x.1 y.1) eqn:E; [done|].
      exfalso. apply (Hne x y Hx Hi). by apply key_total. }
  destruct (prefix_from x.1 L HL) as [m Em]. rewrite Em, take_take. f_equal. apply Nat.min_l.
  assert (length (take (S n) A) <= length (take m L))%nat as Hlen.
  { rewrite EA, <- Em. apply submseteq_length, NoDup_submseteq; [apply (desc_nodup fst); by apply desc_filter|].
    intros y Hy. apply elem_of_lfilter in Hy as [H Hi]. apply elem_of_lfilter. split; [done|]. apply He. by left. }
  apply lookup_lt_Some in Ex. rewrite !length_take in *. lia.
Qed.

(** *** The streams *)

Section Streams.
Context (tenant_id : string) (so : Sources) (task_class terminal : option string).
Notation "'mem'" := (_memory_stream tenant_id so task_class terminal).

(** The record a tenant has in memory. *)
Definition record_of (id : string) : option RunRecord :=
  r ← so_runs so !! (tenant_id, id); if String.eqb (rr_tenant_id r) tenant_id then Some r else None.
Lemma records_elem id r : (id, r) ∈ records tenant_id so ↔ record_of id = Some r.
Proof.
  unfold records, _tenant_records, record_of. rewrite list_elem_of_omap. split.
  - intros ([[t i] q] & Hi & E). simpl in E. destruct (String.eqb_spec t tenant_id) as [->|]; [|done]. simpl in E.
    destruct (String.eqb (rr_tenant_id q) tenant_id) eqn:Eq; [|done]. injection E as -> ->. apply elem_of_map_to_list in Hi. rewrite Hi. cbn. by rewrite Eq.
  - destruct (so_runs so !! (tenant_id, id)) as [q|] eqn:E; [|done]. cbn. destruct (String.eqb (rr_tenant_id q) tenant_id) eqn:Eq; [|done].
    intros [= <-]. exists (tenant_id, id, q). split; [by apply elem_of_map_to_list|]. simpl. by rewrite String.eqb_refl, Eq.
Qed.
Lemma records_keys : NoDup (map fst (records tenant_id so)).
Proof.
  unfold records, _tenant_records. pose proof (NoDup_fst_map_to_list (so_runs so)) as H. revert H. generalize (map_to_list (so_runs so)).
  intros l. induction l as [|[[t i] q] l IH]; intros Hd; [constructor|]. apply NoDup_cons in Hd as [Hk Hd]. cbn [omap list_omap fst snd].
  destruct (String.eqb_spec t tenant_id) as [->|]; [|by apply IH]. destruct (String.eqb _ tenant_id); [|by apply IH]. cbn [andb map fst].
  apply NoDup_cons. split; [|by apply IH]. intros ([i' q'] & E & Hi)%list_elem_of_fmap. simpl in E. subst i'.
  apply list_elem_of_omap in Hi as ([[t2 i2] q2] & Hi & E). simpl in E. destruct (String.eqb_spec t2 tenant_id) as [->|]; [|done].
  destruct (String.eqb _ tenant_id); [|done]. injection E as -> _. apply Hk. apply list_elem_of_fmap. by exists (tenant_id, i, q2).
Qed.
Lemma in_records_spec id : in_records tenant_id so id = true ↔ is_Some (record_of id).
Proof.
  unfold in_records. rewrite bool_decide_eq_true, list_elem_of_fmap. split.
  - intros ([i r] & -> & Hi). exists r. by apply records_elem.
  - intros [r Hr%records_elem]. by exists (id, r).
Qed.
Lemma memory_elem b x : x ∈ mem b ↔
  below b x.1 = true ∧ ∃ id r, record_of id = Some r ∧ record_matches task_class terminal r = true ∧ x = memory_row tenant_id so (id, r).
Proof.
  unfold _memory_stream. rewrite sorted_by_elem, elem_of_lfilter, list_elem_of_fmap. split.
  - intros (Hb & [id r] & -> & [Hm Hi]%elem_of_lfilter). split; [done|]. exists id, r. split; [by apply records_elem|done].
  - intros (Hb & id & r & Hr & Hm & ->). split; [done|]. exists (id, r). split; [done|]. apply elem_of_lfilter. split; [done|by apply records_elem].
Qed.
Lemma memory_desc b : keyed_desc (mem b).
Proof.
  unfold _memory_stream. apply (desc_sorted fst); [done|]. apply NoDup_map_filter. rewrite List.map_map.
  apply (NoDup_fmap_1 snd). rewrite <- list_fmap_compose.
  replace ((snd ∘ λ x, (memory_row tenant_id so x).1) <$> List.filter (λ kv, record_matches task_class terminal kv.2) (records tenant_id so))
    with (map fst (List.filter (λ kv : string * RunRecord, record_matches task_class terminal kv.2) (records tenant_id so))) by done.
  apply NoDup_map_filter, records_keys.
Qed.

(** Newest first commutes with selecting. *)
Lemma newest_desc {V} (created : V → option Z) l : NoDup (map fst l) → desc (λ kv : string * V, (created kv.2, kv.1)) (newest_first created l).
Proof.
  intros H. apply (desc_sorted (λ kv : string * V, (created kv.2, kv.1))); [done|]. apply (NoDup_fmap_1 snd).
  rewrite <- list_fmap_compose. done.
Qed.
Lemma newest_filter {V} (created : V → option Z) f l : NoDup (map fst l) → newest_first created (List.filter f l) = List.filter f (newest_first created l).
Proof.
  intros H. apply (desc_unique (λ kv : string * V, (created kv.2, kv.1))).
  - apply newest_desc. by apply NoDup_map_filter.
  - by apply desc_filter, newest_desc.
  - intros x. unfold newest_first. by rewrite sorted_by_elem, !elem_of_lfilter, sorted_by_elem.
Qed.
Lemma desc_map {X} (key : X → RunKey) (f : X → Keyed) l : (∀ x, (f x).1 = key x) → desc key l → keyed_desc (map f l).
Proof.
  intros Hf. induction 1 as [|x l Hl IH Hx]; [constructor|]. constructor; [done|]. apply Forall_forall.
  intros y (z & -> & Hz)%list_elem_of_fmap. simpl. rewrite !Hf. rewrite Forall_forall in Hx. by apply Hx.
Qed.

(** Checkpoint summaries. *)
Definition summary_key (kv : string * Summary) : RunKey := (su_created_at kv.2, kv.1).
Definition summary_matches (s : Summary) : bool :=
  match nonempty task_class with Some c => bool_decide (su_task_class s = Some c) | None => true end &&
  match nonempty terminal with Some c => String.eqb (default "" (su_terminal s)) c | None => true end.
(** A position as the bounds of a page read. *)
Definition bounds (boundary : option RunKey) : option (option Z) * option string :=
  match boundary with
  | Some (None, id) => (Some None, Some id)
  | Some (Some at_, id) => (Some (Some (whole_second at_)), if at_ mod 1000000 =? 0 then Some id else None)
  | None => (None, None)
  end.
Definition whole (o : option Z) : Prop := match o with Some t => t mod 1000000 = 0 | None => True end.
Lemma bounds_exact boundary k : whole k.1 →
  match (bounds boundary).1, (bounds boundary).2 with
  | Some at_, Some id => key_ltb k (at_, id)
  | Some at_, None => negb (stamp_ltb at_ k.1)
  | None, _ => true
  end = below boundary k.
Proof.
  destruct boundary as [[[t|] id]|]; [|done|done]. destruct k as [[u|] i]; cbn [bounds fst snd below whole]; intros Hw.
  - unfold whole_second. destruct (Z.eqb_spec (t mod 1000000) 0) as [E|Hne].
    + replace (t / 1000000 * 1000000) with t by (rewrite (Z.div_mod t 1000000) at 1 by lia; lia). done.
    + unfold key_ltb, lex. simpl. assert (u ≠ t) by congruence. destruct (Z.ltb_spec (t / 1000000 * 1000000) u), (Z.ltb_spec u t), (Z.ltb_spec t u);
        simpl; try done; exfalso; Z.div_mod_to_equations; lia.
  - unfold whole_second. by destruct (Z.eqb_spec (t mod 1000000) 0).
Qed.
Definition summaries (t : gmap string Summary) : list (string * Summary) :=
  List.filter (λ kv, summary_matches kv.2) (newest_first su_created_at (map_to_list t)).
Lemma page_is_cut (c : nat) at_ id (t : gmap string Summary) (p : RunKey → bool) :
  (1 <= c)%nat →
  (∀ i s, t !! i = Some s → match at_, id with Some a, Some j => key_ltb (su_created_at s, i) (a, j) | Some a, None => negb (stamp_ltb a (su_created_at s))
                            | None, _ => true end = p (su_created_at s, i)) →
  list_summaries_page (Z.of_nat c) at_ id (nonempty task_class) (nonempty terminal) t = take c (List.filter (λ kv, p (summary_key kv)) (summaries t)).
Proof.
  intros Hc Hp. unfold list_summaries_page. destruct (Z.ltb_spec (Z.of_nat c) 1); [lia|]. rewrite Nat2Z.id. f_equal.
  rewrite newest_filter by apply NoDup_fst_map_to_list. unfold summaries. rewrite filter_filter. apply filter_ext_elem.
  intros [i s] Hi. unfold newest_first in Hi. rewrite sorted_by_elem, elem_of_map_to_list in Hi. cbn [fst snd]. rewrite (Hp i s Hi). unfold summary_matches, summary_key. simpl.
  by rewrite andb_assoc.
Qed.
Lemma pages_drain (c : nat) (t : gmap string Summary) fuel at_ id :
  checkpoint_pages task_class terminal (S fuel) (Z.of_nat c) at_ id t =
  drain summary_key fuel c (λ k, list_summaries_page (Z.of_nat c) (Some k.1) (Some k.2) (nonempty task_class) (nonempty terminal) t)
    (list_summaries_page (Z.of_nat c) at_ id (nonempty task_class) (nonempty terminal) t).
Proof.
  revert at_ id. induction fuel as [|fuel IH]; intros at_ id; cbn [checkpoint_pages drain].
  - set (rows := list_summaries_page _ _ _ _ _ _). replace (Z.of_nat (length rows) <? Z.of_nat c) with (length rows <? c)%nat
      by (destruct (Nat.ltb_spec (length rows) c), (Z.ltb_spec (Z.of_nat (length rows)) (Z.of_nat c)); lia || done).
    destruct (length rows <? c)%nat; [done|]. by destruct (last rows) as [[]|].
  - set (rows := list_summaries_page (Z.of_nat c) at_ id _ _ _). replace (Z.of_nat (length rows) <? Z.of_nat c) with (length rows <? c)%nat
      by (destruct (Nat.ltb_spec (length rows) c), (Z.ltb_spec (Z.of_nat (length rows)) (Z.of_nat c)); lia || done).
    destruct (length rows <? c)%nat; [done|]. destruct (last rows) as [[i s]|]; [|done]. by rewrite <- IH.
Qed.
Lemma summaries_desc t : desc summary_key (summaries t).
Proof. apply desc_filter, (newest_desc su_created_at), NoDup_fst_map_to_list. Qed.
Lemma older_below {X} (key : X → RunKey) boundary (l : list X) x :
  below boundary (key x) = true → List.filter (older key (key x)) (List.filter (λ y, below boundary (key y)) l) = List.filter (older key (key x)) l.
Proof.
  intros Hx. rewrite filter_filter. apply filter_ext_elem. intros y _. unfold older. destruct (key_ltb (key y) (key x)) eqn:E; [|done].
  simpl. destruct boundary as [b|]; [|done]. simpl in *. by apply (key_trans _ (key x)).
Qed.
Lemma checkpoint_pages_all (c : nat) boundary t :
  (1 <= c)%nat → (∀ id s, t !! id = Some s → whole (su_created_at s)) →
  checkpoint_pages task_class terminal (S (size t)) (Z.of_nat c) (bounds boundary).1 (bounds boundary).2 t =
  List.filter (λ kv, below boundary (summary_key kv)) (summaries t).
Proof.
  intros Hc Hw. rewrite pages_drain, (page_is_cut c _ _ t (below boundary) Hc) by (intros i s Hs; apply (bounds_exact boundary (su_created_at s, i)), (Hw _ _ Hs)).
  apply drain_all; [done| |apply desc_filter, summaries_desc|].
  - etransitivity; [apply filter_len|]. unfold summaries. etransitivity; [apply filter_len|]. unfold newest_first. rewrite sorted_by_perm.
    rewrite length_map_to_list. done.
  - intros [i s] [Hb _]%elem_of_lfilter. rewrite (older_below summary_key) by done. rewrite (page_is_cut c _ _ t (λ k, key_ltb k (summary_key (i, s))) Hc); [done|]. done.
Qed.
Definition whole_seconds : Prop := ∀ id s, summary_of so id = Some s → whole (su_created_at s).
Lemma checkpoint_stream_eq (c : nat) boundary : (1 <= c)%nat → whole_seconds →
  _checkpoint_stream tenant_id so task_class terminal boundary (Z.of_nat c) =
  map summary_row (List.filter (λ kv, negb (in_records tenant_id so kv.1))
    (List.filter (λ kv, below boundary (summary_key kv)) (summaries (default ∅ (so_checkpoints so))))).
Proof.
  intros Hc Hw. unfold _checkpoint_stream, whole_seconds, summary_of in *. destruct (so_checkpoints so) as [t|]; [|done]. simpl default.
  rewrite <- (checkpoint_pages_all c boundary t Hc) by (intros id s Hs; by apply (Hw id)). unfold bounds. by destruct boundary as [[[u|] id]|].
Qed.
Lemma checkpoint_elem (c : nat) b x : (1 <= c)%nat → whole_seconds → x ∈ _checkpoint_stream tenant_id so task_class terminal b (Z.of_nat c) ↔
  below b x.1 = true ∧ ∃ id s, summary_of so id = Some s ∧ summary_matches s = true ∧ record_of id = None ∧ x = summary_row (id, s).
Proof.
  intros Hc Hw. rewrite checkpoint_stream_eq by done. rewrite list_elem_of_fmap.
  assert (∀ id s, (id, s) ∈ summaries (default ∅ (so_checkpoints so)) ↔ summary_of so id = Some s ∧ summary_matches s = true) as Hs.
  { intros id s. unfold summaries. rewrite elem_of_lfilter. unfold newest_first. rewrite sorted_by_elem, elem_of_map_to_list.
    unfold summary_of. destruct (so_checkpoints so); simpl; [naive_solver|]. rewrite lookup_empty. naive_solver. }
  assert (∀ id, negb (in_records tenant_id so id) = true ↔ record_of id = None) as Hr.
  { intros id. rewrite negb_true_iff, <- not_true_iff_false, (in_records_spec id), <- eq_None_not_Some. done. }
  split.
  - intros ([id s] & -> & [Hi [Hb Hm]%elem_of_lfilter]%elem_of_lfilter). apply Hs in Hm as [??]. apply Hr in Hi. split; [done|]. eauto 10.
  - intros (Hb & id & s & H1 & H2 & H3 & ->). exists (id, s). split; [done|]. apply elem_of_lfilter. split; [by apply Hr|].
    apply elem_of_lfilter. split; [done|]. by apply Hs.
Qed.
Lemma checkpoint_desc (c : nat) b : (1 <= c)%nat → whole_seconds → keyed_desc (_checkpoint_stream tenant_id so task_class terminal b (Z.of_nat c)).
Proof.
  intros Hc Hw. rewrite checkpoint_stream_eq by done. apply (desc_map summary_key); [done|]. by do 2 apply desc_filter; apply summaries_desc.
Qed.

(** The registry. *)
Definition registry_key (kv : string * Registered) : RunKey := (rg_created_at kv.2, kv.1).
Definition registered (t : gmap (string * string) Registered) : list (string * Registered) :=
  newest_first rg_created_at (map (λ kv, (kv.1.2, kv.2)) (List.filter (λ kv : string * string * Registered, String.eqb kv.1.1 tenant_id) (map_to_list t))).
Lemma registered_keys t : NoDup (map fst (map (λ kv, (kv.1.2, kv.2)) (List.filter (λ kv : string * string * Registered, String.eqb kv.1.1 tenant_id) (map_to_list t)))).
Proof.
  rewrite List.map_map. simpl. pose proof (NoDup_fst_map_to_list t) as H. revert H. generalize (map_to_list t). clear.
  intros l. induction l as [|[[u i] q] l IH]; intros Hd; [constructor|]. apply NoDup_cons in Hd as [Hk Hd]. cbn [List.filter fst].
  destruct (String.eqb_spec u tenant_id) as [->|]; [|by apply IH]. cbn [map fst snd]. apply NoDup_cons. split; [|by apply IH].
  intros ([[u2 i2] q2] & E & [Hu Hi]%elem_of_lfilter)%list_elem_of_fmap. simpl in *. subst i2. apply String.eqb_eq in Hu as ->.
  apply Hk. apply list_elem_of_fmap. by exists (tenant_id, i, q2).
Qed.
Lemma registered_elem t id r : (id, r) ∈ registered t ↔ t !! (tenant_id, id) = Some r.
Proof.
  unfold registered, newest_first. rewrite sorted_by_elem, list_elem_of_fmap. split.
  - intros ([[u i] q] & [= -> ->] & [Hu Hi%elem_of_map_to_list]%elem_of_lfilter). simpl in Hu. by apply String.eqb_eq in Hu as ->.
  - intros H. exists (tenant_id, id, r). split; [done|]. apply elem_of_lfilter. split; [apply String.eqb_refl|by apply elem_of_map_to_list].
Qed.
Lemma registered_desc t : desc registry_key (registered t).
Proof. apply (newest_desc rg_created_at), registered_keys. Qed.
Definition above (floor : option RunKey) (k : RunKey) : bool := match floor with Some f => key_ltb f k | None => true end.
Lemma list_page_cut (c : nat) (b f : option RunKey) t :
  list_page (Z.of_nat c) tenant_id (fst <$> b) (snd <$> b) (fst <$> f) (snd <$> f) t =
  take c (List.filter (λ kv, below b (registry_key kv) && above f (registry_key kv)) (registered t)).
Proof.
  unfold list_page. rewrite Nat2Z.id. f_equal. unfold registered. rewrite <- newest_filter by apply registered_keys. f_equal.
  induction (map_to_list t) as [|[[u i] q] l IH]; [done|]. cbn [List.filter fst snd]. destruct (String.eqb u tenant_id); cbn [map List.filter fst snd andb]; [|done].
  assert (∀ (o : option RunKey), o = match fst <$> o, snd <$> o with Some a, Some j => Some (a, j) | _, _ => None end) as Ho by by intros [[]|].
  replace (match fst <$> b, snd <$> b with Some at_, Some id => key_ltb (rg_created_at q, i) (at_, id) | _, _ => true end) with (below b (registry_key (i, q))) by by destruct b as [[]|].
  replace (match fst <$> f, snd <$> f with Some at_, Some id => key_ltb (at_, id) (rg_created_at q, i) | _, _ => true end) with (above f (registry_key (i, q))) by by destruct f as [[]|].
  destruct (below b _ && above f _); cbn [map]; by rewrite IH.
Qed.
Lemma registry_drain (c : nat) (t : gmap (string * string) Registered) fuel at_ id f :
  registry_pages tenant_id (S fuel) (Z.of_nat c) at_ id (fst <$> f) (snd <$> f) t =
  drain registry_key fuel c (λ k, list_page (Z.of_nat c) tenant_id (fst <$> Some k) (snd <$> Some k) (fst <$> f) (snd <$> f) t)
    (list_page (Z.of_nat c) tenant_id at_ id (fst <$> f) (snd <$> f) t).
Proof.
  revert at_ id. induction fuel as [|fuel IH]; intros at_ id; cbn [registry_pages drain].
  - set (rows := list_page _ _ _ _ _ _ _). replace (Z.of_nat (length rows) <? Z.of_nat c) with (length rows <? c)%nat
      by (destruct (Nat.ltb_spec (length rows) c), (Z.ltb_spec (Z.of_nat (length rows)) (Z.of_nat c)); lia || done).
    destruct (length rows <? c)%nat; [done|]. by destruct (last rows) as [[]|].
  - set (rows := list_page (Z.of_nat c) _ at_ id _ _ _). replace (Z.of_nat (length rows) <? Z.of_nat c) with (length rows <? c)%nat
      by (destruct (Nat.ltb_spec (length rows) c), (Z.ltb_spec (Z.of_nat (length rows)) (Z.of_nat c)); lia || done).
    destruct (length rows <? c)%nat; [done|]. destruct (last rows) as [[i s]|]; [|done]. by rewrite <- IH.
Qed.
Lemma registry_pages_all (c : nat) (b f : option RunKey) t : (1 <= c)%nat →
  registry_pages tenant_id (S (size t)) (Z.of_nat c) (fst <$> b) (snd <$> b) (fst <$> f) (snd <$> f) t =
  List.filter (λ kv, below b (registry_key kv) && above f (registry_key kv)) (registered t).
Proof.
  intros Hc. rewrite registry_drain, list_page_cut. apply drain_all; [done| |apply desc_filter, registered_desc|].
  - etransitivity; [apply filter_len|]. unfold registered, newest_first. rewrite sorted_by_perm, length_map.
    etransitivity; [apply filter_len|]. by rewrite length_map_to_list.
  - intros [i r] [[Hb Hf]%andb_true_iff _]%elem_of_lfilter. rewrite list_page_cut. f_equal. rewrite filter_filter. apply filter_ext_elem. intros y _.
    unfold older. cbn [below]. destruct (key_ltb (registry_key y) (registry_key (i, r))) eqn:E; [|done]. cbn [andb].
    destruct b as [k|]; [|done]. cbn [below] in *. by rewrite (key_trans _ _ _ E Hb).
Qed.

(** *** The reference page *)

(** The one row of a run: its record in memory, else its checkpoint summary,
    else - when nothing is filtered - its reservation. *)
Definition row_of (id : string) : option Keyed :=
  match record_of id with
  | Some r => if record_matches task_class terminal r then Some (memory_row tenant_id so (id, r)) else None
  | None =>
      match summary_of so id with
      | Some s => if summary_matches s then Some (summary_row (id, s)) else None
      | None =>
          match registered_of tenant_id so id with
          | Some r => if bool_decide (nonempty task_class = None) && bool_decide (nonempty terminal = None) then Some (registry_row (id, r)) else None
          | None => None
          end
      end
  end.
Definition all_ids : gset string :=
  list_to_set (map fst (records tenant_id so)) ∪ dom (default ∅ (so_checkpoints so)) ∪
  list_to_set (map fst (registered (default ∅ (so_registry so)))).
(** All of them, newest first. *)
Definition listing : list Keyed := sorted_by desc_by_key (omap row_of (elements all_ids)).

Lemma row_key id x : row_of id = Some x → x.1.2 = id.
Proof.
  unfold row_of. destruct (record_of id); [destruct (record_matches _ _ _); [by intros [= <-]|done]|].
  destruct (summary_of so id); [destruct (summary_matches _); [by intros [= <-]|done]|].
  destruct (registered_of tenant_id so id); [destruct (_ && _); [by intros [= <-]|done]|done].
Qed.
Lemma listing_elem x : x ∈ listing ↔ row_of x.1.2 = Some x.
Proof.
  unfold listing. rewrite sorted_by_elem, list_elem_of_omap. split.
  - intros (id & _ & H). by rewrite (row_key _ _ H).
  - intros H. exists x.1.2. split; [|done]. apply elem_of_elements. unfold all_ids. rewrite !elem_of_union, !elem_of_list_to_set, elem_of_dom.
    unfold row_of in H. destruct (record_of x.1.2) as [r|] eqn:Er; [do 2 left; apply list_elem_of_fmap; exists (x.1.2, r); by rewrite records_elem|].
    unfold summary_of in H. destruct (t ← so_checkpoints so; t !! x.1.2) as [s|] eqn:Es.
    + left. right. destruct (so_checkpoints so); [|done]. simpl in *. eauto.
    + unfold registered_of in H. destruct (t ← so_registry so; t !! (tenant_id, x.1.2)) as [r|] eqn:Eg; [|done]. right.
      apply list_elem_of_fmap. exists (x.1.2, r). split; [done|]. apply registered_elem. by destruct (so_registry so).
Qed.
Lemma listing_desc : keyed_desc listing.
Proof.
  unfold listing. apply (desc_sorted fst); [done|]. pose proof (NoDup_elements all_ids) as H. revert H. generalize (elements all_ids).
  intros l. induction l as [|id l IH]; intros Hd; [constructor|]. apply NoDup_cons in Hd as [Hi Hd]. cbn [omap list_omap].
  destruct (row_of id) as [x|] eqn:E; [|by apply IH]. cbn [map]. apply NoDup_cons. split; [|by apply IH].
  intros (y & Ey & (j & Hj & Ej)%list_elem_of_omap)%list_elem_of_fmap. apply row_key in E, Ej. apply Hi. replace id with j; [done|]. rewrite <- E, <- Ej. by rewrite Ey.
Qed.
Lemma registry_elem (c : nat) b f x : (1 <= c)%nat → x ∈ _registry_stream tenant_id so task_class terminal b f (Z.of_nat c) ↔
  (below b x.1 = true ∧ above f x.1 = true) ∧ record_of x.1.2 = None ∧ summary_of so x.1.2 = None ∧ row_of x.1.2 = Some x.
Proof.
  intros Hc. unfold _registry_stream, row_of.
  assert (∀ id, negb (in_records tenant_id so id || bool_decide (is_Some (summary_of so id))) = true ↔ record_of id = None ∧ summary_of so id = None) as Hr.
  { intros id. rewrite negb_true_iff, orb_false_iff, bool_decide_eq_false, <- (not_true_iff_false (in_records _ _ _)), in_records_spec, <- !eq_None_not_Some. done. }
  assert (∀ id, registered_of tenant_id so id = default ∅ (so_registry so) !! (tenant_id, id)) as Hg.
  { intros id. unfold registered_of. by destruct (so_registry so). }
  destruct (so_registry so) as [t|] eqn:Et.
  2: { split; [by intros []%elem_of_nil|]. intros (_ & -> & -> & H). rewrite Hg in H. simpl in H. by rewrite lookup_empty in H. }
  simpl default in Hg. do 2 case_bool_decide; cbn [negb orb andb].
  2-4: (split; [by intros []%elem_of_nil|]; intros (_ & E1 & E2 & E3); rewrite E1, E2 in E3; by destruct (registered_of tenant_id so _)).
  rewrite list_elem_of_fmap, registry_pages_all by done. split.
  - intros ([id r] & -> & [Hi%Hr [Hb Hm%registered_elem]%elem_of_lfilter]%elem_of_lfilter). apply andb_true_iff in Hb as [Hb Hf]. simpl in Hi |- *. destruct Hi as [-> ->].
    rewrite Hg, Hm. done.
  - intros ([Hb Hf] & H1 & H2 & H3). rewrite H1, H2, Hg in H3. destruct (t !! (tenant_id, x.1.2)) as [r|] eqn:E; [|done]. injection H3 as H3.
    exists (x.1.2, r). split; [done|]. apply elem_of_lfilter. split; [by apply Hr|]. apply elem_of_lfilter. rewrite <- H3 in Hb, Hf. split; [by apply andb_true_iff|by apply registered_elem].
Qed.
Lemma registry_floor (c : nat) b f : (1 <= c)%nat →
  _registry_stream tenant_id so task_class terminal b f (Z.of_nat c) =
  List.filter (λ y, above f y.1) (_registry_stream tenant_id so task_class terminal b None (Z.of_nat c)) ∧
  keyed_desc (_registry_stream tenant_id so task_class terminal b None (Z.of_nat c)).
Proof.
  intros Hc. assert (∀ f, keyed_desc (_registry_stream tenant_id so task_class terminal b f (Z.of_nat c))) as Hd.
  { intros g. unfold _registry_stream. destruct (so_registry so) as [t|]; [|constructor]. destruct (_ || _); [constructor|].
    apply (desc_map registry_key); [done|]. rewrite registry_pages_all by done. by do 2 apply desc_filter; apply registered_desc. }
  split; [|done]. apply (desc_unique fst); [done|by apply desc_filter|]. intros x. rewrite elem_of_lfilter, !registry_elem by done. simpl. tauto.
Qed.

(** A page of the run list - three sources, each read in chunks, the registry
    only down to the page's last row, records in memory overriding - is
    exactly the reference: the runs below the cursor's position, one row each,
    newest first, cut after one more than the limit. *)
Lemma page_exact limit boundary :
  whole_seconds →
  page_rows tenant_id so task_class terminal limit boundary = take (S limit) (List.filter (λ x, below boundary x.1) listing).
Proof.
  intros Hw. unfold page_rows. cbv zeta. set (A := heap_merge _ (_checkpoint_stream _ _ _ _ _ _)).
  destruct (registry_floor (S limit) boundary (fst <$> take (S limit) A !! limit) ltac:(lia)) as [-> Hd].
  set (C := _registry_stream _ _ _ _ boundary None _) in *.
  assert (∀ x, x ∈ A ↔ below boundary x.1 = true ∧ row_of x.1.2 = Some x ∧ (is_Some (record_of x.1.2) ∨ is_Some (summary_of so x.1.2))) as HA.
  { intros x. unfold A. rewrite heap_merge_elem, memory_elem, checkpoint_elem by (done || lia). unfold row_of. split.
    - intros [(Hb & id & r & Hr & Hm & ->)|(Hb & id & s & Hs & Hm & Hr & ->)]; simpl; rewrite Hr; [rewrite Hm; eauto 6|rewrite Hs, Hm; eauto 6].
    - intros (Hb & Hx & Hs). destruct (record_of x.1.2) as [r|] eqn:Er.
      + left. split; [done|]. exists x.1.2, r. destruct (record_matches _ _ _); [|done]. by injection Hx as <-.
      + right. split; [done|]. destruct Hs as [[? ?]|[s Es]]; [done|]. rewrite Es in Hx. exists x.1.2, s. destruct (summary_matches s); [|done]. injection Hx as <-. done. }
  apply merge_page; [|done|apply desc_filter, listing_desc| |].
  - unfold A. apply heap_merge_desc; [apply memory_desc|apply checkpoint_desc; [lia|done]|].
    intros x y (_ & id & r & Hr & _ & ->)%memory_elem (_ & j & s & _ & _ & Hj & ->)%checkpoint_elem; [|lia|done]. simpl. intros [= E1 E2]. congruence.
  - intros x y (_ & _ & Hx)%HA (_ & Hr & Hs & _)%registry_elem E; [|lia]. rewrite E, Hr, Hs in Hx. by destruct Hx as [[]|[]].
  - intros x. rewrite elem_of_lfilter, listing_elem, HA. unfold C. rewrite registry_elem by lia. simpl.
    destruct (record_of x.1.2), (summary_of so x.1.2); naive_solver.
Qed.
End Streams.

(** *** The cursor *)

Section Codec.
Context `{CC : CursorCodec}.

(** A cursor that is accepted is the one text of its payload: its length is
    bounded, its keys are the two of a position, and encoding what it decodes
    to gives it back - so no two cursors stand for the same payload. *)
Theorem decode_canonical cursor o :
  decode_cursor cursor = Ok o →
  encode_cursor o = cursor ∧ (1 <= String.length cursor <= MAX_CURSOR_CHARS)%nat ∧ same_keys o = true ∧ forallb (λ kv, null_or_str kv.2) o = true.
Proof.
  unfold decode_cursor. destruct (String.eqb_spec cursor "") as [|Hne]; [done|]. cbn [orb].
  destruct (Nat.ltb_spec MAX_CURSOR_CHARS (String.length cursor)) as [|Hl]; [done|].
  destruct (_ ≫= _) as [[| | | | | |p]|]; try done. destruct (same_keys p) eqn:Ek; [|done]. destruct (forallb _ p) eqn:Ef; [|done]. cbn [negb orb].
  destruct (String.eqb_spec (encode_cursor p) cursor) as [E|]; [|done]. cbn [negb]. intros [= <-].
  repeat split; try done. destruct cursor; [done|]. simpl. lia.
Qed.

(** What JSON, base64 and ISO dates promise. *)
Record codec_laws : Prop := {
  cl_json : ∀ at_ id, null_or_str at_ = true →
    let o := JObj [("created_at", at_); ("run_id", JStr id)] in json_loads (json_dumps o) = Some o;
  cl_base64 : ∀ s, b64decode (b64encode s) = Some s;
  cl_iso : ∀ t, fromisoformat (isoformat t) = Some (t, true)
}.
(** A position whose cursor is within the limits. *)
Definition fits (k : RunKey) : Prop :=
  k.2 ≠ "" ∧ (String.length k.2 <= MAX_RUN_ID_CHARS)%nat ∧ encode_run_cursor k ≠ "" ∧ (String.length (encode_run_cursor k) <= MAX_CURSOR_CHARS)%nat.

Lemma cursor_reads_back k : codec_laws → fits k → decode_run_cursor (encode_run_cursor k) = Ok k.
Proof.
  intros HL (Hi & Hl & Hn & Hm). unfold decode_run_cursor, decode_cursor. apply String.eqb_neq in Hn, Hi. apply Nat.ltb_ge in Hm, Hl. rewrite Hn, Hm. cbn [orb].
  unfold encode_run_cursor. set (o := [_; _]). unfold encode_cursor at 1. rewrite (cl_base64 HL). cbn [mbind option_bind].
  assert (json_loads (json_dumps (JObj o)) = Some (JObj o)) as -> by (apply (cl_json HL); by destruct k.1).
  replace (same_keys o) with true by by destruct k as [[]]. replace (forallb _ o) with true by by destruct k as [[]]. cbn [negb orb].
  rewrite String.eqb_refl. cbn [negb].
  cbn [mbind result_bind].
  destruct k as [[t|] id]; cbn [fst snd] in *; subst o; cbn [obj_get fst snd String.eqb]; simpl; rewrite Hi, Hl; cbn [orb]; [|done]. by rewrite (cl_iso HL).
Qed.

(** The cursor of a position reads back as the position. *)
Theorem run_cursor_roundtrip k : codec_laws → fits k → decode_run_cursor (encode_run_cursor k) = Ok k.
Proof. apply cursor_reads_back. Qed.
End Codec.

(** *** Walking the list *)

Section Walk.
Context `{CC : CursorCodec} (tenant_id : string) (so : Sources) (task_class terminal : option string).
Notation page := (list_run_page tenant_id so task_class terminal).
Notation all := (listing tenant_id so task_class terminal).
(** The position a cursor argument stands for. *)
Definition boundary_of (cursor : option string) (b : option RunKey) : Prop :=
  match nonempty cursor with Some c => ∃ k, decode_run_cursor c = Ok k ∧ b = Some k | None => b = None end.
Lemma list_run_page_rows limit cursor b : 1 <= limit → whole_seconds so → boundary_of cursor b →
  let rows := List.filter (λ x, below b x.1) all in
  page limit cursor = Ok (map snd (take (Z.to_nat limit) rows),
    if (Z.to_nat limit <? length rows)%nat then encode_run_cursor ∘ fst <$> rows !! (Z.to_nat limit - 1)%nat else None).
Proof.
  intros Hl Hw Hb rows. unfold list_run_page. destruct (Z.ltb_spec limit 1); [lia|].
  assert ((match nonempty cursor with Some c => Some <$> decode_run_cursor c | None => Ok None end) = Ok b) as ->.
  { unfold boundary_of in Hb. destruct (nonempty cursor) as [c|]; [|by subst]. by destruct Hb as (k & -> & ->). }
  cbn [mbind result_bind]. cbv zeta. rewrite page_exact by done. fold rows. rewrite take_take, Nat.min_l by lia. do 3 f_equal.
  rewrite length_take. destruct (Nat.ltb_spec (Z.to_nat limit) (length rows)), (Nat.ltb_spec (Z.to_nat limit) (S (Z.to_nat limit) `min` length rows)); try lia; [|done].
  f_equal. apply lookup_take_lt. lia.
Qed.

(** The page a request gets: the error of a limit below one, the error of the
    cursor, or the reference page after the cursor's position, with the cursor
    of its last row exactly when there is more. *)
Theorem list_run_page_exact limit cursor :
  whole_seconds so →
  page limit cursor =
    (if limit <? 1 then Err ValueError
     else match nonempty cursor with
          | Some c => Some <$> decode_run_cursor c
          | None => Ok None
          end ≫= λ b,
          let rows := List.filter (λ x, below b x.1) all in
          let n := Z.to_nat limit in
          Ok (map snd (take n rows), if (n <? length rows)%nat then encode_run_cursor ∘ fst <$> rows !! (n - 1)%nat else None)).
Proof.
  intros Hw. destruct (Z.ltb_spec limit 1) as [Hl|Hl]; [unfold list_run_page; by apply Z.ltb_lt in Hl as ->|].
  assert (∀ b, boundary_of cursor b → page limit cursor = _) as H by (intros b; by apply list_run_page_rows). unfold boundary_of in H.
  unfold list_run_page in *. apply Z.ltb_ge in Hl. rewrite Hl in *. destruct (nonempty cursor) as [c|]; [|by apply H].
  destruct (decode_run_cursor c) as [k|e]; [|done]. cbn [fmap result_fmap] in *. cbn [mbind result_bind] in *. apply H. eauto.
Qed.

End Walk.

(** A client that asks for page after page, each read from what the databases
    hold when it is asked for ([sos i] at the [i]-th): the rows, and the cursor
    left when it stops after [fuel] requests. *)
Section Pages.
Context `{CC : CursorCodec} (tenant_id : string) (sos : nat → Sources) (task_class terminal : option string).
Notation page i := (list_run_page tenant_id (sos i) task_class terminal).
Notation rows_of i := (listing tenant_id (sos i) task_class terminal).
Fixpoint walk (fuel i : nat) (limit : Z) (cursor : option string) : result (list Row * option string) :=
  match fuel with
  | O => Ok ([], cursor)
  | S fuel' =>
      got ← page i limit cursor;
      match got.2 with
      | None => Ok (got.1, None)
      | Some c => rest ← walk fuel' (S i) limit (Some c); Ok (got.1 ++ rest.1, rest.2)
      end
  end.
(** What the theorems ask of the pages: the codec's laws, checkpoint dates in
    whole seconds, and positions whose cursors are within the limits. *)
Definition readable : Prop := codec_laws ∧ ∀ i, whole_seconds (sos i) ∧ ∀ x, x ∈ rows_of i → fits x.1.

(** One page: its rows, and either nothing is left or the next boundary is
    the last row's position. *)
Lemma page_step limit i cursor b : readable → 1 <= limit → boundary_of cursor b →
  let F := List.filter (λ x, below b x.1) (rows_of i) in let n := Z.to_nat limit in
  (page i limit cursor = Ok (map snd F, None) ∧ (length F <= n)%nat) ∨
  (∃ x, x ∈ rows_of i ∧ below b x.1 = true ∧ last (take n F) = Some x ∧ page i limit cursor = Ok (map snd (take n F), Some (encode_run_cursor x.1)) ∧
    boundary_of (Some (encode_run_cursor x.1)) (Some x.1) ∧ List.filter (λ y, below (Some x.1) y.1) (rows_of i) = drop n F ∧ (n < length F)%nat).
Proof.
  intros [HL HP] Hl Hb F n. destruct (HP i) as [Hw Hf]. rewrite (list_run_page_rows tenant_id (sos i) task_class terminal limit cursor b Hl Hw Hb). fold F n.
  destruct (Nat.ltb_spec n (length F)) as [Hn|Hn]; [right|left; by rewrite take_ge].
  destruct (lookup_lt_is_Some_2 F (n - 1)) as [x Ex]; [lia|]. rewrite Ex. cbn [fmap option_fmap option_map compose]. exists x.
  assert (x ∈ rows_of i ∧ below b x.1 = true) as [Hx Hbx] by (apply list_elem_of_lookup_2 in Ex; apply elem_of_lfilter in Ex; tauto).
  assert (last (take n F) = Some x) as Hlast.
  { rewrite last_lookup, length_take. rewrite lookup_take_lt by lia. by replace (pred _) with (n - 1)%nat by lia. }
  split; [done|]. split; [done|]. split; [done|]. split; [done|]. split; [|split; [|done]].
  - unfold boundary_of, nonempty. destruct (Hf x Hx) as (_ & _ & Hne & _). apply String.eqb_neq in Hne. rewrite Hne. exists x.1. split; [|done]. by apply cursor_reads_back, Hf.
  - transitivity (List.filter (older fst x.1) (rows_of i)); [done|]. rewrite <- (older_below fst b) by done. by apply (older_than_last fst); [apply desc_filter, listing_desc|].
Qed.
Lemma walk_from limit so : readable → (∀ i, sos i = so) → 1 <= limit → ∀ fuel i cursor b, boundary_of cursor b →
  let F := List.filter (λ x, below b x.1) (listing tenant_id so task_class terminal) in (length F < fuel)%nat → walk fuel i limit cursor = Ok (map snd F, None).
Proof.
  intros Hr Hso Hl fuel. induction fuel as [|fuel IH]; intros i cursor b Hb F Hlen; [lia|]. cbn [walk].
  destruct (page_step limit i cursor b Hr Hl Hb) as [[-> _]|(x & _ & _ & _ & -> & Hb' & E & Hn)]; cbn [mbind result_bind fst snd]; rewrite Hso in *; [done|].
  fold F in E, Hn |- *. rewrite (IH (S i) _ _ Hb') by (rewrite E, length_drop; lia). cbn [mbind result_bind fst snd]. rewrite E, <- map_app. by rewrite take_drop.
Qed.
(** A walk that ended, whatever the sources did: its rows go down strictly,
    each from a page's sources, and a run that kept its position is among
    them. *)
Definition found_by (b : option RunKey) (l : list Keyed) : Prop :=
  keyed_desc l ∧ (∀ x, x ∈ l → below b x.1 = true ∧ ∃ i, row_of tenant_id (sos i) task_class terminal x.1.2 = Some x) ∧
  ∀ k, below b k = true → (∀ i, ∃ r, row_of tenant_id (sos i) task_class terminal k.2 = Some (k, r)) → ∃ r, (k, r) ∈ l.
Lemma last_page_found i b : found_by b (List.filter (λ x, below b x.1) (rows_of i)).
Proof.
  split; [apply desc_filter, listing_desc|]. split.
  - intros x [Hbx Hx]%elem_of_lfilter. split; [done|]. exists i. by apply listing_elem.
  - intros k Hk Hx. destruct (Hx i) as [r Hr]. exists r. apply elem_of_lfilter. split; [done|]. by apply listing_elem.
Qed.
Lemma page_found i b n x l : let F := List.filter (λ x, below b x.1) (rows_of i) in
  below b x.1 = true → last (take n F) = Some x → List.filter (λ y, below (Some x.1) y.1) (rows_of i) = drop n F →
  found_by (Some x.1) l → found_by b (take n F ++ l).
Proof.
  intros F Hbx [l0 El]%last_Some E (Hd & Hin & Hall). pose proof (desc_filter fst (λ x, below b x.1) _ (listing_desc tenant_id (sos i) task_class terminal)) as HF.
  change (keyed_desc F) in HF. rewrite <- (take_drop n F) in HF. apply desc_app in HF as (Ht & _ & _).
  assert (∀ y, y ∈ take n F → y = x ∨ newer fst y x) as Hlast.
  { rewrite El in Ht |- *. apply desc_app in Ht as (_ & _ & Ht). intros y [Hy| ->%list_elem_of_singleton]%elem_of_app; [right|by left]. apply Ht; [done|]. by apply list_elem_of_singleton. }
  assert (∀ y, y ∈ take n F → y ∈ F) as Htake by (intros y Hy; rewrite <- (take_drop n F); apply elem_of_app; by left).
  split; [|split].
  - apply desc_app. split; [done|]. split; [done|]. intros y z Hy Hz. apply Hin in Hz as [Hz _]. unfold newer in *.
    destruct (Hlast y Hy) as [->|Hyx]; [exact Hz|]. by apply (key_trans _ x.1).
  - intros y [Hy|Hy]%elem_of_app.
    + apply Htake, elem_of_lfilter in Hy as [Hby Hy]. split; [done|]. exists i. by apply listing_elem.
    + apply Hin in Hy as [Hy Hr]. split; [|done]. destruct b as [k|]; [|done]. simpl in *. by apply (key_trans _ x.1).
  - intros k Hbk Hk. destruct (below (Some x.1) k) eqn:Ek; [destruct (Hall k Ek Hk) as [r Hr]; exists r; apply elem_of_app; by right|].
    destruct (Hk i) as [r Hr]. exists r. apply elem_of_app. left.
    assert ((k, r) ∈ F) as HyF by (apply elem_of_lfilter; split; [done|by apply listing_elem]). rewrite <- (take_drop n F) in HyF. apply elem_of_app in HyF as [?|Hd']; [done|].
    rewrite <- E in Hd'. apply elem_of_lfilter in Hd' as [Hd' _]. simpl in Hd', Ek. congruence.
Qed.
Lemma walk_found limit : readable → 1 <= limit → ∀ fuel i cursor b rows, boundary_of cursor b → fuel ≠ O ∨ cursor ≠ None →
  walk fuel i limit cursor = Ok (rows, None) → ∃ l, rows = map snd l ∧ found_by b l.
Proof.
  intros Hr Hl fuel. induction fuel as [|fuel IH]; intros i cursor b rows Hb Hne; cbn [walk]; [intros [= _ ->]; by destruct Hne|].
  destruct (page_step limit i cursor b Hr Hl Hb) as [[-> _]|(x & _ & Hbx & Hlast & -> & Hb' & E & _)]; cbn [mbind result_bind fst snd].
  - intros [= <-]. eexists. split; [reflexivity|]. apply last_page_found.
  - destruct (walk fuel (S i) limit _) as [[rest c]|] eqn:Ew; [|done]. cbn [mbind result_bind fst snd]. intros [= <- ->].
    destruct (IH (S i) _ _ rest Hb' ltac:(by right) Ew) as (l & -> & Hf). eexists (_ ++ l). split; [by rewrite map_app|]. by apply page_found with (x := x).
Qed.
Lemma keys_nodup (l : list Keyed) : keyed_desc l → NoDup (map fst l).
Proof.
  induction 1 as [|x l Hd IH Hx]; [constructor|]. cbn [map]. apply NoDup_cons. split; [|done].
  intros (y & Ey & Hy)%list_elem_of_fmap. rewrite Forall_forall in Hx. specialize (Hx y Hy). unfold newer in Hx. rewrite Ey in Hx. by rewrite key_irrefl in Hx.
Qed.
(** C34: Following the cursors from the first page, while the databases change
    between pages: of a walk that ended, the rows go down strictly in the
    order, each is a row of some page's sources, and a run that had the same
    position at every page is listed, exactly once.  (A run whose position
    moves during the walk may come twice or not at all.)  When nothing changes the walk ends and lists exactly the tenant's matching
    runs, each once, newest first.  Checkpoint dates are in whole seconds, as
    SQLite writes them, and the positions' cursors within the limits. *)
Theorem walk_lists_all limit : readable → 1 <= limit →
  (∀ fuel rows, walk (S fuel) 0 limit None = Ok (rows, None) → ∃ l, rows = map snd l ∧ found_by None l ∧ NoDup (map fst l)) ∧
  (∀ so, (∀ i, sos i = so) → let all := listing tenant_id so task_class terminal in
    walk (S (length all)) 0 limit None = Ok (map snd all, None) ∧
    NoDup (map (snd ∘ fst) all) ∧ (∀ x, x ∈ all ↔ row_of tenant_id so task_class terminal x.1.2 = Some x)).
Proof.
  intros Hr Hl. split.
  - intros fuel rows Hw. destruct (walk_found limit Hr Hl (S fuel) 0 None None rows eq_refl ltac:(by left) Hw) as (l & -> & Hf). exists l.
    split; [done|]. split; [done|]. by apply keys_nodup, Hf.
  - intros so Hso all. split; [|split; [|apply listing_elem]].
    + assert (List.filter (λ x, below None x.1) all = all) as E by by apply (filter_all (λ x : Keyed, below None x.1)).
      pose proof (walk_from limit so Hr Hso Hl (S (length all)) 0 None None eq_refl) as Hw. cbv zeta in Hw. fold all in Hw. rewrite E in Hw. apply Hw. lia.
    + apply NoDup_fmap_2_strong; [|apply (desc_nodup fst), listing_desc].
      intros x y Hx%listing_elem Hy%listing_elem E. unfold compose in E. congruence.
Qed.
End Pages.

(** ** Witnesses *)

(** A small codec: the payload of a position as one text, each character of
    the date marked, the date in decimal. *)
Fixpoint mark_date (date id : string) : string :=
  match date with EmptyString => String "."%char id | String c date' => String "c"%char (String c (mark_date date' id)) end.
Fixpoint unmark_date (s : string) : option (string * string) :=
  match s with
  | String "."%char id => Some ("", id)
  | String _ (String c s') => '(date, id) ← unmark_date s'; Some (String c date, id)
  | _ => None
  end.
Definition toy_dumps (j : json) : string :=
  match j with
  | JObj [(_, JStr date); (_, JStr id)] => mark_date date id
  | JObj [(_, JNull); (_, JStr id)] => String "-"%char id
  | _ => ""
  end.
Definition toy_loads (s : string) : option json :=
  match s with
  | String "-"%char id => Some (JObj [("created_at", JNull); ("run_id", JStr id)])
  | _ => '(date, id) ← unmark_date s; Some (JObj [("created_at", JStr date); ("run_id", JStr id)])
  end.
Definition toy_iso (t : Z) : string := NilEmpty.string_of_int (Z.to_int t).
Definition toy_fromiso (s : string) : option (Z * bool) := d ← NilEmpty.int_of_string s; Some (Z.of_int d, true).
Definition toy_codec : CursorCodec := {|
  json_dumps := toy_dumps; json_loads := toy_loads; b64encode := id; b64decode := Some; isoformat := toy_iso; fromisoformat := toy_fromiso |}.
Lemma unmark_mark date id : unmark_date (mark_date date id) = Some (date, id).
Proof. induction date as [|c date IH]; [done|]. cbn [mark_date]. cbn. by rewrite IH. Qed.
Lemma toy_laws : @codec_laws toy_codec.
Proof.
  split.
  - intros at_ id H. destruct at_; try done. change (toy_loads (mark_date s id) = Some (JObj [("created_at", JStr s); ("run_id", JStr id)])).
    unfold toy_loads. pose proof (unmark_mark s id) as E. destruct s; rewrite E; done.
  - done.
  - intros t. cbn. unfold toy_fromiso, toy_iso. rewrite NilEmpty.isi. cbn. by rewrite of_to.
Qed.
Definition fits_b `{CC : CursorCodec} (k : RunKey) : bool :=
  negb (String.eqb k.2 "") && (String.length k.2 <=? MAX_RUN_ID_CHARS)%nat && negb (String.eqb (encode_run_cursor k) "") &&
  (String.length (encode_run_cursor k) <=? MAX_CURSOR_CHARS)%nat.
Lemma fits_b_spec `{CC : CursorCodec} k : fits_b k = true → fits k.
Proof.
  unfold fits_b, fits. rewrite !andb_true_iff, !negb_true_iff, !Nat.leb_le, !String.eqb_neq. tauto.
Qed.

Lemma run_cursor_roundtrip_witness :
  @decode_run_cursor toy_codec (@encode_run_cursor toy_codec (Some 1700000000123456, "run-7")) = Ok (Some 1700000000123456, "run-7").
Proof. apply run_cursor_roundtrip; [apply toy_laws|apply fits_b_spec; vm_compute; reflexivity]. Defined.
Lemma decode_canonical_witness :
  @encode_cursor toy_codec [("created_at", JNull); ("run_id", JStr "run-7")] = "-run-7".
Proof. apply (@decode_canonical toy_codec). vm_compute. reflexivity. Defined.

(** Three runs of a tenant: one with a checkpoint and a record in memory, one
    with a checkpoint, one only reserved; and a run of another tenant. *)
Definition ex_sources : Sources :=
  let summary at_ := mkSummary (Some "bug_fix") None (Some 1) None None (Some at_) in
  let reserved at_ := mkRegistered "accepted" "h" [] None (Some at_) (Some at_) in
  {| so_runs := <[("acme", "r1") := mkRunRecord "r1" None "bug_fix" "running" 5000000 "acme" None None (Some 2) None None false None None None None None]> ∅;
     so_checkpoints := Some (<["r1" := summary 5000000]> (<["r2" := summary 9000000]> ∅));
     so_registry := Some (<[("acme", "r1") := reserved 4999990]> (<[("acme", "r3") := reserved 7500000]> (<[("evil", "r4") := reserved 8000000]> ∅))) |}.
Lemma ex_whole : whole_seconds ex_sources.
Proof.
  intros id s H. unfold ex_sources, summary_of in H. cbn [so_checkpoints mbind option_bind] in H.
  apply lookup_insert_Some in H as [[_ <-]|[_ H]]; [done|]. apply lookup_insert_Some in H as [[_ <-]|[_ H]]; [done|]. by rewrite lookup_empty in H.
Qed.
Lemma list_run_page_exact_witness :
  (λ r, (map (λ x, match x with from_memory q _ => rr_run_id q | from_summary i _ | from_registry i _ => i end) r.1, r.2)) <$>
  @list_run_page "acme" ex_sources None None toy_codec 2 None = Ok (["r2"; "r3"], Some "c7c5c0c0c0c0c0.r3").
Proof. rewrite (@list_run_page_exact toy_codec "acme" ex_sources None None 2 None ex_whole). vm_compute. reflexivity. Defined.
Lemma ex_readable : @readable toy_codec "acme" (λ _, ex_sources) None None.
Proof.
  split; [apply toy_laws|]. intros _. split; [apply ex_whole|]. intros x Hx. apply (@fits_b_spec toy_codec). revert x Hx. apply Forall_forall. vm_compute. repeat constructor.
Qed.
Lemma walk_lists_all_witness :
  @walk toy_codec "acme" (λ _, ex_sources) None None 4 0 2 None = Ok (map snd (listing "acme" ex_sources None None), None) ∧
  length (listing "acme" ex_sources None None) = 3%nat.
Proof.
  split; [|vm_compute; reflexivity].
  exact (proj1 (proj2 (@walk_lists_all toy_codec "acme" (λ _, ex_sources) None None 2 ex_readable ltac:(lia)) ex_sources (λ _, eq_refl))).
Defined.
