(* ===== verification/Admission.v ===== *)
(** * From a request to a queued run (app/runs.py, api/quotas.py,
    runtime/workspace_lock.py, workers/run_worker.py's request codec)

    [RunService] over the stores it writes: the run queue, the tenants' daily
    counters, the run registry, the workspace locks and the records it keeps
    in memory.  Each method is a function over one [Svc] state that may raise;
    a request that waits is given the schedule of what the other threads do
    while it sleeps; up to the wait nobody comes between its steps here
    ([DayCap] takes the admission apart).  The theorems: what a create that is accepted has written
    and checked, that a run id is accepted once, what a refused create leaves
    behind, that no lock outlives a request, that queued requests read back,
    and how long a request can wait. *)
From S2P Require Import Prelude PyStr Budgets Contracts Queue Access RunListing.
From Stdlib Require Import ZArith Lia Ascii.
Open Scope Z_scope.

Definition ConfigError : exn := PyError "ConfigError".
Definition WorkspaceBusy : exn := PyError "WorkspaceBusy".
Definition InvalidIdError : exn := PyError "InvalidIdError".
Definition pick_str (o : option string) (d : string) : string := match o with Some s => if String.eqb s "" then d else s | None => d end.

(** ** ids.py *)

Definition run_id_char (c : ascii) : bool := is_alnum c || Ascii.eqb c "."%char || Ascii.eqb c "_"%char || Ascii.eqb c "-"%char.
Definition run_id_ok (s : string) : bool :=
  match s with EmptyString => false | String c s' => is_alnum c && all_chars run_id_char s' && (String.length s' <=? 127)%nat end.
Definition validate_run_id (s : string) : result string := if run_id_ok s then Ok s else Err InvalidIdError.

(** ** A queued request and its payload (workers/run_worker.py) *)

(** config.py's dataclass: nothing checks what its fields hold. *)
Record ModelConfig := mkModelConfig {
  mc_provider : json; mc_model_id : json; mc_api_key_env : json; mc_verifier_model_id : json; mc_timeout_s : json; mc_max_retries : json }.
Definition config_fields : list string := ["provider"; "model_id"; "api_key_env"; "verifier_model_id"; "timeout_s"; "max_retries"].
Definition config_dump (m : ModelConfig) : json_obj :=
  [("provider", mc_provider m); ("model_id", mc_model_id m); ("api_key_env", mc_api_key_env m);
   ("verifier_model_id", mc_verifier_model_id m); ("timeout_s", mc_timeout_s m); ("max_retries", mc_max_retries m)].
Definition config_load (o : json_obj) : result ModelConfig :=
  if negb (forallb (λ kv, bool_decide (kv.1 ∈ config_fields)) o) then Err (PyError "TypeError")
  else
    let field k d := default d (obj_get k o) in
    Ok (mkModelConfig (field "provider" (JStr "stub")) (field "model_id" (JStr "stub")) (field "api_key_env" (JStr ""))
      (field "verifier_model_id" JNull) (field "timeout_s" (JFloat (Z2f 60))) (field "max_retries" (JInt 2))).

(** The pydantic models of a request, as [model_dump(mode="json")] and
    [model_validate], and [str] of a JSON value that is no string. *)
Class RequestModels := {
  goal_dump : Goal → json_obj; goal_validate : json_obj → result Goal;
  criterion_dump : TaskCriterion → json; criterion_validate : json → result TaskCriterion;
  budget_dump : Budget → json_obj; budget_validate : json_obj → result Budget;
  str_other : json → string }.

(** A path is its text. *)
Record AsyncRunRequest := mkAsyncRunRequest {
  ar_run_id : string; ar_tenant_id : string; ar_goal : option Goal; ar_request : option string; ar_task_class : option string;
  ar_criteria : list TaskCriterion; ar_budget : Budget; ar_workdir : string; ar_script : option (list string); ar_arm : Arm;
  ar_approve_tools : bool; ar_skills_root : string; ar_facts_root : string; ar_runs_root : string; ar_index_path : string;
  ar_model_config : option ModelConfig; ar_max_criterion_timeout_s : option Z; ar_mode : string; ar_action : string }.
Definition arm_str (a : Arm) : string :=
  match a with treatment => "treatment" | control => "control" | shadow => "shadow" | practice => "practice" end.
Definition opt_json {A} (f : A → json) (o : option A) : json := match o with Some a => f a | None => JNull end.

Section Codec.
Context `{RequestModels}.
Definition dump_async_request (r : AsyncRunRequest) : json_obj :=
  [("run_id", JStr (ar_run_id r)); ("tenant_id", JStr (ar_tenant_id r)); ("goal", opt_json (JObj ∘ goal_dump) (ar_goal r));
   ("request", opt_json JStr (ar_request r)); ("task_class", opt_json JStr (ar_task_class r));
   ("criteria", JArr (map criterion_dump (ar_criteria r))); ("budget", JObj (budget_dump (ar_budget r)));
   ("workdir", JStr (ar_workdir r)); ("script", opt_json (JArr ∘ map JStr) (ar_script r)); ("arm", JStr (arm_str (ar_arm r)));
   ("approve_tools", JBool (ar_approve_tools r)); ("skills_root", JStr (ar_skills_root r)); ("facts_root", JStr (ar_facts_root r));
   ("runs_root", JStr (ar_runs_root r)); ("index_path", JStr (ar_index_path r));
   ("model_config", opt_json (JObj ∘ config_dump) (ar_model_config r));
   ("max_criterion_timeout_s", opt_json JInt (ar_max_criterion_timeout_s r)); ("mode", JStr (ar_mode r)); ("action", JStr (ar_action r))].

(** [str(payload.get(key) or d)] *)
Definition text_field (key d : string) (o : json_obj) : string :=
  match get_true key o with Some (JStr s) => s | Some v => str_other v | None => d end.
Definition str_field (key : string) (o : json_obj) : option string := match obj_get key o with Some (JStr s) => Some s | _ => None end.
Fixpoint strings_of (l : list json) : option (list string) :=
  match l with [] => Some [] | JStr s :: l' => cons s <$> strings_of l' | _ => None end.
Definition arm_of (o : json_obj) : Arm :=
  match obj_get "arm" o with
  | Some (JStr s) => if String.eqb s "control" then control else if String.eqb s "shadow" then shadow
                     else if String.eqb s "practice" then practice else treatment
  | _ => treatment
  end.
Fixpoint validate_all (l : list json) : result (list TaskCriterion) :=
  match l with [] => Ok [] | j :: l' => c ← criterion_validate j; cs ← validate_all l'; Ok (c :: cs) end.
Definition load_async_request (o : json_obj) : result AsyncRunRequest :=
  goal ← match obj_get "goal" o with Some (JObj g) => Some <$> goal_validate g | _ => Ok None end;
  criteria ← match get_true "criteria" o with
             | Some (JArr l) => validate_all l | Some (JObj p) => validate_all (map (JStr ∘ fst) p)
             | Some (JStr s) => validate_all (map (λ c, JStr (String c "")) (String.list_ascii_of_string s))
             | Some _ => Err (PyError "TypeError") | None => Ok [] end;
  budget ← match obj_get "budget" o with Some (JObj b) => budget_validate b | _ => Ok default_Budget end;
  config ← match obj_get "model_config" o with Some (JObj m) => Some <$> config_load m | _ => Ok None end;
  Ok {| ar_run_id := text_field "run_id" "" o; ar_tenant_id := text_field "tenant_id" "" o; ar_goal := goal;
        ar_request := str_field "request" o; ar_task_class := str_field "task_class" o; ar_criteria := criteria; ar_budget := budget;
        ar_workdir := text_field "workdir" "." o;
        ar_script := match obj_get "script" o with Some (JArr l) => strings_of l | _ => None end;
        ar_arm := arm_of o;
        ar_approve_tools := match get_true "approve_tools" o with Some _ => true | None => false end;
        ar_skills_root := text_field "skills_root" "skills" o; ar_facts_root := text_field "facts_root" "facts" o;
        ar_runs_root := text_field "runs_root" ".recertia/runs" o; ar_index_path := text_field "index_path" ".recertia/skill_index.db" o;
        ar_model_config := config;
        ar_max_criterion_timeout_s := match obj_get "max_criterion_timeout_s" o with
                                      | Some (JInt z) => Some z | Some (JBool b) => Some (if b then 1 else 0) | _ => None end;
        ar_mode := text_field "mode" "async" o; ar_action := text_field "action" "start" o |}.
End Codec.

(** ** The tenants' daily counters (api/quotas.py) *)

Record TenantQuota := mkTenantQuota { max_runs_per_day : Z; max_cost_usd_per_day : float; tq_max_in_flight : Z }.
Definition default_TenantQuota : TenantQuota := mkTenantQuota 100 (Z2f 50) 4.
Record Quotas := mkQuotas {
  qt_daily : gmap (string * string) (Z * float);   (* (tenant, day) -> runs, cost *)
  qt_inflight : gmap string Z }.
#[export] Instance eta_Quotas : Eta Quotas := λ q, mkQuotas (qt_daily q) (qt_inflight q).

Definition daily (t day : string) (q : Quotas) : Z * float := default (0, f0) (qt_daily q !! (t, day)).
Definition gauge (t : string) (q : Quotas) : Z := default 0 (qt_inflight q !! t).
Definition reset_inflight (q : Quotas) : Quotas := q <| qt_inflight := (λ _, 0) <$> qt_inflight q |>.
Definition quota_admit (defaults : TenantQuota) (day t : string) (quota : option TenantQuota) (inflight depth max_queue_depth max_in_flight : option Z)
    (q : Quotas) : Quotas * result unit :=
  let limits := default defaults quota in
  let '(runs, cost) := daily t day q in
  if max_runs_per_day limits <=? runs then (q, Err QuotaExceeded)
  else if max_cost_usd_per_day limits <=?. cost then (q, Err QuotaExceeded)
  else if default (tq_max_in_flight limits) max_in_flight <=? default (gauge t q) inflight then (q, Err QuotaExceeded)
  else if match depth with Some d => default 100 max_queue_depth <=? d | None => false end then (q, Err QuotaExceeded)
  else (match inflight with
        | Some _ => q
        | None => q <| qt_inflight := <[t := gauge t q + 1]> (qt_inflight q) |>
        end, Ok tt).
Definition lower_gauge (t : string) (m : gmap string Z) : gmap string Z := alter (λ n, if 0 <? n then n - 1 else 0) t m.
Definition release_inflight (t : string) (q : Quotas) : Quotas := q <| qt_inflight := lower_gauge t (qt_inflight q) |>.
Definition complete (day t : string) (cost : float) (q : Quotas) : Quotas :=
  q <| qt_daily := <[(t, day) := match qt_daily q !! (t, day) with
                                 | Some (n, c) => (n + 1, c ⊕ cost) | None => (1, cost) end]> (qt_daily q) |>
    <| qt_inflight := lower_gauge t (qt_inflight q) |>.

(** ** Workspace locks (runtime/workspace_lock.py) *)

(** This process's thread locks that are held, and the file locks with their
    holders, by lock path; other processes hold file locks too. *)
Record Locks := mkLocks { lk_threads : gset string; lk_files : gmap string string }.
#[export] Instance eta_Locks : Eta Locks := λ l, mkLocks (lk_threads l) (lk_files l).
(** [Ok handle]: the handle is the locked path. *)
Definition acquire (path owner : string) (l : Locks) : Locks * result string :=
  if decide (path ∈ lk_threads l) then (l, Err WorkspaceBusy)
  else match lk_files l !! path with
       | Some _ => (l, Err WorkspaceBusy)      (* the thread lock taken is given back *)
       | None => (mkLocks ({[path]} ∪ lk_threads l) (<[path := owner]> (lk_files l)), Ok path)
       end.
Definition release (path : string) (l : Locks) : Locks := mkLocks (lk_threads l ∖ {[path]}) (delete path (lk_files l)).

(** ** The state a service works on *)

Notation run_key := (string * string)%type.       (* (tenant, run) *)
Record Svc := mkSvc {
  sv_queue : QueueDb;                               (* control.db *)
  sv_quota : Quotas;                                (* quotas.sqlite *)
  sv_registry : gmap (string * string) Registered;  (* the tenants' runtime.db *)
  sv_checkpoints : gmap (string * string) RunRecord; (* what a load from the latest checkpoint gives *)
  sv_workdirs : gmap (string * string) (string * json_obj); (* workdir.json *)
  sv_dirs : gset string;                            (* directories that exist *)
  sv_runs : gmap (string * string) RunRecord;       (* in memory *)
  sv_locks : Locks;
  sv_events : list (string * string * string * json_obj);
  sv_cancel : gset (string * string) }.             (* the worker's cancelled runs, in memory *)
#[export] Instance eta_Svc : Eta Svc := λ w,
  mkSvc (sv_queue w) (sv_quota w) (sv_registry w) (sv_checkpoints w) (sv_workdirs w) (sv_dirs w) (sv_runs w) (sv_locks w) (sv_events w) (sv_cancel w).

Definition on_queue {A} (f : QueueDb → QueueDb * result A) : M Svc A := λ w, let '(q, r) := f (sv_queue w) in (w <| sv_queue := q |>, r).
Definition on_quota {A} (f : Quotas → Quotas * result A) : M Svc A := λ w, let '(q, r) := f (sv_quota w) in (w <| sv_quota := q |>, r).
Definition on_locks {A} (f : Locks → Locks * result A) : M Svc A := λ w, let '(q, r) := f (sv_locks w) in (w <| sv_locks := q |>, r).
Definition on_registry {A} (f : gmap (string * string) Registered → gmap (string * string) Registered * result A) : M Svc A :=
  λ w, let '(q, r) := f (sv_registry w) in (w <| sv_registry := q |>, r).
Definition update (f : Svc → Svc) : M Svc unit := λ w, (f w, Ok tt).
Definition look {A} (f : Svc → A) : M Svc A := λ w, (w, Ok (f w)).
Definition append_event (t run type : string) (payload : json_obj) : M Svc unit :=
  update (λ w, w <| sv_events := sv_events w ++ [(t, run, type, payload)] |>).
(** [try: m finally: f] *)
Definition finally {A} (m : M Svc A) (f : Svc → Svc) : M Svc A := λ w, let '(w', r) := m w in (f w', r).

(** ** The service (app/runs.py) *)

Record RunCreate := mkRunCreate {
  rc_goal : option Goal; rc_request : option string; rc_task_class : option string; rc_criteria : option (list json);
  rc_script : option (list string); rc_budget : option json_obj; rc_workdir : option string; rc_workspace_id : option string;
  rc_run_id : option string; rc_arm : Arm; rc_mode : string; rc_model : option string;
  rc_mode_set : bool (* "mode" in model_fields_set *) }.
(** api/schemas.py, [_require_goal_or_request]. *)
Definition run_create_valid (b : RunCreate) : bool :=
  negb (bool_decide (rc_goal b = None) && match rc_request b with Some s => String.eqb (strip s) "" | None => true end) &&
  bool_decide (rc_mode b ∈ ["sync"; "async"]).

(** What the host of the service supplies. *)
Class Host := {
  ho_ready : result unit;                            (* ensure_api_execution_ready *)
  ho_settings : QSettings; ho_defaults : TenantQuota; ho_default_async : bool; ho_sync_wait_s : float;
  ho_max_criterion_timeout_s : Z;
  ho_model_config : option string → result (option ModelConfig);
  ho_resolve_workdir : string → string → option string → option string → result (string * json_obj);
  ho_check_workdir : string → string → string * json_obj → result (option string);   (* of a stored workdir.json *)
  ho_canonical_workdir : string → string → string;
  ho_request_hash : json_obj → string;               (* SHA-256 of the sorted JSON *)
  ho_day : Z → string;                               (* %Y-%m-%d of an instant *)
  ho_float : string → option float;                  (* float(text) *)
  ho_root : string; ho_skills_root : string → string; ho_facts_root : string }.

Definition _WAIT_CAP_S : float := Z2f 60.
(** Python's [min(a, b)] and [max(a, b)]. *)
Definition py_min (a b : float) : float := if b <?. a then b else a.
Definition py_max (a b : float) : float := if a <?. b then b else a.
Definition resolve_task_class (explicit goal_task_class : option string) : string :=
  let named o := match o with Some s => negb (String.eqb (strip s) "") | None => false end in
  strip (default "" (if named explicit then explicit else if named goal_task_class then goal_task_class else Some "repo-chore")).
Definition principal_may_exec (p : Principal) : bool := bool_decide ("exec" ∈ pp_scopes p) || bool_decide ("admin" ∈ pp_scopes p).
Definition _clamp_criteria_for_api (cap : Z) (cs : list TaskCriterion) : list TaskCriterion :=
  map (λ c, if cap <? c_timeout_s c then c <| c_timeout_s := cap |> else c) cs.

Inductive Response :=
  | finished (rec : RunRecord)
  | accepted (run_id tenant task_class mode : string) (workspace_id : option string) (workdir : string) (retry_after : Z)
  | waiting.   (* still asleep when the schedule ends *)
(** What the other threads do while a request sleeps: the clock at each look
    and the step taken before the next, first in [queue.wait], then in the two
    seconds of polling. *)
Record Others := mkOthers { ot_now : float; ot_wait : list (float * (Svc → Svc)); ot_poll : list (Svc → Svc) }.

Section Service.
Context `{RequestModels} `{Host}.

(** [seconds] to block, or [None]. *)
Fixpoint prefer_wait (parts : list string) : option (option string) :=   (* Some None: a bare "wait" *)
  match parts with
  | [] => None
  | part :: rest =>
      let token := strip part in
      let lowered := str_lower token in
      if String.eqb lowered "wait" then Some None
      else if String.prefix "wait=" lowered then Some (Some (strip (String.substring 5 (String.length token) token)))
      else prefer_wait rest
  end.
Definition wait_text (cap : float) (raw : string) : result (option float) :=
  let text := strip raw in
  if String.eqb text "" then Ok (Some cap)
  else match ho_float text with
       | None => Err ConfigError
       | Some seconds =>
           if seconds <?. f0 then Err ConfigError
           else if feqb seconds f0 then Ok None else Ok (Some (py_min seconds cap))
       end.
Definition wait_seconds (wait x_recertia_wait prefer : option string) (mode : string) (sync_wait_s : float) : result (option float) :=
  let cap := py_max sync_wait_s f0 in
  let otherwise := if String.eqb mode "async" then Ok None else Ok (Some cap) in
  match wait, x_recertia_wait with
  | Some raw, _ | None, Some raw => wait_text cap raw
  | None, None =>
      match prefer_wait (split_char ","%char (default "" prefer)) with
      | Some None => Ok (Some cap)
      | Some (Some raw) => wait_text cap raw
      | None => otherwise
      end
  end.

Definition in_flight_cap (q : QueueDb) (t : string) : Z :=
  match tenant_limits q !! t with Some l => max_in_flight l | None => tenant_max_in_flight ho_settings end.
(** What [admit] reads of the queue, in its order, each value in a read of its
    own. *)
Record Load := mkLoad { ld_inflight : Z; ld_depth : Z; ld_depth_cap : Z; ld_in_flight_cap : Z }.
Definition queue_load (t : string) (q : QueueDb) : Load :=
  mkLoad (inflight q t) (depth q t) (depth_cap ho_settings q t) (in_flight_cap q t).
(** [quota.admit] on those values: it reads the day's counters and reserves
    nothing. *)
Definition quota_check (now : Z) (t : string) (l : Load) : M Svc unit :=
  on_quota (quota_admit ho_defaults (ho_day now) t None (Some (ld_inflight l)) (Some (ld_depth l))
    (Some (ld_depth_cap l)) (Some (ld_in_flight_cap l))).
(** [admit] with nobody in between; [DayCap] has its reads and the check as
    steps that others' come between. *)
Definition service_admit (now : Z) (t : string) : M Svc unit := λ w, quota_check now t (queue_load t (sv_queue w)) w.
Definition service_release (t : string) : M Svc unit := update (λ w, w <| sv_quota := release_inflight t (sv_quota w) |>).
Definition service_complete (now : Z) (t : string) (cost : float) : M Svc unit :=
  update (λ w, w <| sv_quota := complete (ho_day now) t cost (sv_quota w) |>).

(** A record loaded from the latest checkpoint is dated now. *)
Definition load_run (now : Z) (k : string * string) (w : Svc) : option RunRecord :=
  (λ r, r <| rr_created_at := now |>) <$> sv_checkpoints w !! k.
Definition get_run (now : Z) (k : string * string) : M Svc (option RunRecord) := λ w,
  match sv_runs w !! k with
  | Some r => (w, Ok (Some r))
  | None => match load_run now k w with
            | Some r => (w <| sv_runs := <[k := r]> (sv_runs w) |>, Ok (Some r))
            | None => (w, Ok None)
            end
  end.
Definition _require (p : Principal) (action t : string) : result unit :=
  require p action (Some (mkResource (Some t) None None)).
Definition service_get (now : Z) (p : option Principal) (t run : string) : M Svc (option RunRecord) :=
  _ ← lift (match p with Some p => _require p "runs.read" t | None => Ok tt end);
  get_run now (t, run).

Definition create_payload (b : RunCreate) (run : string) : json_obj :=
  [("run_id", JStr run); ("request", opt_json JStr (rc_request b)); ("goal", opt_json (JObj ∘ goal_dump) (rc_goal b));
   ("script", opt_json (JArr ∘ map JStr) (rc_script b)); ("task_class", opt_json JStr (rc_task_class b));
   ("workspace_id", opt_json JStr (rc_workspace_id b)); ("workdir", opt_json JStr (rc_workdir b)); ("arm", JStr (arm_str (rc_arm b)));
   ("mode", JStr (rc_mode b))].
Definition _create_request_hash (b : RunCreate) (run : string) : string := ho_request_hash (create_payload b run).
Definition _reserve_run_id (now : Z) (t run : string) (b : RunCreate) (workdir : string) : M Svc unit :=
  on_registry (reserve now t run (_create_request_hash b run)
    [("run_id", JStr run); ("status", JStr "accepted"); ("tenant_id", JStr t)] (Some workdir)).
Definition _acquire_workspace (path owner : string) : M Svc string := on_locks (acquire path owner).
Definition drop_lock (path : string) (w : Svc) : Svc := w <| sv_locks := release path (sv_locks w) |>.

(** [queue.wait]: until the row is terminal or the deadline is reached;
    [None] when the schedule ends first. *)
Definition row_done (k : string * string) (w : Svc) : option QRow :=
  r ← run_queue (sv_queue w) !! (k.1, k.2, "run"); if bool_decide (q_status r ∈ _TERMINAL) then Some r else None.
Fixpoint queue_wait (deadline : float) (k : string * string) (ticks : list (float * (Svc → Svc))) (w : Svc) : Svc * option (option QRow) :=
  match row_done k w with
  | Some r => (w, Some (Some r))
  | None => match ticks with
            | [] => (w, None)
            | (now, others) :: ticks' =>
                if deadline <=?. now then (w, Some None) else queue_wait deadline k ticks' (others w)
            end
  end.
Definition is_done (r : option RunRecord) : option RunRecord :=
  r ← r; match rr_terminal r with Some s => if String.eqb s "" then None else Some r | None => None end.
Fixpoint poll_done (now : Z) (k : string * string) (ticks : list (Svc → Svc)) : M Svc (option RunRecord) :=
  match ticks with
  | [] => mret None
  | others :: ticks' =>
      loaded ← get_run now k;
      match is_done loaded with
      | Some r => mret (Some r)
      | None =>
          disk ← look (load_run now k);
          match is_done disk with
          | Some r => _ ← update (λ w, w <| sv_runs := <[k := r]> (sv_runs w) |>); mret (Some r)
          | None => _ ← update others; poll_done now k ticks'
          end
      end
  end.

(** What [_enqueue_run] is called with. *)
Record Enqueue := mkEnqueue {
  en_goal : option Goal; en_body_task_class : option string; en_script : option (list string); en_arm : Arm; en_mode : string; en_mode_set : bool;
  en_workspace_id : option string; en_request : option string; en_task_class : string; en_criteria : list TaskCriterion; en_budget : Budget;
  en_workdir : string; en_approve_tools : bool; en_model_config : option ModelConfig; en_action : string; en_replace_terminal : bool }.
Definition queued_record (now : Z) (t run : string) (e : Enqueue) : RunRecord :=
  mkRunRecord run (en_request e) (en_task_class e) "queued" now t None None None None None (bool_decide (is_Some (en_goal e))) None
    (Some (en_mode e)) None (en_workspace_id e) (Some (en_workdir e)).
Definition async_request (t run : string) (e : Enqueue) : AsyncRunRequest :=
  mkAsyncRunRequest run t (en_goal e) (en_request e) (Some (pick_str (en_body_task_class e) (en_task_class e))) (en_criteria e) (en_budget e)
    (en_workdir e) (en_script e) (en_arm e) (en_approve_tools e) (ho_skills_root t) ho_facts_root (ho_root +:+ "/runs/" +:+ t)
    (ho_root +:+ "/runs/" +:+ t +:+ "/skill_index.db") (en_model_config e) (Some ho_max_criterion_timeout_s) (en_mode e) (en_action e).
(** composition.py, [enqueue_async_run]. *)
Definition enqueue_async_run (now : Z) (r : AsyncRunRequest) (replace_terminal : bool) : M Svc unit :=
  on_queue (enqueue ho_settings now replace_terminal
    (mkItem (ar_tenant_id r) (ar_run_id r) "run" (dump_async_request r) 0 0 None None)).
(** [_enqueue_run] before the admission: the seconds to wait for. *)
Definition call_wait (wait x_recertia_wait prefer : option string) (e : Enqueue) : result (option float) :=
  let mode := pick_str (Some (en_mode e)) "sync" in
  let wait_mode := if ho_default_async && negb (en_mode_set e) && negb (String.eqb mode "async") then "async" else mode in
  wait_seconds wait x_recertia_wait prefer wait_mode ho_sync_wait_s.
(** After it: the record, the event and the row. *)
Definition queue_part (now : Z) (t run : string) (e : Enqueue) : M Svc unit :=
  let mode := pick_str (Some (en_mode e)) "sync" in
  _ ← update (λ w, w <| sv_runs := <[(t, run) := queued_record now t run e]> (sv_runs w) |>);
  _ ← append_event t run "run.queued" [("mode", JStr mode); ("action", JStr (en_action e))];
  catch (enqueue_async_run now (async_request t run e) (en_replace_terminal e)) (λ x, _ ← service_release t; raise x).
(** Up to the wait. *)
Definition enqueue_part (now : Z) (t run : string) (wait x_recertia_wait prefer : option string) (e : Enqueue) : M Svc (option float) :=
  wait_s ← lift (call_wait wait x_recertia_wait prefer e);
  _ ← service_admit now t;
  _ ← queue_part now t run e;
  mret wait_s.
Definition await_part (now : Z) (others : Others) (t run : string) (e : Enqueue) (wait_s : option float) : M Svc Response :=
  let queued := accepted run t (en_task_class e) (pick_str (Some (en_mode e)) "sync") (en_workspace_id e) (en_workdir e)
                  (if feqb ho_sync_wait_s f0 then 30 else f2Z ho_sync_wait_s) in
  match wait_s with
  | None => mret queued
  | Some s => λ w,
      match queue_wait (ot_now others ⊕ s) (t, run) (ot_wait others) w with
      | (w', None) => (w', Ok waiting)
      | (w', Some None) => (w', Ok queued)
      | (w', Some (Some r)) =>
          if bool_decide (q_error_code r = Some "run_busy") then (w', Err RunBusy)
          else if bool_decide (q_error_code r = Some "workspace_busy") then (w', Err WorkspaceBusy)
          else (done ← poll_done now (t, run) (ot_poll others);
                mret (match done with Some rec => finished rec | None => queued end)) w'
      end
  end.
Definition _resolve_create (t run : string) (b : RunCreate) : result (string * json_obj) :=
  ho_resolve_workdir t run (rc_workdir b) (rc_workspace_id b).
Definition is_registered (meta : json_obj) : bool := bool_decide (obj_get "kind" meta = Some (JStr "registered")).
(** [create], from the workspace lock on: what is enqueued. *)
Definition prepare (p : Principal) (b : RunCreate) (t run workdir : string) (meta : json_obj) (config : option ModelConfig) : M Svc Enqueue :=
  _ ← update (λ w, w <| sv_dirs := if is_registered meta then sv_dirs w else {[workdir]} ∪ sv_dirs w |>
                     <| sv_workdirs := <[(t, run) := (workdir, meta)]> (sv_workdirs w) |>);
  let context := g ← rc_goal b; g_context g in
  let request := if String.eqb (pick_str context "") "" then rc_request b
                 else if String.eqb (pick_str (rc_request b) "") "" then context else rc_request b in
  let task_class := resolve_task_class (rc_task_class b) (g ← rc_goal b; g_task_class g) in
  criteria ← lift (validate_all (default [] (rc_criteria b)));
  budget ← lift (match rc_budget b with Some o => if is_nil o then Ok default_Budget else budget_validate o | None => Ok default_Budget end);
  mret (mkEnqueue (rc_goal b) (rc_task_class b) (rc_script b) (rc_arm b) (rc_mode b) (rc_mode_set b) (rc_workspace_id b) request task_class
    (_clamp_criteria_for_api ho_max_criterion_timeout_s criteria) budget workdir (principal_may_exec p) config "start" false).
(** Under the workspace's lock, released by the finally or just before the run
    is enqueued. *)
Definition locked_prepare (p : Principal) (b : RunCreate) (t run workdir : string) (meta : json_obj) (config : option ModelConfig) : M Svc Enqueue :=
  handle ← _acquire_workspace workdir (t +:+ "/" +:+ run);
  finally (prepare p b t run workdir meta config) (drop_lock handle).
(** Up to the reservation: the run id, its workdir and the model. *)
Definition reserve_part (now : Z) (uuid : string) (p : Principal) (b : RunCreate) : M Svc (string * string * json_obj * option ModelConfig) :=
  let t := pp_tenant p in
  _ ← lift ho_ready;
  _ ← lift (_require p "runs.create" t);
  _ ← lift (if is_nil (default [] (rc_script b)) then Ok tt else _require p "runs.script" t);
  config ← lift (ho_model_config (rc_model b));
  run ← lift (validate_run_id (pick_str (rc_run_id b) ("run-" +:+ uuid)));
  taken ← look (λ w, bool_decide (is_Some (sv_runs w !! (t, run))) || bool_decide (is_Some (sv_checkpoints w !! (t, run))));
  _ ← lift (if taken : bool then Err RunIdExists else Ok tt);
  wd ← lift (_resolve_create t run b);
  _ ← _reserve_run_id now t run b wd.1;
  mret (run, wd.1, wd.2, config).
(** [create] up to the wait. *)
Definition create_part (now : Z) (uuid : string) (p : Principal) (b : RunCreate) (wait x_recertia_wait prefer : option string)
    : M Svc (string * Enqueue * option float) :=
  got ← reserve_part now uuid p b;
  let '(run, workdir, meta, config) := got in
  e ← locked_prepare p b (pp_tenant p) run workdir meta config;
  wait_s ← enqueue_part now (pp_tenant p) run wait x_recertia_wait prefer e;
  mret (run, e, wait_s).
Definition create (now : Z) (uuid : string) (others : Others) (p : Principal) (b : RunCreate) (wait x_recertia_wait prefer : option string)
    : M Svc Response :=
  got ← create_part now uuid p b wait x_recertia_wait prefer;
  let '(run, e, wait_s) := got in await_part now others (pp_tenant p) run e wait_s.

Definition load_persisted_workdir (t run : string) (w : Svc) : result (option string) :=
  match sv_workdirs w !! (t, run) with Some wd => ho_check_workdir t run wd | None => Ok None end.
(** [resume] up to enqueuing. *)
Definition resume_prep (p : Principal) (run0 : string) : M Svc (string * Enqueue) :=
  let t := pp_tenant p in
  _ ← lift ho_ready;
  _ ← lift (_require p "runs.resume" t);
  run ← lift (validate_run_id run0);
  row ← look (λ w, run_queue (sv_queue w) !! (t, run, "run"));
  _ ← lift (match row with Some r => if bool_decide (q_status r ∈ [q_queued; q_claimed; q_running]) then Err RunBusy else Ok tt | None => Ok tt end);
  stored ← look (load_persisted_workdir t run);
  stored ← lift stored;
  let workdir := default (ho_canonical_workdir t run) stored in
  there ← look (λ w, bool_decide (workdir ∈ sv_dirs w));
  _ ← lift (if there : bool then Ok tt else Err NotFound);
  handle ← _acquire_workspace workdir (t +:+ "/" +:+ run);
  _ ← update (drop_lock handle);
  existing ← look (λ w, sv_runs w !! (t, run));
  let task_class := rr_task_class <$> existing in
  mret (run, mkEnqueue None task_class None treatment "sync" false (r ← existing; rr_workspace_id r) (r ← existing; rr_request r)
    (pick_str task_class "repo-chore") [] default_Budget workdir (principal_may_exec p) None "resume" true).
(** Up to the wait. *)
Definition resume_part (now : Z) (p : Principal) (run0 : string) : M Svc (string * Enqueue * option float) :=
  got ← resume_prep p run0;
  let '(run, e) := got in
  wait_s ← enqueue_part now (pp_tenant p) run None None None e;
  mret (run, e, wait_s).
Definition resume (now : Z) (others : Others) (p : Principal) (run0 : string) : M Svc Response :=
  got ← resume_part now p run0;
  let '(run, e, wait_s) := got in await_part now others (pp_tenant p) run e wait_s.

(** [AsyncRunWorker.request_cancel] with its queue attached. *)
Definition worker_request_cancel (t run : string) (w : Svc) : Svc :=
  w <| sv_cancel := {[(t, run)]} ∪ sv_cancel w |> <| sv_queue := request_cancel t run "run" (sv_queue w) |>.
Definition cancel (p : Principal) (run0 : string) : M Svc unit :=
  let t := pp_tenant p in
  run ← lift (validate_run_id run0);
  _ ← lift (_require p "runs.cancel" t);
  _ ← update (λ w, w <| sv_queue := request_cancel t run "run" (sv_queue w) |>);
  _ ← update (worker_request_cancel t run);
  append_event t run "run.cancelled" [("by", JStr (pp_subject p))].
End Service.

(** ** Theorems *)

(** *** Requests read back *)

Section Requests.
Context `{RequestModels}.
(** pydantic reads back what it dumped. *)
Definition models_read_back (r : AsyncRunRequest) : Prop :=
  (∀ g, ar_goal r = Some g → goal_validate (goal_dump g) = Ok g) ∧
  (∀ c, c ∈ ar_criteria r → criterion_validate (criterion_dump c) = Ok c) ∧ budget_validate (budget_dump (ar_budget r)) = Ok (ar_budget r).
Definition texts_filled (r : AsyncRunRequest) : Prop :=
  "" ∉ [ar_workdir r; ar_skills_root r; ar_facts_root r; ar_runs_root r; ar_index_path r; ar_mode r; ar_action r].

Lemma strings_of_map l : strings_of (map JStr l) = Some l.
Proof. induction l as [|s l IH]; [done|]. simpl. by rewrite IH. Qed.
Lemma validate_all_map (l : list TaskCriterion) : (∀ c, c ∈ l → criterion_validate (criterion_dump c) = Ok c) → validate_all (map criterion_dump l) = Ok l.
Proof.
  induction l as [|c l IH]; intros Hc; [done|]. simpl. rewrite Hc by left. cbn. rewrite IH; [done|]. intros d Hd. apply Hc. by right.
Qed.
Lemma config_read_back m : config_load (config_dump m) = Ok m.
Proof.
  unfold config_load. replace (forallb _ (config_dump m)) with true by (vm_compute; done). by destruct m.
Qed.
Lemma text_field_filled key d o s : obj_get key o = Some (JStr s) → text_field key d o = pick_str (Some s) d.
Proof. intros E. unfold text_field, get_true. rewrite E. cbn. by destruct (String.eqb s ""). Qed.
Lemma pick_filled s d : s ≠ "" → pick_str (Some s) d = s.
Proof. intros Hs. simpl. by apply String.eqb_neq in Hs as ->. Qed.
Lemma pick_empty s : pick_str (Some s) "" = s.
Proof. simpl. by destruct (String.eqb_spec s ""). Qed.
Lemma get_dump (r : AsyncRunRequest) :
  let o := dump_async_request r in
  obj_get "run_id" o = Some (JStr (ar_run_id r)) ∧ obj_get "tenant_id" o = Some (JStr (ar_tenant_id r)) ∧
  obj_get "goal" o = Some (opt_json (JObj ∘ goal_dump) (ar_goal r)) ∧ obj_get "request" o = Some (opt_json JStr (ar_request r)) ∧
  obj_get "task_class" o = Some (opt_json JStr (ar_task_class r)) ∧ obj_get "criteria" o = Some (JArr (map criterion_dump (ar_criteria r))) ∧
  obj_get "budget" o = Some (JObj (budget_dump (ar_budget r))) ∧ obj_get "workdir" o = Some (JStr (ar_workdir r)) ∧
  obj_get "script" o = Some (opt_json (JArr ∘ map JStr) (ar_script r)) ∧ obj_get "arm" o = Some (JStr (arm_str (ar_arm r))) ∧
  obj_get "approve_tools" o = Some (JBool (ar_approve_tools r)) ∧ obj_get "skills_root" o = Some (JStr (ar_skills_root r)) ∧
  obj_get "facts_root" o = Some (JStr (ar_facts_root r)) ∧ obj_get "runs_root" o = Some (JStr (ar_runs_root r)) ∧
  obj_get "index_path" o = Some (JStr (ar_index_path r)) ∧ obj_get "model_config" o = Some (opt_json (JObj ∘ config_dump) (ar_model_config r)) ∧
  obj_get "max_criterion_timeout_s" o = Some (opt_json JInt (ar_max_criterion_timeout_s r)) ∧ obj_get "mode" o = Some (JStr (ar_mode r)) ∧
  obj_get "action" o = Some (JStr (ar_action r)).
Proof. repeat split; reflexivity. Qed.

(** C16: A request that is queued is read back as it was: every field, its goal,
    criteria and budget through pydantic, its model configuration included. *)
Theorem async_request_round_trip r :
  models_read_back r → texts_filled r → load_async_request (dump_async_request r) = Ok r.
Proof.
  intros (Hg & Hc & Hb) Ht. destruct (get_dump r) as (E1&E2&E3&E4&E5&E6&E7&E8&E9&E10&E11&E12&E13&E14&E15&E16&E17&E18&E19).
  set (o := dump_async_request r) in *. unfold texts_filled in Ht. rewrite !not_elem_of_cons in Ht. destruct Ht as (T1&T2&T3&T4&T5&T6&T7&_).
  unfold load_async_request, str_field, get_true, arm_of.
  rewrite E3, E4, E5, E6, E7, E9, E10, E11, E16, E17, (text_field_filled _ _ _ _ E1), (text_field_filled _ _ _ _ E2), (text_field_filled _ _ _ _ E8),
    (text_field_filled _ _ _ _ E12), (text_field_filled _ _ _ _ E13), (text_field_filled _ _ _ _ E14), (text_field_filled _ _ _ _ E15),
    (text_field_filled _ _ _ _ E18), (text_field_filled _ _ _ _ E19), !pick_empty, !pick_filled by done.
  clearbody o. clear E1 E2 E3 E4 E5 E6 E7 E8 E9 E10 E11 E12 E13 E14 E15 E16 E17 E18 E19.
  assert ((match opt_json (JObj ∘ goal_dump) (ar_goal r) with JObj g => Some <$> goal_validate g | _ => Ok None end) = Ok (ar_goal r)) as ->.
  { destruct (ar_goal r) as [g|]; [|done]. cbn. by rewrite (Hg g). }
  assert ((match opt_json (JObj ∘ config_dump) (ar_model_config r) with JObj m => Some <$> config_load m | _ => Ok None end) = Ok (ar_model_config r)) as ->.
  { destruct (ar_model_config r) as [m|]; [|done]. cbn [opt_json compose]. by rewrite config_read_back. }
  assert (validate_all (map criterion_dump (ar_criteria r)) = Ok (ar_criteria r)) as Hv by by apply validate_all_map.
  cbn [mbind option_bind json_true]. destruct (is_nil (map criterion_dump (ar_criteria r))) eqn:En; cbn [negb]; rewrite ?Hv.
  1: assert (ar_criteria r = []) as Enil by by destruct (ar_criteria r).
  all: cbn [mbind result_bind]; rewrite Hb; cbn [mbind result_bind]; clear -H Enil || clear -H; try rewrite <- Enil; destruct r; cbn in *; f_equal.
  all: f_equal; try (by destruct (ar_request0)); try (by destruct (ar_task_class0)); try (by destruct (ar_max_criterion_timeout_s0));
    try (by destruct ar_arm0); try (by destruct ar_approve_tools0).
  all: destruct (ar_script0) as [l|]; [apply strings_of_map|done].
Qed.
End Requests.

(** *** What every step keeps *)

Section Keeps.
Context (R : Svc → Svc → Prop) `{!Reflexive R} `{!Transitive R}.
Definition keeps {A} (m : M Svc A) : Prop := ∀ w, R w (m w).1.
Lemma frame_ret {A} (a : A) : keeps (mret a). Proof. by intros w. Qed.
Lemma frame_lift {A} (r : result A) : keeps (lift r). Proof. by intros w. Qed.
Lemma frame_look {A} (f : Svc → A) : keeps (look f). Proof. by intros w. Qed.
Lemma frame_raise {A} e : keeps (raise e : M Svc A). Proof. by intros w. Qed.
Lemma frame_bind {A B} (m : M Svc A) (f : A → M Svc B) : keeps m → (∀ a, keeps (f a)) → keeps (m ≫= f).
Proof.
  intros Hm Hf w. specialize (Hm w). unfold mbind, M_bind. destruct (m w) as [w1 [a|e]]; simpl in *; [|done]. etransitivity; [done|apply Hf].
Qed.
Lemma frame_catch {A} (m : M Svc A) h : keeps m → (∀ e, keeps (h e)) → keeps (catch m h).
Proof. intros Hm Hh w. specialize (Hm w). unfold catch. destruct (m w) as [w1 [a|e]]; simpl in *; [done|]. etransitivity; [done|apply Hh]. Qed.
Lemma frame_finally {A} (m : M Svc A) f : keeps m → (∀ w, R w (f w)) → keeps (finally m f).
Proof. intros Hm Hf w. specialize (Hm w). unfold finally. destruct (m w) as [w1 r]. simpl in *. etransitivity; [done|apply Hf]. Qed.
Lemma frame_update f : (∀ w, R w (f w)) → keeps (update f). Proof. intros Hf w. apply Hf. Qed.
End Keeps.
Arguments keeps R {A} m.

(** A field of the state, and the relation that leaves it as it is. *)
Definition same {X} (f : Svc → X) (w w' : Svc) : Prop := f w' = f w.
#[export] Instance same_refl {X} (f : Svc → X) : Reflexive (same f). Proof. by intros w. Qed.
#[export] Instance same_trans {X} (f : Svc → X) : Transitive (same f). Proof. unfold same. by intros a b c -> ->. Qed.
(** Reservations are never taken back. *)
Definition registry_grows (w w' : Svc) : Prop := sv_registry w ⊆ sv_registry w'.
#[export] Instance grows_refl : Reflexive registry_grows. Proof. intros w. unfold registry_grows. reflexivity. Qed.
#[export] Instance grows_trans : Transitive registry_grows. Proof. intros a b c. unfold registry_grows. intros ? ?. by etransitivity. Qed.

Ltac keep_steps := repeat lazymatch goal with
  | |- keeps _ (_ ≫= _) => apply frame_bind; [typeclasses eauto|..|intros ?]
  | |- keeps _ (mret _) => apply frame_ret; typeclasses eauto
  | |- keeps _ (lift _) => apply frame_lift; typeclasses eauto
  | |- keeps _ (look _) => apply frame_look; typeclasses eauto
  | |- keeps _ (raise _) => apply frame_raise; typeclasses eauto
  | |- keeps _ (catch _ _) => apply frame_catch; [typeclasses eauto|..|intros ?]
  | |- keeps _ (finally _ _) => apply frame_finally; [typeclasses eauto|..|intros ?]
  | |- keeps _ (update _) => apply frame_update; intros ?
  | |- keeps _ (append_event _ _ _ _) => unfold append_event
  | |- keeps _ (service_release _) => unfold service_release
  | |- keeps _ (match ?x with _ => _ end) => destruct x
  end.

Section Service_theorems.
Context `{RequestModels} `{Host}.

Lemma same_grows w w' : same sv_registry w w' → registry_grows w w'. Proof. unfold same, registry_grows. by intros ->. Qed.
Lemma reserve_grows now t run h s wd m : m ⊆ (reserve now t run h s wd m).1.
Proof. unfold reserve. destruct (m !! (t, run)) eqn:E; [done|]. by apply insert_subseteq. Qed.
Lemma on_registry_grows {A} (f : gmap (string * string) Registered → gmap (string * string) Registered * result A) :
  (∀ m, m ⊆ (f m).1) → keeps registry_grows (on_registry f).
Proof. intros Hf w. unfold on_registry. specialize (Hf (sv_registry w)). by destruct (f (sv_registry w)). Qed.
Lemma on_queue_same {A X} (g : Svc → X) (f : QueueDb → QueueDb * result A) : (∀ w q, g (w <| sv_queue := q |>) = g w) → keeps (same g) (on_queue f).
Proof. intros Hg w. unfold on_queue, same. destruct (f (sv_queue w)) as [q r]. simpl. apply Hg. Qed.
Lemma on_quota_same {A X} (g : Svc → X) (f : Quotas → Quotas * result A) : (∀ w q, g (w <| sv_quota := q |>) = g w) → keeps (same g) (on_quota f).
Proof. intros Hg w. unfold on_quota, same. destruct (f (sv_quota w)) as [q r]. simpl. apply Hg. Qed.
Lemma on_locks_same {A X} (g : Svc → X) (f : Locks → Locks * result A) : (∀ w q, g (w <| sv_locks := q |>) = g w) → keeps (same g) (on_locks f).
Proof. intros Hg w. unfold on_locks, same. destruct (f (sv_locks w)) as [q r]. simpl. apply Hg. Qed.
Lemma on_registry_same {A X} (g : Svc → X) (f : gmap (string * string) Registered → gmap (string * string) Registered * result A) :
  (∀ w q, g (w <| sv_registry := q |>) = g w) → keeps (same g) (on_registry f).
Proof. intros Hg w. unfold on_registry, same. destruct (f (sv_registry w)) as [q r]. simpl. apply Hg. Qed.
Lemma frame_weaken {A} (R R' : Svc → Svc → Prop) (m : M Svc A) : (∀ w w', R w w' → R' w w') → keeps R m → keeps R' m.
Proof. intros HR Hm w. apply HR, Hm. Qed.

Lemma service_admit_same {X} (g : Svc → X) now t : (∀ w q, g (w <| sv_quota := q |>) = g w) → keeps (same g) (service_admit now t).
Proof. intros Hg w. by apply on_quota_same. Qed.
Lemma enqueue_part_same {X} (g : Svc → X) now t run a b c e :
  (∀ w q, g (w <| sv_quota := q |>) = g w) → (∀ w q, g (w <| sv_queue := q |>) = g w) → (∀ w q, g (w <| sv_runs := q |>) = g w) →
  (∀ w q, g (w <| sv_events := q |>) = g w) → keeps (same g) (enqueue_part now t run a b c e).
Proof.
  intros H1 H2 H3 H4. unfold enqueue_part, queue_part. cbv zeta. keep_steps; first [by apply service_admit_same|by apply on_queue_same|unfold same; auto].
Qed.
Lemma prepare_same {X} (g : Svc → X) p b t run wd meta cf :
  (∀ w q, g (w <| sv_dirs := q |>) = g w) → (∀ w q, g (w <| sv_workdirs := q |>) = g w) → keeps (same g) (prepare p b t run wd meta cf).
Proof. intros H1 H2. unfold prepare. cbv zeta. keep_steps. unfold same. by rewrite H2, H1. Qed.
Lemma reserve_part_same {X} (g : Svc → X) now uuid p b : (∀ w q, g (w <| sv_registry := q |>) = g w) → keeps (same g) (reserve_part now uuid p b).
Proof. intros H1. unfold reserve_part. cbv zeta. keep_steps. by apply on_registry_same. Qed.

Lemma create_part_grows now uuid p b x y z : keeps registry_grows (create_part now uuid p b x y z).
Proof.
  unfold create_part. keep_steps.
  1: unfold reserve_part; cbv zeta; keep_steps; apply on_registry_grows; intros m; apply reserve_grows.
  all: apply (frame_weaken (same sv_registry)); [apply same_grows|].
  - unfold locked_prepare. keep_steps; [by apply on_locks_same|by apply prepare_same|done].
  - by apply enqueue_part_same.
Qed.

(** What admission requires of a tenant's counters and queue. *)
Definition within_quota (now : Z) (t : string) (w : Svc) : Prop :=
  let q := sv_queue w in
  let '(runs, cost) := daily t (ho_day now) (sv_quota w) in
  runs < max_runs_per_day ho_defaults ∧ (max_cost_usd_per_day ho_defaults <=?. cost) = false ∧
  inflight q t < in_flight_cap q t ∧
  depth q t < depth_cap ho_settings q t.
Lemma service_admit_cases now t w w' r : service_admit now t w = (w', r) →
  w' = w ∧ ((r = Ok tt ∧ within_quota now t w) ∨ r = Err QuotaExceeded).
Proof.
  unfold service_admit, quota_check, queue_load, in_flight_cap, on_quota, quota_admit, within_quota.
  cbn [default option_map ld_inflight ld_depth ld_depth_cap ld_in_flight_cap]. destruct (daily _ _ _) as [runs cost]. simpl default. unfold id.
  destruct (Z.leb_spec (max_runs_per_day ho_defaults) runs), (_ <=?. _); cbn [fst snd];
    try (destruct (Z.leb_spec (match tenant_limits (sv_queue w) !! t with Some l => max_in_flight l | None => tenant_max_in_flight ho_settings end) (inflight (sv_queue w) t));
      [|destruct (Z.leb_spec (depth_cap ho_settings (sv_queue w) t) (depth (sv_queue w) t))]);
    intros E; apply pair_equal_spec in E as [<- <-]; (split; [by destruct w|]); auto 10.
Qed.
Definition queue_item (t run : string) (e : Enqueue) : QueueItem := mkItem t run "run" (dump_async_request (async_request t run e)) 0 0 None None.
Definition queued_event (t run : string) (e : Enqueue) : string * string * string * json_obj :=
  (t, run, "run.queued", [("mode", JStr (pick_str (Some (en_mode e)) "sync")); ("action", JStr (en_action e))]).
Lemma enqueue_part_Ok now t run x y z e w w' s : enqueue_part now t run x y z e w = (w', Ok s) →
  within_quota now t w ∧ ∃ q', enqueue ho_settings now (en_replace_terminal e) (queue_item t run e) (sv_queue w) = (q', Ok tt) ∧
  w' = w <| sv_queue := q' |> <| sv_runs := <[(t, run) := queued_record now t run e]> (sv_runs w) |>
         <| sv_events := sv_events w ++ [queued_event t run e] |>.
Proof.
  unfold enqueue_part, queue_part. cbv zeta. intros Hrun. apply M_bind_Ok in Hrun as (s0 & w0 & [-> Hs]%lift_Ok & Hrun).
  apply M_bind_Ok in Hrun as (u & w1 & Ha & Hrun). apply service_admit_cases in Ha as [-> [[_ Hq]|?]]; [|done]. split; [done|].
  unfold update, append_event, mbind, M_bind, catch, enqueue_async_run, on_queue in Hrun. cbn in Hrun.
  change (mkItem t run "run" (dump_async_request (async_request t run e)) 0 0 None None) with (queue_item t run e) in Hrun.
  destruct (enqueue _ _ _ _ _) as [q' [[]|x0]] eqn:E; [|done]. exists q'. split; [done|]. by injection Hrun as <- _.
Qed.
Lemma reserve_part_Ok now uuid p b w w' run wd meta cf : reserve_part now uuid p b w = (w', Ok (run, wd, meta, cf)) →
  let k := (pp_tenant p, run) in
  run_id_ok run = true ∧ sv_runs w !! k = None ∧ sv_checkpoints w !! k = None ∧ sv_registry w !! k = None ∧
  w' = w <| sv_registry := <[k := mkRegistered "accepted" (_create_request_hash b run)
    [("run_id", JStr run); ("status", JStr "accepted"); ("tenant_id", JStr (pp_tenant p))] (Some wd) (Some now) (Some now)]> (sv_registry w) |>.
Proof.
  unfold reserve_part. cbv zeta. intros Hrun. do 4 apply M_bind_Ok in Hrun as (? & ? & [-> ?]%lift_Ok & Hrun).
  apply M_bind_Ok in Hrun as (id & ? & [-> Hid]%lift_Ok & Hrun). apply M_bind_Ok in Hrun as (taken & ? & [= <- <-] & Hrun).
  apply M_bind_Ok in Hrun as (? & ? & [-> Ht]%lift_Ok & Hrun). apply M_bind_Ok in Hrun as (wd' & ? & [-> ?]%lift_Ok & Hrun).
  apply M_bind_Ok in Hrun as (? & w1 & Hr & [-> [= -> -> -> ->]]%ret_Ok). unfold validate_run_id in Hid. destruct (run_id_ok _) eqn:Eid; [|done].
  injection Hid as <-. split; [done|]. destruct (_ || _) eqn:Eo; [done|]. apply orb_false_iff in Eo as [Eo1%bool_decide_eq_false Eo2%bool_decide_eq_false].
  apply eq_None_not_Some in Eo1, Eo2. unfold _reserve_run_id, on_registry, reserve in Hr. destruct (sv_registry w !! _) eqn:Er; [done|].
  injection Hr as <-. auto.
Qed.

(** A lock taken and given back leaves the locks as they were. *)
Lemma acquire_release path owner l l' h : acquire path owner l = (l', Ok h) → h = path ∧ release h l' = l.
Proof.
  unfold acquire, release. destruct (decide (path ∈ lk_threads l)) as [|Hn]; [done|]. destruct (lk_files l !! path) eqn:E; [done|].
  intros [= <- <-]. split; [done|]. simpl. destruct l as [ts fs]. simpl in *. f_equal; [set_solver|by apply delete_insert_id].
Qed.
Lemma acquire_refused path owner l l' e : acquire path owner l = (l', Err e) → l' = l ∧ e = WorkspaceBusy.
Proof. unfold acquire. destruct (decide _); [by intros [= <- <-]|]. destruct (lk_files l !! path); [by intros [= <- <-]|done]. Qed.
Lemma acquire_then_drop path owner w : let m := _acquire_workspace path owner in
  match m w with (w1, Ok h) => h = path ∧ drop_lock h w1 = w | (w1, Err e) => w1 = w ∧ e = WorkspaceBusy end.
Proof.
  simpl. unfold _acquire_workspace, on_locks. destruct (acquire path owner (sv_locks w)) as [l [h|e]] eqn:E; simpl.
  - apply acquire_release in E as [-> E]. split; [done|]. unfold drop_lock. simpl. rewrite E. by destruct w.
  - apply acquire_refused in E as [-> ->]. split; [by destruct w|done].
Qed.
(** The state a prepared run leaves, and what it enqueues. *)
Lemma prepare_Ok p b t run wd meta cf w w' e : prepare p b t run wd meta cf w = (w', Ok e) →
  en_workdir e = wd ∧ en_replace_terminal e = false ∧ en_action e = "start" ∧ en_mode e = rc_mode b ∧ en_workspace_id e = rc_workspace_id b ∧
  en_approve_tools e = principal_may_exec p ∧ (∀ c, c ∈ en_criteria e → c_timeout_s c <= ho_max_criterion_timeout_s).
Proof.
  unfold prepare. cbv zeta. intros Hr. apply M_bind_Ok in Hr as (? & ? & _ & Hr). apply M_bind_Ok in Hr as (cs & ? & _ & Hr).
  apply M_bind_Ok in Hr as (? & ? & _ & Hr). apply ret_Ok in Hr as [_ ->]. simpl. repeat (split; [done|]).
  intros c (d & -> & _)%list_elem_of_fmap. destruct (Z.ltb_spec ho_max_criterion_timeout_s (c_timeout_s d)); simpl; [done|lia].
Qed.

(** Preparing a run under its lock touches the disk only. *)
Definition same_but_dirs (w w' : Svc) : Prop := w' = w <| sv_dirs := sv_dirs w' |> <| sv_workdirs := sv_workdirs w' |>.
Lemma prepare_dirs p b t run wd meta cf w : same_but_dirs w (prepare p b t run wd meta cf w).1.
Proof.
  unfold prepare, update, lift, mbind, M_bind, mret, M_ret. cbv zeta. destruct (validate_all _) as [cs|e]; [|done]. by destruct (match rc_budget b with Some _ => _ | None => _ end).
Qed.
Lemma locked_prepare_dirs p b t run wd meta cf w : same_but_dirs w (locked_prepare p b t run wd meta cf w).1.
Proof.
  unfold locked_prepare, mbind, M_bind. pose proof (acquire_then_drop wd (t +:+ "/" +:+ run) w) as Hd. cbv zeta in Hd.
  destruct (_acquire_workspace _ _ w) as [w1 [h|e]]; [|destruct Hd as [-> _]; by destruct w]. destruct Hd as [-> Hd].
  unfold finally. pose proof (prepare_dirs p b t run wd meta cf w1) as Hp. destruct (prepare _ _ _ _ _ _ _ w1) as [w2 r]. simpl in *.
  unfold same_but_dirs in *. rewrite Hp, <- Hd. by destruct w1.
Qed.
Lemma locked_prepare_Ok p b t run wd meta cf w w' e : locked_prepare p b t run wd meta cf w = (w', Ok e) →
  en_replace_terminal e = false ∧ ∀ c, c ∈ en_criteria e → c_timeout_s c <= ho_max_criterion_timeout_s.
Proof.
  unfold locked_prepare. intros Hr. apply M_bind_Ok in Hr as (h & w1 & _ & Hr). unfold finally in Hr. destruct (prepare _ _ _ _ _ _ _ w1) as [w2 r] eqn:Ep.
  injection Hr as _ ->. by apply prepare_Ok in Ep as (_ & ? & _ & _ & _ & _ & ?).
Qed.
Lemma enqueue_fresh cfg now t run j q q' : enqueue cfg now false (mkItem t run "run" j 0 0 None None) q = (q', Ok tt) →
  run_queue q !! (t, run, "run") = None ∧
  run_queue q' = <[(t, run, "run") := fresh_row cfg now 0 (mkItem t run "run" j 0 0 None None)]> (run_queue q).
Proof.
  unfold enqueue, tenant_id. cbn [i_tenant_id i_kind i_run_id]. destruct (tenant_ok t); [|done].
  change (negb (bool_decide ("run" ∈ ["run"; "eval"; "job"]))) with false. cbv zeta iota. change (run_queue (ensure_tenant cfg t q)) with (run_queue q).
  destruct (run_queue q !! _) eqn:E; [done|]. destruct (_ <=? _); [done|]. intros E2. apply (f_equal fst) in E2. simpl in E2. by subst q'.
Qed.

(** A create that is accepted: the id was new to the memory, the checkpoints
    and the registry, the tenant was within its daily caps and its queue had
    room; the run is reserved, queued once as a fresh row with the request
    that will be read back, and recorded as queued; its criteria fit the cap
    on timeouts; and neither locks nor counters moved. *)
Theorem create_accepted now uuid p b x y z w w' run e s :
  create_part now uuid p b x y z w = (w', Ok (run, e, s)) →
  let t := pp_tenant p in let k := (t, run) in
  run_id_ok run = true ∧ sv_runs w !! k = None ∧ sv_checkpoints w !! k = None ∧ sv_registry w !! k = None ∧
  run_queue (sv_queue w) !! (t, run, "run") = None ∧ within_quota now t w ∧
  (∃ h, sv_registry w' = <[k := h]> (sv_registry w)) ∧
  run_queue (sv_queue w') = <[(t, run, "run") := fresh_row ho_settings now 0 (queue_item t run e)]> (run_queue (sv_queue w)) ∧
  sv_runs w' = <[k := queued_record now t run e]> (sv_runs w) ∧
  (∀ c, c ∈ en_criteria e → c_timeout_s c <= ho_max_criterion_timeout_s) ∧
  sv_locks w' = sv_locks w ∧ sv_quota w' = sv_quota w ∧ sv_checkpoints w' = sv_checkpoints w ∧ sv_cancel w' = sv_cancel w.
Proof.
  cbv zeta. unfold create_part. intros Hr. apply M_bind_Ok in Hr as ([[[run0 wd] meta] cf] & w1 & H1 & Hr).
  apply reserve_part_Ok in H1 as (Hi & Hm & Hc & Hg & Hw1). apply M_bind_Ok in Hr as (e0 & w2 & H2 & Hr).
  pose proof (locked_prepare_dirs p b (pp_tenant p) run0 wd meta cf w1) as Hd. rewrite H2 in Hd. unfold same_but_dirs in Hd. simpl in Hd.
  apply locked_prepare_Ok in H2 as [Hrep Hcr].
  apply M_bind_Ok in Hr as (s0 & w4 & H4 & [-> [= -> -> ->]]%ret_Ok). apply enqueue_part_Ok in H4 as (Hq & q' & He & ->).
  rewrite Hrep in He. apply enqueue_fresh in He as [Hrow Hq']. unfold within_quota in Hq |- *. rewrite Hd, Hw1 in Hq, Hrow, Hq' |- *. simpl in *.
  repeat (split; [done|]). split; [eauto|]. repeat (split; [done|]). done.
Qed.

Lemma M_bind_Err {W A B} (m : M W A) (f : A → M W B) w w' e :
  (m ≫= f) w = (w', Err e) → m w = (w', Err e) ∨ ∃ a w1, m w = (w1, Ok a) ∧ f a w1 = (w', Err e).
Proof. unfold mbind, M_bind. destruct (m w) as [w1 [a|e']]; [|intros [= -> ->]]; eauto 6. Qed.
Lemma lift_Err {W A} (r : result A) (w w' : W) e : lift r w = (w', Err e) → w' = w.
Proof. unfold lift. by intros [= <- _]. Qed.
Lemma enqueue_refused cfg now rt i q q' e : enqueue cfg now rt i q = (q', Err e) → run_queue q' = run_queue q.
Proof.
  unfold enqueue. destruct (tenant_id _) as [t|]; [|by intros [= <- _]]. destruct (negb _); [by intros [= <- _]|]. cbv zeta.
  change (run_queue (ensure_tenant cfg t q)) with (run_queue q). destruct (run_queue q !! _); [destruct (_ && _)|]; try (destruct (_ <=? _)); try done;
    intros E; apply (f_equal fst) in E; simpl in E; by subst q'.
Qed.
Definition rows (w : Svc) : gmap (string * string * string) QRow := run_queue (sv_queue w).
Lemma enqueue_part_refused now t run x y z e w w' err : enqueue_part now t run x y z e w = (w', Err err) → rows w' = rows w.
Proof.
  unfold enqueue_part, queue_part. cbv zeta. intros Hr. apply M_bind_Err in Hr as [Hr%lift_Err|(s & w0 & [-> _]%lift_Ok & Hr)]; [by subst|].
  apply M_bind_Err in Hr as [Hr|(u & w1 & Ha & Hr)]; [apply service_admit_cases in Hr as [-> _]; done|]. apply service_admit_cases in Ha as [-> _].
  unfold update, append_event, mbind, M_bind, catch, enqueue_async_run, on_queue, service_release, raise in Hr. cbn in Hr.
  destruct (enqueue _ _ _ _ _) as [q' [[]|x0]] eqn:E; [done|]. apply enqueue_refused in E. simpl in Hr.
  apply (f_equal fst) in Hr. simpl in Hr. subst w'. done.
Qed.

(** A create that is refused queues nothing and holds no lock. *)
Theorem create_refused now uuid p b x y z w w' err :
  create_part now uuid p b x y z w = (w', Err err) →
  run_queue (sv_queue w') = run_queue (sv_queue w) ∧ sv_locks w' = sv_locks w ∧ sv_checkpoints w' = sv_checkpoints w ∧
  sv_registry w ⊆ sv_registry w'.
Proof.
  intros Hr. pose proof (create_part_grows now uuid p b x y z w) as Hg. rewrite Hr in Hg.
  cut (rows w' = rows w ∧ sv_locks w' = sv_locks w ∧ sv_checkpoints w' = sv_checkpoints w); [tauto|]. clear Hg.
  unfold create_part in Hr. apply M_bind_Err in Hr as [Hr|([[[run wd] meta] cf] & w1 & H1 & Hr)].
  { pose proof (λ X (g : Svc → X) Hq, reserve_part_same g now uuid p b Hq w) as Hs. unfold keeps, same in Hs. rewrite Hr in Hs.
    by rewrite <- (Hs _ rows), <- (Hs _ sv_locks), <- (Hs _ sv_checkpoints). }
  apply reserve_part_Ok in H1 as (_ & _ & _ & _ & E1).
  pose proof (locked_prepare_dirs p b (pp_tenant p) run wd meta cf w1) as Hd. unfold same_but_dirs in Hd.
  apply M_bind_Err in Hr as [Hr|(e & w2 & H2 & Hr)]; [rewrite Hr in Hd; simpl in Hd; by rewrite Hd, E1|].
  rewrite H2 in Hd. simpl in Hd. clear H2.
  apply M_bind_Err in Hr as [Hr|(s & w3 & H3 & Hr)]; [|done].
  pose proof (enqueue_part_refused _ _ _ _ _ _ _ _ _ _ Hr) as Er. rewrite Er.
  pose proof (λ X (g : Svc → X) H1 H2 H3 H4, enqueue_part_same g now (pp_tenant p) run x y z e H1 H2 H3 H4 w2) as Hs. unfold same in Hs. rewrite Hr in Hs. simpl in Hs.
  rewrite (Hs _ sv_locks), (Hs _ sv_checkpoints), Hd, E1 by done. done.
Qed.

(** C19: A create refused after its reservation - the workspace was busy, a
    criterion was malformed, the wait was no number, the tenant was over its
    quota - queues nothing and yet uses the run id up: no create of that id is
    accepted in any later state, however much quota there is by then. *)
Theorem refused_create_burns_id now uuid p b x y z w w' err run r :
  create_part now uuid p b x y z w = (w', Err err) → sv_registry w' !! (pp_tenant p, run) = Some r →
  run_queue (sv_queue w') = run_queue (sv_queue w) ∧
  ∀ w2 now2 uuid2 b2 x2 y2 z2 w3 e s, sv_registry w' ⊆ sv_registry w2 →
    create_part now2 uuid2 p b2 x2 y2 z2 w2 ≠ (w3, Ok (run, e, s)).
Proof.
  intros Hr Hg. split; [by apply create_refused in Hr as [? _]|]. intros w2 now2 uuid2 b2 x2 y2 z2 w3 e s Hs Hc.
  apply create_accepted in Hc as (_ & _ & _ & Hn & _). by rewrite (lookup_weaken _ _ _ _ Hg Hs) in Hn.
Qed.

(** *** How long a request waits *)

Definition reached (ticks : list (float * (Svc → Svc))) (w : Svc) : Svc := foldl (λ w t, t.2 w) w ticks.
Lemma nan_never_le x : (S754_nan <=?. x) = false. Proof. by destruct x. Qed.
Lemma add_nan x : x ⊕ S754_nan = S754_nan. Proof. by destruct x as [[]|[]| |[]]. Qed.
Lemma wait_text_nan cap raw : strip raw ≠ "" → ho_float (strip raw) = Some S754_nan → wait_text cap raw = Ok (Some S754_nan).
Proof.
  intros Hs Hf. unfold wait_text. apply String.eqb_neq in Hs. rewrite Hs, Hf. change (S754_nan <?. f0) with false. change (feqb S754_nan f0) with false. cbv iota.
  do 2 f_equal. unfold py_min. by destruct cap as [[]|[]| |[]].
Qed.
(** A wait of "nan" passes every check and has no deadline: as long as the run
    is not terminal the request sleeps, whatever the clock says - the cap on
    waiting does not hold. *)
Theorem nan_wait_has_no_deadline raw xw prefer mode cap k now0 ticks w :
  strip raw ≠ "" → ho_float (strip raw) = Some S754_nan →
  (∀ n, row_done k (reached (take n ticks) w) = None) →
  wait_seconds (Some raw) xw prefer mode cap = Ok (Some S754_nan) ∧ (queue_wait (now0 ⊕ S754_nan) k ticks w).2 = None.
Proof.
  intros Hs Hf Hd. split; [by apply wait_text_nan|]. rewrite add_nan. revert w Hd. induction ticks as [|[now step] ticks IH]; intros w Hd; cbn [queue_wait].
  - by rewrite (Hd 0%nat : row_done k w = None).
  - rewrite (Hd 0%nat : row_done k w = None), nan_never_le. apply IH. intros n. apply (Hd (S n)).
Qed.

(** Any other wait ends: within the configured cap, never negative, and the
    request is answered once the clock has passed the deadline. *)
Lemma wait_text_capped cap raw s : is_nan cap = false → (cap <?. f0) = false → (∀ text v, ho_float text = Some v → is_nan v = false) →
  wait_text cap raw = Ok (Some s) → (cap <?. s) = false ∧ (s <?. f0) = false ∧ is_nan s = false.
Proof.
  intros Hc Hn Hf. unfold wait_text. destruct (String.eqb _ _); [intros [= <-]; by rewrite fltb_irrefl|]. destruct (ho_float _) as [v|] eqn:E; [|done].
  destruct (v <?. f0) eqn:E1; [done|]. destruct (feqb v f0); [done|]. intros [= <-]. unfold py_min.
  destruct (cap <?. v) eqn:E2; [by rewrite fltb_irrefl|]. split; [done|]. split; [done|]. by apply (Hf _ _ E).
Qed.
Theorem wait_within_cap wait xw prefer mode sync s :
  is_nan sync = false → (∀ text v, ho_float text = Some v → is_nan v = false) →
  wait_seconds wait xw prefer mode sync = Ok (Some s) →
  (py_max sync f0 <?. s) = false ∧ (s <?. f0) = false ∧ is_nan s = false ∧
  ∀ now0 k ticks w now' step, (now', step) ∈ ticks → (now0 ⊕ s <=?. now') = true → ∃ r, (queue_wait (now0 ⊕ s) k ticks w).2 = Some r.
Proof.
  intros Hc Hf Hw.
  cut ((py_max sync f0 <?. s) = false ∧ (s <?. f0) = false ∧ is_nan s = false).
  { intros (H1 & H2 & H3). do 3 (split; [done|]). intros now0 k ticks w now' step Hi Hl. clear -Hi Hl. revert w. induction ticks as [|[t st] ticks IH]; intros w; [by apply elem_of_nil in Hi|].
    cbn [queue_wait]. destruct (row_done k w); [by eexists|]. destruct (_ <=?. t) eqn:E; [by eexists|].
    apply elem_of_cons in Hi as [[= -> ->]|Hi]; [congruence|]. by apply IH. }
  assert (is_nan (py_max sync f0) = false ∧ (py_max sync f0 <?. f0) = false) as [Hc1 Hc2].
  { unfold py_max. destruct (sync <?. f0) eqn:E; done. }
  pose proof (fltb_irrefl (py_max sync f0)) as Hi. unfold wait_seconds in Hw. cbv zeta in Hw.
  destruct wait as [raw|]; [by apply wait_text_capped in Hw|]. destruct xw as [raw|]; [by apply wait_text_capped in Hw|].
  destruct (prefer_wait _) as [[raw|]|]; [by apply wait_text_capped in Hw|by injection Hw as <-|]. destruct (String.eqb mode "async"); [done|by injection Hw as <-].
Qed.
End Service_theorems.

(** *** Witnesses *)

Module Toy.
#[export] Instance models : RequestModels := {|
  goal_dump g := [("context", opt_json JStr (g_context g))];
  goal_validate o := Ok (mkGoal None [] [] (str_field "context" o) None [] None false);
  criterion_dump _ := JNull; criterion_validate _ := Err (PyError "ValidationError");
  budget_dump _ := []; budget_validate _ := Ok default_Budget; str_other _ := "" |}.
#[export] Instance host : Host := {|
  ho_ready := Ok tt; ho_settings := mkQSettings 10 3 2 2; ho_defaults := mkTenantQuota 1 (Z2f 50) 4; ho_default_async := true;
  ho_sync_wait_s := Z2f 30; ho_max_criterion_timeout_s := 600; ho_model_config _ := Ok None;
  ho_resolve_workdir t run _ _ := Ok ("/work/" +:+ t +:+ "/" +:+ run, []); ho_check_workdir _ _ wd := Ok (Some wd.1);
  ho_canonical_workdir t run := "/work/" +:+ t +:+ "/" +:+ run; ho_request_hash _ := "hash"; ho_day _ := "2026-01-01";
  ho_float s := if String.eqb s "nan" then Some S754_nan else if String.eqb s "5" then Some (Z2f 5) else None;
  ho_root := ".recertia"; ho_skills_root _ := "skills"; ho_facts_root := "facts" |}.
Definition alice : Principal := mkPrincipal "alice" pk_api_key "acme" ["acme"] {["runs"]} ∅.
Definition w0 : Svc := mkSvc w_empty (mkQuotas ∅ ∅) ∅ ∅ ∅ ∅ ∅ (mkLocks ∅ ∅) [] ∅.
(** A day on which the tenant has already had its run. *)
Definition w_spent : Svc := w0 <| sv_quota := mkQuotas {[("acme", "2026-01-01") := (1, Z2f 2)]} ∅ |>.
Definition body (run : string) : RunCreate := mkRunCreate None (Some "tidy") None None None None None None (Some run) treatment "async" None true.
Definition submit (run : string) : M Svc (string * Enqueue * option float) := create_part 0 "" alice (body run) None None None.
End Toy.

Section Witnesses.
Import Toy.
Definition a_request : AsyncRunRequest :=
  mkAsyncRunRequest "r1" "acme" (Some (mkGoal None [] [] (Some "tidy") None [] None false)) None (Some "repo-chore") [] default_Budget "/work"
    (Some ["ls"]) control true "skills" "facts" "runs" "index" (Some (mkModelConfig (JStr "stub") JNull JNull JNull (JInt 1) (JInt 2))) (Some 600) "async" "start".
Lemma async_request_round_trip_witness : load_async_request (dump_async_request a_request) = Ok a_request.
Proof.
  apply async_request_round_trip.
  - split; [by intros g [= <-]|]. split; [|done]. intros c Hc. by apply elem_of_nil in Hc.
  - unfold texts_filled. rewrite !not_elem_of_cons. repeat split; try done. apply not_elem_of_nil.
Defined.
Lemma create_accepted_witness : ∃ w' run e s, submit "r1" w0 = (w', Ok (run, e, s)) ∧ sv_quota w' = sv_quota w0.
Proof.
  destruct (submit "r1" w0) as [w' [[[run e] s]|x]] eqn:E; [|vm_compute in E; discriminate].
  exists w', run, e, s. split; [done|]. apply (create_accepted 0 "" alice (body "r1") None None None w0 w' run e s E).
Defined.
Lemma refused_create_burns_id_witness : ∃ w' err, submit "r1" w_spent = (w', Err err) ∧ err = QuotaExceeded ∧
  ∀ w2 w3 e s, sv_registry w' ⊆ sv_registry w2 → submit "r1" w2 ≠ (w3, Ok ("r1", e, s)).
Proof.
  destruct (submit "r1" w_spent) as [w' [y|err]] eqn:E; [vm_compute in E; discriminate|].
  assert (∃ r, sv_registry w' !! (pp_tenant alice, "r1") = Some r) as [r Hr].
  { replace w' with (submit "r1" w_spent).1 by by rewrite E. vm_compute. eauto. }
  exists w', err. split; [done|]. split; [vm_compute in E; congruence|]. intros w2 w3 e s Hs.
  destruct (refused_create_burns_id 0 "" alice (body "r1") None None None w_spent w' err "r1" r E Hr) as [_ Hn].
  exact (Hn w2 0 "" (body "r1") None None None w3 e s Hs).
Defined.
Lemma nan_wait_has_no_deadline_witness : (queue_wait (Z2f 0 ⊕ S754_nan) ("acme", "r1") [(Z2f 100000, id); (Z2f 200000, id)] w0).2 = None.
Proof.
  apply (nan_wait_has_no_deadline " nan" None None "async" (Z2f 30)); [vm_compute; discriminate|by vm_compute|].
  intros n. replace (reached _ w0) with w0; [by vm_compute|]. by destruct n as [|[|[|n]]].
Defined.
End Witnesses.
