(* ===== verification/RunWorker.v ===== *)
(** * Executing queued runs (workers/run_worker.py, workers/embedded.py,
    app/state.py's callbacks)

    The worker that drains the queue: one claim is marked running, read back,
    run by the orchestrator under the workspace's lock, and settled by what
    came of it; the callbacks keep the records in memory and the tenant's
    counters.  Opening the run's persistence and the orchestrator's start and
    resume are the operations of a class, so any outcome and any exception
    may come back.  One execution is one step;
    [EmbeddedWorker] has the thread that takes them.  The theorems: an
    execution settles its claim, charges once and leaves no lock; a run id is
    accepted once over every history; and what goes wrong after a cancel, a
    busy run and an unreadable payload.  [DayCap] takes an execution apart
    into the steps that others come between. *)
From S2P Require Import Prelude PyStr Budgets Contracts Queue Access RunListing Admission.
From Stdlib Require Import ZArith Lia Ascii.
Open Scope Z_scope.

Definition RootBusy : exn := PyError "RootBusy".
Definition OSError : exn := PyError "OSError".
Definition SqliteError : exn := PyError "sqlite3.Error".

(** ** What a run needs of the orchestrator *)

Class Orchestrator := {
  make_task : AsyncRunRequest → result unit;            (* Task(...) *)
  open_bundle : AsyncRunRequest → Principal → Svc → result unit;   (* build_default_orchestrator *)
  start_run : AsyncRunRequest → M Svc RunRecord;        (* start, as the record of the state it returns *)
  resume_run : AsyncRunRequest → M Svc RunRecord;
  error_code : exn → string }.
Inductive RunOutcome := oc_succeeded | oc_cancelled | oc_run_busy | oc_workspace_busy | oc_failed.
#[export] Instance Outcome_eq_dec : EqDecision RunOutcome. Proof. solve_decision. Defined.

Section Worker.
Context `{RequestModels} `{Host} `{Orchestrator}.

(** ** app/state.py *)

Definition _on_async_complete (now : Z) (t run : string) (state : RunRecord) : M Svc unit :=
  existing ← look (λ w, sv_runs w !! (t, run));
  let cost := default f0 (rr_cost_usd state) in
  let rec := state <| rr_run_id := run |> <| rr_tenant_id := t |>
    <| rr_created_at := match existing with Some r => rr_created_at r | None => now end |>
    <| rr_cost_usd := Some cost |> <| rr_mode := Some (pick_str (r ← existing; rr_mode r) "async") |> in
  let rec := match existing with Some r => rec <| rr_workspace_id := rr_workspace_id r |> <| rr_workdir := rr_workdir r |> | None => rec end in
  _ ← update (λ w, w <| sv_runs := <[(t, run) := rec]> (sv_runs w) |>);
  service_complete now t cost.
Definition _on_async_failed (t run : string) (cancelled : bool) : M Svc unit :=
  _ ← service_release t;
  update (λ w, match sv_runs w !! (t, run) with
               | None => w
               | Some r =>
                   let terminal := if cancelled then "cancelled" else "error" in
                   w <| sv_runs := <[(t, run) := r <| rr_status := terminal |> <| rr_terminal := Some terminal |>
                                                   <| rr_mode := Some (pick_str (rr_mode r) "async") |>]> (sv_runs w) |>
               end).

(** ** AsyncRunWorker *)

Definition is_cancelled (t run : string) (w : Svc) : bool := bool_decide ((t, run) ∈ sv_cancel w).
Definition _fail (r : AsyncRunRequest) (cancelled : bool) : M Svc unit := _on_async_failed (ar_tenant_id r) (ar_run_id r) cancelled.
Definition event (r : AsyncRunRequest) (type : string) (payload : json_obj) : M Svc unit := append_event (ar_tenant_id r) (ar_run_id r) type payload.
Definition cancelled_end (r : AsyncRunRequest) : M Svc RunOutcome :=
  _ ← event r "run.cancelled" [("by", JStr "operator")]; _ ← _fail r true; mret oc_cancelled.
Definition finished_in_error : json_obj := [("terminal", JStr "error"); ("cost_usd", JFloat f0); ("attempt_no", JInt 0)].
Definition _root_busy (r : AsyncRunRequest) : M Svc unit := event r "error" [("code", JStr "root_busy"); ("retryable", JBool true)].
Definition run_failed_end (r : AsyncRunRequest) (code : string) : M Svc RunOutcome :=
  _ ← event r "error" [("code", JStr code); ("retryable", JBool false)]; _ ← event r "run.finished" finished_in_error;
  _ ← _fail r false; mret oc_failed.
Definition scopes_of (r : AsyncRunRequest) : names := list_to_set (if ar_approve_tools r then ["runs"; "exec"] else ["runs"]).
(** [cancel_check]: the queue's flag, under the claim's key. *)
Definition stop_asked (c : Claim) (r : AsyncRunRequest) (w : Svc) : bool :=
  is_cancelled (ar_tenant_id r) (ar_run_id r) w || cancel_requested (k_tenant_id c) (k_run_id c) "run" (sv_queue w).
(** start, and resume when the run exists already. *)
Definition drive (r : AsyncRunRequest) : M Svc RunRecord :=
  if String.eqb (ar_action r) "resume" then resume_run r
  else catch (start_run r) (λ e, if decide (e = RunIdExistsError) then resume_run r else raise e).
Definition drive_on (now : Z) (r : AsyncRunRequest) : M Svc RunOutcome :=
  state ← drive r;
  _ ← event r "run.finished" [("terminal", opt_json JStr (rr_terminal state)); ("cost_usd", opt_json JFloat (rr_cost_usd state));
                              ("attempt_no", opt_json JInt (rr_attempt_no state))];
  _ ← _on_async_complete now (ar_tenant_id r) (ar_run_id r) state;
  mret oc_succeeded.
Definition unless_stopped (now : Z) (c : Claim) (r : AsyncRunRequest) : M Svc RunOutcome :=
  stop ← look (stop_asked c r);
  if stop : bool then cancelled_end r else drive_on now r.
(** The body of the [try], the handle it took released by the [finally]. *)
Definition run_locked (now : Z) (c : Claim) (r : AsyncRunRequest) : M Svc RunOutcome :=
  handle ← _acquire_workspace (ar_workdir r) (ar_tenant_id r +:+ "/" +:+ ar_run_id r);
  finally (unless_stopped now c r) (drop_lock handle).
(** The [except] clauses. *)
Definition run_excepts (r : AsyncRunRequest) (e : exn) : M Svc RunOutcome :=
  if decide (e = RunCancelled) then cancelled_end r
  else if decide (e = RunBusy) then mret oc_run_busy
  else if decide (e = WorkspaceBusy) then mret oc_workspace_busy
  else if decide (e = RootBusy) then (_ ← _root_busy r; raise e)
  else run_failed_end r (error_code e).
(** [RootBusy] goes on to the caller; a lock or database that cannot be opened
    ends the run. *)
Definition open_excepts (r : AsyncRunRequest) (e : exn) : M Svc RunOutcome :=
  if decide (e = RootBusy) then (_ ← _root_busy r; raise e)
  else if bool_decide (e ∈ [OSError; SqliteError]) then run_failed_end r "run_failed" else raise e.
Definition open_and_run (now : Z) (c : Claim) (r : AsyncRunRequest) : M Svc RunOutcome :=
  _ ← lift (make_task r);
  principal ← lift (from_api_key "async-worker" (ar_tenant_id r) (scopes_of r));
  opened ← look (open_bundle r principal);
  match opened with
  | Err e => open_excepts r e
  | Ok _ => catch (run_locked now c r) (run_excepts r)
  end.
Definition started (r : AsyncRunRequest) : M Svc unit :=
  event r "run.started" [("task_class", JStr (pick_str (ar_task_class r) "repo-chore")); ("mode", JStr "async")].
Definition _run (now : Z) (c : Claim) (r : AsyncRunRequest) : M Svc RunOutcome :=
  _ ← started r;
  stop ← look (stop_asked c r);
  if stop : bool then cancelled_end r else open_and_run now c r.

(** ** EmbeddedQueueWorker._execute *)

Definition ROOT_BUSY_RETRY_us : Z := 2000000.
Definition settle_claim (now : Z) (c : Claim) (o : RunOutcome) : M Svc unit :=
  on_queue (match o with
            | oc_cancelled => finish now c q_cancelled None
            | oc_run_busy => finish now c q_failed (Some "run_busy")
            | oc_workspace_busy => finish now c q_failed (Some "workspace_busy")
            | oc_failed => finish now c q_failed (Some "run_failed")
            | oc_succeeded => finish now c q_succeeded None
            end).
Definition named_request (c : Claim) (r : AsyncRunRequest) : AsyncRunRequest :=
  if String.eqb (ar_run_id r) "" then
    mkAsyncRunRequest (k_run_id c) (k_tenant_id c) (ar_goal r) (ar_request r) (ar_task_class r) (ar_criteria r) (ar_budget r) (ar_workdir r)
      (ar_script r) (ar_arm r) (ar_approve_tools r) (ar_skills_root r) (ar_facts_root r) (ar_runs_root r) (ar_index_path r) (ar_model_config r)
      (ar_max_criterion_timeout_s r) (ar_mode r) (ar_action r)
  else r.
Definition claim_ended (now : Z) (c : Claim) (res : Svc * result RunOutcome) : Svc * result unit :=
  match res with
  | (w, Ok o) => settle_claim now c o w
  | (w, Err e) =>
      if decide (e = RootBusy) then on_queue (requeue (now + ROOT_BUSY_RETRY_us) c "root_busy") w
      else on_queue (finish now c q_failed (Some "run_failed")) w
  end.
Definition run_and_settle (now : Z) (c : Claim) (r : AsyncRunRequest) : M Svc unit := λ w, claim_ended now c (_run now c (named_request c r) w).
Definition _execute (now : Z) (c : Claim) : M Svc unit :=
  _ ← on_queue (mark_running now c);
  r ← lift (load_async_request (k_payload c));
  run_and_settle now c r.
End Worker.

(** ** Theorems *)

Section Frames.
Context `{RequestModels} `{Host} `{Orchestrator}.
(** What the orchestrator's start and resume leave alone. *)
Definition orchestrator_keeps (R : Svc → Svc → Prop) : Prop := (∀ r, keeps R (start_run r)) ∧ (∀ r, keeps R (resume_run r)).

Lemma drive_keeps R `{!Reflexive R} `{!Transitive R} r : orchestrator_keeps R → keeps R (drive r).
Proof.
  intros [Hs Hr]. unfold drive. destruct (String.eqb _ _); [apply Hr|]. apply frame_catch; [done|apply Hs|]. intros e. destruct (decide _); [apply Hr|by apply frame_raise].
Qed.
Lemma failed_keeps (R : Svc → Svc → Prop) `{!Reflexive R} `{!Transitive R} t run cancelled :
  (∀ w q, R w (w <| sv_quota := q |>)) → (∀ w q, R w (w <| sv_runs := q |>)) → keeps R (_on_async_failed t run cancelled).
Proof. intros H3 H4. unfold _on_async_failed. keep_steps; [done|]. destruct (sv_runs _ !! _); [apply H4|done]. Qed.
(** A relation that holds across changes of what an execution itself writes. *)
Record worker_writes (R : Svc → Svc → Prop) : Prop := {
  ww_refl : Reflexive R; ww_trans : Transitive R;
  ww_quota : ∀ w q, R w (w <| sv_quota := q |>); ww_runs : ∀ w q, R w (w <| sv_runs := q |>);
  ww_events : ∀ w q, R w (w <| sv_events := q |>) }.
Lemma ends_keep R (r : AsyncRunRequest) : worker_writes R →
  keeps R (cancelled_end r) ∧ (∀ code, keeps R (run_failed_end r code)) ∧ (∀ type p, keeps R (event r type p)).
Proof.
  intros []. unfold cancelled_end, run_failed_end, _fail, event.
  split; [|split]; intros; keep_steps; try (by apply failed_keeps); auto.
Qed.
(** A body under a lock leaves the locks as it found them, and whatever else
    the body keeps. *)
Lemma under_lock_keeps {A} (R : Svc → Svc → Prop) `{!Reflexive R} `{!Transitive R} path owner (body : M Svc A) :
  (∀ w q, R w (w <| sv_locks := q |>)) → keeps R body → keeps R (h ← _acquire_workspace path owner; finally body (drop_lock h)).
Proof.
  intros Hg Hb. keep_steps; [|done|apply Hg]. intros w. unfold _acquire_workspace, on_locks. destruct (acquire _ _ _). apply Hg.
Qed.
Lemma under_lock_locks {A} path owner (body : M Svc A) :
  keeps (same sv_locks) body → keeps (same sv_locks) (h ← _acquire_workspace path owner; finally body (drop_lock h)).
Proof.
  intros Hb w. unfold mbind, M_bind. pose proof (acquire_then_drop path owner w) as Hd. cbv zeta in Hd.
  destruct (_acquire_workspace path owner w) as [w1 [h|e]]; [|by destruct Hd as [-> _]]. destruct Hd as [-> Hd]. unfold finally.
  specialize (Hb w1). destruct (body w1) as [w2 r]. unfold same in *. simpl in *. rewrite Hb. apply (f_equal sv_locks) in Hd. apply Hd.
Qed.
Lemma body_keeps R now c r : worker_writes R → orchestrator_keeps R → keeps R (unless_stopped now c r).
Proof.
  intros Hw Ho. pose proof (ends_keep R r Hw) as (He1 & He2 & He3). destruct Hw. unfold unless_stopped, drive_on. keep_steps; [done| | |].
  - by apply drive_keeps.
  - apply He3.
  - unfold _on_async_complete. cbv zeta. unfold service_complete. keep_steps; auto.
Qed.
Lemma _run_around R now c r : worker_writes R → keeps R (run_locked now c r) → keeps R (_run now c r).
Proof. intros Hw Hb. pose proof (ends_keep R r Hw) as (He1 & He2 & He3). destruct Hw. unfold _run, started, open_and_run, run_excepts, open_excepts, _root_busy. keep_steps; auto. Qed.
(** What an execution keeps, besides the locks. *)
Lemma _run_keeps R now c r : worker_writes R → (∀ w q, R w (w <| sv_locks := q |>)) → orchestrator_keeps R → keeps R (_run now c r).
Proof. intros Hw Hl Ho. apply _run_around; [done|]. unfold run_locked. pose proof Hw as []. apply under_lock_keeps; [done..|]. by apply body_keeps. Qed.
Lemma same_writes {X} (g : Svc → X) : (∀ w q, g (w <| sv_quota := q |>) = g w) → (∀ w q, g (w <| sv_runs := q |>) = g w) →
  (∀ w q, g (w <| sv_events := q |>) = g w) → worker_writes (same g).
Proof. split; [typeclasses eauto|typeclasses eauto|done|done|done]. Qed.
Lemma _run_locks now c r : orchestrator_keeps (same sv_locks) → keeps (same sv_locks) (_run now c r).
Proof. intros Ho. apply _run_around; [by apply same_writes|]. unfold run_locked. apply under_lock_locks. apply body_keeps; [by apply same_writes|done]. Qed.
End Frames.

(** *** An execution settles its claim *)

Section Settling.
Context `{RequestModels} `{Host} `{Orchestrator}.

Definition runs_claim (c : Claim) (q : QueueDb) (r : QRow) : Prop :=
  run_queue q !! claim_key c = Some r ∧ q_status r = q_running ∧ q_claim_token r = k_claim_token c.
Definition only_row (c : Claim) (q q' : QueueDb) : Prop := ∀ k, k ≠ claim_key c → run_queue q' !! k = run_queue q !! k.
Lemma transition_ok now c st code from q q' : _transition now c st code from q = (q', Ok tt) →
  (∃ r, run_queue q' !! claim_key c = Some r ∧ q_status r = st ∧ q_claim_token r = k_claim_token c) ∧ only_row c q q'.
Proof.
  unfold _transition. destruct (owned_row c from q) as [r|] eqn:Eo.
  - apply owned_row_Some in Eo as (Hk & Ht & Hs). intros E. apply (f_equal fst) in E. simpl in E. subst q'. simpl. split.
    + eexists. rewrite lookup_insert_eq. split; [done|]. destruct (decide _); simpl; auto.
    + intros k Hne. simpl. by rewrite lookup_insert_ne.
  - destruct (run_queue q !! claim_key c) as [r|] eqn:E; [|done]. destruct (bool_decide_reflect (q_status r = st)); [|done].
    destruct (Z.eqb_spec (q_claim_token r) (k_claim_token c)); [|done]. intros [= <-]. split; [eauto|done].
Qed.
Lemma running_owned c q r from : runs_claim c q r → q_running ∈ from → owned_row c from q = Some r.
Proof.
  intros (Hr & Hs & Ht) Hf. unfold owned_row. rewrite Hr. cbn. rewrite Ht, Z.eqb_refl, Hs. by rewrite (bool_decide_true _ Hf).
Qed.
Lemma finish_running now c st code q r : runs_claim c q r →
  ∃ q', finish now c st code q = (q', Ok tt) ∧ (∃ r', run_queue q' !! claim_key c = Some r' ∧ q_status r' = st ∧ q_claim_token r' = k_claim_token c) ∧ only_row c q q'.
Proof.
  intros Hr. destruct (finish now c st code q) as [q' [[]|e]] eqn:E.
  - exists q'. split; [done|]. by apply transition_ok in E.
  - unfold finish, _transition in E. rewrite (running_owned c q r) in E by (done || by right; left). done.
Qed.
Lemma requeue_running due c code q r : runs_claim c q r →
  ∃ q', requeue due c code q = (q', Ok tt) ∧ (∃ r', run_queue q' !! claim_key c = Some r' ∧ q_status r' = q_queued ∧ q_claim_token r' = k_claim_token c) ∧ only_row c q q'.
Proof.
  intros Hr. unfold requeue. rewrite (running_owned c q r) by (done || by right; left). eexists. split; [done|]. destruct Hr as (_ & _ & Ht). split.
  - eexists. cbn [run_queue]. simpl. rewrite lookup_insert_eq. split; [done|]. auto.
  - intros k Hne. simpl. by rewrite lookup_insert_ne.
Qed.
(** The status an outcome, or an exception, leaves the row in. *)
Definition settled_status (res : result RunOutcome) : QStatus :=
  match res with
  | Ok oc_succeeded => q_succeeded | Ok oc_cancelled => q_cancelled | Ok _ => q_failed
  | Err e => if decide (e = RootBusy) then q_queued else q_failed
  end.
Lemma ended_settles now c w res r : runs_claim c (sv_queue w) r →
  ∃ q', claim_ended now c (w, res) = (w <| sv_queue := q' |>, Ok tt) ∧ only_row c (sv_queue w) q' ∧
  ∃ r', run_queue q' !! claim_key c = Some r' ∧ q_status r' = settled_status res ∧ q_claim_token r' = k_claim_token c.
Proof.
  intros Hr. unfold claim_ended, settle_claim, on_queue, settled_status. destruct res as [o|e].
  - destruct o;
      match goal with |- context [finish now c ?st ?code] => destruct (finish_running now c st code _ _ Hr) as (q' & -> & Hq & Ho) end; eauto.
  - destruct (decide _).
    + destruct (requeue_running (now + ROOT_BUSY_RETRY_us) c "root_busy" _ _ Hr) as (q' & -> & Hq & Ho). eauto.
    + destruct (finish_running now c q_failed (Some "run_failed") _ _ Hr) as (q' & -> & Hq & Ho). eauto.
Qed.
Lemma execute_unfold now c w q1 r : mark_running now c (sv_queue w) = (q1, Ok tt) → load_async_request (k_payload c) = Ok r →
  _execute now c w = claim_ended now c (_run now c (named_request c r) (w <| sv_queue := q1 |>)).
Proof. intros Hm Hl. unfold _execute, mbind, M_bind, on_queue. rewrite Hm. cbn. by rewrite Hl. Qed.
End Settling.

Section Executions.
Context `{RequestModels} `{Host} `{Orchestrator}.

(** C7: Whatever comes of a run that was marked running and could be read - a
    result, a refusal, an exception - its row is settled under the claim's own
    token: terminal, or queued again when the root was busy.  No other row
    changes, no lock stays, and reservations are kept - given an orchestrator
    that leaves the queue, the locks and the reservations as they are. *)
Theorem execution_settles now c w q1 r :
  orchestrator_keeps (same sv_queue) → orchestrator_keeps (same sv_locks) → orchestrator_keeps (same sv_registry) →
  mark_running now c (sv_queue w) = (q1, Ok tt) → load_async_request (k_payload c) = Ok r →
  ∃ w' row, _execute now c w = (w', Ok tt) ∧ run_queue (sv_queue w') !! claim_key c = Some row ∧
    q_status row = settled_status (_run now c (named_request c r) (w <| sv_queue := q1 |>)).2 ∧ q_claim_token row = k_claim_token c ∧
    in_flight (q_status row) = false ∧ only_row c (sv_queue w) (sv_queue w') ∧ sv_locks w' = sv_locks w ∧ sv_registry w' = sv_registry w.
Proof.
  intros Hq Hl Hg Hm Hr. rewrite (execute_unfold _ _ _ _ _ Hm Hr). apply transition_ok in Hm as [(row0 & Hrow) Ho0].
  pose proof (_run_keeps (same sv_queue) now c (named_request c r) ltac:(by apply same_writes) ltac:(done) Hq (w <| sv_queue := q1 |>)) as Fq.
  pose proof (_run_keeps (same sv_registry) now c (named_request c r) ltac:(by apply same_writes) ltac:(done) Hg (w <| sv_queue := q1 |>)) as Fg.
  pose proof (_run_locks now c (named_request c r) Hl (w <| sv_queue := q1 |>)) as Fl.
  destruct (_run _ _ _ _) as [w1 res]. unfold same in *. cbn [fst snd] in *. simpl in Fq, Fg, Fl.
  destruct (ended_settles now c w1 res row0) as (q' & -> & Ho & row & Hrow' & Hst & Htok); [by rewrite Fq|].
  exists (w1 <| sv_queue := q' |>), row. simpl. split; [done|]. split; [done|]. split; [done|]. split; [done|].
  split; [rewrite Hst; destruct res as [[]|e]; try done; simpl; by destruct (decide _)|].
  split; [|done]. intros k Hk. rewrite Ho by done. rewrite Fq. by apply Ho0.
Qed.
End Executions.

(** *** Histories *)

Section Histories.
Context `{RequestModels} `{Host} `{Orchestrator}.

Inductive SvcOp :=
  | so_create (now : Z) (uuid : string) (p : Principal) (b : RunCreate) (wait x_recertia_wait prefer : option string)
  | so_resume (now : Z) (p : Principal) (run : string)
  | so_get (now : Z) (p : option Principal) (t run : string)
  | so_cancel (p : Principal) (run : string)
  | so_queue (o : qop)
  | so_execute (now : Z) (c : Claim)
  | so_restart.
(** A new process: the memory is gone, the locks of the old one are free, and
    the in-flight gauges start at zero. *)
Definition restart (w : Svc) : Svc :=
  w <| sv_runs := ∅ |> <| sv_cancel := ∅ |> <| sv_quota := reset_inflight (sv_quota w) |>
    <| sv_locks := mkLocks ∅ (filter (λ kv, kv.1 ∉ lk_threads (sv_locks w)) (lk_files (sv_locks w))) |>.
Definition exec_svc (o : SvcOp) (w : Svc) : Svc :=
  match o with
  | so_create now uuid p b x y z => (create_part now uuid p b x y z w).1
  | so_resume now p run => (resume_part now p run w).1
  | so_get now p t run => (service_get now p t run w).1
  | so_cancel p run => (cancel p run w).1
  | so_queue o => w <| sv_queue := exec ho_settings o (sv_queue w) |>
  | so_execute now c => (_execute now c w).1
  | so_restart => restart w
  end.
(** The id a step accepts as a new run. *)
Definition accepts (o : SvcOp) (w : Svc) : option (string * string) :=
  match o with
  | so_create now uuid p b x y z => match (create_part now uuid p b x y z w).2 with Ok (run, _, _) => Some (pp_tenant p, run) | Err _ => None end
  | _ => None
  end.
Fixpoint accepted_ids (ops : list SvcOp) (w : Svc) : list (string * string) :=
  match ops with
  | [] => []
  | o :: ops' => match accepts o w with Some k => [k] | None => [] end ++ accepted_ids ops' (exec_svc o w)
  end.
Definition exec_all (ops : list SvcOp) (w : Svc) : Svc := foldl (λ w o, exec_svc o w) w ops.

Lemma resume_prep_same {X} (g : Svc → X) p run : (∀ w q, g (w <| sv_locks := q |>) = g w) → keeps (same g) (resume_prep p run).
Proof.
  intros H7. unfold resume_prep. cbv zeta. keep_steps; [by apply on_locks_same|]. unfold same, drop_lock. apply H7.
Qed.
Lemma resume_part_same {X} (g : Svc → X) now p run :
  (∀ w q, g (w <| sv_quota := q |>) = g w) → (∀ w q, g (w <| sv_queue := q |>) = g w) → (∀ w q, g (w <| sv_runs := q |>) = g w) →
  (∀ w q, g (w <| sv_events := q |>) = g w) → (∀ w q, g (w <| sv_locks := q |>) = g w) → keeps (same g) (resume_part now p run).
Proof. intros H3 H4 H5 H6 H7. unfold resume_part. keep_steps; [by apply resume_prep_same|by apply enqueue_part_same]. Qed.
Lemma get_same {X} (g : Svc → X) now p t run : (∀ w q, g (w <| sv_runs := q |>) = g w) → keeps (same g) (service_get now p t run).
Proof.
  intros H3. unfold service_get. keep_steps. intros w. unfold same, get_run. destruct (sv_runs w !! _); [done|]. destruct (load_run _ _ _); [apply H3|done].
Qed.
Lemma cancel_same {X} (g : Svc → X) p run :
  (∀ w q, g (w <| sv_queue := q |>) = g w) → (∀ w q, g (w <| sv_cancel := q |>) = g w) → (∀ w q, g (w <| sv_events := q |>) = g w) →
  keeps (same g) (cancel p run).
Proof. intros H3 H4 H5. unfold cancel. cbv zeta. keep_steps; unfold same, worker_request_cancel; [apply H3|by rewrite H3, H4|apply H5]. Qed.
Lemma settle_same {X} (g : Svc → X) now c res w : (∀ w q, g (w <| sv_queue := q |>) = g w) → g (claim_ended now c (w, res)).1 = g w.
Proof.
  intros Hg. unfold claim_ended, settle_claim. destruct res as [o|e]; [|destruct (decide _)]; by apply on_queue_same.
Qed.
Lemma execute_keeps (R : Svc → Svc → Prop) `{!Reflexive R} `{!Transitive R} now c :
  (∀ w q, R w (w <| sv_queue := q |>)) → (∀ r, keeps R (_run now c r)) → keeps R (_execute now c).
Proof.
  intros Hq Hr. assert (∀ A (f : QueueDb → QueueDb * result A), keeps R (on_queue f)) as Hf.
  { intros A f w. unfold on_queue. destruct (f _). apply Hq. }
  unfold _execute. keep_steps; [apply Hf|]. intros w. unfold run_and_settle. specialize (Hr (named_request c a0) w). destruct (_run _ _ _ w) as [w1 res]. simpl in Hr.
  etransitivity; [exact Hr|]. unfold claim_ended, settle_claim. destruct res as [o|e]; [|destruct (decide _)]; apply Hf.
Qed.

Lemma grows_writes : worker_writes registry_grows.
Proof. split; [typeclasses eauto|typeclasses eauto| | |]; intros w q; unfold registry_grows; simpl; reflexivity. Qed.
Lemma exec_grows o w : orchestrator_keeps registry_grows → registry_grows w (exec_svc o w).
Proof.
  intros Ho. destruct o; simpl; try (unfold registry_grows; simpl; reflexivity).
  - apply create_part_grows.
  - apply same_grows, resume_part_same; done.
  - by apply same_grows, get_same.
  - by apply same_grows, cancel_same.
  - apply execute_keeps; [typeclasses eauto..|intros; unfold registry_grows; simpl; reflexivity|]. intros r. apply _run_keeps; [apply grows_writes|intros; unfold registry_grows; simpl; reflexivity|done].
Qed.
Lemma accepts_new o w k : accepts o w = Some k → sv_registry w !! k = None ∧ is_Some (sv_registry (exec_svc o w) !! k).
Proof.
  destruct o; try done. simpl. destruct (create_part _ _ _ _ _ _ _ w) as [w' [[[run e] s]|]] eqn:E; [|done]. simpl. intros [= <-].
  apply create_accepted in E as (_ & _ & _ & Hn & _ & _ & (r & ->) & _). rewrite lookup_insert_eq. eauto.
Qed.
Lemma accepted_new ops w k : orchestrator_keeps registry_grows → k ∈ accepted_ids ops w → sv_registry w !! k = None.
Proof.
  intros Ho. revert w. induction ops as [|o ops IH]; intros w Hk; cbn [accepted_ids] in Hk; [by apply elem_of_nil in Hk|].
  apply elem_of_app in Hk as [Hk|Hk].
  - destruct (accepts o w) eqn:E; [|by apply elem_of_nil in Hk]. apply list_elem_of_singleton in Hk as ->. by apply accepts_new in E as [? _].
  - apply IH in Hk. pose proof (exec_grows o w Ho) as Hg. destruct (sv_registry w !! k) as [r|] eqn:E; [|done]. by rewrite (lookup_weaken _ _ _ _ E Hg) in Hk.
Qed.

(** C6: Over every sequence of creates, resumes, cancels, executions, queue
    operations and process restarts, no tenant's run id is accepted twice. *)
Theorem run_id_accepted_once ops w : orchestrator_keeps registry_grows → NoDup (accepted_ids ops w).
Proof.
  intros Ho. revert w. induction ops as [|o ops IH]; intros w; cbn [accepted_ids]; [constructor|].
  destruct (accepts o w) as [k|] eqn:E; [|apply IH]. simpl. apply NoDup_cons. split; [|apply IH].
  intros Hk. apply accepted_new in Hk; [|done]. apply accepts_new in E as [_ [r Hr]]. congruence.
Qed.
End Histories.

(** *** What an execution charges *)

Section Charging.
Context `{RequestModels} `{Host} `{Orchestrator}.
Definition daily_of (w : Svc) : gmap (string * string) (Z * float) := qt_daily (sv_quota w).
Definition charge_day (t day : string) (cost : float) (d : gmap (string * string) (Z * float)) : gmap (string * string) (Z * float) :=
  <[(t, day) := match d !! (t, day) with Some (n, c) => (n + 1, c ⊕ cost) | None => (1, cost) end]> d.
(** One charge of the day's counters exactly when the run succeeded: of the
    cost of the state that driving the run in [v] returned, which is the cost
    its record shows. *)
Definition charges (now : Z) (r : AsyncRunRequest) (v w : Svc) (x : Svc * result RunOutcome) : Prop :=
  (x.2 = Ok oc_succeeded ∧ ∃ state, (drive r v).2 = Ok state ∧ let cost := default f0 (rr_cost_usd state) in
     daily_of x.1 = charge_day (ar_tenant_id r) (ho_day now) cost (daily_of w) ∧
     (rr_cost_usd <$> sv_runs x.1 !! (ar_tenant_id r, ar_run_id r)) = Some (Some cost)) ∨
  (x.2 ≠ Ok oc_succeeded ∧ daily_of x.1 = daily_of w).
(** The state the orchestrator is called in: the start is logged and the
    workspace is locked. *)
Definition driven_in (r : AsyncRunRequest) (w : Svc) : Svc :=
  (_acquire_workspace (ar_workdir r) (ar_tenant_id r +:+ "/" +:+ ar_run_id r) (started r w).1).1.

Lemma charges_after now r v w w1 x : daily_of w1 = daily_of w → charges now r v w1 x → charges now r v w x.
Proof. unfold charges. by intros ->. Qed.
Lemma failed_daily t run cancelled : keeps (same daily_of) (_on_async_failed t run cancelled).
Proof. unfold _on_async_failed. keep_steps; unfold same; [done|]. by destruct (sv_runs _ !! _). Qed.
Lemma event_daily r type p : keeps (same daily_of) (event r type p).
Proof. unfold event. by keep_steps. Qed.
Lemma no_charge now r v {A} (m : M Svc A) (o : RunOutcome) w : o ≠ oc_succeeded → keeps (same daily_of) m → charges now r v w ((_ ← m; mret o) w).
Proof. intros Hne Hk. specialize (Hk w). unfold mbind, M_bind. destruct (m w) as [v1 [a|e]]; right; (split; [simpl; congruence|exact Hk]). Qed.
Lemma cancelled_no_charge now r v w : charges now r v w (cancelled_end r w).
Proof.
  unfold cancelled_end. apply (charges_after _ _ _ _ (event r "run.cancelled" [("by", JStr "operator")] w).1); [apply event_daily|].
  apply (no_charge now r v (_fail r true)); [done|apply failed_daily].
Qed.
Lemma failed_no_charge now r v code w : charges now r v w (run_failed_end r code w).
Proof.
  unfold run_failed_end. set (e1 := event r "error" _). apply (charges_after _ _ _ _ (e1 w).1); [apply event_daily|].
  set (e2 := event r "run.finished" _). apply (charges_after _ _ _ _ (e2 (e1 w).1).1); [apply event_daily|].
  apply (no_charge now r v (_fail r false)); [done|apply failed_daily].
Qed.
Lemma body_charges now c r w : orchestrator_keeps (same daily_of) → charges now r w w (unless_stopped now c r w).
Proof.
  intros Ho. change (unless_stopped now c r w) with ((if stop_asked c r w then cancelled_end r else drive_on now r) w).
  destruct (stop_asked c r w); [apply cancelled_no_charge|].
  pose proof (drive_keeps (same daily_of) r Ho w) as Hd. unfold same in Hd. unfold drive_on, mbind, M_bind.
  destruct (drive r w) as [w1 [state|e]] eqn:Ed; cbn [fst] in Hd; [|by right].
  left. split; [done|]. exists state. rewrite Ed. split; [done|]. unfold charge_day. rewrite <- Hd. split; [done|].
  unfold _on_async_complete, service_complete, update, look, mbind, M_bind. simpl. rewrite lookup_insert_eq. by destruct (sv_runs _ !! _).
Qed.
Lemma run_locked_charges now c r w : orchestrator_keeps (same daily_of) → charges now r (_acquire_workspace (ar_workdir r) (ar_tenant_id r +:+ "/" +:+ ar_run_id r) w).1 w (run_locked now c r w).
Proof.
  intros Ho. unfold run_locked, mbind, M_bind, _acquire_workspace, on_locks. destruct (acquire _ _ _) as [l [h|e]]; [|by right].
  unfold finally. pose proof (body_charges now c r (w <| sv_locks := l |>) Ho) as Hb. simpl fst.
  destruct (unless_stopped now c r _) as [w2 res]. exact Hb.
Qed.
Lemma run_unfold now c r w : let w0 := (started r w).1 in
  _run now c r w = (if stop_asked c r w0 then cancelled_end r else open_and_run now c r) w0.
Proof. reflexivity. Qed.
Lemma open_unfold now c r w : open_and_run now c r w =
  match make_task r with
  | Err e => (w, Err e)
  | Ok _ => match from_api_key "async-worker" (ar_tenant_id r) (scopes_of r) with
            | Err e => (w, Err e)
            | Ok p => (match open_bundle r p w with Err e => open_excepts r e | Ok _ => catch (run_locked now c r) (run_excepts r) end) w
            end
  end.
Proof.
  unfold open_and_run, lift, look, mbind, M_bind. destruct (make_task r); [|done]. by destruct (from_api_key _ _ _).
Qed.
Lemma root_busy_daily r w : daily_of (_root_busy r w).1 = daily_of w.
Proof. apply event_daily. Qed.
Lemma _run_charges now c r w : orchestrator_keeps (same daily_of) → charges now r (driven_in r w) w (_run now c r w).
Proof.
  intros Ho. rewrite run_unfold. unfold driven_in. set (w0 := (started r w).1).
  apply (charges_after _ _ _ _ w0); [apply event_daily|]. clearbody w0. clear w. set (v := (_acquire_workspace _ _ w0).1).
  destruct (stop_asked c r w0); [apply cancelled_no_charge|]. rewrite open_unfold. destruct (make_task r); [|by right].
  destruct (from_api_key _ _ _) as [p|e]; [|by right]. destruct (open_bundle r p w0) as [u|e].
  - unfold catch. pose proof (run_locked_charges now c r w0 Ho) as Hl. destruct (run_locked now c r w0) as [w1 [o|e]]; [exact Hl|].
    apply (charges_after _ _ _ _ w1); [by destruct Hl as [[? _]|[_ ?]]|]. clear Hl. unfold run_excepts.
    repeat (destruct (decide _)); try (by right); [apply cancelled_no_charge|apply failed_no_charge].
  - unfold open_excepts. destruct (decide _); [by right|]. destruct (bool_decide _); [apply failed_no_charge|by right].
Qed.

(** C8: A tenant pays for a run once: the execution that succeeded adds one run
    and the cost of the state its orchestrator returned - the cost the run's
    record then shows - to the counters of the day it ended on, and an
    execution that ends in any other way - cancelled, refused, failed - adds
    nothing, given an orchestrator that leaves the counters alone. *)
Theorem execution_charges_once now c w q1 r :
  orchestrator_keeps (same daily_of) → mark_running now c (sv_queue w) = (q1, Ok tt) → load_async_request (k_payload c) = Ok r →
  let w1 := w <| sv_queue := q1 |> in let r' := named_request c r in
  charges now r' (driven_in r' w1) w ((_execute now c w).1, (_run now c r' w1).2).
Proof.
  intros Ho Hm Hl. cbv zeta. rewrite (execute_unfold _ _ _ _ _ Hm Hl). pose proof (_run_charges now c (named_request c r) (w <| sv_queue := q1 |>) Ho) as Hr.
  destruct (_run _ _ _ _) as [w1 res].
  pose proof (settle_same daily_of now c res w1 ltac:(done)) as Hs. pose proof (settle_same sv_runs now c res w1 ltac:(done)) as Hs'.
  unfold charges in *. cbn [fst snd] in *. rewrite Hs, Hs'. exact Hr.
Qed.
End Charging.

(** *** What goes wrong *)

Section Faults.
Context `{RequestModels} `{Host} `{Orchestrator}.
Definition cancel_grows (w w' : Svc) : Prop := sv_cancel w ⊆ sv_cancel w'.
#[local] Instance cancel_grows_refl : Reflexive cancel_grows. Proof. intros w. unfold cancel_grows. reflexivity. Qed.
#[local] Instance cancel_grows_trans : Transitive cancel_grows. Proof. intros a b c. unfold cancel_grows. intros ? ?. by etransitivity. Qed.
Lemma same_cancel w w' : same sv_cancel w w' → cancel_grows w w'. Proof. unfold same, cancel_grows. by intros ->. Qed.
Definition not_restart (o : SvcOp) : Prop := match o with so_restart => False | _ => True end.
Lemma cancel_adds p run w w' : cancel p run w = (w', Ok tt) → (pp_tenant p, run) ∈ sv_cancel w'.
Proof.
  unfold cancel. cbv zeta. intros Hr. apply M_bind_Ok in Hr as (id & ? & [-> Hid]%lift_Ok & Hr). unfold validate_run_id in Hid.
  destruct (run_id_ok run); [injection Hid as <-|done]. apply M_bind_Ok in Hr as (? & ? & [-> _]%lift_Ok & Hr).
  unfold update, append_event, mbind, M_bind in Hr. cbn in Hr. apply (f_equal fst) in Hr. simpl in Hr. subst w'. simpl. set_solver.
Qed.
Lemma exec_cancel_grows o w : orchestrator_keeps cancel_grows → not_restart o → cancel_grows w (exec_svc o w).
Proof.
  intros Ho Hn. destruct o; simpl; try (by destruct Hn); try (unfold cancel_grows; simpl; reflexivity).
  - apply same_cancel. unfold create_part. assert (keeps (same sv_cancel) (create_part now uuid p b wait x_recertia_wait prefer)) as Hk; [|apply Hk].
    unfold create_part. keep_steps; [by apply reserve_part_same| |by apply enqueue_part_same].
    intros v. unfold same. by rewrite (locked_prepare_dirs _ _ _ _ _ _ _ v).
  - by apply same_cancel, resume_part_same.
  - by apply same_cancel, get_same.
  - unfold cancel. cbv zeta. assert (keeps cancel_grows (cancel p run)) as Hk; [|apply Hk]. unfold cancel. cbv zeta.
    keep_steps; unfold cancel_grows; simpl; [reflexivity|set_solver|reflexivity].
  - apply execute_keeps; [typeclasses eauto..|intros; unfold cancel_grows; simpl; reflexivity|]. intros r. apply _run_keeps; [|intros; unfold cancel_grows; simpl; reflexivity|done].
    split; [typeclasses eauto|typeclasses eauto| | |]; intros v q; unfold cancel_grows; simpl; reflexivity.
Qed.
Lemma all_cancel_grows ops w : orchestrator_keeps cancel_grows → Forall not_restart ops → cancel_grows w (exec_all ops w).
Proof.
  intros Ho Hn. revert w. induction Hn as [|o ops Hn _ IH]; intros w; [unfold cancel_grows; reflexivity|]. simpl. etransitivity; [by apply exec_cancel_grows|apply IH].
Qed.
(** A claim that is asked to stop runs nothing. *)
Lemma stopped_execution now c w q1 r : mark_running now c (sv_queue w) = (q1, Ok tt) → load_async_request (k_payload c) = Ok r →
  (ar_tenant_id (named_request c r), ar_run_id (named_request c r)) ∈ sv_cancel w →
  ∃ w' row, _execute now c w = (w', Ok tt) ∧ run_queue (sv_queue w') !! claim_key c = Some row ∧ q_status row = q_cancelled ∧ sv_checkpoints w' = sv_checkpoints w.
Proof.
  intros Hm Hl Hc. rewrite (execute_unfold _ _ _ _ _ Hm Hl), run_unfold. apply transition_ok in Hm as [(row0 & Hrow) _].
  assert (stop_asked c (named_request c r) (started (named_request c r) (w <| sv_queue := q1 |>)).1 = true) as ->.
  { unfold stop_asked, is_cancelled. simpl. by rewrite bool_decide_true. }
  set (w1 := (started _ _).1). assert (sv_queue w1 = q1 ∧ sv_checkpoints w1 = sv_checkpoints w) as [Eq Ec] by done. clearbody w1.
  pose proof (proj1 (ends_keep (same sv_queue) (named_request c r) ltac:(by apply same_writes)) w1) as Fq.
  pose proof (proj1 (ends_keep (same sv_checkpoints) (named_request c r) ltac:(by apply same_writes)) w1) as Fc.
  assert ((cancelled_end (named_request c r) w1).2 = Ok oc_cancelled) as Er by done.
  destruct (cancelled_end _ w1) as [w2 res]. simpl in Er, Fq, Fc. subst res. unfold same in *.
  destruct (ended_settles now c w2 (Ok oc_cancelled) row0) as (q' & -> & _ & row & Hrow' & Hst & _); [by rewrite Fq, Eq|].
  exists (w2 <| sv_queue := q' |>), row. simpl. split; [done|]. split; [done|]. split; [done|]. by rewrite Fc, Ec.
Qed.

(** C18: A cancelled run cannot be run again in the process that cancelled it: the
    worker never forgets the cancellation, so every later execution of that
    run - after a resume that was accepted, with a fresh row that asks for
    no stop - ends cancelled at once, whatever the orchestrator would do. *)
Theorem cancelled_run_never_resumes p run w0 w1 ops now c q1 r :
  orchestrator_keeps cancel_grows → cancel p run w0 = (w1, Ok tt) → Forall not_restart ops →
  let w := exec_all ops w1 in
  mark_running now c (sv_queue w) = (q1, Ok tt) → load_async_request (k_payload c) = Ok r →
  ar_tenant_id (named_request c r) = pp_tenant p → ar_run_id (named_request c r) = run →
  ∃ w' row, _execute now c w = (w', Ok tt) ∧ run_queue (sv_queue w') !! claim_key c = Some row ∧ q_status row = q_cancelled ∧ sv_checkpoints w' = sv_checkpoints w.
Proof.
  intros Ho Hc Hn w Hm Hl Et Er. apply (stopped_execution _ _ _ _ _ Hm Hl). rewrite Et, Er.
  apply (all_cancel_grows ops w1 Ho Hn). by apply cancel_adds in Hc.
Qed.

Definition seen (w : Svc) : gmap (string * string) RunRecord * list (string * string * string * json_obj) := (sv_runs w, sv_events w).
Lemma run_locked_error now c r w w1 e : orchestrator_keeps (same seen) → run_locked now c r w = (w1, Err e) → seen w1 = seen w.
Proof.
  intros Ho. unfold run_locked, mbind, M_bind, _acquire_workspace, on_locks. destruct (acquire _ _ _) as [l [h|e']]; [|by intros [= <- _]].
  unfold finally. set (w0 := w <| sv_locks := l |>). assert (seen w0 = seen w) as <- by done. clearbody w0.
  change (unless_stopped now c r w0) with ((if stop_asked c r w0 then cancelled_end r else drive_on now r) w0).
  destruct (stop_asked c r w0); [done|]. pose proof (drive_keeps (same seen) r Ho w0) as Hd. unfold same in Hd. unfold drive_on, mbind, M_bind.
  destruct (drive r w0) as [w2 [state|e2]]; cbn [fst] in Hd; [done|]. intros E. apply (f_equal fst) in E. simpl in E. subst w1. by rewrite <- Hd.
Qed.
Lemma busy_run now c r w w' : orchestrator_keeps (same seen) → _run now c r w = (w', Ok oc_run_busy) → seen w' = seen (started r w).1.
Proof.
  intros Ho. rewrite run_unfold. set (w0 := (started r w).1). clearbody w0. destruct (stop_asked c r w0); [done|]. rewrite open_unfold.
  destruct (make_task r); [|done]. destruct (from_api_key _ _ _) as [p|e]; [|done]. destruct (open_bundle r p w0) as [u|e].
  - unfold catch. pose proof (run_locked_error now c r w0) as Hl.
    assert (∀ w2 o, run_locked now c r w0 = (w2, Ok o) → o ≠ oc_run_busy) as Hno.
    { intros w2 o. unfold run_locked, mbind, M_bind, finally. destruct (_acquire_workspace _ _ w0) as [w3 [h|e]]; [|done].
      change (unless_stopped now c r w3) with ((if stop_asked c r w3 then cancelled_end r else drive_on now r) w3). destruct (stop_asked c r w3); [by intros [= _ <-]|].
      unfold drive_on, mbind, M_bind. destruct (drive r w3) as [w4 [st|e]]; [by intros [= _ <-]|done]. }
    destruct (run_locked now c r w0) as [w1 [o|e]]; [intros [= <- ->]; by destruct (Hno _ _ eq_refl)|].
    specialize (Hl _ _ Ho eq_refl). unfold run_excepts. repeat (destruct (decide _)); try done. by intros [= <-].
  - unfold open_excepts. destruct (decide _); [done|]. by destruct (bool_decide _).
Qed.
(** A run that turns out to be busy elsewhere is marked failed in the queue,
    and nothing tells its callers: its record stays as it was - "queued" -
    and no event ends it. *)
Theorem busy_run_stays_queued now c w q1 r :
  orchestrator_keeps (same seen) → orchestrator_keeps (same sv_queue) →
  mark_running now c (sv_queue w) = (q1, Ok tt) → load_async_request (k_payload c) = Ok r →
  (_run now c (named_request c r) (w <| sv_queue := q1 |>)).2 = Ok oc_run_busy →
  let w' := (_execute now c w).1 in
  (∃ row, run_queue (sv_queue w') !! claim_key c = Some row ∧ q_status row = q_failed) ∧ sv_runs w' = sv_runs w ∧
  ∃ payload, sv_events w' = sv_events w ++ [(ar_tenant_id (named_request c r), ar_run_id (named_request c r), "run.started", payload)].
Proof.
  intros Ho Hq Hm Hl Hb. cbv zeta. rewrite (execute_unfold _ _ _ _ _ Hm Hl). apply transition_ok in Hm as [(row0 & Hrow) _].
  pose proof (_run_keeps (same sv_queue) now c (named_request c r) ltac:(by apply same_writes) ltac:(done) Hq (w <| sv_queue := q1 |>)) as Fq.
  pose proof (busy_run now c (named_request c r) (w <| sv_queue := q1 |>)) as Fs.
  destruct (_run _ _ _ _) as [w1 res]. cbn [snd fst] in *. subst res. specialize (Fs _ Ho eq_refl). unfold same in Fq. simpl in Fq.
  destruct (ended_settles now c w1 (Ok oc_run_busy) row0) as (q' & -> & _ & row & Hrow' & Hst & _); [by rewrite Fq|]. simpl.
  unfold seen in Fs. injection Fs as F1 F2. split; [eauto|]. split; [done|]. eexists. exact F2.
Qed.

(** A stored payload that cannot be read back stops the polling thread: the
    exception is no one's to catch, and the row stays running. *)
Theorem unreadable_payload_stays_running now c w q1 e :
  mark_running now c (sv_queue w) = (q1, Ok tt) → load_async_request (k_payload c) = Err e →
  _execute now c w = (w <| sv_queue := q1 |>, Err e) ∧ ∃ row, run_queue q1 !! claim_key c = Some row ∧ q_status row = q_running.
Proof.
  intros Hm Hl. split.
  - unfold _execute, mbind, M_bind, on_queue. rewrite Hm. unfold lift. by rewrite Hl.
  - apply transition_ok in Hm as [(row & ? & ? & _) _]. eauto.
Qed.
End Faults.

(** *** Witnesses *)

Section Witnesses.
Import Toy.
(** An orchestrator whose runs do this. *)
Definition toy (run : AsyncRunRequest → M Svc RunRecord) : Orchestrator :=
  {| make_task _ := Ok tt; open_bundle _ _ _ := Ok tt; start_run := run; resume_run := run; error_code _ := "run_failed" |}.
Definition good : Orchestrator := toy (λ r, mret (mkRunRecord (ar_run_id r) None "repo-chore" "succeeded" 0 (ar_tenant_id r) (Some "succeeded")
  None (Some 1) None None false (Some (Z2f 2)) None None None None)).
Definition busy : Orchestrator := toy (λ _, raise RunBusy).
Lemma good_keeps {X} (g : Svc → X) : orchestrator_keeps (H1 := good) (same g).
Proof. by split. Qed.
Lemma busy_keeps {X} (g : Svc → X) : orchestrator_keeps (H1 := busy) (same g).
Proof. by split. Qed.
Lemma good_grows : orchestrator_keeps (H1 := good) registry_grows.
Proof. split; intros r w; unfold registry_grows; simpl; reflexivity. Qed.
Lemma good_cancel : orchestrator_keeps (H1 := good) cancel_grows.
Proof. split; intros r w; unfold cancel_grows; simpl; reflexivity. Qed.

Definition enter (run : string) : SvcOp := so_create 0 "" alice (body run) None None None.
Definition take_one : SvcOp := so_queue (OClaim "w" [0]).
Definition claim_of (run : string) (w : Svc) : Claim :=
  match run_queue (sv_queue w) !! ("acme", run, "run") with
  | Some r => mkQClaim "acme" run "run" (q_claim_token r) 1 (q_payload r)
  | None => mkQClaim "acme" run "run" 0 1 []
  end.
Definition w_claimed : Svc := exec_all (H1 := good) [enter "r1"; take_one] w0.
Definition c1 : Claim := claim_of "r1" w_claimed.
Definition r_r1 : AsyncRunRequest := match load_async_request (k_payload c1) with Ok r => r | Err _ => a_request end.
Lemma c1_loads : load_async_request (k_payload c1) = Ok r_r1.
Proof. by vm_compute. Qed.
Lemma c1_marked : mark_running 0 c1 (sv_queue w_claimed) = ((mark_running 0 c1 (sv_queue w_claimed)).1, Ok tt).
Proof. by vm_compute. Qed.

Lemma execution_settles_witness : ∃ w' row, _execute (H1 := good) 0 c1 w_claimed = (w', Ok tt) ∧
  run_queue (sv_queue w') !! claim_key c1 = Some row ∧ in_flight (q_status row) = false.
Proof.
  destruct (execution_settles (H1 := good) 0 c1 w_claimed _ _ (good_keeps _) (good_keeps _) (good_keeps _) c1_marked c1_loads)
    as (w' & row & Hx & Hr & _ & _ & Hf & _).
  exists w', row. exact (conj Hx (conj Hr Hf)).
Defined.
Lemma run_id_accepted_once_witness : accepted_ids (H1 := good) [enter "r1"; enter "r1"; so_restart; enter "r1"; enter "r2"] w0 = [("acme", "r1"); ("acme", "r2")] ∧
  NoDup (accepted_ids (H1 := good) [enter "r1"; enter "r1"; so_restart; enter "r1"; enter "r2"] w0).
Proof. split; [by vm_compute|]. apply (run_id_accepted_once (H1 := good)), good_grows. Defined.
Lemma execution_charges_once_witness :
  (_execute (H1 := good) 0 c1 w_claimed).1.(sv_quota).(qt_daily) !! ("acme", "2026-01-01") = Some (1, Z2f 2) ∧
  let w1 := w_claimed <| sv_queue := (mark_running 0 c1 (sv_queue w_claimed)).1 |> in let r' := named_request c1 r_r1 in
  charges (H1 := good) 0 r' (driven_in r' w1) w_claimed ((_execute (H1 := good) 0 c1 w_claimed).1, (_run (H1 := good) 0 c1 r' w1).2).
Proof.
  split; [by vm_compute|]. exact (execution_charges_once (H1 := good) 0 c1 w_claimed _ _ (good_keeps _) c1_marked c1_loads).
Defined.
Lemma busy_run_stays_queued_witness : ∃ row, run_queue (sv_queue (_execute (H1 := busy) 0 c1 w_claimed).1) !! claim_key c1 = Some row ∧ q_status row = q_failed.
Proof.
  apply (busy_run_stays_queued (H1 := busy) 0 c1 w_claimed _ _ (busy_keeps _) (busy_keeps _) c1_marked c1_loads). by vm_compute.
Defined.
(** Cancelled, resumed once it was settled, claimed again. *)
Definition w_cancelled : Svc := (cancel alice "r1" w_claimed).1.
Definition retry : list SvcOp := [so_execute 0 c1; so_resume 0 alice "r1"; take_one].
Definition w_retry : Svc := exec_all (H1 := good) retry w_cancelled.
Definition c2 : Claim := claim_of "r1" w_retry.
Lemma cancelled_run_never_resumes_witness : k_claim_token c2 ≠ k_claim_token c1 ∧
  ∃ w' row, _execute (H1 := good) 0 c2 w_retry = (w', Ok tt) ∧ run_queue (sv_queue w') !! claim_key c2 = Some row ∧ q_status row = q_cancelled.
Proof.
  split; [by vm_compute|].
  assert (load_async_request (k_payload c2) = Ok (match load_async_request (k_payload c2) with Ok r => r | Err _ => a_request end)) as Hl by by vm_compute.
  assert (mark_running 0 c2 (sv_queue w_retry) = ((mark_running 0 c2 (sv_queue w_retry)).1, Ok tt)) as Hm by by vm_compute.
  destruct (cancelled_run_never_resumes (H1 := good) alice "r1" w_claimed w_cancelled retry 0 c2 (mark_running 0 c2 (sv_queue w_retry)).1
    (match load_async_request (k_payload c2) with Ok r => r | Err _ => a_request end) good_cancel) as (w' & row & Hx & Hr & Hs & _);
    [by vm_compute|by repeat constructor|exact Hm|exact Hl|by vm_compute|by vm_compute|]. exists w', row. exact (conj Hx (conj Hr Hs)).
Defined.
End Witnesses.
