(* ===== verification/DayCap.v ===== *)
(** * The daily cap under concurrent requests and workers (app/runs.py,
    api/quotas.py, workers/embedded.py)

    What requests and workers do at the same time, as the steps between which
    others come: a create or a resume up to its admission; each read of the
    queue that [admit] makes; the quota's check, which reserves nothing; the
    record, event and row of the run; and of an execution the marking of its
    claim, the run with its charge, and the settlement.  A [Busy] host is the
    service state with the requests between two such steps and the
    executions under way.  Creates done without a pause are [create_part]
    ([create_uninterrupted]).  The theorem: how far a tenant's day can go over
    its cap. *)
From S2P Require Import Prelude PyStr Budgets Contracts Queue Access RunListing Admission RunWorker.
From Stdlib Require Import ZArith Lia Ascii.
Open Scope Z_scope.

(** ** Requests and executions under way *)

(** How far [admit] has come: what it has read so far, in its order. *)
Inductive Stage :=
  | sg_start | sg_inflight (inflight : Z) | sg_depth (inflight depth : Z) | sg_depth_cap (inflight depth cap : Z)
  | sg_loaded (l : Load) | sg_admitted.
(** A request in [_enqueue_run], between its wait seconds and its row. *)
Record Call := mkCall { cl_tenant : string; cl_run : string; cl_enqueue : Enqueue; cl_stage : Stage }.
(** A claim marked running and read back, and what came of its run. *)
Record Running := mkRunning { rn_claim : Claim; rn_request : AsyncRunRequest; rn_result : option (result RunOutcome) }.
Record Busy := mkBusy { bz_svc : Svc; bz_calls : list Call; bz_running : list Running }.
#[export] Instance eta_Busy : Eta Busy := λ b, mkBusy (bz_svc b) (bz_calls b) (bz_running b).

Section Steps.
Context `{RequestModels} `{Host} `{Orchestrator}.

(** [create] and [resume] up to [_enqueue_run]'s admission. *)
Definition create_begin (now : Z) (uuid : string) (p : Principal) (b : RunCreate) (wait x_recertia_wait prefer : option string) : M Svc Call :=
  got ← reserve_part now uuid p b;
  let '(run, workdir, meta, config) := got in
  e ← locked_prepare p b (pp_tenant p) run workdir meta config;
  _ ← lift (call_wait wait x_recertia_wait prefer e);
  mret (mkCall (pp_tenant p) run e sg_start).
Definition resume_begin (p : Principal) (run0 : string) : M Svc Call :=
  got ← resume_prep p run0;
  let '(run, e) := got in
  _ ← lift (call_wait None None None e);
  mret (mkCall (pp_tenant p) run e sg_start).

(** The next read of [admit]. *)
Definition read_stage (t : string) (q : QueueDb) (s : Stage) : Stage :=
  match s with
  | sg_start => sg_inflight (inflight q t)
  | sg_inflight n => sg_depth n (depth q t)
  | sg_depth n d => sg_depth_cap n d (depth_cap ho_settings q t)
  | sg_depth_cap n d cap => sg_loaded (mkLoad n d cap (in_flight_cap q t))
  | sg_loaded _ | sg_admitted => s
  end.
Definition at_stage (c : Call) (s : Stage) : Call := mkCall (cl_tenant c) (cl_run c) (cl_enqueue c) s.
(** A request's next step; [None] when its row is written. *)
Definition call_step (now : Z) (c : Call) : M Svc (option Call) :=
  match cl_stage c with
  | sg_loaded l => _ ← quota_check now (cl_tenant c) l; mret (Some (at_stage c sg_admitted))
  | sg_admitted => _ ← queue_part now (cl_tenant c) (cl_run c) (cl_enqueue c); mret None
  | s => λ w, (w, Ok (Some (at_stage c (read_stage (cl_tenant c) (sv_queue w) s))))
  end.

(** The steps of a busy host. *)
Inductive HostStep :=
  | hs_create (now : Z) (uuid : string) (p : Principal) (b : RunCreate) (wait x_recertia_wait prefer : option string)
  | hs_resume (p : Principal) (run : string)
  | hs_call (i : nat) (now : Z)                     (* the next step of the i-th request *)
  | hs_begin (now : Z) (c : Claim)                  (* mark running, read back *)
  | hs_run (i : nat) (now : Z)                      (* run, and charge *)
  | hs_settle (i : nat) (now : Z)                   (* settle the i-th execution's row *)
  | hs_get (now : Z) (p : option Principal) (t run : string)
  | hs_cancel (p : Principal) (run : string)
  | hs_queue (o : qop)
  | hs_restart.
Definition arrives (m : M Svc Call) (b : Busy) : Busy :=
  match m (bz_svc b) with
  | (w, Ok c) => mkBusy w (bz_calls b ++ [c]) (bz_running b)
  | (w, Err _) => b <| bz_svc := w |>
  end.
Definition advance (i : nat) (now : Z) (c : Call) (b : Busy) : Busy :=
  match call_step now c (bz_svc b) with
  | (w, Ok (Some c')) => b <| bz_svc := w |> <| bz_calls := <[i := c']> (bz_calls b) |>
  | (w, _) => b <| bz_svc := w |> <| bz_calls := delete i (bz_calls b) |>
  end.
Definition begin_run (now : Z) (c : Claim) (b : Busy) : Busy :=
  match on_queue (mark_running now c) (bz_svc b) with
  | (w, Err _) => b <| bz_svc := w |>
  | (w, Ok _) => match load_async_request (k_payload c) with
                 | Err _ => b <| bz_svc := w |>
                 | Ok r => b <| bz_svc := w |> <| bz_running := bz_running b ++ [mkRunning c (named_request c r) None] |>
                 end
  end.
Definition do_run (i : nat) (now : Z) (r : Running) (b : Busy) : Busy :=
  let '(w, res) := _run now (rn_claim r) (rn_request r) (bz_svc b) in
  b <| bz_svc := w |> <| bz_running := <[i := mkRunning (rn_claim r) (rn_request r) (Some res)]> (bz_running b) |>.
Definition do_settle (i : nat) (now : Z) (r : Running) (res : result RunOutcome) (b : Busy) : Busy :=
  b <| bz_svc := (claim_ended now (rn_claim r) (bz_svc b, res)).1 |> <| bz_running := delete i (bz_running b) |>.
Definition held_key (r : Running) : string * string * string := claim_key (rn_claim r).
(** The run was charged and its row is still to be settled. *)
Definition charged (r : Running) : bool := match rn_result r with Some (Ok oc_succeeded) => true | _ => false end.
(** [None]: there is no such request or execution, its turn is not come, or a
    claim already under execution would be executed again. *)
Definition try_step (m : HostStep) (b : Busy) : option Busy :=
  match m with
  | hs_create now uuid p body x y z => Some (arrives (create_begin now uuid p body x y z) b)
  | hs_resume p run => Some (arrives (resume_begin p run) b)
  | hs_call i now => c ← bz_calls b !! i; Some (advance i now c b)
  | hs_begin now c => if bool_decide (claim_key c ∈ map held_key (bz_running b)) then None else Some (begin_run now c b)
  | hs_run i now => r ← bz_running b !! i; match rn_result r with None => Some (do_run i now r b) | Some _ => None end
  | hs_settle i now => r ← bz_running b !! i; res ← rn_result r; Some (do_settle i now r res b)
  | hs_get now p t run => Some (b <| bz_svc := (service_get now p t run (bz_svc b)).1 |>)
  | hs_cancel p run => Some (b <| bz_svc := (cancel p run (bz_svc b)).1 |>)
  | hs_queue o => Some (b <| bz_svc := ((bz_svc b) <| sv_queue := exec ho_settings o (sv_queue (bz_svc b)) |>) |>)
  | hs_restart => if existsb charged (bz_running b) then None else Some (mkBusy (restart (bz_svc b)) [] [])
  end.
End Steps.

(** ** Counting *)

Definition tally {A} (p : A → bool) (l : list A) : Z := foldr (λ x n, indicator (p x) + n) 0 l.
Lemma indicator_bounds b : 0 ≤ indicator b ≤ 1. Proof. destruct b; simpl; lia. Qed.
Lemma tally_app {A} (p : A → bool) l l' : tally p (l ++ l') = tally p l + tally p l'.
Proof. induction l as [|x l IH]; simpl; lia. Qed.
Lemma tally_insert {A} (p : A → bool) l i x y : l !! i = Some x → tally p (<[i := y]> l) = tally p l - indicator (p x) + indicator (p y).
Proof. revert i. induction l as [|z l IH]; intros [|i] Hi; simpl in *; try done; [injection Hi as ->; lia|]. rewrite (IH i Hi). lia. Qed.
Lemma tally_delete {A} (p : A → bool) l i x : l !! i = Some x → tally p (delete i l) = tally p l - indicator (p x).
Proof. revert i. induction l as [|z l IH]; intros [|i] Hi; simpl in *; try done; [injection Hi as ->; lia|]. rewrite (IH i Hi). lia. Qed.
Lemma tally_mono {A} (p q : A → bool) l : (∀ x, p x = true → q x = true) → 0 ≤ tally p l ≤ tally q l.
Proof. intros Hpq. induction l as [|x l IH]; simpl; [lia|]. specialize (Hpq x). destruct (p x), (q x); simpl in *; lia. Qed.
Lemma tally_length {A} (p : A → bool) l : tally p l = Z.of_nat (length (List.filter p l)).
Proof. induction l as [|x l IH]; [done|]. simpl. destruct (p x); simpl; lia. Qed.
Lemma tally_nonneg {A} (p : A → bool) l : 0 ≤ tally p l. Proof. exact (proj1 (tally_mono p p l (λ x Hx, Hx))). Qed.
Lemma tally_none {A} (p : A → bool) l : existsb p l = false → tally p l = 0.
Proof. induction l as [|x l IH]; [done|]. simpl. intros [-> Hl]%orb_false_iff. by rewrite (IH Hl). Qed.

Section Cap.
Context `{RequestModels} `{Host} `{Orchestrator}.
Context (t day : string) (F D : Z) (N : nat).

Definition active (s : QStatus) : bool := bool_decide (s = q_queued) || in_flight s.
Definition is_active (k : string * string * string) (r : QRow) : bool :=
  bool_decide (key_tenant k = t) && bool_decide (key_kind k = "run") && active (q_status r).
(** The tenant's runs that are queued, claimed or running. *)
Definition live_runs (d : QueueDb) : Z := count_rows is_active d.
Definition runs_today (w : Svc) : Z := (daily t day (sv_quota w)).1.

Lemma count_le p d d' : (∀ k r', run_queue d' !! k = Some r' → p k r' = true → ∃ r, run_queue d !! k = Some r ∧ p k r = true) →
  count_rows p d' ≤ count_rows p d.
Proof.
  intros Hp. unfold count_rows. rewrite <- !(size_dom (D := gset (string * string * string))). apply inj_le, subseteq_size. intros k.
  rewrite !elem_of_dom. intros [r' [Hk Hr]%map_lookup_filter_Some]. destruct (Hp k r' Hk Hr) as (r & Hr1 & Hr2).
  exists r. by apply map_lookup_filter_Some.
Qed.
Lemma count_or p q s d : (∀ k r, s k r = true → p k r = true ∨ q k r = true) → count_rows s d ≤ count_rows p d + count_rows q d.
Proof.
  intros Hs. unfold count_rows. rewrite <- Nat2Z.inj_add. apply inj_le. rewrite <- !(size_dom (D := gset (string * string * string))).
  set (P := dom (filter _ (run_queue d))). set (Q := dom _). set (R := dom _).
  transitivity (size (Q ∪ R)); [|rewrite size_union_alt; pose proof (subseteq_size (R ∖ Q) R ltac:(set_solver)); lia].
  apply subseteq_size. intros k. rewrite elem_of_union. unfold P, Q, R. rewrite !elem_of_dom. intros [r [Hk Hr]%map_lookup_filter_Some].
  destruct (Hs k r Hr); [left|right]; exists r; by apply map_lookup_filter_Some.
Qed.
Lemma live_le d : live_runs d ≤ depth d t + inflight d t.
Proof.
  apply count_or. intros k r. unfold is_active, active. destruct (bool_decide (key_tenant k = t)), (bool_decide (key_kind k = "run")),
    (bool_decide (q_status r = q_queued)), (in_flight (q_status r)); simpl; auto.
Qed.

(** Rows that were live before. *)
Definition was_live (d d' : QueueDb) : Prop :=
  ∀ k r', run_queue d' !! k = Some r' → active (q_status r') = true → ∃ r, run_queue d !! k = Some r ∧ active (q_status r) = true.
Lemma was_live_refl d : was_live d d. Proof. intros k r'. eauto. Qed.
Lemma was_live_same d d' : run_queue d' = run_queue d → was_live d d'. Proof. intros E k r'. rewrite E. eauto. Qed.
Lemma was_live_trans a b c : was_live a b → was_live b c → was_live a c.
Proof. intros H3 H4 k r' Hk Hr. destruct (H4 _ _ Hk Hr) as (r & Hk2 & Hr2). by apply (H3 k r). Qed.
Lemma was_live_count d d' : was_live d d' → live_runs d' ≤ live_runs d.
Proof.
  intros Hw. apply count_le. intros k r' Hk. unfold is_active. rewrite andb_true_iff. intros [Hb Hr]. destruct (Hw k r' Hk Hr) as (r & ? & Hr').
  exists r. split; [done|]. by rewrite Hb.
Qed.
Lemma was_live_insert d k r r' : run_queue d !! k = Some r → active (q_status r) = true → was_live d (d <| run_queue := <[k := r']> (run_queue d) |>).
Proof.
  intros Hk Hr k' r'' Hk'. simpl in Hk'. destruct (decide (k = k')) as [<-|Hne]; [eauto|]. rewrite lookup_insert_ne in Hk' by done. eauto.
Qed.
Lemma in_flight_active s : in_flight s = true → active s = true. Proof. unfold active. intros ->. by rewrite orb_true_r. Qed.
Lemma owned_live c from d r r' : owned_row c from d = Some r → (∀ s, s ∈ from → in_flight s = true) →
  was_live d (d <| run_queue := <[claim_key c := r']> (run_queue d) |>).
Proof. intros Ho Hf. apply owned_row_Some in Ho as (Hk & _ & Hs). apply (was_live_insert _ _ r); [done|]. apply in_flight_active. auto. Qed.
Lemma transition_live now c st code from d : (∀ s, s ∈ from → in_flight s = true) → was_live d (_transition now c st code from d).1.
Proof.
  intros Hf. unfold _transition. destruct (owned_row c from d) as [r|] eqn:E; [by apply (owned_live c from d r)|].
  destruct (run_queue d !! claim_key c); [destruct (_ && _)|]; apply was_live_refl.
Qed.
Lemma claim_one_live cfg wk now d : was_live d (_claim_one cfg wk now d).1.
Proof.
  destruct (_claim_one cfg wk now d) as [d' [c|]] eqn:E; simpl.
  - apply claim_one_Some in E as (k & r & x & Hp & _ & _ & _ & ->). apply pick_spec in Hp as [Hp _]. apply candidates_spec in Hp as (Hr & s & Hs & _).
    assert (active (q_status r) = true) as Ha.
    { unfold claimable in Hs. destruct (tenant_sched d !! _), (tenant_limits d !! _); simpl in Hs; try done. unfold active. by destruct (bool_decide (q_status r = q_queued)). }
    intros k' r' Hk' Hr'. simpl in Hk'. by apply (was_live_insert d k r (claim_row wk now r) Hr Ha k' r').
  - unfold _claim_one in E. destruct (maintenance d) as [[]|]; try (injection E as <-; apply was_live_refl).
    destruct (pick now d) as [[[k' r] x]|]; [discriminate|]. injection E as <-. apply was_live_refl.
Qed.
Lemma claim_live cfg wk clock d : was_live d (claim cfg wk clock d).1.
Proof.
  revert d. induction clock as [|now clock IH]; intros d; simpl; [apply was_live_refl|]. pose proof (claim_one_live cfg wk now d) as H3.
  destruct (_claim_one cfg wk now d) as [d1 [c|]]; simpl in *; [|done]. pose proof (IH d1) as H4. destruct (claim cfg wk clock d1). by apply (was_live_trans d d1).
Qed.
Definition not_enqueue (o : qop) : Prop := match o with OEnqueue _ _ _ => False | _ => True end.
Lemma exec_live cfg o d : not_enqueue o → was_live d (exec cfg o d).
Proof.
  intros Hn. destruct o as [|wk clock|now c|now c|now c st code|due c code|u run kind|u n|m| | |alive now]; simpl; try (by destruct Hn); try (by apply was_live_same).
  - apply claim_live.
  - unfold heartbeat_claim. destruct (owned_row _ _ _) as [r|] eqn:E; [|apply was_live_refl]. apply (owned_live _ _ _ _ _ E), elem_in_flight.
  - apply transition_live. intros s ->%list_elem_of_singleton. done.
  - apply transition_live, elem_in_flight.
  - unfold requeue. destruct (owned_row _ _ _) as [r|] eqn:E; [|apply was_live_refl]. apply (owned_live _ _ _ _ _ E), elem_in_flight.
  - intros k r' Hk Hr. simpl in Hk. destruct (decide (k = (u, run, kind))) as [->|Hne]; [|rewrite lookup_alter_ne in Hk by done; eauto].
    rewrite lookup_alter_eq in Hk. destruct (run_queue d !! _) as [r|] eqn:E; [|done]. simpl in Hk. exists r. split; [done|].
    injection Hk as <-. by destruct (bool_decide _).
  - intros k r' Hk Hr. change ((reconcile_row alive now d <$> run_queue d) !! k = Some r') in Hk. rewrite lookup_fmap in Hk. destruct (run_queue d !! k) as [r|]; [|done]. simpl in Hk. injection Hk as <-. exists r. split; [done|].
    unfold reconcile_row in Hr. destruct (orphaned alive d r) eqn:Eo; [|exact Hr]. unfold orphaned in Eo. apply andb_true_iff in Eo as [Eo _]. by apply in_flight_active.
Qed.

Lemma count_insert_le p d k r : count_rows p (d <| run_queue := <[k := r]> (run_queue d) |>) ≤ count_rows p d + indicator (p k r).
Proof.
  rewrite count_insert. cut (count_rows p (d <| run_queue := delete k (run_queue d) |>) ≤ count_rows p d); [lia|].
  apply count_le. intros k' r' Hk Hr. simpl in Hk. apply lookup_delete_Some in Hk as [_ Hk]. eauto.
Qed.
Definition tenant_share (u : string) : Z := indicator (bool_decide (u = t)).
Lemma enqueue_live cfg now rt i d : live_runs (enqueue cfg now rt i d).1 ≤ live_runs d + tenant_share (i_tenant_id i).
Proof.
  assert (0 ≤ tenant_share (i_tenant_id i)) as Hpos by (unfold tenant_share, indicator; destruct (bool_decide _); lia).
  unfold enqueue, tenant_id. destruct (tenant_ok _); [|simpl; lia]. destruct (negb _); [simpl; lia|]. cbv zeta. set (u := i_tenant_id i) in *.
  assert (∀ tok, live_runs (ensure_tenant cfg u d <| run_queue := <[(u, i_run_id i, i_kind i) := fresh_row cfg now tok i]> (run_queue (ensure_tenant cfg u d)) |>)
    ≤ live_runs d + tenant_share u) as Hf.
  { intros tok. etransitivity; [apply (count_insert_le is_active (ensure_tenant cfg u d))|]. change (count_rows is_active (ensure_tenant cfg u d)) with (live_runs d).
    unfold is_active, tenant_share, key_tenant. simpl. change (active q_queued) with true. rewrite andb_true_r. unfold indicator.
    destruct (bool_decide (u = t)), (bool_decide _); simpl; lia. }
  change (run_queue (ensure_tenant cfg u d)) with (run_queue d) in *. destruct (run_queue d !! _) as [old|]; [destruct (_ && _)|].
  - destruct (_ <=? _); simpl; [change (live_runs (ensure_tenant cfg u d)) with (live_runs d); lia|apply Hf].
  - simpl. change (live_runs (ensure_tenant cfg u d)) with (live_runs d). lia.
  - destruct (_ <=? _); simpl; [change (live_runs (ensure_tenant cfg u d)) with (live_runs d); lia|apply Hf].
Qed.

Definition defaults_le : Prop := tenant_max_in_flight ho_settings ≤ F ∧ tenant_max_queue_depth ho_settings ≤ D.

Lemma row_leaves d d' k r : run_queue d !! k = Some r → active (q_status r) = true → only_row (mkQClaim k.1.1 k.1.2 k.2 0 0 []) d d' →
  (∀ r', run_queue d' !! k = Some r' → active (q_status r') = false) → key_kind k = "run" → live_runs d' + tenant_share (key_tenant k) ≤ live_runs d.
Proof.
  intros Hk Ha Ho Hn Hkind. unfold live_runs. rewrite (count_delete _ _ _ _ Hk).
  assert (is_active k r = bool_decide (key_tenant k = t)) as -> by (unfold is_active; by rewrite Hkind, Ha, !andb_true_r).
  fold (tenant_share (key_tenant k)).
  cut (count_rows is_active d' ≤ count_rows is_active (d <| run_queue := delete k (run_queue d) |>)); [lia|].
  apply count_le. intros k' r' Hk' Hr'. destruct (decide (k = k')) as [<-|Hne].
  - specialize (Hn _ Hk'). unfold is_active in Hr'. by rewrite Hn, andb_false_r in Hr'.
  - exists r'. split; [|done]. simpl. rewrite lookup_delete_ne by done. rewrite <- (Ho k'); [done|]. unfold claim_key. simpl. by destruct k as [[]].
Qed.

(** *** What keeps the queue within the caps *)

(** No more of the tenant's rows are in flight than [F], and the caps in force
    never exceed [F] and [D]. *)
Definition depth_caps (d : QueueDb) : Prop := ∀ l, tenant_limits d !! t = Some l → max_queue_depth l ≤ D.
Definition within_caps (d : QueueDb) : Prop := cap_bound d t F ∧ depth_caps d.
Lemma ensure_depth_caps u d : defaults_le → depth_caps d → depth_caps (ensure_tenant ho_settings u d).
Proof.
  intros [_ Hd] Hc l. simpl. destruct (tenant_limits d !! u) eqn:E; [apply Hc|]. destruct (decide (u = t)) as [->|Hne].
  - rewrite lookup_insert_eq. by intros [= <-].
  - rewrite lookup_insert_ne by done. apply Hc.
Qed.
Lemma exec_limits cfg o d : not_enqueue o → (∀ u n, o ≠ OSetMax u n) → tenant_limits (exec cfg o d) = tenant_limits d.
Proof.
  intros Hn Hs. destruct o as [|wk clock|now c|now c|now c st code|due c code|u run kind|u n|m| | |alive now]; simpl; try (by destruct Hn); try done.
  - clear Hn Hs. revert d. induction clock as [|now clock IH]; intros d; simpl; [done|].
    assert (tenant_limits (_claim_one cfg wk now d).1 = tenant_limits d) as E1.
    { unfold _claim_one. destruct (maintenance d) as [[]|]; try done. by destruct (pick now d) as [[[k r] x]|]. }
    destruct (_claim_one cfg wk now d) as [d1 [c|]]; simpl in *; [|done]. specialize (IH d1). destruct (claim cfg wk clock d1). simpl in *. congruence.
  - unfold heartbeat_claim. by destruct (owned_row _ _ _).
  - apply (transition_in_flight now c q_running None [q_claimed] d t). intros s ->%list_elem_of_singleton. done.
  - apply (transition_in_flight now c st code _ d t elem_in_flight).
  - unfold requeue. by destruct (owned_row _ _ _).
  - by destruct (Hs u n).
Qed.
Lemma op_depth_caps o d : defaults_le → depth_caps d → depth_caps (exec ho_settings o d).
Proof.
  intros Hd Hc. destruct o as [now rt i| | | | | | |u n| | | |]; try (intros l; rewrite exec_limits; [apply Hc|done|done]).
  - intros l. simpl. destruct (enqueue_limits ho_settings now rt i d) as [->|[u ->]]; [apply Hc|by apply ensure_depth_caps].
  - intros l. simpl. pose proof (ensure_depth_caps u d Hd Hc) as He. unfold depth_caps in He. simpl in He. destruct (decide (u = t)) as [->|Hne].
    + rewrite lookup_alter_eq. destruct (match tenant_limits d !! t with Some _ => _ | None => _ end !! t) as [l0|]; [|done].
      intros [= <-]. simpl. by apply He.
    + rewrite lookup_alter_ne by done. apply He.
Qed.
Lemma op_within o d : defaults_le → op_cap_le t F o → within_caps d → within_caps (exec ho_settings o d).
Proof. intros [Hf Hd] Ho [Hb Hc]. split; [by apply exec_bound|by apply op_depth_caps]. Qed.

(** *** What a step may do to the day and to the live runs *)

Definition quiet (w w' : Svc) : Prop :=
  daily_of w' = daily_of w ∧ live_runs (sv_queue w') ≤ live_runs (sv_queue w) ∧ (within_caps (sv_queue w) → within_caps (sv_queue w')).
#[local] Instance quiet_refl : Reflexive quiet. Proof. intros w. split; [done|]. split; [lia|done]. Qed.
#[local] Instance quiet_trans : Transitive quiet.
Proof. intros a b c (A1 & A2 & A3) (B1 & B2 & B3). split; [congruence|]. split; [lia|auto]. Qed.
Lemma same_quiet w w' : sv_queue w' = sv_queue w → daily_of w' = daily_of w → quiet w w'.
Proof. intros Eq Ed. unfold quiet. rewrite Eq. split; [done|]. split; [lia|done]. Qed.
Lemma op_quiet o w : defaults_le → not_enqueue o → op_cap_le t F o → quiet w (w <| sv_queue := exec ho_settings o (sv_queue w) |>).
Proof. intros Hd Hn Ho. split; [done|]. split; [by apply was_live_count, exec_live|by apply op_within]. Qed.
Lemma on_queue_op {A} (f : QueueDb → QueueDb * result A) o w : (f (sv_queue w)).1 = exec ho_settings o (sv_queue w) →
  (on_queue f w).1 = w <| sv_queue := exec ho_settings o (sv_queue w) |>.
Proof. unfold on_queue. destruct (f (sv_queue w)). by intros <-. Qed.
Lemma mark_quiet now c w : defaults_le → quiet w (on_queue (mark_running now c) w).1.
Proof. intros Hd. rewrite (on_queue_op _ (OMarkRunning now c)) by done. by apply op_quiet. Qed.
Lemma settle_quiet now c res w : defaults_le → quiet w (claim_ended now c (w, res)).1.
Proof.
  intros Hd. assert (∃ o, not_enqueue o ∧ op_cap_le t F o ∧ (claim_ended now c (w, res)).1 = w <| sv_queue := exec ho_settings o (sv_queue w) |>) as (o & Hn & Ho & ->);
    [|by apply op_quiet].
  unfold claim_ended, settle_claim. destruct res as [[]|e]; [..|destruct (decide _)];
    first [by eexists (OFinish now c _ _); split; [done|]; split; [done|]; apply on_queue_op
          |by eexists (ORequeue _ c _); split; [done|]; split; [done|]; apply on_queue_op].
Qed.
Lemma cancel_quiet p run w : defaults_le → quiet w (cancel p run w).1.
Proof.
  intros Hd. assert (keeps quiet (cancel p run)) as Hk; [|apply Hk]. unfold cancel. cbv zeta. keep_steps.
  - by apply (op_quiet (OCancel _ _ "run")).
  - pose (v := w0 <| sv_cancel := {[(pp_tenant p, a)]} ∪ sv_cancel w0 |>).
    apply (quiet_trans _ v); [by apply same_quiet|exact (op_quiet (OCancel (pp_tenant p) a "run") v Hd I I)].
  - by apply same_quiet.
Qed.
Definition day_and_queue (w : Svc) : gmap (string * string) (Z * float) * QueueDb := (daily_of w, sv_queue w).
Lemma unseen_quiet w w' : day_and_queue w' = day_and_queue w → quiet w w'.
Proof. unfold day_and_queue. intros E. apply same_quiet; [exact (f_equal snd E)|exact (f_equal fst E)]. Qed.
Lemma create_begin_quiet now uuid p b x y z w : quiet w (create_begin now uuid p b x y z w).1.
Proof.
  apply unseen_quiet. assert (keeps (same day_and_queue) (create_begin now uuid p b x y z)) as Hk; [|apply Hk].
  unfold create_begin. keep_steps; [by apply reserve_part_same|]. intros v. unfold same. by rewrite (locked_prepare_dirs _ _ _ _ _ _ _ v).
Qed.
Lemma resume_begin_quiet p run w : quiet w (resume_begin p run w).1.
Proof.
  apply unseen_quiet. assert (keeps (same day_and_queue) (resume_begin p run)) as Hk; [|apply Hk].
  unfold resume_begin. keep_steps. by apply resume_prep_same.
Qed.
(** One row more at most, of the request's tenant. *)
Lemma queue_part_grows now u run e w : defaults_le → let w' := (queue_part now u run e w).1 in
  daily_of w' = daily_of w ∧ live_runs (sv_queue w') ≤ live_runs (sv_queue w) + tenant_share u ∧
  (within_caps (sv_queue w) → within_caps (sv_queue w')).
Proof.
  intros Hd. set (i := queue_item u run e).
  assert (daily_of (queue_part now u run e w).1 = daily_of w) as Ed.
  { assert (keeps (same daily_of) (queue_part now u run e)) as Hk; [|apply Hk]. unfold queue_part. cbv zeta. keep_steps; first [by apply on_queue_same|done]. }
  assert (sv_queue (queue_part now u run e w).1 = exec ho_settings (OEnqueue now (en_replace_terminal e) i) (sv_queue w)) as Eq.
  { unfold queue_part, update, append_event, enqueue_async_run, catch, service_release, raise, on_queue, mbind, M_bind, i, queue_item. simpl.
    by destruct (enqueue _ _ _ _ _) as [q' [[]|x]]. }
  cbv zeta. rewrite Eq. split; [done|]. split; [exact (enqueue_live ho_settings now (en_replace_terminal e) i (sv_queue w))|]. by apply op_within.
Qed.

(** A run that was charged takes its row out of the live ones. *)
Lemma settle_leaves now c w r : runs_claim c (sv_queue w) r → k_kind c = "run" →
  live_runs (sv_queue (claim_ended now c (w, Ok oc_succeeded)).1) + tenant_share (k_tenant_id c) ≤ live_runs (sv_queue w).
Proof.
  intros Hr Hk. pose proof Hr as (Hrow & Hst & _). destruct (ended_settles now c w (Ok oc_succeeded) r Hr) as (q' & -> & Ho & r' & Hr' & Hs & _). simpl.
  change (k_tenant_id c) with (key_tenant (claim_key c)). apply (row_leaves (sv_queue w) q' (claim_key c) r Hrow); [by rewrite Hst|exact Ho| |exact Hk].
  intros r2 Hr2. assert (r2 = r') as -> by congruence. by rewrite Hs.
Qed.

(** *** The invariant *)

Definition ours (c : Call) : bool := bool_decide (cl_tenant c = t).
(** What the request has read of the queue's depth may still let it in. *)
Definition promising (s : Stage) : bool :=
  match s with
  | sg_start | sg_inflight _ => false
  | sg_depth _ d | sg_depth_cap _ d _ => d <? D
  | sg_loaded l => ld_depth l <? D
  | sg_admitted => true
  end.
Definition waits (c : Call) : bool := ours c && promising (cl_stage c).
Definition enters (c : Call) : bool := ours c && match cl_stage c with sg_admitted => true | _ => false end.
Definition stage_caps (c : Call) : Prop :=
  ours c = true → match cl_stage c with sg_depth_cap _ _ cap => cap ≤ D | sg_loaded l => ld_depth_cap l ≤ D | _ => True end.
Definition owes (r : Running) : bool := charged r && bool_decide (k_tenant_id (rn_claim r) = t).
Definition own_run (r : Running) : Prop := k_kind (rn_claim r) = "run" ∧ ar_tenant_id (rn_request r) = k_tenant_id (rn_claim r).
(** A run that was charged is still its claim's, and no more than [N] of the
    tenant's requests are between their wait seconds and their row. *)
Definition keeps_claim (q : QueueDb) (r : Running) : bool := negb (charged r) || bool_decide (is_Some (owned_row (rn_claim r) [q_running] q)).
Definition steady (b : Busy) : bool := forallb (keeps_claim (sv_queue (bz_svc b))) (bz_running b) && (tally ours (bz_calls b) <=? Z.of_nat N).
Definition host_step (m : HostStep) (b : Busy) : option Busy := b' ← try_step m b; if steady b' then Some b' else None.
Fixpoint host_steps (ms : list HostStep) (b : Busy) : option Busy :=
  match ms with [] => Some b | m :: ms' => b' ← host_step m b; host_steps ms' b' end.

(** How far the day can go. *)
Definition day_bound : Z := max_runs_per_day ho_defaults - 1 + (F + D - 1 + Z.of_nat N).
Record day_invariant (b : Busy) : Prop := {
  iv_within : within_caps (sv_queue (bz_svc b));
  iv_stages : Forall stage_caps (bz_calls b);
  iv_keys : NoDup (map held_key (bz_running b));
  iv_own : Forall own_run (bz_running b);
  iv_steady : steady b = true;
  iv_live : live_runs (sv_queue (bz_svc b)) + tally waits (bz_calls b) ≤ F + D - 1 + Z.of_nat N;
  iv_total : runs_today (bz_svc b) + live_runs (sv_queue (bz_svc b)) - tally owes (bz_running b) + tally enters (bz_calls b) ≤ day_bound }.

Lemma runs_today_daily w w' : daily_of w' = daily_of w → runs_today w' = runs_today w.
Proof. unfold runs_today, daily, daily_of. by intros ->. Qed.
Lemma quiet_invariant b b' : day_invariant b → steady b' = true → quiet (bz_svc b) (bz_svc b') →
  Forall stage_caps (bz_calls b') → NoDup (map held_key (bz_running b')) → Forall own_run (bz_running b') →
  tally waits (bz_calls b') ≤ tally waits (bz_calls b) → tally enters (bz_calls b') ≤ tally enters (bz_calls b) →
  tally owes (bz_running b) ≤ tally owes (bz_running b') → day_invariant b'.
Proof.
  intros [] Ha (Hd & Hl & Hc) Hs Hk Ho Hw He Hr. apply runs_today_daily in Hd. split; auto; lia.
Qed.
Lemma svc_invariant b w : day_invariant b → steady (b <| bz_svc := w |>) = true → quiet (bz_svc b) w → day_invariant (b <| bz_svc := w |>).
Proof. intros Hb Ha Hq. pose proof Hb as []. by apply (quiet_invariant b). Qed.
Lemma arrives_invariant m b : (∀ w, quiet w (m w).1) → (∀ w w' c, m w = (w', Ok c) → cl_stage c = sg_start) →
  day_invariant b → steady (arrives m b) = true → day_invariant (arrives m b).
Proof.
  intros Hq Hs Hb Ha. specialize (Hq (bz_svc b)). unfold arrives in *. destruct (m (bz_svc b)) as [w [c|e]] eqn:E; [|by apply svc_invariant].
  apply Hs in E. pose proof Hb as []. simpl in Hq. apply (quiet_invariant b); try done; cbn [bz_calls bz_running].
  - apply Forall_app. split; [done|]. apply Forall_singleton. intros _. by rewrite E.
  - rewrite tally_app. simpl. unfold waits at 2. rewrite E, andb_false_r. simpl. lia.
  - rewrite tally_app. simpl. unfold enters at 2. rewrite E, andb_false_r. simpl. lia.
Qed.
Lemma create_begin_stage now uuid p body x y z w w' c : create_begin now uuid p body x y z w = (w', Ok c) → cl_stage c = sg_start.
Proof.
  unfold create_begin. intros Hr. apply M_bind_Ok in Hr as ([[[run wd] meta] cf] & w1 & _ & Hr). apply M_bind_Ok in Hr as (e & w2 & _ & Hr).
  apply M_bind_Ok in Hr as (s & w3 & _ & Hr). apply (f_equal snd) in Hr. simpl in Hr. by injection Hr as <-.
Qed.
Lemma resume_begin_stage p run w w' c : resume_begin p run w = (w', Ok c) → cl_stage c = sg_start.
Proof.
  unfold resume_begin. intros Hr. apply M_bind_Ok in Hr as ([id e] & w1 & _ & Hr). apply M_bind_Ok in Hr as (s & w3 & _ & Hr).
  apply (f_equal snd) in Hr. simpl in Hr. by injection Hr as <-.
Qed.

(** *** A request's steps *)

Lemma gone_invariant i c b w : bz_calls b !! i = Some c → day_invariant b → quiet (bz_svc b) w →
  let b' := b <| bz_svc := w |> <| bz_calls := delete i (bz_calls b) |> in steady b' = true → day_invariant b'.
Proof.
  intros Hi Hb Hq b' Ha. pose proof Hb as []. apply (quiet_invariant b); try done; simpl.
  - by apply Forall_delete.
  - rewrite (tally_delete _ _ _ _ Hi). pose proof (indicator_bounds (waits c)). lia.
  - rewrite (tally_delete _ _ _ _ Hi). pose proof (indicator_bounds (enters c)). lia.
Qed.
(** A step of a request that changes nothing else. *)
Lemma staged_invariant i c s b : bz_calls b !! i = Some c → day_invariant b → stage_caps (at_stage c s) →
  indicator (waits (at_stage c s)) ≤ indicator (waits c) → indicator (enters (at_stage c s)) ≤ indicator (enters c) →
  let b' := b <| bz_svc := bz_svc b |> <| bz_calls := <[i := at_stage c s]> (bz_calls b) |> in steady b' = true → day_invariant b'.
Proof.
  intros Hi Hb Hs Hw He b' Ha. pose proof Hb as []. apply (quiet_invariant b); try done; simpl.
  - by apply Forall_insert.
  - rewrite (tally_insert _ _ _ _ _ Hi). lia.
  - rewrite (tally_insert _ _ _ _ _ Hi). lia.
Qed.
Lemma waits_ours b : steady b = true → tally waits (bz_calls b) ≤ Z.of_nat N.
Proof.
  unfold steady. intros [_ Hn%Z.leb_le]%andb_true_iff. etransitivity; [|exact Hn]. apply tally_mono. intros c. by intros [? _]%andb_true_iff.
Qed.
Lemma inflight_le d : inflight d t ≤ in_flight_all d t.
Proof.
  unfold inflight, in_flight_all, count_rows. rewrite <- !(size_dom (D := gset (string * string * string))). apply inj_le, subseteq_size. intros k.
  rewrite !elem_of_dom. intros [r [Hk Hr]%map_lookup_filter_Some]. exists r. apply map_lookup_filter_Some. split; [done|]. simpl in *.
  apply andb_true_iff in Hr as [[Hb _]%andb_true_iff Hf]. by rewrite Hb, Hf.
Qed.
(** The read of the depth: the queue is as full as the read and the cap allow. *)
Lemma depth_invariant i c n b : bz_calls b !! i = Some c → cl_stage c = sg_inflight n → day_invariant b →
  let b' := b <| bz_svc := bz_svc b |> <| bz_calls := <[i := at_stage c (sg_depth n (depth (sv_queue (bz_svc b)) (cl_tenant c)))]> (bz_calls b) |> in
  steady b' = true → day_invariant b'.
Proof.
  intros Hi Hc Hb b' Ha. destruct (waits (at_stage c (sg_depth n (depth (sv_queue (bz_svc b)) (cl_tenant c))))) eqn:Hw.
  - pose proof (waits_ours b' Ha) as Hn. pose proof Hb as []. split; try done; simpl.
    + apply Forall_insert; [done|]. by intros _.
    + apply andb_true_iff in Hw as [Ht%bool_decide_eq_true Hd%Z.ltb_lt]. simpl in Ht, Hd, Hn. rewrite Ht in Hd.
      pose proof (live_le (sv_queue (bz_svc b))). pose proof (inflight_le (sv_queue (bz_svc b))). destruct iv_within0 as [[Hf _] _]. lia.
    + rewrite (tally_insert _ _ _ _ _ Hi). unfold enters at 2 3. rewrite Hc. simpl. rewrite !andb_false_r. simpl. unfold runs_today in *. lia.
  - apply (staged_invariant i c); try done; [rewrite Hw; apply indicator_bounds|]. unfold enters. simpl. rewrite andb_false_r. apply indicator_bounds.
Qed.
Lemma quota_check_cases now u l w w' r : quota_check now u l w = (w', r) →
  w' = w ∧ (r = Ok tt ∧ (daily u (ho_day now) (sv_quota w)).1 < max_runs_per_day ho_defaults ∧ ld_depth l < ld_depth_cap l ∨ r = Err QuotaExceeded).
Proof.
  unfold quota_check, on_quota, quota_admit. cbn [default option_map]. destruct (daily _ _ _) as [runs cost]. simpl default. unfold id.
  destruct (Z.leb_spec (max_runs_per_day ho_defaults) runs); [|destruct (_ <=?. _)]; cbn [fst snd];
    try (destruct (Z.leb_spec (ld_in_flight_cap l) (ld_inflight l)); [|destruct (Z.leb_spec (ld_depth_cap l) (ld_depth l))]);
    intros E; apply pair_equal_spec in E as [<- <-]; (split; [by destruct w|]); auto.
Qed.
Lemma checked_invariant i c l b : bz_calls b !! i = Some c → cl_stage c = sg_loaded l → day_invariant b →
  (cl_tenant c = t → runs_today (bz_svc b) < max_runs_per_day ho_defaults) → ld_depth l < ld_depth_cap l →
  let b' := b <| bz_svc := bz_svc b |> <| bz_calls := <[i := at_stage c sg_admitted]> (bz_calls b) |> in steady b' = true → day_invariant b'.
Proof.
  intros Hi Hc Hb Hr Hd b' Ha. pose proof Hb as []. pose proof (Forall_lookup_1 _ _ _ _ iv_stages0 Hi) as Hs. unfold stage_caps in Hs. rewrite Hc in Hs.
  assert (indicator (waits (at_stage c sg_admitted)) ≤ indicator (waits c)) as Hw.
  { unfold waits. rewrite Hc. change (ours (at_stage c sg_admitted)) with (ours c). destruct (ours c); [|simpl; lia]. specialize (Hs eq_refl).
    simpl. destruct (Z.ltb_spec (ld_depth l) D); simpl; lia. }
  destruct (decide (cl_tenant c = t)) as [Ht|Ht].
  - assert (tally waits (bz_calls b') ≤ tally waits (bz_calls b)) as Hwt by (simpl; rewrite (tally_insert _ _ _ _ _ Hi); lia).
    split; try done; simpl; [by apply Forall_insert|simpl in Hwt; lia|]. specialize (Hr Ht).
    assert (0 ≤ tally enters (bz_calls b') ≤ tally waits (bz_calls b')) as He.
    { apply tally_mono. intros x. unfold enters, waits. intros [-> Hx]%andb_true_iff. by destruct (cl_stage x). }
    pose proof (tally_nonneg owes (bz_running b)). simpl in He, Hwt. unfold day_bound. lia.
  - apply (staged_invariant i c); try done. unfold enters, ours. simpl. by rewrite (bool_decide_false _ Ht).
Qed.
Lemma queued_invariant i c now b : defaults_le → bz_calls b !! i = Some c → cl_stage c = sg_admitted → day_invariant b →
  let b' := b <| bz_svc := (queue_part now (cl_tenant c) (cl_run c) (cl_enqueue c) (bz_svc b)).1 |> <| bz_calls := delete i (bz_calls b) |> in
  steady b' = true → day_invariant b'.
Proof.
  intros Hdef Hi Hc Hb b' Ha. pose proof Hb as []. pose proof (queue_part_grows now (cl_tenant c) (cl_run c) (cl_enqueue c) (bz_svc b) Hdef) as (Hd & Hl & Hcap).
  assert (indicator (waits c) = tenant_share (cl_tenant c) ∧ indicator (enters c) = tenant_share (cl_tenant c)) as [Ew Ee].
  { unfold waits, enters, tenant_share, ours. rewrite Hc. simpl. by rewrite andb_true_r. }
  split; try done; simpl; [auto|by apply Forall_delete| |].
  - rewrite (tally_delete _ _ _ _ Hi). lia.
  - rewrite (tally_delete _ _ _ _ Hi), (runs_today_daily _ _ Hd). lia.
Qed.
Lemma advance_invariant i now c b : defaults_le → ho_day now = day → bz_calls b !! i = Some c → day_invariant b →
  steady (advance i now c b) = true → day_invariant (advance i now c b).
Proof.
  intros Hdef Hday Hi Hb. unfold advance, call_step. pose proof Hb as [[Hcb Hdc] Hst _ _ _ _ _]. pose proof (Forall_lookup_1 _ _ _ _ Hst Hi) as Hs.
  destruct (cl_stage c) as [|n|n d|n d cap|l|] eqn:Ec; cbn [read_stage].
  - apply (staged_invariant i c); [done..|by intros _| |]; unfold waits, enters; simpl; rewrite ?andb_false_r; apply indicator_bounds.
  - by apply depth_invariant.
  - apply (staged_invariant i c); [done..| | |]; [|unfold waits; by rewrite Ec|unfold enters; by rewrite Ec].
    intros Ht%bool_decide_eq_true. simpl in *. rewrite Ht. unfold depth_cap. destruct (tenant_limits _ !! t) as [l|] eqn:El; [by apply Hdc in El|apply Hdef].
  - apply (staged_invariant i c); [done..| |unfold waits; by rewrite Ec|unfold enters; by rewrite Ec].
    intros Ht. unfold stage_caps in Hs. rewrite Ec in Hs. by apply Hs.
  - unfold mbind, M_bind. destruct (quota_check now (cl_tenant c) l (bz_svc b)) as [w r] eqn:Eq.
    apply quota_check_cases in Eq as [-> [(-> & Hr & Hd)| ->]]; [|by apply (gone_invariant i c)].
    apply (checked_invariant i c l); try done. intros Ht. unfold runs_today. by rewrite <- Ht, <- Hday.
  - unfold mbind, M_bind. pose proof (queued_invariant i c now b Hdef Hi Ec Hb) as Hqi. cbv zeta in Hqi.
    destruct (queue_part _ _ _ _ _) as [w [u|e]]; exact Hqi.
Qed.

(** *** An execution's steps *)

Definition own_claim (c : Claim) : Prop :=
  k_kind c = "run" ∧ ∀ r, load_async_request (k_payload c) = Ok r → ar_tenant_id (named_request c r) = k_tenant_id c.
Lemma begin_invariant now c b : defaults_le → own_claim c → claim_key c ∉ map held_key (bz_running b) → day_invariant b →
  steady (begin_run now c b) = true → day_invariant (begin_run now c b).
Proof.
  intros Hdef [Hk Ho] Hnew Hb. pose proof (mark_quiet now c (bz_svc b) Hdef) as Hq. unfold begin_run.
  destruct (on_queue (mark_running now c) (bz_svc b)) as [w [u|e]]; simpl in Hq; [|intros Ha; by apply svc_invariant].
  destruct (load_async_request (k_payload c)) as [r|e]; intros Ha; [|by apply svc_invariant]. pose proof Hb as [].
  apply (quiet_invariant b); try done; simpl.
  - rewrite map_app. apply NoDup_app. split; [done|]. split; [|apply NoDup_singleton]. by intros k Hk1 ->%list_elem_of_singleton.
  - apply Forall_app. split; [done|]. apply Forall_singleton. split; [exact Hk|by apply Ho].
  - rewrite tally_app. simpl. lia.
Qed.
Lemma keys_insert (l : list Running) i r r' : l !! i = Some r → held_key r' = held_key r → map held_key (<[i := r']> l) = map held_key l.
Proof. intros Hi He. change (map held_key) with (fmap (M := list) held_key). rewrite list_fmap_insert, He. apply list_insert_id. by rewrite list_lookup_fmap, Hi. Qed.
Lemma charged_runs now r w u cost : daily_of w = charge_day u (ho_day now) cost (daily_of (bz_svc r)) → ho_day now = day →
  runs_today w = runs_today (bz_svc r) + tenant_share u.
Proof.
  intros Hd Hday. rewrite Hday in Hd. unfold runs_today, daily, tenant_share. fold (daily_of w) (daily_of (bz_svc r)). rewrite Hd.
  unfold charge_day. destruct (bool_decide_reflect (u = t)) as [->|Hne]; simpl.
  - rewrite lookup_insert_eq. simpl. destruct (daily_of (bz_svc r) !! (t, day)) as [[n cc]|]; simpl; lia.
  - rewrite lookup_insert_ne by congruence. lia.
Qed.
Lemma run_invariant i now r b : orchestrator_keeps (same sv_queue) → orchestrator_keeps (same daily_of) → ho_day now = day →
  bz_running b !! i = Some r → rn_result r = None → day_invariant b → steady (do_run i now r b) = true → day_invariant (do_run i now r b).
Proof.
  intros Hq Hd Hday Hi Hn Hb. pose proof Hb as []. unfold do_run.
  pose proof (_run_keeps (same sv_queue) now (rn_claim r) (rn_request r) ltac:(by apply same_writes) ltac:(done) Hq (bz_svc b)) as Fq.
  pose proof (_run_charges now (rn_claim r) (rn_request r) (bz_svc b) Hd) as Hc. destruct (_run _ _ _ _) as [w res]. unfold same in Fq. cbn [fst] in Fq.
  intros Ha. set (r' := mkRunning (rn_claim r) (rn_request r) (Some res)) in *.
  pose proof (Forall_lookup_1 _ _ _ _ iv_own0 Hi) as [Hk Ht].
  assert (owes r = false) as Hr by (unfold owes, charged; by rewrite Hn).
  assert (runs_today w - indicator (owes r') = runs_today (bz_svc b)) as Hruns.
  { destruct Hc as [[E (state & _ & Hc & _)]|[E Hc]]; cbn [fst snd] in E, Hc.
    - rewrite (charged_runs now b w _ _ Hc Hday), Ht. unfold owes, charged, r', tenant_share. subst res. simpl. lia.
    - rewrite (runs_today_daily _ _ Hc). unfold owes, charged, r'. simpl. destruct res as [[]|]; simpl; try lia. by destruct E. }
  split; simpl; rewrite ?Fq; try done.
  - by rewrite (keys_insert _ _ r).
  - by apply Forall_insert.
  - rewrite (tally_insert _ _ _ _ _ Hi), Hr. simpl. lia.
Qed.
Lemma settle_invariant i now r res b : defaults_le → bz_running b !! i = Some r → rn_result r = Some res → day_invariant b →
  steady (do_settle i now r res b) = true → day_invariant (do_settle i now r res b).
Proof.
  intros Hdef Hi Hres Hb Ha. pose proof Hb as []. unfold do_settle in *. pose proof (settle_quiet now (rn_claim r) res (bz_svc b) Hdef) as Hq.
  assert (NoDup (map held_key (delete i (bz_running b)))) as Hkeys.
  { eapply sublist_NoDup; [exact iv_keys0|]. apply (fmap_sublist held_key), sublist_delete. }
  destruct (charged r) eqn:Ec.
  - destruct res as [[]|e]; unfold charged in Ec; rewrite Hres in Ec; try done.
    pose proof (Forall_lookup_1 _ _ _ _ iv_own0 Hi) as [Hk _]. destruct Hq as (Hd & _ & Hcap). unfold steady in iv_steady0.
    apply andb_true_iff in iv_steady0 as [Hf%Is_true_eq_left%forallb_True _]. pose proof (Forall_lookup_1 _ _ _ _ Hf Hi) as Hkeep. unfold keeps_claim, charged in Hkeep. rewrite Hres in Hkeep. simpl in Hkeep.
    apply bool_decide_unpack in Hkeep as [row (Hrow & Htok & Hst%list_elem_of_singleton)%owned_row_Some].
    pose proof (settle_leaves now (rn_claim r) (bz_svc b) row (conj Hrow (conj Hst Htok)) Hk) as Hl.
    assert (indicator (owes r) = tenant_share (k_tenant_id (rn_claim r))) as Eo by (unfold owes, charged; by rewrite Hres).
    assert (0 ≤ tenant_share (k_tenant_id (rn_claim r))) by (unfold tenant_share; apply indicator_bounds).
    set (w := (claim_ended _ _ _).1) in *. clearbody w.
    split; try done; simpl; [auto|by apply Forall_delete|lia|]. rewrite (tally_delete _ _ _ _ Hi), (runs_today_daily _ _ Hd). lia.
  - apply (quiet_invariant b); try done; simpl; [by apply Forall_delete|]. rewrite (tally_delete _ _ _ _ Hi). unfold owes at 3. rewrite Ec. simpl. lia.
Qed.

(** *** The day *)

(** The runs that were charged have different live rows. *)
Lemma owing_live b : day_invariant b → tally owes (bz_running b) ≤ live_runs (sv_queue (bz_svc b)).
Proof.
  intros []. unfold steady in iv_steady0. apply andb_true_iff in iv_steady0 as [Hf%Is_true_eq_left%forallb_True _]. rewrite tally_length.
  assert (NoDup (map held_key (List.filter owes (bz_running b)))) as Hn.
  { revert iv_keys0. clear. induction (bz_running b) as [|r l IH]; [done|]. simpl. intros [Hr Hl]%NoDup_cons. destruct (owes r); [|by apply IH]. simpl.
    apply NoDup_cons. split; [|by apply IH]. intros Hin. apply Hr. apply list_elem_of_fmap in Hin as (r' & -> & Hin). apply list_elem_of_fmap.
    exists r'. split; [done|]. apply list_elem_of_In in Hin. apply filter_In in Hin as [Hin _]. by apply list_elem_of_In. }
  unfold live_runs, count_rows. rewrite <- (size_dom (D := gset (string * string * string))), <- (length_map held_key), <- (size_list_to_set (C := gset (string * string * string)) _ Hn).
  apply inj_le, subseteq_size. intros k Hk. apply elem_of_list_to_set, list_elem_of_fmap in Hk as (r & -> & Hr). apply list_elem_of_In, filter_In in Hr as [Hr%list_elem_of_In Ho].
  pose proof (proj1 (Forall_forall _ _) Hf r Hr) as Hkeep. pose proof (proj1 (Forall_forall _ _) iv_own0 r Hr) as [Hk _].
  unfold owes in Ho. apply andb_true_iff in Ho as [Hc Ht%bool_decide_eq_true]. unfold keeps_claim in Hkeep. rewrite Hc in Hkeep. simpl in Hkeep.
  apply bool_decide_unpack in Hkeep as [row (Hrow & _ & Hst%list_elem_of_singleton)%owned_row_Some].
  apply elem_of_dom. exists row. apply map_lookup_filter_Some. split; [exact Hrow|]. unfold is_active, held_key, claim_key, key_tenant, key_kind. simpl.
  by rewrite Hst, Ht, Hk, !bool_decide_true.
Qed.
(** The steps of one day on one host, whose operators set no cap above [F];
    rows come from requests only. *)
Definition in_day (m : HostStep) : Prop :=
  match m with
  | hs_call _ now | hs_run _ now => ho_day now = day
  | hs_begin _ c => own_claim c
  | hs_queue q => not_enqueue q ∧ op_cap_le t F q
  | hs_create _ _ _ _ _ _ _ | hs_resume _ _ | hs_settle _ _ | hs_get _ _ _ _ | hs_cancel _ _ | hs_restart => True
  end.
Lemma step_invariant m b b' : orchestrator_keeps (same sv_queue) → orchestrator_keeps (same daily_of) → defaults_le → in_day m →
  day_invariant b → host_step m b = Some b' → day_invariant b'.
Proof.
  intros Hq Hdd Hdef Hm Hb. unfold host_step. destruct (try_step m b) as [b1|] eqn:E; [|done]. simpl. destruct (steady b1) eqn:Ha; [|done]. intros [= <-].
  destruct m as [now uuid p body x y z|p run|i now|now c|i now|i now|now p u run|p run|q|]; simpl in E, Hm.
  - injection E as <-. apply arrives_invariant; [by intros w; apply create_begin_quiet|by intros ???; apply create_begin_stage|done..].
  - injection E as <-. apply arrives_invariant; [by intros w; apply resume_begin_quiet|by intros ???; apply resume_begin_stage|done..].
  - destruct (bz_calls b !! i) as [c|] eqn:Ei; [|done]. injection E as <-. by apply advance_invariant.
  - case_bool_decide as Hk; [done|]. injection E as <-. by apply begin_invariant.
  - destruct (bz_running b !! i) as [r|] eqn:Ei; [|done]. simpl in E. destruct (rn_result r) eqn:Er; [done|]. injection E as <-. by apply run_invariant.
  - destruct (bz_running b !! i) as [r|] eqn:Ei; [|done]. simpl in E. destruct (rn_result r) as [res|] eqn:Er; [|done]. injection E as <-. by apply settle_invariant.
  - injection E as <-. apply svc_invariant; [done..|]. apply same_quiet; by apply get_same.
  - injection E as <-. apply svc_invariant; [done..|]. by apply cancel_quiet.
  - injection E as <-. apply svc_invariant; [done..|]. destruct Hm. by apply op_quiet.
  - destruct (existsb charged (bz_running b)) eqn:Ec; [done|]. injection E as <-. pose proof Hb as []. apply (quiet_invariant b); try done; simpl.
    + by apply NoDup_nil_2.
    + apply tally_nonneg.
    + apply tally_nonneg.
    + assert (tally owes (bz_running b) ≤ tally charged (bz_running b)) as Hle; [|by rewrite (tally_none _ _ Ec) in Hle].
      apply tally_mono. by intros r [? _]%andb_true_iff.
Qed.

(** The host at the start: nothing under way, the queue within the caps. *)
Definition day_starts (w : Svc) : Prop :=
  within_caps (sv_queue w) ∧ live_runs (sv_queue w) ≤ F + D - 1 + Z.of_nat N ∧ runs_today w + live_runs (sv_queue w) ≤ day_bound.
Lemma starts_invariant w : day_starts w → day_invariant (mkBusy w [] []).
Proof. intros (Hc & Hl & Ht). split; simpl; try done; [by apply NoDup_nil_2|by apply Z.leb_le, Nat2Z.is_nonneg|lia|lia]. Qed.
Lemma steps_invariant ms b b' : orchestrator_keeps (same sv_queue) → orchestrator_keeps (same daily_of) → defaults_le → Forall in_day ms →
  day_invariant b → host_steps ms b = Some b' → day_invariant b'.
Proof.
  intros Hq Hdd Hdef Hms. revert b. induction Hms as [|m ms Hm _ IH]; intros b Hb; simpl; [by intros [= <-]|].
  destruct (host_step m b) as [b1|] eqn:E; [|done]. simpl. apply IH. by apply (step_invariant m b).
Qed.

(** C9: Admission counts the runs that ended today and the tenant's rows in the
    queue apart, reserves nothing, and reads one count after the other: so
    requests that come at once overshoot the day's cap.  On one host, over
    every interleaving of a day's steps - of requests between their reads,
    their check and their row, of executions between their mark, their charge
    and their settlement - the tenant's runs charged stay within the cap plus
    what the queue may hold plus the requests that come at once, less two;
    where no execution that was charged loses its claim before it is settled,
    and no restart comes between. *)
Theorem daily_cap_overshoot ms w b :
  orchestrator_keeps (same sv_queue) → orchestrator_keeps (same daily_of) → defaults_le → Forall in_day ms → day_starts w →
  host_steps ms (mkBusy w [] []) = Some b →
  runs_today (bz_svc b) ≤ max_runs_per_day ho_defaults + F + D + Z.of_nat N - 2.
Proof.
  intros Hq Hdd Hdef Hms Hw Hm. assert (day_invariant b) as Hb by exact (steps_invariant ms _ _ Hq Hdd Hdef Hms (starts_invariant w Hw) Hm).
  pose proof (owing_live b Hb). pose proof (tally_nonneg enters (bz_calls b)). destruct Hb. unfold day_bound in *. lia.
Qed.
End Cap.

(** ** Without a pause *)

Section Alone.
Context `{RequestModels} `{Host}.
Fixpoint call_all (fuel : nat) (now : Z) (c : Call) : M Svc unit :=
  match fuel with
  | O => mret tt
  | S fuel' => next ← call_step now c; match next with Some c' => call_all fuel' now c' | None => mret tt end
  end.
Lemma call_all_start now t run e w : call_all 6 now (mkCall t run e sg_start) w = (_ ← service_admit now t; queue_part now t run e) w.
Proof.
  unfold call_all, call_step, at_stage, mbind, M_bind. cbn [cl_stage cl_tenant cl_run cl_enqueue read_stage].
  unfold service_admit, queue_load. destruct (quota_check _ _ _ w) as [w1 [u|x]]; [|done]. simpl. by destruct (queue_part now t run e w1) as [w2 [[]|x]].
Qed.
(** A create whose steps nobody comes between is [create_part]. *)
Lemma create_uninterrupted now uuid p b x y z w :
  (create_part now uuid p b x y z w).1 = ((c ← create_begin now uuid p b x y z; call_all 6 now c) w).1.
Proof.
  unfold create_part, create_begin, mbind, M_bind. destruct (reserve_part _ _ _ _ w) as [w1 [[[[run wd] meta] cf]|e]]; [|done].
  destruct (locked_prepare _ _ _ _ _ _ _ w1) as [w2 [e|err]]; [|done]. unfold enqueue_part, lift, mbind, M_bind.
  destruct (call_wait x y z e) as [s|err]; [|done]. simpl mret. unfold mret, M_ret. rewrite call_all_start. unfold mbind, M_bind.
  destruct (service_admit now (pp_tenant p) w2) as [w3 [u|err]]; [|done]. by destruct (queue_part _ _ _ _ w3) as [w4 [[]|err]].
Qed.
End Alone.

(** ** Witness *)

Section Witnesses.
Import Toy.
(** The run that is claimed, in a claim. *)
Definition claimed (w : Svc) : Claim :=
  match List.filter (λ kv, bool_decide (q_status kv.2 = q_claimed)) (map_to_list (run_queue (sv_queue w))) with
  | (k, r) :: _ => mkQClaim k.1.1 k.1.2 k.2 (q_claim_token r) 1 (q_payload r)
  | [] => mkQClaim "" "" "" 0 0 []
  end.
Definition go (ms : list HostStep) (b : Busy) : Busy := default b (host_steps (H1 := good) "acme" 2 ms b).
Definition arrive (run : string) : HostStep := hs_create 0 "" alice (body run) None None None.
Definition call_steps (n : nat) (i : nat) : list HostStep := replicate n (hs_call i 0).
(** Claim one run, execute it. *)
Definition claim_one : HostStep := hs_queue (OClaim "w" [0]).
Definition execute_one (b : Busy) : list HostStep := [hs_begin 0 (claimed (bz_svc b)); hs_run 0 0; hs_settle 0 0].
(** Three runs are let in, one of them claimed; two more requests read the
    in-flight count, then one more run is claimed, and both find room and
    runs left. *)
Definition enter_alone (run : string) : list HostStep := arrive run :: call_steps 6 0.
Definition rush : list HostStep :=
  enter_alone "r1" ++ enter_alone "r2" ++ [claim_one] ++ enter_alone "r3" ++ [arrive "r4"; arrive "r5"] ++ call_steps 1 0 ++ call_steps 1 1 ++ [claim_one] ++
  call_steps 4 0 ++ call_steps 4 1 ++ call_steps 1 0.
Definition b_rush : Busy := go rush (mkBusy w0 [] []).
Definition e1 : list HostStep := execute_one b_rush ++ [claim_one] ++ call_steps 1 0.
Definition b1 : Busy := go e1 b_rush.
Definition e2 : list HostStep := execute_one b1 ++ [claim_one].
Definition b2 : Busy := go e2 b1.
Definition e3 : list HostStep := execute_one b2 ++ [claim_one].
Definition b3 : Busy := go e3 b2.
Definition e4 : list HostStep := execute_one b3 ++ [claim_one].
Definition b4 : Busy := go e4 b3.
Definition rush_day : list HostStep := rush ++ e1 ++ e2 ++ e3 ++ e4 ++ execute_one b4.
Definition b_end : Busy := go rush_day (mkBusy w0 [] []).
Lemma rush_runs : host_steps (H1 := good) "acme" 2 rush_day (mkBusy w0 [] []) = Some b_end.
Proof. by vm_compute. Qed.
Notation today := (in_day "acme" "2026-01-01" 2).
Definition own (c : Claim) : bool :=
  String.eqb (k_kind c) "run" && match load_async_request (k_payload c) with Ok r => String.eqb (ar_tenant_id (named_request c r)) (k_tenant_id c) | Err _ => true end.
Lemma execute_today b : own (claimed (bz_svc b)) = true → Forall today (execute_one b).
Proof.
  intros [Hk%String.eqb_eq Ho]%andb_true_iff. repeat constructor; [exact Hk|]. intros r Hr. rewrite Hr in Ho. by apply String.eqb_eq.
Qed.
Lemma calls_today n i : Forall today (call_steps n i). Proof. by apply Forall_replicate. Qed.
Lemma claim_today : Forall today [claim_one]. Proof. by repeat constructor. Qed.
Lemma enter_today run : Forall today (enter_alone run). Proof. by repeat constructor. Qed.
Lemma rush_in_day : Forall today rush_day.
Proof.
  unfold rush_day, rush, e1, e2, e3, e4. rewrite !Forall_app.
  repeat match goal with
         | |- _ ∧ _ => split
         | |- Forall _ (enter_alone _) => apply enter_today
         | |- Forall _ (call_steps _ _) => apply calls_today
         | |- Forall _ [claim_one] => apply claim_today
         | |- Forall _ [arrive _; arrive _] => repeat constructor
         | |- Forall _ (execute_one _) => apply execute_today; vm_compute; reflexivity
         end.
Qed.
Lemma rush_starts : day_starts "acme" "2026-01-01" 2 2 2 w0.
Proof. split; [split; [split|]|]; [by vm_compute|by intros l|by intros l|]. split; by vm_compute. Qed.
Lemma toy_defaults : defaults_le 2 2. Proof. by vm_compute. Qed.
(** Five runs under a cap of one, which is the bound for two requests at
    once. *)
Lemma daily_cap_overshoot_witness : max_runs_per_day ho_defaults = 1 ∧ runs_today "acme" "2026-01-01" (bz_svc b_end) = 5 ∧
  runs_today "acme" "2026-01-01" (bz_svc b_end) ≤ 1 + 2 + 2 + 2 - 2.
Proof.
  split; [done|]. split; [by vm_compute|].
  exact (daily_cap_overshoot (H1 := good) "acme" "2026-01-01" 2 2 2 rush_day w0 b_end (good_keeps _) (good_keeps _) toy_defaults rush_in_day rush_starts rush_runs).
Defined.
End Witnesses.
