(* ===== verification/EmbeddedWorker.v ===== *)
(** * The embedded worker's polling thread (workers/embedded.py)

    [EmbeddedQueueWorker]'s lifecycle: [ensure_started], [stop] and the thread
    they start, each transition under the guard one step, so that every
    interleaving of callers and threads is a sequence of steps.  A thread is
    named by the stop event it was given.  Registering the worker and starting
    the thread may fail, and so may a claim or an execution.  The theorems: at
    most one thread is ever in its loop; a thread that was asked to stop leaves
    within a bounded number of its own steps and claims at most one more run,
    which it may; a hand-over that was asked for and not called off leaves a
    fresh thread polling; and when [stop]'s answer is to be believed. *)
From S2P Require Import Prelude.
From Stdlib Require Import Lia.

(** ** The worker *)

Inductive LState := ls_stopped | ls_running | ls_stopping.
#[export] Instance LState_eq_dec : EqDecision LState. Proof. solve_decision. Defined.
(** Where a live thread is in [_loop]: before the test of its event, between
    the test and the claim, executing, on its way to [_exited], past it. *)
Inductive Phase := ph_check | ph_claim | ph_busy | ph_leaving | ph_exited.
#[export] Instance Phase_eq_dec : EqDecision Phase. Proof. solve_decision. Defined.

Record Life := mkLife {
  lf_state : LState;              (* _state *)
  lf_thread : option nat;         (* _thread *)
  lf_event : nat;                 (* _stop *)
  lf_restart : bool;              (* _restart *)
  lf_busy : bool;                 (* _busy *)
  lf_set : gset nat;              (* the events that are set *)
  lf_alive : gmap nat Phase;      (* the threads that are alive *)
  lf_next : nat;                  (* the events made so far *)
  lf_claims : list nat }.         (* who claimed, in order *)
#[export] Instance eta_Life : Eta Life := λ l,
  mkLife (lf_state l) (lf_thread l) (lf_event l) (lf_restart l) (lf_busy l) (lf_set l) (lf_alive l) (lf_next l) (lf_claims l).
(** [__init__] *)
Definition new_worker : Life := mkLife ls_stopped None 0 false false ∅ ∅ 1 [].

(** What registering the worker and starting a thread come to. *)
Record Spawning := mkSpawning { sp_registers : bool; sp_starts : bool }.
Definition _spawn (s : Spawning) (l : Life) : Life * result unit :=
  let i := lf_next l in
  let l1 := l <| lf_event := i |> <| lf_next := S i |> <| lf_restart := false |> in
  if negb (sp_registers s) then (l1, Err (PyError "sqlite3.Error"))
  else
    let l2 := l1 <| lf_thread := Some i |> <| lf_state := ls_running |> in
    if negb (sp_starts s) then (l2, Err (PyError "RuntimeError"))
    else (l2 <| lf_alive := <[i := ph_check]> (lf_alive l2) |>, Ok tt).
Definition is_alive (i : nat) (l : Life) : bool := bool_decide (is_Some (lf_alive l !! i)).
Definition ensure_started (s : Spawning) (l : Life) : Life * result unit :=
  let l1 := match lf_thread l with Some i => if negb (is_alive i l) then l <| lf_state := ls_stopped |> else l | None => l end in
  match lf_state l1 with
  | ls_running => (l1, Ok tt)
  | ls_stopping => (l1 <| lf_restart := true |>, Ok tt)
  | ls_stopped => _spawn s l1
  end.
Definition is_running (l : Life) : bool := bool_decide (lf_state l = ls_running).
(** [stop] up to the join: the thread it is going to wait for. *)
Definition ask_stop (l : Life) : Life * option nat :=
  (let l1 := l <| lf_restart := false |> in
   if decide (lf_state l1 = ls_running) then l1 <| lf_state := ls_stopping |> <| lf_set := {[lf_event l1]} ∪ lf_set l1 |> else l1,
   lf_thread l).
(** What [stop] returns, once the join is over, to another thread. *)
Definition stop_answer (waited : option nat) (l : Life) : bool :=
  match waited with None => true | Some i => negb (is_alive i l) end.
Definition _exited (i : nat) (s : Spawning) (l : Life) : Life :=
  let leave l := l <| lf_thread := None |> <| lf_state := ls_stopped |> <| lf_restart := false |> in
  if negb (bool_decide (lf_thread l = Some i)) then l
  else if bool_decide (lf_state l = ls_stopping) && lf_restart l then
    match _spawn s l with (l1, Ok _) => l1 | (l1, Err _) => leave l1 end
  else leave l.

(** ** Steps *)

Inductive LStep :=
  | lt_ensure (s : Spawning)
  | lt_stop
  | lt_test (i : nat)                       (* while not stop.is_set() *)
  | lt_poll (i : nat) (found : option bool) (* heartbeat and claim: None raises *)
  | lt_done (i : nat) (ok : bool)           (* _execute returns, or raises *)
  | lt_exit (i : nat) (s : Spawning)        (* _exited *)
  | lt_die (i : nat).
Definition at_phase (i : nat) (p : Phase) (l : Life) : bool := bool_decide (lf_alive l !! i = Some p).
Definition goto (i : nat) (p : Phase) (l : Life) : Life := l <| lf_alive := <[i := p]> (lf_alive l) |>.
Definition life_step (o : LStep) (l : Life) : Life :=
  match o with
  | lt_ensure s => (ensure_started s l).1
  | lt_stop => (ask_stop l).1
  | lt_test i => if at_phase i ph_check l then goto i (if bool_decide (i ∈ lf_set l) then ph_leaving else ph_claim) l else l
  | lt_poll i found =>
      if at_phase i ph_claim l then
        match found with
        | None => goto i ph_leaving l
        | Some false => goto i ph_check l
        | Some true => goto i ph_busy l <| lf_busy := true |> <| lf_claims := lf_claims l ++ [i] |>
        end
      else l
  | lt_done i ok => if at_phase i ph_busy l then goto i (if ok then ph_check else ph_leaving) l <| lf_busy := false |> else l
  | lt_exit i s => if at_phase i ph_leaving l then goto i ph_exited (_exited i s l) else l
  | lt_die i => if at_phase i ph_exited l then l <| lf_alive := delete i (lf_alive l) |> else l
  end.
Definition life (steps : list LStep) (l : Life) : Life := foldl (λ l o, life_step o l) l steps.

(** ** Theorems *)

Definition in_loop (i : nat) (l : Life) : Prop := ∃ p, lf_alive l !! i = Some p ∧ p ≠ ph_exited.
Record Life_wf (l : Life) : Prop := {
  lw_loop : ∀ i, in_loop i l → lf_thread l = Some i;
  lw_thread : ∀ i, lf_thread l = Some i → lf_alive l !! i ≠ Some ph_exited;
  lw_fresh : ∀ i, (is_Some (lf_alive l !! i) ∨ i ∈ lf_set l ∨ i = lf_event l ∨ lf_thread l = Some i) → i < lf_next l;
  lw_running : lf_state l = ls_running → lf_thread l = Some (lf_event l) ∧ lf_event l ∉ lf_set l;
  lw_stopping : lf_state l = ls_stopping → ∃ i, lf_thread l = Some i ∧ i ∈ lf_set l;
  lw_stopped : lf_state l = ls_stopped → ∀ i, ¬ in_loop i l;
  lw_restart : lf_restart l = true → lf_state l = ls_stopping }.

Lemma new_worker_wf : Life_wf new_worker.
Proof.
  split; simpl; try done; intros; try (by destruct H as (p & Hp & _)); [|by intros (p & Hp & _)].
  destruct H as [[p Hp]|[H|[H|H]]]; [done|set_solver|lia|done].
Qed.
Lemma goto_loop i p l j : p ≠ ph_exited → in_loop i l → in_loop j (goto i p l) → in_loop j l.
Proof.
  intros Hp Hi (q & Hq & Hne). unfold goto in Hq. simpl in Hq. destruct (decide (i = j)) as [->|Hij]; [done|]. rewrite lookup_insert_ne in Hq by done. by exists q.
Qed.
(** A thread that moves on inside the loop. *)
Lemma goto_wf i p l : p ≠ ph_exited → in_loop i l → Life_wf l → Life_wf (goto i p l).
Proof.
  intros Hp Hi [W1 W2 W3 W4 W5 W6 W7]. split; try done.
  - intros j Hj. apply W1. by apply (goto_loop i p).
  - intros j Hj. unfold goto. simpl. destruct (decide (i = j)) as [->|Hij]; [rewrite lookup_insert_eq; congruence|]. rewrite lookup_insert_ne by done. by apply W2.
  - intros j Hj. apply W3. destruct Hj as [[q Hq]|Hj]; [|by right]. unfold goto in Hq. simpl in Hq. left. destruct (decide (i = j)) as [->|Hij].
    + destruct Hi as (r & -> & _). by eexists.
    + rewrite lookup_insert_ne in Hq by done. by eexists.
  - intros Hs j Hj. apply (W6 Hs j). by apply (goto_loop i p).
Qed.
Lemma at_phase_loop i p l : p ≠ ph_exited → at_phase i p l = true → in_loop i l.
Proof. intros Hp Ha%bool_decide_eq_true. by exists p. Qed.
Definition idle (l : Life) : Prop := ∀ i, ¬ in_loop i l.
Definition fresh (l : Life) : Prop := ∀ i, (is_Some (lf_alive l !! i) ∨ i ∈ lf_set l ∨ i = lf_event l ∨ lf_thread l = Some i) → i < lf_next l.
(** A spawn out of a worker with no thread in its loop. *)
Lemma spawn_fresh s l : fresh l → fresh (_spawn s l).1.
Proof.
  intros Hf j Hj. assert (∀ k, is_Some (lf_alive l !! k) ∨ k ∈ lf_set l → k < S (lf_next l)) as Hk by (intros k [Hk|Hk]; apply Nat.lt_lt_succ_r, Hf; auto).
  unfold _spawn in *. destruct (sp_registers s); simpl in *; [destruct (sp_starts s); simpl in *|].
  - destruct Hj as [Hj|[Hj|[->|[= ->]]]]; [|by apply Hk; right|lia|lia]. destruct (decide (lf_next l = j)) as [->|Hne]; [lia|].
    rewrite lookup_insert_ne in Hj by done. apply Hk. by left.
  - destruct Hj as [Hj|[Hj|[->|[= ->]]]]; [by apply Hk; left|by apply Hk; right|lia|lia].
  - destruct Hj as [Hj|[Hj|[->|Hj]]]; [by apply Hk; left|by apply Hk; right|lia|]. apply Nat.lt_lt_succ_r, Hf. auto.
Qed.
Lemma spawn_loop s l i : idle l → in_loop i (_spawn s l).1 → i = lf_next l ∧ sp_registers s = true ∧ sp_starts s = true.
Proof.
  intros Hi (p & Hp & Hne). unfold _spawn in Hp. destruct (sp_registers s); simpl in Hp; [destruct (sp_starts s); simpl in Hp|];
    try (by destruct (Hi i); exists p). destruct (decide (lf_next l = i)) as [->|Hni]; [done|]. rewrite lookup_insert_ne in Hp by done. by destruct (Hi i); exists p.
Qed.
Lemma spawn_wf s l : idle l → fresh l →
  (sp_registers s = false → lf_state l = ls_stopped ∧ ∀ i, lf_thread l = Some i → lf_alive l !! i ≠ Some ph_exited) → Life_wf (_spawn s l).1.
Proof.
  intros Hi Hf Hs. assert (lf_alive l !! lf_next l = None) as Ha.
  { destruct (lf_alive l !! lf_next l) eqn:E; [|done]. specialize (Hf (lf_next l)). rewrite E in Hf. specialize (Hf (or_introl (mk_is_Some _ _ eq_refl))). lia. }
  assert (lf_next l ∉ lf_set l) as Hn. { intros Hin. specialize (Hf (lf_next l) (or_intror (or_introl Hin))). lia. }
  split; [|intros i|apply spawn_fresh, Hf|..].
  - intros i Hl. apply spawn_loop in Hl as (-> & Hr & Hst); [|done]. unfold _spawn. by rewrite Hr, Hst.
  - unfold _spawn. destruct (sp_registers s); simpl; [destruct (sp_starts s); simpl|apply Hs; done].
    + intros [= <-]. by rewrite lookup_insert_eq.
    + intros [= <-]. by rewrite Ha.
  - unfold _spawn. destruct (sp_registers s); simpl; [destruct (sp_starts s); simpl; done|]. by rewrite (proj1 (Hs eq_refl)).
  - unfold _spawn. destruct (sp_registers s); simpl; [destruct (sp_starts s); simpl; done|]. by rewrite (proj1 (Hs eq_refl)).
  - unfold _spawn. destruct (sp_registers s) eqn:Er; simpl; [destruct (sp_starts s); simpl; done|]. intros _ i. apply Hi.
  - unfold _spawn. by destruct (sp_registers s), (sp_starts s).
Qed.
Definition leave (l : Life) : Life := l <| lf_thread := None |> <| lf_state := ls_stopped |> <| lf_restart := false |>.
Lemma leave_wf l : idle l → fresh l → Life_wf (leave l).
Proof.
  intros Hi Hf. split; try done.
  - intros i Hj. by destruct (Hi i).
  - intros i Hj. apply Hf. simpl in Hj. destruct Hj as [?|[?|[?|?]]]; auto. done.
Qed.
(** Leaving, the thread is past its loop before [_exited] decides. *)
Lemma exit_commute i s l : i < lf_next l → goto i ph_exited (_exited i s l) = _exited i s (goto i ph_exited l).
Proof.
  intros Hi. destruct l as [st th ev rs bz se al nx cl]. unfold _exited, _spawn, goto. simpl in *. destruct (negb _); [done|]. destruct (_ && _); [|done].
  destruct (sp_registers s); simpl; [|done]. destruct (sp_starts s); simpl; [|done]. 
  apply (f_equal (λ a, mkLife ls_running (Some nx) nx false bz se a (S nx) cl)), insert_insert_ne. lia.
Qed.
Lemma exited_wf i s l : idle l → fresh l → lf_thread l = Some i → Life_wf (_exited i s l).
Proof.
  intros Hi Hf Ht. unfold _exited. rewrite bool_decide_true by done. simpl. destruct (_ && _); [|by apply leave_wf].
  destruct (_spawn s l) as [l1 [[]|e]] eqn:E.
  - change l1 with (l1, @Ok unit tt).1. rewrite <- E. apply spawn_wf; [done..|]. unfold _spawn in E. by destruct (sp_registers s).
  - apply leave_wf.
    + intros j Hj. assert (in_loop j (_spawn s l).1) as Hj' by by rewrite E. apply spawn_loop in Hj' as (_ & H1 & H2); [|done].
      unfold _spawn in E. by rewrite H1, H2 in E.
    + change l1 with (l1, @Err unit e).1. rewrite <- E. by apply spawn_fresh.
Qed.
Lemma wf_idle_but i p l : Life_wf l → lf_alive l !! i = Some p → p ≠ ph_exited → idle (goto i ph_exited l).
Proof.
  intros W Hp Hne j (q & Hq & Hn). unfold goto in Hq. simpl in Hq. destruct (decide (i = j)) as [->|Hij]; [rewrite lookup_insert_eq in Hq; congruence|].
  rewrite lookup_insert_ne in Hq by done. assert (lf_thread l = Some i) as H1 by (apply (lw_loop l W); by exists p).
  assert (lf_thread l = Some j) as H2 by (apply (lw_loop l W); by exists q). congruence.
Qed.
Lemma goto_fresh i p l : fresh l → is_Some (lf_alive l !! i) → fresh (goto i p l).
Proof.
  intros Hf Hi j Hj. apply Hf. unfold goto in Hj. simpl in Hj. destruct Hj as [Hj|Hj]; [|by right]. left.
  destruct (decide (i = j)) as [->|Hij]; [done|]. by rewrite lookup_insert_ne in Hj.
Qed.
Lemma ensure_wf s l : Life_wf l → Life_wf (ensure_started s l).1.
Proof.
  intros W. pose proof W as [W1 W2 W3 W4 W5 W6 W7]. unfold ensure_started.
  assert ((∃ i, lf_thread l = Some i ∧ lf_alive l !! i = None) ∨ match lf_thread l with Some i => if negb (is_alive i l) then l <| lf_state := ls_stopped |> else l | None => l end = l)
    as [(i & Ht & Hd)| ->].
  { destruct (lf_thread l) as [i|]; [|by right]. unfold is_alive. destruct (lf_alive l !! i) eqn:E; [|left; by exists i]. right. by rewrite bool_decide_true by by eexists. }
  - rewrite Ht. unfold is_alive. rewrite Hd. rewrite bool_decide_false by by intros [? ?]. simpl. apply spawn_wf.
    + intros j Hj. apply W1 in Hj as Hj2. destruct Hj as (p & Hp & _). simpl in Hp. congruence.
    + intros j Hj. apply W3. exact Hj.
    + intros _. split; [done|]. simpl. intros j Hj. rewrite Ht in Hj. injection Hj as <-. by rewrite Hd.
  - destruct (lf_state l) eqn:Es; [|done|].
    + apply spawn_wf; [intros j; by apply W6|exact W3|]. intros _. split; [done|exact W2].
    + split; simpl; try done; rewrite ?Es; by auto.
Qed.
Lemma stop_wf l : Life_wf l → Life_wf (ask_stop l).1.
Proof.
  intros W. pose proof W as [W1 W2 W3 W4 W5 W6 W7]. unfold ask_stop. simpl. destruct (decide _) as [Es|Es].
  - destruct (W4 Es) as [Ht Hn]. split; simpl; try done.
    + intros j Hj. apply W3. destruct Hj as [?|[Hj|?]]; [by left| |by right; right]. apply elem_of_union in Hj as [->%elem_of_singleton|?]; auto.
    + intros _. exists (lf_event l). split; [done|set_solver].
  - split; simpl; try done.
Qed.
Lemma step_wf o l : Life_wf l → Life_wf (life_step o l).
Proof.
  intros W. destruct o as [s| |i|i found|i ok|i s|i]; simpl.
  - by apply ensure_wf.
  - by apply stop_wf.
  - destruct (at_phase i ph_check l) eqn:E; [|done]. apply goto_wf; [by case_bool_decide|by apply (at_phase_loop i ph_check)|done].
  - destruct (at_phase i ph_claim l) eqn:E; [|done]. apply at_phase_loop in E; [|done]. destruct found as [[]|]; [|by apply goto_wf..].
    apply (goto_wf i ph_busy) in W; [|done..]. destruct W. split; done.
  - destruct (at_phase i ph_busy l) eqn:E; [|done]. apply at_phase_loop in E; [|done]. apply (goto_wf i (if ok then ph_check else ph_leaving)) in W; [|by destruct ok|done].
    destruct W. split; done.
  - destruct (at_phase i ph_leaving l) eqn:E; [|done]. apply bool_decide_eq_true in E. assert (lf_thread l = Some i) as Ht by (apply (lw_loop l W); by exists ph_leaving).
    rewrite exit_commute by (apply (lw_fresh l W); auto). apply exited_wf; [by apply (wf_idle_but i ph_leaving)| |done].
    apply goto_fresh; [exact (lw_fresh l W)|by eexists].
  - destruct (at_phase i ph_exited l) eqn:E; [|done]. apply bool_decide_eq_true in E. destruct W as [W1 W2 W3 W4 W5 W6 W7].
    assert (∀ j, in_loop j (l <| lf_alive := delete i (lf_alive l) |>) → in_loop j l) as Hl by (intros j (p & Hp & Hne); simpl in Hp; apply lookup_delete_Some in Hp as [_ Hp]; by exists p).
    split; simpl; try done.
    + intros j Hj. by apply W1, Hl.
    + intros j Hj Hd. apply lookup_delete_Some in Hd as [_ Hd]. by apply (W2 j Hj).
    + intros j Hj. apply W3. destruct Hj as [[p Hp]|Hj]; [|by right]. simpl in Hp. apply lookup_delete_Some in Hp as [_ Hp]. left. by eexists.
    + intros Hs j Hj. by apply (W6 Hs j), Hl.
Qed.
Lemma life_wf steps l : Life_wf l → Life_wf (life steps l).
Proof. revert l. induction steps as [|o steps IH]; intros l W; [done|]. simpl. by apply IH, step_wf. Qed.

(** C14: However callers and threads interleave - starts, stops, hand-overs,
    threads that die of an exception, spawns that fail - at most one thread is
    in its polling loop, it is the worker's own, and none is when the worker
    says it is stopped. *)
Theorem one_polling_thread steps i :
  let l := life steps new_worker in
  in_loop i l → lf_thread l = Some i ∧ lf_state l ≠ ls_stopped ∧ (∀ j, in_loop j l → j = i) ∧
  (is_running l = true → i ∉ lf_set l) ∧ (lf_state l = ls_stopping → i ∈ lf_set l).
Proof.
  cbv zeta. pose proof (life_wf steps _ new_worker_wf) as W. set (l := life steps new_worker) in *. clearbody l. intros Hi.
  pose proof (lw_loop l W i Hi) as Ht. split; [done|]. split; [intros Hs; by apply (lw_stopped l W Hs i)|]. split; [|split].
  - intros j Hj. apply (lw_loop l W) in Hj. congruence.
  - intros Hr%bool_decide_eq_true. apply (lw_running l W) in Hr as [He ?]. congruence.
  - intros Hs. apply (lw_stopping l W) in Hs as (j & Hj & ?). congruence.
Qed.

(** *** A thread that was asked to stop *)

(** Its own steps that are left. *)
Definition steps_left (i : nat) (l : Life) : nat :=
  match lf_alive l !! i with
  | Some ph_claim => 5 | Some ph_busy => 4 | Some ph_check => 3 | Some ph_leaving => 2 | Some ph_exited => 1 | None => 0
  end.
Definition claims_of (i : nat) (l : Life) : nat := length (filter (λ j, j = i) (lf_claims l)).
Definition own_step (i : nat) (o : LStep) (l : Life) : bool :=
  match o with
  | lt_test j => bool_decide (j = i) && at_phase i ph_check l
  | lt_poll j _ => bool_decide (j = i) && at_phase i ph_claim l
  | lt_done j _ => bool_decide (j = i) && at_phase i ph_busy l
  | lt_exit j _ => bool_decide (j = i) && at_phase i ph_leaving l
  | lt_die j => bool_decide (j = i) && at_phase i ph_exited l
  | _ => false
  end.
Fixpoint own_steps (i : nat) (steps : list LStep) (l : Life) : nat :=
  match steps with [] => 0 | o :: os => (if own_step i o l then 1 else 0) + own_steps i os (life_step o l) end.
(** Past the test already. *)
Definition may_claim (i : nat) (l : Life) : nat := if at_phase i ph_claim l then 1 else 0.
Lemma spawn_alive s l i : i < lf_next l → lf_alive (_spawn s l).1 !! i = lf_alive l !! i.
Proof.
  intros Hi. unfold _spawn. destruct (sp_registers s); simpl; [destruct (sp_starts s); simpl|]; try done. rewrite lookup_insert_ne; [done|lia].
Qed.
Lemma spawn_rest s l : lf_set (_spawn s l).1 = lf_set l ∧ lf_claims (_spawn s l).1 = lf_claims l.
Proof. unfold _spawn. by destruct (sp_registers s), (sp_starts s). Qed.
Lemma ensure_rest s l i : i < lf_next l → lf_alive (ensure_started s l).1 !! i = lf_alive l !! i ∧
  lf_set (ensure_started s l).1 = lf_set l ∧ lf_claims (ensure_started s l).1 = lf_claims l.
Proof.
  intros Hi. unfold ensure_started. destruct (lf_thread l) as [j|]; [destruct (negb _)|]; simpl.
  1: split; [by rewrite spawn_alive|]; pose proof (spawn_rest s (l <| lf_state := ls_stopped |>)) as E; exact E.
  all: destruct (lf_state l); [exact (conj (spawn_alive s l i Hi) (spawn_rest s l))|done|done].
Qed.
Lemma exited_rest j s l i : i < lf_next l → lf_alive (_exited j s l) !! i = lf_alive l !! i ∧ lf_set (_exited j s l) = lf_set l ∧ lf_claims (_exited j s l) = lf_claims l.
Proof.
  intros Hi. unfold _exited. destruct (negb _); [done|]. destruct (_ && _); [|done]. pose proof (conj (spawn_alive s l i Hi) (spawn_rest s l)) as Hs.
  by destruct (_spawn s l) as [l1 [|]].
Qed.
(** What a step that is not the thread's own leaves of it. *)
Definition same_thread (i : nat) (l l' : Life) : Prop := lf_alive l' !! i = lf_alive l !! i ∧ claims_of i l' = claims_of i l.
Lemma goto_other i j p l : j ≠ i → lf_alive (goto j p l) !! i = lf_alive l !! i.
Proof. intros Hne. unfold goto. simpl. by rewrite lookup_insert_ne. Qed.
Lemma at_phase_split i j p l : at_phase j p l = true → bool_decide (j = i) && at_phase i p l = false → j ≠ i.
Proof. intros H1 H2 ->. by rewrite H1, bool_decide_true in H2. Qed.
Lemma other_step i o l : i < lf_next l → own_step i o l = false → same_thread i l (life_step o l).
Proof.
  intros Hi. unfold same_thread. destruct o as [s| |j|j found|j ok|j s|j]; simpl.
  - intros _. destruct (ensure_rest s l i Hi) as (-> & _ & E). unfold claims_of. by rewrite E.
  - intros _. by destruct (decide _).
  - destruct (at_phase j ph_check l) eqn:E; [|done]. intros Hn. apply at_phase_split in Hn; [|done]. by rewrite goto_other.
  - destruct (at_phase j ph_claim l) eqn:E; [|done]. intros Hn. apply at_phase_split in Hn; [|done]. destruct found as [[]|]; [|by rewrite goto_other..].
    simpl. unfold claims_of. simpl. rewrite filter_app, filter_cons_False, filter_nil, app_nil_r by done. by rewrite lookup_insert_ne.
  - destruct (at_phase j ph_busy l) eqn:E; [|done]. intros Hn. apply at_phase_split in Hn; [|done]. simpl. by rewrite lookup_insert_ne.
  - destruct (at_phase j ph_leaving l) eqn:E; [|done]. intros Hn. apply at_phase_split in Hn; [|done]. rewrite goto_other by done.
    destruct (exited_rest j s l i Hi) as (-> & _ & E'). unfold claims_of. simpl. by rewrite E'.
  - destruct (at_phase j ph_exited l) eqn:E; [|done]. intros Hn. apply at_phase_split in Hn; [|done]. simpl. by rewrite lookup_delete_ne.
Qed.
(** The thread's own step, once its event is set. *)
Lemma own_step_down i o l : i < lf_next l → i ∈ lf_set l → own_step i o l = true →
  S (steps_left i (life_step o l)) ≤ steps_left i l ∧ claims_of i (life_step o l) + may_claim i (life_step o l) ≤ claims_of i l + may_claim i l.
Proof.
  intros Hn Hs. unfold steps_left, may_claim, at_phase. destruct o as [s| |j|j found|j ok|j s|j]; simpl; try done; intros [->%bool_decide_eq_true Ha]%andb_true_iff;
    rewrite Ha; apply bool_decide_eq_true in Ha; rewrite Ha.
  - rewrite (bool_decide_true (i ∈ lf_set l)) by done. unfold goto. simpl. rewrite lookup_insert_eq. done.
  - destruct found as [[]|]; unfold goto, claims_of; simpl; rewrite lookup_insert_eq; simpl.
    1: rewrite filter_app, filter_cons_True, filter_nil, length_app by done; simpl.
    all: repeat case_bool_decide; try done; lia.
  - unfold goto, claims_of. simpl. rewrite lookup_insert_eq. destruct ok; repeat case_bool_decide; try done; lia.
  - unfold goto. simpl. rewrite lookup_insert_eq. destruct (exited_rest i s l i Hn) as (_ & _ & E). unfold claims_of. simpl. rewrite E.
    repeat case_bool_decide; try done; lia.
  - unfold claims_of. simpl. rewrite lookup_delete_eq. repeat case_bool_decide; try done; lia.
Qed.
Lemma step_set i o l : i < lf_next l → i ∈ lf_set l → i ∈ lf_set (life_step o l).
Proof.
  intros Hi Hs. destruct o as [s| |j|j found|j ok|j s|j]; simpl.
  - destruct (ensure_rest s l i Hi) as (_ & -> & _). done.
  - destruct (decide _); simpl; [set_solver|done].
  - by destruct (at_phase _ _ _).
  - destruct (at_phase _ _ _); [|done]. by destruct found as [[]|].
  - by destruct (at_phase _ _ _).
  - destruct (at_phase _ _ _); [|done]. unfold goto. simpl. by destruct (exited_rest j s l i Hi) as (_ & -> & _).
  - by destruct (at_phase _ _ _).
Qed.

(** C15: A thread that was asked to stop is gone within five of its own steps -
    one execution among them at most - however the others interleave; and it
    claims at most one more run, and that only when it was past the test of
    its event already. *)
Theorem stopped_thread_leaves steps steps' i :
  let l := life steps new_worker in
  i ∈ lf_set l →
  own_steps i steps' l + steps_left i (life steps' l) ≤ steps_left i l ∧ steps_left i l ≤ 5 ∧
  claims_of i (life steps' l) ≤ claims_of i l + may_claim i l.
Proof.
  cbv zeta. pose proof (life_wf steps _ new_worker_wf) as W. set (l := life steps new_worker) in *. clearbody l. intros Hs.
  enough (own_steps i steps' l + steps_left i (life steps' l) ≤ steps_left i l ∧ claims_of i (life steps' l) ≤ claims_of i l + may_claim i l) as [H1 H2].
  { split; [done|]. split; [|done]. unfold steps_left. destruct (lf_alive l !! i) as [[]|]; lia. }
  revert l W Hs. induction steps' as [|o os IH]; intros l W Hs; [simpl; lia|].
  assert (i < lf_next l) as Hi by (apply (lw_fresh l W); auto). specialize (IH _ (step_wf o l W) (step_set i o l Hi Hs)). simpl.
  destruct (own_step i o l) eqn:Eo.
  - pose proof (own_step_down i o l Hi Hs Eo). unfold life in *. lia.
  - destruct (other_step i o l Hi Eo) as [E1 E2].
    assert (steps_left i (life_step o l) = steps_left i l) as E3 by (unfold steps_left; by rewrite E1).
    assert (may_claim i (life_step o l) = may_claim i l) as E4 by (unfold may_claim, at_phase; by rewrite E1). unfold life in *. lia.
Qed.

(** *** Handing over *)

Definition no_stop (o : LStep) : Prop := o ≠ lt_stop.
(** A hand-over that is due: the thread that leaves, and the restart. *)
Definition handing_over (i : nat) (l : Life) : Prop := lf_state l = ls_stopping ∧ lf_restart l = true ∧ in_loop i l.
Definition not_exit_of (i : nat) (o : LStep) : Prop := ∀ s, o ≠ lt_exit i s.
Lemma step_handing i o l : Life_wf l → no_stop o → not_exit_of i o → handing_over i l → handing_over i (life_step o l).
Proof.
  intros W Hns Hne (Hst & Hr & Hi). pose proof (lw_loop l W i Hi) as Ht. destruct Hi as (p & Hp & Hpne).
  assert (∀ j q, in_loop j l → q ≠ ph_exited → in_loop i (goto j q l)) as Hg.
  { intros j q Hj Hq. unfold in_loop, goto. simpl. apply (lw_loop l W) in Hj. assert (j = i) as -> by congruence. exists q. by rewrite lookup_insert_eq. }
  destruct o as [s| |j|j found|j ok|j s|j]; simpl; try done.
  - unfold ensure_started, is_alive. rewrite Ht, Hp. rewrite bool_decide_true by by eexists. simpl. rewrite Hst. split; [done|]. split; [done|by exists p].
  - destruct (at_phase j ph_check l) eqn:E; [|by repeat split; try done; exists p]. split; [done|]. split; [done|]. apply Hg; [by apply (at_phase_loop j ph_check)|by case_bool_decide].
  - destruct (at_phase j ph_claim l) eqn:E; [|by repeat split; try done; exists p]. apply at_phase_loop in E; [|done]. destruct found as [[]|]; (split; [done|]; split; [done|]); by apply Hg.
  - destruct (at_phase j ph_busy l) eqn:E; [|by repeat split; try done; exists p]. apply at_phase_loop in E; [|done]. split; [done|]. split; [done|]. apply Hg; [done|by destruct ok].
  - destruct (at_phase j ph_leaving l) eqn:E; [|by repeat split; try done; exists p]. apply at_phase_loop in E; [|done]. apply (lw_loop l W) in E.
    assert (j = i) as -> by congruence. by destruct (Hne s).
  - destruct (at_phase j ph_exited l) eqn:E; [|by repeat split; try done; exists p]. split; [done|]. split; [done|]. exists p. simpl.
    apply bool_decide_eq_true in E. rewrite lookup_delete_ne by congruence. done.
Qed.
Lemma life_handing i steps l : Life_wf l → Forall no_stop steps → Forall (not_exit_of i) steps → handing_over i l → handing_over i (life steps l).
Proof.
  intros W Hn. revert l W. induction Hn as [|o os Ho _ IH]; intros l W He Hh; [done|]. apply Forall_cons in He as [He1 He2]. simpl.
  apply IH; [by apply step_wf|done|by apply step_handing].
Qed.

(** Work that is queued while a thread is stopping is not stranded: once
    [ensure_started] was called, and unless [stop] is called again, the thread
    that leaves its loop hands over to a fresh one, which polls and which
    nobody asked to stop. *)
Theorem hand_over_happens steps steps' s s' i :
  let l := life steps new_worker in
  lf_state l = ls_stopping → in_loop i l → Forall no_stop steps' → Forall (not_exit_of i) steps' →
  let l1 := life steps' (life_step (lt_ensure s) l) in
  at_phase i ph_leaving l1 = true → sp_registers s' = true → sp_starts s' = true →
  let l2 := life_step (lt_exit i s') l1 in
  is_running l2 = true ∧ ∃ j, j ≠ i ∧ lf_thread l2 = Some j ∧ at_phase j ph_check l2 = true ∧ j ∉ lf_set l2.
Proof.
  cbv zeta. pose proof (life_wf steps _ new_worker_wf) as W. set (l := life steps new_worker) in *. clearbody l. intros Hst Hi Hns Hne Hl Hr Hsp.
  assert (handing_over i (life_step (lt_ensure s) l)) as Hh.
  { pose proof (lw_loop l W i Hi) as Ht. destruct Hi as (p & Hp & Hpne). simpl. unfold ensure_started, is_alive. rewrite Ht, Hp.
    rewrite bool_decide_true by by eexists. simpl. rewrite Hst. split; [done|]. split; [done|by exists p]. }
  apply (step_wf (lt_ensure s)) in W. apply (life_handing i steps') in Hh; [|done..]. apply (life_wf steps') in W.
  set (l1 := life steps' _) in *. clearbody l1. clear -W Hh Hl Hr Hsp. pose proof (step_wf (lt_exit i s') l1 W) as W2. destruct Hh as (Hst & Hre & Hi).
  pose proof (lw_loop l1 W i Hi) as Ht. assert (i < lf_next l1) as Hlt by (apply (lw_fresh l1 W); auto).
  assert (is_running (life_step (lt_exit i s') l1) = true ∧ lf_thread (life_step (lt_exit i s') l1) = Some (lf_next l1) ∧
    lf_alive (life_step (lt_exit i s') l1) !! lf_next l1 = Some ph_check) as (H1 & H2 & H3).
  { simpl. rewrite Hl. unfold _exited. rewrite (bool_decide_true (lf_thread l1 = Some i)), Hst, Hre by done. simpl. unfold _spawn. rewrite Hr, Hsp. simpl.
    split; [done|]. split; [done|]. rewrite lookup_insert_ne by lia. by rewrite lookup_insert_eq. }
  split; [done|]. exists (lf_next l1). split; [lia|]. split; [done|]. split; [by apply bool_decide_eq_true|].
  apply bool_decide_eq_true in H1. apply (lw_running _ W2) in H1 as [He Hn]. rewrite H2 in He. by injection He as ->.
Qed.

(** *** What [stop] answers *)

Definition no_start (o : LStep) : Prop := match o with lt_ensure _ => False | _ => True end.
Lemma goto_loop_at i p q l j : at_phase i p l = true → p ≠ ph_exited → in_loop j (goto i q l) → in_loop j l.
Proof.
  intros Ha Hp (r & Hr & Hne). unfold goto in Hr. simpl in Hr. destruct (decide (i = j)) as [->|Hij]; [by apply (at_phase_loop j p)|].
  rewrite lookup_insert_ne in Hr by done. by exists r.
Qed.
Lemma step_no_new o l : lf_restart l = false → no_start o → lf_restart (life_step o l) = false ∧ ∀ j, in_loop j (life_step o l) → in_loop j l.
Proof.
  intros Hr Ho. destruct o as [s| |i|i found|i ok|i s|i]; simpl; try done.
  - by destruct (decide _).
  - destruct (at_phase i ph_check l) eqn:E; [|done]. split; [done|]. intros j. by apply (goto_loop_at i ph_check).
  - destruct (at_phase i ph_claim l) eqn:E; [|done]. destruct found as [[]|]; (split; [done|]); intros j; by apply (goto_loop_at i ph_claim).
  - destruct (at_phase i ph_busy l) eqn:E; [|done]. split; [done|]. intros j. by apply (goto_loop_at i ph_busy).
  - destruct (at_phase i ph_leaving l) eqn:E; [|done].
    assert (_exited i s l = l ∨ _exited i s l = leave l) as [->| ->]; [unfold _exited; destruct (negb _); [by left|right]; by rewrite Hr, andb_false_r|..];
      (split; [done|]); intros j; by apply (goto_loop_at i ph_leaving).
  - destruct (at_phase i ph_exited l) eqn:E; [|done]. split; [done|]. intros j (p & Hp & Hne). simpl in Hp. apply lookup_delete_Some in Hp as [_ Hp]. by exists p.
Qed.
Lemma life_no_new steps l : lf_restart l = false → Forall no_start steps → ∀ j, in_loop j (life steps l) → in_loop j l.
Proof.
  intros Hr Hn. revert l Hr. induction Hn as [|o os Ho _ IH]; intros l Hr j Hj; [done|]. simpl in Hj. destruct (step_no_new o l Hr Ho) as [Hr' Hl]. by apply Hl, IH.
Qed.
(** When nobody starts the worker meanwhile, a [stop] that answers true leaves
    no thread in its loop. *)
Theorem stop_answer_sound steps steps' :
  let l := life steps new_worker in let '(l1, waited) := ask_stop l in
  Forall no_start steps' → stop_answer waited (life steps' l1) = true → idle (life steps' l1).
Proof.
  pose proof (life_wf steps _ new_worker_wf) as W. set (l := life steps new_worker) in *. clearbody l. simpl. intros Hn Ha j Hj.
  assert (in_loop j l) as Hl.
  { apply life_no_new in Hj; [|by destruct (decide _)|done]. by destruct (decide _). }
  apply (lw_loop l W) in Hl. rewrite Hl in Ha. simpl in Ha. unfold is_alive in Ha. destruct Hj as (p & Hp & _). unfold ask_stop in *. simpl in *.
  rewrite Hp in Ha. by rewrite bool_decide_true in Ha by by eexists.
Qed.

Definition works : Spawning := mkSpawning true true.
(** A stopping worker may still claim: the thread was past its test. *)
Theorem stopping_thread_claims :
  let l := life [lt_ensure works; lt_test 1; lt_stop] new_worker in
  lf_state l = ls_stopping ∧ lf_claims l = [] ∧ lf_claims (life_step (lt_poll 1 (Some true)) l) = [1].
Proof. by vm_compute. Qed.
(** And [stop] answers true with a thread polling, when the worker was started
    again while it waited: the thread it waited for has handed over. *)
Theorem stop_true_while_polling :
  let l := life [lt_ensure works] new_worker in
  let l2 := life [lt_ensure works; lt_test 1; lt_exit 1 works; lt_die 1] (ask_stop l).1 in
  stop_answer (ask_stop l).2 l2 = true ∧ is_running l2 = true ∧ at_phase 2 ph_check l2 = true.
Proof. by vm_compute. Qed.

(** *** Witnesses *)

Lemma one_polling_thread_witness : in_loop 2 (life [lt_ensure works; lt_stop; lt_ensure works; lt_test 1; lt_exit 1 works] new_worker) ∧
  lf_thread (life [lt_ensure works; lt_stop; lt_ensure works; lt_test 1; lt_exit 1 works] new_worker) = Some 2.
Proof.
  assert (in_loop 2 (life [lt_ensure works; lt_stop; lt_ensure works; lt_test 1; lt_exit 1 works] new_worker)) as Hi by (exists ph_check; by vm_compute).
  split; [done|]. destruct (one_polling_thread _ 2 Hi) as [Ht _]. exact Ht.
Defined.
Lemma stopped_thread_leaves_witness :
  claims_of 1 (life [lt_poll 1 (Some true); lt_done 1 true; lt_test 1; lt_poll 1 (Some true)] (life [lt_ensure works; lt_test 1; lt_stop] new_worker)) ≤ 1.
Proof.
  apply (stopped_thread_leaves [lt_ensure works; lt_test 1; lt_stop] [lt_poll 1 (Some true); lt_done 1 true; lt_test 1; lt_poll 1 (Some true)] 1).
  apply (bool_decide_eq_true_1 _). by vm_compute.
Defined.
Lemma hand_over_happens_witness :
  is_running (life_step (lt_exit 1 works) (life [lt_test 1] (life_step (lt_ensure works) (life [lt_ensure works; lt_stop] new_worker)))) = true.
Proof.
  destruct (hand_over_happens [lt_ensure works; lt_stop] [lt_test 1] works works 1) as [Hr _]; [by vm_compute|exists ph_check; by vm_compute|by repeat constructor..|
    by vm_compute|done|done|exact Hr].
Defined.
Lemma stop_answer_sound_witness : idle (life [lt_test 1; lt_exit 1 works; lt_die 1] (ask_stop (life [lt_ensure works] new_worker)).1).
Proof. apply (stop_answer_sound [lt_ensure works] [lt_test 1; lt_exit 1 works; lt_die 1]); [by repeat constructor|by vm_compute]. Defined.
