(* ===== verification/ModelCalls.v ===== *)
(** * Calling a model provider (solver/model.py, solver/resilience.py)

    [ModelClient.complete]: up to [max_retries + 1] attempts under one deadline,
    each let through by the circuit breaker of its provider and model, with a
    jittered delay between them, charging what was answered.  The provider, the
    clock and sleeping are operations of a record; other threads may use the
    breaker while a call is in flight or a retry sleeps, so those operations
    may change it.  Clock readings and time limits are exact (microseconds);
    delays, costs and jitter are binary64.  The theorems: attempts and spend
    are bounded and exact, a late answer is charged and refused, the breaker
    opens exactly when the window holds enough failures, one probe at a time
    is let through - and a probe that ends in a client error is never given
    back, after which every call is refused for good. *)
From S2P Require Import Prelude.
From Stdlib Require Import ZArith Lia.
Open Scope Z_scope.

(** ** resilience.py: classifying a failure *)

Inductive CallOutcome := co_ok | co_client_error | co_retryable | co_timeout.
#[export] Instance CallOutcome_eq_dec : EqDecision CallOutcome. Proof. solve_decision. Defined.

(** An exception as [classify] sees it: its status when that is an int, its
    classes, and the delay a response asked for. *)
Record Raised := mkRaised {
  ra_status : option Z; ra_timeout : bool; ra_connection : bool; ra_names : list string; ra_retry_after_s : option float }.
Definition _CLIENT_STATUS : list Z := [400; 401; 403; 404; 409; 422].
Definition _RETRY_STATUS : list Z := [408; 429; 500; 502; 503; 504].
Fixpoint classify_walk (seen : nat) (chain : list Raised) : CallOutcome :=
  match seen, chain with
  | S seen', e :: causes =>
      match ra_status e with
      | Some status =>
          if bool_decide (status ∈ _CLIENT_STATUS) then co_client_error
          else if bool_decide (status ∈ _RETRY_STATUS) then co_retryable else co_client_error
      | None =>
          if ra_timeout e then co_timeout
          else if ra_connection e then co_retryable
          else if bool_decide ("URLError" ∈ ra_names e) || bool_decide ("IncompleteRead" ∈ ra_names e) then co_retryable
          else classify_walk seen' causes
      end
  | _, _ => co_client_error
  end.
(** An exception and its chain of [__cause__]. *)
Definition classify (e : Raised) (causes : list Raised) : CallOutcome := classify_walk 6 (e :: causes).

Definition py_min_f (a b : float) : float := if b <?. a then b else a.
Definition py_max_f (a b : float) : float := if a <?. b then b else a.
Definition f1 : float := Z2f 1.
Definition backoff_s (attempt : Z) (base_s cap_s : float) (retry_after_s : option float) (roll : float) : float :=
  let ceiling := py_min_f cap_s (base_s ⊗ Z2f (2 ^ attempt)) in
  let ceiling := if ceiling <?. f0 then f0 else ceiling in
  let roll := if feqb roll f0 then f1 else roll in
  let wait := roll ⊗ ceiling in
  let wait := match retry_after_s with Some r => if f0 <?. r then py_max_f wait r else wait | None => wait end in
  py_min_f cap_s wait.

(** ** resilience.py: the circuit breaker *)

Inductive CircuitPhase := cp_closed | cp_open | cp_half_open.
#[export] Instance CircuitPhase_eq_dec : EqDecision CircuitPhase. Proof. solve_decision. Defined.
Record Circuit := mkCircuit { ci_phase : CircuitPhase; ci_failures : list Z; ci_opened_at : Z; ci_probe : bool }.
#[export] Instance eta_Circuit : Eta Circuit := λ c, mkCircuit (ci_phase c) (ci_failures c) (ci_opened_at c) (ci_probe c).
Definition new_Circuit : Circuit := mkCircuit cp_closed [] 0 false.
Notation Circuits := (gmap (string * string) Circuit).
Record BreakerConfig := mkBreakerConfig { bc_threshold : Z; bc_window_s : Z; bc_open_s : Z }.

Definition circuit (key : string * string) (m : Circuits) : Circuit := default new_Circuit (m !! key).
(** Whether the call may go on, and the circuit after asking. *)
Definition ask_circuit (cfg : BreakerConfig) (now : Z) (c : Circuit) : Circuit * bool :=
  let c := if bool_decide (ci_phase c = cp_open) && (bc_open_s cfg <=? now - ci_opened_at c)
           then c <| ci_phase := cp_half_open |> <| ci_probe := false |> else c in
  match ci_phase c with
  | cp_open => (c, false)
  | cp_half_open => if ci_probe c then (c, false) else (c <| ci_probe := true |>, true)
  | cp_closed => (c, true)
  end.
Definition before_call (cfg : BreakerConfig) (now : Z) (key : string * string) (m : Circuits) : Circuits * bool :=
  let '(c, ok) := ask_circuit cfg now (circuit key m) in (<[key := c]> m, ok).
Definition succeed (c : Circuit) : Circuit := c <| ci_phase := cp_closed |> <| ci_failures := [] |> <| ci_probe := false |>.
Definition record_success (key : string * string) (m : Circuits) : Circuits := <[key := succeed (circuit key m)]> m.
Definition fail_once (cfg : BreakerConfig) (now : Z) (c : Circuit) : Circuit :=
  match ci_phase c with
  | cp_half_open => c <| ci_phase := cp_open |> <| ci_opened_at := now |> <| ci_probe := false |>
  | _ =>
      let failures := List.filter (λ stamp, now - stamp <=? bc_window_s cfg) (ci_failures c) ++ [now] in
      let c := c <| ci_failures := failures |> in
      if bc_threshold cfg <=? Z.of_nat (length failures) then c <| ci_phase := cp_open |> <| ci_opened_at := now |> else c
  end.
Definition record_failure (cfg : BreakerConfig) (now : Z) (key : string * string) (m : Circuits) : Circuits :=
  <[key := fail_once cfg now (circuit key m)]> m.

(** ** model.py *)

Record ModelResponse := mkModelResponse {
  mr_text : string; mr_prompt_tokens : Z; mr_completion_tokens : Z; mr_cost_usd : float; mr_model : string; mr_latency_s : Z }.
#[export] Instance eta_ModelResponse : Eta ModelResponse := λ r,
  mkModelResponse (mr_text r) (mr_prompt_tokens r) (mr_completion_tokens r) (mr_cost_usd r) (mr_model r) (mr_latency_s r).
Record ModelSpend := mkModelSpend { sp_calls : Z; sp_tokens : Z; sp_cost_usd : float; sp_retries : Z }.
#[export] Instance eta_ModelSpend : Eta ModelSpend := λ s, mkModelSpend (sp_calls s) (sp_tokens s) (sp_cost_usd s) (sp_retries s).
Definition _charge (r : ModelResponse) (s : ModelSpend) : ModelSpend :=
  mkModelSpend (sp_calls s + 1) (sp_tokens s + (mr_prompt_tokens r + mr_completion_tokens r)) (sp_cost_usd s ⊕ mr_cost_usd r) (sp_retries s).

(** What one call of the provider comes to; an abort is no [Exception]. *)
Inductive Attempt := at_answer (r : ModelResponse) | at_raise (e : Raised) (causes : list Raised) | at_abort.
Inductive CallEnd :=
  | ce_response (r : ModelResponse)
  | ce_unavailable (reason : string)
  | ce_raise (e : Raised) (causes : list Raised)
  | ce_abort.

Record Client := mkClient {
  cl_key : string * string; cl_max_retries : Z; cl_timeout_s : Z; cl_retry_backoff_s : float; cl_backoff_cap_s : float; cl_breaker : BreakerConfig }.
(** The world a client runs in: the monotonic clock, the provider under a
    timeout, sleep and the jitter.  While a call or a sleep lasts, other
    threads may use the circuits. *)
Record Provider (W : Type) := mkProvider {
  pv_clock : W → W * Z;
  pv_call : Z → W * Circuits → (W * Circuits) * Attempt;
  pv_sleep : float → W * Circuits → W * Circuits;
  pv_roll : W → W * float }.
Arguments pv_clock {W} _ _.
Arguments pv_call {W} _ _ _.
Arguments pv_sleep {W} _ _ _.
Arguments pv_roll {W} _ _.

Record Calls (W : Type) := mkCalls {
  ca_world : W; ca_circuits : Circuits; ca_spend : ModelSpend; ca_made : nat (* calls of the provider *) }.
Arguments mkCalls {W} _ _ _ _.
Arguments ca_world {W} _.
Arguments ca_circuits {W} _.
Arguments ca_spend {W} _.
Arguments ca_made {W} _.
#[export] Instance eta_Calls {W} : Eta (Calls W) := λ s, mkCalls (ca_world s) (ca_circuits s) (ca_spend s) (ca_made s).

Section Complete.
Context {W : Type} (pv : Provider W) (cl : Client).

Definition tick (s : Calls W) : Calls W * Z := let '(w, now) := pv_clock pv (ca_world s) in (s <| ca_world := w |>, now).
Definition on_circuits (f : Z → Circuits → Circuits) (s : Calls W) : Calls W :=
  let '(s, now) := tick s in s <| ca_circuits := f now (ca_circuits s) |>.
Definition fail_circuit : Calls W → Calls W := on_circuits (λ now, record_failure (cl_breaker cl) now (cl_key cl)).
Definition pass_circuit : Calls W → Calls W := λ s, s <| ca_circuits := record_success (cl_key cl) (ca_circuits s) |>.
Definition call_provider (timeout : Z) (s : Calls W) : Calls W * Attempt :=
  let '((w, m), a) := pv_call pv timeout (ca_world s, ca_circuits s) in
  (s <| ca_world := w |> <| ca_circuits := m |> <| ca_made := S (ca_made s) |>, a).
Definition sleep_before (attempt : Z) (e : Raised) (s : Calls W) : Calls W :=
  let '(w, roll) := pv_roll pv (ca_world s) in
  let '(w, m) := pv_sleep pv (backoff_s attempt (cl_retry_backoff_s cl) (cl_backoff_cap_s cl) (ra_retry_after_s e) roll) (w, ca_circuits s) in
  s <| ca_world := w |> <| ca_circuits := m |>.
Definition answered (attempt deadline started : Z) (r : ModelResponse) (s : Calls W) : Calls W * CallEnd :=
  let '(s, finished) := tick s in
  let r := r <| mr_latency_s := finished - started |> in
  if deadline <? finished then (fail_circuit (s <| ca_spend := _charge r (ca_spend s) |>), ce_unavailable "deadline")
  else
    let spend := _charge r (ca_spend s) in
    let spend := if 0 <? attempt then spend <| sp_retries := sp_retries spend + attempt |> else spend in
    (pass_circuit (s <| ca_spend := spend |>), ce_response r).
(** The loop's body from attempt [attempt] on, with [left] attempts to go. *)
Fixpoint attempts (left : nat) (attempt : Z) (deadline : option Z) (budget : Z) (s : Calls W) : Calls W * CallEnd :=
  match left with
  | O => (s, ce_unavailable "retries")
  | S left' =>
      let '(s, started) := tick s in
      let deadline' := default (started + budget) deadline in
      let remaining := match deadline with None => budget | Some d => d - started end in
      if remaining <=? 0 then (s, ce_unavailable "deadline")
      else
        let '(s, now) := tick s in
        let '(m, ok) := before_call (cl_breaker cl) now (cl_key cl) (ca_circuits s) in
        let s := s <| ca_circuits := m |> in
        if negb ok then (s, ce_unavailable "circuit_open")
        else
          match call_provider remaining s with
          | (s, at_abort) => (s, ce_abort)
          | (s, at_answer r) => answered attempt deadline' started r s
          | (s, at_raise e causes) =>
              let outcome := classify e causes in
              let s := if bool_decide (outcome ∈ [co_retryable; co_timeout]) then fail_circuit s else s in
              if bool_decide (outcome = co_client_error) || (cl_max_retries cl <=? attempt) then (s, ce_raise e causes)
              else attempts left' (attempt + 1) (Some deadline') budget (sleep_before attempt e s)
          end
  end.
Definition complete_call (deadline_s : option Z) (s : Calls W) : Calls W * CallEnd :=
  attempts (Z.to_nat (cl_max_retries cl + 1)) 0 None (default (cl_timeout_s cl) deadline_s) s.
End Complete.

(** ** Theorems *)

(** *** Attempts and spend *)

Section Calling.
Context {W : Type} (pv : Provider W) (cl : Client).

Lemma fail_circuit_spend s : ca_spend (fail_circuit pv cl s) = ca_spend s ∧ ca_made (fail_circuit pv cl s) = ca_made s.
Proof. unfold fail_circuit, on_circuits, tick. by destruct (pv_clock pv _). Qed.
Lemma sleep_before_spend n e s : ca_spend (sleep_before pv cl n e s) = ca_spend s ∧ ca_made (sleep_before pv cl n e s) = ca_made s.
Proof. unfold sleep_before. destruct (pv_roll pv _). by destruct (pv_sleep pv _ _). Qed.
(** What a call can have charged. *)
Definition charged_for (n : Z) (r : ModelResponse) (sp : ModelSpend) : ModelSpend :=
  let sp' := _charge r sp in if 0 <? n then sp' <| sp_retries := sp_retries sp' + n |> else sp'.
Definition spend_after (lo hi : Z) (sp sp' : ModelSpend) (e : CallEnd) : Prop :=
  match e with
  | ce_response r => ∃ n, lo ≤ n ≤ hi ∧ sp' = charged_for n r sp
  | ce_unavailable why => sp' = sp ∨ why = "deadline" ∧ ∃ r, sp' = _charge r sp
  | ce_raise _ _ | ce_abort => sp' = sp
  end.
Lemma spend_after_weaken lo lo' hi sp sp' e : lo' ≤ lo → spend_after lo hi sp sp' e → spend_after lo' hi sp sp' e.
Proof. intros Hl. destruct e; simpl; try done. intros (n & ? & ?). exists n. split; [lia|done]. Qed.
Lemma answered_spend n d t r s hi : n ≤ hi → let x := answered pv cl n d t r s in
  spend_after n hi (ca_spend s) (ca_spend x.1) x.2 ∧ ca_made x.1 = ca_made s.
Proof.
  intros Hn. unfold answered, tick. destruct (pv_clock pv (ca_world s)) as [w now]. simpl. destruct (d <? now); simpl.
  - destruct (fail_circuit_spend ((s <| ca_world := w |>) <| ca_spend := _charge (r <| mr_latency_s := now - t |>) (ca_spend s) |>)) as [-> ->].
    simpl. split; [|done]. right. split; [done|]. by exists (r <| mr_latency_s := now - t |>).
  - split; [|done]. exists n. split; [lia|]. unfold charged_for. by destruct (0 <? n).
Qed.
Lemma attempts_spend left n deadline budget s : n + Z.of_nat left ≤ cl_max_retries cl + 1 → let x := attempts pv cl left n deadline budget s in
  spend_after n (cl_max_retries cl) (ca_spend s) (ca_spend x.1) x.2 ∧ (ca_made s ≤ ca_made x.1 ≤ ca_made s + left)%nat.
Proof.
  revert n deadline s. induction left as [|left IH]; intros n deadline s Hn; cbn [attempts]; [split; [by left|simpl; lia]|].
  unfold tick. destruct (pv_clock pv (ca_world s)) as [w started]. simpl. destruct (_ <=? 0); [split; [by left|simpl; lia]|].
  destruct (pv_clock pv w) as [w' now]. simpl. destruct (before_call _ _ _ _) as [m ok]. destruct ok; simpl; [|split; [by left|simpl; lia]].
  unfold call_provider. simpl. destruct (pv_call pv _ _) as [[w2 m2] [r|e causes|]]; simpl.
  - match goal with |- context [answered pv cl n ?d ?t r ?s'] => destruct (answered_spend n d t r s' (cl_max_retries cl)) as [Hs Hm]; [lia|] end.
    simpl in Hs, Hm. split; [exact Hs|lia].
  - set (s1 := if bool_decide (_ ∈ _) then _ else _).
    assert (ca_spend s1 = ca_spend s ∧ ca_made s1 = S (ca_made s)) as [E1 E2].
    { subst s1. destruct (bool_decide _); [|done]. match goal with |- context [fail_circuit pv cl ?s'] => by destruct (fail_circuit_spend s') as [-> ->] end. }
    destruct (_ || _); simpl; [rewrite E1, E2; split; [done|lia]|].
    specialize (IH (n + 1) (Some (default (started + budget) deadline)) (sleep_before pv cl n e s1) ltac:(lia)). cbv zeta in IH.
    destruct (sleep_before_spend n e s1) as [E3 E4]. rewrite E3, E4, E1, E2 in IH. destruct IH as [IH1 IH2].
    split; [by apply (spend_after_weaken (n + 1)); [lia|]|lia].
  - split; [done|lia].
Qed.

(** A call makes at most [max_retries + 1] calls of the provider, and charges
    exactly what was answered: an answer in time counts once, with the
    retries that went before it; a late one counts and is refused; whatever
    else happens charges nothing. *)
Theorem complete_charges deadline_s s : let x := complete_call pv cl deadline_s s in
  spend_after 0 (cl_max_retries cl) (ca_spend s) (ca_spend x.1) x.2 ∧
  (ca_made s ≤ ca_made x.1 ≤ ca_made s + Z.to_nat (cl_max_retries cl + 1))%nat.
Proof.
  destruct (Z.leb_spec 0 (cl_max_retries cl + 1)) as [Hp|Hp]; [apply attempts_spend; lia|].
  cbv zeta. unfold complete_call. replace (Z.to_nat (cl_max_retries cl + 1)) with O by lia. simpl. split; [by left|lia].
Qed.

(** *** Answers in time *)

(** A clock that never goes back, whatever else runs. *)
Definition monotonic (at_ : W → Z) : Prop :=
  (∀ w, at_ w ≤ (pv_clock pv w).2 ∧ (pv_clock pv w).2 ≤ at_ (pv_clock pv w).1) ∧
  (∀ t w m, at_ w ≤ at_ (pv_call pv t (w, m)).1.1) ∧ (∀ d w m, at_ w ≤ at_ (pv_sleep pv d (w, m)).1) ∧
  (∀ w, at_ w ≤ at_ (pv_roll pv w).1).
Definition world_at (at_ : W → Z) (s : Calls W) : Z := at_ (ca_world s).
Lemma fail_circuit_later at_ s : monotonic at_ → world_at at_ s ≤ world_at at_ (fail_circuit pv cl s).
Proof.
  intros (Hc & _). unfold fail_circuit, on_circuits, tick, world_at. specialize (Hc (ca_world s)). destruct (pv_clock pv _). simpl in *. lia.
Qed.
Lemma sleep_before_later at_ n e s : monotonic at_ → world_at at_ s ≤ world_at at_ (sleep_before pv cl n e s).
Proof.
  intros (_ & _ & Hs & Hr). unfold sleep_before, world_at. specialize (Hr (ca_world s)). destruct (pv_roll pv _) as [w roll].
  match goal with |- context [pv_sleep pv ?d (w, ?m)] => specialize (Hs d w m); destruct (pv_sleep pv d (w, m)) end. simpl in *. lia.
Qed.
Lemma answered_latency at_ n d t r s r' s' : monotonic at_ → t ≤ world_at at_ s → answered pv cl n d t r s = (s', ce_response r') →
  0 ≤ mr_latency_s r' ∧ mr_latency_s r' ≤ d - t.
Proof.
  intros (Hc & _) Ht. unfold answered, tick, world_at in *. specialize (Hc (ca_world s)). destruct (pv_clock pv _) as [w now]. simpl in *.
  destruct (Z.ltb_spec d now); [done|]. intros E. apply (f_equal snd) in E. simpl in E. injection E as <-. simpl. lia.
Qed.
Lemma attempts_latency at_ left n deadline budget s s' r first : monotonic at_ → first ≤ world_at at_ s →
  (∀ d, deadline = Some d → d ≤ first + budget) → attempts pv cl left n deadline budget s = (s', ce_response r) →
  0 ≤ mr_latency_s r ≤ budget.
Proof.
  intros Hm. revert n deadline s first. induction left as [|left IH]; intros n deadline s first Hf Hd; cbn [attempts]; [done|].
  pose proof Hm as (Hc & Hcall & _). unfold tick, world_at in *. pose proof (Hc (ca_world s)) as H1. destruct (pv_clock pv (ca_world s)) as [w started]. simpl in *.
  destruct (_ <=? 0); [done|]. pose proof (Hc w) as H2. destruct (pv_clock pv w) as [w' now]. simpl in *. destruct (before_call _ _ _ _) as [m ok].
  destruct ok; simpl; [|done]. unfold call_provider. simpl.
  match goal with |- context [pv_call pv ?t (w', m)] => pose proof (Hcall t w' m) as H3; destruct (pv_call pv t (w', m)) as [[w2 m2] [a|e causes|]] end; simpl in *; [| |done].
  - intros E. apply (answered_latency at_) in E; [|done|unfold world_at; simpl; lia].
    assert (default (started + budget) deadline ≤ started + budget) by (destruct deadline as [d|]; simpl; [specialize (Hd d eq_refl)|]; lia). lia.
  - destruct (_ || _); [done|]. set (s1 := if bool_decide (_ ∈ _) then _ else _). intros E. revert E. apply (IH _ _ _ started).
    + etransitivity; [|by apply sleep_before_later]. unfold world_at. subst s1. destruct (bool_decide _); [|simpl; lia].
      etransitivity; [|by apply fail_circuit_later]. unfold world_at. simpl. lia.
    + intros d [= <-]. destruct deadline as [d|]; simpl; [specialize (Hd d eq_refl)|]; lia.
Qed.
(** An answer that is returned came within the call's whole budget, retries
    and delays included. *)
Theorem response_in_time at_ deadline_s s s' r : monotonic at_ → complete_call pv cl deadline_s s = (s', ce_response r) →
  0 ≤ mr_latency_s r ≤ default (cl_timeout_s cl) deadline_s.
Proof. intros Hm. apply (attempts_latency at_ _ _ _ _ _ _ _ (world_at at_ s)); [done|lia|done]. Qed.
End Calling.

(** *** When the circuit opens *)

Section Breaker.
Context (cfg : BreakerConfig).
(** Failures of a circuit, since it was closed with none. *)
Definition after_failures (ts : list Z) : Circuit := foldl (λ c now, fail_once cfg now c) new_Circuit ts.
Definition recent (now : Z) (ts : list Z) : list Z := List.filter (λ stamp, now - stamp <=? bc_window_s cfg) ts.

Lemma window_window t now ts : t ≤ now → recent now (recent t ts) = recent now ts.
Proof.
  intros Ht. unfold recent. induction ts as [|s ts IH]; [done|]. simpl. destruct (Z.leb_spec (t - s) (bc_window_s cfg)); simpl.
  - destruct (_ <=? _); [by rewrite IH|done].
  - destruct (Z.leb_spec (now - s) (bc_window_s cfg)); [lia|done].
Qed.
Lemma fail_once_closed now c : ci_phase (fail_once cfg now c) = cp_closed → ci_phase c = cp_closed ∧
  ci_failures (fail_once cfg now c) = recent now (ci_failures c) ++ [now].
Proof. unfold fail_once. destruct (ci_phase c) eqn:E; [| |done]; destruct (_ <=? _); simpl; rewrite ?E; done. Qed.
Lemma closed_failures ts : Sorted Z.le ts → ci_phase (after_failures ts) = cp_closed →
  ∀ now, (∀ t, t ∈ ts → t ≤ now) → recent now (ci_failures (after_failures ts)) = recent now ts.
Proof.
  unfold after_failures. induction ts as [|t ts IH] using rev_ind; intros Hs Hc now Hn; [done|]. rewrite foldl_app in *. cbn [foldl] in *.
  apply fail_once_closed in Hc as [Hc ->]. apply Sorted_StronglySorted in Hs; [|intros a b c; lia].
  assert (Sorted Z.le ts ∧ ∀ u, u ∈ ts → u ≤ t) as [Hs1 Hs2].
  { split; [apply StronglySorted_Sorted; by apply StronglySorted_app_1_l in Hs|]. intros u Hu.
    apply (StronglySorted_app_1_elem_of _ _ _ u t Hs Hu). by left. }
  assert (t ≤ now) as Ht by (apply Hn, elem_of_app; right; by left).
  unfold recent at 1. rewrite List.filter_app. fold (recent now (recent t (ci_failures (foldl (λ c x, fail_once cfg x c) new_Circuit ts)))).
  rewrite window_window by done. rewrite IH; [|done|done|intros u Hu; apply Hn, elem_of_app; by left].
  unfold recent. by rewrite List.filter_app.
Qed.
(** A closed circuit opens at a failure exactly when, over its whole history
    since it was last closed, the window that ends there holds as many
    failures as the threshold: pruning the list at each failure loses none. *)
Theorem opens_exactly ts now :
  Sorted Z.le (ts ++ [now]) → 0 ≤ bc_window_s cfg → ci_phase (after_failures ts) = cp_closed →
  ci_phase (after_failures (ts ++ [now])) = cp_open ↔ bc_threshold cfg ≤ Z.of_nat (length (recent now (ts ++ [now]))).
Proof.
  intros Hs Hw Hc. apply Sorted_StronglySorted in Hs; [|intros a b c; lia].
  assert (Sorted Z.le ts) as Hs1 by (apply StronglySorted_Sorted; by apply StronglySorted_app_1_l in Hs).
  assert (∀ t, t ∈ ts → t ≤ now) as Hn by (intros t Ht; apply (StronglySorted_app_1_elem_of _ _ _ t now Hs Ht); by left).
  unfold after_failures at 1. rewrite foldl_app. cbn [foldl]. fold (after_failures ts). unfold fail_once. rewrite Hc.
  fold (recent now (ci_failures (after_failures ts))). rewrite closed_failures by done.
  unfold recent. rewrite List.filter_app. cbn [List.filter]. rewrite Z.sub_diag. replace (0 <=? bc_window_s cfg) with true by lia.
  destruct (Z.leb_spec (bc_threshold cfg) (Z.of_nat (length (List.filter (λ s, now - s <=? bc_window_s cfg) ts ++ [now])))); simpl; [done|]. rewrite Hc. split; [done|lia].
Qed.

(** A circuit whose probe is out. *)
Definition probing (c : Circuit) : Prop := ci_phase c = cp_half_open ∧ ci_probe c = true.
Lemma probing_refuses now c : probing c → ask_circuit cfg now c = (c, false).
Proof. intros [Hp Hb]. unfold ask_circuit. rewrite Hp, bool_decide_false by done. simpl. by rewrite Hp, Hb. Qed.
Lemma ask_again now c : (ci_phase c = cp_open ∧ bc_open_s cfg ≤ now - ci_opened_at c) ∨ (ci_phase c = cp_half_open ∧ ci_probe c = false) →
  ∃ c', ask_circuit cfg now c = (c', true) ∧ probing c'.
Proof.
  unfold ask_circuit. intros [[Hp Ht]|[Hp Hb]]; rewrite Hp.
  - rewrite bool_decide_true by done. replace (_ <=? _) with true by lia. simpl. eexists. split; [done|done].
  - rewrite bool_decide_false by done. simpl. rewrite Hp, Hb. eexists. split; [done|]. by split.
Qed.
(** While it is open, and for [open_s], every call is refused and nothing
    about the circuit changes; after that exactly one call is let through,
    however many ask and however late, until its result is recorded. *)
Theorem one_probe now c :
  (ci_phase c = cp_open → now - ci_opened_at c < bc_open_s cfg → ask_circuit cfg now c = (c, false)) ∧
  ((ci_phase c = cp_open ∧ bc_open_s cfg ≤ now - ci_opened_at c) ∨ (ci_phase c = cp_half_open ∧ ci_probe c = false) →
   ∃ c', ask_circuit cfg now c = (c', true) ∧ ∀ later, ask_circuit cfg later c' = (c', false)).
Proof.
  split.
  - intros Hp Ht. unfold ask_circuit. rewrite Hp, bool_decide_true by done. replace (_ <=? _) with false by lia. simpl. by rewrite Hp.
  - intros (c' & Ha & Hc)%(ask_again now). exists c'. split; [exact Ha|]. intros later. by apply probing_refuses.
Qed.
End Breaker.

(** *** A probe that is lost *)

Section Lost.
Context {W : Type}.
Definition circuit_of (key : string * string) (s : Calls W) : Circuit := circuit key (ca_circuits s).
(** Calls of any clients and providers, one after the other. *)
Fixpoint complete_all (calls : list (Provider W * Client * option Z)) (s : Calls W) : Calls W * list CallEnd :=
  match calls with
  | [] => (s, [])
  | (pv, cl, d) :: calls' =>
      let '(s1, e) := complete_call pv cl d s in let '(s2, es) := complete_all calls' s1 in (s2, e :: es)
  end.
Definition refused_call (e : CallEnd) : Prop := ∃ why, e = ce_unavailable why.
Lemma probing_call pv cl d s : probing (circuit_of (cl_key cl) s) → let x := complete_call pv cl d s in
  refused_call x.2 ∧ circuit_of (cl_key cl) x.1 = circuit_of (cl_key cl) s ∧ ca_made x.1 = ca_made s.
Proof.
  intros Hp. cbv zeta. unfold complete_call. destruct (Z.to_nat _) as [|left]; [split; [by eexists|done]|]. cbn [attempts].
  unfold tick. destruct (pv_clock pv _) as [w started]. simpl. destruct (_ <=? 0); [split; [by eexists|done]|].
  destruct (pv_clock pv w) as [w' now]. simpl. unfold before_call. change (ca_circuits s) with (ca_circuits s).
  rewrite (probing_refuses (cl_breaker cl) now (circuit (cl_key cl) (ca_circuits s)) Hp). simpl. split; [by eexists|]. split; [|done].
  unfold circuit_of, circuit at 1. simpl. by rewrite lookup_insert_eq.
Qed.
Lemma probing_calls key calls s : Forall (λ c : Provider W * Client * option Z, cl_key c.1.2 = key) calls → probing (circuit_of key s) →
  let x := complete_all calls s in Forall refused_call x.2 ∧ circuit_of key x.1 = circuit_of key s ∧ ca_made x.1 = ca_made s.
Proof.
  intros Hk. revert s. induction Hk as [|[[pv cl] d] calls Hk _ IH]; intros s Hp; [done|]. simpl in Hk. subst key. cbn [complete_all].
  destruct (probing_call pv cl d s Hp) as (Hr & Hc & Hm). destruct (complete_call pv cl d s) as [s1 e]. simpl in *. rewrite <- Hc in Hp.
  destruct (IH s1 Hp) as (Hrs & Hcs & Hms). destruct (complete_all calls s1) as [s2 es]. simpl in *. split; [by constructor|]. split; congruence.
Qed.

(** A provider under whose calls and sleeps nobody else reports on [key]. *)
Definition alone (key : string * string) (pv : Provider W) : Prop :=
  (∀ t w m, circuit key (pv_call pv t (w, m)).1.2 = circuit key m) ∧ (∀ d w m, circuit key (pv_sleep pv d (w, m)).2 = circuit key m).
Lemma ask_passes cfg now c c' : ask_circuit cfg now c = (c', true) → ci_phase c ≠ cp_closed → probing c'.
Proof.
  unfold ask_circuit. destruct (bool_decide (ci_phase c = cp_open) && _); simpl.
  - intros [= <-] _. done.
  - destruct (ci_phase c) eqn:E; [done|done|]. destruct (ci_probe c); [done|]. intros [= <-] _. done.
Qed.
Lemma fail_circuit_at pv cl s : probing (circuit_of (cl_key cl) s) → ci_phase (circuit_of (cl_key cl) (fail_circuit pv cl s)) = cp_open.
Proof.
  intros [Hp _]. unfold fail_circuit, on_circuits, tick, record_failure, circuit_of in *. destruct (pv_clock pv _). simpl.
  unfold circuit at 1. rewrite lookup_insert_eq. simpl. unfold fail_once. by rewrite Hp.
Qed.
Lemma sleep_circuit pv cl n e s : alone (cl_key cl) pv → circuit_of (cl_key cl) (sleep_before pv cl n e s) = circuit_of (cl_key cl) s.
Proof.
  intros [_ Hs]. unfold sleep_before, circuit_of. destruct (pv_roll pv _) as [w roll].
  match goal with |- context [pv_sleep pv ?d (w, ?m)] => specialize (Hs d w m); destruct (pv_sleep pv d (w, m)) end. done.
Qed.
Lemma client_error_probes pv cl left n deadline budget s s1 e causes : alone (cl_key cl) pv → classify e causes = co_client_error →
  ci_phase (circuit_of (cl_key cl) s) ≠ cp_closed → attempts pv cl left n deadline budget s = (s1, ce_raise e causes) → probing (circuit_of (cl_key cl) s1).
Proof.
  intros Ha Hcl. revert n deadline s. induction left as [|left IH]; intros n deadline s Hp; cbn [attempts]; [done|].
  unfold tick. destruct (pv_clock pv _) as [w started]. simpl. destruct (_ <=? 0); [done|]. destruct (pv_clock pv w) as [w' now]. simpl. unfold before_call.
  destruct (ask_circuit _ _ _) as [c ok] eqn:Eask. destruct ok; simpl; [|done]. apply ask_passes in Eask; [|exact Hp].
  unfold call_provider. simpl. pose proof Ha as [Hc _].
  match goal with |- context [pv_call pv ?t (w', ?m)] => specialize (Hc t w' m); destruct (pv_call pv t (w', m)) as [[w2 m2] [r|e' causes'|]] end; simpl in *; [|
    |done].
  - unfold answered, tick. simpl. destruct (pv_clock pv w2) as [w3 fin]. by destruct (_ <? _).
  - assert (circuit (cl_key cl) m2 = c) as Hm2 by (rewrite Hc; unfold circuit; by rewrite lookup_insert_eq).
    destruct (bool_decide (classify e' causes' ∈ [co_retryable; co_timeout])) eqn:Eo.
    + destruct (_ || _) eqn:Eend; [|intros E; revert E; apply IH; rewrite sleep_circuit by done; rewrite fail_circuit_at by (unfold circuit_of; simpl; by rewrite Hm2); done].
      intros [= _ -> ->]. rewrite Hcl in Eo. apply bool_decide_eq_true in Eo. set_solver.
    + assert (classify e' causes' = co_client_error ∨ classify e' causes' = co_ok) as Ecl.
      { apply bool_decide_eq_false in Eo. destruct (classify e' causes'); [by right|by left|set_solver|set_solver]. }
      destruct (_ || _) eqn:Eend; [intros [= <- _ _]; unfold circuit_of; simpl; by rewrite Hm2|].
      intros E. revert E. apply IH. rewrite sleep_circuit by done. unfold circuit_of. simpl. rewrite Hm2. destruct Eask as [-> _]. done.
Qed.

(** C25: A call that probes a circuit - it was not closed - and ends in a client
    error (a bad key, an unknown model, any exception the classifier does not
    know) records neither success nor failure.  From then on every call of
    that provider and model is refused, whichever client makes it and however
    late: the circuit waits for a probe that is over, and no call reaches the
    provider.  Those are calls begun after the probe ended, one after another,
    with no other call of the key in flight since before: a call under way
    could still report to the circuit and close or reopen it. *)
Theorem lost_probe_wedges pv cl deadline_s s s1 e causes calls :
  alone (cl_key cl) pv → ci_phase (circuit_of (cl_key cl) s) ≠ cp_closed → classify e causes = co_client_error →
  complete_call pv cl deadline_s s = (s1, ce_raise e causes) →
  Forall (λ c : Provider W * Client * option Z, cl_key c.1.2 = cl_key cl) calls →
  let x := complete_all calls s1 in Forall refused_call x.2 ∧ ca_made x.1 = ca_made s1 ∧ probing (circuit_of (cl_key cl) x.1).
Proof.
  intros Ha Hp Hcl Hc Hk. apply client_error_probes in Hc; [|done..].
  destruct (probing_calls (cl_key cl) calls s1 Hk Hc) as (H1 & H2 & H3). cbv zeta. rewrite H2. done.
Qed.
End Lost.

(** *** Delays *)

Lemma fltb_nan x y : (x <?. y) = true → is_nan x = false ∧ is_nan y = false.
Proof. by destruct x as [[]|[]| |[]], y as [[]|[]| |[]]. Qed.
Lemma fltb_asym x y : (x <?. y) = true → (y <?. x) = false.
Proof.
  intros H. pose proof (fltb_nan _ _ H) as [Hx Hy]. apply not_true_iff_false. rewrite fltb_key by done. rewrite fltb_key in H by done.
  unfold key_lt in *. lia.
Qed.
(** Below, and not below: between numbers the order is total. *)
Lemma fltb_trans_not x y z : (x <?. y) = true → is_nan z = false → (x <?. z) = false → (z <?. y) = true.
Proof.
  intros H Hz Hn. pose proof (fltb_nan _ _ H) as [Hx Hy]. apply not_true_iff_false in Hn. rewrite fltb_key in Hn, H |- * by done. unfold key_lt in *. lia.
Qed.
Lemma py_min_f_le a b : (a <?. py_min_f a b) = false.
Proof. unfold py_min_f. destruct (b <?. a) eqn:E; [by apply fltb_asym|apply fltb_irrefl]. Qed.
(** No delay exceeds the cap, and the delay a response asks for is a lower
    bound - itself under the cap. *)
Theorem backoff_bounds attempt base_s cap_s retry_after_s roll :
  let d := backoff_s attempt base_s cap_s retry_after_s roll in
  (cap_s <?. d) = false ∧ ∀ r, retry_after_s = Some r → (f0 <?. r) = true → (d <?. py_min_f cap_s r) = false.
Proof.
  cbv zeta. unfold backoff_s. cbv zeta. split; [apply py_min_f_le|]. intros r -> Hr. rewrite Hr. pose proof (fltb_nan _ _ Hr) as [_ Hn].
  set (wait := _ ⊗ _). clearbody wait. unfold py_min_f at 1. unfold py_max_f. destruct (wait <?. r) eqn:E1.
  - destruct (r <?. cap_s) eqn:E2; unfold py_min_f; rewrite E2; apply fltb_irrefl.
  - destruct (wait <?. cap_s) eqn:E2; unfold py_min_f; destruct (r <?. cap_s) eqn:E3; try done; try (by apply fltb_asym); [|apply fltb_irrefl].
    apply not_true_iff_false. intros _. by rewrite (fltb_trans_not wait cap_s r) in E3.
Qed.

(** *** Witnesses *)

Section Witnesses.
(** A clock that counts, and a provider that always raises [e]. *)
Definition refusing (e : Raised) : Provider Z :=
  mkProvider Z (λ w, (w + 1, w + 1)) (λ _ wm, (wm, at_raise e [])) (λ _ wm, wm) (λ w, (w, f1)).
Definition no_model : Raised := mkRaised (Some 404) false false [] None.
Definition echo : Provider Z :=
  mkProvider Z (λ w, (w + 1, w + 1)) (λ _ wm, (wm, at_answer (mkModelResponse "true" 1 1 f0 "m" 0))) (λ _ wm, wm) (λ w, (w, f1)).
Definition client : Client := mkClient ("p", "m") 2 1000 f0 f0 (mkBreakerConfig 2 30 30).
Definition half_open : Calls Z := mkCalls 100 {[("p", "m") := mkCircuit cp_open [] 0 false]} (mkModelSpend 0 0 f0 0) 0.
Definition wedged : Calls Z := (complete_call (refusing no_model) client None half_open).1.
(** The provider is well again, and never asked. *)
Lemma lost_probe_wedges_witness : ca_made wedged = 1%nat ∧
  Forall refused_call (complete_all [(echo, client, None); (echo, client, Some 1000000)] wedged).2 ∧
  ca_made (complete_all [(echo, client, None); (echo, client, Some 1000000)] wedged).1 = 1%nat.
Proof.
  split; [by vm_compute|].
  assert (complete_call (refusing no_model) client None half_open = (wedged, ce_raise no_model [])) as Hc by by vm_compute.
  assert (ci_phase (circuit_of (cl_key client) half_open) ≠ cp_closed) as Hp by by vm_compute.
  assert (alone (cl_key client) (refusing no_model)) as Ha by by split.
  destruct (lost_probe_wedges (refusing no_model) client None half_open wedged no_model [] [(echo, client, None); (echo, client, Some 1000000)]
    Ha Hp eq_refl Hc ltac:(by repeat constructor)) as (H1 & H2 & _).
  split; [exact H1|]. rewrite H2. by vm_compute.
Defined.
Lemma opens_exactly_witness : ci_phase (after_failures (mkBreakerConfig 2 30 30) [0; 50; 70]) = cp_open.
Proof.
  assert (Sorted Z.le ([0; 50] ++ [70])) as Hs by (repeat constructor; done).
  apply (proj2 (opens_exactly (mkBreakerConfig 2 30 30) [0; 50] 70 Hs ltac:(done) eq_refl)). by vm_compute.
Defined.
Lemma response_in_time_witness : ∃ s r, complete_call echo client None half_open = (s, ce_response r) ∧ 0 ≤ mr_latency_s r ≤ 1000.
Proof.
  destruct (complete_call echo client None half_open) as [s [r| | |]] eqn:E; try (by vm_compute in E). exists s, r. split; [done|].
  apply (response_in_time echo client (λ w, w) None half_open s r); [|exact E]. repeat split; intros; simpl; lia.
Defined.
End Witnesses.
