(* ===== verification/Workspace.v ===== *)
(** * Workspace snapshots and offloading (workspace/snapshot.py,
    workspace/offload.py)

    A directory tree is a finite map from relative paths to nodes: directories,
    files with their content, time and mode, and links.  A walk visits the
    map's entries; what a symbolic link points to ([to_dir], [inside]), which
    entries may not be changed ([denied]) and which are names of one file
    ([same_file]) are the operating system's answers and parameters, as are the
    tar format and SHA-256.  Directories' modes, owners and reading that fails
    are not modelled.  Times are in nanoseconds.  Copying never follows a
    link; a link is copied when its target is relative, inside the tree and
    not a directory.  The theorems: what a restore leaves, entry by entry; that
    restoring a snapshot brings back every file the attempt changed unless its
    size and time are the same, where nothing is closed or hard-linked; what
    happens where it is; which edits survive; which run ids can be
    snapshot and never restored; that an offloaded directory comes back
    unchanged or not at all. *)
From S2P Require Import Prelude PyStr Admission.
From stdpp Require Import gmap.
From Stdlib Require Import ZArith Lia Ascii.
Open Scope Z_scope.

Definition PathEscapeError : exn := PyError "PathEscapeError".
Definition FileNotFoundError : exn := PyError "FileNotFoundError".
Definition FileExistsError : exn := PyError "FileExistsError".
Definition PermissionError : exn := PyError "PermissionError".
Definition OffloadError : exn := PyError "OffloadError".

(** ** Trees *)

Notation path := (list string).
Record FileNode := mkFile { fn_content : string; fn_mtime_ns : Z; fn_mode : Z }.
Inductive Node := nd_dir | nd_file (f : FileNode) | nd_link (target : string).
Notation Tree := (gmap path Node).
Definition is_link (n : option Node) : bool := match n with Some (nd_link _) => true | _ => false end.
(** The root is no entry, every other ancestor of an entry is a directory. *)
Definition closed (t : Tree) : Prop := t !! [] = None ∧ ∀ p q, is_Some (t !! p) → q `prefix_of` p → q ≠ p → q ≠ [] → t !! q = Some nd_dir.
Definition deeper (p q : path) : Prop := (length q ≤ length p)%nat.
#[export] Instance deeper_dec : RelDecision deeper := λ p q, decide (length q ≤ length p)%nat.

Section Trees.
(** Does a link at the path lead to a directory; does its relative target,
    resolved from the link's directory, stay in the tree; does the system
    refuse to change the entry at the path (permissions, owners, a read-only
    parent); are two paths names of one file (hard links).  Reading is never
    refused. *)
Context (to_dir : Tree → path → bool) (inside : Tree → path → string → bool)
  (denied : Tree → path → bool) (same_file : Tree → path → path → bool).
Definition isabs (target : string) : bool := String.prefix "/" target.
(** [_copy_symlink_if_contained], and what the walk passes to it. *)
Definition link_copied (t : Tree) (p : path) (target : string) : bool := negb (to_dir t p) && negb (isabs target) && inside t p target.
Definition copied_node (t : Tree) (p : path) (n : Node) : option Node :=
  match n with nd_link target => if link_copied t p target then Some n else None | _ => Some n end.
(** Into a directory that holds [dst] already. *)
Definition _copy_tree_contained (src dst : Tree) : Tree := map_imap (copied_node src) src ∪ dst.

Definition src_dirs (src : Tree) : list path := map fst (List.filter (λ kv, match kv.2 with nd_dir => true | _ => false end) (map_to_list src)).
Definition src_files (src : Tree) : list (path * FileNode) := omap (λ kv : path * Node, match kv.2 with nd_file f => Some (kv.1, f) | _ => None end) (map_to_list src).
Definition src_links (src : Tree) : list (path * string) :=
  omap (λ kv : path * Node, match kv.2 with nd_link x => if link_copied src kv.1 x then Some (kv.1, x) else None | _ => None end) (map_to_list src).
Definition in_dirs (src : Tree) (p : path) : bool := match src !! p with Some nd_dir => true | _ => false end.
Definition in_files (src : Tree) (p : path) : bool := match src !! p with Some (nd_file _) => true | _ => false end.
Definition in_links (src : Tree) (p : path) : bool := match src !! p with Some (nd_link x) => link_copied src p x | _ => false end.
Definition unlink (p : path) (t : Tree) : result Tree := if denied t p then Err PermissionError else Ok (delete p t).
(** [rmtree(ignore_errors=True)] leaves what may not be removed. *)
Definition rmtree (p : path) (t : Tree) : Tree := filter (λ kv : path * Node, ¬ (p `prefix_of` kv.1 ∧ denied t kv.1 = false)) t.
(** One name of the bottom-up walk over the destination. *)
Definition prune_entry (src : Tree) (t : Tree) (p : path) : result Tree :=
  match t !! p with
  | None => Ok t
  | Some nd_dir => Ok (if in_dirs src p then t else rmtree p t)
  | Some (nd_link _) =>
      if to_dir t p then unlink p t
      else if negb (in_files src p) && negb (in_links src p) then unlink p t
      else if in_files src p then unlink p t else Ok t
  | Some (nd_file _) => if negb (in_files src p) && negb (in_links src p) then unlink p t else Ok t
  end.
Definition bottom_up (t : Tree) : list path := merge_sort deeper (map fst (map_to_list t)).
Definition make_dir (t : Tree) (p : path) : result Tree :=
  match t !! p with
  | Some (nd_file _) => Err FileExistsError
  | Some nd_dir => Ok t
  | Some (nd_link _) | None => if denied t p then Err PermissionError else Ok (<[p := nd_dir]> t)
  end.
Definition _unchanged (f : FileNode) (n : option Node) : bool :=
  match n with
  | Some (nd_file g) => (Z.of_nat (String.length (fn_content f)) =? Z.of_nat (String.length (fn_content g))) && (fn_mtime_ns f =? fn_mtime_ns g)
  | _ => false
  end.
(** [shutil.copy2]: into a directory of that name, when there is one; into the
    file of that name, and so into every other name of it, when there is one. *)
Definition write_through (f : FileNode) (p : path) (t : Tree) : Tree :=
  map_imap (λ q n, Some (match n with nd_file _ => if bool_decide (q = p) || same_file t p q then nd_file f else n | _ => n end)) t.
Definition copy2 (f : FileNode) (p : path) (t : Tree) : Tree :=
  match t !! p with
  | Some nd_dir => <[p ++ [default "" (last p)] := nd_file f]> t
  | Some (nd_file _) => write_through f p t
  | _ => <[p := nd_file f]> t
  end.
Definition write_file (t : Tree) (pf : path * FileNode) : result Tree :=
  if _unchanged pf.2 (t !! pf.1) then Ok t
  else if denied t pf.1 then Err PermissionError
  else Ok (copy2 pf.2 pf.1 (if is_link (t !! pf.1) then delete pf.1 t else t)).
Definition write_link (t : Tree) (pl : path * string) : result Tree :=
  let put := if denied t pl.1 then Err PermissionError else Ok (<[pl.1 := nd_link pl.2]> t) in
  match t !! pl.1 with
  | Some nd_dir => Err (PyError "OSError")
  | Some (nd_link x) => if String.eqb x pl.2 then Ok t else put
  | Some (nd_file _) | None => put
  end.
Fixpoint fold_result {A B} (f : B → A → result B) (b : B) (l : list A) : result B :=
  match l with [] => Ok b | a :: l' => b' ← f b a; fold_result f b' l' end.
Definition _sync_directory (src dst : Tree) : result Tree :=
  pruned ← fold_result (prune_entry src) dst (bottom_up dst);
  made ← fold_result make_dir pruned (src_dirs src);
  written ← fold_result write_file made (src_files src);
  fold_result write_link written (src_links src).

(** ** WorkspaceManager *)

Record Snapshot := mkSnapshot { sn_tree : Tree; sn_mtime : Z (* of the directory *) }.
(** The snapshots under the root, and the directories elsewhere. *)
Record Disk := mkDisk { dk_snapshots : gmap string Snapshot; dk_dirs : gmap string Tree }.
#[export] Instance eta_Disk : Eta Disk := λ d, mkDisk (dk_snapshots d) (dk_dirs d).
Definition snapshot_ref (run_id : string) (attempt_no : Z) (hex8 : string) : string := run_id +:+ "-attempt" +:+ pretty attempt_no +:+ "-" +:+ hex8.
(** [s.split(sep, 1)[0]] *)
Fixpoint before_text (sep s : string) : string :=
  if String.prefix sep s then EmptyString else match s with String c s' => String c (before_text sep s') | EmptyString => EmptyString end.
Definition snapshot_path (ref : string) : result string :=
  if String.eqb ref "" || str_contains "/" ref || str_contains "\" ref || str_contains ".." ref then Err PathEscapeError
  else if run_id_ok (before_text "-attempt" ref) then Ok ref else Err PathEscapeError.
Definition snapshot (now : Z) (hex8 workdir run_id : string) (attempt_no : Z) (d : Disk) : result (Disk * string) :=
  run ← validate_run_id run_id;
  let ref := snapshot_ref run attempt_no hex8 in
  let old := match dk_snapshots d !! ref with Some s => sn_tree s | None => ∅ end in
  let tree := match dk_dirs d !! workdir with Some t => _copy_tree_contained t old | None => old end in
  Ok (d <| dk_snapshots := <[ref := mkSnapshot tree now]> (dk_snapshots d) |>, ref).
Definition restore (workdir ref : string) (d : Disk) : result Disk :=
  name ← snapshot_path ref;
  match dk_snapshots d !! name with
  | None => Err FileNotFoundError
  | Some s =>
      tree ← match dk_dirs d !! workdir with
             | None => Ok (_copy_tree_contained (sn_tree s) ∅)
             | Some t => _sync_directory (sn_tree s) t
             end;
      Ok (d <| dk_dirs := <[workdir := tree]> (dk_dirs d) |>)
  end.
(** Names and times, in the order of the listing. *)
Definition gc (now older_than : Z) (dry_run : bool) (d : Disk) : Disk * list string :=
  let old := List.filter (λ kv : string * Snapshot, sn_mtime kv.2 <=? now - older_than) (map_to_list (dk_snapshots d)) in
  let removed := sorted_by String.ltb (map fst old) in
  (if dry_run then d else d <| dk_snapshots := foldl (λ m name, delete name m) (dk_snapshots d) removed |>, removed).

(** ** What a restore leaves *)

(** Every entry of the workspace may be changed, and no two are one file. *)
Definition unlocked : Prop := ∀ t p, denied t p = false.
Definition no_hard_links : Prop := ∀ t p q, same_file t p q = true → p = q.
Lemma fold_result_pure {A B} (f : B → A → result B) g : (∀ b a, f b a = Ok (g b a)) → ∀ b l, fold_result f b l = Ok (foldl g b l).
Proof. intros H b l. revert b. induction l as [|a l IH]; intros b; [done|]. cbn [fold_result foldl]. rewrite H. apply IH. Qed.
Definition pruned_entry (src t : Tree) (p : path) : Tree := match prune_entry src t p with Ok t' => t' | Err _ => t end.
Definition written_file (t : Tree) (pf : path * FileNode) : Tree := match write_file t pf with Ok t' => t' | Err _ => t end.
Lemma unlink_open p t : unlocked → unlink p t = Ok (delete p t).
Proof. intros Ho. unfold unlink. by rewrite Ho. Qed.
Lemma prune_open src t p : unlocked → prune_entry src t p = Ok (pruned_entry src t p).
Proof.
  intros Ho. unfold pruned_entry, prune_entry. destruct (t !! p) as [[|f|x]|]; rewrite ?unlink_open by done; [done| | |done].
  - by destruct (negb _ && _).
  - destruct (to_dir t p); [done|]. destruct (negb _ && _); [done|]. by destruct (in_files src p).
Qed.
Lemma write_open t pf : unlocked → write_file t pf = Ok (written_file t pf).
Proof. intros Ho. unfold written_file, write_file. destruct (_unchanged _ _); [done|]. by rewrite Ho. Qed.
Lemma rmtree_self p t : unlocked → rmtree p t !! p = None.
Proof.
  intros Ho. unfold rmtree. destruct (filter _ t !! p) eqn:E; [|done]. apply map_lookup_filter_Some in E as [_ Hn]. by destruct Hn.
Qed.
Lemma write_through_alone f p t g q : no_hard_links → t !! p = Some (nd_file g) →
  write_through f p t !! q = if decide (q = p) then Some (nd_file f) else t !! q.
Proof.
  intros Hn Hp. unfold write_through. rewrite map_lookup_imap. destruct (decide (q = p)) as [->|Hq].
  - rewrite Hp. simpl. by rewrite bool_decide_true.
  - destruct (t !! q) as [[| h |]|]; simpl; [done| |done|done]. rewrite bool_decide_false by done. simpl.
    destruct (same_file t p q) eqn:Es; [|done]. by apply Hn in Es as ->.
Qed.

(** Deletions only, and what is left at [p] once its name has been visited. *)
Definition visited (src t : Tree) (p : path) : Prop :=
  match t !! p with
  | None => True
  | Some nd_dir => in_dirs src p = true
  | Some (nd_file _) => in_files src p = true ∨ in_links src p = true
  | Some (nd_link _) => in_links src p = true ∧ in_files src p = false
  end.
Lemma prune_deletes src t p q : unlocked → pruned_entry src t p !! q = None ∨ pruned_entry src t p !! q = t !! q.
Proof.
  intros Ho. assert (delete p t !! q = None ∨ delete p t !! q = t !! q) as Hd.
  { destruct (decide (p = q)) as [->|?]; [left; apply lookup_delete_eq|right; by apply lookup_delete_ne]. }
  unfold pruned_entry, prune_entry. rewrite !unlink_open by done.
  destruct (t !! p) as [[|f|x]|]; [|destruct (negb _ && _); auto|destruct (to_dir t p); [auto|destruct (negb _ && _); [auto|destruct (in_files src p); auto]]|auto].
  destruct (in_dirs src p); [auto|]. destruct (rmtree p t !! q) eqn:E; [|auto]. apply map_lookup_filter_Some in E as [E _]. auto.
Qed.
Lemma visited_deleted src t t' p : t' !! p = None ∨ t' !! p = t !! p → visited src t p → visited src t' p.
Proof. unfold visited. by intros [->| ->]. Qed.
Lemma prune_visits src t p : unlocked → visited src (pruned_entry src t p) p.
Proof.
  intros Ho. unfold pruned_entry, prune_entry. rewrite !unlink_open by done. destruct (t !! p) as [[|f|x]|] eqn:E.
  - destruct (in_dirs src p) eqn:Ed; unfold visited; [by rewrite E|]. by rewrite rmtree_self.
  - destruct (in_files src p) eqn:Ef, (in_links src p) eqn:El; simpl; unfold visited; rewrite ?lookup_delete_eq, ?E, ?Ef, ?El; auto.
  - destruct (to_dir t p); [unfold visited; by rewrite lookup_delete_eq|].
    destruct (in_files src p) eqn:Ef, (in_links src p) eqn:El; simpl; unfold visited; rewrite ?lookup_delete_eq, ?E, ?Ef, ?El; auto.
  - unfold visited. by rewrite E.
Qed.
Lemma prune_keeps_files src t p q f : unlocked → closed src → t !! [] = None → in_files src q = true → t !! q = Some (nd_file f) →
  pruned_entry src t p !! q = Some (nd_file f).
Proof.
  intros Ho [_ Hc] Hr Hq Ht. unfold pruned_entry, prune_entry. rewrite !unlink_open by done. destruct (decide (p = q)) as [->|Hne].
  - rewrite Ht, Hq. simpl. by rewrite Ht.
  - destruct (t !! p) as [[|g|x]|] eqn:E; [|destruct (negb _ && _); by rewrite ?lookup_delete_ne|
      destruct (to_dir t p); [by rewrite lookup_delete_ne|destruct (negb _ && _); [by rewrite lookup_delete_ne|destruct (in_files src p); by rewrite ?lookup_delete_ne]]|done].
    destruct (in_dirs src p) eqn:Ed; [done|]. apply map_lookup_filter_Some. split; [done|]. simpl. intros [Hp _].
    assert (src !! p = Some nd_dir) as Hd; [|unfold in_dirs in Ed; by rewrite Hd in Ed].
    apply (Hc q); [|done|done|intros ->; by rewrite Hr in E]. unfold in_files in Hq. destruct (src !! q); [by eexists|done].
Qed.
Lemma pruned src dst l : unlocked → closed src → dst !! [] = None → let t := foldl (pruned_entry src) dst l in
  (∀ p, t !! p = None ∨ t !! p = dst !! p) ∧ (∀ p, p ∈ l → visited src t p) ∧
  (∀ p f, in_files src p = true → dst !! p = Some (nd_file f) → t !! p = Some (nd_file f)).
Proof.
  intros Ho Hs Hd. induction l as [|p l IH] using rev_ind; cbv zeta in *; [split; [auto|]; split; [intros ? []%elem_of_nil|done]|].
  destruct IH as (H1 & H2 & H3). rewrite foldl_app. simpl. set (t := foldl _ _ l) in *. split; [|split].
  - intros q. destruct (prune_deletes src t p q Ho) as [->| ->]; auto.
  - intros q [Hq|Hq]%elem_of_app; [eapply visited_deleted; [by apply prune_deletes|auto]|]. apply list_elem_of_singleton in Hq as ->. by apply prune_visits.
  - intros q f Hq Hf. apply prune_keeps_files; auto. destruct (H1 []) as [->| ->]; done.
Qed.
Lemma bottom_up_all t p : is_Some (t !! p) → p ∈ bottom_up t.
Proof.
  intros [n Hn]. unfold bottom_up. rewrite merge_sort_Permutation. apply list_elem_of_fmap. exists (p, n). split; [done|]. by apply elem_of_map_to_list.
Qed.

(** *** The three passes that write *)

Lemma make_dirs l t : unlocked → (∀ p, p ∈ l → t !! p = None ∨ t !! p = Some nd_dir) →
  ∃ t', fold_result make_dir t l = Ok t' ∧ ∀ p, t' !! p = if decide (p ∈ l) then Some nd_dir else t !! p.
Proof.
  intros Ho. revert t. induction l as [|q l IH]; intros t Hl; [exists t; split; [done|]; intros p; by rewrite decide_False by apply not_elem_of_nil|].
  cbn [fold_result]. assert (∃ t1, make_dir t q = Ok t1 ∧ ∀ p, t1 !! p = if decide (p = q) then Some nd_dir else t !! p) as (t1 & E1 & H1).
  { unfold make_dir. rewrite Ho. destruct (Hl q) as [E|E]; [left| |]; rewrite E.
    - eexists. split; [done|]. intros p. destruct (decide (p = q)) as [->|?]; [by rewrite lookup_insert_eq|by rewrite lookup_insert_ne].
    - eexists. split; [done|]. intros p. by destruct (decide (p = q)) as [->|?]. }
  rewrite E1. simpl. destruct (IH t1) as (t' & E & H); [intros p Hp; rewrite H1; destruct (decide (p = q)); [auto|]; apply Hl; by right|].
  exists t'. split; [done|]. intros p. rewrite H, H1. destruct (decide (p ∈ l)), (decide (p = q)), (decide (p ∈ q :: l)); try done; rewrite elem_of_cons in *; tauto.
Qed.
Definition file_after (f : FileNode) (n : option Node) : option Node := if _unchanged f n then n else Some (nd_file f).
Lemma write_files l t : unlocked → no_hard_links → NoDup (map fst l) → (∀ p f, (p, f) ∈ l → t !! p ≠ Some nd_dir) → let t' := foldl written_file t l in
  (∀ p f, (p, f) ∈ l → t' !! p = file_after f (t !! p)) ∧ ∀ p, p ∉ map fst l → t' !! p = t !! p.
Proof.
  intros Ho Hn. revert t. induction l as [|[q g] l IH]; intros t Hd Hl; [split; [intros ? ? []%elem_of_nil|done]|]. simpl in Hd. apply NoDup_cons in Hd as [Hq Hd].
  cbn [foldl]. assert (written_file t (q, g) !! q = file_after g (t !! q) ∧ ∀ p, p ≠ q → written_file t (q, g) !! p = t !! p) as [E1 E2].
  { unfold written_file, write_file, file_after. simpl. rewrite Ho. specialize (Hl q g ltac:(left)). destruct (_unchanged g (t !! q)); [done|]. unfold copy2.
    destruct (t !! q) as [[|f|x]|] eqn:E; simpl; rewrite ?E, ?lookup_delete_eq; try done;
      [split; [by rewrite (write_through_alone g q t f), decide_True|intros p Hp; by rewrite (write_through_alone g q t f), decide_False]|..];
      (split; [by rewrite lookup_insert_eq|intros p Hp; by rewrite ?lookup_insert_ne, ?lookup_delete_ne]). }
  destruct (IH (written_file t (q, g)) Hd) as [H1 H2].
  { intros p f Hp. rewrite E2; [apply (Hl p f); by right|]. intros ->. apply Hq. by apply (list_elem_of_fmap_2 fst _ (q, f)). }
  split.
  - intros p f [[= -> ->]|Hp]%elem_of_cons; [by rewrite H2|]. rewrite (H1 p f Hp), E2; [done|]. intros ->. apply Hq. by apply (list_elem_of_fmap_2 fst _ (q, f)).
  - intros p Hp. simpl in Hp. apply not_elem_of_cons in Hp as [Hp1 Hp2]. by rewrite H2, E2.
Qed.
Lemma write_links l t : unlocked → NoDup (map fst l) → (∀ p x, (p, x) ∈ l → t !! p ≠ Some nd_dir) →
  ∃ t', fold_result write_link t l = Ok t' ∧ (∀ p x, (p, x) ∈ l → t' !! p = Some (nd_link x)) ∧ ∀ p, p ∉ map fst l → t' !! p = t !! p.
Proof.
  intros Ho. revert t. induction l as [|[q y] l IH]; intros t Hd Hl; [exists t; split; [done|]; split; [intros ? ? []%elem_of_nil|done]|]. simpl in Hd. apply NoDup_cons in Hd as [Hq Hd].
  cbn [fold_result]. assert (∃ t1, write_link t (q, y) = Ok t1 ∧ t1 !! q = Some (nd_link y) ∧ ∀ p, p ≠ q → t1 !! p = t !! p) as (t1 & E & E1 & E2).
  { unfold write_link. simpl. rewrite Ho. specialize (Hl q y ltac:(left)).
    destruct (t !! q) as [[|f|x]|] eqn:Et; [done| |destruct (String.eqb_spec x y) as [->|]; [by exists t|]|];
      (eexists; split; [done|]; split; [by rewrite lookup_insert_eq|intros p Hp; by rewrite lookup_insert_ne]). }
  rewrite E. simpl. destruct (IH t1 Hd) as (t' & Ef & H1 & H2).
  { intros p x Hp. rewrite E2; [apply (Hl p x); by right|]. intros ->. apply Hq. by apply (list_elem_of_fmap_2 fst _ (q, x)). }
  exists t'. split; [done|]. split.
  - intros p x [[= -> ->]|Hp]%elem_of_cons; [by rewrite H2|by apply H1].
  - intros p Hp. simpl in Hp. apply not_elem_of_cons in Hp as [Hp1 Hp2]. by rewrite H2, E2.
Qed.

Lemma omap_fst_NoDup {A} (g : path * Node → option (path * A)) (l : list (path * Node)) :
  (∀ kv y, g kv = Some y → y.1 = kv.1) → NoDup (map fst l) → NoDup (map fst (omap g l)).
Proof.
  intros Hg. induction l as [|kv l IH]; [done|]. simpl. intros [Hn Hd]%NoDup_cons. destruct (g kv) as [y|] eqn:E; [|auto]. simpl. apply NoDup_cons. split; [|auto].
  rewrite (Hg _ _ E). intros (z & Ek & (kv' & Hkv & Ez)%list_elem_of_omap)%list_elem_of_fmap. apply Hn. rewrite Ek, (Hg _ _ Ez). by apply list_elem_of_fmap_2.
Qed.
Lemma src_files_spec src : NoDup (map fst (src_files src)) ∧ ∀ p f, (p, f) ∈ src_files src ↔ src !! p = Some (nd_file f).
Proof.
  split; [apply omap_fst_NoDup; [intros [p []] y; simpl; by intros [= <-]|apply NoDup_fst_map_to_list]|]. intros p f. unfold src_files. rewrite list_elem_of_omap. split.
  - intros ([q n] & Hq%elem_of_map_to_list & E). destruct n; simpl in E; [done| |done]. by injection E as -> ->.
  - intros H. exists (p, nd_file f). split; [by apply elem_of_map_to_list|done].
Qed.
Lemma src_links_spec src : NoDup (map fst (src_links src)) ∧ ∀ p x, (p, x) ∈ src_links src ↔ src !! p = Some (nd_link x) ∧ link_copied src p x = true.
Proof.
  split.
  { apply omap_fst_NoDup; [|apply NoDup_fst_map_to_list]. intros [p [| |x]] y; simpl; [done|done|]. destruct (link_copied src p x); [by intros [= <-]|done]. }
  intros p x. unfold src_links. rewrite list_elem_of_omap. split.
  - intros ([q n] & Hq%elem_of_map_to_list & E). destruct n as [| |y]; simpl in E; [done|done|]. destruct (link_copied src q y) eqn:El; [|done]. by injection E as -> ->.
  - intros [H Hl]. exists (p, nd_link x). split; [by apply elem_of_map_to_list|]. simpl. by rewrite Hl.
Qed.
Lemma src_dirs_spec src p : p ∈ src_dirs src ↔ src !! p = Some nd_dir.
Proof.
  unfold src_dirs. rewrite list_elem_of_fmap. split.
  - intros ([q n] & -> & [Hq%list_elem_of_In%elem_of_map_to_list E]%list_elem_of_In%List.filter_In). by destruct n.
  - intros H. exists (p, nd_dir). split; [done|]. apply list_elem_of_In, List.filter_In. split; [by apply list_elem_of_In, elem_of_map_to_list|done].
Qed.
(** The node a restore leaves at a path. *)
Definition mirrored (src dst : Tree) (p : path) : option Node :=
  match src !! p with
  | Some (nd_file f) => file_after f (match dst !! p with Some (nd_file g) => Some (nd_file g) | _ => None end)
  | Some nd_dir => Some nd_dir
  | Some (nd_link x) => if link_copied src p x then Some (nd_link x) else None
  | None => None
  end.
Lemma synced src dst : unlocked → no_hard_links → closed src → dst !! [] = None → ∃ t, _sync_directory src dst = Ok t ∧ ∀ p, t !! p = mirrored src dst p.
Proof.
  intros Ho Hn Hs Hd. destruct (pruned src dst (bottom_up dst) Ho Hs Hd) as (K & A & U). unfold _sync_directory.
  rewrite (fold_result_pure _ (pruned_entry src)) by (intros; by apply prune_open). simpl mbind.
  set (t0 := foldl (pruned_entry src) dst (bottom_up dst)) in *. cbv zeta in *.
  assert (∀ p, visited src t0 p) as V.
  { intros p. destruct (dst !! p) eqn:E; [by apply A, bottom_up_all; rewrite E|]. unfold visited. by destruct (K p) as [->| ->]; [|rewrite E]. }
  clear A. destruct (make_dirs (src_dirs src) t0 Ho) as (t1 & E1 & H1).
  { intros p Hp%src_dirs_spec. specialize (V p). unfold visited, in_dirs, in_files, in_links in V. rewrite Hp in V. destruct (t0 !! p) as [[| |]|]; [by right|by destruct V|by destruct V|by left]. }
  rewrite E1. simpl. rewrite (fold_result_pure _ written_file) by (intros; by apply write_open). simpl. destruct (src_files_spec src) as [Nf Sf]. destruct (src_links_spec src) as [Nl Sl].
  assert (∀ p f, src !! p = Some (nd_file f) → t1 !! p = match dst !! p with Some (nd_file g) => Some (nd_file g) | _ => None end) as Hf1.
  { intros p f Hp. rewrite H1, decide_False by (rewrite src_dirs_spec; congruence). specialize (V p). unfold visited, in_dirs, in_files, in_links in V. rewrite Hp in V.
    destruct (dst !! p) as [[|g|x]|] eqn:E.
    - destruct (K p) as [->|Hk]; [done|]. rewrite Hk, E in V. done.
    - apply U; [unfold in_files; by rewrite Hp|done].
    - destruct (K p) as [->|Hk]; [done|]. rewrite Hk, E in V. by destruct V.
    - destruct (K p) as [->| ->]; [done|]. by rewrite E. }
  destruct (write_files (src_files src) t1 Ho Hn Nf) as [F1 F2]; [intros p f Hp%Sf; rewrite (Hf1 p f Hp); by destruct (dst !! p) as [[]|]|]. set (t2 := foldl written_file t1 _) in *.
  assert (∀ p, (∀ f, src !! p ≠ Some (nd_file f)) → t2 !! p = t1 !! p) as F3.
  { intros p Hp. apply F2. intros ([q f] & -> & Hq%Sf)%list_elem_of_fmap. by apply (Hp f). }
  assert (∀ p, (∀ f, src !! p ≠ Some (nd_file f)) → src !! p ≠ Some nd_dir → t1 !! p = t0 !! p) as F4.
  { intros p _ Hp. by rewrite H1, decide_False by by rewrite src_dirs_spec. }
  destruct (write_links (src_links src) t2 Ho Nl) as (t3 & E3 & L1 & L2).
  { intros p x [Hp _]%Sl. rewrite F3, F4 by congruence. specialize (V p). unfold visited, in_dirs in V. rewrite Hp in V. intros Ht. by rewrite Ht in V. }
  exists t3. split; [done|]. intros p. unfold mirrored. destruct (src !! p) as [[|f|x]|] eqn:Hp.
  - rewrite L2, F3, H1, decide_True; [done|by apply src_dirs_spec|congruence|]. intros ([q y] & -> & [Hq _]%Sl)%list_elem_of_fmap. simpl in *. congruence.
  - rewrite L2, (F1 p f), (Hf1 p f); [done|done|by apply Sf|]. intros ([q y] & -> & [Hq _]%Sl)%list_elem_of_fmap. simpl in *. congruence.
  - destruct (link_copied src p x) eqn:El; [by apply L1, Sl|]. rewrite L2, F3, F4 by (try congruence; intros ([q y] & -> & [Hq Hl]%Sl)%list_elem_of_fmap; simpl in *; congruence).
    specialize (V p). unfold visited, in_dirs, in_files, in_links in V. rewrite Hp, El in V. destruct (t0 !! p) as [[| |]|]; [done|by destruct V|by destruct V|done].
  - rewrite L2, F3, F4 by (try congruence; intros ([q y] & -> & [Hq Hl]%Sl)%list_elem_of_fmap; simpl in *; congruence).
    specialize (V p). unfold visited, in_dirs, in_files, in_links in V. rewrite Hp in V. destruct (t0 !! p) as [[| |]|]; [done|by destruct V|by destruct V|done].
Qed.

(** ** Snapshots of a run *)

Lemma all_chars_app f a b : all_chars f (a +:+ b) = all_chars f a && all_chars f b.
Proof. induction a as [|c a IH]; [done|]. rewrite append_cons. cbn [all_chars]. by rewrite IH, andb_assoc. Qed.
Lemma any_char_cat f a b : any_char f (a +:+ b) = any_char f a || any_char f b.
Proof. induction a as [|c a IH]; [done|]. rewrite append_cons. cbn [any_char]. by rewrite IH, orb_assoc. Qed.
Lemma pretty_N_go_chars f x s : (∀ d, f (pretty_N_char d) = true) → all_chars f s = true → all_chars f (pretty_N_go x s) = true.
Proof.
  intros Hf. revert s. induction (N.lt_wf_0 x) as [x _ IH]. intros s Hs. destruct (decide (x = 0)%N) as [->|Hx]; [by rewrite pretty_N_go_0|].
  rewrite pretty_N_go_step by lia. apply IH; [apply N.div_lt; lia|]. cbn [all_chars]. by rewrite Hf, Hs.
Qed.
Lemma ref_chars (z : Z) : all_chars run_id_char (pretty z) = true ∧ any_char (Ascii.eqb ".") (pretty z) = false.
Proof.
  assert (∀ d, run_id_char (pretty_N_char d) && negb (Ascii.eqb "." (pretty_N_char d)) = true) as Hd by by intros [|[[[[]|[]|]|[[]|[]|]|]|[[[]|[]|]|[[]|[]|]|]|]].
  assert (∀ n : N, all_chars (λ c, run_id_char c && negb (Ascii.eqb "." c)) (pretty n) = true) as Hn.
  { intros n. unfold pretty, pretty_N. destruct (decide _); [done|]. by apply pretty_N_go_chars. }
  assert (all_chars (λ c, run_id_char c && negb (Ascii.eqb "." c)) (pretty z) = true) as H.
  { destruct z as [|n|n]; [done|apply (Hn (Npos n))|]. change (pretty (Zneg n)) with ("-" +:+ pretty (Npos n)). rewrite all_chars_app, Hn. done. }
  revert H. generalize (pretty z). induction s as [|c s IH]; [done|]. cbn [all_chars any_char]. intros [[H1 H2]%andb_true_iff H]%andb_true_iff.
  apply negb_true_iff in H2. destruct (IH H) as [-> ->]. by rewrite H1, H2.
Qed.
Lemma contains_not_char d s c : all_chars (λ x, negb (Ascii.eqb c x)) s = true → str_contains (String c d) s = false.
Proof.
  induction s as [|x s IH]; [done|]. cbn [all_chars str_contains]. intros [Hx Hs]%andb_true_iff. rewrite (IH Hs), PyStr.prefix_cons. apply negb_true_iff in Hx. by rewrite Hx.
Qed.
Lemma no_dots_app a b : str_contains ".." a = false → any_char (Ascii.eqb ".") b = false → str_contains ".." (a +:+ b) = false.
Proof.
  intros Ha Hb. induction a as [|c a IH].
  - change ("" +:+ b) with b. induction b as [|x b IHb]; [done|]. cbn [any_char] in Hb. apply orb_false_iff in Hb as [Hx Hb]. cbn [str_contains]. rewrite PyStr.prefix_cons, Hx. by apply IHb.
  - rewrite append_cons. cbn [str_contains] in *. apply orb_false_iff in Ha as [Hp Ha]. rewrite (IH Ha), orb_false_r, PyStr.prefix_cons. rewrite PyStr.prefix_cons in Hp.
    destruct (Ascii.eqb "." c) eqn:Ec; [|done]. cbn [andb] in *. destruct a as [|y a]; [|rewrite PyStr.prefix_cons in Hp; rewrite append_cons, PyStr.prefix_cons; by destruct (Ascii.eqb "." y), a].
    change ("" +:+ b) with b. destruct b as [|x b]; [done|]. cbn [any_char] in Hb. apply orb_false_iff in Hb as [Hx _]. by rewrite PyStr.prefix_cons, Hx.
Qed.
Lemma all_chars_weaken f g s : (∀ c, f c = true → g c = true) → all_chars f s = true → all_chars g s = true.
Proof. intros Hw. induction s as [|c s IH]; [done|]. cbn [all_chars]. intros [Hc Hs]%andb_true_iff. by rewrite (Hw c Hc), IH. Qed.
Lemma before_text_app sep run rest : ∃ r, before_text sep (run +:+ sep +:+ rest) +:+ r = run.
Proof.
  induction run as [|c run [r IH]].
  - exists "". assert (String.prefix sep (sep +:+ rest) = true) as Hp.
    { clear. induction sep as [|c sep IH]; [by destruct rest|]. by rewrite append_cons, PyStr.prefix_cons, Ascii.eqb_refl, IH. }
    change ("" +:+ sep +:+ rest) with (sep +:+ rest). destruct (sep +:+ rest); cbn [before_text]; by rewrite Hp.
  - rewrite append_cons. cbn [before_text]. destruct (String.prefix sep _); [by exists (String c run)|]. exists r. by rewrite append_cons, IH.
Qed.
Lemma run_chars_clean s c : run_id_char c = false → all_chars run_id_char s = true → str_contains (String c "") s = false.
Proof.
  intros Hc Hs. apply contains_not_char. eapply all_chars_weaken; [|exact Hs]. intros x Hx. apply negb_true_iff, Ascii.eqb_neq. intros <-. congruence.
Qed.

(** A digit of [uuid4().hex]. *)
Definition hex_digit (c : ascii) : bool := let n := nat_of_ascii c in ((48 <=? n) && (n <=? 57) || (97 <=? n) && (n <=? 102))%nat.
Lemma hex_chars s : all_chars hex_digit s = true → all_chars run_id_char s = true ∧ any_char (Ascii.eqb ".") s = false.
Proof.
  assert (∀ c, hex_digit c = true → run_id_char c = true ∧ Ascii.eqb "." c = false) as Hc by by intros [[] [] [] [] [] [] [] []].
  induction s as [|c s IH]; [done|]. cbn [all_chars any_char]. intros [[-> ->]%Hc Hs]%andb_true_iff. by apply IH in Hs as [-> ->].
Qed.
Lemma run_ok_chars run : run_id_ok run = true → all_chars run_id_char run = true ∧ (String.length run ≤ 128)%nat.
Proof.
  destruct run as [|c run]; [done|]. simpl. intros [[Hc Hr]%andb_true_iff Hl%Nat.leb_le]%andb_true_iff. split; [|lia].
  assert (run_id_char c = true) as -> by by unfold run_id_char; rewrite Hc. by rewrite Hr.
Qed.
Lemma ref_clean run n hex8 : run_id_ok run = true → all_chars hex_digit hex8 = true → all_chars run_id_char (snapshot_ref run n hex8) = true ∧
  any_char (Ascii.eqb ".") ("-attempt" +:+ pretty n +:+ "-" +:+ hex8) = false.
Proof.
  intros [Hr _]%run_ok_chars [Hh1 Hh2]%hex_chars. destruct (ref_chars n) as [H1 H2]. unfold snapshot_ref. rewrite !all_chars_app, !any_char_cat, Hr, H1, H2, Hh1, Hh2. done.
Qed.
Lemma own_ref run n hex8 : run_id_ok run = true → all_chars hex_digit hex8 = true → str_contains ".." run = false →
  snapshot_path (snapshot_ref run n hex8) = Ok (snapshot_ref run n hex8).
Proof.
  intros Hr Hh Hd. destruct (ref_clean run n hex8 Hr Hh) as [Hc Ht]. unfold snapshot_path. rewrite (run_chars_clean _ "/" eq_refl Hc), (run_chars_clean _ "\" eq_refl Hc).
  assert (str_contains ".." (snapshot_ref run n hex8) = false) as -> by by apply no_dots_app.
  assert (String.eqb (snapshot_ref run n hex8) "" = false) as -> by by destruct run. simpl orb. cbv iota.
  assert (run_id_ok (before_text "-attempt" (snapshot_ref run n hex8)) = true) as ->; [|done]. unfold snapshot_ref.
  destruct (before_text_app "-attempt" run (pretty n +:+ "-" +:+ hex8)) as [r Er]. set (b := before_text _ _) in *.
  assert (b ≠ "") as Hb. { subst b. destruct run as [|c run]; [done|]. rewrite append_cons. cbn [before_text]. rewrite PyStr.prefix_cons.
    destruct (Ascii.eqb_spec "-" c) as [<-|]; [done|]. done. }
  destruct b as [|c b]; [done|]. subst run. rewrite append_cons in Hr. cbn [run_id_ok] in *. apply andb_true_iff in Hr as [[H1 H2]%andb_true_iff H3%Nat.leb_le].
  rewrite all_chars_app in H2. apply andb_true_iff in H2 as [H2 _]. rewrite H1, H2. simpl. apply Nat.leb_le.
  enough (String.length b ≤ String.length (b +:+ r))%nat by lia. clear. induction b as [|x b IH]; simpl; [lia|]. change (String x b +:+ r) with (String x (b +:+ r)). simpl. lia.
Qed.

(** C27: A run id with two dots in a row is valid, and its workspace is snapshot
    before every attempt; but no snapshot of it can ever be restored, for its
    own reference is refused.  Every retry of such a run ends in a
    PathEscapeError. *)
Theorem dotted_run_never_restores now hex8 workdir run_id attempt_no d d1 ref workdir' d2 :
  str_contains ".." run_id = true → snapshot now hex8 workdir run_id attempt_no d = Ok (d1, ref) → restore workdir' ref d2 = Err PathEscapeError.
Proof.
  intros Hd. unfold snapshot, validate_run_id. destruct (run_id_ok run_id); [|done]. simpl. intros [= _ <-]. unfold restore, snapshot_path.
  assert (str_contains ".." (snapshot_ref run_id attempt_no hex8) = true) as ->; [|by rewrite !orb_true_r].
  unfold snapshot_ref. generalize ("-attempt" +:+ pretty attempt_no +:+ "-" +:+ hex8). intros b. revert Hd. induction run_id as [|c s IH]; [done|].
  rewrite append_cons. cbn [str_contains]. intros [Hp|Hs]%orb_true_iff; apply orb_true_iff; [left|right; by apply IH].
  rewrite PyStr.prefix_cons in *. apply andb_true_iff in Hp as [-> Hp]. destruct s as [|x s]; [done|]. rewrite append_cons. rewrite PyStr.prefix_cons in *.
  apply andb_true_iff in Hp as [-> _]. by destruct (s +:+ b).
Qed.

Definition copied (w : Tree) : Tree := _copy_tree_contained w ∅.
Lemma copied_lookup w p : copied w !! p = w !! p ≫= copied_node w p.
Proof. unfold copied, _copy_tree_contained. rewrite map_union_empty. apply map_lookup_imap. Qed.
Lemma copied_closed w : closed w → closed (copied w).
Proof.
  intros [Hr Hc]. split; [by rewrite copied_lookup, Hr|]. intros p q [n Hn] Hq Hne Hq0. rewrite copied_lookup in Hn. rewrite copied_lookup.
  rewrite (Hc p q); [done| |done|done|done]. destruct (w !! p); [by eexists|done].
Qed.
(** What is left of [w] after an attempt made [w2] of it and the snapshot was
    restored. *)
Definition rolled_back (w w2 : Tree) (p : path) : option Node :=
  match w !! p with
  | Some (nd_file f) => file_after f (match w2 !! p with Some (nd_file g) => Some (nd_file g) | _ => None end)
  | Some nd_dir => Some nd_dir
  | Some (nd_link x) => if link_copied w p x && link_copied (copied w) p x then Some (nd_link x) else None
  | None => None
  end.
Lemma mirrored_copied w w2 p : mirrored (copied w) w2 p = rolled_back w w2 p.
Proof. unfold mirrored, rolled_back. rewrite copied_lookup. destruct (w !! p) as [[|f|x]|]; simpl; [done|done| |done]. by destruct (link_copied w p x). Qed.
Lemma snapshot_stores now hex8 workdir run_id n d d1 ref w : snapshot now hex8 workdir run_id n d = Ok (d1, ref) →
  dk_snapshots d !! ref = None → dk_dirs d !! workdir = Some w → dk_snapshots d1 !! ref = Some (mkSnapshot (copied w) now) ∧ dk_dirs d1 = dk_dirs d.
Proof.
  unfold snapshot. destruct (validate_run_id run_id) as [run|]; [|done]. simpl. intros [= <- <-] Hf Hw. rewrite Hf, Hw. simpl. by rewrite lookup_insert_eq.
Qed.
Lemma restore_mirrors workdir ref d d3 s w2 : unlocked → no_hard_links → restore workdir ref d = Ok d3 → dk_snapshots d !! ref = Some s →
  closed (sn_tree s) → dk_dirs d !! workdir = Some w2 → w2 !! [] = None →
  ∃ t, dk_dirs d3 !! workdir = Some t ∧ ∀ p, t !! p = mirrored (sn_tree s) w2 p.
Proof.
  intros Ho Hl Hr Hs Hc Hw Hroot. unfold restore in Hr. apply bind_Ok_inv in Hr as (name & Hn & Hr).
  assert (name = ref) as ->. { unfold snapshot_path in Hn. destruct (_ || _); [done|]. destruct (run_id_ok _); [by injection Hn|done]. }
  rewrite Hs, Hw in Hr. destruct (synced (sn_tree s) w2 Ho Hl Hc Hroot) as (t & Ht & Hm). rewrite Ht in Hr. simpl in Hr. injection Hr as <-.
  exists t. simpl. by rewrite lookup_insert_eq.
Qed.
(** C26: In a workspace where every entry may be changed and no two entries are
    one file: an attempt's snapshot, restored after whatever the attempt did to
    the workspace, brings back every directory and every file's content, time
    and mode, and removes what else there is - except that a file of the same
    size and modification time stays as the attempt left it, and that only
    links that point to files inside the workspace are kept.  The modes and
    owners of directories are no part of it; the run id has no two dots in a
    row, its snapshot has a name of its own and is still there. *)
Theorem rollback_exact now hex8 workdir run_id attempt_no d w d2 w2 :
  unlocked → no_hard_links → run_id_ok run_id = true → str_contains ".." run_id = false → all_chars hex_digit hex8 = true → dk_snapshots d !! snapshot_ref run_id attempt_no hex8 = None →
  dk_dirs d !! workdir = Some w → closed w → ∃ d1, let ref := snapshot_ref run_id attempt_no hex8 in snapshot now hex8 workdir run_id attempt_no d = Ok (d1, ref) ∧
  (dk_snapshots d2 !! ref = dk_snapshots d1 !! ref → dk_dirs d2 !! workdir = Some w2 → w2 !! [] = None →
   ∃ d3 t, restore workdir ref d2 = Ok d3 ∧ dk_dirs d3 !! workdir = Some t ∧ ∀ p, t !! p = rolled_back w w2 p).
Proof.
  intros Ho Hn Hr Hd Hh Hfresh Hw Hcl. cbv zeta. unfold snapshot, validate_run_id. rewrite Hr. simpl. rewrite Hfresh, Hw. eexists. split; [reflexivity|].
  simpl. rewrite lookup_insert_eq. intros Hs Hw2 Hroot. unfold restore. rewrite own_ref by done. simpl. rewrite Hs, Hw2. simpl.
  destruct (synced (copied w) w2 Ho Hn (copied_closed w Hcl) Hroot) as (t & Ht & Hl). fold (copied w). rewrite Ht. simpl. eexists _, t. split; [reflexivity|]. simpl.
  rewrite lookup_insert_eq. split; [done|]. intros p. by rewrite Hl, mirrored_copied.
Qed.
(** A file the attempt changed without changing its size and modification time
    - its content or only its mode - is not restored. *)
Theorem unstamped_edit_survives workdir ref d d' s w2 p f g : unlocked → no_hard_links → restore workdir ref d = Ok d' → dk_snapshots d !! ref = Some s → closed (sn_tree s) →
  dk_dirs d !! workdir = Some w2 → w2 !! [] = None → sn_tree s !! p = Some (nd_file f) → w2 !! p = Some (nd_file g) →
  String.length (fn_content f) = String.length (fn_content g) → fn_mtime_ns f = fn_mtime_ns g →
  ∃ t, dk_dirs d' !! workdir = Some t ∧ t !! p = Some (nd_file g).
Proof.
  intros Ho Hl' Hr Hs Hc Hw Hroot Hf Hg Hlen Hm. destruct (restore_mirrors workdir ref d d' s w2 Ho Hl' Hr Hs Hc Hw Hroot) as (t & Ht & Hl).
  exists t. split; [done|]. rewrite Hl. unfold mirrored. rewrite Hf, Hg. unfold file_after, _unchanged. by rewrite Hlen, Hm, !Z.eqb_refl.
Qed.
(** gc removes exactly the snapshots as old as the cutoff, and a dry run names
    the same ones and removes none. *)
Theorem gc_exact now older_than d : let x := gc now older_than false d in
  gc now older_than true d = (d, x.2) ∧ dk_dirs x.1 = dk_dirs d ∧
  (∀ name, name ∈ x.2 ↔ ∃ s, dk_snapshots d !! name = Some s ∧ sn_mtime s <= now - older_than) ∧
  ∀ name, dk_snapshots x.1 !! name = match dk_snapshots d !! name with Some s => if sn_mtime s <=? now - older_than then None else Some s | None => None end.
Proof.
  cbv zeta. unfold gc. simpl. set (l := sorted_by _ _). split; [done|]. split; [done|].
  assert (∀ name, name ∈ l ↔ ∃ s, dk_snapshots d !! name = Some s ∧ sn_mtime s <= now - older_than) as Hl.
  { intros name. subst l. rewrite sorted_by_elem, list_elem_of_fmap. split.
    - intros ([n s] & -> & [Hs%list_elem_of_In%elem_of_map_to_list Hm%Z.leb_le]%list_elem_of_In%List.filter_In). by exists s.
    - intros (s & Hs & Hm). exists (name, s). split; [done|]. apply list_elem_of_In, List.filter_In. split; [by apply list_elem_of_In, elem_of_map_to_list|by apply Z.leb_le]. }
  split; [exact Hl|]. intros name.
  assert (∀ ns (m : gmap string Snapshot), foldl (λ m name, delete name m) m ns !! name = if decide (name ∈ ns) then None else m !! name) as Hfold.
  { intros ns. induction ns as [|n ns IH]; intros m; [by rewrite decide_False by apply not_elem_of_nil|]. cbn [foldl]. rewrite IH.
    destruct (decide (name ∈ ns)) as [Hin|Hin]; [by rewrite decide_True by by right|]. destruct (decide (name = n)) as [->|Hne].
    - rewrite decide_True by left. apply lookup_delete_eq.
    - rewrite decide_False by (rewrite elem_of_cons; tauto). by apply lookup_delete_ne. }
  rewrite Hfold. destruct (decide (name ∈ l)) as [Hin|Hin].
  - apply Hl in Hin as (s & -> & Hm). by replace (sn_mtime s <=? now - older_than) with true by lia.
  - destruct (dk_snapshots d !! name) as [s|] eqn:E; [|done]. destruct (Z.leb_spec (sn_mtime s) (now - older_than)); [|done]. destruct Hin. apply Hl. by exists s.
Qed.
End Trees.

(** ** WorkingSetOffload (offload.py) *)

Record OffloadHandle := mkHandle {
  oh_ref : string; oh_archive : string; oh_sha256 : string; oh_bytes_offloaded : Z; oh_offloaded_at : string; oh_original_bytes : Z }.
(** The archives and sidecars under [packs_root], and directories elsewhere. *)
Record Packs := mkPacks { pk_archives : gmap string string; pk_sidecars : gmap string OffloadHandle; pk_dirs : gmap string Tree }.
#[export] Instance eta_Packs : Eta Packs := λ p, mkPacks (pk_archives p) (pk_sidecars p) (pk_dirs p).

Section Offload.
(** The tar format - extraction may refuse a member -, SHA-256, and
    [contained_path] under the root: a name or a PathEscapeError. *)
Context (tar : Tree → string) (untar : string → result Tree) (sha256 : string → string) (contained : string → result string).
Definition _tree_bytes (t : Tree) : Z :=
  foldr (λ kv acc, match kv.2 with nd_file f => Z.of_nat (String.length (fn_content f)) + acc | _ => acc end) 0 (map_to_list t).
Definition pack_ref_ok (ref : string) : bool := negb (String.eqb ref "") && negb (str_contains "/" ref) && negb (str_contains ".." ref) && negb (str_contains "\" ref).
Definition pack (now src ref : string) (p : Packs) : result (Packs * OffloadHandle) :=
  if negb (pack_ref_ok ref) then Err PathEscapeError
  else match pk_dirs p !! src with
       | None => Err OffloadError
       | Some t =>
           name ← contained (ref +:+ ".tar.gz");
           let bytes := tar t in
           Ok (p <| pk_archives := <[name := bytes]> (pk_archives p) |> <| pk_dirs := delete src (pk_dirs p) |>,
               mkHandle ref name (sha256 bytes) (Z.of_nat (String.length bytes)) now (_tree_bytes t))
       end.
Definition offload_restore (h : OffloadHandle) (dest : string) (p : Packs) : result Packs :=
  name ← contained (oh_archive h);
  match pk_archives p !! name with
  | None => Err OffloadError
  | Some bytes =>
      if negb (String.eqb (sha256 bytes) (oh_sha256 h)) then Err OffloadError
      else t ← untar bytes; Ok (p <| pk_dirs := <[dest := t]> (pk_dirs p) |>)
  end.
Definition drop_archive (h : OffloadHandle) (p : Packs) : result Packs :=
  name ← contained (oh_archive h); Ok (p <| pk_archives := delete name (pk_archives p) |>).
Definition write_sidecar (run_id : string) (h : OffloadHandle) (p : Packs) : result Packs :=
  name ← contained (run_id +:+ ".json"); Ok (p <| pk_sidecars := <[name := h]> (pk_sidecars p) |>).
Definition read_sidecar (run_id : string) (p : Packs) : result (option OffloadHandle) :=
  name ← contained (run_id +:+ ".json"); Ok (pk_sidecars p !! name).
Definition drop_sidecar (run_id : string) (p : Packs) : result Packs :=
  name ← contained (run_id +:+ ".json"); Ok (p <| pk_sidecars := delete name (pk_sidecars p) |>).

(** A packed directory is gone from its place, and restoring its handle - at
    any later time, anywhere - gives the directory back, is refused, or leaves
    SHA-256 with two archives of one digest: an archive that is missing or was
    changed restores nothing. *)
Theorem offload_all_or_nothing now src ref p p1 h p2 dest t :
  untar (tar t) = Ok t → (∀ n m, contained n = Ok m → contained m = Ok m) → pk_dirs p !! src = Some t → pack now src ref p = Ok (p1, h) →
  pk_dirs p1 !! src = None ∧ (∃ p3, offload_restore h dest p1 = Ok p3 ∧ pk_dirs p3 !! dest = Some t) ∧
  (∀ p3, offload_restore h dest p2 = Ok p3 → pk_dirs p3 !! dest = Some t ∨
     ∃ bytes, pk_archives p2 !! oh_archive h = Some bytes ∧ bytes ≠ tar t ∧ sha256 bytes = sha256 (tar t)).
Proof.
  intros Htar Hcon Ht. unfold pack. destruct (negb _); [done|]. rewrite Ht. destruct (contained (ref +:+ ".tar.gz")) as [name|] eqn:En; [|done]. simpl. intros [= <- <-].
  apply Hcon in En. simpl. split; [apply lookup_delete_eq|]. unfold offload_restore. simpl. rewrite En. simpl. split.
  - rewrite lookup_insert_eq, String.eqb_refl. simpl. rewrite Htar. simpl. eexists. split; [done|]. simpl. by rewrite lookup_insert_eq.
  - intros p3. destruct (pk_archives p2 !! name) as [bytes|]; [|done]. destruct (String.eqb_spec (sha256 bytes) (sha256 (tar t))); simpl; [|done].
    destruct (decide (bytes = tar t)) as [->|Hne]; [|intros _; right; by exists bytes]. rewrite Htar. simpl. intros [= <-]. left. simpl. by rewrite lookup_insert_eq.
Qed.
End Offload.

(** ** Witnesses *)

Section Witnesses.
Definition no_dir_links (t : Tree) (p : path) : bool := false.
Definition all_inside (t : Tree) (p : path) (x : string) : bool := true.
Definition all_open (t : Tree) (p : path) : bool := false.
Definition one_name (t : Tree) (p q : path) : bool := false.
Lemma all_unlocked : unlocked all_open.
Proof. done. Qed.
Lemma no_twins : no_hard_links one_name.
Proof. done. Qed.
Definition script : Node := nd_file (mkFile "echo" 7 420).
Definition chmodded : FileNode := mkFile "rm x" 7 493.
Definition a_tree : Tree := {[ ["a"] := nd_dir; ["a"; "b"] := script; ["c"] := nd_link "a/b" ]}.
Definition worked_tree : Tree := {[ ["a"] := nd_dir; ["a"; "b"] := nd_file (mkFile "echo 2" 9 420); ["new"] := script ]}.
Definition disk : Disk := mkDisk ∅ {["w" := a_tree]}.
Lemma a_tree_closed : closed a_tree.
Proof.
  split; [by vm_compute|]. intros p q Hp Hq Hne Hq0. unfold a_tree in Hp. rewrite !lookup_insert_is_Some in Hp.
  destruct Hp as [<-|[_ [<-|[_ Hp]]]].
  - destruct Hq as [k E]. destruct q as [|x [|]]; [done| |done]. injection E as <- _. destruct k; [done|done].
  - destruct Hq as [k E]. destruct q as [|x [|y [|]]]; [done| | |done].
    + by injection E as <- _.
    + injection E as <- <- <-. done.
  - apply lookup_singleton_is_Some in Hp as <-. destruct Hq as [k E]. destruct q as [|x [|]]; [done| |done]. by injection E as <- _.
Qed.
Lemma rollback_exact_witness : ∃ d1 d3 t, snapshot no_dir_links all_inside 0 "0123abcd" "w" "run-1" 1 disk = Ok (d1, "run-1-attempt1-0123abcd") ∧
  restore no_dir_links all_inside all_open one_name "w" "run-1-attempt1-0123abcd" (mkDisk (dk_snapshots d1) {["w" := worked_tree]}) = Ok d3 ∧ dk_dirs d3 !! "w" = Some t ∧
  t !! ["a"; "b"] = Some script ∧ t !! ["new"] = None.
Proof.
  destruct (snapshot no_dir_links all_inside 0 "0123abcd" "w" "run-1" 1 disk) as [[d1 ref]|] eqn:E; [|vm_compute in E; discriminate].
  destruct (rollback_exact no_dir_links all_inside all_open one_name 0 "0123abcd" "w" "run-1" 1 disk a_tree (mkDisk (dk_snapshots d1) {["w" := worked_tree]}) worked_tree
    all_unlocked no_twins eq_refl eq_refl eq_refl eq_refl eq_refl a_tree_closed) as (d1' & Es & Hr).
  rewrite E in Es. injection Es as <- ->. destruct (Hr eq_refl eq_refl eq_refl) as (d3 & t & H1 & H2 & H3). exists d1, d3, t.
  split; [done|]. split; [exact H1|]. split; [exact H2|]. by rewrite !H3.
Defined.
Definition touched : Disk := mkDisk {["r-attempt1-0" := mkSnapshot a_tree 0]} {["w" := <[["a"; "b"] := nd_file chmodded]> a_tree]}.
Lemma unstamped_edit_survives_witness : ∃ d' t, restore no_dir_links all_inside all_open one_name "w" "r-attempt1-0" touched = Ok d' ∧ dk_dirs d' !! "w" = Some t ∧
  t !! ["a"; "b"] = Some (nd_file chmodded).
Proof.
  destruct (restore no_dir_links all_inside all_open one_name "w" "r-attempt1-0" touched) as [d'|] eqn:E; [|vm_compute in E; discriminate].
  destruct (unstamped_edit_survives no_dir_links all_inside all_open one_name "w" "r-attempt1-0" touched d' (mkSnapshot a_tree 0) (<[["a"; "b"] := nd_file chmodded]> a_tree) ["a"; "b"]
    (mkFile "echo" 7 420) chmodded all_unlocked no_twins E eq_refl a_tree_closed eq_refl eq_refl eq_refl eq_refl eq_refl eq_refl) as (t & H1 & H2).
  exists d', t. exact (conj eq_refl (conj H1 H2)).
Defined.
(** Two files, which an attempt made one ([ln -f a b]): copying one back writes
    into the other. *)
Definition two_files : Tree := {[ ["a"] := nd_file (mkFile "A" 1 420); ["b"] := nd_file (mkFile "B" 2 420) ]}.
Definition linked_files : Disk :=
  mkDisk {["r-attempt1-0" := mkSnapshot two_files 0]} {["w" := {[ ["a"] := nd_file (mkFile "A" 1 420); ["b"] := nd_file (mkFile "A" 1 420) ]}]}.
Definition one_inode (t : Tree) (p q : path) : bool := bool_decide (p ∈ [["a"]; ["b"]]) && bool_decide (q ∈ [["a"]; ["b"]]).
(** After a restore that reports success both files are the same: one of them
    is not the snapshot's. *)
Theorem hard_links_defeat_rollback : ∃ d t, restore no_dir_links all_inside all_open one_inode "w" "r-attempt1-0" linked_files = Ok d ∧
  dk_dirs d !! "w" = Some t ∧ t !! ["a"] = t !! ["b"] ∧ two_files !! ["a"] ≠ two_files !! ["b"].
Proof.
  destruct (restore no_dir_links all_inside all_open one_inode "w" "r-attempt1-0" linked_files) as [d|] eqn:E; [|vm_compute in E; discriminate].
  vm_compute in E. injection E as <-. eexists _, _. split; [reflexivity|]. split; [reflexivity|]. split; [reflexivity|]. vm_compute. discriminate.
Qed.
(** An attempt that made a file it did not have and closed its directory: the
    restore raises. *)
Definition closed_dir (t : Tree) (p : path) : bool := bool_decide (p = ["new"]).
Theorem closed_entry_stops_rollback :
  restore no_dir_links all_inside closed_dir one_name "w" "r-attempt1-0" (mkDisk {["r-attempt1-0" := mkSnapshot a_tree 0]} {["w" := worked_tree]}) =
    Err PermissionError.
Proof. vm_compute. reflexivity. Qed.
Lemma dotted_run_never_restores_witness : ∃ d1 ref, snapshot no_dir_links all_inside 0 "0123abcd" "w" "a..b" 1 disk = Ok (d1, ref) ∧
  restore no_dir_links all_inside all_open one_name "w" ref d1 = Err PathEscapeError.
Proof.
  destruct (snapshot no_dir_links all_inside 0 "0123abcd" "w" "a..b" 1 disk) as [[d1 ref]|] eqn:E; [|vm_compute in E; discriminate].
  exists d1, ref. split; [done|]. exact (dotted_run_never_restores no_dir_links all_inside all_open one_name 0 "0123abcd" "w" "a..b" 1 disk d1 ref "w" d1 eq_refl E).
Defined.
(** A format that knows one tree. *)
Definition one_tar (t : Tree) : string := "t".
Definition one_untar (s : string) : result Tree := if String.eqb s "t" then Ok worked_tree else Err OffloadError.
Definition parked : Packs := mkPacks ∅ ∅ {["w" := worked_tree]}.
Lemma offload_all_or_nothing_witness : ∃ p1 h p3, pack one_tar id Ok "now" "w" "r1" parked = Ok (p1, h) ∧ pk_dirs p1 !! "w" = None ∧
  offload_restore one_untar id Ok h "w" p1 = Ok p3 ∧ pk_dirs p3 !! "w" = Some worked_tree.
Proof.
  destruct (pack one_tar id Ok "now" "w" "r1" parked) as [[p1 h]|] eqn:E; [|vm_compute in E; discriminate].
  destruct (offload_all_or_nothing one_tar one_untar id Ok "now" "w" "r1" parked p1 h p1 "w" worked_tree eq_refl ltac:(done) eq_refl E) as (H1 & (p3 & H2 & H3) & _).
  exists p1, h, p3. exact (conj eq_refl (conj H1 (conj H2 H3))).
Defined.
End Witnesses.
