(* ===== verification/SkillApply.v ===== *)
(** * Applying a skill: bindings, waves, rollback and the serial retry
    (solver/apply.py, solver/bindings.py)

    A skill's steps run in waves.  Tool invocations, workspace snapshots and
    the transcript's [finalize] are operations on a world [W] that may raise
    ([ToolRuntime.invoke] and [Workspace] are such).  One loop iteration of a
    step - its invocation - is one step of the pool, and the world picks which
    of the unfinished steps goes next, so the steps of a wave interleave in any
    order.  Transcript events and the recorded conflicts are left out; values
    are JSON.  The theorems: an application always ends; every step that runs
    reads outputs of steps that succeeded in earlier waves, and shares no claim
    with its wave; success means each step ran and ended well; over the
    [WorkspaceManager]'s snapshots a failed wave is rolled back as far as a
    restore reaches - and a failed serial retry is not; a wave that succeeded is
    run again when a tool's output speaks of a claim timeout. *)
From S2P Require Import Prelude PyStr Contracts Claims Skills CommandPolicy ToolRuntime Workspace.
From stdpp Require Import gmap.
From Stdlib Require Import ZArith Lia Ascii.
Open Scope Z_scope.

Definition ClaimTimeoutError : exn := PyError "ClaimTimeoutError".

(** ** bindings.py *)

Section Bindings.
Context (str_of_value : json → string).
(** [_PLACEHOLDER.sub]: fuel [String.length], each round consumes a character. *)
Fixpoint bind_text (fuel : nat) (params : json_obj) (s : string) : string :=
  match fuel, s with
  | S fuel', String c s' =>
      match tag_at s with
      | Some (name, rest) =>
          (match obj_get name params with
           | Some v => str_of_value v
           | None => String.substring 0 (String.length s - String.length rest) s
           end) +:+ bind_text fuel' params rest
      | None => String c (bind_text fuel' params s')
      end
  | _, _ => s
  end.
Definition bind_parameters (template : string) (params : json_obj) : string := bind_text (String.length template) params template.
Notation Outputs := (gmap (string * string) json).
Fixpoint bind_outputs (bindings : list InputBinding) (outputs : Outputs) (out : json_obj) : result json_obj :=
  match bindings with
  | [] => Ok out
  | b :: bs =>
      match outputs !! (ib_source_step b, ib_output b) with
      | None => Err ValueError
      | Some v => bind_outputs bs outputs (obj_set (ib_input b) v out)
      end
  end.
Definition bind_inputs (inputs params : json_obj) (bindings : list InputBinding) (outputs : Outputs) : result json_obj :=
  bind_outputs bindings outputs (map (λ kv : string * json, (kv.1, match kv.2 with JStr s => JStr (bind_parameters s params) | v => v end)) inputs).
End Bindings.
Notation Outputs := (gmap (string * string) json).
Definition claims_conflict (a b : list ResourceClaim) : bool := existsb (λ ca, existsb (conflicts_with ca) b) a.
(** [{s.id: s for s in steps}]: a repeated id keeps its place and takes the last step. *)
Fixpoint dict_put (s : Step) (l : list Step) : list Step :=
  match l with [] => [s] | x :: l' => if String.eqb (st_id x) (st_id s) then s :: l' else x :: dict_put s l' end.
Definition by_id (steps : list Step) : list Step := foldl (λ l s, dict_put s l) [] steps.
Definition ready_steps (done : list string) (remaining : list Step) : list Step :=
  List.filter (λ s, forallb (λ d, bool_decide (d ∈ done)) (step_dependencies s)) remaining.
(** [topological_waves]: [None] is its ValueError; fuel, the steps. *)
Fixpoint waves_from (fuel : nat) (max_parallel : nat) (done : list string) (remaining : list Step) : option (list (list Step)) :=
  match remaining, fuel with
  | [], _ => Some []
  | _, O => None
  | _, S fuel' =>
      match firstn max_parallel (ready_steps done remaining) with
      | [] => None
      | wave => cons wave <$> waves_from fuel' max_parallel (done ++ map st_id wave)
                  (List.filter (λ s, negb (bool_decide (st_id s ∈ map st_id wave))) remaining)
      end
  end.
Definition topological_waves (steps : list Step) (max_parallel : nat) : option (list (list Step)) :=
  waves_from (length (by_id steps)) max_parallel [] (by_id steps).

(** ** apply.py *)

Record StepOutcome := mkStepOutcome { so_step : string; so_tool : string; so_result : option ToolResult; so_error : option string }.
Record WaveResult := mkWaveResult { wr_wave : Z; wr_steps : list Step; wr_outcomes : list StepOutcome; wr_timed_out : bool; wr_serialised_retry : bool }.
Record ApplyResult := mkApplyResult {
  ap_ok : bool; ap_waves : list WaveResult; ap_transcript : option string; ap_error : option text; ap_merge_timeout : bool }.
Definition outcome_ok (o : StepOutcome) : bool := match so_result o with Some r => tr_ok r | None => false end.
Definition _output_value (o : StepOutput) (r : ToolResult) : json :=
  match so_value_from o with from_exit_code => JInt (tr_exit_code r) | from_stderr => JStr (tr_stderr r) | from_stdout => JStr (tr_stdout r) end.
Definition _record_outputs (s : Step) (o : StepOutcome) (outputs : Outputs) : Outputs :=
  match so_result o with
  | Some r => if tr_ok r then foldl (λ m out, <[(st_id s, so_name out) := _output_value out r]> m) outputs (st_outputs s) else outputs
  | None => outputs
  end.
(** What the applicator uses. *)
Class ApplyWorld (W : Type) := {
  aw_invoke : string → json_obj → string → list ResourceClaim → StepInvokeContext → M W ToolResult;
  aw_snapshot : Z → M W string; aw_restore : string → M W unit; aw_finalize : M W string;
  aw_pick : nat → W → nat;                 (* which unfinished step of the pool goes next *)
  aw_str : json → string; aw_timeout_text : string; aw_binding_text : string }.

(** A step between two iterations of its loop. *)
Record Progress := mkProgress { pg_step : Step; pg_inputs : json_obj; pg_left : nat; pg_last : option ToolResult; pg_err : option string }.
Inductive OneState := os_running (p : Progress) | os_done (o : StepOutcome) | os_raised (e : exn).
Definition tool_of (s : Step) : string := match st_tool s with Some t => if String.eqb t "" then "shell" else t | None => "shell" end.
Definition iterations (s : Step) : nat := match st_loop s with Some l => Z.to_nat (sl_max_iterations l) | None => 1%nat end.
Definition finished (s : Step) (last : option ToolResult) (err : option string) : OneState := os_done (mkStepOutcome (st_id s) (tool_of s) last err).
(** The next iteration, or the outcome when none is left. *)
Definition next_iteration (s : Step) (inputs : json_obj) (left : nat) (last : option ToolResult) (err : option string) : OneState :=
  match left with O => finished s last err | _ => os_running (mkProgress s inputs left last err) end.
(** [a or b] *)
Definition err_text (r : ToolResult) : string := if String.eqb (tr_stderr r) "" then tr_stdout r else tr_stderr r.
Definition claims_timeout_text (e : option string) : bool := match e with Some t => str_contains "claim timeout" t | None => false end.

Section Apply.
Context {W : Type} `{ApplyWorld W}.
(** [run_one] up to its first invocation. *)
Definition begin_one (params : json_obj) (outputs : Outputs) (s : Step) : OneState :=
  match bind_inputs aw_str (st_inputs s) params (st_input_bindings s) outputs with
  | Err _ => finished s None (Some aw_binding_text)
  | Ok inputs => next_iteration s inputs (iterations s) None None
  end.
Definition iterate (params : json_obj) (p : Progress) (w : W) : W * OneState :=
  let s := pg_step p in
  match aw_invoke (tool_of s) (pg_inputs p) (st_id s) (st_resources s) (mkStepContext (bind_parameters aw_str (st_intent s) params) params) w with
  | (w', Ok last) =>
      (w', if tr_ok last then finished s (Some last) (pg_err p)
           else match st_loop s with
                | None => finished s (Some last) (Some (err_text last))
                | Some _ => next_iteration s (pg_inputs p) (pred (pg_left p)) (Some last) (Some (err_text last))
                end)
  | (w', Err e) => (w', if decide (e = ClaimTimeoutError) then finished s None (Some aw_timeout_text) else os_raised e)
  end.
(** A step to its end: at most [fuel] iterations. *)
Fixpoint run_on (fuel : nat) (params : json_obj) (st : OneState) (w : W) : W * OneState :=
  match fuel, st with
  | S fuel', os_running p => let '(w', st') := iterate params p w in run_on fuel' params st' w'
  | _, _ => (w, st)
  end.
Fixpoint run_serial (params : json_obj) (outputs : Outputs) (steps : list Step) (w : W) : W * result (list StepOutcome) :=
  match steps with
  | [] => (w, Ok [])
  | s :: ss =>
      match run_on (iterations s) params (begin_one params outputs s) w with
      | (w', os_done o) => match run_serial params outputs ss w' with (w2, Ok os) => (w2, Ok (o :: os)) | (w2, Err e) => (w2, Err e) end
      | (w', os_raised e) => (w', Err e)
      | (w', os_running _) => (w', Err (FnError "unfinished"))
      end
  end.
Definition is_running (st : OneState) : bool := match st with os_running _ => true | _ => false end.
Definition running_indices (states : list OneState) : list nat :=
  List.filter (λ i, match states !! i with Some st => is_running st | None => false end) (seq 0 (length states)).
Definition left_of (st : OneState) : nat := match st with os_running p => pg_left p | _ => 0%nat end.
(** The pool until every step has ended; the exceptions in the order they came. *)
Fixpoint pool (fuel : nat) (params : json_obj) (states : list OneState) (raised : list exn) (w : W) : W * (list OneState * list exn) :=
  match fuel, running_indices states with
  | S fuel', (_ :: _) as idle =>
      let i := nth (Nat.modulo (aw_pick (length idle) w) (length idle)) idle 0%nat in
      match states !! i with
      | Some (os_running p) =>
          let '(w', st') := iterate params p w in
          pool fuel' params (<[i := st']> states) (match st' with os_raised e => raised ++ [e] | _ => raised end) w'
      | _ => (w, (states, raised))
      end
  | _, _ => (w, (states, raised))
  end.
Definition outcomes_of (states : list OneState) : list StepOutcome := omap (λ st, match st with os_done o => Some o | _ => None end) states.
Definition begin_all (params : json_obj) (outputs : Outputs) (steps : list Step) : list OneState := map (begin_one params outputs) steps.
Definition run_pool (params : json_obj) (outputs : Outputs) (steps : list Step) : M W (list StepOutcome) := λ w,
  let states := begin_all params outputs steps in
  match pool (foldr (λ st n, left_of st + n)%nat 0%nat states) params states [] w with
  | (w', (_, e :: _)) => (w', Err e)
  | (w', (states', [])) => (w', Ok (outcomes_of states'))
  end.
Definition _run_wave (wave_idx : Z) (params : json_obj) (outputs : Outputs) (steps : list Step) (force_serial : bool) : M W WaveResult :=
  os ← (if force_serial || (length steps =? 1)%nat then run_serial params outputs steps else run_pool params outputs steps);
  mret (mkWaveResult wave_idx steps os (existsb (λ o, claims_timeout_text (so_error o)) os) false).
(** Greedy in declaration order: no conflict with the chosen, at most [max]. *)
Fixpoint pack_wave (max : nat) (ready selected : list Step) : list Step :=
  match ready with
  | [] => selected
  | s :: ss =>
      if (max <=? length selected)%nat then selected
      else if existsb (λ x, claims_conflict (st_resources s) (st_resources x)) selected then pack_wave max ss selected
      else pack_wave max ss (selected ++ [s])
  end.
Definition choose_wave (max : nat) (ready : list Step) : list Step :=
  match pack_wave max ready [] with [] => firstn 1 ready | sel => sel end.
Definition record_wave (steps : list Step) (os : list StepOutcome) (outputs : Outputs) : Outputs :=
  foldl (λ m o, match List.find (λ s, String.eqb (st_id s) (so_step o)) steps with Some s => _record_outputs s o m | None => m end) outputs os.
Definition drop_steps (os : list StepOutcome) (remaining : list Step) : list Step :=
  List.filter (λ s, negb (bool_decide (st_id s ∈ map so_step os))) remaining.
Definition serialised (r : WaveResult) : WaveResult := mkWaveResult (wr_wave r) (wr_steps r) (wr_outcomes r) (wr_timed_out r) true.

(** The loop over what remains; [None] when the fuel is out. *)
Fixpoint apply_loop (fuel : nat) (max : nat) (params : json_obj) (done : list string) (remaining : list Step) (waves : list WaveResult)
    (outputs : Outputs) (wave_idx : Z) : M W (option ApplyResult) :=
  match remaining, fuel with
  | [], _ => ref ← aw_finalize; mret (Some (mkApplyResult true waves (Some ref) None false))
  | _, O => mret None
  | _, S fuel' =>
      let ready := ready_steps done remaining in
      if is_nil ready then mret (Some (mkApplyResult false waves None (Some (lit "unsatisfiable step dependencies at runtime")) false))
      else
        let selected := choose_wave max ready in
        snap ← aw_snapshot (1000 + wave_idx);
        r ← _run_wave wave_idx params outputs selected false;
        let go_on (waves : list WaveResult) (os : list StepOutcome) :=
          apply_loop fuel' max params (done ++ map so_step os) (drop_steps os remaining) waves (record_wave remaining os outputs) (wave_idx + 1) in
        if wr_timed_out r then
          _ ← aw_restore snap;
          x ← _run_wave wave_idx params outputs selected true;
          let x := serialised x in
          if negb (forallb outcome_ok (wr_outcomes x)) then
            ref ← aw_finalize;
            mret (Some (mkApplyResult false (waves ++ [r; x]) (Some ref) (Some (lit "serialised wave still failed after claim timeout")) true))
          else go_on (waves ++ [r; x]) (wr_outcomes x)
        else
          let failed := List.filter (λ o, negb (outcome_ok o)) (wr_outcomes r) in
          if is_nil failed then go_on (waves ++ [r]) (wr_outcomes r)
          else
            _ ← aw_restore snap;
            ref ← aw_finalize;
            mret (Some (mkApplyResult false (waves ++ [r]) (Some ref) (Some (fmt "wave {} failed: {}" [FZ wave_idx; FL (map so_step failed)])) false))
  end.
Definition apply (max : nat) (params : json_obj) (v : SkillVersion) : M W (option ApplyResult) :=
  apply_loop (length (by_id (sv_steps v))) max params [] (by_id (sv_steps v)) [] ∅ 0.
End Apply.

(** ** Theorems *)

Section Theorems.
Context {W : Type} `{ApplyWorld W}.

(** *** One wave *)

(** A state of step [s]; an unfinished one has an iteration left. *)
Definition of_step (s : Step) (st : OneState) : Prop :=
  match st with
  | os_running p => pg_step p = s ∧ (0 < pg_left p)%nat
  | os_done o => so_step o = st_id s
  | os_raised _ => True
  end.
Lemma next_of_step s inputs left last err : of_step s (next_iteration s inputs left last err).
Proof. unfold next_iteration. destruct left; simpl; [done|]. split; [done|lia]. Qed.
Lemma begin_of_step params outputs s : of_step s (begin_one params outputs s) ∧ (left_of (begin_one params outputs s) ≤ iterations s)%nat.
Proof.
  unfold begin_one. destruct (bind_inputs _ _ _ _ _); [|simpl; split; [done|lia]]. split; [apply next_of_step|]. unfold next_iteration. destruct (iterations s); simpl; lia.
Qed.
Lemma iterate_of_step params s p w w' st : of_step s (os_running p) → iterate params p w = (w', st) → of_step s st ∧ (left_of st < pg_left p)%nat.
Proof.
  intros [Hs Hl]. unfold iterate. destruct (aw_invoke _ _ _ _ _ w) as [w1 [last|e]]; intros [= _ <-]; rewrite ?Hs.
  - destruct (tr_ok last); [split; [done|simpl; lia]|]. destruct (st_loop s); [|split; [done|simpl; lia]]. split; [apply next_of_step|].
    unfold next_iteration. destruct (pred (pg_left p)) eqn:E; simpl; lia.
  - destruct (decide _); simpl; (split; [done|lia]).
Qed.
Lemma run_on_ends fuel params s st w : of_step s st → (left_of st ≤ fuel)%nat → let x := run_on fuel params st w in of_step s x.2 ∧ is_running x.2 = false.
Proof.
  revert st w. induction fuel as [|fuel IH]; intros st w Hs Hl; cbn [run_on]; destruct st as [p|o|e]; try done.
  - simpl in *. destruct Hs. lia.
  - destruct (iterate params p w) as [w' st'] eqn:E. apply (iterate_of_step params s) in E as [H1 H2]; [|done]. apply IH; [done|simpl in Hl; lia].
Qed.
Lemma run_serial_ids params outputs steps w w' os : run_serial params outputs steps w = (w', Ok os) → map so_step os = map st_id steps.
Proof.
  revert w os. induction steps as [|s ss IH]; intros w os; cbn [run_serial]; [by intros [= _ <-]|].
  destruct (begin_of_step params outputs s) as [Hb Hl]. pose proof (run_on_ends (iterations s) params s _ w Hb Hl) as [Hs Hr].
  destruct (run_on _ _ _ w) as [w1 [p|o|e]]; [done| |done]. destruct (run_serial _ _ ss w1) as [w2 [os'|e]] eqn:E; [|done]. intros [= -> <-]. simpl in *. rewrite Hs. f_equal. by eapply IH.
Qed.
Definition lefts (states : list OneState) : nat := foldr (λ st n, left_of st + n)%nat 0%nat states.
Lemma lefts_insert i st st' states : states !! i = Some st → (lefts (<[i := st']> states) + left_of st = lefts states + left_of st')%nat.
Proof. revert i. induction states as [|x states IH]; intros [|i]; [done|done| |]; simpl; [intros [= ->]; lia|]. intros Hi. specialize (IH i Hi). lia. Qed.
Lemma running_some states : running_indices states = [] → Forall (λ st, is_running st = false) states.
Proof.
  intros Hr. apply Forall_lookup_2. intros i st Hi. destruct (is_running st) eqn:E; [|done]. exfalso.
  assert (i ∈ running_indices states) as Hin; [|rewrite Hr in Hin; by apply elem_of_nil in Hin].
  apply list_elem_of_In, List.filter_In. rewrite Hi, E. split; [|done]. apply in_seq. apply lookup_lt_Some in Hi. lia.
Qed.
Lemma running_lookup states i : i ∈ running_indices states → ∃ p, states !! i = Some (os_running p).
Proof. intros [_ Hi]%list_elem_of_In%List.filter_In. destruct (states !! i) as [[p| |]|]; try done. by exists p. Qed.
Definition exceptions_in (states : list OneState) (raised : list exn) : Prop := raised = [] → Forall (λ st, match st with os_raised _ => False | _ => True end) states.
Lemma pool_ends fuel params steps states raised w : Forall2 of_step steps states → (lefts states ≤ fuel)%nat → exceptions_in states raised →
  let x := pool fuel params states raised w in Forall2 of_step steps x.2.1 ∧ Forall (λ st, is_running st = false) x.2.1 ∧ exceptions_in x.2.1 x.2.2.
Proof.
  revert states raised w. induction fuel as [|fuel IH]; intros states raised w Hs Hl He; cbn [pool].
  - split; [done|]. split; [|done]. apply running_some. destruct (running_indices states) as [|i l] eqn:Er; [done|]. exfalso.
    destruct (running_lookup states i) as [p Hp]; [rewrite Er; left|]. pose proof (lefts_insert i _ (os_raised KeyError) _ Hp) as Hle. simpl in Hle.
    destruct (Forall2_lookup_r _ _ _ _ _ Hs Hp) as (s & _ & _ & ?). lia.
  - destruct (running_indices states) as [|i0 l0] eqn:Er; [split; [done|]; split; [by apply running_some|done]|].
    set (i := nth _ (i0 :: l0) 0%nat). assert (i ∈ running_indices states) as Hi.
    { rewrite Er. apply list_elem_of_In, nth_In. apply Nat.mod_upper_bound. simpl. lia. }
    destruct (running_lookup states i Hi) as [p Hp]. rewrite Hp. destruct (iterate params p w) as [w' st'] eqn:E.
    destruct (Forall2_lookup_r _ _ _ _ _ Hs Hp) as (s & Hsi & Hsp). destruct (iterate_of_step params s p w w' st' Hsp E) as [H1 H2]. apply IH.
    + rewrite <- (list_insert_id steps i s Hsi). by apply Forall2_insert.
    + pose proof (lefts_insert i _ st' _ Hp) as Hle. simpl in Hle. lia.
    + unfold exceptions_in. intros Hr. apply Forall_insert; [apply He; destruct st'; [done..|by apply app_eq_nil in Hr as [? ?]]|]. destruct st'; [done..|by apply app_eq_nil in Hr as [? ?]].
Qed.
Lemma outcomes_ids steps states : Forall2 of_step steps states → Forall (λ st, is_running st = false) states →
  Forall (λ st, match st with os_raised _ => False | _ => True end) states → map so_step (outcomes_of states) = map st_id steps.
Proof.
  induction 1 as [|s st steps states Hs _ IH]; [done|]. intros [Hr ?]%Forall_cons [He ?]%Forall_cons. destruct st as [p|o|e]; [done| |done]. simpl in *.
  unfold outcomes_of in *. simpl. rewrite Hs. f_equal. auto.
Qed.
(** A wave that returns has one outcome for each of its steps, in order. *)
Lemma wave_ids wave_idx params outputs steps force w w' r : _run_wave wave_idx params outputs steps force w = (w', Ok r) →
  map so_step (wr_outcomes r) = map st_id steps ∧ wr_steps r = steps ∧ wr_timed_out r = existsb (λ o, claims_timeout_text (so_error o)) (wr_outcomes r).
Proof.
  unfold _run_wave. intros (os & w1 & Hos & [-> ->]%ret_Ok)%M_bind_Ok. simpl. split; [|done]. destruct (force || _); [by apply run_serial_ids in Hos|].
  unfold run_pool in Hos. cbv zeta in Hos.
  assert (Forall2 of_step steps (begin_all params outputs steps)) as Hb by (unfold begin_all; apply Forall2_fmap_r, Forall_Forall2_diag, Forall_true; intros s; apply begin_of_step).
  assert (exceptions_in (begin_all params outputs steps) []) as He.
  { intros _. unfold begin_all. apply Forall_fmap, Forall_true. intros s. simpl. unfold begin_one. destruct (bind_inputs _ _ _ _ _); [|done]. unfold next_iteration. by destruct (iterations s). }
  pose proof (pool_ends (lefts (begin_all params outputs steps)) params steps _ [] w Hb ltac:(lia) He) as (H1 & H2 & H3). unfold lefts in *.
  destruct (pool _ _ _ _ w) as [w2 [states [|e raised]]]; [|done]. injection Hos as _ <-. simpl in *. apply outcomes_ids; auto.
Qed.

(** *** The waves chosen *)

Definition apart (x y : Step) : Prop := claims_conflict (st_resources y) (st_resources x) = false.
Lemma pack_spec max ready selected : ForallOrdPairs apart selected → (length selected ≤ max)%nat → let sel := pack_wave max ready selected in
  ForallOrdPairs apart sel ∧ (length sel ≤ max)%nat ∧ ∀ s, s ∈ sel → s ∈ selected ∨ s ∈ ready.
Proof.
  revert selected. induction ready as [|s ss IH]; intros selected Hp Hl; cbn [pack_wave]; [auto|]. destruct (Nat.leb_spec max (length selected)); [auto|].
  destruct (existsb _ selected) eqn:E.
  - destruct (IH selected Hp Hl) as (H1 & H2 & H3). split; [done|]. split; [done|]. intros x Hx. destruct (H3 x Hx); [by left|right; by right].
  - destruct (IH (selected ++ [s])) as (H1 & H2 & H3); [| |split; [done|split; [done|]]].
    + clear IH Hl. induction Hp as [|x l Hx _ IHl]; simpl; [constructor; [constructor|constructor]|]. simpl in E. apply orb_false_iff in E as [E1 E2].
      constructor; [|apply IHl; [simpl in *; lia|done]]. apply Forall_app. split; [done|]. by repeat constructor.
    + rewrite length_app. simpl. lia.
    + intros x Hx. destruct (H3 x Hx) as [[?|?%list_elem_of_singleton]%elem_of_app|?]; [by left|subst; right; left|right; by right].
Qed.
Lemma choose_spec max ready : ready ≠ [] → let sel := choose_wave max ready in
  sel ≠ [] ∧ ForallOrdPairs apart sel ∧ (length sel ≤ Nat.max 1 max)%nat ∧ ∀ s, s ∈ sel → s ∈ ready.
Proof.
  intros Hr. unfold choose_wave. destruct (pack_spec max ready [] ltac:(constructor) ltac:(simpl; lia)) as (H1 & H2 & H3).
  destruct (pack_wave max ready []) as [|x sel].
  - destruct ready as [|y ready]; [done|]. simpl. split; [done|]. split; [repeat constructor|]. split; [lia|]. intros s Hs%list_elem_of_singleton. subst. left.
  - cbv zeta. split; [done|]. split; [done|]. split; [lia|]. intros s Hs. destruct (H3 s Hs) as [?%elem_of_nil|]; [done|done].
Qed.
Lemma dropped os (sel remaining : list Step) : sel ≠ [] → (∀ s, s ∈ sel → s ∈ remaining) → map so_step os = map st_id sel →
  (length (drop_steps os remaining) < length remaining)%nat.
Proof.
  intros Hn Hs He. destruct sel as [|x sel]; [done|]. specialize (Hs x ltac:(left)). unfold drop_steps. rewrite He. clear He Hn. induction remaining as [|y l IH]; [by apply elem_of_nil in Hs|]. simpl.
  assert (length (List.filter (λ s, negb (bool_decide (st_id s ∈ map st_id (x :: sel)))) l) ≤ length l)%nat by apply List.filter_length_le.
  apply elem_of_cons in Hs as [<-|Hs]; [|specialize (IH Hs); simpl in *; destruct (negb _); simpl; lia]. rewrite bool_decide_true by (simpl; left). simpl in *. lia.
Qed.

(** *** An application that returned, wave by wave *)

Inductive Ends (max : nat) (params : json_obj) : list string → list Step → list WaveResult → Outputs → Z → W → W → ApplyResult → Prop :=
  | ends_done done waves outputs k w w' ref : aw_finalize w = (w', Ok ref) →
      Ends max params done [] waves outputs k w w' (mkApplyResult true waves (Some ref) None false)
  | ends_stuck done remaining waves outputs k w : remaining ≠ [] → ready_steps done remaining = [] →
      Ends max params done remaining waves outputs k w w
        (mkApplyResult false waves None (Some (lit "unsatisfiable step dependencies at runtime")) false)
  | ends_rolled_back done remaining waves outputs k w w1 w2 w3 w' snap r ref why : remaining ≠ [] → ready_steps done remaining ≠ [] →
      aw_snapshot (1000 + k) w = (w1, Ok snap) → _run_wave k params outputs (choose_wave max (ready_steps done remaining)) false w1 = (w2, Ok r) →
      aw_restore snap w2 = (w3, Ok tt) → aw_finalize w3 = (w', Ok ref) → wr_timed_out r = false → forallb outcome_ok (wr_outcomes r) = false →
      Ends max params done remaining waves outputs k w w' (mkApplyResult false (waves ++ [r]) (Some ref) (Some why) false)
  | ends_serial_failed done remaining waves outputs k w w1 w2 w3 w4 w' snap r x ref why : remaining ≠ [] → ready_steps done remaining ≠ [] →
      aw_snapshot (1000 + k) w = (w1, Ok snap) → _run_wave k params outputs (choose_wave max (ready_steps done remaining)) false w1 = (w2, Ok r) →
      aw_restore snap w2 = (w3, Ok tt) → _run_wave k params outputs (choose_wave max (ready_steps done remaining)) true w3 = (w4, Ok x) →
      wr_timed_out r = true → forallb outcome_ok (wr_outcomes x) = false → aw_finalize w4 = (w', Ok ref) →
      Ends max params done remaining waves outputs k w w' (mkApplyResult false (waves ++ [r; serialised x]) (Some ref) (Some why) true)
  | ends_serial_on done remaining waves outputs k w w1 w2 w3 w4 w' snap r x res : remaining ≠ [] → ready_steps done remaining ≠ [] →
      aw_snapshot (1000 + k) w = (w1, Ok snap) → _run_wave k params outputs (choose_wave max (ready_steps done remaining)) false w1 = (w2, Ok r) →
      aw_restore snap w2 = (w3, Ok tt) → _run_wave k params outputs (choose_wave max (ready_steps done remaining)) true w3 = (w4, Ok x) →
      wr_timed_out r = true → forallb outcome_ok (wr_outcomes x) = true →
      Ends max params (done ++ map so_step (wr_outcomes x)) (drop_steps (wr_outcomes x) remaining) (waves ++ [r; serialised x])
        (record_wave remaining (wr_outcomes x) outputs) (k + 1) w4 w' res → Ends max params done remaining waves outputs k w w' res
  | ends_on done remaining waves outputs k w w1 w2 w' snap r res : remaining ≠ [] → ready_steps done remaining ≠ [] →
      aw_snapshot (1000 + k) w = (w1, Ok snap) → _run_wave k params outputs (choose_wave max (ready_steps done remaining)) false w1 = (w2, Ok r) →
      wr_timed_out r = false → forallb outcome_ok (wr_outcomes r) = true →
      Ends max params (done ++ map so_step (wr_outcomes r)) (drop_steps (wr_outcomes r) remaining) (waves ++ [r])
        (record_wave remaining (wr_outcomes r) outputs) (k + 1) w2 w' res → Ends max params done remaining waves outputs k w w' res.
Lemma failed_nil (os : list StepOutcome) : is_nil (List.filter (λ o, negb (outcome_ok o)) os) = forallb outcome_ok os.
Proof. induction os as [|o os IH]; [done|]. simpl. by destruct (outcome_ok o). Qed.
Lemma loop_ends fuel max params done remaining waves outputs k w w' res :
  apply_loop fuel max params done remaining waves outputs k w = (w', Ok (Some res)) → Ends max params done remaining waves outputs k w w' res.
Proof.
  revert done remaining waves outputs k w. induction fuel as [|fuel IH]; intros done remaining waves outputs k w; cbn [apply_loop].
  - destruct remaining; [|by intros [_ ?]%ret_Ok]. intros (ref & w1 & Hf & [-> [= ->]]%ret_Ok)%M_bind_Ok. by apply ends_done.
  - destruct remaining as [|s0 rem] eqn:Erem; [intros (ref & w1 & Hf & [-> [= ->]]%ret_Ok)%M_bind_Ok; by apply ends_done|]. rewrite <- Erem.
    assert (remaining ≠ []) as Hne by by rewrite Erem. clear s0 rem Erem.
    destruct (is_nil (ready_steps done remaining)) eqn:Er.
    + intros [-> [= ->]]%ret_Ok. apply ends_stuck; [done|]. by destruct (ready_steps done remaining).
    + assert (ready_steps done remaining ≠ []) as Hr by by intros E; rewrite E in Er.
      intros (snap & w1 & Hs & Hx)%M_bind_Ok. apply M_bind_Ok in Hx as (r & w2 & Hw & Hx). destruct (wr_timed_out r) eqn:Et.
      * apply M_bind_Ok in Hx as ([] & w3 & Hre & Hx). apply M_bind_Ok in Hx as (x & w4 & Hw2 & Hx). cbv zeta in Hx. change (wr_outcomes (serialised x)) with (wr_outcomes x) in Hx.
        destruct (forallb outcome_ok (wr_outcomes x)) eqn:Eo; simpl negb in Hx; cbv iota in Hx; [eapply ends_serial_on; eauto|].
        apply M_bind_Ok in Hx as (ref & w5 & Hf & [-> [= ->]]%ret_Ok). eapply ends_serial_failed; eauto.
      * rewrite failed_nil in Hx. destruct (forallb outcome_ok (wr_outcomes r)) eqn:Eo; [eapply ends_on; eauto|].
        apply M_bind_Ok in Hx as ([] & w3 & Hre & Hx). apply M_bind_Ok in Hx as (ref & w5 & Hf & [-> [= ->]]%ret_Ok). eapply ends_rolled_back; eauto.
Qed.

(** Every application ends: with a result or an exception of the world, for
    every wave that runs takes at least one step off what remains. *)
Theorem application_ends max params v w : ∀ w', apply max params v w ≠ (w', Ok None).
Proof.
  unfold apply. generalize (by_id (sv_steps v)). intros remaining w'. assert (length remaining ≤ length remaining)%nat as Hl by done. revert Hl.
  generalize (length remaining) at 2 3. generalize (@nil string) (@nil WaveResult) (∅ : Outputs) 0. intros done waves outputs k fuel. revert done remaining waves outputs k w.
  induction fuel as [|fuel IH]; intros done remaining waves outputs k w Hl; cbn [apply_loop].
  - destruct remaining; [|simpl in Hl; lia]. by intros (ref & w1 & Hf & [_ ?]%ret_Ok)%M_bind_Ok.
  - destruct remaining as [|s0 rem] eqn:Erem; [by intros (ref & w1 & Hf & [_ ?]%ret_Ok)%M_bind_Ok|]. rewrite <- Erem in *. clear s0 rem Erem.
    destruct (is_nil (ready_steps done remaining)) eqn:Er; [by intros [_ ?]%ret_Ok|]. assert (ready_steps done remaining ≠ []) as Hr by by intros E; rewrite E in Er.
    destruct (choose_spec max _ Hr) as (Hn & _ & _ & Hin). assert (∀ s, s ∈ choose_wave max (ready_steps done remaining) → s ∈ remaining) as Hsel.
    { intros s [Hs _]%Hin%list_elem_of_In%List.filter_In. by apply list_elem_of_In. }
    intros (snap & w1 & Hs & Hx)%M_bind_Ok. apply M_bind_Ok in Hx as (r & w2 & Hw & Hx). destruct (wr_timed_out r) eqn:Et.
    + apply M_bind_Ok in Hx as ([] & w3 & Hre & Hx). apply M_bind_Ok in Hx as (x & w4 & Hw2 & Hx). cbv zeta in Hx.
      destruct (negb (forallb outcome_ok (wr_outcomes (serialised x)))); [by apply M_bind_Ok in Hx as (ref & w5 & Hf & [_ ?]%ret_Ok)|]. revert Hx. apply IH. apply wave_ids in Hw2 as [Hids _].
      pose proof (dropped (wr_outcomes x) _ remaining Hn Hsel Hids). change (wr_outcomes (serialised x)) with (wr_outcomes x). lia.
    + cbv zeta in Hx. rewrite failed_nil in Hx. destruct (forallb outcome_ok (wr_outcomes r)).
      * revert Hx. apply IH. apply wave_ids in Hw as [Hids _]. pose proof (dropped (wr_outcomes r) _ remaining Hn Hsel Hids). lia.
      * apply M_bind_Ok in Hx as ([] & w3 & Hre & Hx). by apply M_bind_Ok in Hx as (ref & w5 & Hf & [_ ?]%ret_Ok).
Qed.

(** *** Dependencies and claims *)

Definition succeeded (waves : list WaveResult) (id : string) : Prop := ∃ r o, r ∈ waves ∧ o ∈ wr_outcomes r ∧ so_step o = id ∧ outcome_ok o = true.
Definition legal (max : nat) (steps : list Step) (earlier : list WaveResult) (r : WaveResult) : Prop :=
  (∀ s, s ∈ wr_steps r → s ∈ steps ∧ ∀ d, d ∈ step_dependencies s → succeeded earlier d) ∧
  ForallOrdPairs apart (wr_steps r) ∧ (length (wr_steps r) ≤ Nat.max 1 max)%nat.
Definition legal_waves (max : nat) (steps : list Step) (waves : list WaveResult) : Prop := ∀ pre r post, waves = pre ++ r :: post → legal max steps pre r.
Lemma succeeded_app waves l id : succeeded waves id → succeeded (waves ++ l) id.
Proof. intros (r & o & Hr & ?). exists r, o. split; [apply elem_of_app; by left|done]. Qed.
Lemma legal_snoc max steps waves r : legal_waves max steps waves → legal max steps waves r → legal_waves max steps (waves ++ [r]).
Proof.
  intros Hl Hr pre x post E. destruct post as [|y post] using rev_ind.
  - apply app_inj_tail in E as [-> ->]. done.
  - clear IHpost. rewrite app_comm_cons, app_assoc in E. apply app_inj_tail in E as [-> _]. by eapply Hl.
Qed.
Lemma wave_legal max params done remaining steps waves outputs force k w w' r :
  (∀ d, d ∈ done → succeeded waves d) → (∀ s, s ∈ remaining → s ∈ steps) → ready_steps done remaining ≠ [] →
  _run_wave k params outputs (choose_wave max (ready_steps done remaining)) force w = (w', Ok r) → legal max steps waves r ∧ legal max steps waves (serialised r) ∧
  ∀ s, s ∈ remaining → s ∈ drop_steps (wr_outcomes r) remaining ∨ st_id s ∈ map so_step (wr_outcomes r).
Proof.
  intros Hd Hs Hr Hw. apply wave_ids in Hw as (_ & Hst & _). destruct (choose_spec max _ Hr) as (_ & Hp & Hl & Hin).
  assert (legal max steps waves r) as Hlegal.
  { split; [|by rewrite Hst]. rewrite Hst. intros s [Hrem Hdeps]%Hin%list_elem_of_In%List.filter_In. split; [by apply Hs, list_elem_of_In|].
    intros d Hdin. apply Hd. rewrite forallb_forall in Hdeps. apply list_elem_of_In, Hdeps in Hdin. by apply bool_decide_eq_true_1 in Hdin. }
  split; [done|]. split; [done|]. intros s Hin'. destruct (decide (st_id s ∈ map so_step (wr_outcomes r))); [by right|left]. apply list_elem_of_In, List.filter_In.
  split; [by apply list_elem_of_In|]. by rewrite bool_decide_false.
Qed.
Lemma all_ok_succeeded waves r id : forallb outcome_ok (wr_outcomes r) = true → id ∈ map so_step (wr_outcomes r) → succeeded (waves ++ [r]) id.
Proof.
  intros Ho (o & -> & Hin)%list_elem_of_fmap. exists r, o. split; [apply elem_of_app; right; left|]. split; [done|]. split; [done|].
  rewrite forallb_forall in Ho. apply Ho. by apply list_elem_of_In.
Qed.
Lemma ends_legal max params steps done remaining waves outputs k w w' res : Ends max params done remaining waves outputs k w w' res →
  legal_waves max steps waves → (∀ d, d ∈ done → succeeded waves d) → (∀ s, s ∈ remaining → s ∈ steps) → (∀ s, s ∈ steps → s ∈ remaining ∨ succeeded waves (st_id s)) →
  legal_waves max steps (ap_waves res) ∧ (ap_ok res = true → ∀ s, s ∈ steps → succeeded (ap_waves res) (st_id s)).
Proof.
  assert (∀ os (l : list Step) s, s ∈ drop_steps os l → s ∈ l) as Hdrop by by intros os l s [Hs _]%list_elem_of_In%List.filter_In; apply list_elem_of_In.
  induction 1 as [| |done remaining waves outputs k w w1 w2 w3 w' snap r ref why Hne Hr Hsn Hw Hre Hf Ht Hok
    |done remaining waves outputs k w w1 w2 w3 w4 w' snap r x ref why Hne Hr Hsn Hw Hre Hw2 Ht Hok Hf
    |done remaining waves outputs k w w1 w2 w3 w4 w' snap r x res Hne Hr Hsn Hw Hre Hw2 Ht Hok _ IH
    |done remaining waves outputs k w w1 w2 w' snap r res Hne Hr Hsn Hw Ht Hok _ IH]; intros Hl Hd Hs Ha; cbn [ap_waves ap_ok] in *.
  - split; [done|]. intros _ s Hin. destruct (Ha s Hin) as [[]%elem_of_nil|]; done.
  - done.
  - split; [|done]. apply legal_snoc; [done|]. by eapply wave_legal.
  - split; [|done]. change [r; serialised x] with ([r] ++ [serialised x]). rewrite app_assoc. apply legal_snoc; [apply legal_snoc; [done|by eapply wave_legal]|].
    eapply (wave_legal max params done remaining steps); [intros d Hin; by apply succeeded_app, Hd|done|done|exact Hw2].
  - destruct (wave_legal max params done remaining steps (waves ++ [r]) _ _ _ _ _ _ (λ d Hin, succeeded_app _ _ _ (Hd d Hin)) Hs Hr Hw2) as (_ & Hx & Hc).
    change [r; serialised x] with ([r] ++ [serialised x]) in *. rewrite app_assoc in *. apply IH.
    + apply legal_snoc; [apply legal_snoc; [done|by eapply wave_legal]|done].
    + intros d [Hin|Hin]%elem_of_app; [by apply succeeded_app, succeeded_app, Hd|]. by apply all_ok_succeeded.
    + intros s Hin. eauto.
    + intros s Hin. destruct (Ha s Hin) as [Hrem|Hsu]; [|right; by apply succeeded_app, succeeded_app]. destruct (Hc s Hrem) as [|Hid]; [by left|right]. by apply all_ok_succeeded.
  - destruct (wave_legal max params done remaining steps waves _ _ _ _ _ _ Hd Hs Hr Hw) as (Hx & _ & Hc). apply IH.
    + by apply legal_snoc.
    + intros d [Hin|Hin]%elem_of_app; [by apply succeeded_app, Hd|]. by apply all_ok_succeeded.
    + intros s Hin. eauto.
    + intros s Hin. destruct (Ha s Hin) as [Hrem|Hsu]; [|right; by apply succeeded_app]. destruct (Hc s Hrem) as [|Hid]; [by left|right]. by apply all_ok_succeeded.
Qed.
(** C28: In every wave that ran, each step's dependencies had succeeded in earlier
    waves, no two steps declare conflicting claims, and there are no more than
    the cap - one, where the cap is below; and an application that succeeds has
    run every step of the skill successfully. *)
Theorem waves_respect_dependencies max params v w w' res : apply max params v w = (w', Ok (Some res)) →
  legal_waves max (by_id (sv_steps v)) (ap_waves res) ∧ (ap_ok res = true → ∀ s, s ∈ by_id (sv_steps v) → succeeded (ap_waves res) (st_id s)).
Proof.
  intros Ha%loop_ends. eapply ends_legal; [exact Ha| | |done|auto].
  - intros pre r post E. by apply app_cons_not_nil in E.
  - by intros d ?%elem_of_nil.
Qed.

(** *** Rollback *)

(** Whatever invocations keep, a wave keeps. *)
Lemma iterate_keeps (Q : W → Prop) params p w : (∀ t i s c x w, Q w → Q (aw_invoke t i s c x w).1) → Q w → Q (iterate params p w).1.
Proof.
  intros Hi Hq. unfold iterate. match goal with |- context [aw_invoke ?t ?i ?s ?c ?x w] => specialize (Hi t i s c x w Hq); destruct (aw_invoke t i s c x w) as [w1 [r|e]] end; done.
Qed.
Lemma run_on_keeps (Q : W → Prop) fuel params st w : (∀ t i s c x w, Q w → Q (aw_invoke t i s c x w).1) → Q w → Q (run_on fuel params st w).1.
Proof.
  intros Hi. revert st w. induction fuel as [|fuel IH]; intros st w Hq; cbn [run_on]; destruct st as [p|o|e]; try done.
  pose proof (iterate_keeps Q params p w Hi Hq). destruct (iterate params p w). by apply IH.
Qed.
Lemma pool_keeps (Q : W → Prop) fuel params states raised w : (∀ t i s c x w, Q w → Q (aw_invoke t i s c x w).1) → Q w → Q (pool fuel params states raised w).1.
Proof.
  intros Hi. revert states raised w. induction fuel as [|fuel IH]; intros states raised w Hq; cbn [pool]; [done|]. destruct (running_indices states) as [|i0 l0]; [done|].
  destruct (states !! _) as [[p|o|e]|]; try done. pose proof (iterate_keeps Q params p w Hi Hq). destruct (iterate params p w). by apply IH.
Qed.
Lemma wave_keeps (Q : W → Prop) k params outputs steps force w : (∀ t i s c x w, Q w → Q (aw_invoke t i s c x w).1) → Q w → Q (_run_wave k params outputs steps force w).1.
Proof.
  intros Hi Hq. unfold _run_wave, mbind, M_bind. destruct (force || _).
  - assert (Q (run_serial params outputs steps w).1) as Hr; [|by destruct (run_serial params outputs steps w) as [w1 [os|e]]].
    revert w Hq. induction steps as [|s ss IH]; intros w Hq; cbn [run_serial]; [done|].
    pose proof (run_on_keeps Q (iterations s) params (begin_one params outputs s) w Hi Hq). destruct (run_on _ _ _ w) as [w1 [p|o|e]]; try done.
    specialize (IH w1 ltac:(done)). by destruct (run_serial _ _ ss w1) as [w2 [os|e]].
  - unfold run_pool. cbv zeta. match goal with |- context [pool ?f ?p ?st ?r w] => pose proof (pool_keeps Q f p st r w Hi Hq); destruct (pool f p st r w) as [w1 [st' [|e l]]] end; done.
Qed.
(** A world whose snapshots are the [WorkspaceManager]'s of the run, on its
    disk: a snapshot's name is new, tools leave the snapshot store alone, and
    finalizing the transcript leaves the workspace alone. *)
Section Rollback.
Context (to_dir : Tree → list string → bool) (inside : Tree → list string → string → bool)
  (denied : Tree → list string → bool) (same_file : Tree → list string → list string → bool).
Context (disk : W → Disk) (workdir run_id : string).
Definition workspace_of (w : W) : option Tree := dk_dirs (disk w) !! workdir.
Definition rooted (t : Tree) : Prop := t !! [] = None.
Record Workspaced : Prop := {
  ws_snapshot : ∀ k w w' ref, aw_snapshot k w = (w', Ok ref) →
    ∃ now hex8, snapshot to_dir inside now hex8 workdir run_id k (disk w) = Ok (disk w', ref) ∧ dk_snapshots (disk w) !! ref = None;
  ws_invoke : ∀ t i s c x w, dk_snapshots (disk (aw_invoke t i s c x w).1) = dk_snapshots (disk w);
  ws_restore : ∀ ref w w', aw_restore ref w = (w', Ok tt) → restore to_dir inside denied same_file workdir ref (disk w) = Ok (disk w');
  ws_finalize : ∀ w, workspace_of (aw_finalize w).1 = workspace_of w }.
(** C29: An application that returns the failure of a wave has restored the
    workspace from the snapshot taken before that wave, however the wave's
    steps interleaved: every entry is as it was then, except where a restore
    does not bring it back - files of the same size and time, links that are
    not to files inside.  No entry of the workspace is closed to the process
    or hard-linked.  A failed serial retry and an exception are no such
    return. *)
Theorem failed_wave_rolled_back max params v w w' res ref : Workspaced → unlocked denied → no_hard_links same_file →
  apply max params v w = (w', Ok (Some res)) → ap_ok res = false → ap_merge_timeout res = false → ap_transcript res = Some ref →
  ∃ k snap steps outputs r w0 w1 w2 w3, aw_snapshot (1000 + k) w0 = (w1, Ok snap) ∧ _run_wave k params outputs steps false w1 = (w2, Ok r) ∧
    aw_restore snap w2 = (w3, Ok tt) ∧ aw_finalize w3 = (w', Ok ref) ∧ last (ap_waves res) = Some r ∧ forallb outcome_ok (wr_outcomes r) = false ∧
    ∀ t0 t2, workspace_of w0 = Some t0 → closed t0 → workspace_of w2 = Some t2 → rooted t2 →
      ∃ t, workspace_of w' = Some t ∧ ∀ p, t !! p = rolled_back to_dir inside t0 t2 p.
Proof.
  intros HR Ho Hl Ha%loop_ends. revert Ha. generalize (@nil string) (by_id (sv_steps v)) (@nil WaveResult) (∅ : Outputs) 0. intros done remaining waves outputs k Ha.
  induction Ha as [| |done remaining waves outputs k w w1 w2 w3 w' snap r rf why Hne Hr Hsn Hw Hre Hf Ht Hok| | |]; cbn [ap_ok ap_merge_timeout ap_transcript ap_waves]; try done; [|auto..].
  intros _ _ [= ->]. exists k, snap, (choose_wave max (ready_steps done remaining)), outputs, r, w, w1, w2, w3.
  split; [done|]. split; [done|]. split; [done|]. split; [done|]. split; [apply last_snoc|]. split; [done|]. intros t0 t2 E0 Hc E2 Hroot.
  destruct (ws_snapshot HR _ _ _ _ Hsn) as (now & hex8 & Hs & Hfresh). apply snapshot_stores with (w := t0) in Hs as [Hs _]; [|done|done].
  pose proof (wave_keeps (λ w, dk_snapshots (disk w) = dk_snapshots (disk w1)) k params outputs (choose_wave max (ready_steps done remaining)) false w1) as Hk.
  rewrite Hw in Hk. simpl in Hk. specialize (Hk ltac:(intros; by rewrite (ws_invoke HR)) eq_refl).
  pose proof (ws_finalize HR w3) as Hfin. rewrite Hf in Hfin. simpl in Hfin. rewrite Hfin. rewrite <- Hk in Hs.
  destruct (restore_mirrors to_dir inside denied same_file workdir snap (disk w2) (disk w3) _ t2 Ho Hl (ws_restore HR _ _ _ Hre) Hs
    (copied_closed _ _ _ Hc) E2 Hroot) as (t & Et & Hm).
  exists t. split; [done|]. intros p. rewrite Hm. apply mirrored_copied.
Qed.
End Rollback.
Context {A : Type} (content : W → A).
(** C30: A serial retry that fails is not rolled back: the workspace is left as the
    failed retry left it. *)
Theorem serial_failure_keeps_effects max params v w w' res : (∀ w, content (aw_finalize w).1 = content w) → apply max params v w = (w', Ok (Some res)) → ap_merge_timeout res = true →
  ∃ k steps outputs x w3 w4, _run_wave k params outputs steps true w3 = (w4, Ok x) ∧ forallb outcome_ok (wr_outcomes x) = false ∧ content w' = content w4.
Proof.
  intros HR Ha%loop_ends. revert Ha. generalize (@nil string) (by_id (sv_steps v)) (@nil WaveResult) (∅ : Outputs) 0. intros done remaining waves outputs k Ha.
  induction Ha as [| | |done remaining waves outputs k w w1 w2 w3 w4 w' snap r x ref why Hne Hr Hsn Hw Hre Hw2 Ht Hok Hf| |]; cbn [ap_merge_timeout]; try done; [|auto..].
  intros _. exists k, (choose_wave max (ready_steps done remaining)), outputs, x, w3, w4. split; [done|]. split; [done|].
  pose proof (HR w4) as Hfin. by rewrite Hf in Hfin.
Qed.
End Theorems.

(** *** Witnesses *)

Section Witnesses.
(** A workspace that counts, with one snapshot a wave.  The tool [noisy]
    adds one and fails, saying "claim timeout", while the count is under a
    limit. *)
Record Desk := mkDesk { dk_count : Z; dk_calls : Z; dk_saved : option Z; dk_limit : Z }.
#[local] Instance desk_world : ApplyWorld Desk := {|
  aw_invoke := λ tool _ _ _ _ w, let n := dk_count w + 1 in
    (mkDesk n (dk_calls w + 1) (dk_saved w) (dk_limit w),
     Ok (if dk_calls w + 1 <? dk_limit w then tool_result tool false 1 "" (if String.eqb tool "noisy" then "claim timeout in a log" else "boom") else tool_result tool true 0 "" ""));
  aw_snapshot := λ _ w, (mkDesk (dk_count w) (dk_calls w) (Some (dk_count w)) (dk_limit w), Ok "snap");
  aw_restore := λ _ w, (mkDesk (default (dk_count w) (dk_saved w)) (dk_calls w) (dk_saved w) (dk_limit w), Ok tt);
  aw_finalize := λ w, (w, Ok "ref"); aw_pick := λ _ _, 0%nat; aw_str := λ _, ""; aw_timeout_text := "claim timeout: a"; aw_binding_text := "missing bound output" |}.
Definition a_step (id tool : string) (loop : option StepLoop) (bindings : list InputBinding) : Step :=
  mkStep id (Some tool) "do it once" [] [mkStepOutput "out" vt_string from_stdout] bindings false [] loop.
Definition retrying : option StepLoop := Some (mkStepLoop until_no_change None 3).
Definition a_provenance : Provenance := mkSkillProvenance "run" 0 None human_authored None None None None None [] [] [] [] None.
Definition skill_of (steps : list Step) : SkillVersion :=
  mkSkillVersion "s" 1 None "title" "intent" "class" [] scope_run [] [] [] steps [] [] a_provenance (mkHygiene scan_passed None None).
Definition two_steps : SkillVersion := skill_of [a_step "a" "quiet" None []; a_step "b" "quiet" None [mkInputBinding "x" "a" "out"]].
Definition looping : SkillVersion := skill_of [a_step "a" "noisy" retrying []].
(** The loop of [a] fails once with that text and then succeeds: the wave is
    ok, and all of it is taken back and run again. *)
Theorem succeeded_wave_runs_again : ∃ w r x, apply 8 [] looping (mkDesk 0 0 None 2) = (w, Ok (Some (mkApplyResult true [r; x] (Some "ref") None false))) ∧
  forallb outcome_ok (wr_outcomes r) = true ∧ wr_timed_out r = true ∧ dk_calls w = 3.
Proof. eexists _, _, _. by vm_compute. Qed.
Definition ran (v : SkillVersion) (limit : Z) : Desk * result (option ApplyResult) := apply 8 [] v (mkDesk 0 0 None limit).
Lemma waves_respect_dependencies_witness : ∃ w res, ran two_steps 0 = (w, Ok (Some res)) ∧ length (ap_waves res) = 2%nat ∧ legal_waves 8 (by_id (sv_steps two_steps)) (ap_waves res).
Proof.
  destruct (ran two_steps 0) as [w [[res|]|]] eqn:E; try (vm_compute in E; discriminate). exists w, res. split; [done|]. split.
  - vm_compute in E. injection E as _ <-. done.
  - exact (proj1 (waves_respect_dependencies 8 [] two_steps _ w res E)).
Defined.
(** A world on a disk: every tool makes a file and fails. *)
Definition litter : Node := nd_file (mkFile "half done" 3 420).
Definition put_litter (d : Disk) : Disk :=
  match dk_dirs d !! "w" with Some t => d <| dk_dirs := <["w" := <[["litter"] := litter]> t]> (dk_dirs d) |> | None => d end.
Definition disk_snapshot (k : Z) : M Disk string := λ d,
  match snapshot no_dir_links all_inside 0 "0123abcd" "w" "run-1" k d with
  | Ok (d', ref) => if bool_decide (dk_snapshots d !! ref = None) then (d', Ok ref) else (d, Err FileExistsError)
  | Err e => (d, Err e)
  end.
Definition disk_restore (ref : string) : M Disk unit := λ d,
  match restore no_dir_links all_inside all_open one_name "w" ref d with Ok d' => (d', Ok tt) | Err e => (d, Err e) end.
Definition littering : ApplyWorld Disk := {|
  aw_invoke := λ tool _ _ _ _ d, (put_litter d, Ok (tool_result tool false 1 "" "boom"));
  aw_snapshot := disk_snapshot; aw_restore := disk_restore;
  aw_finalize := λ d, (d, Ok "ref"); aw_pick := λ _ _, 0%nat; aw_str := λ _, ""; aw_timeout_text := "claim timeout: a"; aw_binding_text := "missing bound output" |}.
#[export] Instance FileNode_eq_dec : EqDecision FileNode. Proof. solve_decision. Defined.
#[export] Instance Node_eq_dec : EqDecision Node. Proof. solve_decision. Defined.
#[export] Instance Snapshot_eq_dec : EqDecision Snapshot. Proof. solve_decision. Defined.
Lemma littering_workspaced : Workspaced (H := littering) no_dir_links all_inside all_open one_name id "w" "run-1".
Proof.
  split; cbn [aw_snapshot aw_invoke aw_restore aw_finalize littering id].
  - intros k w w' ref. unfold disk_snapshot. destruct (snapshot _ _ _ _ _ _ _ _) as [[d' r]|] eqn:E; [|done]. case_bool_decide as Hf; [|done].
    intros Eq. pose proof (f_equal fst Eq) as E1. pose proof (f_equal snd Eq) as E2. simpl in E1, E2. injection E2 as <-. subst. by exists 0, "0123abcd".
  - intros t i s c x d. unfold aw_invoke, id. simpl. unfold put_litter. by destruct (dk_dirs d !! "w").
  - intros ref w w'. unfold disk_restore. destruct (restore _ _ _ _ _ _ _) as [d'|]; [|done]. intros Eq. apply (f_equal fst) in Eq. simpl in Eq. by subst.
  - done.
Qed.
Definition littered : Disk * result (option ApplyResult) := apply (H := littering) 8 [] two_steps (mkDisk ∅ {["w" := a_tree]}).
Lemma failed_wave_rolled_back_witness : ∃ d res, littered = (d, Ok (Some res)) ∧ ap_ok res = false ∧
  ∃ w0 w2 : Disk, ∀ t0 t2, dk_dirs w0 !! "w" = Some t0 → closed t0 → dk_dirs w2 !! "w" = Some t2 → rooted t2 →
    ∃ t, dk_dirs d !! "w" = Some t ∧ ∀ p, t !! p = rolled_back no_dir_links all_inside t0 t2 p.
Proof.
  destruct littered as [d [[res|]|]] eqn:E; try (vm_compute in E; discriminate). exists d, res. split; [done|].
  assert (ap_ok res = false ∧ ap_merge_timeout res = false ∧ ap_transcript res = Some "ref") as (H1 & H2 & H3) by (vm_compute in E; by injection E as <- <-).
  split; [exact H1|].
  destruct (failed_wave_rolled_back (H := littering) no_dir_links all_inside all_open one_name id "w" "run-1" 8 [] two_steps _ d res "ref"
    littering_workspaced all_unlocked no_twins E H1 H2 H3) as (k & snap & steps & outputs & r & w0 & w1 & w2 & w3 & _ & _ & _ & _ & _ & _ & Hc).
  exists w0, w2. exact Hc.
Defined.
Lemma desk_finalizes (w : Desk) : dk_count (aw_finalize w).1 = dk_count w. Proof. done. Qed.
(** Nothing is left of the first run; the second run's one unit stays. *)
Lemma serial_failure_keeps_effects_witness : ∃ w res, ran (skill_of [a_step "a" "noisy" None []]) 100 = (w, Ok (Some res)) ∧ ap_merge_timeout res = true ∧ dk_count w = 1 ∧
  ∃ w4 : Desk, dk_count w = dk_count w4.
Proof.
  destruct (ran (skill_of [a_step "a" "noisy" None []]) 100) as [w [[res|]|]] eqn:E; try (vm_compute in E; discriminate). exists w, res. split; [done|].
  assert (ap_merge_timeout res = true ∧ dk_count w = 1) as (H1 & H2) by (vm_compute in E; by injection E as <- <-). split; [exact H1|]. split; [exact H2|].
  destruct (serial_failure_keeps_effects dk_count 8 [] _ _ w res desk_finalizes E H1) as (k & steps & outputs & x & w3 & w4 & _ & _ & Hc). by exists w4.
Defined.
End Witnesses.
