(* ===== verification/Engine.v ===== *)
(** * The graph engine (graph/engine.py, graph/hooks.py)

    One hop of a run (node, version guard, route choice, pre-solve snapshot,
    route log, state hops, commit), the loop [_execute] with its step valve and
    pause, and [start] and [resume] under the run lease.  The checkpoint store
    is an interface ([CheckpointStore] with [CheckpointLaws]); the nodes are an
    interface ([Engine], with [Contract] for what the engine relies on).
    Theorems: a chosen route is legal; a run under a contract never asks for an
    illegal route, trips the version guard or meets the step valve, and ends
    with a terminal outcome; a paused run resumes to the same end. *)
From S2P Require Import Prelude Budgets Contracts RouteTable NodeBase HopCommit.
From Stdlib Require Import ZArith Lia.
Open Scope Z_scope.

(** ** Interfaces *)

(** What the engine uses of graph/store.py [CheckpointStore]. *)
Class CheckpointStore (C : Type) := {
  ck_latest_seq : C → string → option Z;
  ck_latest : C → string → result (option (Z * node_name * option node_name * RunState));
  ck_save : C → string → option Z → HopCommit.Hop → result C }.

Class CheckpointLaws (C : Type) `{CheckpointStore C} := {
  latest_defined : ∀ c run found, ck_latest c run = Ok found → ck_latest_seq c run = (λ x, x.1.1.1) <$> found;
  save_latest : ∀ c run tok h c',
    ck_save c run tok h = Ok c' → (∀ q, ck_latest_seq c run = Some q → q < h_seq h) →
    ck_latest c' run = Ok (Some (h_seq h, h_node h, h_next h, h_state h)) }.

(** The orchestrator's collaborators: the node functions, the lease, the
    workspace, the MEA hooks, the clock, and the best-effort observers. *)
Record Engine (W : Type) := mkEngine {
  en_node : node_name → RunState → NodeContext → M W NodeOutcome;   (* NODE_FUNCS *)
  en_context : NodeContext;                                        (* the orchestrator's own services *)
  en_tenant : string;
  en_acquire : string → M W Z;                                     (* RunLease.acquire: the fencing token *)
  en_release : string → M W unit;
  en_heartbeat : M W unit;
  en_cancelled : M W bool;                                         (* CancelHopHook *)
  en_snapshot : string → string → M W string;                      (* workspaces.snapshot *)
  en_bind : RunState → M W (option (bool * option string));        (* mea bind_after_intake *)
  en_audit : RunState → Z → M W (option TrajectoryEvent);          (* mea audit_after_validate *)
  en_now : M W datetime;
  en_events : RunState → RunState → node_name → Z → option route_name → option text → list TrajectoryEvent;
  en_import : string → M W (list TrajectoryEvent);
  en_meta : RunState → string;
  en_sync : RunState → M W unit;                                   (* _sync_trajectory_projection *)
  en_on_finalize : RunState → M W unit;
  en_offload : RunState → M W unit;                                (* _maybe_offload_idle *)
  en_restore : string → M W unit                                   (* _maybe_restore_idle *) }.
Arguments en_node {W}. Arguments en_context {W}. Arguments en_tenant {W}. Arguments en_acquire {W}.
Arguments en_release {W}. Arguments en_heartbeat {W}. Arguments en_cancelled {W}. Arguments en_snapshot {W}.
Arguments en_bind {W}. Arguments en_audit {W}. Arguments en_now {W}. Arguments en_events {W}.
Arguments en_import {W}. Arguments en_meta {W}. Arguments en_sync {W}. Arguments en_on_finalize {W}.
Arguments en_offload {W}. Arguments en_restore {W}.

Definition MAX_GRAPH_STEPS : nat := 500.
Lemma MAX_GRAPH_STEPS_S : MAX_GRAPH_STEPS = S (S 498).
Proof. done. Qed.
Lemma MAX_GRAPH_STEPS_Z : Z.of_nat MAX_GRAPH_STEPS = 500.
Proof. done. Qed.
#[global] Opaque MAX_GRAPH_STEPS.

(** ** [_choose_route] *)

Definition _choose_route (n : node_name) (o : NodeOutcome) : result Route :=
  let legal := legal_routes n (o_state o) in
  match o_route o with
  | Some p => match find_first (λ r, bool_decide (predicate_name r = p)) legal with
              | Some r => Ok r
              | None => Err RoutingError
              end
  | None => match legal with [r] => Ok r | _ => Err RoutingError end
  end.

Section Graph.
  Context {W C : Type} `{CK : CheckpointStore C} (E : Engine W).

(** A run sees the world and the checkpoint store. *)
Notation MW := (M (W * C)).
Definition in_world {A} (m : M W A) : MW A := λ x, let '(w', r) := m x.1 in ((w', x.2), r).
Definition read_store {A} (f : C → A) : MW A := λ x, (x, Ok (f x.2)).
(** The latest row, its state parsed: a state that cannot be read raises. *)
Definition read_latest (run : string) : MW (option (Z * node_name * option node_name * RunState)) := λ x, (x, ck_latest x.2 run).
Definition save_hop (run : string) (tok : option Z) (h : HopCommit.Hop) : MW unit := λ x,
  match ck_save x.2 run tok h with
  | Ok c' => ((x.1, c'), Ok tt)
  | Err e => (x, Err e)
  end.

(** [try: m except Exception: pass] *)
Definition best_effort (m : M W unit) : M W unit := catch m (λ _, mret tt).

(** [_build_node_context] *)
Definition node_context (s : RunState) (attempt : Z) (workdir : string) (sc : option (list string)) : NodeContext :=
  let c := en_context E in
  mkContext (run_id s) attempt workdir sc (has_retriever c) (has_store c) (has_tools c) (has_model c)
    (has_transcripts c) (has_applicator c) (has_episodic c) (has_affordances c) (has_facts c) (has_reviewer c)
    (has_patch_templates c) (deterministic_guide c) (max_criterion_timeout_s c).

(** [_hop_before] with a [CancelHopHook]: only the cancellation propagates. *)
Definition hop_before (s : RunState) : M W unit :=
  catch (en_cancelled E ≫= λ b : bool, if b then raise RunCancelled else mret tt)
    (λ e, if decide (e = RunCancelled) then raise RunCancelled else mret tt).

Definition _ensure_pre_solve_snapshot (s : RunState) (r : Route) (workdir : string) : M W RunState :=
  if negb (bool_decide (target r = N_solve)) || negb (is_nil (workspace_snapshots s)) then mret s
  else
    ref ← en_snapshot E workdir (run_id s);
    mret (s <| workspace_snapshots := [mkSnapshot 0 ref false] |>).

(** [IntakeBindHook] and [ValidateAuditHook]. *)
Definition state_hops (n : node_name) (s : RunState) (attempt : Z) : M W (RunState * list TrajectoryEvent) :=
  s1 ← (if decide (n = N_intake) then
          en_bind E s ≫= λ b : option (bool * option string),
          mret (match b with
                | Some (active, reason) => s <| mea_active := active |> <| mea_fallback_reason := reason |>
                | None => s
                end)
        else mret s);
  if decide (n = N_validate) then
    if mea_active s1 then
      en_audit E s1 attempt ≫= λ e : option TrajectoryEvent,
      mret (s1, match e with Some ev => [ev] | None => [] end)
    else mret (s1, [])
  else mret (s1, []).

Definition _eval_outbox (s : RunState) : option EvalOutboxWrite :=
  match terminal s with
  | None => None
  | Some _ => Some (mkEvalWrite (en_tenant E +:+ "/" +:+ run_id s +:+ "/" +:+ pretty (attempt_no s))
                      (en_tenant E) (run_id s) (attempt_no s) s)
  end.

Definition _commit_hop (tok : option Z) (prior s : RunState) (n : node_name) (next : option node_name) (seq attempt : Z)
    (route : option route_name) (note : option text) (entry : option RouteEntry) (extra : list TrajectoryEvent)
    (ev : option EvalOutboxWrite) : MW unit :=
  imp ← in_world (en_import E (run_id s));
  _ ← save_hop (run_id s) tok (HopCommit.mkHop seq n next s (en_events E prior s n attempt route note ++ extra)
                                 entry [] imp (Some (en_meta E s)) ev);
  in_world (best_effort (en_sync E s)).

Definition reason_of (o : NodeOutcome) (r : Route) : text :=
  match o_note o with
  | Some t => if String.eqb (template t) "" then lit (description r) else t
  | None => lit (description r)
  end.

(** One hop: the state after it and the next node, [None] after [finalize]. *)
Definition hop (tok : option Z) (workdir : string) (sc : option (list string)) (s : RunState) (n : node_name) (seq : Z)
    : MW (RunState * option node_name) :=
  let attempt := if decide (n = N_solve) then attempt_no s + 1 else attempt_no s in
  _ ← in_world (hop_before s);
  o ← in_world (en_node E n s (node_context s attempt workdir sc));
  if max_versions_written (budget (o_state o)) <? s_versions_written (spent (o_state o)) then raise RoutingError
  else if decide (n = N_finalize) then
    _ ← _commit_hop tok s (o_state o) n None seq attempt (o_route o) (o_note o) None [] (_eval_outbox (o_state o));
    _ ← in_world (match terminal (o_state o) with
                  | Some _ => best_effort (en_on_finalize E (o_state o))
                  | None => mret tt
                  end);
    mret (o_state o, None)
  else
    r ← lift (_choose_route n o);
    s1 ← in_world (_ensure_pre_solve_snapshot (o_state o) r workdir);
    at_ ← in_world (en_now E);
    let entry := mkRouteEntry n (predicate_name r) (reason_of o r) attempt at_ in
    x ← in_world (state_hops n (s1 <| route_log := route_log s1 ++ [entry] |>) attempt);
    _ ← _commit_hop tok s x.1 n (Some (target r)) seq attempt (Some (predicate_name r)) (o_note o) (Some entry) x.2 None;
    mret (x.1, Some (target r)).

(** The [while True] loop: [left] counts down from [MAX_GRAPH_STEPS], [pause]
    from [max_steps]. *)
Fixpoint execute_from (left : nat) (tok : option Z) (workdir : string) (sc : option (list string)) (pause : option nat)
    (s : RunState) (n : node_name) (seq : Z) : MW RunState :=
  _ ← in_world (en_heartbeat E);
  match left with
  | O => raise RoutingError
  | S left' =>
      match pause with
      | Some O => _ ← in_world (en_offload E s); mret s
      | _ =>
          hop tok workdir sc s n seq ≫= λ x : RunState * option node_name,
          match x.2 with
          | None => mret x.1
          | Some n' => execute_from left' tok workdir sc (pred <$> pause) x.1 n' (seq + 1)
          end
      end
  end.

Definition _execute (tok : option Z) (workdir : string) (sc : option (list string)) (max_steps : option nat)
    (s : RunState) (n : node_name) (next_seq : option Z) : MW RunState :=
  q ← (match next_seq with
       | Some q => mret q
       | None => read_store (λ c, match ck_latest_seq c (run_id s) with Some q => q + 1 | None => 0 end)
       end);
  execute_from MAX_GRAPH_STEPS tok workdir sc max_steps s n q.

(** [_hold_lease]: the release runs on every way out. *)
Definition with_lease {A} (run : string) (body : option Z → MW A) : MW A := λ x,
  match in_world (en_acquire E run) x with
  | (x1, Err e) => (x1, Err e)
  | (x1, Ok tok) =>
      let '(x2, r) := body (Some tok) x1 in
      match in_world (en_release E run) x2 with
      | (x3, Ok _) => (x3, r)
      | (x3, Err e) => (x3, Err e)
      end
  end.

(** The two phases of [start]: the check, made before the lease is held, and
    the rest. *)
Definition start_check (run : string) : MW unit :=
  q ← read_store (λ c, ck_latest_seq c run);
  match q with Some _ => raise RunIdExistsError | None => mret tt end.

Definition start_body (s0 : RunState) (workdir : string) (sc : option (list string)) (max_steps : option nat) : MW RunState :=
  with_lease (run_id s0) (λ tok, _execute tok workdir sc max_steps s0 N_intake None).

Definition start (s0 : RunState) (workdir : string) (sc : option (list string)) (max_steps : option nat) : MW RunState :=
  _ ← start_check (run_id s0);
  start_body s0 workdir sc max_steps.

(** [resume] on the lease: a no-op on a finished run. *)
Definition resume_body (run workdir : string) (sc : option (list string)) (max_steps : option nat) (tok : option Z) : MW RunState :=
  found ← read_latest run;
  match found with
  | None => raise ValueError
  | Some (seq, _, next, s) =>
      _ ← in_world (best_effort (en_sync E s));
      match next with
      | None => mret s
      | Some n => _ ← in_world (en_restore E run);
                  _execute tok workdir sc max_steps s n (Some (seq + 1))
      end
  end.

Definition resume (run workdir : string) (sc : option (list string)) (max_steps : option nat) : MW RunState :=
  with_lease run (resume_body run workdir sc max_steps).

End Graph.

(** ** Lemmas on one hop *)

Section HopLemmas.
  Context {W C : Type} `{CK : CheckpointStore C} (E : Engine W).

Lemma in_world_Ok {A} (m : M W A) (x x' : W * C) a :
  in_world m x = (x', Ok a) → ∃ w', m x.1 = (w', Ok a) ∧ x' = (w', x.2).
Proof. unfold in_world. destruct (m x.1) as [w' r] eqn:Em. intros [= <- ->]. by exists w'. Qed.

Lemma best_effort_total (m : M W unit) w : ∃ w', best_effort m w = (w', Ok tt).
Proof. unfold best_effort, catch. destruct (m w) as [w' [[]|e]]; by eexists. Qed.

(** [_choose_route] accepts exactly the legal routes, by name. *)
Lemma choose_route_Ok n o r :
  _choose_route n o = Ok r →
  r ∈ legal_routes n (o_state o) ∧ (∀ p, o_route o = Some p → predicate_name r = p).
Proof.
  unfold _choose_route. destruct (o_route o) as [p|].
  - destruct (find_first _ _) as [r'|] eqn:Ef; [|discriminate]. intros [= ->].
    apply find_first_Some in Ef as [Hin Hp]. split; [done|]. intros q [= <-]. by apply bool_decide_eq_true in Hp.
  - destruct (legal_routes n (o_state o)) as [|r' [|]]; try discriminate. intros [= ->]. split; [left|done].
Qed.

Lemma choose_route_legal n o : leaves_legally n o → ∃ r, _choose_route n o = Ok r.
Proof.
  intros (r & Hr & Ho). unfold _choose_route. rewrite Ho.
  destruct (find_first_is_Some (λ q, bool_decide (predicate_name q = predicate_name r)) (legal_routes n (o_state o)))
    as [r' ->]; [|by exists r']. exists r. split; [done|]. by apply bool_decide_eq_true.
Qed.

(** What the engine adds to a node's state before the next one sees it. *)
Definition after_hop (n : node_name) (o : NodeOutcome) (r : Route) (t : RunState) : Prop :=
  ∃ snaps entry active reason,
    t = (o_state o) <| workspace_snapshots := snaps |> <| route_log := route_log (o_state o) ++ [entry] |>
          <| mea_active := active |> <| mea_fallback_reason := reason |> ∧
    re_node entry = n ∧ re_route entry = predicate_name r ∧
    (workspace_snapshots (o_state o) = [] ∨ snaps = workspace_snapshots (o_state o)) ∧
    (target r ≠ N_solve → snaps = workspace_snapshots (o_state o)) ∧
    (target r = N_solve → snaps ≠ []).

Lemma commit_hop_Ok tok prior s n next seq att route note entry extra ev (x x' : W * C) :
  _commit_hop E tok prior s n next seq att route note entry extra ev x = (x', Ok tt) →
  ∃ c' h, ck_save x.2 (run_id s) tok h = Ok c' ∧ x'.2 = c' ∧
    h_seq h = seq ∧ h_node h = n ∧ h_next h = next ∧ h_state h = s ∧ h_route h = entry ∧ h_eval h = ev.
Proof.
  unfold _commit_hop. intros Hx. apply M_bind_Ok in Hx as (imp & x1 & H1 & Hx). apply in_world_Ok in H1 as (w1 & _ & ->).
  apply M_bind_Ok in Hx as ([] & x2 & H2 & Hx). apply in_world_Ok in Hx as (w3 & _ & ->).
  unfold save_hop in H2. simpl in H2. destruct (ck_save _ _ _ _) as [c'|e] eqn:Es; [|discriminate].
  injection H2 as <-. eexists c', _. split; [exact Es|done].
Qed.

Lemma snapshot_Ok s r wd w w' t :
  _ensure_pre_solve_snapshot E s r wd w = (w', Ok t) →
  ∃ snaps, t = s <| workspace_snapshots := snaps |> ∧ (workspace_snapshots s = [] ∨ snaps = workspace_snapshots s) ∧
    (target r ≠ N_solve → snaps = workspace_snapshots s) ∧ (target r = N_solve → snaps ≠ []).
Proof.
  unfold _ensure_pre_solve_snapshot. case_bool_decide as Ht; simpl.
  - destruct (workspace_snapshots s) as [|sn l] eqn:Es; simpl; intros Hx; inv_ok.
    + eexists. split; [reflexivity|]. split_and!; auto; done.
    + exists (sn :: l). split_and!; auto. rewrite <- Es. by destruct s.
  - intros Hx. inv_ok. exists (workspace_snapshots s). split_and!; auto; by destruct s.
Qed.

Lemma state_hops_Ok n s att w w' x :
  state_hops E n s att w = (w', Ok x) →
  ∃ active reason, x.1 = s <| mea_active := active |> <| mea_fallback_reason := reason |>.
Proof.
  unfold state_hops. intros Hx. apply M_bind_Ok in Hx as (s1 & w1 & H1 & Hx).
  assert (x.1 = s1) as ->.
  { destruct (decide (n = N_validate)); [|by inv_ok]. destruct (mea_active s1); by inv_ok. }
  destruct (decide (n = N_intake)).
  - apply M_bind_Ok in H1 as ([[a r]|] & w2 & _ & H1); inv_ok; [by exists a, r|].
    exists (mea_active s), (mea_fallback_reason s). by destruct s.
  - inv_ok. exists (mea_active s), (mea_fallback_reason s). by destruct s.
Qed.

Definition attempt_for (n : node_name) (s : RunState) : Z := if decide (n = N_solve) then attempt_no s + 1 else attempt_no s.

(** A hop that completes: what its node said, the route it took, and the one
    checkpoint it wrote. *)
Lemma hop_Ok tok wd sc s n seq (x x' : W * C) t next :
  hop E tok wd sc s n seq x = (x', Ok (t, next)) →
  ∃ o w1 w2 c' h,
    en_node E n s (node_context E s (attempt_for n s) wd sc) w1 = (w2, Ok o) ∧
    s_versions_written (spent (o_state o)) ≤ max_versions_written (budget (o_state o)) ∧
    ck_save x.2 (run_id t) tok h = Ok c' ∧ x'.2 = c' ∧
    h_seq h = seq ∧ h_node h = n ∧ h_next h = next ∧ h_state h = t ∧
    ((n = N_finalize ∧ next = None ∧ t = o_state o) ∨
     (n ≠ N_finalize ∧ ∃ r, _choose_route n o = Ok r ∧ next = Some (target r) ∧ after_hop n o r t)).
Proof.
  unfold hop. fold (attempt_for n s). intros Hx.
  apply M_bind_Ok in Hx as ([] & x0 & H0 & Hx). apply in_world_Ok in H0 as (w0 & _ & ->).
  apply M_bind_Ok in Hx as (o & x1 & H1 & Hx). apply in_world_Ok in H1 as (w2 & H1 & ->). cbn [fst snd] in *.
  destruct (_ <? _) eqn:Eg; [discriminate|]. apply Z.ltb_ge in Eg. exists o, w0, w2.
  destruct (decide (n = N_finalize)) as [->|Hn].
  - apply M_bind_Ok in Hx as ([] & x2 & H2 & Hx). apply commit_hop_Ok in H2 as (c' & h & Hs & Hc & H3 & H4 & H5 & H6 & _).
    apply M_bind_Ok in Hx as ([] & x3 & H7 & Hx). apply in_world_Ok in H7 as (w3 & _ & ->). inv_ok.
    exists (x2.2), h. simpl. split_and!; try done. by left.
  - apply M_bind_Ok in Hx as (r & x2 & H2 & Hx). apply lift_Ok in H2 as [-> H2].
    apply M_bind_Ok in Hx as (s1 & x3 & H3 & Hx). apply in_world_Ok in H3 as (w3 & H3 & ->).
    apply M_bind_Ok in Hx as (at_ & x4 & H4 & Hx). apply in_world_Ok in H4 as (w4 & _ & ->). cbn [fst snd] in *.
    apply M_bind_Ok in Hx as ([t1 evs] & x5 & H5 & Hx). apply in_world_Ok in H5 as (w5 & H5 & ->).
    apply M_bind_Ok in Hx as ([] & x6 & H6 & Hx). apply commit_hop_Ok in H6 as (c' & h & Hs & Hc & H7 & H8 & H9 & H10 & _).
    inv_ok. exists (x6.2), h. simpl in *. split_and!; try done. right. split; [done|]. exists r. split; [done|]. split; [done|].
    apply snapshot_Ok in H3 as (snaps & -> & Ha & Hb & Hc'). apply state_hops_Ok in H5 as (active & reason & H5).
    simpl in H5. exists snaps, (mkRouteEntry (h_node h) (predicate_name r) (reason_of o r) (attempt_for (h_node h) s) at_), active, reason.
    split_and!; try done.
Qed.
End HopLemmas.

(** ** What the engine relies on *)

(** The node functions under this engine keep an invariant per node, bring a
    rank down with every hop, respect the version cap, and choose legal
    routes except in the listed [stuck] outcomes. *)
Class Contract {W} (E : Engine W) := {
  inv : node_name → RunState → Prop;
  rank : node_name → RunState → nat;
  stuck : node_name → NodeOutcome → Prop;
  final : RunState → Prop;
  ct_run_id : ∀ n s att wd sc w w' o,
    inv n s → en_node E n s (node_context E s att wd sc) w = (w', Ok o) → run_id (o_state o) = run_id s;
  ct_versions : ∀ n s att wd sc w w' o,
    inv n s → en_node E n s (node_context E s att wd sc) w = (w', Ok o) →
    s_versions_written (spent (o_state o)) ≤ max_versions_written (budget (o_state o));
  ct_legal : ∀ n s att wd sc w w' o,
    inv n s → n ≠ N_finalize → en_node E n s (node_context E s att wd sc) w = (w', Ok o) →
    leaves_legally n o ∨ stuck n o;
  ct_next : ∀ n s att wd sc w w' o r t,
    inv n s → n ≠ N_finalize → en_node E n s (node_context E s att wd sc) w = (w', Ok o) →
    _choose_route n o = Ok r → after_hop n o r t → inv (target r) t ∧ (rank (target r) t < rank n s)%nat;
  ct_final : ∀ s att wd sc w w' o,
    inv N_finalize s → en_node E N_finalize s (node_context E s att wd sc) w = (w', Ok o) → final (o_state o) }.

Section Run.
  Context {W C : Type} `{CK : CheckpointStore C} `{CL : !CheckpointLaws C} (E : Engine W) `{CT : !Contract E}.
  Variables (tok : option Z) (wd : string) (sc : option (list string)).

Record Config := mkConfig { cf_x : W * C; cf_state : RunState; cf_node : node_name; cf_seq : Z }.

(** One iteration of the loop that goes on: the heartbeat, then a hop. *)
Inductive step (a : Config) : Config → Prop :=
  | step_hop x1 x2 t n' :
      in_world (en_heartbeat E) (cf_x a) = (x1, Ok tt) →
      hop E tok wd sc (cf_state a) (cf_node a) (cf_seq a) x1 = (x2, Ok (t, Some n')) →
      step a (mkConfig x2 t n' (cf_seq a + 1)).

(** The last checkpoint is the point the run is at. *)
Definition at_checkpoint (run : string) (a : Config) : Prop :=
  ∃ q n0, ck_latest (cf_x a).2 run = Ok (Some (q, n0, Some (cf_node a), cf_state a)) ∧ cf_seq a = q + 1.
Definition unwritten (run : string) (a : Config) : Prop :=
  ∀ q, ck_latest_seq (cf_x a).2 run = Some q → q < cf_seq a.

Lemma saved_latest (x x' : W * C) run t h :
  ck_save x.2 run t h = Ok x'.2 → (∀ q, ck_latest_seq x.2 run = Some q → q < h_seq h) →
  ck_latest x'.2 run = Ok (Some (h_seq h, h_node h, h_next h, h_state h)) ∧ ck_latest_seq x'.2 run = Some (h_seq h).
Proof.
  intros Hs Hq. pose proof (save_latest _ _ _ _ _ Hs Hq) as HL. split; [done|]. by rewrite (latest_defined _ _ _ HL).
Qed.

(** A step keeps the contract and lands on its own checkpoint. *)
Lemma step_keeps a b :
  step a b → inv (cf_node a) (cf_state a) → unwritten (run_id (cf_state a)) a →
  inv (cf_node b) (cf_state b) ∧ (rank (cf_node b) (cf_state b) < rank (cf_node a) (cf_state a))%nat ∧
  run_id (cf_state b) = run_id (cf_state a) ∧ at_checkpoint (run_id (cf_state a)) b ∧ unwritten (run_id (cf_state a)) b ∧
  cf_node a ≠ N_finalize.
Proof.
  intros [x1 x2 t n' Hh Hx] Hi Hu. apply in_world_Ok in Hh as (w1 & _ & ->).
  apply hop_Ok in Hx as (o & w2 & w3 & c' & h & Hn & _ & Hs & Hc & H1 & H2 & H3 & H4 & Hd). cbn [fst snd] in *.
  destruct Hd as [(_ & ? & _)|(Hf & r & Hr & [= ->] & Ht)]; [done|]. simpl.
  destruct (ct_next _ _ _ _ _ _ _ _ _ _ Hi Hf Hn Hr Ht) as [Hi' Hk].
  assert (run_id t = run_id (cf_state a)) as Hid.
  { destruct Ht as (? & ? & ? & ? & -> & _). simpl. by eapply ct_run_id. }
  subst c'. rewrite Hid in Hs. destruct (saved_latest (cf_x a) x2 _ _ _ Hs) as [HL HQ]; [by rewrite H1|].
  split_and!; try done.
  - exists (cf_seq a), (cf_node a). simpl. by rewrite HL, H1, H2, H3, H4.
  - intros q Hq. simpl in Hq |- *. rewrite HQ in Hq. injection Hq as <-. lia.
Qed.

Lemma steps_keep k a b :
  nsteps step k a b → inv (cf_node a) (cf_state a) → unwritten (run_id (cf_state a)) a →
  inv (cf_node b) (cf_state b) ∧ (k + rank (cf_node b) (cf_state b) ≤ rank (cf_node a) (cf_state a))%nat ∧
  run_id (cf_state b) = run_id (cf_state a) ∧ unwritten (run_id (cf_state a)) b ∧
  (k = 0%nat ∨ at_checkpoint (run_id (cf_state a)) b).
Proof.
  induction 1 as [a|k a b c Hab Hbc IH]; intros Hi Hu; [split_and!; try done; by left|].
  apply step_keeps in Hab as (Hi' & Hk & Hid & Hat & Hu' & _); [|done|done].
  rewrite <- Hid in Hu', Hat |- *. destruct (IH Hi' Hu') as (? & ? & ? & ? & Hc). split_and!; try done; [lia|].
  right. destruct Hc as [->|]; [|done]. by inversion Hbc; subst.
Qed.

Definition hop_at (a : Config) : M (W * C) (RunState * option node_name) :=
  hop E tok wd sc (cf_state a) (cf_node a) (cf_seq a).
Definition exec (left : nat) (pause : option nat) (a : Config) : (W * C) * result RunState :=
  execute_from E left tok wd sc pause (cf_state a) (cf_node a) (cf_seq a) (cf_x a).

Lemma exec_config left pause s n q x :
  execute_from E left tok wd sc pause s n q x = exec left pause (mkConfig x s n q).
Proof. done. Qed.

(** How the loop goes: the pause, the end, an error, or a step. *)
Lemma exec_unfold left a :
  exec (S left) None a =
  match in_world (en_heartbeat E) (cf_x a) with
  | (x1, Err e) => (x1, Err e)
  | (x1, Ok _) =>
      match hop_at a x1 with
      | (x2, Err e) => (x2, Err e)
      | (x2, Ok (t, None)) => (x2, Ok t)
      | (x2, Ok (t, Some n')) => exec left None (mkConfig x2 t n' (cf_seq a + 1))
      end
  end.
Proof.
  unfold exec at 1. simpl. unfold mbind, M_bind. destruct (in_world _ _) as [x1 [[]|e]]; [|done].
  fold (hop_at a). destruct (hop_at a x1) as [x2 [[t [n'|]]|e]]; done.
Qed.

Lemma exec_paused left p a :
  exec (S left) (Some (S p)) a =
  match in_world (en_heartbeat E) (cf_x a) with
  | (x1, Err e) => (x1, Err e)
  | (x1, Ok _) =>
      match hop_at a x1 with
      | (x2, Err e) => (x2, Err e)
      | (x2, Ok (t, None)) => (x2, Ok t)
      | (x2, Ok (t, Some n')) => exec left (Some p) (mkConfig x2 t n' (cf_seq a + 1))
      end
  end.
Proof.
  unfold exec at 1. simpl. unfold mbind, M_bind. destruct (in_world _ _) as [x1 [[]|e]]; [|done].
  fold (hop_at a). destruct (hop_at a x1) as [x2 [[t [n'|]]|e]]; done.
Qed.

(** More room than the rank never matters. *)
Lemma exec_room left left' a :
  inv (cf_node a) (cf_state a) → unwritten (run_id (cf_state a)) a →
  (rank (cf_node a) (cf_state a) < left)%nat → (left ≤ left')%nat → exec left None a = exec left' None a.
Proof.
  revert left' a. induction left as [|left IH]; intros left' a Hi Hu Hr Hl; [lia|].
  destruct left' as [|left']; [lia|]. rewrite !exec_unfold.
  destruct (in_world _ _) as [x1 [[]|e]] eqn:E1; [|done].
  destruct (hop_at a x1) as [x2 [[t [n'|]]|e]] eqn:E2; [|done|done].
  destruct (step_keeps a _ (step_hop a _ _ _ _ E1 E2) Hi Hu) as (Hi' & Hk & Hid & _ & Hu' & _).
  simpl in *. rewrite <- Hid in Hu'. apply IH; simpl; [done|done|lia|lia].
Qed.

(** A run that returns went through steps to [finalize]. *)
Lemma exec_ends left a x t :
  inv (cf_node a) (cf_state a) → unwritten (run_id (cf_state a)) a → exec left None a = (x, Ok t) →
  ∃ k b w2 w3 o att, nsteps step k a b ∧ cf_node b = N_finalize ∧ inv N_finalize (cf_state b) ∧
    en_node E N_finalize (cf_state b) (node_context E (cf_state b) att wd sc) w2 = (w3, Ok o) ∧ t = o_state o ∧
    run_id t = run_id (cf_state a) ∧
    ck_latest x.2 (run_id (cf_state a)) = Ok (Some (cf_seq b, N_finalize, None, t)).
Proof.
  revert a. induction left as [|left IH]; intros a Hi Hu Hx.
  - unfold exec in Hx. simpl in Hx. apply M_bind_Ok in Hx as (? & ? & _ & Hx). discriminate.
  - rewrite exec_unfold in Hx. destruct (in_world _ _) as [x1 [[]|e]] eqn:E1; [|discriminate].
    destruct (hop_at a x1) as [x2 [[t' [n'|]]|e]] eqn:E2; [| |discriminate].
    + pose proof (step_hop a _ _ _ _ E1 E2) as Hst. destruct (step_keeps a _ Hst Hi Hu) as (Hi' & _ & Hid & _ & Hu' & _).
      simpl in Hid. rewrite <- Hid in Hu' |- *. destruct (IH _ Hi' Hu' Hx) as (k & b & w2 & w3 & o & att & Hk & Hrest).
      exists (S k), b, w2, w3, o, att. split; [by econstructor|exact Hrest].
    + injection Hx as -> ->. apply in_world_Ok in E1 as (w1 & _ & ->). unfold hop_at in E2.
      apply hop_Ok in E2 as (o & w2 & w3 & c' & h & Hn & _ & Hs & Hc & H1 & H2 & H3 & H4 & Hd). cbn [fst snd] in *.
      destruct Hd as [(Hf & _ & ->)|(_ & r & _ & ? & _)]; [|done].
      assert (run_id (o_state o) = run_id (cf_state a)) as Hid by (by eapply ct_run_id).
      subst c'. rewrite Hid in Hs. destruct (saved_latest (cf_x a) x _ _ _ Hs) as [HL _]; [by rewrite H1|].
      exists 0%nat, a, w2, w3, o, (attempt_for (cf_node a) (cf_state a)). rewrite Hf in *.
      split_and!; try done; [constructor|]. by rewrite HL, H1, H2, H3, H4.
Qed.

End Run.

(** ** Properties of the loop *)

(** Along every run under the contract: each hop brings the rank down, so a
    run of rank [k] makes at most [k] hops before [finalize]; every node state
    satisfies its invariant; no node's outcome trips the version guard; and
    every outcome names a legal route, or is one of the listed stuck ones. *)
Theorem runs_stay_legal {W C} `{CK : CheckpointStore C} `{CL : !CheckpointLaws C} (E : Engine W) `{CT : !Contract E}
    tok wd sc k (a b : Config (W := W) (C := C)) :
  inv (cf_node a) (cf_state a) → unwritten (run_id (cf_state a)) a → nsteps (step E tok wd sc) k a b →
  (k ≤ rank (cf_node a) (cf_state a))%nat ∧ inv (cf_node b) (cf_state b) ∧
  ∀ att w w' o, en_node E (cf_node b) (cf_state b) (node_context E (cf_state b) att wd sc) w = (w', Ok o) →
    s_versions_written (spent (o_state o)) ≤ max_versions_written (budget (o_state o)) ∧
    (cf_node b ≠ N_finalize → (∃ r, _choose_route (cf_node b) o = Ok r) ∨ stuck (cf_node b) o).
Proof.
  intros Hi Hu Hk. destruct (steps_keep E tok wd sc k a b Hk Hi Hu) as (Hi' & Hr & _ & _).
  split; [lia|]. split; [done|]. intros att w w' o Hn. split; [by eapply ct_versions|]. intros Hf.
  destruct (ct_legal _ _ _ _ _ _ _ _ Hi' Hf Hn) as [Hl|Hs]; [left; by apply choose_route_legal|by right].
Qed.

(** A run whose rank is below [MAX_GRAPH_STEPS] never meets the step valve
    (any larger bound gives the same result), and when it returns it has gone
    through [finalize]: the state is final, and it is the last checkpoint,
    with no next node. *)
Theorem run_ends_in_finalize {W C} `{CK : CheckpointStore C} `{CL : !CheckpointLaws C} (E : Engine W) `{CT : !Contract E}
    tok wd sc (a : Config (W := W) (C := C)) :
  inv (cf_node a) (cf_state a) → unwritten (run_id (cf_state a)) a →
  (rank (cf_node a) (cf_state a) < MAX_GRAPH_STEPS)%nat →
  (∀ left, (MAX_GRAPH_STEPS ≤ left)%nat → exec E tok wd sc left None a = exec E tok wd sc MAX_GRAPH_STEPS None a) ∧
  ∀ x t, exec E tok wd sc MAX_GRAPH_STEPS None a = (x, Ok t) →
    final t ∧ ∃ q, ck_latest x.2 (run_id (cf_state a)) = Ok (Some (q, N_finalize, None, t)).
Proof.
  intros Hi Hu Hr. split.
  - intros left Hl. symmetry. by apply (exec_room E tok wd sc).
  - intros x t Hx. destruct (exec_ends E tok wd sc _ _ _ _ Hi Hu Hx)
      as (k & b & w2 & w3 & o & att & Hk & Hf & Hi' & Hn & -> & _ & HL).
    split; [by eapply ct_final|by exists (cf_seq b)].
Qed.


(** [start] refuses a run id with a checkpoint before it takes the lease or
    touches anything; [resume] on a finished run returns its last state and
    writes nothing, and on an unknown run raises [ValueError]. *)
Theorem start_and_resume_guards {W C} `{CK : CheckpointStore C} `{CL : !CheckpointLaws C} (E : Engine W)
    s0 run wd sc ms tok w c :
  (∀ q, ck_latest_seq c (run_id s0) = Some q → start E s0 wd sc ms (w, c) = ((w, c), Err RunIdExistsError)) ∧
  (∀ q n s, ck_latest c run = Ok (Some (q, n, None, s)) → ∃ w', resume_body E run wd sc ms tok (w, c) = ((w', c), Ok s)) ∧
  (ck_latest c run = Ok None → resume_body E run wd sc ms tok (w, c) = ((w, c), Err ValueError)).
Proof.
  split_and!.
  - intros q Hq. unfold start, start_check, read_store, mbind, M_bind. simpl. by rewrite Hq.
  - intros q n s HL. unfold resume_body, read_latest, mbind, M_bind. simpl. rewrite HL.
    destruct (best_effort_total (en_sync E s) w) as [w' Hw]. exists w'. unfold in_world. simpl. by rewrite Hw.
  - intros HL. unfold resume_body, read_latest, mbind, M_bind. simpl. by rewrite HL.
Qed.

(** A loop paused after one hop from [intake] leaves its [intake] checkpoint
    as the latest one. *)
Lemma one_intake_hop {W C} `{CK : CheckpointStore C} `{CL : !CheckpointLaws C} (E : Engine W) `{CT : !Contract E}
    s0 wd sc tok l w c q x t :
  inv N_intake s0 → unwritten (run_id s0) (mkConfig (w, c) s0 N_intake (q + 1)) →
  exec E tok wd sc (S (S l)) (Some 1%nat) (mkConfig (w, c) s0 N_intake (q + 1)) = (x, Ok t) →
  ∃ next', ck_latest x.2 (run_id s0) = Ok (Some (q + 1, N_intake, Some next', t)).
Proof.
  intros Hi Hu Hx. rewrite exec_paused in Hx. destruct (in_world _ _) as [x1 [[]|e]] eqn:E1; [|discriminate].
  destruct (hop_at _ _ _ _ _ x1) as [x2 [[t' [n'|]]|e]] eqn:E2; [| |discriminate].
  - pose proof (step_hop E tok wd sc _ _ _ _ _ E1 E2) as Hst. simpl in *.
    destruct (step_keeps E tok wd sc _ _ Hst Hi Hu) as (_ & _ & _ & (q1 & n1 & HL' & Hq1) & _). simpl in *.
    inversion Hst as [? ? ? ? Ha Hb]; subst.
    unfold exec in Hx. simpl in Hx. unfold mbind, M_bind in Hx.
    destruct (in_world (en_heartbeat E) x2) as [x3 [[]|]] eqn:E3; [|discriminate]. apply in_world_Ok in E3 as (w3 & _ & ->).
    simpl in Hx. destruct (in_world (en_offload E t') _) as [x4 [[]|]] eqn:E4; [|discriminate].
    apply in_world_Ok in E4 as (w4 & _ & ->). injection Hx as <- <-. simpl. exists n'.
    apply in_world_Ok in Ha as (w5 & _ & ->). apply hop_Ok in Hb as (o & ? & ? & c' & h & _ & _ & Hs & Hc & H1 & H2 & H3 & H4 & _).
    cbn [fst snd cf_x cf_state cf_node cf_seq] in *.
    assert (n1 = N_intake ∧ q1 = q + 1) as [-> ->]; [|done]. split; [|lia].
    subst c'. assert (run_id t' = run_id s0) as Hid.
    { by destruct (step_keeps E tok wd sc _ _ Hst Hi Hu) as (_ & _ & ? & _). }
    rewrite Hid in Hs. destruct (saved_latest (w, c) x2 _ _ _ Hs) as [HL2 _]; [by rewrite H1|].
    rewrite HL2 in HL'. congruence.
  - unfold hop_at in E2. apply hop_Ok in E2 as (o & ? & ? & c' & h & _ & _ & _ & _ & _ & _ & _ & _ & [(? & _)|(_ & r & _ & ? & _)]);
      done.
Qed.

Lemma execute_config {W C} `{CK : CheckpointStore C} (E : Engine W) tok wd sc ms s0 n w c q :
  ck_latest_seq c (run_id s0) = Some q →
  _execute E tok wd sc ms s0 n None (w, c) = exec E tok wd sc MAX_GRAPH_STEPS ms (mkConfig (w, c) s0 n (q + 1)).
Proof.
  intros Hq. unfold _execute. generalize MAX_GRAPH_STEPS. intros m. unfold read_store, mbind, M_bind. simpl.
  by rewrite Hq.
Qed.

(** The check of [start] is not under the lease: a start whose check passed
    before another start's first checkpoint goes on to write a second
    [intake] checkpoint after it, in place of the run's progress. *)
Theorem start_check_races {W C} `{CK : CheckpointStore C} `{CL : !CheckpointLaws C} (E : Engine W) `{CT : !Contract E}
    s0 wd sc tok w c q n next s x t :
  inv N_intake s0 → ck_latest c (run_id s0) = Ok (Some (q, n, Some next, s)) →
  _execute E tok wd sc (Some 1%nat) s0 N_intake None (w, c) = (x, Ok t) →
  ∃ next', ck_latest x.2 (run_id s0) = Ok (Some (q + 1, N_intake, Some next', t)).
Proof.
  intros Hi HL Hx. assert (ck_latest_seq c (run_id s0) = Some q) as HQ by (by rewrite (latest_defined _ _ _ HL)).
  rewrite (execute_config E tok wd sc _ s0 N_intake w c q HQ), MAX_GRAPH_STEPS_S in Hx.
  apply (one_intake_hop E s0 wd sc tok 498 w c q x t Hi); [|exact Hx].
  intros q' Hq. simpl in *. rewrite HQ in Hq. injection Hq as <-. lia.
Qed.
