(* ===== verification/Graph.v ===== *)
(** * The fifteen nodes under the engine

    [NODE_FUNCS] (nodes/registry.py) and the discharge of the engine's
    [Contract] by the actual nodes: an invariant per node, a rank, and the
    proof that every hop keeps the one and lowers the other.  The result is
    the run-level guarantee: a run of the fifteen nodes makes at most
    [5 * max_attempts + 10] hops, asks only for legal routes, and ends solved,
    unsolved, abstained or rejected.  The one way it can stop short is a failed
    decomposition at [join].  The checkpoint interface is discharged by
    HopCommit. *)
From S2P Require Import Prelude Budgets Contracts RouteTable NodeBase NodesPlan NodesSolve NodesJudge NodesStore HopCommit Engine.
From Stdlib Require Import ZArith Lia.
Open Scope Z_scope.

Definition NODE_FUNCS {W} (svc : Services W) (n : node_name) : RunState → NodeContext → M W NodeOutcome :=
  match n with
  | N_intake => intake svc
  | N_retrieve => retrieve svc
  | N_plan => plan svc
  | N_fan_out => fan_out svc
  | N_solve => solve svc
  | N_validate => validate svc
  | N_join => join svc
  | N_classify_failure => classify_failure svc
  | N_evolve => evolve svc
  | N_distill => distill svc
  | N_review => review svc
  | N_store => store svc
  | N_record_dead_end => record_dead_end svc
  | N_reject_draft => reject_draft svc
  | N_finalize => finalize
  end.

(** ** The front nodes: what they leave alone *)

(** Everything the invariants read, except the criteria and the strategy. *)
Definition front_frame (s t : RunState) : Prop :=
  run_id t = run_id s ∧ budget t = budget s ∧ spent t = spent s ∧ results t = results s ∧
  merge_audits t = merge_audits s ∧ branches t = branches s ∧ failure_signal t = failure_signal s ∧
  workspace_snapshots t = workspace_snapshots s ∧ route_log t = route_log s.

Section Front.
  Context {W : Type} (svc : Services W).

Lemma intake_Ok s cx w w' o :
  intake svc s cx w = (w', Ok o) → front_frame s (o_state o) ∧ leaves_legally N_intake o.
Proof.
  unfold intake. intros H. apply M_bind_Ok in H as (p & w1 & _ & H). inv_ok. split; [done|].
  eapply leaves_by; [done|]. rewrite legal_edges. left.
Qed.

Lemma retrieve_Ok s cx w w' o :
  retrieve svc s cx w = (w', Ok o) →
  front_frame s (o_state o) ∧ criteria (o_state o) = criteria s ∧ leaves_legally N_retrieve o.
Proof.
  unfold retrieve. destruct (decide (arm s = control)); intros H.
  - apply M_bind_Ok in H as (sid & w1 & _ & H). inv_ok. destruct sid; (split; [done|split; [done|]]);
      (eapply leaves_by; [done|]); rewrite legal_edges; left.
  - apply M_bind_Ok in H as (f & w1 & _ & H). apply M_bind_Ok in H as (b & w2 & _ & H). inv_ok.
    destruct (f.1.2); (split; [done|split; [done|]]); (eapply leaves_by; [done|]); rewrite legal_edges; left.
Qed.

(** The strategies and the routes they go by. *)
Definition planned_route (s : RunState) : option route_name :=
  match strategy s with
  | Some S_abstain => Some abstain
  | Some (S_portfolio | S_decomposition) => Some fan_out_strategy
  | Some _ => Some single_strategy
  | None => None
  end.

Lemma planned_legal o : o_route o = planned_route (o_state o) → is_Some (strategy (o_state o)) → leaves_legally N_plan o.
Proof.
  intros Hr [st Hst]. unfold planned_route in Hr. pose proof (legal_edges N_plan (o_state o)) as He. rewrite Hst in Hr, He.
  destruct st; (eapply leaves_by; [exact Hr|]); rewrite He; left.
Qed.

Lemma plan_Ok s cx w w' o :
  plan svc s cx w = (w', Ok o) →
  front_frame s (o_state o) ∧ criteria (o_state o) = criteria s ∧ leaves_legally N_plan o.
Proof.
  intros H. assert (front_frame s (o_state o) ∧ criteria (o_state o) = criteria s ∧
    o_route o = planned_route (o_state o) ∧ is_Some (strategy (o_state o))) as (? & ? & ? & ?).
  2: { split_and!; try done. by apply planned_legal. }
  unfold plan in H. destruct (_ || _); [by inv_ok|]. destruct (_ || _ || _).
  { destruct (_partition_criteria s None); by inv_ok. }
  destruct (_ || _ || _); [by inv_ok|]. destruct (skills (bundle s)) as [|top rest]; [by inv_ok|].
  unfold plan_skills in H. destruct (match rest with [] => _ | _ => _ end); [by inv_ok|].
  destruct (_ <=?. _); [by inv_ok|]. destruct (_ <=?. _); [|by inv_ok].
  apply M_bind_Ok in H as (g & w1 & _ & H). by inv_ok.
Qed.

(** [fan_out]: refused by the budget, or dispatched with no signal. *)
Definition fan_out_end (s : RunState) (o : NodeOutcome) : Prop :=
  run_id (o_state o) = run_id s ∧ budget (o_state o) = budget s ∧ spent (o_state o) = spent s ∧
  results (o_state o) = results s ∧ merge_audits (o_state o) = merge_audits s ∧ criteria (o_state o) = criteria s ∧
  workspace_snapshots (o_state o) = workspace_snapshots s ∧
  ((∃ sig, failure_signal (o_state o) = Some sig ∧ hint_budget sig = true ∧ branches (o_state o) = branches s ∧
      o_route o = Some pre_dispatch_budget_failure) ∨
   (failure_signal (o_state o) = failure_signal s ∧ o_route o = Some always ∧
      (branches (o_state o) = branches s ∨ Forall attempts_ok (branches (o_state o))))).

Lemma Forall_imap_attempts {A} (f : nat → A → BranchState) l :
  (∀ i x, attempts_ok (f i x)) → Forall attempts_ok (imap f l).
Proof.
  intros Hf. apply Forall_lookup. intros i b. rewrite list_lookup_imap.
  destruct (l !! i); simpl; [intros [= <-]; apply Hf|done].
Qed.

Lemma fan_out_Ok s cx w w' o : fan_out svc s cx w = (w', Ok o) → fan_out_end s o.
Proof.
  unfold fan_out. destruct (strategy_in _ s); simpl; intros H.
  2: { inv_ok. unfold fan_out_end. simpl. split_and!; auto. }
  apply M_bind_Ok in H as (child & w1 & _ & H). apply M_bind_Ok in H as (per & w2 & _ & H).
  apply M_bind_Ok in H as (req & w3 & _ & H). destruct (budget_excess _ _ _ _).
  { unfold signal in H. inv_ok. unfold fan_out_end. simpl. split_and!; try done. left. by eexists. }
  assert (∀ bs, Forall attempts_ok bs → dispatch svc s bs req w3 = (w', Ok o) → fan_out_end s o) as K.
  { intros bs Hb Hd. apply dispatch_Ok in Hd as [Hr Hst]. unfold fan_out_end. rewrite Hst. simpl.
    split_and!; try done. right. auto. }
  destruct (strategy_in [S_portfolio] s); [eapply K; [|exact H]; by apply Forall_imap_attempts|].
  destruct (_partition_criteria s _) as [parts|]; [eapply K; [|exact H]; by apply Forall_imap_attempts|].
  inv_ok. unfold fan_out_end. simpl. split_and!; try done. right. split_and!; try done. right. constructor.
Qed.

Lemma fan_out_legal s o : failure_signal s = None → fan_out_end s o → leaves_legally N_fan_out o.
Proof.
  intros Hs (_ & _ & _ & _ & _ & _ & _ & [(sig & Hsig & _ & _ & Hr)|(Hsig & Hr & _)]);
    (eapply leaves_by; [exact Hr|]); rewrite legal_edges; unfold _failure_signal_present; rewrite Hsig, ?Hs; left.
Qed.
End Front.

(** ** The invariant of each node *)

Definition ids_distinct (s : RunState) : Prop := NoDup (map c_id (criteria s)).
Definition has_snapshot (s : RunState) : Prop := workspace_snapshots s ≠ [].

(** Nothing has been attempted yet. *)
Definition fresh (s : RunState) : Prop :=
  results s = [] ∧ branches s = [] ∧ merge_audits s = [] ∧ failure_signal s = None.

(** No version is written before [store], and one may be. *)
Definition unversioned (s : RunState) : Prop :=
  s_versions_written (spent s) = 0 ∧ 1 ≤ max_versions_written (budget s).

(** The merge audits of a run are complete, unless a branch is missing. *)
Definition audits_ok (s : RunState) : Prop := forallb is_complete (merge_audits s) = true ∨ missing_of s ≠ [].

(** A run with an attempt behind it. *)
Definition attempted (s : RunState) : Prop :=
  ids_distinct s ∧ unversioned s ∧ _has_invalid_sensitivity_proof s = false ∧ audits_ok s ∧ has_snapshot s ∧ no_dispatched s.

(** The predecessor that leads to a terminal outcome. *)
Definition ended (s : RunState) : Prop :=
  ∃ e, last (route_log s) = Some e ∧ _TERMINAL_BY_PREDECESSOR (re_node e) ≠ T_error.

(** The criteria [intake] settles on have distinct ids. *)
Definition settles_distinct {W} (svc : Services W) (E : Engine W) (s : RunState) : Prop :=
  ∀ att wd sc w w' o, intake svc s (node_context E s att wd sc) w = (w', Ok o) → ids_distinct (o_state o).

Definition graph_inv {W} (svc : Services W) (E : Engine W) (n : node_name) (s : RunState) : Prop :=
  match n with
  | N_intake => fresh s ∧ unversioned s ∧ settles_distinct svc E s
  | N_retrieve | N_plan | N_fan_out => fresh s ∧ unversioned s ∧ ids_distinct s
  | N_solve => ids_distinct s ∧ unversioned s ∧ _has_invalid_sensitivity_proof s = false ∧ has_snapshot s ∧
      audits_ok s ∧ (no_dispatched s ∨ (Forall attempts_ok (branches s) ∧ merge_audits s = []))
  | N_validate | N_join => attempted s
  | N_evolve => attempted s ∧ s_attempts (spent s) < max_attempts (budget s)
  | N_classify_failure => ids_distinct s ∧ unversioned s ∧ _has_invalid_sensitivity_proof s = false ∧
      ∃ sig, failure_signal s = Some sig ∧ (attempted s ∨ hint_budget sig = true)
  | N_distill | N_review | N_store | N_reject_draft | N_record_dead_end => unversioned s
  | N_finalize => s_versions_written (spent s) ≤ max_versions_written (budget s) ∧ ended s
  end.

(** Attempts left, and hops left. *)
Definition attempts_left (s : RunState) : nat := Z.to_nat (max_attempts (budget s) - s_attempts (spent s)).
Definition graph_rank (n : node_name) (s : RunState) : nat :=
  let a := attempts_left s in
  match n with
  | N_finalize => 0
  | N_store | N_reject_draft | N_record_dead_end => 1
  | N_review => 2
  | N_distill => 3
  | N_classify_failure => 5 * a + 3
  | N_join => 5 * a + 4
  | N_validate => 5 * a + 5
  | N_evolve => 5 * a + 2
  | N_solve => 5 * (a - 1) + 6
  | N_fan_out => 5 * a + 7
  | N_plan => 5 * a + 8
  | N_retrieve => 5 * a + 9
  | N_intake => 5 * a + 10
  end%nat.

(** A decomposition that failed before scoring, on results that pass. *)
Definition failed_merge (n : node_name) (o : NodeOutcome) : Prop :=
  n = N_join ∧ o_route o = Some otherwise ∧ _required_criteria_pass (o_state o) = true ∧
  ∃ a l, merge_audits (o_state o) = l ++ [a] ∧ action a = audit_failed.

Definition terminal_decided (s : RunState) : Prop := ∃ t, terminal s = Some t ∧ t ≠ T_error.

(** ** What the engine's additions change *)

Lemma after_hop_frame n o r t :
  after_hop n o r t →
  let s := o_state o in
  run_id t = run_id s ∧ budget t = budget s ∧ spent t = spent s ∧ results t = results s ∧ criteria t = criteria s ∧
  merge_audits t = merge_audits s ∧ branches t = branches s ∧ failure_signal t = failure_signal s ∧
  (∃ e, route_log t = route_log s ++ [e] ∧ re_node e = n) ∧
  (has_snapshot s → has_snapshot t) ∧ (target r = N_solve → has_snapshot t) ∧
  (target r ≠ N_solve → workspace_snapshots t = workspace_snapshots s).
Proof.
  intros (snaps & e & active & reason & -> & He & _ & Ha & Hb & Hc). simpl. unfold has_snapshot. simpl.
  split_and!; try done; [by exists e|]. intros Hs. by destruct Ha as [?| ->].
Qed.

Lemma invalid_ext s t : results t = results s → criteria t = criteria s →
  _has_invalid_sensitivity_proof t = _has_invalid_sensitivity_proof s.
Proof. unfold _has_invalid_sensitivity_proof, failed_ids. by intros -> ->. Qed.

Lemma invalid_fresh s : results s = [] → _has_invalid_sensitivity_proof s = false.
Proof.
  unfold _has_invalid_sensitivity_proof, failed_ids. intros ->. apply not_true_iff_false. rewrite existsb_exists.
  intros (c & _ & Hc). apply andb_true_iff in Hc as [Hc _]. apply andb_true_iff in Hc as [Hc _].
  apply bool_decide_eq_true in Hc. inversion Hc.
Qed.

Lemma audits_ext s t : merge_audits t = merge_audits s → branches t = branches s → audits_ok s → audits_ok t.
Proof. unfold audits_ok, missing_of. by intros -> ->. Qed.

Lemma ended_after n t l e : route_log t = l ++ [e] → re_node e = n → _TERMINAL_BY_PREDECESSOR n ≠ T_error → ended t.
Proof. intros Hl He Hn. exists e. rewrite Hl, last_snoc. split; [done|]. by rewrite He. Qed.

(** Targets of the edges, from the route table. *)
Lemma edge_elem r l : r ∈ l → (predicate_name r, target r) ∈ map edge l.
Proof. intros Hr. by apply (list_elem_of_fmap_2 edge). Qed.

Lemma target_edges n o r : _choose_route n o = Ok r → ∃ p, (p, target r) ∈ map edge (legal_routes n (o_state o)).
Proof.
  intros Hr. apply choose_route_Ok in Hr as [Hin _]. exists (predicate_name r). by apply edge_elem.
Qed.

Lemma target_of n o r p : _choose_route n o = Ok r → o_route o = Some p →
  (p, target r) ∈ map edge (legal_routes n (o_state o)).
Proof. intros Hr Hp. apply choose_route_Ok in Hr as [Hin Hn]. rewrite <- (Hn p Hp). by apply edge_elem. Qed.

(** Resolve [target r] from the list of legal edges. *)
Ltac known_target Hr :=
  let p := fresh "p" in let Ht := fresh "Ht" in
  destruct (target_edges _ _ _ Hr) as [p Ht]; rewrite legal_edges in Ht.

Lemma same_tags bs bs' : map tag bs = map tag bs' →
  Forall (λ b, b_status b ≠ dispatched) bs → Forall (λ b, b_status b ≠ dispatched) bs'.
Proof.
  revert bs'. induction bs as [|b bs IH]; intros [|b' bs'] E HF; try discriminate; constructor; simpl in E;
    inversion HF; subst; injection E; intros; [congruence|eauto].
Qed.

Lemma same_tags_missing s t : map tag (branches s) = map tag (branches t) → missing_of s = missing_of t.
Proof.
  unfold missing_of, arrived, has_status. generalize (branches s) (branches t). intros bs.
  induction bs as [|b bs IH]; intros [|b' bs'] E; try discriminate; [done|]. simpl in E. injection E. intros E1 E2 E3.
  simpl. rewrite E2. specialize (IH _ E1). destruct (bool_decide _); simpl; congruence.
Qed.

Section Contract.
  Context {W : Type} (svc : Services W) (E : Engine W).
  Hypothesis nodes : ∀ n, en_node E n = NODE_FUNCS svc n.
  Hypothesis scorer : scorer_names_criteria svc.
  Hypothesis authoring : authoring_decides svc.

Local Notation ginv := (graph_inv svc E).
Local Notation cx := (λ s att wd sc, node_context E s att wd sc).

Lemma front_next s o t (r : Route) n :
  fresh s → unversioned s → front_frame s (o_state o) → after_hop n o r t → ids_distinct (o_state o) →
  fresh t ∧ unversioned t ∧ ids_distinct t ∧ attempts_left t = attempts_left s ∧
  _has_invalid_sensitivity_proof t = false.
Proof.
  intros (F1 & F2 & F3 & F4) (U1 & U2) (K1 & K2 & K3 & K4 & K5 & K6 & K7 & K8 & K9) Ha Hi.
  apply after_hop_frame in Ha as (A1 & A2 & A3 & A4 & A5 & A6 & A7 & A8 & _).
  unfold fresh, unversioned, ids_distinct, attempts_left in *. rewrite A2, A3, A4, A5, A6, A7, A8, K2, K3, K4, K5, K6, K7.
  split_and!; try done. apply invalid_fresh. by rewrite A4, K4.
Qed.

Lemma intake_next s att wd sc w w' o r t :
  ginv N_intake s → intake svc s (cx s att wd sc) w = (w', Ok o) → _choose_route N_intake o = Ok r →
  after_hop N_intake o r t → ginv (target r) t ∧ (graph_rank (target r) t < graph_rank N_intake s)%nat.
Proof.
  intros (Hf & Hv & Hset) H Hr Ha. pose proof (Hset _ _ _ _ _ _ H) as Hi. apply intake_Ok in H as [Hk _].
  known_target Hr. apply list_elem_of_singleton in Ht as [= _ ->].
  destruct (front_next _ _ _ _ _ Hf Hv Hk Ha Hi) as (? & ? & ? & Hl & _). simpl. rewrite Hl. split; [done|lia].
Qed.

Lemma retrieve_next s att wd sc w w' o r t :
  ginv N_retrieve s → retrieve svc s (cx s att wd sc) w = (w', Ok o) → _choose_route N_retrieve o = Ok r →
  after_hop N_retrieve o r t → ginv (target r) t ∧ (graph_rank (target r) t < graph_rank N_retrieve s)%nat.
Proof.
  intros (Hf & Hv & Hi) H Hr Ha. apply retrieve_Ok in H as (Hk & Hc & _).
  known_target Hr. apply list_elem_of_singleton in Ht as [= _ ->].
  destruct (front_next _ _ _ _ _ Hf Hv Hk Ha) as (? & ? & ? & Hl & _); [by unfold ids_distinct; rewrite Hc|].
  simpl. rewrite Hl. split; [done|lia].
Qed.

Lemma plan_next s att wd sc w w' o r t :
  ginv N_plan s → plan svc s (cx s att wd sc) w = (w', Ok o) → _choose_route N_plan o = Ok r →
  after_hop N_plan o r t → ginv (target r) t ∧ (graph_rank (target r) t < graph_rank N_plan s)%nat.
Proof.
  intros (Hf & Hv & Hi) H Hr Ha. apply plan_Ok in H as (Hk & Hc & _).
  destruct (front_next _ _ _ _ _ Hf Hv Hk Ha) as (Hf' & [Hv1 Hv2] & Hi' & Hl & Hp); [by unfold ids_distinct; rewrite Hc|].
  apply after_hop_frame in Ha as (_ & _ & _ & _ & _ & _ & _ & _ & (e & Hlog & He) & _ & Hsn & _).
  known_target Hr. destruct Hf' as (F1 & F2 & F3 & F4).
  assert (target r = N_finalize ∨ target r = N_fan_out ∨ target r = N_solve) as [Et|[Et|Et]].
  { destruct (strategy (o_state o)) as [[]|]; try (inversion Ht; fail); apply list_elem_of_singleton in Ht; injection Ht; auto. }
  - rewrite Et. simpl. split; [|lia]. split; [lia|]. eapply ended_after; [exact Hlog|exact He|done].
  - rewrite Et. simpl. rewrite Hl. split; [done|lia].
  - rewrite Et in *. simpl. rewrite Hl. split; [|lia]. split_and!; try done; [by apply Hsn| |].
    + left. by rewrite F3.
    + left. unfold no_dispatched. rewrite F2. constructor.
Qed.

Lemma fan_out_next s att wd sc w w' o r t :
  ginv N_fan_out s → fan_out svc s (cx s att wd sc) w = (w', Ok o) → _choose_route N_fan_out o = Ok r →
  after_hop N_fan_out o r t → ginv (target r) t ∧ (graph_rank (target r) t < graph_rank N_fan_out s)%nat.
Proof.
  intros ((F1 & F2 & F3 & F4) & Hv & Hi) H Hr Ha. apply fan_out_Ok in H as (_ & K2 & K3 & K4 & K5 & K6 & _ & Hend).
  apply after_hop_frame in Ha as (_ & A2 & A3 & A4 & A5 & A6 & A7 & A8 & _ & _ & Hsn & _).
  assert (attempts_left t = attempts_left s) as Hl by (unfold attempts_left; by rewrite A2, A3, K2, K3).
  assert (ids_distinct t ∧ unversioned t) as [Hi' Hv'].
  { unfold ids_distinct, unversioned in *. by rewrite A2, A3, A5, K2, K3, K6. }
  assert (_has_invalid_sensitivity_proof t = false) as Hp by (apply invalid_fresh; by rewrite A4, K4).
  known_target Hr. unfold _failure_signal_present in Ht.
  destruct Hend as [(sig & Hs & Hh & Hb & _)|(Hs & _ & Hb)]; rewrite Hs in Ht; rewrite ?F4 in Ht;
    apply list_elem_of_singleton in Ht as [= _ Et]; rewrite Et in *; simpl; rewrite Hl; (split; [|lia]).
  - split_and!; try done. exists sig. rewrite A8. auto.
  - split_and!; try done; [by apply Hsn|left; by rewrite A6, K5, F3|]. unfold no_dispatched. rewrite A6, A7, K5, F3.
    destruct Hb as [->|]; [left; rewrite F2; constructor|auto].
Qed.

Lemma solve_next s att wd sc w w' o r t :
  ginv N_solve s → solve svc s (cx s att wd sc) w = (w', Ok o) → _choose_route N_solve o = Ok r →
  after_hop N_solve o r t → ginv (target r) t ∧ (graph_rank (target r) t < graph_rank N_solve s)%nat.
Proof.
  intros (Hi & Hv & Hp & Hsn & Hau & Hd) H Hr Ha.
  apply solve_closed in H as ((n & Hn & _ & Hs & Hf & Hroute) & Hnd & Hsame); [|by destruct Hd as [|[? _]]].
  destruct Hf as (G0 & G1 & G2 & G3 & G4 & G5 & G6 & G7 & G8 & G9 & G10 & G11 & G12).
  apply after_hop_frame in Ha as (_ & A2 & A3 & A4 & A5 & A6 & A7 & A8 & _ & Hk & _).
  assert (attempts_left t ≤ attempts_left s - 1)%nat as Hl by (unfold attempts_left; rewrite A2, A3, Hs, G1; lia).
  assert (_has_invalid_sensitivity_proof t = false) as Hp' by (rewrite (invalid_ext s t); congruence).
  assert (attempted t) as Hat.
  { unfold attempted, ids_distinct, unversioned in *. rewrite A2, A3, A5, G1, G4, G12. split_and!; try done; [tauto|tauto| | |].
    - destruct Hd as [Hd|[_ Hm]]; [|left; by rewrite A6, G9, Hm]. apply (audits_ext s); [congruence| |done].
      rewrite A7. by apply Hsame.
    - apply Hk. unfold has_snapshot in *. by rewrite G6.
    - unfold no_dispatched. by rewrite A7. }
  destruct Hroute as [[Hro [sig Hsig]]|(Hro & Hsig & [tr Htr])];
    pose proof (target_of _ _ _ _ Hr Hro) as Ht; rewrite legal_edges in Ht;
    unfold _failure_signal_present, has_transcript in Ht; rewrite Hsig, ?Htr in Ht;
    apply list_elem_of_singleton in Ht as [= Et]; rewrite Et; simpl; (split; [|lia]).
  - pose proof Hat as (? & ? & _). split_and!; try done. exists sig. split; [congruence|by left].
  - done.
Qed.

(** After a score, whatever was recorded is sound. *)
Lemma scored_state s t rs raws b :
  attempted s → scored_by svc (criteria s) rs b raws → results t = rs → criteria t = criteria s →
  spent t = spent s → budget t = budget s → has_snapshot t → no_dispatched t → audits_ok t → attempted t.
Proof.
  intros (Hi & Hv & _) Hs Hr Hc H1 H2 H3 H4 H5. unfold attempted, ids_distinct, unversioned in *. rewrite Hc, H1, H2.
  split_and!; try done; [tauto|tauto|]. rewrite <- Hc in Hs, Hi. by eapply scored_no_invalid_proof.
Qed.

Lemma validate_next s att wd sc w w' o r t :
  ginv N_validate s → validate svc s (cx s att wd sc) w = (w', Ok o) → _choose_route N_validate o = Ok r →
  after_hop N_validate o r t → ginv (target r) t ∧ (graph_rank (target r) t < graph_rank N_validate s)%nat.
Proof.
  intros Hat H Hr Ha. apply validate_Ok in H as (rs & raws & sig & obs & Hs & _ & Hst & Hro).
  apply after_hop_frame in Ha as (_ & A2 & A3 & A4 & A5 & A6 & A7 & A8 & _ & Hk & _). rewrite Hst in *. simpl in *.
  assert (attempted t) as Hat'.
  { pose proof Hat as (_ & _ & _ & Hau & Hsn & Hnd). eapply scored_state; try done; [by apply Hk|by unfold no_dispatched; rewrite A7|].
    by apply (audits_ext s). }
  assert (attempts_left t = attempts_left s) as Hl by (unfold attempts_left; by rewrite A2, A3).
  pose proof (target_of _ _ _ _ Hr Hro) as Ht. rewrite legal_edges, has_branches_nil, Hst in Ht. simpl in Ht.
  unfold validate_route in Ht. pose proof Hat' as (? & Hv & ? & _).
  destruct (is_nil (branches s)); simpl in Ht; [|apply list_elem_of_singleton in Ht as [= Et]; rewrite Et; simpl; rewrite Hl; split; [done|lia]].
  destruct sig as [x|]; unfold no_signal, _failure_signal_present in Ht; simpl in Ht;
    [rewrite andb_false_r in Ht; apply list_elem_of_singleton in Ht as [= Et]|];
    [rewrite Et; simpl; rewrite Hl; split; [|lia]; split_and!; try done; exists x; by auto|].
  destruct (_ && _) in Ht; apply list_elem_of_singleton in Ht; [|discriminate]. injection Ht as Et.
  rewrite Et. simpl. split; [done|lia].
Qed.

Lemma join_next s att wd sc w w' o r t :
  ginv N_join s → join svc s (cx s att wd sc) w = (w', Ok o) → _choose_route N_join o = Ok r →
  after_hop N_join o r t → ginv (target r) t ∧ (graph_rank (target r) t < graph_rank N_join s)%nat.
Proof.
  intros Hat H Hr Ha. apply join_Ok in H.
  apply after_hop_frame in Ha as (_ & A2 & A3 & A4 & A5 & A6 & A7 & A8 & _ & Hk & _).
  pose proof Hat as (Hi & Hv & Hp & Hau & Hsn & Hnd).
  assert (untouched s (o_state o)) as (_ & U1 & U2 & U3 & _).
  { destruct H as [[_ Hg]|[_ [[Hf|Hsc] _]]];
      [destruct Hg as (?&?&?&?&?&?&?&?&?&?&?)|destruct Hf as (?&?&?&?&?&?&?&?&?&?&?)|destruct Hsc as (?&?&?&?&?&?&?&?&?&?&?&?&?)]; done. }
  assert (has_snapshot t) as Hsn' by (apply Hk; unfold has_snapshot in *; by rewrite U3).
  assert (attempts_left t = attempts_left s) as Hl by (unfold attempts_left; by rewrite A2, A3, U1, U2).
  assert (attempted t ∧ (o_route o = Some otherwise → is_Some (failure_signal (o_state o))) ∧
    (o_route o = Some otherwise ∨ o_route o = Some merge_complete_and_passing)) as (Hat' & Hsig & Hro).
  { destruct H as [[Hm Hg]|[Hm [[Hf|Hsc] Htag]]].
    - destruct Hg as (a & sg & _ & _ & Hs' & _ & Hro & Hres & Hcr & Hbr & _). split_and!; [|by rewrite Hs'; eexists|by left].
      unfold attempted, ids_distinct, unversioned, no_dispatched in *. rewrite A2, A3, A5, A7, U1, U2, Hcr, Hbr.
      split_and!; try done; [tauto|tauto|rewrite (invalid_ext s t); [done|congruence|congruence]|].
      right. unfold missing_of. by rewrite A7, Hbr.
    - destruct Hf as (a & sg & Hco & _ & Hma & Hs' & Hro & Hres & Hcr & Hbr & _). split_and!; [|by rewrite Hs'; eexists|by left].
      unfold attempted, ids_distinct, unversioned, no_dispatched in *. rewrite A2, A3, A5, A7, U1, U2, Hcr, Hbr.
      split_and!; try done; [tauto|tauto|rewrite (invalid_ext s t); [done|congruence|congruence]|].
      left. rewrite A6, Hma, forallb_snoc, Hco. destruct Hau as [->|]; done.
    - destruct Hsc as (a & Hco & _ & rs & raws & sg & Hs & _ & Hcr & Hres & Hs' & _ & Hma & Hro). split_and!.
      + eapply scored_state; try exact Hs; try done; try congruence.
        * unfold no_dispatched in *. rewrite A7. by eapply same_tags.
        * left. rewrite A6, Hma, forallb_snoc, Hco. destruct Hau as [->|]; done.
      + rewrite Hro. unfold join_route. rewrite Hs'. destruct sg; [by eexists|discriminate].
      + rewrite Hro. unfold join_route. destruct (failure_signal (o_state o)); auto. }
  pose proof Hat' as (? & Hv' & ? & _). known_target Hr. destruct Hro as [Hro|Hro];
    pose proof (target_of _ _ _ _ Hr Hro) as Ht'; rewrite legal_edges in Ht';
    destruct (_join_complete_and_passing (o_state o)); apply list_elem_of_singleton in Ht'; try discriminate; injection Ht' as Et;
    rewrite Et; simpl; rewrite ?Hl; (split; [|lia]); [|done].
  destruct (Hsig Hro) as [sg Hsg]. split_and!; try done. exists sg. rewrite A8. auto.
Qed.

Lemma classify_Ok s c w w' o :
  classify_failure svc s c w = (w', Ok o) →
  ∃ sig v w1, failure_signal s = Some sig ∧ failure_verdict svc s c sig w = (w1, Ok v) ∧
    o_state o = s <| failure := Some v |> ∧ leaves_legally N_classify_failure o.
Proof.
  unfold classify_failure. destruct (failure_signal s) as [sig|]; [|discriminate]. intros H.
  apply M_bind_Ok in H as (v & w1 & Hv & H). apply M_bind_Ok in H as ([] & w2 & _ & H). exists sig, v, w1.
  split; [done|]. split; [done|]. destruct (legal_routes N_classify_failure (s <| failure := Some v |>)) as [|r [|]] eqn:El; try discriminate.
  inv_ok. split; [done|]. exists r. split; [|done]. cbn [o_state]. rewrite El. left.
Qed.

Lemma hinted_budget s c sig w w' v :
  hint_budget sig = true → failure_verdict svc s c sig w = (w', Ok v) → failure_class v = F_budget.
Proof. intros Hh. unfold failure_verdict. rewrite Hh. simpl. intros H. by inv_ok. Qed.

Lemma classify_next s att wd sc w w' o r t :
  ginv N_classify_failure s → classify_failure svc s (cx s att wd sc) w = (w', Ok o) →
  _choose_route N_classify_failure o = Ok r → after_hop N_classify_failure o r t →
  ginv (target r) t ∧ (graph_rank (target r) t < graph_rank N_classify_failure s)%nat.
Proof.
  intros (Hi & Hv & Hp & sig & Hsig & Hh) H Hr Ha. apply classify_Ok in H as (sig' & v & w1 & Hsig' & Hver & Hst & _).
  assert (sig' = sig) as -> by congruence.
  apply after_hop_frame in Ha as (_ & A2 & A3 & A4 & A5 & A6 & A7 & A8 & _ & Hk & _). rewrite Hst in *. simpl in *.
  assert (attempts_left t = attempts_left s) as Hl by (unfold attempts_left; by rewrite A2, A3).
  assert (unversioned t) as Hv' by (unfold unversioned in *; by rewrite A2, A3).
  known_target Hr. rewrite Hst in Ht. unfold _budget_remains_with_progress in Ht. simpl in Ht.
  assert (target r = N_record_dead_end ∨ (target r = N_evolve ∧ failure_class v ≠ F_budget ∧ s_attempts (spent s) < max_attempts (budget s)))
    as [Et|(Et & Hb & Hlt)].
  { destruct (decide _) as [|Nb]; [apply list_elem_of_singleton in Ht; injection Ht; auto|].
    destruct (Z.leb_spec (max_attempts (budget s)) (s_attempts (spent s)));
      [apply list_elem_of_singleton in Ht; injection Ht; auto|].
    destruct (last_two_equal _) in Ht; apply list_elem_of_singleton in Ht; injection Ht; [auto|]. intros; right. tauto. }
  - rewrite Et. simpl. split; [done|lia].
  - rewrite Et. simpl. rewrite Hl, A2, A3. split; [|lia]. split; [|done].
    destruct Hh as [Hat|Hh]; [|by apply (hinted_budget s _ sig) in Hver].
    destruct Hat as (_ & _ & _ & Hau & Hsn & Hnd). unfold attempted, ids_distinct, no_dispatched in *. rewrite A5, A7.
    split_and!; try done; [by rewrite (invalid_ext s t)|by apply (audits_ext s)|by apply Hk].
Qed.

Lemma evolve_next s att wd sc w w' o r t :
  ginv N_evolve s → evolve svc s (cx s att wd sc) w = (w', Ok o) → _choose_route N_evolve o = Ok r →
  after_hop N_evolve o r t → ginv (target r) t ∧ (graph_rank (target r) t < graph_rank N_evolve s)%nat.
Proof.
  intros [(Hi & Hv & Hp & Hau & Hsn & Hnd) Hlt] H Hr Ha. apply evolve_Ok in H as (clean & others & w1 & mv & Hs & _ & Hst & _).
  pose proof (apply_move_spec s ((clean <| restored := true |>) :: others) mv) as K. cbv zeta in K. rewrite <- Hst in K.
  destruct K as (_ & _ & K3 & K4 & K5 & K6 & K7 & _ & K9 & K10 & _).
  apply after_hop_frame in Ha as (_ & A2 & A3 & A4 & A5 & A6 & A7 & A8 & _ & Hk & _).
  known_target Hr. apply list_elem_of_singleton in Ht as [= _ Et]. rewrite Et. simpl.
  assert (attempts_left t = attempts_left s) as Hl by (unfold attempts_left; by rewrite A2, A3, K4, K5).
  split; [|rewrite Hl; unfold attempts_left; lia].
  unfold ids_distinct, unversioned, no_dispatched in *. rewrite A2, A3, A5, A7, K4, K5, K6, K9. split_and!; try done; [tauto|tauto| | | |by left].
  - rewrite (invalid_ext s t); congruence.
  - apply Hk. unfold has_snapshot. by rewrite K3.
  - apply (audits_ext s); congruence.
Qed.

(** The nodes after the last score only need the version count. *)
Lemma tail_next n s o r t :
  unversioned s → spent (o_state o) = spent s → budget (o_state o) = budget s → _choose_route n o = Ok r →
  after_hop n o r t → n ∈ [N_distill; N_review; N_reject_draft; N_record_dead_end] →
  ginv (target r) t ∧ (graph_rank (target r) t < graph_rank n s)%nat.
Proof.
  intros [Hv1 Hv2] Hs Hb Hr Ha Hn. pose proof Ha as Ha'.
  apply after_hop_frame in Ha' as (_ & A2 & A3 & _ & _ & _ & _ & _ & (e & Hlog & He) & _).
  assert (unversioned t) as Hv by (unfold unversioned; by rewrite A2, A3, Hs, Hb).
  assert (_TERMINAL_BY_PREDECESSOR n ≠ T_error → ginv N_finalize t) as Hfin.
  { intros Hok. split; [destruct Hv; lia|by eapply ended_after]. }
  known_target Hr.
  apply elem_of_cons in Hn as [->|Hn]; [|apply elem_of_cons in Hn as [->|Hn]; [|apply elem_of_cons in Hn as [->|Hn];
    [|apply list_elem_of_singleton in Hn as ->]]].
  - assert (target r = N_review ∨ target r = N_finalize) as [Et|Et].
    { destruct (verdict_is V_reusable _); [|destruct (verdict_is V_one_off _)]; try (inversion Ht; fail);
        apply list_elem_of_singleton in Ht; injection Ht; auto. }
    + rewrite Et. simpl. split; [done|lia].
    + rewrite Et. split; [by apply Hfin|simpl; lia].
  - assert (target r = N_store ∨ target r = N_reject_draft) as [Et|Et].
    { apply elem_of_cons in Ht as [Ht|Ht]; [injection Ht; auto|]. apply list_elem_of_singleton in Ht. injection Ht; auto. }
    + rewrite Et. simpl. split; [done|lia].
    + rewrite Et. simpl. split; [done|lia].
  - apply list_elem_of_singleton in Ht as [= _ Et]. rewrite Et. split; [by apply Hfin|simpl; lia].
  - apply list_elem_of_singleton in Ht as [= _ Et]. rewrite Et. split; [by apply Hfin|simpl; lia].
Qed.

Lemma store_next s att wd sc w w' o r t :
  ginv N_store s → store svc s (cx s att wd sc) w = (w', Ok o) → _choose_route N_store o = Ok r →
  after_hop N_store o r t → ginv (target r) t ∧ (graph_rank (target r) t < graph_rank N_store s)%nat.
Proof.
  intros [Hv1 Hv2] H Hr Ha. apply store_Ok in H as (u & _ & _ & _ & Hst & _).
  apply after_hop_frame in Ha as (_ & A2 & A3 & _ & _ & _ & _ & _ & (e & Hlog & He) & _). rewrite Hst in *. simpl in *.
  known_target Hr. apply list_elem_of_singleton in Ht as [= _ Et]. rewrite Et. split; [|simpl; lia].
  split; [rewrite A2, A3; simpl; lia|by eapply ended_after].
Qed.

(** ** Discharging the contract *)

Lemma evolve_run_id s c w w' o : evolve svc s c w = (w', Ok o) → run_id (o_state o) = run_id s.
Proof.
  intros H. apply evolve_Ok in H as (clean & others & w1 & mv & _ & _ & -> & _). unfold apply_move.
  by destruct (mv_strategy mv), (mv_drop mv).
Qed.

(** Every node keeps the run id and the budget, and only [store] counts a
    version, and then one. *)
Lemma node_frame n s att wd sc w w' o :
  ginv n s → NODE_FUNCS svc n s (cx s att wd sc) w = (w', Ok o) →
  run_id (o_state o) = run_id s ∧
  s_versions_written (spent (o_state o)) ≤ max_versions_written (budget (o_state o)).
Proof.
  intros Hi H. assert (∀ t, unversioned s → budget t = budget s → spent t = spent s →
    s_versions_written (spent t) ≤ max_versions_written (budget t)) as K by (intros t [] -> ->; lia).
  destruct n; simpl in H.
  - apply intake_Ok in H as [(K1 & K2 & K3 & _) _]. split; [done|]. apply K; [by destruct Hi as (_ & ? & _)|done|done].
  - apply retrieve_Ok in H as [(K1 & K2 & K3 & _) _]. split; [done|]. apply K; [by destruct Hi as (_ & ? & _)|done|done].
  - apply plan_Ok in H as [(K1 & K2 & K3 & _) _]. split; [done|]. apply K; [by destruct Hi as (_ & ? & _)|done|done].
  - apply fan_out_Ok in H as (K1 & K2 & K3 & _). split; [done|]. apply K; [by destruct Hi as (_ & ? & _)|done|done].
  - destruct Hi as (_ & [Hv1 Hv2] & _ & _ & _ & Hd).
    apply solve_closed in H as ((m & _ & _ & _ & (G0 & G1 & _ & _ & _ & _ & _ & _ & _ & _ & _ & _ & G12) & _) & _);
      [|by destruct Hd as [|[? _]]]. split; [done|]. rewrite G1, G12. lia.
  - destruct Hi as (_ & Hv & _). apply validate_Ok in H as (? & ? & ? & ? & _ & _ & -> & _). split; [done|]. by apply K.
  - destruct Hi as (_ & Hv & _). assert (untouched s (o_state o)) as (U0 & U1 & U2 & _).
    { apply join_Ok in H as [[_ Hg]|[_ [[Hf|Hsc] _]]];
        [destruct Hg as (?&?&?&?&?&?&?&?&?&?&?)|destruct Hf as (?&?&?&?&?&?&?&?&?&?&?)|destruct Hsc as (?&?&?&?&?&?&?&?&?&?&?&?&?)]; done. }
    split; [done|]. by apply K.
  - destruct Hi as (_ & Hv & _). apply classify_Ok in H as (? & ? & ? & _ & _ & -> & _). split; [done|]. by apply K.
  - destruct Hi as [(_ & Hv & _) _]. split; [by eapply evolve_run_id|].
    apply evolve_Ok in H as (clean & others & w1 & mv & _ & _ & -> & _).
    destruct (apply_move_spec s ((clean <| restored := true |>) :: others) mv) as (_ & _ & _ & K4 & K5 & _). by apply K.
  - apply distill_Ok in H as [_ (F1 & F2 & _ & _ & _ & _ & _ & F8)]; [|done]. split; [done|]. by apply K.
  - apply review_Ok in H as [-> _]. split; [done|]. by apply K.
  - destruct Hi as [Hv1 Hv2]. apply store_Ok in H as (u & _ & _ & _ & -> & _). simpl. split; [done|lia].
  - apply record_dead_end_Ok in H as [-> _]. split; [done|]. by apply K.
  - apply reject_draft_Ok in H as [-> _]. split; [done|]. by apply K.
  - unfold finalize in H. inv_ok. simpl. destruct Hi as [? _]. done.
Qed.

Lemma node_legal n s att wd sc w w' o :
  ginv n s → n ≠ N_finalize → NODE_FUNCS svc n s (cx s att wd sc) w = (w', Ok o) →
  leaves_legally n o ∨ failed_merge n o.
Proof.
  intros Hi Hn H. destruct (decide (n = N_join)) as [->|Hj]; [simpl in H|left; destruct n; simpl in H; try done].
  - destruct Hi as (Hd & _ & _ & Hau & _). 
    destruct (join_legal svc _ _ _ _ _ scorer Hd Hau H) as [[_ ?]|[[_ ?]|[Hf Hl]]]; [by left|by left|].
    destruct (_required_criteria_pass s) eqn:Ep; [right|left; by apply Hl].
    destruct Hf as (a & sg & _ & Ha & Hma & _ & Hr & Hres & Hcr & _). split_and!; [done|done| |by exists a, (merge_audits s)].
    unfold _required_criteria_pass, required_ids, passed_ids in *. by rewrite Hres, Hcr.
  - by apply intake_Ok in H as [_ ?].
  - by apply retrieve_Ok in H as (_ & _ & ?).
  - by apply plan_Ok in H as (_ & _ & ?).
  - destruct Hi as ((_ & _ & _ & F4) & _). apply fan_out_Ok in H. by eapply fan_out_legal.
  - destruct Hi as (_ & _ & _ & _ & _ & Hd).
    apply solve_closed in H as ((m & _ & _ & _ & _ & Hr) & _); [|by destruct Hd as [|[? _]]].
    destruct Hr as [[Hr [sg Hsg]]|(Hr & Hsg & [tr Htr])]; (eapply leaves_by; [exact Hr|]);
      rewrite legal_edges; unfold _failure_signal_present, has_transcript; rewrite Hsg, ?Htr; left.
  - by eapply validate_leaves_legally.
  - by apply classify_Ok in H as (? & ? & ? & _ & _ & _ & ?).
  - apply evolve_Ok in H as (? & ? & ? & ? & _ & _ & _ & Hr). eapply leaves_by; [exact Hr|]. rewrite legal_edges. left.
  - by eapply distill_legal.
  - apply review_Ok in H as [_ [Hr|[Hr _]]]; (eapply leaves_by; [exact Hr|]); rewrite legal_edges; [right; left|left].
  - apply store_Ok in H as (u & _ & _ & _ & _ & Hr). eapply leaves_by; [exact Hr|]. rewrite legal_edges. left.
  - apply record_dead_end_Ok in H as [_ Hr]. eapply leaves_by; [exact Hr|]. rewrite legal_edges. left.
  - apply reject_draft_Ok in H as [_ Hr]. eapply leaves_by; [exact Hr|]. rewrite legal_edges. left.
Qed.

Lemma node_next n s att wd sc w w' o r t :
  ginv n s → n ≠ N_finalize → NODE_FUNCS svc n s (cx s att wd sc) w = (w', Ok o) →
  _choose_route n o = Ok r → after_hop n o r t → ginv (target r) t ∧ (graph_rank (target r) t < graph_rank n s)%nat.
Proof.
  intros Hi Hn H Hr Ha. destruct n; simpl in H; try done.
  - by eapply intake_next.
  - by eapply retrieve_next.
  - by eapply plan_next.
  - by eapply fan_out_next.
  - by eapply solve_next.
  - by eapply validate_next.
  - by eapply join_next.
  - by eapply classify_next.
  - by eapply evolve_next.
  - apply distill_Ok in H as [_ (F1 & F2 & _)]; [|done]. eapply tail_next; try done. left.
  - apply review_Ok in H as [Hs _]. eapply (tail_next N_review s); try done; try congruence. right; left.
  - by eapply store_next.
  - apply record_dead_end_Ok in H as [Hs _]. eapply (tail_next N_record_dead_end s); try done; try congruence. do 3 right; left.
  - apply reject_draft_Ok in H as [Hs _]. eapply (tail_next N_reject_draft s); try done; try congruence. do 2 right; left.
Qed.

Lemma finalize_decided s c (w w' : W) o :
  ginv N_finalize s → finalize s c w = (w', Ok o) → terminal_decided (o_state o).
Proof.
  intros [_ (e & Hl & He)] H. unfold finalize in H. inv_ok. eexists. split; [reflexivity|]. by rewrite Hl.
Qed.

Definition graph_contract : Contract E.
Proof.
  refine {| inv := ginv; rank := graph_rank; stuck := failed_merge; final := terminal_decided |}.
  - intros n s att wd sc w w' o Hi. rewrite nodes. intros H. exact (proj1 (node_frame n s att wd sc w w' o Hi H)).
  - intros n s att wd sc w w' o Hi. rewrite nodes. intros H. exact (proj2 (node_frame n s att wd sc w w' o Hi H)).
  - intros n s att wd sc w w' o Hi Hn. rewrite nodes. exact (node_legal n s att wd sc w w' o Hi Hn).
  - intros n s att wd sc w w' o r t Hi Hn. rewrite nodes. exact (node_next n s att wd sc w w' o r t Hi Hn).
  - intros s att wd sc w w' o Hi. rewrite nodes. exact (finalize_decided s _ w w' o Hi).
Defined.
End Contract.

(** ** The checkpoint interface over the run database *)

(** The database, with what its connection sees of the lease. *)
Record RunDb {J : Type} := mkRunDb { rd_db : HopDb J; rd_fenced : option Fencing; rd_tenant : string; rd_now : datetime }.
Arguments RunDb : clear implicits.
Arguments mkRunDb {J} _ _ _ _.
Arguments rd_db {J} _.
Arguments rd_fenced {J} _.
Arguments rd_tenant {J} _.
Arguments rd_now {J} _.

#[export] Instance run_db_store {J} `{StateJson J} : CheckpointStore (RunDb J) := {
  ck_latest_seq c run := HopCommit.latest_seq (rd_db c) run;
  ck_latest c run := HopCommit.latest (rd_db c) run;
  ck_save c run tok h :=
    d ← HopCommit.save (rd_tenant c) (rd_fenced c) run tok (rd_now c) h (rd_db c);
    Ok (mkRunDb d (rd_fenced c) (rd_tenant c) (rd_now c)) }.

(** The engine's laws hold of it where every state is read back as dumped. *)
#[export] Instance run_db_laws {J} `{StateJsonLaws J} : CheckpointLaws (RunDb J).
Proof.
  split.
  - intros c run found. simpl. unfold HopCommit.latest. destruct (HopCommit.latest_seq (rd_db c) run) as [q|] eqn:Eq; [|by intros [= <-]].
    unfold HopCommit.latest_seq in Eq. apply zmax_spec in Eq as [Hq _]. apply elem_of_run_seqs in Hq as [cp Hcp].
    simpl. rewrite Hcp. simpl. unfold checkpoint_of. destruct (model_validate_json _) as [st|e]; simpl; [by intros [= <-]|done].
  - intros c run tok h c' Hs Hq. simpl in *. apply bind_Ok_inv in Hs as (d & Hs & Hc). injection Hc as <-. simpl.
    apply (latest_saved _ _ _ _ _ _ _ _ Hs); [exact Hq|apply dumps_read_back].
Qed.

(** ** Runs of the fifteen nodes *)

Lemma initial_inv {W} (svc : Services W) (E : Engine W) rid t cs b a m :
  1 ≤ max_versions_written b → settles_distinct svc E (initial_RunState rid t cs b a m) →
  graph_inv svc E N_intake (initial_RunState rid t cs b a m).
Proof. intros Hb Hd. split_and!; try done. Qed.

Lemma initial_rank rid t cs b a m :
  0 ≤ max_attempts b →
  Z.of_nat (graph_rank N_intake (initial_RunState rid t cs b a m)) = 5 * max_attempts b + 10.
Proof. unfold graph_rank, attempts_left. simpl. lia. Qed.

Section GraphRuns.
  Context {W C : Type} `{CK : CheckpointStore C} `{CL : !CheckpointLaws C} (svc : Services W) (E : Engine W).
  Hypothesis nodes : ∀ n, en_node E n = NODE_FUNCS svc n.
  Hypothesis scorer : scorer_names_criteria svc.
  Hypothesis authoring : authoring_decides svc.
  Variables (tok : option Z) (wd : string) (sc : option (list string)).
  Variables (rid : string) (t : Task) (cs : list TaskCriterion) (b : Budget) (a : Arm) (m : RunManifest).
  Local Notation s0 := (initial_RunState rid t cs b a m).
  Variables (x : W * C) (q : Z).
  (** The budget allows an attempt and a written version; nothing in the source
      enforces the latter, or the distinct ids. *)
  Hypothesis attempts_pos : 1 ≤ max_attempts b.
  Hypothesis versions_allowed : 1 ≤ max_versions_written b.
  Hypothesis distinct : settles_distinct svc E s0.
  Hypothesis after_history : ∀ p, ck_latest_seq x.2 rid = Some p → p < q.
  Local Notation c0 := (mkConfig x s0 N_intake q).

(** C1: From a new run to any point of it: at most [5 * max_attempts + 10] hops
    have been made, and whatever the node then does, if it returns, the
    version guard passes and the route it names is legal, so the engine raises
    no [RoutingError] of its own, except at [join] for a decomposition that
    failed while the earlier results pass.  The run is one whose budget allows
    an attempt and a written version (with a cap of no version the guard of
    [store], masked by an earlier exceeded dimension, lets a write through and
    the engine raises), whose criteria as [intake] settles them have distinct
    ids, whose scorer returns results under the criterion it was given, whose
    authoring never answers [duplicate], and whose sequence numbers start
    above the run's history. *)
Theorem graph_runs_legal k c :
  nsteps (step E tok wd sc) k c0 c →
  Z.of_nat k ≤ 5 * max_attempts b + 10 ∧
  ∀ att w w' o, NODE_FUNCS svc (cf_node c) (cf_state c) (node_context E (cf_state c) att wd sc) w = (w', Ok o) →
    s_versions_written (spent (o_state o)) ≤ max_versions_written (budget (o_state o)) ∧
    (cf_node c ≠ N_finalize → (∃ r, _choose_route (cf_node c) o = Ok r) ∨ failed_merge (cf_node c) o).
Proof.
  intros Hk. pose (CT := graph_contract svc E nodes scorer authoring).
  destruct (runs_stay_legal E tok wd sc k c0 c) as (H1 & _ & H3); [by apply initial_inv|exact after_history|exact Hk|].
  split.
  - etrans; [apply Nat2Z.inj_le, H1|]. simpl rank. rewrite <- (initial_rank rid t cs b a m) by lia. done.
  - intros att w w' o. rewrite <- nodes. apply H3.
Qed.

(** C2: A new run with at most 97 attempts never meets the 500-step valve: the
    loop gives the same result under any larger bound.  When it returns, the
    outcome is solved, unsolved, abstained or rejected, never [error], and it
    is the run's last checkpoint.  The run is as for the hops above. *)
Theorem graph_ends_decided :
  max_attempts b ≤ 97 →
  (∀ left, (MAX_GRAPH_STEPS ≤ left)%nat → exec E tok wd sc left None c0 = exec E tok wd sc MAX_GRAPH_STEPS None c0) ∧
  ∀ y s, exec E tok wd sc MAX_GRAPH_STEPS None c0 = (y, Ok s) →
    terminal_decided s ∧ ∃ p, ck_latest y.2 rid = Ok (Some (p, N_finalize, None, s)).
Proof.
  intros Hm. pose (CT := graph_contract svc E nodes scorer authoring).
  pose proof (run_ends_in_finalize E tok wd sc c0 (initial_inv svc E rid t cs b a m versions_allowed distinct)
    after_history) as K.
  assert (graph_rank N_intake s0 < MAX_GRAPH_STEPS)%nat as Hr; [|exact (K Hr)].
  apply Nat2Z.inj_lt. rewrite MAX_GRAPH_STEPS_Z, initial_rank by lia. lia.
Qed.
End GraphRuns.

(** ** A concrete run: two criteria, the empty memory, the in-memory database *)

Definition demo_engine : Engine unit := {|
  en_node := NODE_FUNCS demo_services; en_context := demo_context; en_tenant := "local";
  en_acquire := λ _, mret 1; en_release := λ _, mret tt; en_heartbeat := mret tt; en_cancelled := mret false;
  en_snapshot := λ _ _, mret "clean"; en_bind := λ _, mret None; en_audit := λ _ _, mret None; en_now := mret 0;
  en_events := λ _ _ _ _ _ _, []; en_import := λ _, mret []; en_meta := λ _, "{}"; en_sync := λ _, mret tt;
  en_on_finalize := λ _, mret tt; en_offload := λ _, mret tt; en_restore := λ _, mret tt |}.

Definition g_state : RunState := demo_state "make" ["a"; "b"].
(** A column that keeps the state as it is. *)
#[local] Instance kept_json : StateJson RunState := { model_dump_json st := st; model_validate_json := Ok }.
#[local] Instance kept_json_laws : StateJsonLaws RunState. Proof. by split. Qed.
Definition Db : Type := RunDb RunState.
Definition g_db : Db := mkRunDb empty_db None "local" 0.
Definition g_start : Config := mkConfig (tt, g_db) g_state N_intake 0.

Lemma g_distinct : settles_distinct demo_services demo_engine g_state.
Proof.
  intros att wd sc [] w' o H. unfold intake in H. simpl in H. injection H as _ <-.
  apply (bool_decide_unpack _). vm_compute. exact I.
Defined.

Lemma g_unwritten p : ck_latest_seq g_db "r1" = Some p → p < 0.
Proof. vm_compute. discriminate. Qed.

Definition or_start (r : (unit * Db) * result RunState) : RunState := match r.2 with Ok s => s | Err _ => g_state end.

Lemma graph_runs_legal_witness :
  nsteps (step demo_engine (Some 1) "/w" None) 0 g_start g_start ∧
  ∃ o, NODE_FUNCS demo_services N_intake g_state (node_context demo_engine g_state 0 "/w" None) tt = (tt, Ok o) ∧
    ((∃ r, _choose_route N_intake o = Ok r) ∨ failed_merge N_intake o).
Proof.
  split; [constructor|]. eexists. split; [vm_compute; reflexivity|].
  eapply (graph_runs_legal (C := Db) demo_services demo_engine (λ _, eq_refl) (demo_names true) demo_authoring
    (Some 1) "/w" None "r1" (demo_task "make") (map demo_criterion ["a"; "b"]) default_Budget treatment default_Manifest
    (tt, g_db) 0) with (k := 0%nat) (c := g_start) (att := 0) (w := tt) (w' := tt).
  - vm_compute. discriminate.
  - vm_compute. discriminate.
  - exact g_distinct.
  - exact g_unwritten.
  - constructor.
  - vm_compute. reflexivity.
  - discriminate.
Defined.

Lemma graph_ends_decided_witness : ∃ y s,
  exec demo_engine (Some 1) "/w" None MAX_GRAPH_STEPS None g_start = (y, Ok s) ∧ terminal_decided s.
Proof.
  eexists _, _. split; [vm_compute; reflexivity|].
  eapply (graph_ends_decided (C := Db) demo_services demo_engine (λ _, eq_refl) (demo_names true) demo_authoring
    (Some 1) "/w" None "r1" (demo_task "make") (map demo_criterion ["a"; "b"]) default_Budget treatment default_Manifest
    (tt, g_db) 0).
  - vm_compute. discriminate.
  - vm_compute. discriminate.
  - exact g_distinct.
  - exact g_unwritten.
  - vm_compute. discriminate.
  - vm_compute. reflexivity.
Defined.

Definition g_contract : Contract demo_engine :=
  graph_contract demo_services demo_engine (λ _, eq_refl) (demo_names true) demo_authoring.

Lemma g_inv : graph_inv demo_services demo_engine N_intake g_state.
Proof. apply initial_inv; [vm_compute; discriminate|exact g_distinct]. Defined.



(** The database after another start's [intake] hop. *)
Definition g_first : (unit * Db) * result RunState :=
  _execute demo_engine (Some 1) "/w" None (Some 1%nat) g_state N_intake None (tt, g_db).
Definition g_second : (unit * Db) * result RunState :=
  _execute demo_engine (Some 2) "/w" None (Some 1%nat) g_state N_intake None g_first.1.

Lemma start_check_races_witness :
  ∃ next, ck_latest g_second.1.2 "r1" = Ok (Some (1, N_intake, Some next, or_start g_second)).
Proof.
  eapply (start_check_races (CT := g_contract) demo_engine g_state "/w" None (Some 2) tt g_first.1.2 0 N_intake N_retrieve
            (or_start g_first)).
  - exact g_inv.
  - vm_compute. reflexivity.
  - vm_compute. reflexivity.
Defined.

Lemma start_and_resume_guards_witness :
  start demo_engine g_state "/w" None None (tt, g_first.1.2) = ((tt, g_first.1.2), Err RunIdExistsError).
Proof.
  refine (proj1 (start_and_resume_guards demo_engine g_state "r1" "/w" None None (Some 1) tt g_first.1.2) 0 _).
  vm_compute. reflexivity.
Defined.
